(* ===== verification/_CoqProject ===== *)
-Q . S2P
Prelude.v
Strings.v
Utf8.v
Json.v
Value.v
Contract.v
ContractCodec.v
CodecTheorems.v
History.v
Broker.v
BrokerTheorems.v
Scope.v
PendingInteraction.v
Requests.v
RequestsTheorems.v
Outcome.v
Upgrade.v
UpgradeTheorems.v
UpgradeAdmission.v
Change.v
ChangeTheorems.v
Delivery.v
DeliveryTheorems.v
Observation.v
ObservationTheorems.v
Journal.v
JournalTheorems.v
Replicator.v
ReplicatorTheorems.v
OAuth.v
OAuthTheorems.v
RepositoryKey.v
RepositoryKeyTheorems.v
Config.v
ConfigTheorems.v
NamedRoots.v
NamedRootsTheorems.v
SessionRuntime.v
ConsoleTextTheorems.v
SessionRuntimeTheorems.v
SessionStart.v
SessionStartTheorems.v
SessionWitness.v
Supervisor.v
SupervisorTheorems.v
SupervisorWitness.v
LinuxPolicy.v
Seccomp.v
Bwrap.v
BwrapTheorems.v
BwrapCommands.v
BwrapWitness.v
Access.v
AccessTheorems.v
AccessWitness.v
EventsSender.v
EventsSenderTheorems.v
EventsSenderWitness.v
EventsHost.v
EventsHostTheorems.v
EventsHostTurns.v
EventsHostWitness.v
PromptIngress.v
PromptTheorems.v
PromptWitness.v
Lifecycle.v
LifecycleTheorems.v
ReportContract.v
ReportSchema.v
TaskRecord.v
Derive.v
Tasks.v
TasksTheorems.v
TaskLimits.v
TaskWitness.v
