(* ===== verification/Prelude.v ===== *)
(** * A verification of temote-mcp

    temote-mcp runs coding agents on a host and exposes them to an operator:
    it parses task requests, runs them on a backend, publishes what happens as
    activity events, keeps durable records of the work (Changes), plans and
    reconciles its delivery as pull requests, and upgrades itself without
    losing sessions.  This library models the decision-making core of that
    program (the Rust crate under src/src/) as executable functions and proves
    what the core promises.

    ** Files

    - Prelude: Rust's [Result], [Option] and integer operations (a [u64] is a
      [Z] with its bounds written out), strings as bytes, stable sorting by
      key, and the automation the other files share ([inv_ok], [rust_norm],
      the hint databases [rust]).
    - Json: the data model of serde and the interfaces of the crates the
      program calls: [SerdeJson] (serde_json), [UuidLib] (uuid), [JsonValue]
      (accessors of [serde_json::Value]), each with its documented laws in a
      class of its own; and [JsonModel], concrete instances for the witnesses.
    - Contract: activity/contract.rs, vocabularies, records, validation.
    - ContractCodec, CodecTheorems: the serde visitors and the four
      [encode_*]/[decode_*] functions of activity/contract.rs.
    - History: activity/history.rs, the bounded ring of events.
    - Broker, BrokerTheorems: activity/broker.rs, publication, subscription and
      the receiver with its lag accounting.
    - Scope: activity/scope.rs, the life cycle of one activity.
    - PendingInteraction: pending_interaction.rs, summaries of pending prompts.
    - Requests, RequestsTheorems: orchestration/requests.rs, the typed request
      boundary, with [codex_continuation] of codex_app_server.rs.
    - Outcome: orchestration/outcome.rs (verification, delivery and execution
      views) and orchestration/wait.rs (the bounded wait [for_update]).
    - Upgrade, UpgradeTheorems: upgrade_transaction.rs, durable upgrade records,
      admission, the commit barrier and the coordinator, with the identifier
      checks of host_identity.rs and config.rs; UpgradeAdmission:
      [prepare_apply] of upgrade_coordinator.rs.
    - Change, ChangeTheorems: change.rs, durable Changes and the writer lease.
    - Delivery, DeliveryTheorems: delivery.rs, plans, receipts, reconciliation.
    - Strings, Utf8: the operations of [str] and [Path] the files below use, on
      bytes, and lemmas about UTF-8 and splitting.
    - Observation, ObservationTheorems: observation.rs, what is recorded of
      instructions, outcomes and views.
    - Journal, JournalTheorems: observation/store.rs, the append-only journal,
      as a program of any number of processes over two files.
    - Replicator, ReplicatorTheorems: observation/replicator.rs, how the journal
      reaches the gateway.
    - RepositoryKey, RepositoryKeyTheorems: observation/repository.rs.
    - OAuth, OAuthTheorems: local_oauth.rs, the authorization server as a
      transition system of requests.
    - Access, AccessTheorems, AccessWitness: access.rs, authentication by signed
      assertions of the edge, as a transition system of requests.
    - EventsSender, EventsSenderTheorems, EventsSenderWitness: events_sender.rs,
      the delivery of signed events.
    - EventsHost, EventsHostTheorems, EventsHostTurns, EventsHostWitness:
      events_host.rs, the queue of transitions and its delivery by any number of
      links.
    - PromptIngress, PromptTheorems, PromptWitness: prompt_ingress.rs, the store of
      observed prompts and its socket.
    - Config, ConfigTheorems: config.rs, sessions, their modes and grants, and
      the validity of loaded metadata.
    - NamedRoots, NamedRootsTheorems: named_roots.rs, logical paths below the
      configured roots.
    - SessionRuntime, SessionRuntimeTheorems: approvals.rs, the loop of a
      session runtime and its approval tasks; ConsoleTextTheorems: what the
      console shows; SessionStart, SessionStartTheorems: how a session starts,
      ends and is forgotten; SessionWitness: concrete runs.
    - Supervisor, SupervisorTheorems, SupervisorWitness: supervisor.rs, the table
      of runtimes with restarts, starts, stops and upgrades.
    - LinuxPolicy, Bwrap, BwrapTheorems, BwrapCommands, BwrapWitness:
      sandbox/linux/policy.rs and helper.rs, the policy of a sandboxed command
      and the mounts made from it; Seccomp: the system call filter.
    - Lifecycle, LifecycleTheorems: the fence between a session's operations,
      its shutdown and its replacement (opencode_server.rs, with the twins in
      codex_app_server.rs and devin_acp.rs).
    - Value: [serde_json::Value]; ReportContract, ReportSchema: report_contract.rs,
      the validators of worker reports and the schemas given to the workers.
    - TaskRecord, Derive, Tasks, TasksTheorems, TaskLimits, TaskWitness:
      opencode_server.rs, the durable task records, what is derived from a
      server's answers, the task store and every closure run on a record.

    A definition has the name of the function or type it translates; where a
    function is split (a loop, the closure of an update, the part before a
    write) the pieces compose to a definition with the function's name.

    ** How the parts meet

    An [ActivityScope] turns the life of an operation into [ActivityUpdate]s;
    [publish] stamps each one into an [ActivityEvent], encodes it, pushes it on
    the [ActivityHistory] and sends it on the live channel; a subscriber reads
    the history's tail and then the channel.  [TaskRequest]s are parsed before
    any backend is called; [for_update] polls a backend for a view.  Changes
    live in one [ChangeStore] per owner scope; [Delivery] plans over its
    records and keeps its receipts in them through [Change.update].  A session
    is a [Config.Session]; [spawn_runtime_inner] starts an instance of it, whose
    [Runtime] publishes through the broker, changes its grants through
    [apply_session_grants] and refuses what is bound to another instance; the
    supervisor owns the runtimes, resolves where they start through [NamedRoots],
    and sends them the commands of the host; the
    fence of Lifecycle and the task store are keyed by the same instances.

    ** State and environment

    State is passed explicitly: a function that changes a store, a history or
    a world returns the new one.  A function that runs under a lock from its
    first read to its last write is one step; where the code reads before it
    takes the lock, the model takes what was seen and what is there as two
    arguments; where it reads more than once, what each of its reads saw
    ([ReadAt] of Delivery), and the claims say when the reads happened: anywhere
    in a [history] of the store.  A write of a record is its steps on the
    directory, each of which can fail, with the clean-up ([write_transaction]).
    The commit barrier is its watch channel with every interleaving of the
    transport and the waiting coordinator ([wait_decision]).  A panic under a
    lock poisons it ([Scope.transition]).  A transition of the supervisor holds its
    lock from the first check to the last write and is one step; the maintenance
    pass also runs without that lock, so an automatic restart is given as the two
    steps that something can come between ([claim_restart], [finish_restart]).  Where requests, tasks or processes
    interleave, the component is a transition system: an executable [step] on
    labels, and runs of it as an inductive relation or a list of labels
    ([SessionRuntime.run], [OAuthTheorems], [LifecycleTheorems], the runs of the
    journal and of the task store).  What the environment decides is an
    argument or part of a label: the clock, the outcome of [try_lock], of a
    write or of an emission, fresh identifiers, the messages of a channel, the
    answers and delays of a backend (class [Outcome.Tokio]), what a path
    resolves to, what a directory lists, the executor of an upgrade (class
    [UpgradeCoordinatorExecutor]).  Derived serde code of the durable records is
    a class with a round-trip law ([TransactionCodec], [ChangeCodec],
    [ObservationCodec], [TaskCodec]); SHA-256, UUID v5 and the url crate are
    functions and a class with laws ([UrlLib]).

    ** What the theorems show

    - Codec: the round trips; that a valid event never exceeds the wire limit;
      that the decoder accepts the ten fields exactly.
    - History, Broker: every bound, the longest retained suffix, gapless
      sequence numbers, a subscription as a consistent cut, and a receiver that
      accounts for every event as delivered, filtered or inside one gap.
    - Scope: the updates of an activity form one well-formed life that ends
      once, and can always be ended unless a panic poisoned it.
    - PendingInteraction: the exact observations accepted and the revision rule;
      nothing ever reads as "none" but a fresh, well-formed observation of it.
    - Requests: for every operation and backend, exactly the requests accepted
      and what they become; the host/cloud boundary.
    - Outcome: passed verifications are current ones; waits are bounded and
      return only what the backend said.
    - Upgrade: a record moves forward only; a write reads back or leaves every
      record as it was, with at most a temporary file that is never listed;
      after any faults the durable record is readable and agrees with the
      answer; destructive phases run in order and only when the first decision
      on the barrier was commit.  UpgradeAdmission: an upgrade is started only
      when no other has an owner, and admission leaves at most one unfinished.
    - Change: the store invariant under all operations and write outcomes,
      optimistic revisions, the writer fence, verifications that follow their
      content but for the first snapshot, idempotent creation.
    - Delivery: plans are complete topological orders of verified Changes and
      exist whenever they can; an intent is claimed once in every history of
      the store; a delivery completes only on matching remote evidence; and every
      delivery operation keeps the invariant of the Change store.
    - Journal: every interleaving of processes refines an append-once log; its
      size is bounded; what a torn write does to it.  Observation: what is
      recorded is bounded and free of denied keys.  RepositoryKey: a key is
      canonical.
    - Replicator: no record is skipped, sessions take turns, failures back off,
      and what was said stays on the host unless previews are on.
    - NamedRoots: a logical path resolves below the root it names, and a
      directory's logical path resolves to it again; a generated path is confined.
    - OAuth: every token traces back to a request the owner allowed; every
      registry is bounded.
    - Access: an identity is answered only for an authentic token, and for every one.
    - EventsSender: what is sent, to which addresses and for whom; when an
      endpoint is verified; the accepted times are those of the calendar.
    - EventsHost: a record leaves the queue only when it was answered or expired;
      what is posted is authentic; the queue is bounded; every record is tried,
      except after one that cannot be read.
    - PromptIngress: a source is accepted once; what is stored is intact; a session
      sees its own prompts, the newest 64; what an oversized record does.
    - Config, SessionRuntime, SessionStart: what a session may do was given to
      it by the operator, the host or its mode; an operation is allowed only
      with that authority; every client is answered once; a quiesced runtime is
      frozen; instances are never confused.
    - Supervisor: a session starts only where it may; a crash loop ends; quiescing
      and restoring take all sessions or none, except where a session vanished.
    - Bwrap, Seccomp: what a sandboxed command may write, exactly; the metadata of
      a repository stays protected; which sockets it may create.
    - Lifecycle: closing is a fence, waiting shutdowns return.
    - Report: each validator accepts exactly what meets the schema.  Tasks: a
      record evolves soundly, a control is accepted once, every scope is
      bounded, ending a session ends its tasks.

    The theorems named in the findings of the manifest state what the code does
    where it differs from what its comments or documents say.

    ** Fuel

    [for_update] is given one unit per probe: a wait of at most thirty seconds
    returns within seventeen.  [recv_all] counts calls of [recv]: two per
    channel outcome and one more reach the point where the receiver waits.
    [plan] is given one unit per pass over the Changes: as many passes as there
    are Changes always reach an answer.  [fit_raw_result_to_record_limit] halves
    its text at each unit: as many units as the text has bytes, and two more,
    reach an answer whenever there is one ([fit_raw_result_ends]; and
    [fit_raw_result_diverges] shows a record for which there is none).
    Everything else is structural.

    ** Not modelled

    Processes, sockets, HTTP routes, git and jj, terminal output, the macOS
    sandbox and the host's part of the sandbox, and the protocol clients of the
    backends, which are effects around this core.  The activity renderer, the
    upgrade coordinator's child process with its executor, the packets of local
    tasks and the interactions of the backends have logic of their own that is
    left out.  Inside the modelled files: lock files, directory creation and
    permission checks, [Display] of paths in error texts, and test-only
    functions. *)

From Stdlib Require Export ZArith Ascii String.
From stdpp Require Export base list strings gmap option sorting.
#[global] Open Scope Z_scope.

(** * Fallible code: Rust's [Result] *)

Inductive result (E A : Type) : Type :=
| Ok (a : A)
| Err (e : E).
Arguments Ok {E A} a.
Arguments Err {E A} e.

Declare Scope rust_scope.
Delimit Scope rust_scope with rust.
#[global] Open Scope rust_scope.

(** [r?] followed by the rest of the function. *)
Definition bind {E A B : Type} (r : result E A) (k : A -> result E B) : result E B :=
  match r with
  | Ok a => k a
  | Err e => Err e
  end.

Notation "'let!' x ':=' c 'in' k" := (bind c (fun x => k))
  (at level 10, x pattern, c at level 100, k at level 200) : rust_scope.
Notation "c ';!' k" := (bind c (fun _ : unit => k))
  (at level 100, k at level 200, right associativity) : rust_scope.

(** [anyhow::ensure!(b, e)]; also [if !b { return Err(e) }]. *)
Definition ensure {E : Type} (b : bool) (e : E) : result E unit :=
  if b then Ok tt else Err e.

(** [Option::ok_or] and [anyhow::Context::context] on an [Option]. *)
Definition ok_or {E A : Type} (o : option A) (e : E) : result E A :=
  match o with
  | Some a => Ok a
  | None => Err e
  end.

(** [Result::map_err]. *)
Definition map_err {E F A : Type} (f : E -> F) (r : result E A) : result F A :=
  match r with
  | Ok a => Ok a
  | Err e => Err (f e)
  end.

Definition is_ok {E A : Type} (r : result E A) : bool :=
  match r with
  | Ok _ => true
  | Err _ => false
  end.

(** [Option::is_none_or]. *)
Definition is_none_or {A : Type} (f : A -> bool) (o : option A) : bool :=
  match o with
  | None => true
  | Some a => f a
  end.

(** [Option::is_some_and]. *)
Definition is_some_and {A : Type} (f : A -> bool) (o : option A) : bool :=
  match o with
  | None => false
  | Some a => f a
  end.

Definition is_none {A : Type} (o : option A) : bool := is_none_or (fun _ => false) o.
Definition is_some {A : Type} (o : option A) : bool := is_some_and (fun _ => true) o.

#[global] Instance result_eq_dec {E A : Type} `{EqDecision E, EqDecision A} :
  EqDecision (result E A).
Proof. solve_decision. Defined.

(** * Machine integers

    A [u64], [u32] or [usize] (64-bit targets) is a [Z]; the range is a
    predicate, and the checked and saturating operations are written out. *)

Definition U64_MAX : Z := 18446744073709551615.
Definition u64 (n : Z) : Prop := 0 <= n <= U64_MAX.

Definition checked_add (a b : Z) : option Z :=
  if a + b <=? U64_MAX then Some (a + b) else None.
Definition checked_sub (a b : Z) : option Z :=
  if b <=? a then Some (a - b) else None.
Definition saturating_add (a b : Z) : Z := Z.min (a + b) U64_MAX.
Definition saturating_sub (a b : Z) : Z := Z.max (a - b) 0.

(** * Rust strings

    A [str] is its UTF-8 bytes; [chars] decodes them (the bytes of a Rust
    string are valid UTF-8, so no case for malformed input is reachable). *)

Definition byte_of (a : ascii) : Z := Z.of_N (N_of_ascii a).
Definition str_bytes (s : string) : list Z := map byte_of (list_ascii_of_string s).
Definition str_len (s : string) : Z := Z.of_nat (String.length s).
Definition str_is_empty (s : string) : bool := str_len s =? 0.

Fixpoint utf8_decode (l : list Z) : list Z :=
  match l with
  | [] => []
  | b0 :: l1 =>
      if b0 <? 128 then b0 :: utf8_decode l1
      else match l1 with
      | [] => []
      | b1 :: l2 =>
          if b0 <? 224 then Z.land b0 31 * 64 + Z.land b1 63 :: utf8_decode l2
          else match l2 with
          | [] => []
          | b2 :: l3 =>
              if b0 <? 240
              then (Z.land b0 15 * 64 + Z.land b1 63) * 64 + Z.land b2 63 :: utf8_decode l3
              else match l3 with
              | [] => []
              | b3 :: l4 =>
                  ((Z.land b0 7 * 64 + Z.land b1 63) * 64 + Z.land b2 63) * 64 + Z.land b3 63
                  :: utf8_decode l4
              end
          end
      end
  end.

Definition chars (s : string) : list Z := utf8_decode (str_bytes s).

(** Well-formedness of the bytes, as far as the lemmas need it: the bytes after
    a lead byte are continuation bytes.  Every Rust [str] satisfies it. *)
Definition is_continuation (b : Z) : bool := (128 <=? b) && (b <=? 191).

Fixpoint utf8_ok (l : list Z) : bool :=
  match l with
  | [] => true
  | b0 :: l1 =>
      if b0 <? 128 then utf8_ok l1
      else match l1 with
      | [] => false
      | b1 :: l2 =>
          is_continuation b1 &&
          if b0 <? 224 then utf8_ok l2
          else match l2 with
          | [] => false
          | b2 :: l3 =>
              is_continuation b2 &&
              if b0 <? 240 then utf8_ok l3
              else match l3 with
              | [] => false
              | b3 :: l4 => is_continuation b3 && utf8_ok l4
              end
          end
      end
  end.

Definition str_utf8 (s : string) : Prop := utf8_ok (str_bytes s) = true.

Definition in_range (lo hi c : Z) : bool := (lo <=? c) && (c <=? hi).

(** [u8::is_ascii_alphanumeric], [u8::is_ascii_digit]. *)
Definition is_ascii_digit (b : Z) : bool := in_range 48 57 b.
Definition is_ascii_alphanumeric (b : Z) : bool :=
  is_ascii_digit b || in_range 65 90 b || in_range 97 122 b.

(** [char::is_control]: general category Cc. *)
Definition is_control (c : Z) : bool := in_range 0 31 c || in_range 127 159 c.

(** [char::is_whitespace]: the White_Space property, used by [str::trim]. *)
Definition is_whitespace (c : Z) : bool :=
  in_range 9 13 c || (c =? 32) || (c =? 133) || (c =? 160) || (c =? 5760)
  || in_range 8192 8202 c || (c =? 8232) || (c =? 8233) || (c =? 8239)
  || (c =? 8287) || (c =? 12288).

(** [s.trim().is_empty()]. *)
Definition trim_is_empty (s : string) : bool := forallb is_whitespace (chars s).

(** [s.contains(c)] for an ASCII character [c]. *)
Definition str_contains (c : Z) (s : string) : bool := existsb (Z.eqb c) (str_bytes s).

(** [match v { "a" => x, ... , _ => None }] on string literals. *)
Fixpoint match_str {A : Type} (v : string) (arms : list (string * A)) : option A :=
  match arms with
  | [] => None
  | (k, a) :: rest => if String.eqb v k then Some a else match_str v rest
  end.

(** [slice::sort_by_key]: a stable sort. *)
Fixpoint insert_by_key {A : Type} (key : A -> Z) (a : A) (l : list A) : list A :=
  match l with
  | [] => [a]
  | b :: rest => if key a <=? key b then a :: l else b :: insert_by_key key a rest
  end.

Fixpoint sort_by_key {A : Type} (key : A -> Z) (l : list A) : list A :=
  match l with
  | [] => []
  | a :: rest => insert_by_key key a (sort_by_key key rest)
  end.

(** Sums and lengths as [Z]. *)
Definition sum_z (l : list Z) : Z := fold_right Z.add 0 l.
Definition zlen {A : Type} (l : list A) : Z := Z.of_nat (length l).

(** [iter().skip(n)] for [n : usize]. *)
Definition zdrop {A : Type} (n : Z) (l : list A) : list A := drop (Z.to_nat n) l.
Definition ztake {A : Type} (n : Z) (l : list A) : list A := take (Z.to_nat n) l.

(** * Lemmas on results *)

Lemma bind_Ok {E A B : Type} (r : result E A) (k : A -> result E B) (b : B) :
  bind r k = Ok b <-> exists a, r = Ok a /\ k a = Ok b.
Proof. destruct r; simpl; naive_solver. Qed.

Lemma ensure_Ok {E : Type} (b : bool) (e : E) (u : unit) :
  ensure b e = Ok u <-> b = true.
Proof. destruct u, b; simpl; naive_solver. Qed.

Lemma ok_or_Ok {E A : Type} (o : option A) (e : E) (a : A) :
  ok_or o e = Ok a <-> o = Some a.
Proof. destruct o; simpl; naive_solver. Qed.

Lemma map_err_Ok {E F A : Type} (f : E -> F) (r : result E A) (a : A) :
  map_err f r = Ok a <-> r = Ok a.
Proof. destruct r; simpl; naive_solver. Qed.

Lemma bind_ensure {E A : Type} (b : bool) (e : E) (k : unit -> result E A) :
  bind (ensure b e) k = if b then k tt else Err e.
Proof. by destruct b. Qed.

Lemma is_ok_true {E A : Type} (r : result E A) : is_ok r = true <-> exists a, r = Ok a.
Proof. destruct r; simpl; naive_solver. Qed.

Lemma is_none_true {A : Type} (o : option A) : is_none o = true <-> o = None.
Proof. destruct o; simpl; naive_solver. Qed.

Lemma is_some_true {A : Type} (o : option A) : is_some o = true <-> o <> None.
Proof. destruct o; simpl; naive_solver. Qed.

Lemma is_none_or_true {A : Type} (f : A -> bool) (o : option A) :
  is_none_or f o = true <-> forall a, o = Some a -> f a = true.
Proof. destruct o; simpl; naive_solver. Qed.

(** * Lemmas on machine integers *)

Lemma checked_add_Some (a b c : Z) :
  checked_add a b = Some c <-> c = a + b /\ a + b <= U64_MAX.
Proof. unfold checked_add. destruct (Z.leb_spec (a + b) U64_MAX); naive_solver lia. Qed.

Lemma checked_sub_Some (a b c : Z) :
  checked_sub a b = Some c <-> c = a - b /\ b <= a.
Proof. unfold checked_sub. destruct (Z.leb_spec b a); naive_solver lia. Qed.

Lemma saturating_add_u64 (a b : Z) : u64 a -> u64 b -> u64 (saturating_add a b).
Proof. unfold saturating_add, u64, U64_MAX. lia. Qed.

Lemma saturating_add_exact (a b : Z) : a + b <= U64_MAX -> saturating_add a b = a + b.
Proof. unfold saturating_add. lia. Qed.

Lemma in_range_true (lo hi c : Z) : in_range lo hi c = true <-> lo <= c <= hi.
Proof. unfold in_range. rewrite andb_true_iff, !Z.leb_le. done. Qed.

(** * Lemmas on strings *)

Lemma str_len_nonneg (s : string) : 0 <= str_len s.
Proof. unfold str_len. lia. Qed.

Lemma str_len_append (a b : string) : str_len (a +:+ b) = str_len a + str_len b.
Proof.
  unfold str_len. rewrite <- Nat2Z.inj_add. f_equal.
  induction a as [|c a IH]; [done|].
  change (String c a +:+ b) with (String c (a +:+ b)). simpl. congruence.
Qed.

Lemma str_bytes_length (s : string) : Z.of_nat (length (str_bytes s)) = str_len s.
Proof.
  unfold str_bytes, str_len. rewrite length_map.
  induction s as [|c s IH]; simpl; lia.
Qed.

Lemma byte_of_range (a : ascii) : 0 <= byte_of a <= 255.
Proof. unfold byte_of. pose proof (N_ascii_bounded a). lia. Qed.

(** * Automation *)

Create HintDb rust discriminated.
Create Rewrite HintDb rust.
#[export] Hint Rewrite @bind_Ok @ensure_Ok @ok_or_Ok @map_err_Ok @bind_ensure @is_ok_true
  @is_none_true @is_some_true checked_add_Some checked_sub_Some in_range_true
  andb_true_iff orb_true_iff negb_true_iff
  Z.leb_le Z.ltb_lt Z.eqb_eq Z.leb_gt Z.ltb_ge Z.eqb_neq : rust.
#[export] Hint Resolve str_len_nonneg saturating_add_u64 : rust.

(** [inv_ok H] turns [H : f x = Ok b] for straight-line fallible code into the
    equations of its steps. *)
Ltac inv_ok_step :=
  match goal with
  | H : bind _ _ = Ok _ |- _ => apply bind_Ok in H as (? & ? & ?)
  | H : ensure _ _ = Ok _ |- _ => apply ensure_Ok in H
  | H : ok_or _ _ = Ok _ |- _ => apply ok_or_Ok in H
  | H : map_err _ _ = Ok _ |- _ => apply map_err_Ok in H
  | H : @Ok ?E ?A _ = @Ok ?E ?A _ |- _ => injection H as H; try subst
  | H : Err _ = Ok _ |- _ => discriminate H
  | H : Ok _ = Err _ |- _ => discriminate H
  | H : (let '(_, _) := ?p in _) = Ok _ |- _ => destruct p
  | u : unit |- _ => destruct u
  end.
Ltac inv_ok := repeat inv_ok_step.

(** Booleans of the code as propositions, everywhere. *)
Ltac rust_norm := autorewrite with rust in *.
Ltac rust_solve := rust_norm; naive_solver lia.

(** Case analysis on the tests a goal or a hypothesis branches on. *)
Ltac case_all := repeat (case_match; simplify_eq/=; try done).

(** In well-formed text an ASCII byte is a character of its own. *)
Lemma utf8_ascii_byte (l : list Z) (b : Z) :
  utf8_ok l = true -> b ∈ l -> b < 128 -> b ∈ utf8_decode l.
Proof.
  intros Hok Hin Hb. revert Hok Hin.
  induction l as [l IH] using (induction_ltof1 _ (@length Z)). unfold ltof in IH.
  destruct l as [|b0 l1]; [done|]. simpl. intros Hok Hin.
  destruct (Z.ltb_spec b0 128).
  { apply elem_of_cons in Hin as [->|Hin]; [left|right]. by apply IH; [simpl; lia|..]. }
  destruct l1 as [|b1 l2]; [done|]. unfold is_continuation in Hok.
  repeat (case_match; simpl in * ); try done; rust_norm; destruct_and?; try done; right;
    (apply IH; [simpl; lia|done|]);
    repeat (apply elem_of_cons in Hin as [->|Hin]; [lia|]); done.
Qed.

(** * Lemmas on lists *)

Lemma sum_z_app (a b : list Z) : sum_z (a ++ b) = sum_z a + sum_z b.
Proof. unfold sum_z. induction a as [|x a IH]; simpl; lia. Qed.

Lemma sum_z_nonneg (l : list Z) : Forall (fun z => 0 <= z) l -> 0 <= sum_z l.
Proof. unfold sum_z. induction 1; simpl; lia. Qed.

Lemma sum_z_map_le {A : Type} (f : A -> Z) (k : Z) (l : list A) :
  Forall (fun a => f a <= k) l -> sum_z (map f l) <= k * zlen l.
Proof. unfold sum_z, zlen. induction 1; cbn [map fold_right length]; lia. Qed.

Lemma zlen_app {A : Type} (a b : list A) : zlen (a ++ b) = zlen a + zlen b.
Proof. unfold zlen. rewrite length_app. lia. Qed.

Lemma zlen_cons {A : Type} (a : A) (b : list A) : zlen (a :: b) = 1 + zlen b.
Proof. unfold zlen. cbn [length]. lia. Qed.

Lemma zlen_nonneg {A : Type} (l : list A) : 0 <= zlen l.
Proof. unfold zlen. lia. Qed.

(** [l] is in increasing order of [key]. *)
Definition key_sorted {A : Type} (key : A -> Z) (l : list A) : Prop :=
  StronglySorted (fun a b => key a < key b) l.

Lemma insert_by_key_perm {A : Type} (key : A -> Z) (a : A) (l : list A) :
  insert_by_key key a l ≡ₚ a :: l.
Proof.
  induction l as [|b l IH]; simpl; [done|]. case_match; [done|].
  rewrite IH. apply Permutation_swap.
Qed.

Lemma sort_by_key_perm {A : Type} (key : A -> Z) (l : list A) : sort_by_key key l ≡ₚ l.
Proof. induction l as [|a l IH]; simpl; [done|]. by rewrite insert_by_key_perm, IH. Qed.

Lemma insert_by_key_sorted {A : Type} (key : A -> Z) (a : A) (l : list A) :
  StronglySorted (fun x y => key x <= key y) l ->
  StronglySorted (fun x y => key x <= key y) (insert_by_key key a l).
Proof.
  induction 1 as [|b l Hs IH Hb]; simpl; [repeat constructor|].
  case_match; rust_norm.
  - constructor; [by constructor|]. constructor; [done|].
    eapply Forall_impl; [done|]. simpl. lia.
  - constructor; [done|]. rewrite insert_by_key_perm. constructor; [lia|done].
Qed.

Lemma sort_by_key_sorted {A : Type} (key : A -> Z) (l : list A) :
  StronglySorted (fun x y => key x <= key y) (sort_by_key key l).
Proof. induction l; simpl; [constructor|by apply insert_by_key_sorted]. Qed.

(** Sorting a sorted list changes nothing. *)
Lemma sort_by_key_id {A : Type} (key : A -> Z) (l : list A) :
  key_sorted key l -> sort_by_key key l = l.
Proof.
  induction 1 as [|a l Hs IH Ha]; simpl; [done|]. rewrite IH.
  destruct l as [|b l]; [done|]. simpl. inversion Ha; subst.
  case_match; rust_norm; [done|lia].
Qed.

Lemma key_sorted_filter {A : Type} (key : A -> Z) (f : A -> bool) (l : list A) :
  key_sorted key l -> key_sorted key (List.filter f l).
Proof.
  induction 1 as [|a l Hs IH Ha]; simpl; [constructor|]. case_match; [|done].
  constructor; [done|]. rewrite Forall_forall in Ha |- *. intros x Hx.
  apply Ha. rewrite list_elem_of_In in Hx |- *. by apply filter_In in Hx as [? _].
Qed.

Lemma key_sorted_app {A : Type} (key : A -> Z) (a b : list A) :
  key_sorted key (a ++ b) <->
  key_sorted key a /\ key_sorted key b /\ forall x y, x ∈ a -> y ∈ b -> key x < key y.
Proof.
  unfold key_sorted. induction a as [|x a IH]; simpl.
  - split; [intros; split_and!; [constructor|done|set_solver]|naive_solver].
  - split.
    + inversion 1 as [|? ? Hs Ha]; subst. apply IH in Hs as (Hsa & Hsb & Hab).
      apply Forall_app in Ha as [Ha Hb]. split_and!; [by constructor|done|].
      intros u v [->|Hu]%elem_of_cons Hv; [|by auto]. rewrite Forall_forall in Hb. auto.
    + intros (Hs & Hb & Hab). inversion Hs; subst. constructor.
      * apply IH. split_and!; [done..|]. intros; apply Hab; [by right|done].
      * apply Forall_app. split; [done|]. apply Forall_forall. intros y Hy. apply Hab; [left|done].
Qed.

Lemma key_sorted_take {A : Type} (key : A -> Z) (n : nat) (l : list A) :
  key_sorted key l -> key_sorted key (take n l).
Proof. rewrite <- (take_drop n l) at 1. by intros (Hs & _)%key_sorted_app. Qed.
