(* ===== verification/Strings.v ===== *)
(** The [str] functions of Rust's standard library that the components call, on
    the [string] of the bytes of a [str]. *)

From S2P Require Import Prelude.

(** * Searching *)

(** [str::starts_with], [str::ends_with]. *)
Definition starts_with (prefix s : string) : bool := String.prefix prefix s.

(** [str::strip_prefix]. *)
Definition str_strip_prefix (prefix s : string) : option string :=
  if String.prefix prefix s
  then Some (String.substring (String.length prefix) (String.length s - String.length prefix) s)
  else None.

(** [str::strip_suffix]. *)
Definition str_strip_suffix (suffix s : string) : option string :=
  let n := (String.length s - String.length suffix)%nat in
  let stem := String.substring 0 n s in
  if String.eqb (stem +:+ suffix) s then Some stem else None.

Definition ends_with (suffix s : string) : bool := is_some (str_strip_suffix suffix s).

(** [str::contains] of a string. *)
Fixpoint contains_str (needle s : string) : bool :=
  String.prefix needle s
  || match s with
     | EmptyString => false
     | String _ rest => contains_str needle rest
     end.

(** [str::contains] of a set of ASCII characters. *)
Definition contains_any (cs : list Z) (s : string) : bool :=
  existsb (fun b => existsb (Z.eqb b) cs) (str_bytes s).

(** * Splitting *)

(** [str::split] on an ASCII character: never empty. *)
Fixpoint split_on (sep : ascii) (s : string) : list string :=
  match s with
  | EmptyString => [EmptyString]
  | String c rest =>
      if Ascii.eqb c sep then EmptyString :: split_on sep rest
      else match split_on sep rest with
           | [] => [String c EmptyString]
           | p :: ps => String c p :: ps
           end
  end.

(** [str::split_once] on an ASCII character. *)
Fixpoint split_once (sep : ascii) (s : string) : option (string * string) :=
  match s with
  | EmptyString => None
  | String c rest =>
      if Ascii.eqb c sep then Some (EmptyString, rest)
      else (fun p => (String c p.1, p.2)) <$> split_once sep rest
  end.

(** [str::split_once] on a string. *)
Fixpoint split_once_str (sep s : string) : option (string * string) :=
  match str_strip_prefix sep s with
  | Some rest => Some (EmptyString, rest)
  | None =>
      match s with
      | EmptyString => None
      | String c rest => (fun p => (String c p.1, p.2)) <$> split_once_str sep rest
      end
  end.

Definition newline : ascii := "010".
Definition carriage_return : ascii := "013".

Definition strip_cr (line : string) : string :=
  default line (str_strip_suffix (String carriage_return EmptyString) line).

(** [str::lines]: the terminated lines without their ["\n"] or ["\r\n"], and an
    unterminated last one as it is. *)
Fixpoint lines_of (pieces : list string) : list string :=
  match pieces with
  | [] => []
  | [p] => if String.eqb p EmptyString then [] else [p]
  | p :: rest => strip_cr p :: lines_of rest
  end.

Definition lines (s : string) : list string := lines_of (split_on newline s).

(** [str::split_ascii_whitespace]: the non-empty pieces. *)
Definition is_ascii_whitespace (b : Z) : bool :=
  (b =? 9) || (b =? 10) || (b =? 12) || (b =? 13) || (b =? 32).

Fixpoint words_from (word : string) (s : string) : list string :=
  match s with
  | EmptyString => if String.eqb word EmptyString then [] else [word]
  | String c rest =>
      if is_ascii_whitespace (byte_of c)
      then if String.eqb word EmptyString then words_from EmptyString rest
           else word :: words_from EmptyString rest
      else words_from (word +:+ String c EmptyString) rest
  end.

Definition split_ascii_whitespace (s : string) : list string := words_from EmptyString s.

(** [[T]::join] of strings. *)
Definition join_strings (sep : string) (l : list string) : string := String.concat sep l.

(** * Characters *)

(** The characters of a [str], each as its bytes. *)
Fixpoint char_pieces (s : string) : list string :=
  match s with
  | EmptyString => []
  | String c0 s1 =>
      if byte_of c0 <? 128 then String c0 EmptyString :: char_pieces s1
      else match s1 with
      | EmptyString => []
      | String c1 s2 =>
          if byte_of c0 <? 224 then String c0 (String c1 EmptyString) :: char_pieces s2
          else match s2 with
          | EmptyString => []
          | String c2 s3 =>
              if byte_of c0 <? 240
              then String c0 (String c1 (String c2 EmptyString)) :: char_pieces s3
              else match s3 with
              | EmptyString => []
              | String c3 s4 =>
                  String c0 (String c1 (String c2 (String c3 EmptyString))) :: char_pieces s4
              end
          end
      end
  end.

Definition whitespace_piece (p : string) : bool := forallb is_whitespace (chars p).

Fixpoint drop_whitespace (l : list string) : list string :=
  match l with
  | [] => []
  | p :: rest => if whitespace_piece p then drop_whitespace rest else l
  end.

(** [str::trim]. *)
Definition trim (s : string) : string :=
  String.concat EmptyString
    (reverse (drop_whitespace (reverse (drop_whitespace (char_pieces s))))).

(** [s.chars().take(n).collect()]. *)
Definition take_chars (n : nat) (s : string) : string :=
  String.concat EmptyString (take n (char_pieces s)).

(** [str::to_ascii_lowercase], [str::eq_ignore_ascii_case]. *)
Definition ascii_lower (c : ascii) : ascii :=
  if in_range 65 90 (byte_of c) then ascii_of_N (N_of_ascii c + 32) else c.
Fixpoint to_ascii_lowercase (s : string) : string :=
  match s with
  | EmptyString => EmptyString
  | String c rest => String (ascii_lower c) (to_ascii_lowercase rest)
  end.
Definition eq_ignore_ascii_case (a b : string) : bool :=
  String.eqb (to_ascii_lowercase a) (to_ascii_lowercase b).

(** [str::is_char_boundary]. *)
Definition is_char_boundary (s : string) (n : Z) : bool :=
  (n =? 0) || (n =? str_len s)
  || is_some_and (fun b => negb (is_continuation b)) (str_bytes s !! Z.to_nat n).

Fixpoint boundary_before (s : string) (n : nat) : nat :=
  match n with
  | O => O
  | S n' => if is_char_boundary s (Z.of_nat n) then n else boundary_before s n'
  end.

(** The validity check of [String::from_utf8]: the well-formed byte sequences of
    the Unicode standard, Table 3-7. *)
Fixpoint utf8_valid (l : list Z) : bool :=
  match l with
  | [] => true
  | b0 :: l1 =>
      if in_range 0 127 b0 then utf8_valid l1
      else match l1 with
      | [] => false
      | b1 :: l2 =>
          if in_range 194 223 b0 then in_range 128 191 b1 && utf8_valid l2
          else match l2 with
          | [] => false
          | b2 :: l3 =>
              if in_range 224 239 b0
              then in_range (if b0 =? 224 then 160 else 128) (if b0 =? 237 then 159 else 191) b1
                   && in_range 128 191 b2 && utf8_valid l3
              else match l3 with
              | [] => false
              | b3 :: l4 =>
                  in_range 240 244 b0
                  && in_range (if b0 =? 240 then 144 else 128) (if b0 =? 244 then 143 else 191) b1
                  && in_range 128 191 b2 && in_range 128 191 b3 && utf8_valid l4
              end
          end
      end
  end.

(** * Sorting *)

Fixpoint insert_string (s : string) (l : list string) : list string :=
  match l with
  | [] => [s]
  | x :: rest => if String.leb s x then s :: l else x :: insert_string s rest
  end.

Definition sort_strings (l : list string) : list string := fold_right insert_string [] l.

(** * Lemmas *)

Lemma elem_of_map {A B : Type} (f : A -> B) (x : A) (l : list A) : x ∈ l -> f x ∈ map f l.
Proof. intros Hx. apply list_elem_of_In, in_map, list_elem_of_In, Hx. Qed.

Lemma elem_of_map_inv {A B : Type} (f : A -> B) (y : B) (l : list A) :
  y ∈ map f l -> exists x, x ∈ l /\ y = f x.
Proof.
  intros Hy. apply list_elem_of_In, in_map_iff in Hy as (x & <- & Hx).
  exists x. split; [by apply list_elem_of_In|done].
Qed.

Lemma string_app_cons (c : ascii) (a b : string) : String c a +:+ b = String c (a +:+ b).
Proof. reflexivity. Qed.

Lemma string_app_assoc (a b c : string) : (a +:+ b) +:+ c = a +:+ b +:+ c.
Proof. induction a as [|x a IH]; [done|]. rewrite !string_app_cons. by rewrite IH. Qed.

Lemma string_app_nil_r (s : string) : s +:+ EmptyString = s.
Proof. induction s as [|x s IH]; [done|]. rewrite !string_app_cons. by rewrite IH. Qed.

Lemma list_ascii_app (a b : string) :
  list_ascii_of_string (a +:+ b) = list_ascii_of_string a ++ list_ascii_of_string b.
Proof.
  induction a as [|x a IH]; [done|]. rewrite string_app_cons. cbn [list_ascii_of_string app].
  by rewrite IH.
Qed.

Lemma str_bytes_app (a b : string) : str_bytes (a +:+ b) = str_bytes a ++ str_bytes b.
Proof.
  unfold str_bytes. induction a as [|x a IH]; [done|].
  rewrite string_app_cons. cbn [list_ascii_of_string map app]. by rewrite IH.
Qed.

Lemma utf8_valid_app (a b : list Z) :
  utf8_valid a = true -> utf8_valid (a ++ b) = utf8_valid b.
Proof.
  induction a as [a IH] using (induction_ltof1 _ (@length Z)). unfold ltof in IH.
  destruct a as [|b0 a]; [done|]. cbn [utf8_valid app].
  repeat match goal with
  | |- context [if ?c then _ else _] => destruct c eqn:?
  | |- context [match ?l with [] => _ | _ => _ end] => is_var l; destruct l; cbn [app]
  end; rewrite ?andb_true_iff, ?andb_false_iff; try done; intros;
    repeat match goal with H : _ /\ _ |- _ => destruct H end;
    repeat match goal with H : in_range _ _ _ = true |- _ => rewrite H end;
    try (rewrite IH by (simpl; auto with lia)); try done.
  all: try (apply IH; [simpl; lia|done]).
Qed.

(** Splitting at the separator and putting it back. *)
Lemma split_on_nonempty (sep : ascii) (s : string) : split_on sep s <> [].
Proof. destruct s as [|c s]; simpl; [done|]. repeat case_match; done. Qed.

Lemma split_on_app (sep : ascii) (a b : string) :
  split_on sep (a +:+ String sep b) = split_on sep a ++ split_on sep b.
Proof.
  induction a as [|c a IH]; rewrite ?string_app_cons; cbn [split_on app].
  - change (EmptyString +:+ String sep b) with (String sep b). cbn [split_on]. by rewrite Ascii.eqb_refl.
  - rewrite IH. destruct (Ascii.eqb c sep); [done|].
    pose proof (split_on_nonempty sep a). by destruct (split_on sep a).
Qed.

Lemma split_on_none (sep : ascii) (s : string) :
  sep ∉ list_ascii_of_string s -> split_on sep s = [s].
Proof.
  induction s as [|c s IH]; simpl; intros Hn; [done|].
  apply not_elem_of_cons in Hn as [Hc Hs]. rewrite (IH Hs).
  destruct (Ascii.eqb_spec c sep) as [->|_]; [done|done].
Qed.

Lemma lines_of_app (p q : list string) :
  q <> [] -> lines_of (p ++ q) = map strip_cr p ++ lines_of q.
Proof.
  intros Hq. induction p as [|x p IH]; simpl; [done|]. rewrite IH.
  destruct p as [|y p]; simpl; [|done]. by destruct q.
Qed.

(** A text is terminated when every line in it is. *)
Definition terminated (s : string) : Prop :=
  s = EmptyString \/ exists body, s = body +:+ String newline EmptyString.

Lemma lines_terminated (a b : string) : terminated a -> lines (a +:+ b) = lines a ++ lines b.
Proof.
  intros [->|[body ->]]; [done|]. unfold lines. rewrite string_app_assoc.
  change (String newline EmptyString +:+ b) with (String newline b).
  rewrite !split_on_app, !lines_of_app by apply split_on_nonempty. simpl.
  by rewrite app_nil_r.
Qed.

(** One more line. *)
Lemma lines_line (line : string) :
  newline ∉ list_ascii_of_string line -> strip_cr line = line ->
  lines (line +:+ String newline EmptyString) = [line].
Proof.
  intros Hn Hcr. unfold lines. rewrite split_on_app, (split_on_none _ _ Hn). simpl. by rewrite Hcr.
Qed.

Lemma terminated_line (a line : string) : terminated (a +:+ line +:+ String newline EmptyString).
Proof. right. exists (a +:+ line). by rewrite string_app_assoc. Qed.

Lemma str_strip_suffix_Some (suffix s p : string) :
  str_strip_suffix suffix s = Some p -> s = p +:+ suffix.
Proof.
  unfold str_strip_suffix. cbv zeta. case_match eqn:He; [|done]. intros [= <-].
  by apply String.eqb_eq in He.
Qed.

Lemma string_leb_trans (a b c : string) :
  String.leb a b = true -> String.leb b c = true -> String.leb a c = true.
Proof.
  rewrite <- !Is_true_true. fold (String.le a b) (String.le b c) (String.le a c).
  intros. by transitivity b.
Qed.
