(* ===== verification/Utf8.v ===== *)
(** Lemmas on well-formed UTF-8 and on the [str] functions of Strings.v: cutting
    at an ASCII character, ASCII text, lower case, splitting and joining. *)

From S2P Require Import Prelude Strings.

(** * Cutting *)

(** Well-formed text stays well-formed on both sides of an ASCII character. *)
Lemma utf8_valid_cut (a b : list Z) (c : Z) :
  utf8_valid (a ++ c :: b) = true -> 0 <= c < 128 ->
  utf8_valid a = true /\ utf8_valid b = true.
Proof.
  intros Hv Hc. assert (Hasc : in_range 0 127 c = true) by (apply in_range_true; lia).
  assert (Hno : forall lo hi, 128 <= lo -> in_range lo hi c = false).
  { intros lo hi Hlo. apply not_true_iff_false. rewrite in_range_true. lia. }
  revert Hv. induction a as [a IH] using (induction_ltof1 _ (@length Z)). unfold ltof in IH.
  destruct a as [|b0 a]; cbn [app utf8_valid]; [by rewrite Hasc|].
  destruct (in_range 0 127 b0); [apply IH; simpl; lia|].
  destruct a as [|b1 a]; cbn [app].
  { destruct (in_range 194 223 b0); rewrite ?(Hno 128) by lia; [done|].
    destruct b as [|b2 b]; [done|]. destruct (in_range 224 239 b0).
    - rewrite (Hno (if b0 =? 224 then 160 else 128)) by (destruct (b0 =? 224); lia). done.
    - destruct b as [|b3 b]; [done|].
      rewrite (Hno (if b0 =? 240 then 144 else 128)) by (destruct (b0 =? 240); lia).
      by rewrite andb_false_r. }
  destruct (in_range 194 223 b0).
  { rewrite !andb_true_iff. intros [-> H]. split; [split; [done|]|]; eapply IH; try done; simpl; lia. }
  destruct a as [|b2 a]; cbn [app].
  { destruct (in_range 224 239 b0); rewrite (Hno 128) by lia; [by rewrite !andb_false_r|].
    destruct b; [done|]. by rewrite !andb_false_r. }
  destruct (in_range 224 239 b0).
  { rewrite !andb_true_iff. intros [[-> ->] H]. split; [split; [done|]|]; eapply IH; try done; simpl; lia. }
  destruct a as [|b3 a]; cbn [app]; [by rewrite (Hno 128), !andb_false_r by lia|].
  rewrite !andb_true_iff. intros [[[[-> ->] ->] ->] H].
  split; [split; [done|]|]; eapply IH; try done; simpl; lia.
Qed.

(** A character that is not ASCII is above every ASCII one. *)
Lemma land_low (b n lo : Z) :
  0 <= n -> lo * 2 ^ n <= b < (lo + 1) * 2 ^ n -> Z.land b (Z.ones n) = b - lo * 2 ^ n.
Proof.
  intros Hn Hb. rewrite Z.land_ones by done. symmetry. apply (Z.mod_unique _ _ lo); [left|]; lia.
Qed.

Lemma utf8_decode_ascii (l : list Z) :
  utf8_valid l = true -> Forall (fun c => c < 128) (utf8_decode l) ->
  utf8_decode l = l /\ Forall (fun c => 0 <= c < 128) l.
Proof.
  induction l as [l IH] using (induction_ltof1 _ (@length Z)). unfold ltof in IH.
  destruct l as [|b0 l1]; cbn [utf8_valid utf8_decode]; [done|].
  destruct (in_range 0 127 b0) eqn:H0.
  { apply in_range_true in H0. intros Hv. destruct (Z.ltb_spec b0 128); [|lia].
    intros [_ Hf]%Forall_cons. destruct (IH l1) as [-> H1]; [simpl; lia|done..|].
    split; [done|]. by constructor; [lia|]. }
  apply not_true_iff_false in H0. rewrite in_range_true in H0.
  destruct l1 as [|b1 l2]; [done|].
  destruct (in_range 194 223 b0) eqn:H2.
  { apply in_range_true in H2. intros [H1%in_range_true Hv]%andb_true_iff.
    destruct (Z.ltb_spec b0 128); [lia|]. destruct (Z.ltb_spec b0 224); [|lia].
    intros [Hf _]%Forall_cons. exfalso.
    change 31 with (Z.ones 5) in Hf. change 63 with (Z.ones 6) in Hf.
    rewrite (land_low b0 5 6), (land_low b1 6 2) in Hf by lia. lia. }
  destruct l2 as [|b2 l3]; [done|].
  destruct (in_range 224 239 b0) eqn:H3.
  { apply in_range_true in H3. intros [[H1%in_range_true Hc%in_range_true]%andb_true_iff Hv]%andb_true_iff.
    destruct (Z.ltb_spec b0 128); [lia|]. destruct (Z.ltb_spec b0 224); [lia|].
    destruct (Z.ltb_spec b0 240); [|lia]. intros [Hf _]%Forall_cons. exfalso.
    change 15 with (Z.ones 4) in Hf. change 63 with (Z.ones 6) in Hf.
    assert (Hb1 : 128 <= b1 <= 191) by (destruct (b0 =? 224), (b0 =? 237); lia).
    rewrite (land_low b0 4 14), (land_low b1 6 2), (land_low b2 6 2) in Hf by lia.
    destruct (Z.eqb_spec b0 224); lia. }
  destruct l3 as [|b3 l4]; [done|].
  rewrite !andb_true_iff, !in_range_true. intros ([[[Hb0 Hb1] Hb2] Hb3] & Hv).
  destruct (Z.ltb_spec b0 128); [lia|]. destruct (Z.ltb_spec b0 224); [lia|].
  destruct (Z.ltb_spec b0 240); [lia|]. intros [Hf _]%Forall_cons. exfalso.
  change 7 with (Z.ones 3) in Hf. change 63 with (Z.ones 6) in Hf.
  assert (Hb1' : 128 <= b1 <= 191) by (destruct (b0 =? 240), (b0 =? 244); lia).
  rewrite (land_low b0 3 30), (land_low b1 6 2), (land_low b2 6 2), (land_low b3 6 2) in Hf by lia.
  destruct (Z.eqb_spec b0 240); lia.
Qed.

(** Every byte of a text whose characters satisfy an ASCII test satisfies it. *)
Lemma forallb_chars_bytes (P : Z -> bool) (s : string) :
  (forall c, P c = true -> c < 128) -> utf8_valid (str_bytes s) = true ->
  forallb P (chars s) = true -> Forall (fun b => P b = true) (str_bytes s).
Proof.
  intros HP Hv Hf. unfold chars in Hf. apply Is_true_eq_left in Hf. rewrite forallb_True in Hf.
  assert (Ha : Forall (fun c => c < 128) (utf8_decode (str_bytes s))).
  { eapply Forall_impl; [exact Hf|]. intros c Hc. apply HP. by apply Is_true_eq_true. }
  destruct (utf8_decode_ascii _ Hv Ha) as [He _]. rewrite He in Hf.
  eapply Forall_impl; [exact Hf|]. intros c Hc. by apply Is_true_eq_true.
Qed.

(** And conversely for an all-ASCII text. *)
Lemma utf8_decode_id (l : list Z) : Forall (fun c => c < 128) l -> utf8_decode l = l.
Proof.
  induction 1 as [|c l Hc _ IH]; [done|]. cbn [utf8_decode].
  destruct (Z.ltb_spec c 128); [by rewrite IH|lia].
Qed.

(** * Substrings and searching *)

Lemma str_bytes_cons (c : ascii) (s : string) : str_bytes (String c s) = byte_of c :: str_bytes s.
Proof. reflexivity. Qed.

Lemma prefix_split (p s : string) : String.prefix p s = true -> exists r, s = p +:+ r.
Proof.
  revert s. induction p as [|c p IH]; intros s; [by exists s|].
  destruct s as [|d s]; [done|]. simpl. destruct (ascii_dec c d) as [->|]; [|done].
  intros [r ->]%IH. by exists r.
Qed.

Lemma prefix_app (p r : string) : String.prefix p (p +:+ r) = true.
Proof.
  induction p as [|c p IH]; [by destruct r|]. rewrite string_app_cons. simpl.
  by destruct (ascii_dec c c).
Qed.

Lemma substring_all (s : string) : String.substring 0 (String.length s) s = s.
Proof. induction s as [|c s IH]; simpl; [done|by rewrite IH]. Qed.

Lemma substring_long (n : nat) (s : string) :
  (String.length s <= n)%nat -> String.substring 0 n s = s.
Proof.
  revert n. induction s as [|c s IH]; intros n Hn; [by destruct n|]. destruct n; simpl in *; [lia|].
  by rewrite IH by lia.
Qed.

Lemma string_length_app (a b : string) :
  String.length (a +:+ b) = (String.length a + String.length b)%nat.
Proof. induction a as [|c a IH]; [done|]. rewrite string_app_cons. simpl. by rewrite IH. Qed.

Lemma str_strip_prefix_app (p r : string) : str_strip_prefix p (p +:+ r) = Some r.
Proof.
  unfold str_strip_prefix. rewrite prefix_app, string_length_app. f_equal.
  replace (String.length p + String.length r - String.length p)%nat with (String.length r) by lia.
  induction p as [|c p IH]; [apply substring_all|]. rewrite string_app_cons. simpl. exact IH.
Qed.

Lemma str_strip_prefix_Some (p s r : string) : str_strip_prefix p s = Some r -> s = p +:+ r.
Proof.
  intros Hs. assert (Hp : exists r', s = p +:+ r').
  { apply prefix_split. unfold str_strip_prefix in Hs. by destruct (String.prefix p s). }
  destruct Hp as [r' ->]. rewrite str_strip_prefix_app in Hs. by injection Hs as ->.
Qed.

Lemma str_strip_suffix_app (p s : string) : str_strip_suffix s (p +:+ s) = Some p.
Proof.
  unfold str_strip_suffix. rewrite string_length_app. cbv zeta.
  replace (String.length p + String.length s - String.length s)%nat with (String.length p) by lia.
  assert (H : String.substring 0 (String.length p) (p +:+ s) = p).
  { induction p as [|c p IH]; [by destruct s|]. rewrite string_app_cons. simpl. by rewrite IH. }
  by rewrite H, String.eqb_refl.
Qed.

Lemma contains_any_false (cs : list Z) (s : string) :
  contains_any cs s = false <-> Forall (fun b => b ∉ cs) (str_bytes s).
Proof.
  unfold contains_any. induction (str_bytes s) as [|b l IH]; simpl; [done|].
  rewrite orb_false_iff, Forall_cons, IH. apply and_iff_compat_r.
  rewrite <- not_true_iff_false, existsb_exists. apply not_iff_compat. split.
  - intros (x & Hx & ->%Z.eqb_eq). by apply list_elem_of_In.
  - intros Hb. exists b. split; [by apply list_elem_of_In|apply Z.eqb_refl].
Qed.

Lemma contains_any_app (cs : list Z) (a b : string) :
  contains_any cs (a +:+ b) = contains_any cs a || contains_any cs b.
Proof. unfold contains_any. by rewrite str_bytes_app, existsb_app. Qed.

Lemma contains_any_cons (cs : list Z) (c : ascii) (s : string) :
  contains_any cs (String c s) = existsb (Z.eqb (byte_of c)) cs || contains_any cs s.
Proof. reflexivity. Qed.

Lemma byte_of_inj (a b : ascii) : byte_of a = byte_of b -> a = b.
Proof. unfold byte_of. intros H%N2Z.inj. rewrite <- (ascii_N_embedding a), H. apply ascii_N_embedding. Qed.

(** * Splitting *)

Lemma split_once_Some (sep : ascii) (s a b : string) :
  split_once sep s = Some (a, b) -> s = a +:+ String sep b.
Proof.
  revert a. induction s as [|c s IH]; intros a; simpl; [done|].
  destruct (Ascii.eqb_spec c sep) as [->|_]; [by intros [= <- <-]|].
  destruct (split_once sep s) as [[a' b']|] eqn:Hs; [|done]. intros [= <- <-].
  rewrite string_app_cons. f_equal. by apply IH.
Qed.

Lemma split_once_app (sep : ascii) (a b : string) :
  byte_of sep ∉ str_bytes a -> split_once sep (a +:+ String sep b) = Some (a, b).
Proof.
  induction a as [|c a IH]; intros Hn.
  - change (EmptyString +:+ String sep b) with (String sep b). simpl. by rewrite Ascii.eqb_refl.
  - rewrite str_bytes_cons in Hn. apply not_elem_of_cons in Hn as [Hc Ha].
    rewrite string_app_cons. simpl. destruct (Ascii.eqb_spec c sep) as [->|_]; [done|].
    by rewrite (IH Ha).
Qed.

Lemma split_once_str_app (c : ascii) (sep a b : string) :
  byte_of c ∉ str_bytes a ->
  split_once_str (String c sep) (a +:+ String c sep +:+ b) = Some (a, b).
Proof.
  induction a as [|x a IH]; intros Hn.
  - change (EmptyString +:+ ?y) with y. pose proof (str_strip_prefix_app (String c sep) b) as H.
    rewrite string_app_cons in H |- *. cbn [split_once_str]. by rewrite H.
  - rewrite str_bytes_cons in Hn. apply not_elem_of_cons in Hn as [Hx Ha].
    rewrite string_app_cons. cbn [split_once_str]. rewrite (IH Ha). unfold str_strip_prefix.
    cbn [String.prefix]. by destruct (ascii_dec c x) as [->|_].
Qed.

Lemma split_on_bytes (sep : ascii) (s p : string) :
  p ∈ split_on sep s -> byte_of sep ∉ str_bytes p /\ forall b, b ∈ str_bytes p -> b ∈ str_bytes s.
Proof.
  revert p. induction s as [|c s IH]; intros p; simpl.
  { intros ->%list_elem_of_singleton. split; [by intros ?%elem_of_nil|done]. }
  destruct (Ascii.eqb_spec c sep) as [->|Hc].
  - intros [->|Hp]%elem_of_cons; [split; [by intros ?%elem_of_nil|intros b Hb%elem_of_nil; done]|].
    destruct (IH _ Hp) as [H1 H2]. split; [done|]. intros b Hb. right. by apply H2.
  - destruct (split_on sep s) as [|q qs] eqn:Hs; [by apply split_on_nonempty in Hs|].
    intros [->|Hp]%elem_of_cons.
    + destruct (IH q) as [H1 H2]; [left|]. rewrite str_bytes_cons. split.
      * intros [He|Hq]%elem_of_cons; [|done]. by apply byte_of_inj in He.
      * intros b [->|Hb]%elem_of_cons; [left|right; by apply H2].
    + destruct (IH p) as [H1 H2]; [by right|]. split; [done|]. intros b Hb. right. by apply H2.
Qed.

Lemma split_on_join (sep : ascii) (l : list string) :
  l <> [] -> Forall (fun p => byte_of sep ∉ str_bytes p) l ->
  split_on sep (join_strings (String sep EmptyString) l) = l.
Proof.
  intros Hne Hl. unfold join_strings. induction Hl as [|p l Hp Hl IH]; [done|].
  assert (Hn : sep ∉ list_ascii_of_string p).
  { intros Hin. apply Hp. unfold str_bytes. by apply elem_of_map. }
  destruct l as [|q l]; [by apply split_on_none|].
  change (String.concat (String sep EmptyString) (p :: q :: l))
    with (p +:+ String sep EmptyString +:+ String.concat (String sep EmptyString) (q :: l)).
  change (String sep EmptyString +:+ ?x) with (String sep x).
  rewrite split_on_app, (split_on_none _ _ Hn), IH by done. done.
Qed.

Lemma join_bytes (P : Z -> Prop) (sep : string) (l : list string) :
  Forall P (str_bytes sep) -> Forall (fun s => Forall P (str_bytes s)) l ->
  Forall P (str_bytes (join_strings sep l)).
Proof.
  intros Hsep. unfold join_strings. induction 1 as [|s l Hs Hl IH]; [constructor|].
  destruct l as [|q l]; [done|].
  change (String.concat sep (s :: q :: l)) with (s +:+ sep +:+ String.concat sep (q :: l)).
  rewrite !str_bytes_app. by rewrite !Forall_app.
Qed.

Lemma split_on_valid (sep : ascii) (s : string) :
  byte_of sep < 128 -> utf8_valid (str_bytes s) = true ->
  Forall (fun p => utf8_valid (str_bytes p) = true) (split_on sep s).
Proof.
  intros Hsep Hv.
  assert (Hcut : forall a b, utf8_valid (str_bytes (a +:+ String sep b)) = true ->
                 utf8_valid (str_bytes a) = true /\ utf8_valid (str_bytes b) = true).
  { intros a b H. rewrite str_bytes_app, str_bytes_cons in H. apply utf8_valid_cut in H; [done|].
    pose proof (byte_of_range sep). lia. }
  assert (Hgen : forall acc, utf8_valid (str_bytes (acc +:+ s)) = true ->
    match split_on sep s with
    | [] => False
    | p :: ps => utf8_valid (str_bytes (acc +:+ p)) = true
                 /\ Forall (fun p => utf8_valid (str_bytes p) = true) ps
    end).
  { clear Hv. induction s as [|c s IH]; intros acc Hacc; [done|]. cbn [split_on].
    destruct (Ascii.eqb_spec c sep) as [->|_].
    - apply Hcut in Hacc as [Ha Hb]. rewrite string_app_nil_r. split; [done|].
      specialize (IH EmptyString Hb). destruct (split_on sep s); [constructor|].
      destruct IH. by constructor.
    - assert (E : forall x, acc +:+ String c x = (acc +:+ String c EmptyString) +:+ x).
      { intros x. rewrite string_app_assoc. by rewrite string_app_cons. }
      rewrite E in Hacc. specialize (IH _ Hacc). destruct (split_on sep s); [done|].
      by rewrite E. }
  specialize (Hgen EmptyString Hv). destruct (split_on sep s); [done|]. destruct Hgen. by constructor.
Qed.

(** * Lower case *)

Definition lower_byte (b : Z) : Z := if in_range 65 90 b then b + 32 else b.

Lemma ascii_lower_byte (c : ascii) : byte_of (ascii_lower c) = lower_byte (byte_of c).
Proof. by destruct c as [[] [] [] [] [] [] [] []]. Qed.

Lemma to_ascii_lowercase_bytes (s : string) :
  str_bytes (to_ascii_lowercase s) = map lower_byte (str_bytes s).
Proof.
  induction s as [|c s IH]; [done|]. cbn [to_ascii_lowercase].
  rewrite !str_bytes_cons, ascii_lower_byte, IH. done.
Qed.

Lemma lower_range (lo hi b : Z) : 128 <= lo -> in_range lo hi (lower_byte b) = in_range lo hi b.
Proof.
  intros Hlo. unfold lower_byte. destruct (in_range 65 90 b) eqn:H; [|done].
  apply in_range_true in H. apply eq_true_iff_eq. rewrite !in_range_true. lia.
Qed.

Lemma lower_ascii (b : Z) : in_range 0 127 (lower_byte b) = in_range 0 127 b.
Proof.
  unfold lower_byte. destruct (in_range 65 90 b) eqn:H; [|done].
  apply in_range_true in H. apply eq_true_iff_eq. rewrite !in_range_true. lia.
Qed.

Lemma lower_high (b : Z) : in_range 0 127 b = false -> lower_byte b = b.
Proof.
  intros Hb. unfold lower_byte. destruct (in_range 65 90 b) eqn:H; [|done].
  apply in_range_true in H. apply not_true_iff_false in Hb. rewrite in_range_true in Hb. lia.
Qed.

Lemma utf8_valid_lower (l : list Z) : utf8_valid (map lower_byte l) = utf8_valid l.
Proof.
  induction l as [l IH] using (induction_ltof1 _ (@length Z)). unfold ltof in IH.
  destruct l as [|b0 l1]; [done|]. cbn [map utf8_valid]. rewrite lower_ascii.
  destruct (in_range 0 127 b0) eqn:H0; [apply IH; simpl; lia|]. rewrite (lower_high _ H0).
  destruct l1 as [|b1 l2]; [done|]. cbn [map]. rewrite !lower_range by (repeat case_match; lia).
  destruct (in_range 194 223 b0); [f_equal; apply IH; simpl; lia|].
  destruct l2 as [|b2 l3]; [done|]. cbn [map]. rewrite !lower_range by (repeat case_match; lia).
  destruct (in_range 224 239 b0); [f_equal; apply IH; simpl; lia|].
  destruct l3 as [|b3 l4]; [done|]. cbn [map]. rewrite !lower_range by (repeat case_match; lia).
  f_equal. apply IH. simpl. lia.
Qed.

Lemma lower_idemp (b : Z) : lower_byte (lower_byte b) = lower_byte b.
Proof.
  unfold lower_byte. destruct (in_range 65 90 b) eqn:H; [|by rewrite H].
  apply in_range_true in H. destruct (in_range 65 90 (b + 32)) eqn:H'; [|done].
  apply in_range_true in H'. lia.
Qed.

Lemma str_bytes_inj (a b : string) : str_bytes a = str_bytes b -> a = b.
Proof.
  revert b. induction a as [|c a IH]; intros [|d b]; try done. rewrite !str_bytes_cons.
  intros [= Hc%byte_of_inj Hs%IH]. by subst.
Qed.

Lemma to_ascii_lowercase_id (s : string) :
  Forall (fun b => in_range 65 90 b = false) (str_bytes s) -> to_ascii_lowercase s = s.
Proof.
  intros Hs. apply str_bytes_inj. rewrite to_ascii_lowercase_bytes.
  induction Hs as [|b l Hb _ IH]; [done|]. simpl. rewrite IH. unfold lower_byte. by rewrite Hb.
Qed.

Lemma lower_not_upper (s : string) :
  Forall (fun b => in_range 65 90 b = false) (str_bytes (to_ascii_lowercase s)).
Proof.
  rewrite to_ascii_lowercase_bytes. apply Forall_map, Forall_true. intros b.
  unfold lower_byte. destruct (in_range 65 90 b) eqn:H; [|done].
  apply in_range_true in H. apply not_true_iff_false. rewrite in_range_true. lia.
Qed.

Lemma to_ascii_lowercase_app (a b : string) :
  to_ascii_lowercase (a +:+ b) = to_ascii_lowercase a +:+ to_ascii_lowercase b.
Proof. apply str_bytes_inj. by rewrite str_bytes_app, !to_ascii_lowercase_bytes, str_bytes_app, map_app. Qed.
