(* ===== verification/Json.v ===== *)
(** JSON documents and the interfaces of the crates the program calls.

    [Json] is the data model of [serde]: what a derived [Serialize] emits and
    what a [Deserialize] visitor walks, an object being its entries in document
    order (duplicates included).  The crates themselves are interfaces: class
    [SerdeJson] is [serde_json::{to_vec, from_slice}], class [UuidLib] is the
    [uuid] crate, class [JsonValue] is the accessor API of
    [serde_json::Value].  Their laws are the documented behaviour and are
    separate classes, so that a theorem says which of them it needs.  The last
    section instantiates every interface, for the witnesses. *)

From S2P Require Import Prelude.

Inductive Json : Type :=
| JNull
| JBool (b : bool)
| JInt (n : Z)
| JFloat (text : string)
| JStr (s : string)
| JArr (items : list Json)
| JObj (entries : list (string * Json)).

#[global] Instance json_eq_dec : EqDecision Json.
Proof.
  unfold EqDecision, RelDecision. fix IH 1. intros a b. destruct a as [|x|x|x|x|l|l], b as [|y|y|y|y|m|m];
    try (right; discriminate); try (left; reflexivity).
  1-4: destruct (decide (x = y)) as [->|H]; [left; reflexivity|right; intros [=]; done].
  - assert (D : Decision (l = m)).
    { clear -IH. revert m. induction l as [|x l IHl]; intros [|y m]; try (right; discriminate);
        [left; reflexivity|].
      destruct (IH x y) as [->|H]; [|right; intros [=]; done].
      destruct (IHl m) as [->|H]; [left; reflexivity|right; intros [=]; done]. }
    destruct D as [->|H]; [left; reflexivity|right; intros [=]; done].
  - assert (D : Decision (l = m)).
    { clear -IH. revert m. induction l as [|[k x] l IHl]; intros [|[k' y] m];
        try (right; discriminate); [left; reflexivity|].
      destruct (decide (k = k')) as [->|H]; [|right; intros [=]; done].
      destruct (IH x y) as [->|H]; [|right; intros [=]; done].
      destruct (IHl m) as [->|H]; [left; reflexivity|right; intros [=]; done]. }
    destruct D as [->|H]; [left; reflexivity|right; intros [=]; done].
Defined.

(** * The uuid crate *)

Class UuidLib := {
  Uuid : Type;
  Uuid_eq_dec :: EqDecision Uuid;
  uuid_to_string : Uuid -> string;
  uuid_parse_str : string -> option Uuid;
}.

Definition is_uuid_byte (b : Z) : bool :=
  is_ascii_digit b || in_range 97 102 b || (b =? 45).

(** [Uuid]'s [Display] is the 36-byte hyphenated lower-case form, and
    [parse_str] accepts it. *)
Class UuidLaws `{UuidLib} := {
  uuid_parse_to_string : forall u, uuid_parse_str (uuid_to_string u) = Some u;
  uuid_string_len : forall u, str_len (uuid_to_string u) = 36;
  uuid_string_bytes : forall u,
    forallb is_uuid_byte (str_bytes (uuid_to_string u)) = true;
}.

(** * serde_json::{to_vec, from_slice}

    A [Vec<u8>] is the [string] of its bytes. *)

Class SerdeJson := {
  to_vec : Json -> option string;
  from_slice : string -> option Json;
}.

(** Compact output: its size, from the JSON escapes serde_json documents. *)
Definition escape_size (b : Z) : Z :=
  if (b =? 34) || (b =? 92) || (b =? 8) || (b =? 9) || (b =? 10) || (b =? 12) || (b =? 13) then 2
  else if b <? 32 then 6
  else 1.

Definition json_str_size (s : string) : Z := 2 + sum_z (map escape_size (str_bytes s)).

Fixpoint digits_fuel (fuel : nat) (n : Z) : Z :=
  match fuel with
  | O => 1
  | S fuel => if n <? 10 then 1 else 1 + digits_fuel fuel (n / 10)
  end.

(** Decimal digits of a 64-bit magnitude (at most twenty). *)
Definition digits (n : Z) : Z := digits_fuel 20 n.

Definition commas {A : Type} (l : list A) : Z := Z.max 0 (Z.of_nat (length l) - 1).

Fixpoint json_size (j : Json) : Z :=
  match j with
  | JNull => 4
  | JBool b => if b then 4 else 5
  | JInt n => if n <? 0 then 1 + digits (- n) else digits n
  | JFloat t => str_len t
  | JStr s => json_str_size s
  | JArr items => 2 + commas items + sum_z (map json_size items)
  | JObj entries =>
      2 + commas entries
      + sum_z (map (fun kv => json_str_size kv.1 + 1 + json_size kv.2) entries)
  end.

(** Serialising a tree whose keys are strings does not fail, and writes the
    compact form. *)
Class ToVecLaws `{SerdeJson} := {
  to_vec_compact : forall j, exists b, to_vec j = Some b /\ str_len b = json_size j;
}.

(** * Deserialising primitive values *)

Definition json_error : string := "invalid_json".

Definition de_u64 (j : Json) : option Z :=
  match j with
  | JInt n => if (0 <=? n) && (n <=? U64_MAX) then Some n else None
  | _ => None
  end.

Definition de_string (j : Json) : option string :=
  match j with
  | JStr s => Some s
  | _ => None
  end.

Definition de_uuid `{UuidLib} (j : Json) : option Uuid :=
  match j with
  | JStr s => uuid_parse_str s
  | _ => None
  end.

(** [Option<T>]: [null] is [None]. *)
Definition de_option {A : Type} (de : Json -> option A) (j : Json) : option (option A) :=
  match j with
  | JNull => Some None
  | _ => Some <$> de j
  end.

(** Serialising [Option<T>] and [u64]. *)
Definition ser_option {A : Type} (ser : A -> Json) (o : option A) : Json :=
  match o with
  | None => JNull
  | Some a => ser a
  end.

Lemma de_u64_ser (n : Z) : u64 n -> de_u64 (JInt n) = Some n.
Proof.
  intros [H0 H1]. simpl.
  by rewrite (proj2 (Z.leb_le 0 n) H0), (proj2 (Z.leb_le n U64_MAX) H1).
Qed.

Lemma de_u64_u64 (j : Json) (n : Z) : de_u64 j = Some n -> u64 n.
Proof.
  destruct j; simpl; try done. case_match eqn:E; [|done]. intros [= ->].
  rust_norm. unfold u64. lia.
Qed.

Lemma de_option_ser {A : Type} (ser : A -> Json) (de : Json -> option A) (o : option A) :
  (forall a, o = Some a -> de (ser a) = Some a /\ ser a <> JNull) ->
  de_option de (ser_option ser o) = Some o.
Proof.
  destruct o as [a|]; [|done]. intros H. destruct (H a eq_refl) as [Ha Hn]. simpl.
  unfold de_option. rewrite Ha. by destruct (ser a).
Qed.

Lemma de_uuid_ser `{UuidLaws} (u : Uuid) : de_uuid (JStr (uuid_to_string u)) = Some u.
Proof. apply uuid_parse_to_string. Qed.

(** * serde_json::Value *)

Class JsonValue (V : Type) := {
  v_get : V -> string -> option V;
  v_as_str : V -> option string;
  v_as_u64 : V -> option Z;
  v_as_bool : V -> option bool;
  v_as_array : V -> option (list V);
  v_is_null : V -> bool;
  v_is_object : V -> bool;
  v_object_len : V -> option Z;
  v_to_vec : V -> option string;
}.

(** The variants of [Value] are disjoint, and [as_u64] returns a [u64]. *)
Class JsonValueLaws (V : Type) `{JsonValue V} := {
  v_null_not_str : forall v, v_is_null v = true -> v_as_str v = None;
  v_null_not_u64 : forall v, v_is_null v = true -> v_as_u64 v = None;
  v_u64_range : forall v n, v_as_u64 v = Some n -> u64 n;
}.

(** * Sizes *)

Lemma digits_fuel_pow (k fuel : nat) (n : Z) :
  n < 10 ^ (Z.of_nat k + 1) -> digits_fuel fuel n <= Z.of_nat k + 1.
Proof.
  revert k n. induction fuel as [|fuel IH]; intros k n Hn; simpl; [lia|].
  destruct (Z.ltb_spec n 10) as [Hs|Hs]; [lia|].
  destruct k as [|k]; [simpl in Hn; lia|].
  specialize (IH k (n / 10)).
  replace (Z.of_nat (S k) + 1) with (Z.succ (Z.of_nat k + 1)) in Hn by lia.
  rewrite Z.pow_succ_r in Hn by lia.
  assert (n / 10 < 10 ^ (Z.of_nat k + 1)) by (apply Z.div_lt_upper_bound; lia). lia.
Qed.

Lemma digits_u64 (n : Z) : u64 n -> digits n <= 20.
Proof.
  intros [H0 H1]. unfold digits. apply (digits_fuel_pow 19). unfold U64_MAX in H1.
  change (10 ^ (Z.of_nat 19 + 1)) with 100000000000000000000. lia.
Qed.

Lemma json_size_u64 (n : Z) : u64 n -> json_size (JInt n) <= 20.
Proof.
  intros Hn. simpl. destruct (Z.ltb_spec n 0); [unfold u64 in Hn; lia|].
  by apply digits_u64.
Qed.

(** Strings none of whose bytes is escaped, or escaped to at most [k] bytes. *)
Lemma json_str_size_le (k : Z) (s : string) :
  forallb (fun b => escape_size b <=? k) (str_bytes s) = true ->
  json_str_size s <= 2 + k * str_len s.
Proof.
  intros H. unfold json_str_size. rewrite <- str_bytes_length.
  assert (sum_z (map escape_size (str_bytes s)) <= k * zlen (str_bytes s)); [|unfold zlen in *; lia].
  apply sum_z_map_le, Forall_forall. intros b Hb.
  rewrite forallb_forall in H. apply Z.leb_le, H. by apply list_elem_of_In.
Qed.

Lemma uuid_json_size `{UuidLaws} (u : Uuid) : json_size (JStr (uuid_to_string u)) <= 38.
Proof.
  simpl. etrans; [apply (json_str_size_le 1)|rewrite uuid_string_len; lia].
  pose proof (uuid_string_bytes u) as Hb. rewrite forallb_forall in Hb |- *.
  intros b Hin%Hb. unfold is_uuid_byte, is_ascii_digit in Hin. unfold escape_size.
  rust_norm. repeat case_match; rust_norm; lia.
Qed.

Lemma json_size_nonneg `{ToVecLaws} (j : Json) : 0 <= json_size j.
Proof. destruct (to_vec_compact j) as (b & _ & <-). apply str_len_nonneg. Qed.

(** * Instances for the witnesses *)

Module JsonModel.

(** A uuid as its canonical string. *)
Definition canonical (s : string) : bool :=
  (str_len s =? 36) && forallb is_uuid_byte (str_bytes s).

Definition nil_uuid : string := "00000000-0000-0000-0000-000000000000".
Definition one_uuid : string := "11111111-1111-4111-8111-111111111111".

Inductive CanonicalUuid : Type :=
| canonical_uuid (s : string) (Hs : canonical s = true).

Definition canonical_string (u : CanonicalUuid) : string :=
  let (s, _) := u in s.

Lemma canonical_string_inj (u v : CanonicalUuid) :
  canonical_string u = canonical_string v -> u = v.
Proof.
  destruct u as [s Hs], v as [t Ht]. simpl. intros ->. f_equal. apply (proof_irrel Hs Ht).
Qed.

#[export] Instance canonical_uuid_eq_dec : EqDecision CanonicalUuid.
Proof.
  refine (fun u v => cast_if (decide (canonical_string u = canonical_string v))).
  - by apply canonical_string_inj.
  - congruence.
Defined.

Definition parse_canonical (s : string) : option CanonicalUuid :=
  match bool_dec (canonical s) true with
  | left H => Some (canonical_uuid s H)
  | right _ => None
  end.

#[export] Instance string_uuid : UuidLib := {
  Uuid := CanonicalUuid;
  uuid_to_string := canonical_string;
  uuid_parse_str := parse_canonical;
}.

Definition uuid0 : Uuid := canonical_uuid nil_uuid eq_refl.
Definition uuid1 : Uuid := canonical_uuid one_uuid eq_refl.

#[export] Instance string_uuid_laws : UuidLaws.
Proof.
  split; intros [s Hs]; simpl.
  - unfold parse_canonical. destruct (bool_dec (canonical s) true) as [H|H]; [|done].
    f_equal. by apply canonical_string_inj.
  - unfold canonical in Hs. rust_norm. tauto.
  - unfold canonical in Hs. rust_norm. tauto.
Qed.

(** A compact writer. *)
Definition chr (b : Z) : ascii := ascii_of_N (Z.to_N b).
Definition str_of (l : list Z) : string := string_of_list_ascii (map chr l).

Definition hex_digit (n : Z) : Z := if n <? 10 then 48 + n else 87 + n.

Definition escape_byte (b : Z) : list Z :=
  if (b =? 34) || (b =? 92) then [92; b]
  else if b =? 8 then [92; 98]
  else if b =? 9 then [92; 116]
  else if b =? 10 then [92; 110]
  else if b =? 12 then [92; 102]
  else if b =? 13 then [92; 114]
  else if b <? 32 then [92; 117; 48; 48; hex_digit (b / 16); hex_digit (b mod 16)]
  else [b].

Definition print_str (s : string) : list Z :=
  34 :: concat (map escape_byte (str_bytes s)) ++ [34].

Fixpoint print_nat (fuel : nat) (n : Z) : list Z :=
  match fuel with
  | O => [48 + n mod 10]
  | S fuel => if n <? 10 then [48 + n] else print_nat fuel (n / 10) ++ [48 + n mod 10]
  end.

Fixpoint join (l : list (list Z)) : list Z :=
  match l with
  | [] => []
  | [x] => x
  | x :: rest => x ++ 44 :: join rest
  end.

Fixpoint print (j : Json) : list Z :=
  match j with
  | JNull => [110; 117; 108; 108]
  | JBool b => if b then [116; 114; 117; 101] else [102; 97; 108; 115; 101]
  | JInt n => if n <? 0 then 45 :: print_nat 20 (- n) else print_nat 20 n
  | JFloat t => str_bytes t
  | JStr s => print_str s
  | JArr items => 91 :: join (map print items) ++ [93]
  | JObj entries =>
      123 :: join (map (fun kv => print_str kv.1 ++ 58 :: print kv.2) entries) ++ [125]
  end.

(** [serde_json::Value] as a tree: the last duplicate of a key wins. *)
Definition tree_get (v : Json) (key : string) : option Json :=
  match v with
  | JObj entries => snd <$> find (fun kv => bool_decide (kv.1 = key)) (reverse entries)
  | _ => None
  end.

#[export] Instance tree_value : JsonValue Json := {
  v_get := tree_get;
  v_as_str := de_string;
  v_as_u64 := de_u64;
  v_as_bool v := match v with JBool b => Some b | _ => None end;
  v_as_array v := match v with JArr l => Some l | _ => None end;
  v_is_null v := match v with JNull => true | _ => false end;
  v_is_object v := match v with JObj _ => true | _ => false end;
  v_object_len v := match v with
    | JObj l => Some (Z.of_nat (size (list_to_set (map fst l) : gset string)))
    | _ => None
    end;
  v_to_vec v := Some (str_of (print v));
}.

#[export] Instance tree_value_laws : JsonValueLaws Json.
Proof.
  split.
  - by intros [].
  - by intros [].
  - intros v n. apply de_u64_u64.
Qed.

Lemma escape_byte_size (b : Z) : zlen (escape_byte b) = escape_size b.
Proof. unfold escape_byte, escape_size. repeat case_match; rust_norm; try done; lia. Qed.

Lemma print_str_size (s : string) : zlen (print_str s) = json_str_size s.
Proof.
  unfold print_str, json_str_size. rewrite zlen_cons, zlen_app.
  change (zlen [34]) with 1.
  assert (zlen (concat (map escape_byte (str_bytes s)))
          = sum_z (map escape_size (str_bytes s))); [|lia].
  induction (str_bytes s) as [|b l IH]; [done|].
  cbn [map concat]. rewrite zlen_app, escape_byte_size, IH. done.
Qed.

Lemma print_nat_size (fuel : nat) (n : Z) : zlen (print_nat fuel n) = digits_fuel fuel n.
Proof.
  revert n. induction fuel as [|fuel IH]; intros n; [done|]. simpl.
  case_match; [done|]. rewrite zlen_app, IH. change (zlen [48 + n mod 10]) with 1. lia.
Qed.

Lemma join_size (l : list (list Z)) : zlen (join l) = commas l + sum_z (map zlen l).
Proof.
  induction l as [|x [|y l] IH]; [done|unfold commas, sum_z; simpl; lia|].
  change (join (x :: y :: l)) with (x ++ 44 :: join (y :: l)).
  rewrite zlen_app, zlen_cons, IH. unfold commas, sum_z. cbn [map fold_right length]. lia.
Qed.

Lemma print_size : forall j, zlen (print j) = json_size j.
Proof.
  fix IH 1. intros [| [] | n | t | s | items | entries]; try reflexivity; cbn [print json_size].
  - case_match; rewrite ?zlen_cons, print_nat_size; reflexivity.
  - unfold zlen. apply str_bytes_length.
  - apply print_str_size.
  - rewrite zlen_cons, zlen_app, join_size. change (zlen [93]) with 1.
    unfold commas. rewrite length_map.
    assert (sum_z (map zlen (map print items)) = sum_z (map json_size items)); [|lia].
    induction items as [|j items IHl]; [reflexivity|]. unfold sum_z in *. cbn [map fold_right].
    rewrite IH, IHl. reflexivity.
  - rewrite zlen_cons, zlen_app, join_size. change (zlen [125]) with 1.
    unfold commas. rewrite length_map.
    match goal with |- context [sum_z (map zlen ?a)] =>
      assert (sum_z (map zlen a)
        = sum_z (map (fun kv => json_str_size kv.1 + 1 + json_size kv.2) entries)); [|lia] end.
    induction entries as [|kv entries IHl]; [reflexivity|]. unfold sum_z in *. cbn [map fold_right].
    rewrite IHl, zlen_app, zlen_cons, print_str_size, IH. lia.
Qed.

Lemma str_of_len (l : list Z) : str_len (str_of l) = zlen l.
Proof.
  unfold str_len, str_of, zlen. f_equal.
  induction l as [|b l IH]; simpl; congruence.
Qed.

(** The writer, with a reader that knows the documents [known]. *)
Definition codec (known : list Json) : SerdeJson := {|
  to_vec j := Some (str_of (print j));
  from_slice b := find (fun j => bool_decide (str_of (print j) = b)) known;
|}.

#[export] Instance codec_laws (known : list Json) : @ToVecLaws (codec known).
Proof. split. intros j. eexists. split; [done|]. by rewrite str_of_len, print_size. Qed.

End JsonModel.
