(* ===== verification/Value.v ===== *)
(** * Reading [serde_json::Value]

    The accessors the code uses on a parsed document, a [Json] tree: an object
    holds every key once, in the order of its map. *)

From S2P Require Import Prelude Json.

Definition or_else {A : Type} (a b : option A) : option A :=
  match a with
  | Some _ => a
  | None => b
  end.

Fixpoint assoc {A : Type} (k : string) (l : list (string * A)) : option A :=
  match l with
  | [] => None
  | (k', a) :: rest => if String.eqb k k' then Some a else assoc k rest
  end.

Definition as_object (v : Json) : option (list (string * Json)) :=
  match v with
  | JObj entries => Some entries
  | _ => None
  end.

(** [Value::get] with a string: [None] on anything but an object. *)
Definition get (v : Json) (k : string) : option Json := entries ← as_object v; assoc k entries.

(** [get(k1).or_else(|| get(k2)) ...]. *)
Definition get_any (v : Json) (ks : list string) : option Json :=
  fold_right (fun k rest => or_else (get v k) rest) None ks.

Definition as_str (v : Json) : option string :=
  match v with
  | JStr s => Some s
  | _ => None
  end.

Definition as_bool (v : Json) : option bool :=
  match v with
  | JBool b => Some b
  | _ => None
  end.

Definition as_array (v : Json) : option (list Json) :=
  match v with
  | JArr items => Some items
  | _ => None
  end.

Definition as_u64 (v : Json) : option Z :=
  match v with
  | JInt n => if (0 <=? n) && (n <=? U64_MAX) then Some n else None
  | _ => None
  end.

Definition is_number (v : Json) : bool :=
  match v with
  | JInt _ | JFloat _ => true
  | _ => false
  end.

Definition is_null (v : Json) : bool :=
  match v with
  | JNull => true
  | _ => false
  end.

Definition is_string (v : Json) : bool := is_some (as_str v).

(** * Parsed values *)

(** The keys of a [serde_json::Map] are sorted, and a later value replaces an earlier one. *)
Fixpoint map_put {A : Type} (k : string) (a : A) (l : list (string * A)) : list (string * A) :=
  match l with
  | [] => [(k, a)]
  | (k', a') :: rest =>
      if String.eqb k k' then (k, a) :: rest
      else if String.ltb k k' then (k, a) :: l
      else (k', a') :: map_put k a rest
  end.

(** The [Value] of a document: what [from_slice] and [from_str] make of its tree. *)
Fixpoint value_of (j : Json) : Json :=
  match j with
  | JArr items => JArr (map value_of items)
  | JObj entries =>
      JObj (fold_left (fun m kv => map_put kv.1 kv.2 m) (map (fun kv => (kv.1, value_of kv.2)) entries) [])
  | j => j
  end.

(** * Derived deserialization of structs *)

(** A field of a struct: [None] when it is there twice. *)
Definition struct_field (name : string) (entries : list (string * Json)) : option (option Json) :=
  match List.filter (fun kv => String.eqb kv.1 name) entries with
  | [] => Some None
  | [kv] => Some (Some kv.2)
  | _ => None
  end.

Definition string_field (name : string) (entries : list (string * Json)) : option string :=
  field ← struct_field name entries; j ← field; de_string j.

(** [#[serde(default)]] on an [Option]. *)
Definition default_string (name : string) (entries : list (string * Json)) : option (option string) :=
  field ← struct_field name entries;
  match field with
  | None => Some None
  | Some j => de_option de_string j
  end.

Lemma as_u64_range (v : Json) (n : Z) : as_u64 v = Some n -> u64 n.
Proof.
  destruct v; simpl; try done. destruct ((0 <=? n0) && (n0 <=? U64_MAX)) eqn:E; [|done].
  intros [= <-]. apply andb_true_iff in E as [?%Z.leb_le ?%Z.leb_le]. done.
Qed.
