(* ===== verification/Contract.v ===== *)
(** The activity contract: src/src/activity/contract.rs.

    The closed vocabularies of an activity update and their wire names, the
    update, stamp and event records, and the validation every producer and
    consumer of an activity runs.  The wire codec is in ContractCodec.v. *)

From S2P Require Import Prelude Json.

Definition ACTIVITY_SCHEMA_VERSION : Z := 1.
Definition MAX_ACTIVITY_SUMMARY_BYTES : Z := 512.
Definition MAX_ACTIVITY_EVENT_BYTES : Z := 2048.

Inductive ContractError : Type :=
| CE_UnknownSchema
| CE_InvalidValue
| CE_InvalidSummary
| CE_TooLarge
| CE_InvalidJson.

(** * Vocabularies and their wire names *)

Inductive ActivityOperation : Type :=
| SessionStart
| SessionStop
| SessionRestart
| SessionPermissionMode
| SessionPermissionAllow
| SessionPermissionRevoke
| SessionPermissionGrant
| SessionPermissionUngrant
| SessionRestartPolicy
| SessionForget
| SessionCrash
| SessionAutoRestart
| SupervisorUpgrade
| ReadFile
| WriteFile
| GitAdd
| GitCommit
| GitFetch
| GitPull
| GitPush
| GitBranchCreate
| GitBranchDelete
| GitRemoteBranchDelete
| GitSwitch
| GitWorktreeAdd
| GitWorktreeCreate
| GitWorktreeList
| GitWorktreeRemove
| GitWorktreePrune
| GithubWorkflowDispatch
| GithubWorkflowRunGet
| GithubPrList
| GithubPrGet
| GithubPrClose
| Execute
| StartCommand
| StopJob
| LocalAgentRun
| DevToolRun
| GetImage
| EvidenceRead
| RepositoryCloneBare
| CodexStatus
| CodexTaskStart
| CodexTaskGet
| CodexTaskControl
| OpencodeStatus
| OpencodeTaskStart
| OpencodeTaskGet
| OpencodeTaskControl
| DevinStatus
| DevinTaskStart
| DevinTaskGet
| DevinTaskControl
| DevinCloudStatus
| DevinCloudTaskStart
| DevinCloudTaskGet
| DevinCloudTaskControl
| ListDirectory
| ApplyPatch
| PollJob
| JobList
| TaskList
| CheckpointSave
| CheckpointLoad
| WorkHandoff
| FrictionSummary
| LearningCandidateList
| Recall
| RecallFeedback
| OnePasswordMcpDiscover
| OnePasswordMcpReadResource
| OnePasswordMcpCall
| OnePasswordItemGet
| OnePasswordSecretResolve
| OnePasswordServiceAccountStatus
| OnePasswordServiceAccountRun
| KintoneMcpStatus
| KintoneMcpDiscover
| KintoneMcpCall
| KintoneCliStatus
| KintoneCliRun
| WithoutSandbox.

(** The derived [Serialize]: [rename_all = "snake_case"] with the seven
    explicit [onepassword_] renames. *)
Definition operation_wire_name (op : ActivityOperation) : string :=
  match op with
  | SessionStart => "session_start"
  | SessionStop => "session_stop"
  | SessionRestart => "session_restart"
  | SessionPermissionMode => "session_permission_mode"
  | SessionPermissionAllow => "session_permission_allow"
  | SessionPermissionRevoke => "session_permission_revoke"
  | SessionPermissionGrant => "session_permission_grant"
  | SessionPermissionUngrant => "session_permission_ungrant"
  | SessionRestartPolicy => "session_restart_policy"
  | SessionForget => "session_forget"
  | SessionCrash => "session_crash"
  | SessionAutoRestart => "session_auto_restart"
  | SupervisorUpgrade => "supervisor_upgrade"
  | ReadFile => "read_file"
  | WriteFile => "write_file"
  | GitAdd => "git_add"
  | GitCommit => "git_commit"
  | GitFetch => "git_fetch"
  | GitPull => "git_pull"
  | GitPush => "git_push"
  | GitBranchCreate => "git_branch_create"
  | GitBranchDelete => "git_branch_delete"
  | GitRemoteBranchDelete => "git_remote_branch_delete"
  | GitSwitch => "git_switch"
  | GitWorktreeAdd => "git_worktree_add"
  | GitWorktreeCreate => "git_worktree_create"
  | GitWorktreeList => "git_worktree_list"
  | GitWorktreeRemove => "git_worktree_remove"
  | GitWorktreePrune => "git_worktree_prune"
  | GithubWorkflowDispatch => "github_workflow_dispatch"
  | GithubWorkflowRunGet => "github_workflow_run_get"
  | GithubPrList => "github_pr_list"
  | GithubPrGet => "github_pr_get"
  | GithubPrClose => "github_pr_close"
  | Execute => "execute"
  | StartCommand => "start_command"
  | StopJob => "stop_job"
  | LocalAgentRun => "local_agent_run"
  | DevToolRun => "dev_tool_run"
  | GetImage => "get_image"
  | EvidenceRead => "evidence_read"
  | RepositoryCloneBare => "repository_clone_bare"
  | CodexStatus => "codex_status"
  | CodexTaskStart => "codex_task_start"
  | CodexTaskGet => "codex_task_get"
  | CodexTaskControl => "codex_task_control"
  | OpencodeStatus => "opencode_status"
  | OpencodeTaskStart => "opencode_task_start"
  | OpencodeTaskGet => "opencode_task_get"
  | OpencodeTaskControl => "opencode_task_control"
  | DevinStatus => "devin_status"
  | DevinTaskStart => "devin_task_start"
  | DevinTaskGet => "devin_task_get"
  | DevinTaskControl => "devin_task_control"
  | DevinCloudStatus => "devin_cloud_status"
  | DevinCloudTaskStart => "devin_cloud_task_start"
  | DevinCloudTaskGet => "devin_cloud_task_get"
  | DevinCloudTaskControl => "devin_cloud_task_control"
  | ListDirectory => "list_directory"
  | ApplyPatch => "apply_patch"
  | PollJob => "poll_job"
  | JobList => "job_list"
  | TaskList => "task_list"
  | CheckpointSave => "checkpoint_save"
  | CheckpointLoad => "checkpoint_load"
  | WorkHandoff => "work_handoff"
  | FrictionSummary => "friction_summary"
  | LearningCandidateList => "learning_candidate_list"
  | Recall => "recall"
  | RecallFeedback => "recall_feedback"
  | OnePasswordMcpDiscover => "onepassword_mcp_discover"
  | OnePasswordMcpReadResource => "onepassword_mcp_read_resource"
  | OnePasswordMcpCall => "onepassword_mcp_call"
  | OnePasswordItemGet => "onepassword_item_get"
  | OnePasswordSecretResolve => "onepassword_secret_resolve"
  | OnePasswordServiceAccountStatus => "onepassword_service_account_status"
  | OnePasswordServiceAccountRun => "onepassword_service_account_run"
  | KintoneMcpStatus => "kintone_mcp_status"
  | KintoneMcpDiscover => "kintone_mcp_discover"
  | KintoneMcpCall => "kintone_mcp_call"
  | KintoneCliStatus => "kintone_cli_status"
  | KintoneCliRun => "kintone_cli_run"
  | WithoutSandbox => "without_sandbox"
  end.

(** The hand-written [Deserialize]. *)
Definition operation_of_wire (value : string) : option ActivityOperation :=
  match_str value
  [ ("session_start", SessionStart)
  ; ("session_stop", SessionStop)
  ; ("session_restart", SessionRestart)
  ; ("session_permission_mode", SessionPermissionMode)
  ; ("session_permission_allow", SessionPermissionAllow)
  ; ("session_permission_revoke", SessionPermissionRevoke)
  ; ("session_permission_grant", SessionPermissionGrant)
  ; ("session_permission_ungrant", SessionPermissionUngrant)
  ; ("session_restart_policy", SessionRestartPolicy)
  ; ("session_forget", SessionForget)
  ; ("session_crash", SessionCrash)
  ; ("session_auto_restart", SessionAutoRestart)
  ; ("supervisor_upgrade", SupervisorUpgrade)
  ; ("read_file", ReadFile)
  ; ("write_file", WriteFile)
  ; ("git_add", GitAdd)
  ; ("git_commit", GitCommit)
  ; ("git_fetch", GitFetch)
  ; ("git_pull", GitPull)
  ; ("git_push", GitPush)
  ; ("git_branch_create", GitBranchCreate)
  ; ("git_branch_delete", GitBranchDelete)
  ; ("git_remote_branch_delete", GitRemoteBranchDelete)
  ; ("git_switch", GitSwitch)
  ; ("git_worktree_add", GitWorktreeAdd)
  ; ("git_worktree_create", GitWorktreeCreate)
  ; ("git_worktree_list", GitWorktreeList)
  ; ("git_worktree_remove", GitWorktreeRemove)
  ; ("git_worktree_prune", GitWorktreePrune)
  ; ("github_workflow_dispatch", GithubWorkflowDispatch)
  ; ("github_workflow_run_get", GithubWorkflowRunGet)
  ; ("github_pr_list", GithubPrList)
  ; ("github_pr_get", GithubPrGet)
  ; ("github_pr_close", GithubPrClose)
  ; ("execute", Execute)
  ; ("start_command", StartCommand)
  ; ("stop_job", StopJob)
  ; ("local_agent_run", LocalAgentRun)
  ; ("dev_tool_run", DevToolRun)
  ; ("get_image", GetImage)
  ; ("evidence_read", EvidenceRead)
  ; ("repository_clone_bare", RepositoryCloneBare)
  ; ("codex_status", CodexStatus)
  ; ("codex_task_start", CodexTaskStart)
  ; ("codex_task_get", CodexTaskGet)
  ; ("codex_task_control", CodexTaskControl)
  ; ("opencode_status", OpencodeStatus)
  ; ("opencode_task_start", OpencodeTaskStart)
  ; ("opencode_task_get", OpencodeTaskGet)
  ; ("opencode_task_control", OpencodeTaskControl)
  ; ("devin_status", DevinStatus)
  ; ("devin_task_start", DevinTaskStart)
  ; ("devin_task_get", DevinTaskGet)
  ; ("devin_task_control", DevinTaskControl)
  ; ("devin_cloud_status", DevinCloudStatus)
  ; ("devin_cloud_task_start", DevinCloudTaskStart)
  ; ("devin_cloud_task_get", DevinCloudTaskGet)
  ; ("devin_cloud_task_control", DevinCloudTaskControl)
  ; ("list_directory", ListDirectory)
  ; ("apply_patch", ApplyPatch)
  ; ("poll_job", PollJob)
  ; ("job_list", JobList)
  ; ("task_list", TaskList)
  ; ("checkpoint_save", CheckpointSave)
  ; ("checkpoint_load", CheckpointLoad)
  ; ("work_handoff", WorkHandoff)
  ; ("friction_summary", FrictionSummary)
  ; ("learning_candidate_list", LearningCandidateList)
  ; ("recall", Recall)
  ; ("recall_feedback", RecallFeedback)
  ; ("onepassword_mcp_discover", OnePasswordMcpDiscover)
  ; ("onepassword_mcp_read_resource", OnePasswordMcpReadResource)
  ; ("onepassword_mcp_call", OnePasswordMcpCall)
  ; ("onepassword_item_get", OnePasswordItemGet)
  ; ("onepassword_secret_resolve", OnePasswordSecretResolve)
  ; ("onepassword_service_account_status", OnePasswordServiceAccountStatus)
  ; ("onepassword_service_account_run", OnePasswordServiceAccountRun)
  ; ("kintone_mcp_status", KintoneMcpStatus)
  ; ("kintone_mcp_discover", KintoneMcpDiscover)
  ; ("kintone_mcp_call", KintoneMcpCall)
  ; ("kintone_cli_status", KintoneCliStatus)
  ; ("kintone_cli_run", KintoneCliRun)
  ; ("without_sandbox", WithoutSandbox) ].

Inductive ActivityState : Type :=
| Started
| WaitingApproval
| Running
| Completed
| Failed
| Cancelled.

Definition state_wire_name (s : ActivityState) : string :=
  match s with
  | Started => "started"
  | WaitingApproval => "waiting_approval"
  | Running => "running"
  | Completed => "completed"
  | Failed => "failed"
  | Cancelled => "cancelled"
  end.

Definition state_of_wire (value : string) : option ActivityState :=
  match_str value
  [ ("started", Started)
  ; ("waiting_approval", WaitingApproval)
  ; ("running", Running)
  ; ("completed", Completed)
  ; ("failed", Failed)
  ; ("cancelled", Cancelled) ].

Inductive ActivityErrorKind : Type :=
| EK_InvalidInput
| EK_SandboxDenied
| EK_ApprovalDenied
| EK_RuntimeUnavailable
| EK_ChildFailed
| EK_SandboxSetupFailed
| EK_ProtocolFailed
| EK_OperationFailed.

Definition error_kind_as_str (k : ActivityErrorKind) : string :=
  match k with
  | EK_InvalidInput => "invalid_input"
  | EK_SandboxDenied => "sandbox_denied"
  | EK_ApprovalDenied => "approval_denied"
  | EK_RuntimeUnavailable => "runtime_unavailable"
  | EK_ChildFailed => "child_failed"
  | EK_SandboxSetupFailed => "sandbox_setup_failed"
  | EK_ProtocolFailed => "protocol_failed"
  | EK_OperationFailed => "operation_failed"
  end.

Definition error_kind_from_wire_name (value : string) : option ActivityErrorKind :=
  match_str value
  [ ("invalid_input", EK_InvalidInput)
  ; ("sandbox_denied", EK_SandboxDenied)
  ; ("approval_denied", EK_ApprovalDenied)
  ; ("runtime_unavailable", EK_RuntimeUnavailable)
  ; ("child_failed", EK_ChildFailed)
  ; ("sandbox_setup_failed", EK_SandboxSetupFailed)
  ; ("protocol_failed", EK_ProtocolFailed)
  ; ("operation_failed", EK_OperationFailed) ].

Inductive ActivityRemote : Type :=
| Remote_Origin
| Remote_Other.

Definition remote_wire_name (r : ActivityRemote) : string :=
  match r with
  | Remote_Origin => "origin"
  | Remote_Other => "other"
  end.

Definition remote_of_wire (value : string) : option ActivityRemote :=
  match_str value [ ("origin", Remote_Origin); ("other", Remote_Other) ].

Inductive ActivityCancellationReason : Type :=
| Reason_StopRequested
| Reason_SessionStopped
| Reason_Timeout.

Definition reason_wire_name (r : ActivityCancellationReason) : string :=
  match r with
  | Reason_StopRequested => "stop_requested"
  | Reason_SessionStopped => "session_stopped"
  | Reason_Timeout => "timeout"
  end.

Definition reason_from_wire_name (value : string) : option ActivityCancellationReason :=
  match_str value
  [ ("stop_requested", Reason_StopRequested)
  ; ("session_stopped", Reason_SessionStopped)
  ; ("timeout", Reason_Timeout) ].

Inductive ActivityResult : Type :=
| Result_Accepted.

Definition result_wire_name (r : ActivityResult) : string :=
  match r with
  | Result_Accepted => "accepted"
  end.

Definition result_from_wire_name (value : string) : option ActivityResult :=
  match_str value [ ("accepted", Result_Accepted) ].

Inductive ActivityUpgradePhase : Type :=
| Phase_Committed
| Phase_SupervisorHandoff
| Phase_SessionsVerifying
| Phase_IngressRestarting
| Phase_EndpointVerifying
| Phase_PluginReconciling.

Definition phase_wire_name (p : ActivityUpgradePhase) : string :=
  match p with
  | Phase_Committed => "committed"
  | Phase_SupervisorHandoff => "supervisor_handoff"
  | Phase_SessionsVerifying => "sessions_verifying"
  | Phase_IngressRestarting => "ingress_restarting"
  | Phase_EndpointVerifying => "endpoint_verifying"
  | Phase_PluginReconciling => "plugin_reconciling"
  end.

Definition phase_from_wire_name (value : string) : option ActivityUpgradePhase :=
  match_str value
  [ ("committed", Phase_Committed)
  ; ("supervisor_handoff", Phase_SupervisorHandoff)
  ; ("sessions_verifying", Phase_SessionsVerifying)
  ; ("ingress_restarting", Phase_IngressRestarting)
  ; ("endpoint_verifying", Phase_EndpointVerifying)
  ; ("plugin_reconciling", Phase_PluginReconciling) ].

(** * Summaries *)

Inductive ActivitySummary : Type :=
| Summary_Empty
| Summary_Failure (kind : ActivityErrorKind)
| Summary_Git (remote : ActivityRemote)
| Summary_Cancellation (reason : ActivityCancellationReason)
| Summary_Result (result : ActivityResult)
| Summary_UpgradePhase (phase : ActivityUpgradePhase).

Definition as_safe_summary (s : ActivitySummary) : string :=
  match s with
  | Summary_Empty => ""
  | Summary_Failure kind =>
      match kind with
      | EK_InvalidInput => "error=invalid_input"
      | EK_SandboxDenied => "error=sandbox_denied"
      | EK_ApprovalDenied => "error=approval_denied"
      | EK_RuntimeUnavailable => "error=runtime_unavailable"
      | EK_ChildFailed => "error=child_failed"
      | EK_SandboxSetupFailed => "error=sandbox_setup_failed"
      | EK_ProtocolFailed => "error=protocol_failed"
      | EK_OperationFailed => "error=operation_failed"
      end
  | Summary_Git Remote_Origin => "remote=origin"
  | Summary_Git Remote_Other => "remote=other"
  | Summary_Cancellation Reason_StopRequested => "reason=stop_requested"
  | Summary_Cancellation Reason_SessionStopped => "reason=session_stopped"
  | Summary_Cancellation Reason_Timeout => "reason=timeout"
  | Summary_Result Result_Accepted => "result=accepted"
  | Summary_UpgradePhase Phase_Committed => "phase=committed"
  | Summary_UpgradePhase Phase_SupervisorHandoff => "phase=supervisor_handoff"
  | Summary_UpgradePhase Phase_SessionsVerifying => "phase=sessions_verifying"
  | Summary_UpgradePhase Phase_IngressRestarting => "phase=ingress_restarting"
  | Summary_UpgradePhase Phase_EndpointVerifying => "phase=endpoint_verifying"
  | Summary_UpgradePhase Phase_PluginReconciling => "phase=plugin_reconciling"
  end.

(** * Validation *)

(** [matches!(state, Completed | Failed | Cancelled)]: also [is_terminal] of
    activity/scope.rs. *)
Definition is_terminal (state : ActivityState) : bool :=
  match state with
  | Completed | Failed | Cancelled => true
  | Started | WaitingApproval | Running => false
  end.

Definition validate_duration (state : ActivityState) (duration_ms : option Z)
    : result ContractError unit :=
  let terminal := is_terminal state in
  ensure (negb (Bool.eqb terminal (is_none duration_ms))) CE_InvalidValue.

Definition session_id_byte (b : Z) : bool :=
  is_ascii_alphanumeric b || (b =? 45) || (b =? 95) || (b =? 46).

(** The body shared by [validate_session_identity] for a present id. *)
Definition session_id_valid (session_id : string) : bool :=
  in_range 1 64 (str_len session_id)
  && negb (String.eqb session_id ".")
  && negb (String.eqb session_id "..")
  && forallb session_id_byte (str_bytes session_id).

Definition forbidden_summary_char (c : Z) : bool :=
  is_control c || (c =? 0x061c) || (c =? 0x200e) || (c =? 0x200f)
  || in_range 0x202a 0x202e c || in_range 0x2066 0x2069 c.

Definition validate_safe_summary (summary : string) : result ContractError unit :=
  if (MAX_ACTIVITY_SUMMARY_BYTES <? str_len summary)
     || existsb forbidden_summary_char (chars summary)
  then Err CE_InvalidSummary
  else Ok tt.

Section Contract.
Context `{UuidLib}.

Definition validate_session_identity (session_id : option string)
    (session_instance : option Uuid) : result ContractError unit :=
  match session_id with
  | None => ensure (is_none session_instance) CE_InvalidValue
  | Some session_id => ensure (session_id_valid session_id) CE_InvalidValue
  end.

Record ActivityUpdate : Type := mkUpdate {
  upd_schema_version : Z;
  upd_operation_id : Uuid;
  upd_operation : ActivityOperation;
  upd_state : ActivityState;
  upd_duration_ms : option Z;
  upd_summary : ActivitySummary;
}.

Definition validate_update (update : ActivityUpdate) : result ContractError unit :=
  if negb (upd_schema_version update =? ACTIVITY_SCHEMA_VERSION) then Err CE_UnknownSchema
  else
    validate_duration (upd_state update) (upd_duration_ms update) ;!
    validate_safe_summary (as_safe_summary (upd_summary update)).

(** [ActivityUpdate::with_schema_version] and [ActivityUpdate::new]. *)
Definition update_with_schema_version (schema_version : Z) (operation_id : Uuid)
    (operation : ActivityOperation) (state : ActivityState) (duration_ms : option Z)
    (summary : ActivitySummary) : result ContractError ActivityUpdate :=
  let update := mkUpdate schema_version operation_id operation state duration_ms summary in
  validate_update update ;!
  Ok update.

Definition update_new (operation_id : Uuid) (operation : ActivityOperation)
    (state : ActivityState) (duration_ms : option Z) (summary : ActivitySummary)
    : result ContractError ActivityUpdate :=
  update_with_schema_version ACTIVITY_SCHEMA_VERSION operation_id operation state
    duration_ms summary.

Record EventStamp : Type := mkStamp {
  st_sequence : Z;
  st_timestamp_ms : Z;
  st_session_id : option string;
  st_session_instance : option Uuid;
}.

Definition validate_stamp (stamp : EventStamp) : result ContractError unit :=
  if st_sequence stamp =? 0 then Err CE_InvalidValue
  else validate_session_identity (st_session_id stamp) (st_session_instance stamp).

Definition stamp_new (sequence timestamp_ms : Z) (session_id : option string)
    (session_instance : option Uuid) : result ContractError EventStamp :=
  let stamp := mkStamp sequence timestamp_ms session_id session_instance in
  validate_stamp stamp ;!
  Ok stamp.

Record ActivityEvent : Type := mkEvent {
  ev_schema_version : Z;
  ev_sequence : Z;
  ev_operation_id : Uuid;
  ev_timestamp_ms : Z;
  ev_session_id : option string;
  ev_session_instance : option Uuid;
  ev_operation : ActivityOperation;
  ev_state : ActivityState;
  ev_duration_ms : option Z;
  ev_safe_summary : string;
}.

Definition validate_event (event : ActivityEvent) : result ContractError unit :=
  if negb (ev_schema_version event =? ACTIVITY_SCHEMA_VERSION) then Err CE_UnknownSchema
  else if ev_sequence event =? 0 then Err CE_InvalidValue
  else
    validate_duration (ev_state event) (ev_duration_ms event) ;!
    validate_session_identity (ev_session_id event) (ev_session_instance event) ;!
    validate_safe_summary (ev_safe_summary event).

(** [ActivityEvent::from_update]. *)
Definition event_from_update (update : ActivityUpdate) (stamp : EventStamp)
    : result ContractError ActivityEvent :=
  validate_update update ;!
  validate_stamp stamp ;!
  let event := mkEvent
    (upd_schema_version update) (st_sequence stamp) (upd_operation_id update)
    (st_timestamp_ms stamp) (st_session_id stamp) (st_session_instance stamp)
    (upd_operation update) (upd_state update) (upd_duration_ms update)
    (as_safe_summary (upd_summary update)) in
  validate_event event ;!
  Ok event.
End Contract.

(** * Vocabulary lemmas *)

Lemma operation_of_wire_name (op : ActivityOperation) :
  operation_of_wire (operation_wire_name op) = Some op.
Proof. by destruct op. Qed.

Lemma match_str_Some {A : Type} (v : string) (arms : list (string * A)) (a : A) :
  match_str v arms = Some a -> (v, a) ∈ arms.
Proof.
  induction arms as [|[k b] arms IH]; simpl; [done|].
  destruct (String.eqb_spec v k) as [->|]; [intros [= ->]; left|right; auto].
Qed.

#[global] Instance operation_wire_name_inj : Inj (=) (=) operation_wire_name.
Proof.
  intros a b E. apply (f_equal operation_of_wire) in E.
  rewrite !operation_of_wire_name in E. congruence.
Qed.

#[global] Instance operation_eq_dec : EqDecision ActivityOperation.
Proof.
  refine (fun a b => cast_if (decide (operation_wire_name a = operation_wire_name b))).
  - by apply (inj operation_wire_name).
  - congruence.
Defined.

#[global] Instance state_eq_dec : EqDecision ActivityState.
Proof. solve_decision. Defined.
#[global] Instance error_kind_eq_dec : EqDecision ActivityErrorKind.
Proof. solve_decision. Defined.
#[global] Instance contract_error_eq_dec : EqDecision ContractError.
Proof. solve_decision. Defined.
#[global] Instance event_eq_dec `{UuidLib} : EqDecision ActivityEvent.
Proof. solve_decision. Defined.
#[global] Instance remote_eq_dec : EqDecision ActivityRemote.
Proof. solve_decision. Defined.
#[global] Instance reason_eq_dec : EqDecision ActivityCancellationReason.
Proof. solve_decision. Defined.
#[global] Instance result_kind_eq_dec : EqDecision ActivityResult.
Proof. solve_decision. Defined.
#[global] Instance phase_eq_dec : EqDecision ActivityUpgradePhase.
Proof. solve_decision. Defined.
#[global] Instance summary_eq_dec : EqDecision ActivitySummary.
Proof. solve_decision. Defined.
#[global] Instance update_eq_dec `{UuidLib} : EqDecision ActivityUpdate.
Proof. solve_decision. Defined.

(** A string names an operation exactly when it is that operation's wire name. *)
Lemma operation_of_wire_Some (value : string) (op : ActivityOperation) :
  operation_of_wire value = Some op <-> value = operation_wire_name op.
Proof.
  split; [|intros ->; apply operation_of_wire_name].
  intros E%match_str_Some. rewrite list_elem_of_In in E. simpl in E.
  repeat (destruct E as [[= <- <-]|E]; [done|]). done.
Qed.

(** * Validation lemmas *)

(** Every summary of the vocabulary passes the check on summary text. *)
Lemma as_safe_summary_valid (s : ActivitySummary) :
  validate_safe_summary (as_safe_summary s) = Ok tt.
Proof. by destruct s as [|[]|[]|[]|[]|[]]. Qed.

Lemma validate_duration_Ok (state : ActivityState) (d : option Z) :
  validate_duration state d = Ok tt <-> (is_terminal state = true <-> d <> None).
Proof.
  unfold validate_duration. rewrite ensure_Ok.
  destruct (is_terminal state), d; simpl; naive_solver.
Qed.

Lemma validate_safe_summary_Ok (s : string) :
  validate_safe_summary s = Ok tt <->
  str_len s <= MAX_ACTIVITY_SUMMARY_BYTES
  /\ forall c, c ∈ chars s -> forbidden_summary_char c = false.
Proof.
  unfold validate_safe_summary. case_match eqn:E.
  - split; [done|]. intros [Hl Hc]. rewrite orb_true_iff, Z.ltb_lt in E.
    destruct E as [E|(c & Hin & Hf)%existsb_exists]; [lia|].
    apply list_elem_of_In in Hin. by rewrite Hc in Hf.
  - rewrite orb_false_iff, Z.ltb_ge in E. destruct E as [El Ec].
    split; [|done]. intros _. split; [done|]. intros c Hc.
    apply not_true_is_false. intros Hf. apply not_true_iff_false in Ec. apply Ec.
    apply existsb_exists. exists c. by rewrite <- list_elem_of_In.
Qed.

Section ContractProofs.
Context `{UuidLib}.

(** The event that an update and a stamp describe. *)
Definition event_of (update : ActivityUpdate) (stamp : EventStamp) : ActivityEvent :=
  mkEvent
    (upd_schema_version update) (st_sequence stamp) (upd_operation_id update)
    (st_timestamp_ms stamp) (st_session_id stamp) (st_session_instance stamp)
    (upd_operation update) (upd_state update) (upd_duration_ms update)
    (as_safe_summary (upd_summary update)).

Lemma validate_update_Ok (u : ActivityUpdate) :
  validate_update u = Ok tt <->
  upd_schema_version u = ACTIVITY_SCHEMA_VERSION
  /\ (is_terminal (upd_state u) = true <-> upd_duration_ms u <> None).
Proof.
  unfold validate_update. rewrite <- validate_duration_Ok.
  destruct (Z.eqb_spec (upd_schema_version u) ACTIVITY_SCHEMA_VERSION); simpl; [|naive_solver].
  rewrite as_safe_summary_valid. destruct (validate_duration _ _) as [[]|]; simpl; naive_solver.
Qed.

Lemma validate_stamp_Ok (st : EventStamp) :
  validate_stamp st = Ok tt <->
  st_sequence st <> 0
  /\ validate_session_identity (st_session_id st) (st_session_instance st) = Ok tt.
Proof.
  unfold validate_stamp. destruct (Z.eqb_spec (st_sequence st) 0); naive_solver.
Qed.

Lemma validate_session_identity_Ok (sid : option string) (inst : option Uuid) :
  validate_session_identity sid inst = Ok tt <->
  (sid = None -> inst = None) /\ forall s, sid = Some s -> session_id_valid s = true.
Proof.
  unfold validate_session_identity.
  destruct sid; rewrite ensure_Ok, ?is_none_true; naive_solver.
Qed.

Lemma validate_event_Ok (e : ActivityEvent) :
  validate_event e = Ok tt <->
  ev_schema_version e = ACTIVITY_SCHEMA_VERSION /\ ev_sequence e <> 0
  /\ (is_terminal (ev_state e) = true <-> ev_duration_ms e <> None)
  /\ validate_session_identity (ev_session_id e) (ev_session_instance e) = Ok tt
  /\ validate_safe_summary (ev_safe_summary e) = Ok tt.
Proof.
  unfold validate_event. rewrite <- validate_duration_Ok.
  destruct (Z.eqb_spec (ev_schema_version e) ACTIVITY_SCHEMA_VERSION); simpl; [|naive_solver].
  destruct (Z.eqb_spec (ev_sequence e) 0); [naive_solver|].
  destruct (validate_duration _ _) as [[]|]; simpl; [|naive_solver].
  destruct (validate_session_identity _ _) as [[]|]; simpl; naive_solver.
Qed.

Lemma event_of_valid (u : ActivityUpdate) (st : EventStamp) :
  validate_update u = Ok tt -> validate_stamp st = Ok tt -> validate_event (event_of u st) = Ok tt.
Proof.
  rewrite validate_update_Ok, validate_stamp_Ok, validate_event_Ok. simpl.
  rewrite as_safe_summary_valid. tauto.
Qed.

Lemma event_from_update_eq (u : ActivityUpdate) (st : EventStamp) :
  event_from_update u st =
  (validate_update u ;! validate_stamp st ;! Ok (event_of u st)).
Proof.
  unfold event_from_update. fold (event_of u st).
  destruct (validate_update u) as [[]|] eqn:Hu; simpl; [|done].
  destruct (validate_stamp st) as [[]|] eqn:Hs; simpl; [|done].
  by rewrite event_of_valid.
Qed.

(** An event is assembled exactly from a valid update and a valid stamp:
    [ActivityEvent::from_update] returns [event_of] them, its closing
    [event.validate()] never being the check that fails; a valid update is
    one of the current schema whose duration is present exactly in a
    terminal state, and the event then passes the same validation a decoder
    runs. *)
Theorem event_from_update_spec (u : ActivityUpdate) (st : EventStamp) (e : ActivityEvent) :
  event_from_update u st = Ok e <->
  e = event_of u st /\ validate_event e = Ok tt
  /\ upd_schema_version u = ACTIVITY_SCHEMA_VERSION
  /\ (is_terminal (upd_state u) = true <-> upd_duration_ms u <> None)
  /\ st_sequence st <> 0
  /\ (st_session_id st = None -> st_session_instance st = None)
  /\ (forall s, st_session_id st = Some s -> session_id_valid s = true).
Proof.
  rewrite event_from_update_eq, !bind_Ok.
  pose proof (event_of_valid u st) as Hev.
  rewrite validate_update_Ok, validate_stamp_Ok, validate_session_identity_Ok in Hev.
  split.
  - intros ([] & Hu & H'). inv_ok. rewrite validate_update_Ok in Hu.
    rewrite validate_stamp_Ok, validate_session_identity_Ok in H0. naive_solver.
  - intros (-> & _ & Hsv & Hd & Hq & Hi & Hn). exists tt.
    rewrite validate_update_Ok. split; [done|]. rewrite bind_Ok. exists tt.
    by rewrite validate_stamp_Ok, validate_session_identity_Ok.
Qed.
End ContractProofs.

(** The wire vocabulary of operations is a bijection: the hand-written
    [Deserialize] accepts exactly the names the derived [Serialize] writes, and
    no two operations share a name. *)
Theorem operation_wire_bijection (value : string) (op : ActivityOperation) :
  operation_of_wire value = Some op <-> value = operation_wire_name op.
Proof. apply operation_of_wire_Some. Qed.
