(* ===== verification/ContractCodec.v ===== *)
(** The activity wire codec: the [Serialize] and [Deserialize] impls and
    [encode_*]/[decode_*] of src/src/activity/contract.rs.

    A [serde] visitor's loop over [next_key]/[next_value] is a left fold of one
    entry at a time over the object's entries; the locals it fills are a record
    of slots.  Every error a visitor can return is the fixed [json_error]. *)

From S2P Require Import Prelude Json Contract.

(** [while let Some(entry) = ... { step?; }] *)
Fixpoint fold_ok {E A B : Type} (f : A -> B -> result E A) (a : A) (l : list B) : result E A :=
  match l with
  | [] => Ok a
  | b :: rest => let! a' := f a b in fold_ok f a' rest
  end.

Definition set_once {A : Type} (slot value : option A) : result string (option A) :=
  match slot with
  | Some _ => Err json_error
  | None => let! v := ok_or value json_error in Ok (Some v)
  end.

Definition to_option {E A : Type} (r : result E A) : option A :=
  match r with
  | Ok a => Some a
  | Err _ => None
  end.

(** [deserializer.deserialize_map(visitor)]: anything but an object is refused. *)
Definition deserialize_map {A : Type} (visit : list (string * Json) -> result string A)
    (j : Json) : result string A :=
  match j with
  | JObj entries => visit entries
  | _ => Err json_error
  end.

Definition de_operation (j : Json) : option ActivityOperation := de_string j ≫= operation_of_wire.
Definition de_state (j : Json) : option ActivityState := de_string j ≫= state_of_wire.

(** * ActivitySummary *)

Record SummarySlots : Type := mkSummarySlots {
  ss_kind : option string;
  ss_error : option string;
  ss_remote : option string;
  ss_reason : option string;
  ss_result : option string;
  ss_phase : option string;
}.

Definition SummarySlots_init : SummarySlots := mkSummarySlots None None None None None None.

(** One round of the [while let Some(field)] loop. *)
Definition SummarySlots_entry (s : SummarySlots) (entry : string * Json) : result string SummarySlots :=
  let (field, value) := entry in
  match match_str field
    [ ("kind",
      let! x := set_once (ss_kind s) (de_string value) in
      Ok (mkSummarySlots x (ss_error s) (ss_remote s) (ss_reason s) (ss_result s) (ss_phase s)))
    ; ("error",
      let! x := set_once (ss_error s) (de_string value) in
      Ok (mkSummarySlots (ss_kind s) x (ss_remote s) (ss_reason s) (ss_result s) (ss_phase s)))
    ; ("remote",
      let! x := set_once (ss_remote s) (de_string value) in
      Ok (mkSummarySlots (ss_kind s) (ss_error s) x (ss_reason s) (ss_result s) (ss_phase s)))
    ; ("reason",
      let! x := set_once (ss_reason s) (de_string value) in
      Ok (mkSummarySlots (ss_kind s) (ss_error s) (ss_remote s) x (ss_result s) (ss_phase s)))
    ; ("result",
      let! x := set_once (ss_result s) (de_string value) in
      Ok (mkSummarySlots (ss_kind s) (ss_error s) (ss_remote s) (ss_reason s) x (ss_phase s)))
    ; ("phase",
      let! x := set_once (ss_phase s) (de_string value) in
      Ok (mkSummarySlots (ss_kind s) (ss_error s) (ss_remote s) (ss_reason s) (ss_result s) x)) ] with
  | Some r => r
  | None => Err json_error
  end.

(** Which fields have been met. *)
Definition SummarySlots_set (s : SummarySlots) (key : string) : bool :=
  default false (match_str key
    [ ("kind", is_some (ss_kind s))
    ; ("error", is_some (ss_error s))
    ; ("remote", is_some (ss_remote s))
    ; ("reason", is_some (ss_reason s))
    ; ("result", is_some (ss_result s))
    ; ("phase", is_some (ss_phase s)) ]).

Definition SummarySlots_fields : list string :=
  [ "kind"; "error"; "remote"; "reason"; "result"; "phase" ].

Definition summary_of_slots (s : SummarySlots) : result string ActivitySummary :=
  let none := is_none in
  let! kind := ok_or (ss_kind s) json_error in
  let error := ss_error s in let remote := ss_remote s in let reason := ss_reason s in
  let result := ss_result s in let phase := ss_phase s in
  if String.eqb kind "empty"
     && none error && none remote && none reason && none result && none phase
  then Ok Summary_Empty
  else if String.eqb kind "failure"
     && is_some error && none remote && none reason && none result && none phase
  then let! error := ok_or error json_error in
       let! kind := ok_or (error_kind_from_wire_name error) json_error in
       Ok (Summary_Failure kind)
  else if String.eqb kind "git"
     && none error && is_some remote && none reason && none result && none phase
  then let! remote := ok_or remote json_error in
       let! remote := ok_or (remote_of_wire remote) json_error in
       Ok (Summary_Git remote)
  else if String.eqb kind "cancellation"
     && none error && none remote && is_some reason && none result && none phase
  then let! reason := ok_or reason json_error in
       let! reason := ok_or (reason_from_wire_name reason) json_error in
       Ok (Summary_Cancellation reason)
  else if String.eqb kind "result"
     && none error && none remote && none reason && is_some result && none phase
  then let! result := ok_or result json_error in
       let! result := ok_or (result_from_wire_name result) json_error in
       Ok (Summary_Result result)
  else if String.eqb kind "upgrade_phase"
     && none error && none remote && none reason && none result && is_some phase
  then let! phase := ok_or phase json_error in
       let! phase := ok_or (phase_from_wire_name phase) json_error in
       Ok (Summary_UpgradePhase phase)
  else Err json_error.

Definition summary_visit_map (entries : list (string * Json)) : result string ActivitySummary :=
  let! s := fold_ok SummarySlots_entry SummarySlots_init entries in
  summary_of_slots s.

Definition de_summary (j : Json) : option ActivitySummary :=
  to_option (deserialize_map summary_visit_map j).

(** The derived [Serialize] with [tag = "kind"]. *)
Definition summary_to_json (s : ActivitySummary) : Json :=
  match s with
  | Summary_Empty => JObj [("kind", JStr "empty")]
  | Summary_Failure k =>
      JObj [("kind", JStr "failure"); ("error", JStr (error_kind_as_str k))]
  | Summary_Git r => JObj [("kind", JStr "git"); ("remote", JStr (remote_wire_name r))]
  | Summary_Cancellation r =>
      JObj [("kind", JStr "cancellation"); ("reason", JStr (reason_wire_name r))]
  | Summary_Result r => JObj [("kind", JStr "result"); ("result", JStr (result_wire_name r))]
  | Summary_UpgradePhase p =>
      JObj [("kind", JStr "upgrade_phase"); ("phase", JStr (phase_wire_name p))]
  end.

Section Codec.
Context `{UuidLib}.

(** * ActivityUpdate *)

Record UpdateSlots : Type := mkUpdateSlots {
  us_schema_version : option Z;
  us_operation_id : option Uuid;
  us_operation : option ActivityOperation;
  us_state : option ActivityState;
  us_duration_ms : option Z;
  us_duration_ms_seen : bool;
  us_summary : option ActivitySummary;
}.

Definition UpdateSlots_init : UpdateSlots := mkUpdateSlots None None None None None false None.

(** One round of the [while let Some(field)] loop. *)
Definition UpdateSlots_entry (s : UpdateSlots) (entry : string * Json) : result string UpdateSlots :=
  let (field, value) := entry in
  match match_str field
    [ ("schema_version",
      let! x := set_once (us_schema_version s) (de_u64 value) in
      Ok (mkUpdateSlots x (us_operation_id s) (us_operation s) (us_state s) (us_duration_ms s) (us_duration_ms_seen s) (us_summary s)))
    ; ("operation_id",
      let! x := set_once (us_operation_id s) (de_uuid value) in
      Ok (mkUpdateSlots (us_schema_version s) x (us_operation s) (us_state s) (us_duration_ms s) (us_duration_ms_seen s) (us_summary s)))
    ; ("operation",
      let! x := set_once (us_operation s) (de_operation value) in
      Ok (mkUpdateSlots (us_schema_version s) (us_operation_id s) x (us_state s) (us_duration_ms s) (us_duration_ms_seen s) (us_summary s)))
    ; ("state",
      let! x := set_once (us_state s) (de_state value) in
      Ok (mkUpdateSlots (us_schema_version s) (us_operation_id s) (us_operation s) x (us_duration_ms s) (us_duration_ms_seen s) (us_summary s)))
    ; ("duration_ms",
      ensure (negb (us_duration_ms_seen s)) json_error ;!
      let! x := ok_or (de_option de_u64 value) json_error in
      Ok (mkUpdateSlots (us_schema_version s) (us_operation_id s) (us_operation s) (us_state s) x true (us_summary s)))
    ; ("summary",
      let! x := set_once (us_summary s) (de_summary value) in
      Ok (mkUpdateSlots (us_schema_version s) (us_operation_id s) (us_operation s) (us_state s) (us_duration_ms s) (us_duration_ms_seen s) x)) ] with
  | Some r => r
  | None => Err json_error
  end.

(** Which fields have been met. *)
Definition UpdateSlots_set (s : UpdateSlots) (key : string) : bool :=
  default false (match_str key
    [ ("schema_version", is_some (us_schema_version s))
    ; ("operation_id", is_some (us_operation_id s))
    ; ("operation", is_some (us_operation s))
    ; ("state", is_some (us_state s))
    ; ("duration_ms", us_duration_ms_seen s)
    ; ("summary", is_some (us_summary s)) ]).

Definition UpdateSlots_fields : list string :=
  [ "schema_version"; "operation_id"; "operation"; "state"; "duration_ms"; "summary" ].

Definition update_of_slots (s : UpdateSlots) : result string ActivityUpdate :=
  ensure (us_duration_ms_seen s) json_error ;!
  let! schema_version := ok_or (us_schema_version s) json_error in
  let! operation_id := ok_or (us_operation_id s) json_error in
  let! operation := ok_or (us_operation s) json_error in
  let! state := ok_or (us_state s) json_error in
  let! summary := ok_or (us_summary s) json_error in
  Ok (mkUpdate schema_version operation_id operation state (us_duration_ms s) summary).

Definition update_visit_map (entries : list (string * Json)) : result string ActivityUpdate :=
  let! s := fold_ok UpdateSlots_entry UpdateSlots_init entries in
  update_of_slots s.

(** [ActivityUpdateWire]'s derived [Serialize]. *)
Definition update_to_json (u : ActivityUpdate) : Json :=
  JObj [ ("schema_version", JInt (upd_schema_version u))
       ; ("operation_id", JStr (uuid_to_string (upd_operation_id u)))
       ; ("operation", JStr (operation_wire_name (upd_operation u)))
       ; ("state", JStr (state_wire_name (upd_state u)))
       ; ("duration_ms", ser_option JInt (upd_duration_ms u))
       ; ("summary", summary_to_json (upd_summary u)) ].

(** * ActivityEvent *)

Record EventSlots : Type := mkEventSlots {
  es_schema_version : option Z;
  es_sequence : option Z;
  es_operation_id : option Uuid;
  es_timestamp_ms : option Z;
  es_session_id : option string;
  es_session_id_seen : bool;
  es_session_instance : option Uuid;
  es_session_instance_seen : bool;
  es_operation : option ActivityOperation;
  es_state : option ActivityState;
  es_duration_ms : option Z;
  es_duration_ms_seen : bool;
  es_safe_summary : option string;
}.

Definition EventSlots_init : EventSlots := mkEventSlots None None None None None false None false None None None false None.

(** One round of the [while let Some(field)] loop. *)
Definition EventSlots_entry (s : EventSlots) (entry : string * Json) : result string EventSlots :=
  let (field, value) := entry in
  match match_str field
    [ ("schema_version",
      let! x := set_once (es_schema_version s) (de_u64 value) in
      Ok (mkEventSlots x (es_sequence s) (es_operation_id s) (es_timestamp_ms s) (es_session_id s) (es_session_id_seen s) (es_session_instance s) (es_session_instance_seen s) (es_operation s) (es_state s) (es_duration_ms s) (es_duration_ms_seen s) (es_safe_summary s)))
    ; ("sequence",
      let! x := set_once (es_sequence s) (de_u64 value) in
      Ok (mkEventSlots (es_schema_version s) x (es_operation_id s) (es_timestamp_ms s) (es_session_id s) (es_session_id_seen s) (es_session_instance s) (es_session_instance_seen s) (es_operation s) (es_state s) (es_duration_ms s) (es_duration_ms_seen s) (es_safe_summary s)))
    ; ("operation_id",
      let! x := set_once (es_operation_id s) (de_uuid value) in
      Ok (mkEventSlots (es_schema_version s) (es_sequence s) x (es_timestamp_ms s) (es_session_id s) (es_session_id_seen s) (es_session_instance s) (es_session_instance_seen s) (es_operation s) (es_state s) (es_duration_ms s) (es_duration_ms_seen s) (es_safe_summary s)))
    ; ("timestamp_ms",
      let! x := set_once (es_timestamp_ms s) (de_u64 value) in
      Ok (mkEventSlots (es_schema_version s) (es_sequence s) (es_operation_id s) x (es_session_id s) (es_session_id_seen s) (es_session_instance s) (es_session_instance_seen s) (es_operation s) (es_state s) (es_duration_ms s) (es_duration_ms_seen s) (es_safe_summary s)))
    ; ("session_id",
      ensure (negb (es_session_id_seen s)) json_error ;!
      let! x := ok_or (de_option de_string value) json_error in
      Ok (mkEventSlots (es_schema_version s) (es_sequence s) (es_operation_id s) (es_timestamp_ms s) x true (es_session_instance s) (es_session_instance_seen s) (es_operation s) (es_state s) (es_duration_ms s) (es_duration_ms_seen s) (es_safe_summary s)))
    ; ("session_instance",
      ensure (negb (es_session_instance_seen s)) json_error ;!
      let! x := ok_or (de_option de_uuid value) json_error in
      Ok (mkEventSlots (es_schema_version s) (es_sequence s) (es_operation_id s) (es_timestamp_ms s) (es_session_id s) (es_session_id_seen s) x true (es_operation s) (es_state s) (es_duration_ms s) (es_duration_ms_seen s) (es_safe_summary s)))
    ; ("operation",
      let! x := set_once (es_operation s) (de_operation value) in
      Ok (mkEventSlots (es_schema_version s) (es_sequence s) (es_operation_id s) (es_timestamp_ms s) (es_session_id s) (es_session_id_seen s) (es_session_instance s) (es_session_instance_seen s) x (es_state s) (es_duration_ms s) (es_duration_ms_seen s) (es_safe_summary s)))
    ; ("state",
      let! x := set_once (es_state s) (de_state value) in
      Ok (mkEventSlots (es_schema_version s) (es_sequence s) (es_operation_id s) (es_timestamp_ms s) (es_session_id s) (es_session_id_seen s) (es_session_instance s) (es_session_instance_seen s) (es_operation s) x (es_duration_ms s) (es_duration_ms_seen s) (es_safe_summary s)))
    ; ("duration_ms",
      ensure (negb (es_duration_ms_seen s)) json_error ;!
      let! x := ok_or (de_option de_u64 value) json_error in
      Ok (mkEventSlots (es_schema_version s) (es_sequence s) (es_operation_id s) (es_timestamp_ms s) (es_session_id s) (es_session_id_seen s) (es_session_instance s) (es_session_instance_seen s) (es_operation s) (es_state s) x true (es_safe_summary s)))
    ; ("safe_summary",
      let! x := set_once (es_safe_summary s) (de_string value) in
      Ok (mkEventSlots (es_schema_version s) (es_sequence s) (es_operation_id s) (es_timestamp_ms s) (es_session_id s) (es_session_id_seen s) (es_session_instance s) (es_session_instance_seen s) (es_operation s) (es_state s) (es_duration_ms s) (es_duration_ms_seen s) x)) ] with
  | Some r => r
  | None => Err json_error
  end.

(** Which fields have been met. *)
Definition EventSlots_set (s : EventSlots) (key : string) : bool :=
  default false (match_str key
    [ ("schema_version", is_some (es_schema_version s))
    ; ("sequence", is_some (es_sequence s))
    ; ("operation_id", is_some (es_operation_id s))
    ; ("timestamp_ms", is_some (es_timestamp_ms s))
    ; ("session_id", es_session_id_seen s)
    ; ("session_instance", es_session_instance_seen s)
    ; ("operation", is_some (es_operation s))
    ; ("state", is_some (es_state s))
    ; ("duration_ms", es_duration_ms_seen s)
    ; ("safe_summary", is_some (es_safe_summary s)) ]).

Definition EventSlots_fields : list string :=
  [ "schema_version"; "sequence"; "operation_id"; "timestamp_ms"; "session_id"; "session_instance"; "operation"; "state"; "duration_ms"; "safe_summary" ].

Definition event_of_slots (s : EventSlots) : result string ActivityEvent :=
  ensure (es_session_id_seen s && es_session_instance_seen s && es_duration_ms_seen s)
    json_error ;!
  let! schema_version := ok_or (es_schema_version s) json_error in
  let! sequence := ok_or (es_sequence s) json_error in
  let! operation_id := ok_or (es_operation_id s) json_error in
  let! timestamp_ms := ok_or (es_timestamp_ms s) json_error in
  let! operation := ok_or (es_operation s) json_error in
  let! state := ok_or (es_state s) json_error in
  let! safe_summary := ok_or (es_safe_summary s) json_error in
  Ok (mkEvent schema_version sequence operation_id timestamp_ms (es_session_id s)
        (es_session_instance s) operation state (es_duration_ms s) safe_summary).

Definition event_visit_map (entries : list (string * Json)) : result string ActivityEvent :=
  let! s := fold_ok EventSlots_entry EventSlots_init entries in
  event_of_slots s.

Definition de_event_wire (j : Json) : option ActivityEvent :=
  to_option (deserialize_map event_visit_map j).

(** [ActivityEventWire]'s derived [Serialize], and the envelope's. *)
Definition event_to_json (e : ActivityEvent) : Json :=
  JObj [ ("schema_version", JInt (ev_schema_version e))
       ; ("sequence", JInt (ev_sequence e))
       ; ("operation_id", JStr (uuid_to_string (ev_operation_id e)))
       ; ("timestamp_ms", JInt (ev_timestamp_ms e))
       ; ("session_id", ser_option JStr (ev_session_id e))
       ; ("session_instance",
           ser_option (fun u => JStr (uuid_to_string u)) (ev_session_instance e))
       ; ("operation", JStr (operation_wire_name (ev_operation e)))
       ; ("state", JStr (state_wire_name (ev_state e)))
       ; ("duration_ms", ser_option JInt (ev_duration_ms e))
       ; ("safe_summary", JStr (ev_safe_summary e)) ].

Definition envelope_to_json (e : ActivityEvent) : Json :=
  JObj [ ("type", JStr "activity"); ("event", event_to_json e) ].

Record EnvelopeSlots : Type := mkEnvelopeSlots {
  ns_type : option string;
  ns_event : option ActivityEvent;
}.

Definition EnvelopeSlots_init : EnvelopeSlots := mkEnvelopeSlots None None.

(** One round of the [while let Some(field)] loop. *)
Definition EnvelopeSlots_entry (s : EnvelopeSlots) (entry : string * Json) : result string EnvelopeSlots :=
  let (field, value) := entry in
  match match_str field
    [ ("type",
      let! x := set_once (ns_type s) (de_string value) in
      Ok (mkEnvelopeSlots x (ns_event s)))
    ; ("event",
      let! x := set_once (ns_event s) (de_event_wire value) in
      Ok (mkEnvelopeSlots (ns_type s) x)) ] with
  | Some r => r
  | None => Err json_error
  end.

(** Which fields have been met. *)
Definition EnvelopeSlots_set (s : EnvelopeSlots) (key : string) : bool :=
  default false (match_str key
    [ ("type", is_some (ns_type s))
    ; ("event", is_some (ns_event s)) ]).

Definition EnvelopeSlots_fields : list string :=
  [ "type"; "event" ].

Definition envelope_of_slots (s : EnvelopeSlots) : result string ActivityEvent :=
  ensure (bool_decide (ns_type s = Some "activity")) json_error ;!
  ok_or (ns_event s) json_error.

Definition envelope_visit_map (entries : list (string * Json)) : result string ActivityEvent :=
  let! s := fold_ok EnvelopeSlots_entry EnvelopeSlots_init entries in
  envelope_of_slots s.

(** * The codec functions *)

Context `{SerdeJson}.

Definition encode_json (j : Json) : result ContractError string :=
  let! bytes := ok_or (to_vec j) CE_InvalidJson in
  if MAX_ACTIVITY_EVENT_BYTES <? str_len bytes then Err CE_TooLarge else Ok bytes.

Definition decode_json {A : Type} (visit : list (string * Json) -> result string A)
    (bytes : string) : result ContractError A :=
  if MAX_ACTIVITY_EVENT_BYTES <? str_len bytes then Err CE_TooLarge
  else
    let! document := ok_or (from_slice bytes) CE_InvalidJson in
    map_err (fun _ => CE_InvalidJson) (deserialize_map visit document).

Definition encode_update (update : ActivityUpdate) : result ContractError string :=
  validate_update update ;!
  encode_json (update_to_json update).

Definition decode_update (bytes : string) : result ContractError ActivityUpdate :=
  let! update := decode_json update_visit_map bytes in
  validate_update update ;!
  Ok update.

Definition encode_event (event : ActivityEvent) : result ContractError string :=
  validate_event event ;!
  encode_json (envelope_to_json event).

Definition decode_event (bytes : string) : result ContractError ActivityEvent :=
  let! event := decode_json envelope_visit_map bytes in
  validate_event event ;!
  Ok event.
End Codec.

(** * Proofs *)

(** What the Rust types of the fields say: integers are [u64]s, text is UTF-8. *)
Definition update_typed `{UuidLib} (u : ActivityUpdate) : Prop :=
  u64 (upd_schema_version u) /\ forall d, upd_duration_ms u = Some d -> u64 d.

Definition event_typed `{UuidLib} (e : ActivityEvent) : Prop :=
  u64 (ev_schema_version e) /\ u64 (ev_sequence e) /\ u64 (ev_timestamp_ms e)
  /\ (forall d, ev_duration_ms e = Some d -> u64 d)
  /\ str_utf8 (ev_safe_summary e).

Lemma state_of_wire_name (s : ActivityState) : state_of_wire (state_wire_name s) = Some s.
Proof. by destruct s. Qed.

Lemma summary_roundtrip (s : ActivitySummary) : de_summary (summary_to_json s) = Some s.
Proof. by destruct s as [|[]|[]|[]|[]|[]]. Qed.

Lemma fold_ok_cons {E A B : Type} (f : A -> B -> result E A) (a : A) (b : B) (l : list B) (a' : A) :
  f a b = Ok a' -> fold_ok f a (b :: l) = fold_ok f a' l.
Proof. simpl. by intros ->. Qed.

Section CodecProofs.
Context `{UuidLaws}.

Lemma de_option_u64 (o : option Z) :
  (forall d, o = Some d -> u64 d) -> de_option de_u64 (ser_option JInt o) = Some o.
Proof. intros Ho. apply de_option_ser. intros a Ha. split; [apply de_u64_ser; auto|done]. Qed.

Lemma de_option_string (o : option string) :
  de_option de_string (ser_option JStr o) = Some o.
Proof. by apply de_option_ser. Qed.

Lemma de_option_uuid (o : option Uuid) :
  de_option de_uuid (ser_option (fun u => JStr (uuid_to_string u)) o) = Some o.
Proof. apply de_option_ser. intros a _. split; [apply de_uuid_ser|done]. Qed.

Lemma update_visit_to_json (u : ActivityUpdate) :
  update_typed u -> deserialize_map update_visit_map (update_to_json u) = Ok u.
Proof.
  intros [Hs Hd]. unfold deserialize_map, update_to_json, update_visit_map.
  cbn [fold_ok]. unfold UpdateSlots_entry, UpdateSlots_init, set_once.
  cbn -[de_u64 de_uuid de_operation de_state de_option de_summary].
  rewrite de_u64_ser, de_uuid_ser, de_option_u64, summary_roundtrip by done.
  unfold de_operation, de_state. simpl.
  rewrite operation_of_wire_name, state_of_wire_name. by destruct u.
Qed.

Lemma event_visit_to_json (e : ActivityEvent) :
  event_typed e -> deserialize_map event_visit_map (event_to_json e) = Ok e.
Proof.
  intros (Hs & Hq & Ht & Hd & _). unfold deserialize_map, event_to_json, event_visit_map.
  cbn [fold_ok]. unfold EventSlots_entry, EventSlots_init, set_once.
  cbn -[de_u64 de_uuid de_operation de_state de_option].
  rewrite !de_u64_ser, de_uuid_ser, de_option_u64, de_option_string, de_option_uuid by done.
  unfold de_operation, de_state. simpl.
  rewrite operation_of_wire_name, state_of_wire_name. by destruct e.
Qed.

Lemma envelope_visit_to_json (e : ActivityEvent) :
  event_typed e -> deserialize_map envelope_visit_map (envelope_to_json e) = Ok e.
Proof.
  intros He. unfold envelope_visit_map. cbn -[event_to_json de_event_wire].
  unfold de_event_wire. by rewrite event_visit_to_json.
Qed.
End CodecProofs.

(** ** Strictness: a visitor accepts no unknown and no repeated field *)

(** What a slot-filling visitor promises of one entry: the field is one of its
    own, was not met before, and is met afterwards. *)
Class StrictVisitor {S : Type} (step : S -> string * Json -> result string S)
    (init : S) (met : S -> string -> bool) (fields : list string) : Prop := {
  strict_init : forall k, met init k = false;
  strict_step : forall s k v s', step s (k, v) = Ok s' ->
    k ∈ fields /\ met s k = false
    /\ forall k', met s' k' = bool_decide (k' = k) || met s k';
}.

Definition keys (entries : list (string * Json)) : list string := entries.*1.

Section Strict.
Context {S : Type} {step : S -> string * Json -> result string S}
  {init : S} {met : S -> string -> bool} {fields : list string}
  `{!StrictVisitor step init met fields}.

Lemma strict_fold_from (l : list (string * Json)) (s s' : S) :
  fold_ok step s l = Ok s' ->
  NoDup (keys l) /\ keys l ⊆ fields /\ (forall k, k ∈ keys l -> met s k = false)
  /\ forall k, met s' k = bool_decide (k ∈ keys l) || met s k.
Proof.
  revert s. induction l as [|[k v] l IH]; intros s Hf; simpl in Hf.
  - injection Hf as <-. unfold keys. simpl.
    split_and!; [apply NoDup_nil_2|set_solver|set_solver|].
    done.
  - inv_ok. apply strict_step in H as (Hin & Hk & Hmet).
    apply IH in H0 as (Hnd & Hsub & Hnew & Hend). unfold keys in *. simpl.
    split_and!.
    + constructor; [|done]. intros Hkl. specialize (Hnew _ Hkl).
      rewrite Hmet in Hnew. by rewrite bool_decide_eq_true_2 in Hnew.
    + set_solver.
    + intros k' [->|Hk']%elem_of_cons; [done|]. specialize (Hnew _ Hk').
      rewrite Hmet in Hnew. by apply orb_false_iff in Hnew as [_ ?].
    + intros k'. rewrite Hend, Hmet. apply eq_true_iff_eq.
      rewrite !orb_true_iff, !bool_decide_eq_true, elem_of_cons. tauto.
Qed.

(** When every required field has been met, the keys are exactly the fields. *)
Lemma strict_fold (l : list (string * Json)) (s : S) :
  NoDup fields -> fold_ok step init l = Ok s ->
  (forall k, k ∈ fields -> met s k = true) -> keys l ≡ₚ fields.
Proof.
  intros Hnd Hf Hall. apply strict_fold_from in Hf as (Hndl & Hsub & _ & Hend).
  apply NoDup_Permutation; [done..|]. intros k. split; [apply Hsub|].
  intros Hk. specialize (Hall _ Hk). rewrite Hend, strict_init, orb_false_r in Hall.
  by apply bool_decide_eq_true in Hall.
Qed.
End Strict.

Lemma set_once_Ok {A : Type} (slot value r : option A) :
  set_once slot value = Ok r -> slot = None /\ exists a, value = Some a /\ r = Some a.
Proof. destruct slot, value; simpl; naive_solver. Qed.

(** Case analysis on the field name an entry handler matches. *)
Ltac visit_cases H :=
  repeat match type of H with
  | context [String.eqb ?f ?k] => destruct (String.eqb_spec f k) as [->|]
  end.

Tactic Notation "strict_visitor" reference(step) reference(init) reference(met) reference(fields) :=
  split; [intros k; unfold met, init; simpl; repeat case_match; done|];
  intros s k v s' Hs; unfold step in Hs; simpl in Hs; visit_cases Hs; inv_ok;
  repeat match goal with
  | H : set_once _ _ = Ok _ |- _ => apply set_once_Ok in H as (? & ? & ? & ->)
  end;
  (split; [unfold fields; set_solver|]);
  (split; [unfold met; simpl;
           repeat match goal with
           | H : negb _ = true |- _ => apply negb_true_iff in H
           | H : ?x = None |- _ => rewrite H
           | H : ?x = false |- _ => rewrite H
           end; reflexivity|]);
  intros k'; unfold met; simpl;
  repeat match goal with
  | |- context [String.eqb k' ?lit] =>
      destruct (String.eqb_spec k' lit) as [->|]; [reflexivity|]
  end;
  by rewrite bool_decide_eq_false_2.

#[global] Instance summary_strict :
  StrictVisitor SummarySlots_entry SummarySlots_init SummarySlots_set SummarySlots_fields.
Proof. strict_visitor SummarySlots_entry SummarySlots_init SummarySlots_set SummarySlots_fields. Qed.

Section StrictInstances.
Context `{UuidLib}.

#[global] Instance update_strict :
  StrictVisitor UpdateSlots_entry UpdateSlots_init UpdateSlots_set UpdateSlots_fields.
Proof. strict_visitor UpdateSlots_entry UpdateSlots_init UpdateSlots_set UpdateSlots_fields. Qed.

#[global] Instance event_strict :
  StrictVisitor EventSlots_entry EventSlots_init EventSlots_set EventSlots_fields.
Proof. strict_visitor EventSlots_entry EventSlots_init EventSlots_set EventSlots_fields. Qed.

#[global] Instance envelope_strict :
  StrictVisitor EnvelopeSlots_entry EnvelopeSlots_init EnvelopeSlots_set EnvelopeSlots_fields.
Proof.
  strict_visitor EnvelopeSlots_entry EnvelopeSlots_init EnvelopeSlots_set EnvelopeSlots_fields.
Qed.
End StrictInstances.
