(* ===== verification/CodecTheorems.v ===== *)
(** Theorems of the activity wire codec (ContractCodec.v): the round trips, the
    size bound that makes [TooLarge] unreachable when encoding, and the
    strictness of the decoder. *)

From S2P Require Import Prelude Json Contract ContractCodec.

(** * Sizes *)

Lemma operation_name_size (op : ActivityOperation) :
  json_size (JStr (operation_wire_name op)) <= 36.
Proof. by destruct op. Qed.

Lemma state_name_size (s : ActivityState) : json_size (JStr (state_wire_name s)) <= 18.
Proof. by destruct s. Qed.

Lemma session_id_size (s : string) :
  session_id_valid s = true -> json_size (JStr s) <= 66.
Proof.
  unfold session_id_valid. intros Hv. rewrite !andb_true_iff, in_range_true in Hv.
  destruct Hv as [[[Hlen _] _] Hb]. simpl. etrans; [apply (json_str_size_le 1)|lia].
  rewrite forallb_forall in Hb |- *. intros b Hin%Hb.
  unfold session_id_byte, is_ascii_alphanumeric, is_ascii_digit in Hin.
  unfold escape_size. rust_norm. repeat case_match; rust_norm; lia.
Qed.

Lemma safe_summary_size (s : string) :
  str_utf8 s -> validate_safe_summary s = Ok tt -> json_size (JStr s) <= 1026.
Proof.
  intros Hu [Hlen Hc]%validate_safe_summary_Ok. simpl.
  etrans; [apply (json_str_size_le 2)|unfold MAX_ACTIVITY_SUMMARY_BYTES in Hlen; lia].
  apply forallb_forall. intros b Hin. rewrite <- list_elem_of_In in Hin.
  unfold escape_size. repeat case_match; rust_norm; try lia. exfalso.
  assert (Hb : 0 <= b).
  { unfold str_bytes in Hin. apply list_elem_of_fmap in Hin as (a & -> & _).
    pose proof (byte_of_range a). lia. }
  assert (Hd : forbidden_summary_char b = false)
    by (apply Hc; apply utf8_ascii_byte; [done|done|lia]).
  unfold forbidden_summary_char, is_control, in_range in Hd.
  rewrite !orb_false_iff, !andb_false_iff in Hd. rust_norm. lia.
Qed.

Lemma ser_option_size {A : Type} (ser : A -> Json) (o : option A) (n : Z) :
  4 <= n -> (forall a, o = Some a -> json_size (ser a) <= n) -> json_size (ser_option ser o) <= n.
Proof. destruct o; simpl; auto. Qed.

Section SizeProofs.
Context `{UuidLaws}.

Lemma event_json_size (e : ActivityEvent) :
  event_typed e -> validate_event e = Ok tt ->
  json_size (envelope_to_json e) <= MAX_ACTIVITY_EVENT_BYTES.
Proof.
  intros (Hs & Hq & Ht & Hd & Hu) (_ & _ & _ & Hid & Hsum)%validate_event_Ok.
  apply validate_session_identity_Ok in Hid as [_ Hid].
  pose proof (json_size_u64 _ Hs). pose proof (json_size_u64 _ Hq).
  pose proof (json_size_u64 _ Ht).
  pose proof (uuid_json_size (ev_operation_id e)).
  assert (json_size (ser_option JStr (ev_session_id e)) <= 66)
    by (apply ser_option_size; [lia|intros; by apply session_id_size, Hid]).
  assert (json_size (ser_option (fun u => JStr (uuid_to_string u)) (ev_session_instance e)) <= 38)
    by (apply ser_option_size; [lia|intros; apply uuid_json_size]).
  pose proof (operation_name_size (ev_operation e)).
  pose proof (state_name_size (ev_state e)).
  assert (json_size (ser_option JInt (ev_duration_ms e)) <= 20)
    by (apply ser_option_size; [lia|intros; by apply json_size_u64, Hd]).
  pose proof (safe_summary_size _ Hu Hsum).
  unfold envelope_to_json, event_to_json.
  cbn [json_size] in *. unfold sum_z, commas, MAX_ACTIVITY_EVENT_BYTES.
  cbn [map fst snd fold_right length json_size].
  repeat match goal with |- context [json_str_size (String ?c ?k)] =>
    let v := eval vm_compute in (json_str_size (String c k)) in
    change (json_str_size (String c k)) with v end.
  unfold sum_z, commas. cbn [fold_right length]. lia.
Qed.
End SizeProofs.

(** * Round trip, size and strictness *)

Lemma de_string_Some (j : Json) (s : string) : de_string j = Some s -> j = JStr s.
Proof. destruct j; naive_solver. Qed.

Section CodecProperties.
Context `{UuidLaws, SerdeJson}.

Lemma de_event_wire_Some (j : Json) (e : ActivityEvent) :
  de_event_wire j = Some e -> exists inner, j = JObj inner /\ event_visit_map inner = Ok e.
Proof.
  unfold de_event_wire, deserialize_map. destruct j; try done. intros He.
  eexists. split; [done|]. by destruct (event_visit_map _); simplify_eq/=.
Qed.

Lemma encode_json_Ok (j : Json) (b : string) :
  encode_json j = Ok b <-> to_vec j = Some b /\ str_len b <= MAX_ACTIVITY_EVENT_BYTES.
Proof.
  unfold encode_json. destruct (to_vec j) as [b'|]; simpl; [|naive_solver].
  case_match; rust_norm; naive_solver lia.
Qed.

Lemma decode_json_eq {A : Type} (visit : list (string * Json) -> result string A) (j : Json)
    (b : string) :
  str_len b <= MAX_ACTIVITY_EVENT_BYTES -> from_slice b = Some j ->
  decode_json visit b = map_err (fun _ => CE_InvalidJson) (deserialize_map visit j).
Proof.
  intros Hl Hr. unfold decode_json. rewrite Hr.
  by rewrite (proj2 (Z.ltb_ge _ _)) by done.
Qed.

(** C35: encoding then decoding an event gives the event back: whenever
    [encode_event] returns bytes and serde_json reads the document it wrote,
    [decode_event] returns the same event, whatever its fields. *)
Theorem decode_encode_event (e : ActivityEvent) (b : string)
    (Hread : forall b, to_vec (envelope_to_json e) = Some b ->
                       from_slice b = Some (envelope_to_json e)) :
  event_typed e -> encode_event e = Ok b -> decode_event b = Ok e.
Proof.
  intros He Henc. apply bind_Ok in Henc as ([] & Hval & [Hv Hl]%encode_json_Ok).
  unfold decode_event. rewrite (decode_json_eq _ (envelope_to_json e)) by auto.
  rewrite envelope_visit_to_json by done. simpl. by rewrite Hval.
Qed.

(** The same round trip for updates. *)
Theorem decode_encode_update (u : ActivityUpdate) (b : string)
    (Hread : forall b, to_vec (update_to_json u) = Some b ->
                       from_slice b = Some (update_to_json u)) :
  update_typed u -> encode_update u = Ok b -> decode_update b = Ok u.
Proof.
  intros Hu Henc. apply bind_Ok in Henc as ([] & Hval & [Hv Hl]%encode_json_Ok).
  unfold decode_update. rewrite (decode_json_eq _ (update_to_json u)) by auto.
  rewrite update_visit_to_json by done. simpl. by rewrite Hval.
Qed.

Lemma envelope_size_pos `{!ToVecLaws} (e : ActivityEvent) : 0 < json_size (envelope_to_json e).
Proof.
  pose proof (json_size_nonneg (event_to_json e)).
  unfold envelope_to_json. cbn [map fst snd json_size]. unfold sum_z, commas.
  cbn [fold_right length]. change (json_str_size "type") with 6.
  change (json_str_size "activity") with 10. change (json_str_size "event") with 7. lia.
Qed.

Lemma encode_event_valid `{!ToVecLaws} (e : ActivityEvent) :
  event_typed e -> validate_event e = Ok tt ->
  exists b, encode_event e = Ok b /\ str_len b = json_size (envelope_to_json e).
Proof.
  intros He Hv. destruct (to_vec_compact (envelope_to_json e)) as (b & Hb & Hlen).
  exists b. split; [|done]. unfold encode_event. rewrite Hv. simpl.
  apply encode_json_Ok. rewrite Hlen. by split; [|apply event_json_size].
Qed.

(** An event that passes validation always fits the wire limit:
    [encode_event] fails exactly when validation fails, with validation's
    error; [TooLarge] and [InvalidJson] are unreachable, because the
    validated session id (64 bytes) and summary (512 bytes, no control
    characters, so at most doubled by JSON escapes) bound the document by
    [MAX_ACTIVITY_EVENT_BYTES]. *)
Theorem encode_event_never_too_large `{!ToVecLaws} (e : ActivityEvent) :
  event_typed e ->
  (exists b, encode_event e = Ok b /\ validate_event e = Ok tt
             /\ 0 < str_len b <= MAX_ACTIVITY_EVENT_BYTES)
  \/ exists err, encode_event e = Err err /\ validate_event e = Err err.
Proof.
  intros He. destruct (validate_event e) as [[]|err] eqn:Hv.
  - left. destruct (encode_event_valid e He Hv) as (b & Hb & Hlen). exists b.
    split_and!; [done|done| |].
    + rewrite Hlen. apply envelope_size_pos.
    + rewrite Hlen. by apply event_json_size.
  - right. exists err. unfold encode_event. by rewrite Hv.
Qed.

Lemma event_slots_met (s : EventSlots) (e : ActivityEvent) :
  event_of_slots s = Ok e -> forall k, k ∈ EventSlots_fields -> EventSlots_set s k = true.
Proof.
  unfold event_of_slots. intros Hs k Hk. inv_ok. rust_norm. destruct_and?.
  unfold EventSlots_fields in Hk. unfold EventSlots_set.
  repeat (apply elem_of_cons in Hk as [->|Hk];
    [simpl; repeat match goal with H : ?x = _ |- _ => rewrite H end; reflexivity|]).
  by apply elem_of_nil in Hk.
Qed.

Lemma event_visit_keys (l : list (string * Json)) (e : ActivityEvent) :
  event_visit_map l = Ok e -> keys l ≡ₚ EventSlots_fields.
Proof.
  unfold event_visit_map. intros Hv. inv_ok.
  eapply (strict_fold (fields := EventSlots_fields)); [|done|by eapply event_slots_met].
  by apply (bool_decide_unpack _).
Qed.

Lemma envelope_visit_keys (l : list (string * Json)) (e : ActivityEvent) :
  envelope_visit_map l = Ok e -> keys l ≡ₚ EnvelopeSlots_fields.
Proof.
  unfold envelope_visit_map. intros Hv. apply bind_Ok in Hv as (s & Hf & Hs).
  eapply (strict_fold (fields := EnvelopeSlots_fields)); [|done|].
  - by apply (bool_decide_unpack _).
  - unfold envelope_of_slots in Hs. apply bind_Ok in Hs as (u & Ht%ensure_Ok & He%ok_or_Ok).
    apply bool_decide_eq_true in Ht. unfold EnvelopeSlots_fields, EnvelopeSlots_set.
    intros k Hk. repeat (apply elem_of_cons in Hk as [->|Hk]; [simpl; by rewrite ?Ht, ?He|]).
    by apply elem_of_nil in Hk.
Qed.

(** An envelope is its two entries, in either order. *)
Lemma envelope_entries (l : list (string * Json)) (e : ActivityEvent) :
  envelope_visit_map l = Ok e ->
  exists inner, l ≡ₚ [("type", JStr "activity"); ("event", JObj inner)]
                /\ event_visit_map inner = Ok e.
Proof.
  intros Hv. pose proof (envelope_visit_keys _ _ Hv) as Hk.
  destruct l as [|[k1 a] [|[k2 b] [|]]];
    try (apply Permutation_length in Hk; simpl in Hk; discriminate Hk).
  unfold EnvelopeSlots_fields, keys in Hk. simpl in Hk.
  assert (Hkk : (k1 = "type" /\ k2 = "event") \/ (k1 = "event" /\ k2 = "type")).
  { apply Permutation_length_2_inv in Hk. naive_solver. }
  unfold envelope_visit_map, EnvelopeSlots_init in Hv. cbn [fold_ok] in Hv.
  unfold EnvelopeSlots_entry, set_once in Hv.
  destruct Hkk as [[-> ->]|[-> ->]]; cbn -[de_event_wire] in Hv;
    unfold ok_or, envelope_of_slots in Hv;
    repeat (case_match; cbn -[de_event_wire] in Hv; try discriminate Hv);
    simplify_eq; inv_ok;
    match goal with
    | Ht : de_string ?x = Some ?t, He : de_event_wire ?y = Some e,
      Hd : bool_decide (Some ?t = _) = true |- _ =>
        apply bool_decide_eq_true in Hd as [= ->];
        apply de_event_wire_Some in He as (inner & -> & Hi);
        apply de_string_Some in Ht as ->
    end; exists inner; (split; [|done]); [done|apply Permutation_swap].
Qed.

(** The decoder is strict: what [decode_event] accepts is an object with
    exactly the fields [type], whose value is ["activity"], and [event], and
    the event is an object with exactly the ten fields of an event, each
    once, in any order; nothing unknown, missing or repeated. *)
Theorem decode_event_strict (b : string) (e : ActivityEvent) :
  decode_event b = Ok e ->
  exists outer inner,
    from_slice b = Some (JObj outer)
    /\ outer ≡ₚ [("type", JStr "activity"); ("event", JObj inner)]
    /\ keys inner ≡ₚ EventSlots_fields /\ NoDup (keys inner)
    /\ validate_event e = Ok tt /\ str_len b <= MAX_ACTIVITY_EVENT_BYTES.
Proof.
  unfold decode_event, decode_json. intros Hd. apply bind_Ok in Hd as (e' & Hd & Hv).
  apply bind_Ok in Hv as ([] & Hv & [= ->]). case_match eqn:El; [done|].
  apply Z.ltb_ge in El. apply bind_Ok in Hd as (j & Hj%ok_or_Ok & Hm%map_err_Ok).
  destruct j as [| | | | | |outer]; try done. simpl in Hm.
  apply envelope_entries in Hm as (inner & Hp & Hi).
  pose proof (event_visit_keys _ _ Hi) as Hk.
  exists outer, inner. split_and!; try done.
  rewrite Hk. by apply (bool_decide_unpack _).
Qed.
End CodecProperties.

(** * Witnesses *)

Module CodecWitness.
Import JsonModel.

Definition event0 : ActivityEvent :=
  mkEvent 1 7 uuid0 1700000000000 (Some "work-1") (Some uuid1) GitPush Failed (Some 42)
    "error=child_failed".
Definition update0 : ActivityUpdate :=
  mkUpdate 1 uuid1 GitPush Failed (Some 42) (Summary_Failure EK_ChildFailed).

#[local] Instance codec0 : SerdeJson :=
  codec [envelope_to_json event0; update_to_json update0].

Lemma event0_typed : event_typed event0.
Proof.
  unfold event_typed, u64, U64_MAX, str_utf8. simpl.
  split_and!; try lia; try (intros d [= <-]; lia); reflexivity.
Qed.

Lemma update0_typed : update_typed update0.
Proof.
  unfold update_typed, u64, U64_MAX. simpl. split_and!; try lia; intros d [= <-]; lia.
Qed.

Lemma decode_encode_event_witness : exists b, decode_event b = Ok event0.
Proof.
  eexists. eapply (decode_encode_event event0).
  - intros b [= <-]. vm_compute. reflexivity.
  - apply event0_typed.
  - vm_compute. reflexivity.
Defined.

Lemma decode_encode_update_witness : exists b, decode_update b = Ok update0.
Proof.
  eexists. eapply (decode_encode_update update0).
  - intros b [= <-]. vm_compute. reflexivity.
  - apply update0_typed.
  - vm_compute. reflexivity.
Defined.

Lemma encode_event_never_too_large_witness :
  (exists b, encode_event event0 = Ok b /\ validate_event event0 = Ok tt
             /\ 0 < str_len b <= MAX_ACTIVITY_EVENT_BYTES)
  \/ exists err, encode_event event0 = Err err /\ validate_event event0 = Err err.
Proof. apply (encode_event_never_too_large event0), event0_typed. Defined.

Lemma decode_event_strict_witness :
  exists outer inner,
    from_slice (str_of (print (envelope_to_json event0))) = Some (JObj outer)
    /\ outer ≡ₚ [("type", JStr "activity"); ("event", JObj inner)]
    /\ keys inner ≡ₚ EventSlots_fields /\ NoDup (keys inner)
    /\ validate_event event0 = Ok tt
    /\ str_len (str_of (print (envelope_to_json event0))) <= MAX_ACTIVITY_EVENT_BYTES.
Proof. apply (decode_event_strict _ event0). vm_compute. reflexivity. Defined.
End CodecWitness.
