(* ===== verification/History.v ===== *)
(** Bounded retention of activity events: src/src/activity/history.rs. *)

From S2P Require Import Prelude Json Contract ContractCodec CodecTheorems.

Definition MAX_ACTIVITY_HISTORY_EVENTS : Z := 4096.
Definition MAX_ACTIVITY_HISTORY_BYTES : Z := 8 * 1024 * 1024.
Definition MAX_ACTIVITY_TAIL : Z := 1024.

Inductive HistoryError : Type :=
| HE_InvalidCapacity
| HE_InvalidTail
| HE_InvalidEvent
| HE_InvalidSerializedSize
| HE_SerializedSizeMismatch
| HE_EventTooLarge
| HE_InvariantViolation.

#[global] Instance history_error_eq_dec : EqDecision HistoryError.
Proof. solve_decision. Defined.

Section History.
Context `{UuidLib, SerdeJson}.

Record HistoryEntry : Type := mkEntry {
  he_event : ActivityEvent;
  he_serialized_size : Z;
}.

(** The deque is a list, oldest first. *)
Record ActivityHistory : Type := mkHistory {
  h_max_events : Z;
  h_max_bytes : Z;
  h_events : list HistoryEntry;
  h_serialized_bytes : Z;
  h_history_truncated : bool;
}.

Definition history_new : ActivityHistory :=
  mkHistory MAX_ACTIVITY_HISTORY_EVENTS MAX_ACTIVITY_HISTORY_BYTES [] 0 false.

Definition history_with_limits (max_events max_bytes : Z) : result HistoryError ActivityHistory :=
  if negb (in_range 1 MAX_ACTIVITY_HISTORY_EVENTS max_events)
     || negb (in_range 1 MAX_ACTIVITY_HISTORY_BYTES max_bytes)
  then Err HE_InvalidCapacity
  else Ok (mkHistory max_events max_bytes [] 0 false).

Definition history_is_empty (h : ActivityHistory) : bool := zlen (h_events h) =? 0.

(** The eviction loop of [push]: [rest] is [self.events] from index
    [eviction_count] on, so [rest = []] is [events.get(eviction_count) = None]. *)
Fixpoint evict (h : ActivityHistory) (serialized_size : Z) (rest : list HistoryEntry)
    (eviction_count remaining_bytes : Z) : result HistoryError (Z * Z) :=
  let! remaining_count := ok_or (checked_sub (zlen (h_events h)) eviction_count)
                            HE_InvariantViolation in
  let fits_bytes := is_some_and (fun total => total <=? h_max_bytes h)
                      (checked_add remaining_bytes serialized_size) in
  if (remaining_count <? h_max_events h) && fits_bytes
  then Ok (eviction_count, remaining_bytes)
  else
    match rest with
    | [] => Err HE_InvariantViolation
    | oldest :: rest =>
        let! remaining_bytes := ok_or (checked_sub remaining_bytes (he_serialized_size oldest))
                                  HE_InvariantViolation in
        evict h serialized_size rest (eviction_count + 1) remaining_bytes
    end.

Definition map_encode_error (error : ContractError) : HistoryError :=
  match error with
  | CE_TooLarge => HE_EventTooLarge
  | _ => HE_InvalidEvent
  end.

Definition history_push (h : ActivityHistory) (event : ActivityEvent) (serialized_size : Z)
    : result HistoryError ActivityHistory :=
  ensure (is_ok (validate_event event)) HE_InvalidEvent ;!
  ensure (negb (serialized_size =? 0)) HE_InvalidSerializedSize ;!
  ensure (serialized_size <=? MAX_ACTIVITY_EVENT_BYTES) HE_EventTooLarge ;!
  let! encoded := map_err map_encode_error (encode_event event) in
  let actual_size := str_len encoded in
  ensure (actual_size =? serialized_size) HE_SerializedSizeMismatch ;!
  ensure (serialized_size <=? h_max_bytes h) HE_EventTooLarge ;!
  let! (eviction_count, remaining_bytes) :=
    evict h serialized_size (h_events h) 0 (h_serialized_bytes h) in
  let! final_bytes := ok_or (checked_add remaining_bytes serialized_size) HE_InvariantViolation in
  Ok (mkHistory (h_max_events h) (h_max_bytes h)
        (zdrop eviction_count (h_events h) ++ [mkEntry event serialized_size])
        final_bytes
        (h_history_truncated h || (0 <? eviction_count))).

Definition matches_session (session_id : option string) (event : ActivityEvent) : bool :=
  match session_id with
  | None => true
  | Some session_id => bool_decide (ev_session_id event = Some session_id)
  end.

Definition history_tail (h : ActivityHistory) (session_id : option string) (limit : Z)
    : result HistoryError (list ActivityEvent) :=
  if MAX_ACTIVITY_TAIL <? limit then Err HE_InvalidTail
  else if limit =? 0 then Ok []
  else
    let matching := List.filter (fun entry => matches_session session_id (he_event entry))
                      (h_events h) in
    let matching := sort_by_key (fun entry => ev_sequence (he_event entry)) matching in
    let skip := saturating_sub (zlen matching) limit in
    Ok (map he_event (zdrop skip matching)).

(** * Invariant *)

Definition total_size (l : list HistoryEntry) : Z := sum_z (map he_serialized_size l).

(** An entry's size is that of its encoding. *)
Definition entry_ok (entry : HistoryEntry) : Prop :=
  exists b, encode_event (he_event entry) = Ok b /\ str_len b = he_serialized_size entry
            /\ 0 < he_serialized_size entry <= MAX_ACTIVITY_EVENT_BYTES.

Record history_inv (h : ActivityHistory) : Prop := {
  inv_max_events : 1 <= h_max_events h <= MAX_ACTIVITY_HISTORY_EVENTS;
  inv_max_bytes : 1 <= h_max_bytes h <= MAX_ACTIVITY_HISTORY_BYTES;
  inv_count : zlen (h_events h) <= h_max_events h;
  inv_bytes : h_serialized_bytes h = total_size (h_events h);
  inv_bytes_bound : h_serialized_bytes h <= h_max_bytes h;
  inv_entries : Forall entry_ok (h_events h);
}.

Lemma history_new_inv : history_inv history_new.
Proof.
  split; simpl; unfold MAX_ACTIVITY_HISTORY_EVENTS, MAX_ACTIVITY_HISTORY_BYTES, total_size, zlen;
    simpl; try lia. constructor.
Qed.

Lemma history_with_limits_inv (max_events max_bytes : Z) (h : ActivityHistory) :
  history_with_limits max_events max_bytes = Ok h -> history_inv h /\ h_events h = [].
Proof.
  unfold history_with_limits. case_match eqn:E; [done|]. intros [= <-].
  apply orb_false_iff in E as [E1 E2]. rewrite negb_false_iff, in_range_true in E1, E2.
  split; [|done]. split; simpl; unfold total_size, zlen; simpl; try lia. constructor.
Qed.

Lemma total_size_app (a b : list HistoryEntry) :
  total_size (a ++ b) = total_size a + total_size b.
Proof. unfold total_size. by rewrite map_app, sum_z_app. Qed.

Lemma total_size_nonneg (l : list HistoryEntry) : Forall entry_ok l -> 0 <= total_size l.
Proof.
  intros Hl. apply sum_z_nonneg, Forall_map. eapply Forall_impl; [done|].
  intros x (b & _ & _ & ?). simpl. lia.
Qed.

(** * Eviction *)

(** What the history keeps of its entries when [size] bytes come in: the
    longest suffix that leaves room. *)
Definition fits (h : ActivityHistory) (size : Z) (kept : list HistoryEntry) : Prop :=
  zlen kept < h_max_events h /\ total_size kept + size <= h_max_bytes h.

#[global] Instance fits_dec (h : ActivityHistory) (size : Z) (kept : list HistoryEntry) :
  Decision (fits h size kept).
Proof. unfold fits. apply _. Defined.

Lemma evict_eq (h : ActivityHistory) (size : Z) (gone rest : list HistoryEntry) :
  history_inv h -> 0 < size <= h_max_bytes h -> h_events h = gone ++ rest ->
  evict h size rest (zlen gone) (total_size rest) =
  if bool_decide (fits h size rest) then Ok (zlen gone, total_size rest)
  else match rest with
       | [] => Err HE_InvariantViolation
       | oldest :: rest' =>
           evict h size rest' (zlen (gone ++ [oldest])) (total_size rest')
       end.
Proof.
  intros [He1 Hb1 Hc Hb Hbb Hent] Hsize Hev.
  rewrite Hev in Hent. apply Forall_app in Hent as [Hg Hrest].
  apply total_size_nonneg in Hg. pose proof (total_size_nonneg _ Hrest) as Hnn.
  rewrite Hb, Hev, total_size_app in Hbb.
  assert (Hsub : checked_sub (zlen (h_events h)) (zlen gone) = Some (zlen rest)).
  { apply checked_sub_Some. rewrite Hev, zlen_app. pose proof (zlen_nonneg rest). lia. }
  assert (Hadd : checked_add (total_size rest) size = Some (total_size rest + size)).
  { apply checked_add_Some. split; [done|].
    unfold MAX_ACTIVITY_HISTORY_BYTES, U64_MAX in *. lia. }
  assert (Hcond : (zlen rest <? h_max_events h) && (total_size rest + size <=? h_max_bytes h)
                  = bool_decide (fits h size rest)).
  { apply eq_true_iff_eq. rewrite bool_decide_eq_true, andb_true_iff, Z.ltb_lt, Z.leb_le. done. }
  destruct rest as [|oldest rest]; cbn [evict]; rewrite Hsub; cbn [ok_or bind];
    rewrite Hadd; cbn [is_some_and]; rewrite Hcond;
    (case_bool_decide as Hd; [done|]); [done|].
  assert (Hsub2 : checked_sub (total_size (oldest :: rest)) (he_serialized_size oldest)
                  = Some (total_size rest)).
  { apply checked_sub_Some. inversion Hrest as [|? ? _ Hr]; subst.
    apply total_size_nonneg in Hr. unfold total_size, sum_z in *. simpl. lia. }
  rewrite Hsub2. cbn [ok_or bind]. by rewrite zlen_app, zlen_cons, Z.add_0_r.
Qed.

Lemma evict_spec (h : ActivityHistory) (size : Z) (gone rest : list HistoryEntry) :
  history_inv h -> 0 < size <= h_max_bytes h -> h_events h = gone ++ rest ->
  exists dropped kept,
    rest = dropped ++ kept
    /\ evict h size rest (zlen gone) (total_size rest)
       = Ok (zlen (gone ++ dropped), total_size kept)
    /\ fits h size kept
    /\ forall pre last, dropped = pre ++ [last] -> ~ fits h size (last :: kept).
Proof.
  intros Hinv Hsize. revert gone. induction rest as [|oldest rest IH]; intros gone Hev;
    rewrite (evict_eq h size gone) by done; case_bool_decide as Hfit.
  - exists [], []. rewrite (app_nil_r gone). split_and!; try done. by intros [|??] ? ?.
  - destruct Hfit. destruct Hinv. split; unfold total_size, zlen; simpl; lia.
  - exists [], (oldest :: rest). rewrite (app_nil_r gone). split_and!; try done. by intros [|??] ? ?.
  - destruct (IH (gone ++ [oldest])) as (dropped & kept & -> & Hr & Hk & Hmin);
      [by rewrite Hev, <- app_assoc|].
    exists (oldest :: dropped), kept. rewrite Hr, <- app_assoc. split_and!; try done.
    intros pre last Hl. destruct dropped as [|d dropped].
    + destruct pre as [|? [|]]; simplify_eq/=; done.
    + destruct pre as [|? pre]; simplify_eq/=; naive_solver.
Qed.

Lemma evict_all (h : ActivityHistory) (size : Z) :
  history_inv h -> 0 < size <= h_max_bytes h ->
  exists dropped kept,
    h_events h = dropped ++ kept
    /\ evict h size (h_events h) 0 (h_serialized_bytes h) = Ok (zlen dropped, total_size kept)
    /\ fits h size kept
    /\ forall pre last, dropped = pre ++ [last] -> ~ fits h size (last :: kept).
Proof.
  intros Hinv Hsize. rewrite (inv_bytes _ Hinv).
  destruct (evict_spec h size [] (h_events h)) as (dropped & kept & ?); [done..|].
  by exists dropped, kept.
Qed.

(** What an event must pass before [push] touches the history. *)
Definition push_admits (h : ActivityHistory) (event : ActivityEvent) (size : Z) : Prop :=
  size <= h_max_bytes h /\ entry_ok (mkEntry event size).

Lemma history_push_eq (h : ActivityHistory) (event : ActivityEvent) (size : Z) :
  history_inv h -> push_admits h event size ->
  exists dropped kept,
    h_events h = dropped ++ kept
    /\ history_push h event size =
       Ok (mkHistory (h_max_events h) (h_max_bytes h) (kept ++ [mkEntry event size])
             (total_size kept + size)
             (h_history_truncated h || bool_decide (dropped <> [])))
    /\ fits h size kept
    /\ forall pre last, dropped = pre ++ [last] -> ~ fits h size (last :: kept).
Proof.
  intros Hinv (Hmax & b & Henc & Hlen & Hs). simpl in *.
  destruct (evict_all h size Hinv) as (dropped & kept & Hev & He & Hfit & Hmin); [lia|].
  exists dropped, kept. split_and!; try done.
  unfold history_push. pose proof Henc as Henc'. unfold encode_event in Henc'.
  apply bind_Ok in Henc' as ([] & Hv & _). rewrite Hv, Henc, He. cbn [is_ok ensure bind map_err]. rewrite Hlen.
  rewrite (proj2 (Z.eqb_neq size 0)), (proj2 (Z.leb_le size MAX_ACTIVITY_EVENT_BYTES)),
    Z.eqb_refl, (proj2 (Z.leb_le size (h_max_bytes h))) by lia. simpl.
  destruct Hfit as [_ Hfit]. destruct Hinv.
  rewrite (proj2 (checked_add_Some (total_size kept) size (total_size kept + size)))
    by (unfold MAX_ACTIVITY_HISTORY_BYTES, U64_MAX in *; lia).
  simpl. repeat f_equal.
  - rewrite Hev. unfold zdrop, zlen. rewrite Nat2Z.id. by rewrite drop_app_length.
  - apply eq_true_iff_eq. rewrite bool_decide_eq_true, Z.ltb_lt. unfold zlen.
    destruct dropped; simpl; [naive_solver lia|split; [done|lia]].
Qed.

Lemma history_push_admits (h h' : ActivityHistory) (event : ActivityEvent) (size : Z) :
  0 <= size -> history_push h event size = Ok h' -> push_admits h event size.
Proof.
  intros Hs0 Hp. unfold history_push in Hp.
  repeat match type of Hp with
  | bind _ _ = Ok _ => let E := fresh "E" in apply bind_Ok in Hp as (? & E & Hp)
  end.
  rewrite ?ensure_Ok, ?map_err_Ok in *. rust_norm.
  split; [done|]. exists x2. split_and!; try done; simpl; lia.
Qed.

Lemma history_push_inv (h h' : ActivityHistory) (event : ActivityEvent) (size : Z) :
  history_inv h -> 0 <= size -> history_push h event size = Ok h' -> history_inv h'.
Proof.
  intros Hinv Hs0 Hh'. pose proof (history_push_admits h h' event size Hs0 Hh') as Ha.
  destruct (history_push_eq h event size Hinv Ha) as (dropped & kept & Hev & He & Hfit & _).
  rewrite He in Hh'. injection Hh' as <-.
  destruct Hinv, Hfit as [Hf1 Hf2]. split; simpl; try done.
  - rewrite zlen_app. unfold zlen at 2. simpl. lia.
  - rewrite total_size_app. unfold total_size at 3, sum_z. simpl. lia.
  - rewrite Forall_app. split; [|apply Forall_singleton, Ha].
    rewrite Hev in inv_entries0. by apply Forall_app in inv_entries0 as [_ ?].
Qed.

(** * Properties *)

Ltac input_error := exfalso; simplify_eq/=; tauto.

(** [push] on a well-formed history never reports a broken invariant: it
    refuses an event with one of the four input errors, or it succeeds, keeps
    every bound (event count, byte total, exact byte accounting, each size the
    length of the encoding) and retains the longest suffix of the old entries
    that leaves room for the new one, which is appended last; the truncation
    flag records that something was evicted. *)
Theorem history_push_spec (h : ActivityHistory) (event : ActivityEvent) (size : Z) :
  history_inv h -> 0 <= size ->
  (exists h' dropped kept,
     history_push h event size = Ok h' /\ history_inv h'
     /\ h_events h = dropped ++ kept /\ h_events h' = kept ++ [mkEntry event size]
     /\ (forall pre last, dropped = pre ++ [last] -> ~ fits h size (last :: kept))
     /\ h_history_truncated h' = h_history_truncated h || bool_decide (dropped <> []))
  \/ exists e, history_push h event size = Err e
     /\ e ∈ [HE_InvalidEvent; HE_InvalidSerializedSize; HE_EventTooLarge;
             HE_SerializedSizeMismatch].
Proof.
  intros Hinv Hs0. destruct (decide (is_ok (history_push h event size) = true)) as [Hok|Hko].
  - left. apply is_ok_true in Hok as [h' Hh'].
    pose proof (history_push_admits h h' event size Hs0 Hh') as Ha.
    destruct (history_push_eq h event size Hinv Ha) as (dropped & kept & Hev & He & Hfit & Hmin).
    pose proof (history_push_inv h h' event size Hinv Hs0 Hh') as Hinv'.
    rewrite He in Hh'. injection Hh' as Hh'. exists h', dropped, kept.
    rewrite He, Hh'. split_and!; try done; by rewrite <- Hh'.
  - right. destruct (history_push h event size) as [|e] eqn:He; [done|]. exists e.
    split; [done|]. apply dec_stable. intros Hne. apply Hko.
    assert (Ha : push_admits h event size).
    { rewrite list_elem_of_In in Hne. simpl in Hne.
      unfold history_push in He. unfold push_admits, entry_ok. simpl.
      destruct (validate_event event) as [[]|] eqn:Hv; simpl in He; [|input_error].
      destruct (Z.eqb_spec size 0); simpl in He; [input_error|].
      destruct (Z.leb_spec size MAX_ACTIVITY_EVENT_BYTES); simpl in He; [|input_error].
      destruct (encode_event event) as [b|[]]; simpl in He; try input_error.
      destruct (Z.eqb_spec (str_len b) size); simpl in He; [|input_error].
      destruct (Z.leb_spec size (h_max_bytes h)); simpl in He; [|input_error].
      split; [lia|]. exists b. split_and!; [done|done|lia|lia]. }
    destruct (history_push_eq h event size Hinv Ha) as (? & ? & _ & Hp & _).
    congruence.
Qed.

Lemma filter_map_entries (session_id : option string) (l : list HistoryEntry) :
  map he_event (List.filter (fun entry => matches_session session_id (he_event entry)) l)
  = List.filter (matches_session session_id) (map he_event l).
Proof. induction l as [|x l IH]; simpl; [done|]. case_match; simpl; by rewrite IH. Qed.

Lemma sorted_app {A : Type} (R : A -> A -> Prop) (a b : list A) :
  StronglySorted R (a ++ b) -> StronglySorted R b /\ forall x y, x ∈ a -> y ∈ b -> R x y.
Proof.
  induction a as [|x a IH]; simpl; [by split; [|intros ? ? ?%elem_of_nil]|].
  inversion 1 as [|? ? Hs Ha]; subst. destruct (IH Hs) as [Hb Hab]. split; [done|].
  intros u v [->|Hu]%elem_of_cons Hv; [|by apply Hab]. rewrite Forall_forall in Ha. apply Ha.
  by apply elem_of_app; right.
Qed.

(** The tail of any history, in whatever order its events were pushed: the matching
    events split into the older ones and the tail, which has [limit] of them, or all
    if there are fewer; the tail is in sequence order and nothing older has a higher
    sequence; of a history in sequence order it is a suffix.  A limit above
    [MAX_ACTIVITY_TAIL] is refused, and nothing else is. *)
Theorem history_tail_spec (h : ActivityHistory) (session_id : option string) (limit : Z) :
  0 <= limit ->
  let matching := List.filter (matches_session session_id) (map he_event (h_events h)) in
  (1024 < limit /\ history_tail h session_id limit = Err HE_InvalidTail)
  \/ exists older newest,
       limit <= 1024
       /\ history_tail h session_id limit = Ok newest
       /\ older ++ newest ≡ₚ matching
       /\ zlen newest = Z.min limit (zlen matching)
       /\ StronglySorted (fun a b => ev_sequence a <= ev_sequence b) newest
       /\ (forall a b, a ∈ older -> b ∈ newest -> ev_sequence a <= ev_sequence b)
       /\ (key_sorted (fun entry => ev_sequence (he_event entry)) (h_events h) ->
           older ++ newest = matching /\ key_sorted ev_sequence newest).
Proof.
  intros Hl matching. unfold history_tail. case_match eqn:E; rust_norm; [by left|right].
  set (m := List.filter _ (h_events h)) in *.
  assert (Hm : matching = map he_event m) by (symmetry; apply filter_map_entries).
  set (key := fun entry : HistoryEntry => ev_sequence (he_event entry)) in *.
  set (s := map he_event (sort_by_key key m)).
  assert (Hperm : s ≡ₚ matching) by (rewrite Hm; apply Permutation_map, sort_by_key_perm).
  assert (Hsorted : StronglySorted (fun a b => ev_sequence a <= ev_sequence b) s).
  { pose proof (sort_by_key_sorted key m) as Hs. subst s. clear -Hs.
    induction Hs as [|x l _ IH Hx]; simpl; constructor; [done|]. by apply Forall_map. }
  assert (Hid : key_sorted key (h_events h) -> s = matching /\ key_sorted ev_sequence s).
  { intros Hk. assert (Hks : key_sorted key m) by by apply key_sorted_filter.
    subst s. rewrite Hm, sort_by_key_id by done. split; [done|]. clear -Hks. unfold key_sorted in *.
    induction Hks; simpl; constructor; [done|]. by apply Forall_map. }
  assert (Hlen : zlen (sort_by_key key m) = zlen matching).
  { rewrite Hm. unfold zlen. by rewrite length_map, sort_by_key_perm. }
  assert (Hpos := zlen_nonneg matching).
  destruct (Z.eqb_spec limit 0) as [->|Hne].
  { exists s, []. rewrite app_nil_r. split_and!; try done; [unfold zlen; simpl; lia|constructor| |].
    - by intros a b _ ?%elem_of_nil.
    - intros Hk. destruct (Hid Hk) as [-> _]. split; [done|constructor]. }
  set (k := Z.to_nat (saturating_sub (zlen (sort_by_key key m)) limit)).
  exists (map he_event (take k (sort_by_key key m))), (map he_event (drop k (sort_by_key key m))).
  rewrite <- map_app, take_drop. fold s.
  assert (Hs := Hsorted). subst s. rewrite <- (take_drop k (sort_by_key key m)), map_app in Hs.
  apply sorted_app in Hs as [Hs1 Hs2]. split_and!; try done.
  2: { intros [He Hks]%Hid. split; [done|].
       rewrite <- (take_drop k (sort_by_key key m)), map_app in Hks. by apply key_sorted_app in Hks as (_ & ? & _). }
  unfold zlen at 1. rewrite length_map, length_drop. subst k. unfold saturating_sub.
  unfold zlen in *. lia.
Qed.

End History.

(** * Witnesses *)

Module HistoryWitness.
Import JsonModel CodecWitness.

#[local] Instance codec1 : SerdeJson := codec [].

Definition size0 : Z := 317.

(** A history that holds one event: pushing evicts it. *)
Definition full : ActivityHistory := mkHistory 1 1000 [mkEntry event0 size0] size0 false.

Lemma full_inv : history_inv full.
Proof.
  split; cbn [full h_max_events h_max_bytes h_events h_serialized_bytes];
    unfold MAX_ACTIVITY_HISTORY_EVENTS, MAX_ACTIVITY_HISTORY_BYTES, size0; [lia|lia|done|done|lia|].
  apply Forall_singleton. eexists. split_and!; [vm_compute; reflexivity|done|done|done].
Qed.

Lemma full_push :
  match history_push full event0 size0 with
  | Ok h' => h_history_truncated h'
  | Err _ => false
  end = true.
Proof. vm_compute. reflexivity. Qed.

Lemma history_push_spec_witness :
  exists h', history_push full event0 size0 = Ok h' /\ history_inv h'
             /\ h_history_truncated h' = true.
Proof.
  pose proof full_push as Hfull.
  destruct (history_push_spec full event0 size0) as [H|H]; [apply full_inv|done| |].
  - destruct H as (h' & dropped & kept & Hp & Hi & _). exists h'. rewrite Hp in Hfull. by split.
  - destruct H as (e & He & _). rewrite He in Hfull. discriminate Hfull.
Defined.

(** A history whose events are not in sequence order: the tail is all the same. *)
Definition event1 : ActivityEvent := 
  mkEvent 1 8 uuid0 1700000000000 (Some "work-1") (Some uuid1) GitPush Failed (Some 42)
    "error=child_failed".
Definition unordered : ActivityHistory :=
  mkHistory 2 1000 [mkEntry event1 size0; mkEntry event0 size0] (2 * size0) false.

Lemma unordered_tail : history_tail unordered (Some "work-1") 1 = Ok [event1].
Proof. vm_compute. reflexivity. Qed.

Lemma history_tail_spec_witness :
  exists older, older ++ [event1] ≡ₚ [event1; event0]
    /\ forall a, a ∈ older -> ev_sequence a <= ev_sequence event1.
Proof.
  destruct (history_tail_spec unordered (Some "work-1") 1) as [[H _]|H]; [lia|discriminate H|].
  destruct H as (older & newest & _ & Ht & Hp & _ & _ & Ho & _). rewrite unordered_tail in Ht.
  injection Ht as <-. exists older. split; [exact Hp|]. intros a Ha. apply (Ho a event1 Ha). left.
Defined.
End HistoryWitness.
