(* ===== verification/Broker.v ===== *)
(** Activity publication and subscription: src/src/activity/broker.rs.

    The broker's mutex is tried, never awaited, so an operation takes the
    outcome of [try_lock] as an input and is one critical section.  The tokio
    broadcast channel and semaphore are the interface [TokioSync]; what a
    receiver reads is a list of [RecvOutcome]s, and [delivers] states which
    lists the channel's documentation allows. *)

From S2P Require Import Prelude Json Contract ContractCodec CodecTheorems History.

Definition MAX_ACTIVITY_BROADCAST_CAPACITY : Z := 1024.
Definition MAX_ACTIVITY_SUBSCRIBERS : Z := 16.

Inductive BrokerError : Type :=
| BE_InvalidCapacity
| BE_InvalidInput
| BE_Busy
| BE_EventTooLarge
| BE_SequenceExhausted
| BE_Closed
| BE_InvariantViolation.

#[global] Instance broker_error_eq_dec : EqDecision BrokerError.
Proof. solve_decision. Defined.

Definition map_history_error (error : HistoryError) : BrokerError :=
  match error with
  | HE_EventTooLarge => BE_EventTooLarge
  | HE_InvalidCapacity => BE_InvalidCapacity
  | HE_InvalidTail | HE_InvalidEvent => BE_InvalidInput
  | HE_InvalidSerializedSize | HE_SerializedSizeMismatch | HE_InvariantViolation =>
      BE_InvariantViolation
  end.

Record ActivityGap : Type := mkGap {
  gap_after_sequence : Z;
  gap_through_sequence : Z;
  gap_dropped : Z;
}.

(** [Mutex::try_lock]. *)
Inductive TryLock : Type :=
| Locked
| WouldBlock
| Poisoned.

Definition try_state (lock : TryLock) : result BrokerError unit :=
  match lock with
  | Locked => Ok tt
  | WouldBlock => Err BE_Busy
  | Poisoned => Err BE_InvariantViolation
  end.

(** [tokio::sync::{broadcast, Semaphore}]. *)
Class TokioSync `{UuidLib} := {
  Sender : Type;
  Receiver : Type;
  Permits : Type;
  broadcast_channel : Z -> Sender;
  broadcast_send : Sender -> ActivityEvent -> Sender;
  broadcast_subscribe : Sender -> Receiver;
  semaphore_new : Z -> Permits;
  try_acquire_owned : Permits -> option Permits;
}.

Section Broker.
Context `{UuidLib, !SerdeJson, !TokioSync}.

Inductive ActivityDelivery : Type :=
| Delivery_Event (event : ActivityEvent)
| Delivery_Gap (gap : ActivityGap).

(** [BrokerState] and the broker around it; the clock's reading is an input of
    [publish]. *)
Record ActivityBroker : Type := mkBroker {
  bk_history : ActivityHistory;
  bk_live : Sender;
  bk_last_sequence : Z;
  bk_generation : Uuid;
  bk_subscriber_permits : Permits;
}.

Record PendingGap : Type := mkPendingGap {
  pg_after_sequence : Z;
  pg_lagged : Z;
}.

Record ActivitySubscription : Type := mkSubscription {
  sub_snapshot : list ActivityEvent;
  sub_cutoff : Z;
  sub_generation : Uuid;
  sub_history_truncated : bool;
  sub_receiver : Receiver;
  sub_session_id : option string;
  sub_cursor : Z;
  sub_pending_event : option ActivityEvent;
  sub_pending_gap : option PendingGap;
}.

Definition broker_with_limits (history : ActivityHistory)
    (broadcast_capacity max_subscribers : Z) (generation : Uuid)
    : result BrokerError ActivityBroker :=
  if negb (in_range 1 MAX_ACTIVITY_BROADCAST_CAPACITY broadcast_capacity)
     || negb (in_range 1 MAX_ACTIVITY_SUBSCRIBERS max_subscribers)
  then Err BE_InvalidCapacity
  else if negb (history_is_empty history) then Err BE_InvalidInput
  else Ok (mkBroker history (broadcast_channel broadcast_capacity) 0 generation
             (semaphore_new max_subscribers)).

Definition encode_size_error (error : ContractError) : BrokerError :=
  match error with
  | CE_TooLarge => BE_EventTooLarge
  | _ => BE_InvalidInput
  end.

Definition invalid_input {A : Type} (r : result ContractError A) : result BrokerError A :=
  map_err (fun _ => BE_InvalidInput) r.

Definition publish (broker : ActivityBroker) (lock : TryLock) (timestamp_ms : Z)
    (update : ActivityUpdate) (session_id : option string) (session_instance : option Uuid)
    : result BrokerError (ActivityBroker * ActivityEvent) :=
  invalid_input (validate_update update) ;!
  let! _ := invalid_input (stamp_new 1 0 session_id session_instance) in
  try_state lock ;!
  let! sequence := ok_or (checked_add (bk_last_sequence broker) 1) BE_SequenceExhausted in
  let! stamp := invalid_input (stamp_new sequence timestamp_ms session_id session_instance) in
  let! event := invalid_input (event_from_update update stamp) in
  let! encoded := map_err encode_size_error (encode_event event) in
  let serialized_size := str_len encoded in
  let! history := map_err map_history_error
                    (history_push (bk_history broker) event serialized_size) in
  Ok (mkBroker history (broadcast_send (bk_live broker) event) sequence
        (bk_generation broker) (bk_subscriber_permits broker), event).

Definition subscribe_snapshot (broker : ActivityBroker) (lock : TryLock)
    (session_id : option string) (tail : Z)
    : result BrokerError (ActivityBroker * ActivitySubscription) :=
  if MAX_ACTIVITY_TAIL <? tail then Err BE_InvalidInput
  else
    let! _ := invalid_input (stamp_new 1 0 session_id None) in
    let! permits := ok_or (try_acquire_owned (bk_subscriber_permits broker)) BE_Busy in
    try_state lock ;!
    let receiver := broadcast_subscribe (bk_live broker) in
    let cutoff := bk_last_sequence broker in
    let! snapshot := map_err map_history_error
                       (history_tail (bk_history broker) session_id tail) in
    Ok (mkBroker (bk_history broker) (bk_live broker) (bk_last_sequence broker)
          (bk_generation broker) permits,
        mkSubscription snapshot cutoff (bk_generation broker)
          (h_history_truncated (bk_history broker)) receiver session_id cutoff None None).

(** * Receiving *)

Inductive RecvOutcome : Type :=
| RecvOk (event : ActivityEvent)
| RecvLagged (dropped : Z)
| RecvClosed.

Definition set_cursor (s : ActivitySubscription) (cursor : Z)
    (pending_event : option ActivityEvent) (pending_gap : option PendingGap)
    : ActivitySubscription :=
  mkSubscription (sub_snapshot s) (sub_cutoff s) (sub_generation s) (sub_history_truncated s)
    (sub_receiver s) (sub_session_id s) cursor pending_event pending_gap.

Definition record_lagged (s : ActivitySubscription) (dropped : Z)
    : result BrokerError ActivitySubscription :=
  if dropped =? 0 then Err BE_InvariantViolation
  else
    match sub_pending_gap s with
    | Some pending =>
        let! lagged := ok_or (checked_add (pg_lagged pending) dropped) BE_InvariantViolation in
        Ok (set_cursor s (sub_cursor s) (sub_pending_event s)
              (Some (mkPendingGap (pg_after_sequence pending) lagged)))
    | None =>
        Ok (set_cursor s (sub_cursor s) (sub_pending_event s)
              (Some (mkPendingGap (sub_cursor s) dropped)))
    end.

(** One pass of the loop after an event is at hand: [None] is [continue]. *)
Definition recv_event (s : ActivitySubscription) (event : ActivityEvent)
    : result BrokerError (option ActivityDelivery) * ActivitySubscription :=
  match sub_pending_gap s with
  | Some pending_gap =>
      let taken := set_cursor s (sub_cursor s) None None in
      match checked_sub (ev_sequence event) 1 with
      | None => (Err BE_InvariantViolation, taken)
      | Some through_sequence =>
          match checked_sub through_sequence (pg_after_sequence pending_gap) with
          | None => (Err BE_InvariantViolation, taken)
          | Some dropped =>
              if (dropped =? 0) || negb (dropped =? pg_lagged pending_gap)
              then (Err BE_InvariantViolation, taken)
              else
                (Ok (Some (Delivery_Gap
                       (mkGap (pg_after_sequence pending_gap) through_sequence dropped))),
                 set_cursor s (sub_cursor s) (Some event) None)
          end
      end
  | None =>
      if ev_sequence event <=? sub_cursor s
      then (Err BE_InvariantViolation, set_cursor s (sub_cursor s) None None)
      else
        let s := set_cursor s (ev_sequence event) None None in
        if matches_session (sub_session_id s) event
        then (Ok (Some (Delivery_Event event)), s)
        else (Ok None, s)
  end.

(** What a call of [recv] comes to: it returns, or it awaits the channel. *)
Inductive RecvCall : Type :=
| RecvReturn (r : result BrokerError ActivityDelivery) (s : ActivitySubscription)
    (rest : list RecvOutcome)
| RecvAwait (s : ActivitySubscription).

(** The loop reading the channel, [outcomes] being what the channel yields. *)
Fixpoint recv_channel (s : ActivitySubscription) (outcomes : list RecvOutcome) : RecvCall :=
  match outcomes with
  | [] => RecvAwait s
  | RecvOk event :: rest =>
      match recv_event s event with
      | (Ok (Some d), s) => RecvReturn (Ok d) s rest
      | (Ok None, s) => recv_channel s rest
      | (Err e, s) => RecvReturn (Err e) s rest
      end
  | RecvLagged dropped :: rest =>
      match record_lagged s dropped with
      | Ok s => recv_channel s rest
      | Err e => RecvReturn (Err e) s rest
      end
  | RecvClosed :: rest => RecvReturn (Err BE_Closed) s rest
  end.

Definition recv (s : ActivitySubscription) (outcomes : list RecvOutcome) : RecvCall :=
  match sub_pending_event s with
  | Some event =>
      match recv_event (set_cursor s (sub_cursor s) None (sub_pending_gap s)) event with
      | (Ok (Some d), s) => RecvReturn (Ok d) s outcomes
      | (Ok None, s) => recv_channel s outcomes
      | (Err e, s) => RecvReturn (Err e) s outcomes
      end
  | None => recv_channel s outcomes
  end.

(** A consumer that calls [recv] until it awaits or fails. *)
Fixpoint recv_all (calls : nat) (s : ActivitySubscription) (outcomes : list RecvOutcome)
    : list ActivityDelivery * result BrokerError ActivitySubscription :=
  match calls with
  | O => ([], Ok s)
  | S calls =>
      match recv s outcomes with
      | RecvAwait s => ([], Ok s)
      | RecvReturn (Err e) _ _ => ([], Err e)
      | RecvReturn (Ok d) s rest =>
          let (ds, r) := recv_all calls s rest in (d :: ds, r)
      end
  end.

End Broker.
