(* ===== verification/BrokerTheorems.v ===== *)
(** Theorems of the activity broker (Broker.v): publication is gapless and
    keeps the history sound, a subscription starts exactly where its snapshot
    ends, and a receiver accounts for every event sent after that. *)

From S2P Require Import Prelude Json Contract ContractCodec CodecTheorems History Broker.

Section BrokerTheorems.
Context `{UuidLib, !UuidLaws, !SerdeJson, !ToVecLaws, !TokioSync}.

(** * Publication *)

Definition entry_sequence (entry : HistoryEntry) : Z := ev_sequence (he_event entry).

Record broker_inv (b : ActivityBroker) : Prop := {
  bi_history : history_inv (bk_history b);
  bi_room : MAX_ACTIVITY_EVENT_BYTES <= h_max_bytes (bk_history b);
  bi_sorted : key_sorted entry_sequence (h_events (bk_history b));
  bi_sequences : Forall (fun x => 1 <= entry_sequence x <= bk_last_sequence b)
                   (h_events (bk_history b));
  bi_last : u64 (bk_last_sequence b);
}.

Lemma broker_with_limits_inv (h : ActivityHistory) (capacity subscribers : Z) (g : Uuid)
    (b : ActivityBroker) :
  history_inv h -> MAX_ACTIVITY_EVENT_BYTES <= h_max_bytes h ->
  broker_with_limits h capacity subscribers g = Ok b ->
  broker_inv b /\ bk_last_sequence b = 0.
Proof.
  intros Hh Hr Hb. unfold broker_with_limits in Hb.
  repeat (case_match; try discriminate Hb). simplify_eq. split; [|done].
  rewrite negb_false_iff in *. unfold history_is_empty in *. rust_norm.
  destruct (h_events h) eqn:E; [|unfold zlen in *; simpl in *; lia].
  split; simpl; rewrite ?E; try done; try constructor; unfold u64, U64_MAX; lia.
Qed.

Lemma event_of_typed (u : ActivityUpdate) (seq ts : Z) (sid : option string) (inst : option Uuid) :
  update_typed u -> u64 seq -> u64 ts -> event_typed (event_of u (mkStamp seq ts sid inst)).
Proof.
  intros [Hs Hd] Hq Ht. unfold event_typed, event_of, str_utf8. simpl. split_and!; try done.
  by destruct (upd_summary u) as [|[]|[]|[]|[]|[]].
Qed.

(** The inputs [publish] accepts. *)
Definition publish_input_ok (u : ActivityUpdate) (sid : option string) (inst : option Uuid) : Prop :=
  validate_update u = Ok tt /\ validate_session_identity sid inst = Ok tt.

Lemma stamp_new_eq (seq ts : Z) (sid : option string) (inst : option Uuid) :
  seq <> 0 ->
  stamp_new seq ts sid inst =
  (validate_session_identity sid inst ;! Ok (mkStamp seq ts sid inst)).
Proof.
  intros Hs. unfold stamp_new, validate_stamp. simpl. by rewrite (proj2 (Z.eqb_neq _ _)).
Qed.

Lemma validate_session_identity_err (sid : option string) (inst : option Uuid) (e : ContractError) :
  validate_session_identity sid inst = Err e -> e = CE_InvalidValue.
Proof.
  unfold validate_session_identity, ensure. repeat case_match; naive_solver.
Qed.

Lemma publish_rejects_input (b : ActivityBroker) (lock : TryLock) (ts : Z) (u : ActivityUpdate)
    (sid : option string) (inst : option Uuid) :
  ~ publish_input_ok u sid inst -> publish b lock ts u sid inst = Err BE_InvalidInput.
Proof.
  intros Hno. unfold publish, invalid_input. rewrite (stamp_new_eq 1) by done.
  destruct (validate_update u) as [[]|] eqn:Hu; simpl; [|done].
  destruct (validate_session_identity sid inst) as [[]|] eqn:Hi; simpl; [|done].
  by destruct Hno.
Qed.

(** The critical section, once the inputs and the lock are in order. *)
Lemma publish_locked (b : ActivityBroker) (ts : Z) (u : ActivityUpdate)
    (sid : option string) (inst : option Uuid) :
  broker_inv b -> u64 ts -> update_typed u -> publish_input_ok u sid inst ->
  bk_last_sequence b < U64_MAX ->
  let seq := bk_last_sequence b + 1 in
  let event := event_of u (mkStamp seq ts sid inst) in
  exists history size dropped kept,
    publish b Locked ts u sid inst =
      Ok (mkBroker history (broadcast_send (bk_live b) event) seq
            (bk_generation b) (bk_subscriber_permits b), event)
    /\ history_push (bk_history b) event size = Ok history /\ history_inv history
    /\ h_max_bytes history = h_max_bytes (bk_history b)
    /\ h_events (bk_history b) = dropped ++ kept
    /\ h_events history = kept ++ [mkEntry event size].
Proof.
  intros Hinv Hts Hu [Hv Hid] Hlast seq event.
  assert (Hseq : u64 seq) by (destruct Hinv; unfold u64 in *; lia).
  assert (Hty : event_typed event) by by apply event_of_typed.
  assert (Hstamp : validate_stamp (mkStamp seq ts sid inst) = Ok tt).
  { apply validate_stamp_Ok. simpl. split; [|done]. destruct Hinv. unfold u64 in *. lia. }
  assert (Hev : validate_event event = Ok tt) by by apply event_of_valid.
  destruct (encode_event_valid event Hty Hev) as (bytes & Henc & Hlen).
  assert (Hpos : 0 < str_len bytes <= MAX_ACTIVITY_EVENT_BYTES).
  { pose proof (event_json_size event Hty Hev). split; [|lia].
    rewrite Hlen. apply envelope_size_pos. }
  set (size := str_len bytes) in *.
  assert (Hadmit : push_admits (bk_history b) event size).
  { split; [destruct Hinv; lia|]. by exists bytes. }
  destruct (history_push_eq (bk_history b) event size (bi_history _ Hinv) Hadmit)
    as (dropped & kept & Hsplit & Hpush & Hfit & _).
  eexists _, size, dropped, kept. split_and!; [|exact Hpush| | |exact Hsplit|]; try done.
  - unfold publish, invalid_input. rewrite Hv. cbn [map_err bind].
    rewrite !stamp_new_eq by (try done; destruct Hinv; unfold u64 in *; lia).
    rewrite Hid. cbn [map_err bind try_state].
    rewrite (proj2 (checked_add_Some _ _ seq)) by (split; [done|lia]). cbn [ok_or bind].
    rewrite stamp_new_eq, Hid by (destruct Hinv; unfold u64 in *; lia). cbn [map_err bind].
    rewrite event_from_update_eq, Hv, Hstamp. cbn [map_err bind].
    fold event. rewrite Henc. cbn [map_err bind]. fold size. by rewrite Hpush.
  - eapply history_push_inv; [apply Hinv| |exact Hpush]. lia.
Qed.

Lemma last_grows_inv (b : ActivityBroker) (event : ActivityEvent) (history : ActivityHistory)
    (size : Z) (dropped kept : list HistoryEntry) (live : Sender) :
  broker_inv b -> bk_last_sequence b < U64_MAX -> history_inv history ->
  h_max_bytes history = h_max_bytes (bk_history b) ->
  h_events (bk_history b) = dropped ++ kept ->
  h_events history = kept ++ [mkEntry event size] ->
  ev_sequence event = bk_last_sequence b + 1 ->
  broker_inv (mkBroker history live (bk_last_sequence b + 1) (bk_generation b)
                (bk_subscriber_permits b)).
Proof.
  intros [Hh Hroom Hsort Hseq Hlast] Hlt Hh' Hmax Hsplit Hev Hq.
  rewrite Hsplit in Hsort, Hseq.
  apply key_sorted_app in Hsort as (_ & Hsort & _). apply Forall_app in Hseq as [_ Hseq].
  split; simpl; try done.
  - by rewrite Hmax.
  - rewrite Hev. apply key_sorted_app. split_and!; [done|repeat constructor|].
    intros x y Hx Hy. rewrite Forall_forall in Hseq. specialize (Hseq x Hx).
    apply list_elem_of_singleton in Hy as ->. unfold entry_sequence in *. simpl. lia.
  - rewrite Hev. apply Forall_app. split.
    + eapply Forall_impl; [exact Hseq|]. simpl. lia.
    + apply Forall_singleton. unfold entry_sequence, u64 in *. simpl. lia.
  - unfold u64 in *. lia.
Qed.

(** C34: [publish] is total and gapless.  A malformed update or session identity
    is [InvalidInput] whatever the lock; a contended lock is [Busy]; the last
    sequence number exhausts; otherwise the event is accepted with the next
    sequence number, is the last entry of the history, is the one message sent
    on the channel, and the broker's invariant (history bounds, strictly
    increasing sequences, none above the last) holds again. *)
Theorem publish_spec (b : ActivityBroker) (lock : TryLock) (ts : Z) (u : ActivityUpdate)
    (sid : option string) (inst : option Uuid) :
  broker_inv b -> u64 ts -> update_typed u ->
  (~ publish_input_ok u sid inst /\ publish b lock ts u sid inst = Err BE_InvalidInput)
  \/ (publish_input_ok u sid inst /\ lock <> Locked
      /\ exists e, try_state lock = Err e /\ publish b lock ts u sid inst = Err e)
  \/ (publish_input_ok u sid inst /\ lock = Locked /\ bk_last_sequence b = U64_MAX
      /\ publish b lock ts u sid inst = Err BE_SequenceExhausted)
  \/ exists b' event,
      publish b lock ts u sid inst = Ok (b', event) /\ broker_inv b'
      /\ ev_sequence event = bk_last_sequence b + 1
      /\ bk_last_sequence b' = bk_last_sequence b + 1
      /\ bk_live b' = broadcast_send (bk_live b) event
      /\ he_event <$> last (h_events (bk_history b')) = Some event.
Proof.
  intros Hinv Hts Hu.
  destruct (decide (publish_input_ok u sid inst)) as [Hin|Hin];
    [right|left; split; [done|by apply publish_rejects_input]].
  assert (Hpre : forall k : result BrokerError unit, try_state lock = k ->
            k <> Ok tt -> exists e, k = Err e /\ publish b lock ts u sid inst = Err e).
  { intros k Hk Hne. destruct k as [[]|e]; [done|]. exists e. split; [done|].
    destruct Hin as [Hv Hid]. unfold publish, invalid_input. rewrite Hv. cbn [map_err bind].
    rewrite stamp_new_eq, Hid by done. cbn [map_err bind]. by rewrite Hk. }
  destruct lock; [right|left; split_and!; [done..|by eapply Hpre]|left; split_and!; [done..|by eapply Hpre]].
  assert (Hlast : u64 (bk_last_sequence b)) by apply Hinv.
  destruct (decide (bk_last_sequence b = U64_MAX)) as [Hmax|Hmax]; [left|right].
  - split_and!; [done..|]. destruct Hin as [Hv Hid].
    unfold publish, invalid_input. rewrite Hv. cbn [map_err bind].
    rewrite stamp_new_eq, Hid by done. cbn [map_err bind try_state]. by rewrite Hmax.
  - assert (Hlt : bk_last_sequence b < U64_MAX) by (unfold u64 in *; lia).
    destruct (publish_locked b ts u sid inst Hinv Hts Hu Hin Hlt)
      as (history & size & dropped & kept & Hp & _ & Hh & Hm & Hs & He).
    eexists _, _. split_and!; [exact Hp| |done|done|done|].
    + by eapply last_grows_inv.
    + simpl. by rewrite He, last_snoc.
Qed.

(** A subscription is a consistent cut.  Its snapshot is the newest
    matching events of the history in sequence order, all numbered at most the
    cutoff; its cursor starts at the cutoff with nothing pending; and every
    event published afterwards is numbered above it, so replay and live
    delivery neither overlap nor leave a hole. *)
Theorem subscribe_snapshot_cut (b b1 : ActivityBroker) (lock : TryLock) (sid : option string)
    (tail : Z) (sub : ActivitySubscription) :
  broker_inv b -> 0 <= tail -> subscribe_snapshot b lock sid tail = Ok (b1, sub) ->
  broker_inv b1 /\ bk_last_sequence b1 = bk_last_sequence b /\ bk_history b1 = bk_history b
  /\ sub_cutoff sub = bk_last_sequence b /\ sub_cursor sub = sub_cutoff sub
  /\ sub_pending_event sub = None /\ sub_pending_gap sub = None
  /\ key_sorted ev_sequence (sub_snapshot sub)
  /\ Forall (fun e => ev_sequence e <= sub_cutoff sub /\ matches_session sid e = true)
       (sub_snapshot sub)
  /\ (exists older, List.filter (matches_session sid) (map he_event (h_events (bk_history b)))
                     = older ++ sub_snapshot sub)
  /\ forall lock' ts u sid' inst b2 event,
       publish b1 lock' ts u sid' inst = Ok (b2, event) -> sub_cutoff sub < ev_sequence event.
Proof.
  intros Hinv Ht Hs. unfold subscribe_snapshot in Hs.
  destruct (Z.ltb_spec MAX_ACTIVITY_TAIL tail); [done|].
  repeat match type of Hs with
  | bind _ _ = Ok _ => let E := fresh "E" in apply bind_Ok in Hs as (? & E & Hs)
  end.
  apply map_err_Ok in E2. simplify_eq/=.
  destruct (history_tail_spec (bk_history b) sid tail Ht)
    as [[? ?]|(older & newest & _ & Htail & _ & _ & _ & _ & Hord)]; [unfold MAX_ACTIVITY_TAIL in *; lia|].
  destruct (Hord (bi_sorted _ Hinv)) as [Hsplit%eq_sym Hsorted].
  rewrite E2 in Htail. simplify_eq.
  assert (Hall : Forall (fun e => ev_sequence e <= bk_last_sequence b /\ matches_session sid e = true)
                   newest).
  { apply Forall_forall. intros e He.
    assert (Hm : e ∈ older ++ newest) by (apply elem_of_app; by right).
    rewrite <- Hsplit, list_elem_of_In in Hm. apply filter_In in Hm as [Hm Hmatch].
    split; [|done]. apply in_map_iff in Hm as (entry & <- & Hx).
    pose proof (bi_sequences _ Hinv) as Hseq. rewrite Forall_forall in Hseq.
    rewrite <- list_elem_of_In in Hx. apply Hseq in Hx. unfold entry_sequence in Hx. lia. }
  split_and!; simpl; try done; [by destruct Hinv; split|by exists older|].
  intros lock' ts u sid' inst b2 event Hp. unfold publish in Hp. simpl in Hp.
  repeat match type of Hp with
  | bind _ _ = Ok _ => let E := fresh "F" in apply bind_Ok in Hp as (? & E & Hp)
  end.
  simplify_eq/=. apply ok_or_Ok, checked_add_Some in F2 as [-> _].
  apply map_err_Ok in F3. apply map_err_Ok in F4.
  unfold stamp_new in F3. apply bind_Ok in F3 as (? & _ & [= <-]).
  rewrite event_from_update_eq in F4.
  apply bind_Ok in F4 as (? & _ & F4). apply bind_Ok in F4 as (? & _ & [= <-]). simpl. lia.
Qed.

(** * Receiving *)

(** The readings of a broadcast channel for a run of sent messages: each is
    received in order, or a run of them was overwritten and is reported as one
    [Lagged] with their number. *)
Inductive delivers : list ActivityEvent -> list RecvOutcome -> Prop :=
| delivers_nil : delivers [] []
| delivers_ok e sent outs : delivers sent outs -> delivers (e :: sent) (RecvOk e :: outs)
| delivers_lag skipped sent outs :
    skipped <> [] -> delivers sent outs ->
    delivers (skipped ++ sent) (RecvLagged (zlen skipped) :: outs).

(** Events numbered [n + 1], [n + 2], ... *)
Fixpoint consecutive (n : Z) (sent : list ActivityEvent) : Prop :=
  match sent with
  | [] => True
  | e :: rest => ev_sequence e = n + 1 /\ consecutive (n + 1) rest
  end.

(** [covers sid p sent ds q]: the deliveries [ds] account for the sent events,
    which are numbered [p + 1 .. q]: each is delivered, or the filter [sid]
    excludes it, or it lies in exactly one reported gap. *)
Inductive covers (sid : option string)
    : Z -> list ActivityEvent -> list ActivityDelivery -> Z -> Prop :=
| covers_nil p : covers sid p [] [] p
| covers_event p e sent ds q :
    ev_sequence e = p + 1 -> matches_session sid e = true -> covers sid (p + 1) sent ds q ->
    covers sid p (e :: sent) (Delivery_Event e :: ds) q
| covers_excluded p e sent ds q :
    ev_sequence e = p + 1 -> matches_session sid e = false -> covers sid (p + 1) sent ds q ->
    covers sid p (e :: sent) ds q
| covers_gap p skipped sent ds q :
    skipped <> [] -> covers sid (p + zlen skipped) sent ds q ->
    covers sid p (skipped ++ sent)
      (Delivery_Gap (mkGap p (p + zlen skipped) (zlen skipped)) :: ds) q.

Lemma covers_trans (sid : option string) (p q r : Z) (a b : list ActivityEvent)
    (ds es : list ActivityDelivery) :
  covers sid p a ds q -> covers sid q b es r -> covers sid p (a ++ b) (ds ++ es) r.
Proof.
  induction 1; intros Hb; simpl; [done|constructor; auto|apply covers_excluded; auto|].
  rewrite <- app_assoc. apply covers_gap; auto.
Qed.

Lemma covers_end (sid : option string) (p q : Z) (sent : list ActivityEvent)
    (ds : list ActivityDelivery) : covers sid p sent ds q -> q = p + zlen sent.
Proof.
  induction 1 as [| ? ? ? ? ? ? ? ? IH | ? ? ? ? ? ? ? ? IH | ? ? ? ? ? ? ? IH];
    rewrite ?zlen_cons, ?zlen_app; [change (zlen []) with 0|..]; lia.
Qed.

(** The gap a subscription has read but not reported. *)
Definition lag_of (s : ActivitySubscription) : Z :=
  match sub_pending_gap s with
  | Some g => pg_lagged g
  | None => 0
  end.

(** [s] has accounted for the sequence numbers up to [p]; [todo] is what was
    sent after that, of which the receiver still yields [outs]. *)
Inductive ready (s : ActivitySubscription) (p : Z)
    : list ActivityEvent -> list RecvOutcome -> Prop :=
| ready_fresh consumed outs :
    sub_pending_event s = None -> sub_pending_gap s = None -> sub_cursor s = p ->
    delivers consumed outs -> ready s p consumed outs
| ready_lagged lagged consumed outs :
    sub_pending_event s = None -> lagged <> [] -> sub_cursor s = p ->
    sub_pending_gap s = Some (mkPendingGap p (zlen lagged)) ->
    delivers consumed outs -> ready s p (lagged ++ consumed) outs
| ready_held e consumed outs :
    sub_pending_event s = Some e -> sub_pending_gap s = None -> sub_cursor s <= p ->
    delivers consumed outs -> ready s p (e :: consumed) outs.

Lemma consecutive_app (n : Z) (a b : list ActivityEvent) :
  consecutive n (a ++ b) <-> consecutive n a /\ consecutive (n + zlen a) b.
Proof.
  revert n. induction a as [|e a IH]; intros n; simpl.
  - change (zlen []) with 0. rewrite Z.add_0_r. tauto.
  - rewrite IH, zlen_cons. replace (n + 1 + zlen a) with (n + (1 + zlen a)) by lia. tauto.
Qed.

Lemma zlen_pos {A : Type} (l : list A) : l <> [] -> 0 < zlen l.
Proof. destruct l; [done|]. intros _. rewrite zlen_cons. pose proof (zlen_nonneg l). lia. Qed.

(** What is left to read after a call, and how much work that is. *)
Definition pending_work (s : ActivitySubscription) (outs : list RecvOutcome) : nat :=
  2 * length outs + match sub_pending_event s with Some _ => 1 | None => 0 end.

Definition recv_post (s : ActivitySubscription) (p : Z) (todo : list ActivityEvent)
    (work : nat) (call : RecvCall) : Prop :=
  match call with
  | RecvAwait s' =>
      exists done left q, todo = done ++ left /\ covers (sub_session_id s) p done [] q
        /\ ready s' q left [] /\ sub_session_id s' = sub_session_id s
        /\ sub_pending_event s' = None
  | RecvReturn (Ok d) s' rest =>
      exists done left q, todo = done ++ left /\ covers (sub_session_id s) p done [d] q
        /\ ready s' q left rest /\ sub_session_id s' = sub_session_id s
        /\ (pending_work s' rest < work)%nat
  | RecvReturn (Err _) _ _ => False
  end.

(** Skipping excluded events first changes nothing. *)
Lemma recv_post_skip (s s1 : ActivitySubscription) (p q : Z) (skip todo : list ActivityEvent)
    (work work1 : nat) (call : RecvCall) :
  covers (sub_session_id s) p skip [] q -> sub_session_id s1 = sub_session_id s ->
  (work1 <= work)%nat -> recv_post s1 q todo work1 call -> recv_post s p (skip ++ todo) work call.
Proof.
  intros Hc Hs Hw. destruct call as [[d|e] s' rest|s']; simpl; [|done|].
  - intros (dn & left & r & -> & Hd & Hr & Hi & Hwork). exists (skip ++ dn), left, r.
    rewrite app_assoc. split_and!; try done; [|by rewrite Hi|lia].
    rewrite Hs in Hd. by apply (covers_trans _ _ _ _ _ _ [] [d] Hc).
  - intros (dn & left & r & -> & Hd & Hr & Hi & Hp). exists (skip ++ dn), left, r.
    rewrite app_assoc. split_and!; try done; [|by rewrite Hi].
    rewrite Hs in Hd. by apply (covers_trans _ _ _ _ _ _ [] [] Hc).
Qed.

(** An event at hand, with no gap before it. *)
Lemma recv_event_next (s : ActivitySubscription) (p : Z) (e : ActivityEvent) :
  sub_pending_gap s = None -> sub_cursor s <= p -> ev_sequence e = p + 1 ->
  recv_event s e =
  (Ok (if matches_session (sub_session_id s) e then Some (Delivery_Event e) else None),
   set_cursor s (p + 1) None None).
Proof.
  intros Hg Hc He. unfold recv_event. rewrite Hg, He.
  rewrite (proj2 (Z.leb_gt _ _)) by lia. simpl. by case_match.
Qed.

(** An event at hand after a lag: the gap is returned and the event held. *)
Lemma recv_event_gap (s : ActivitySubscription) (p lag : Z) (e : ActivityEvent) :
  sub_pending_gap s = Some (mkPendingGap p lag) -> 0 <= p -> 0 < lag ->
  ev_sequence e = p + lag + 1 ->
  recv_event s e =
  (Ok (Some (Delivery_Gap (mkGap p (p + lag) lag))),
   set_cursor s (sub_cursor s) (Some e) None).
Proof.
  intros Hg Hp Hl He. unfold recv_event. rewrite Hg.
  rewrite (proj2 (checked_sub_Some _ _ (p + lag))) by lia. simpl.
  rewrite (proj2 (checked_sub_Some _ _ lag)) by lia.
  rewrite (proj2 (Z.eqb_neq lag 0)), Z.eqb_refl by lia. done.
Qed.

(** Sent events are numbered from [p], in 64 bits. *)
Definition numbered (p : Z) (sent : list ActivityEvent) : Prop :=
  0 <= p /\ consecutive p sent /\ Forall (fun e => u64 (ev_sequence e)) sent.

Lemma numbered_app (p : Z) (a b : list ActivityEvent) :
  numbered p (a ++ b) -> numbered p a /\ numbered (p + zlen a) b.
Proof.
  intros (Hp & Hc & Hf). apply consecutive_app in Hc as [? ?]. apply Forall_app in Hf as [? ?].
  pose proof (zlen_nonneg a). unfold numbered. split_and!; try done; lia.
Qed.

Lemma numbered_cons (p : Z) (e : ActivityEvent) (b : list ActivityEvent) :
  numbered p (e :: b) -> ev_sequence e = p + 1 /\ numbered (p + 1) b.
Proof.
  intros (Hp & [He Hc] & Hf). apply Forall_cons in Hf as [? ?]. unfold numbered.
  split_and!; try done; lia.
Qed.

Lemma numbered_bound (p : Z) (sent : list ActivityEvent) :
  numbered p sent -> sent <> [] -> p + zlen sent <= U64_MAX.
Proof.
  revert p. induction sent as [|e sent IH]; intros p Hn Hne; [done|].
  destruct sent as [|e' sent].
  - destruct Hn as (_ & [He _] & Hf). apply Forall_cons in Hf as [Hf _].
    unfold zlen, u64 in *. simpl. lia.
  - apply numbered_cons in Hn as [_ Hn]. specialize (IH _ Hn ltac:(done)).
    rewrite zlen_cons. lia.
Qed.

Lemma record_lagged_ready (s : ActivitySubscription) (p n : Z) (todo : list ActivityEvent)
    (outs : list RecvOutcome) :
  ready s p todo (RecvLagged n :: outs) -> sub_pending_event s = None -> numbered p todo ->
  exists s', record_lagged s n = Ok s' /\ ready s' p todo outs
    /\ sub_pending_event s' = None /\ sub_session_id s' = sub_session_id s.
Proof.
  intros Hr Hpe Hn. unfold record_lagged.
  inversion Hr as [? ? _ Hg Hc Hd|lagged consumed ? _ Hl Hc Hg Hd|? ? ? He]; subst; [| |congruence].
  - inversion Hd as [| |skipped sent ? Hne Hd']; subst. pose proof (zlen_pos _ Hne).
    rewrite (proj2 (Z.eqb_neq _ _)), Hg by lia.
    eexists. split_and!; [done| |done|done]. eapply ready_lagged; eauto.
  - inversion Hd as [| |skipped sent ? Hne Hd']; subst. pose proof (zlen_pos _ Hne).
    rewrite (proj2 (Z.eqb_neq _ _)), Hg by lia. cbn [pg_lagged pg_after_sequence].
    assert (Hb : sub_cursor s + zlen (lagged ++ skipped) <= U64_MAX).
    { rewrite app_assoc in Hn. apply numbered_app in Hn as [Hn _].
      apply numbered_bound; [done|]. by destruct lagged. }
    destruct Hn as (Hp & _). rewrite zlen_app in Hb.
    rewrite (proj2 (checked_add_Some _ _ (zlen (lagged ++ skipped))))
      by (rewrite zlen_app; lia).
    eexists. split_and!; [done| |done|done]. rewrite app_assoc.
    eapply ready_lagged; eauto. by destruct lagged.
Qed.

Lemma recv_channel_ready (outs : list RecvOutcome) (s : ActivitySubscription) (p : Z)
    (todo : list ActivityEvent) :
  ready s p todo outs -> sub_pending_event s = None -> numbered p todo ->
  recv_post s p todo (2 * length outs) (recv_channel s outs).
Proof.
  revert s p todo. induction outs as [|o outs IH]; intros s p todo Hr Hpe Hn.
  { exists [], todo, p. split_and!; try done. constructor. }
  destruct o as [e|n|]; cbn [recv_channel].
  - inversion Hr as [? ? _ Hg Hc Hd|lagged consumed ? _ Hl Hc Hg Hd|? ? ? He]; subst; [| |congruence].
    + inversion Hd as [|? sent ? Hd' |]; subst. pose proof (numbered_cons _ _ _ Hn) as [Hq Hn'].
      rewrite (recv_event_next s (sub_cursor s)) by done.
      destruct (matches_session _ e) eqn:Hm.
      * exists [e], sent, (sub_cursor s + 1). split_and!; try done.
        -- by repeat constructor.
        -- by apply ready_fresh.
        -- unfold pending_work. simpl. lia.
      * apply (recv_post_skip _ (set_cursor s (sub_cursor s + 1) None None) _ (sub_cursor s + 1)
                 [e] sent _ (2 * length outs)); [|done|simpl; lia|].
        -- apply covers_excluded; [done|done|constructor].
        -- apply IH; [by apply ready_fresh|done|done].
    + inversion Hd as [|? sent ? Hd' |]; subst.
      pose proof (numbered_app _ _ _ Hn) as [_ Hn']. apply numbered_cons in Hn' as [Hq Hn'].
      pose proof (zlen_pos _ Hl). destruct Hn as (Hp & _).
      rewrite (recv_event_gap s (sub_cursor s) (zlen lagged)) by (done || lia).
      exists lagged, (e :: sent), (sub_cursor s + zlen lagged). split_and!; try done.
      * rewrite <- (app_nil_r lagged) at 1. apply covers_gap; [done|constructor].
      * apply ready_held; simpl; [done|done|lia|done].
      * unfold pending_work. simpl. lia.
  - destruct (record_lagged_ready _ _ _ _ _ Hr Hpe Hn) as (s' & Hs' & Hr' & Hpe' & Hid).
    rewrite Hs'.
    apply (recv_post_skip s s' p p [] todo _ (2 * length outs)); [constructor|done|simpl; lia|].
    by apply IH.
  - exfalso. inversion Hr as [? ? _ _ _ Hd|? ? ? _ _ _ _ Hd|? ? ? _ _ _ Hd]; inversion Hd.
Qed.

Lemma recv_ready (s : ActivitySubscription) (p : Z) (todo : list ActivityEvent)
    (outs : list RecvOutcome) :
  ready s p todo outs -> numbered p todo -> recv_post s p todo (pending_work s outs) (recv s outs).
Proof.
  intros Hr Hn. unfold recv, pending_work. destruct (sub_pending_event s) as [e|] eqn:Hpe.
  - inversion Hr as [? ? He|? ? ? He|e' consumed ? He Hg Hc Hd]; subst; [congruence..|].
    rewrite Hpe in He. injection He as ->.
    pose proof (numbered_cons _ _ _ Hn) as [Hq Hn'].
    rewrite (recv_event_next _ p) by done. simpl.
    destruct (matches_session _ e') eqn:Hm.
    + exists [e'], consumed, (p + 1). split_and!; try done.
      * by repeat constructor.
      * by apply ready_fresh.
      * unfold pending_work. simpl. lia.
    + apply (recv_post_skip _ (set_cursor s (p + 1) None None) _ (p + 1)
               [e'] consumed _ (2 * length outs)); [|done|lia|].
      * apply covers_excluded; [done|done|constructor].
      * apply recv_channel_ready; [by apply ready_fresh|done|done].
  - rewrite Nat.add_0_r. by apply recv_channel_ready.
Qed.

Lemma recv_all_ready (calls : nat) (s : ActivitySubscription) (p : Z) (todo : list ActivityEvent)
    (outs : list RecvOutcome) :
  ready s p todo outs -> numbered p todo -> (pending_work s outs < calls)%nat ->
  exists s' done left q,
    snd (recv_all calls s outs) = Ok s' /\ todo = done ++ left
    /\ covers (sub_session_id s) p done (fst (recv_all calls s outs)) q /\ ready s' q left []
    /\ sub_pending_event s' = None.
Proof.
  revert s p todo outs. induction calls as [|calls IH]; intros s p todo outs Hr Hn Hw; [lia|].
  pose proof (recv_ready _ _ _ _ Hr Hn) as Hpost. simpl.
  destruct (recv s outs) as [[d|e] s' rest|s']; simpl in Hpost; [|done|].
  - destruct Hpost as (dn & left & q & -> & Hc & Hr' & Hid & Hwork).
    assert (Hn' : numbered q left).
    { apply numbered_app in Hn as [_ Hn]. by rewrite (covers_end _ _ _ _ _ Hc). }
    destruct (IH s' q left rest Hr' Hn') as (s'' & dn' & left' & q' & Hok & -> & Hc' & Hr'' & Hp''); [lia|].
    destruct (recv_all calls s' rest) as [ds r]. simpl in *.
    exists s'', (dn ++ dn'), left', q'. rewrite app_assoc. split_and!; try done.
    rewrite Hid in Hc'. by apply (covers_trans _ _ _ _ _ _ [d] ds Hc).
  - destruct Hpost as (dn & left & q & -> & Hc & Hr' & _ & Hp). by exists s', dn, left, q.
Qed.

(** C15: a receiver accounts for every event sent after its cutoff.  Reading any
    documented sequence of channel outcomes for consecutively numbered events,
    a fresh subscription whose consumer calls [recv] until it awaits never
    reports a broken invariant; its deliveries tile the sequence numbers from
    the cutoff: each event is delivered, excluded by the session filter, or
    inside exactly one gap whose bounds and count are right; and what remains
    unaccounted is exactly the lag already read but not yet reported.
    [2 * length outs + 1] calls are enough. *)
Theorem recv_accounts (s : ActivitySubscription) (sent : list ActivityEvent)
    (outs : list RecvOutcome) (calls : nat) :
  sub_pending_event s = None -> sub_pending_gap s = None ->
  numbered (sub_cursor s) sent -> delivers sent outs -> (2 * length outs < calls)%nat ->
  exists ds s' reported unreported q,
    recv_all calls s outs = (ds, Ok s')
    /\ sent = reported ++ unreported
    /\ covers (sub_session_id s) (sub_cursor s) reported ds q
    /\ lag_of s' = zlen unreported
    /\ sub_cursor s' = q.
Proof.
  intros Hpe Hg Hn Hd Hcalls.
  destruct (recv_all_ready calls s (sub_cursor s) sent outs) as (s' & dn & left & q & Hok & -> & Hc & Hr & Hp);
    [by apply ready_fresh|done|unfold pending_work; rewrite Hpe; lia|].
  destruct (recv_all calls s outs) as [ds r]. simpl in *. subst r.
  exists ds, s', dn, left, q.
  assert (Hend : lag_of s' = zlen left /\ sub_cursor s' = q).
  { unfold lag_of. inversion Hr as [? ? _ Hg' Hq Hd'|lagged ? ? _ _ Hq Hg' Hd'|? ? ? He]; subst;
      [..|congruence]; inversion Hd'; subst; rewrite Hg', ?app_nil_r; done. }
  by destruct Hend.
Qed.

End BrokerTheorems.

(** * Witnesses *)

Module BrokerWitness.
Import JsonModel CodecWitness.

#[local] Instance codec2 : SerdeJson := codec [].

(** A channel that remembers what was sent, and a counting semaphore. *)
#[local] Instance tokio_model : TokioSync := {
  Sender := list ActivityEvent;
  Receiver := nat;
  Permits := Z;
  broadcast_channel _ := [];
  broadcast_send sent e := sent ++ [e];
  broadcast_subscribe sent := length sent;
  semaphore_new n := n;
  try_acquire_owned n := if 0 <? n then Some (n - 1) else None;
}.

Definition broker0 : ActivityBroker := mkBroker history_new [] 0 uuid0 16.

Lemma broker0_inv : broker_inv broker0.
Proof.
  split; simpl; [apply history_new_inv|done|constructor|constructor|unfold u64, U64_MAX; lia].
Qed.

Lemma publish0_ok : is_ok (publish broker0 Locked 5 update0 (Some "work-1") None) = true.
Proof. vm_compute. reflexivity. Qed.

Lemma publish_spec_witness :
  exists b' event, publish broker0 Locked 5 update0 (Some "work-1") None = Ok (b', event)
                   /\ broker_inv b' /\ ev_sequence event = 1.
Proof.
  pose proof publish0_ok as Hok.
  destruct (publish_spec broker0 Locked 5 update0 (Some "work-1") None)
    as [[_ H]|[(_ & H & _)|[(_ & _ & H & _)|(b' & event & Hp & Hi & Hs & _)]]].
  - apply broker0_inv.
  - unfold u64, U64_MAX. lia.
  - apply update0_typed.
  - rewrite H in Hok. discriminate Hok.
  - by destruct H.
  - discriminate H.
  - by exists b', event.
Defined.

Lemma subscribe0_ok :
  exists b1 sub, subscribe_snapshot broker0 Locked (Some "work-1") 10 = Ok (b1, sub).
Proof. eexists _, _. reflexivity. Qed.

Lemma subscribe_snapshot_cut_witness :
  exists b1 sub, subscribe_snapshot broker0 Locked (Some "work-1") 10 = Ok (b1, sub)
                 /\ sub_cutoff sub = 0 /\ sub_cursor sub = 0.
Proof.
  destruct subscribe0_ok as (b1 & sub & Hs). exists b1, sub.
  destruct (subscribe_snapshot_cut broker0 b1 Locked (Some "work-1") 10 sub)
    as (_ & _ & _ & Hc & Hu & _); [apply broker0_inv|done|done|].
  rewrite Hu. by split.
Defined.

Definition subscription0 : ActivitySubscription :=
  mkSubscription [] 0 uuid0 false 0%nat (Some "work-1") 0 None None.

Definition numbered_event (n : Z) : ActivityEvent :=
  mkEvent 1 n uuid0 5 (Some "work-1") None GitPush Started None "".

(** Four events of which the receiver misses the second and third. *)
Definition sent0 : list ActivityEvent :=
  [numbered_event 1] ++ ([numbered_event 2; numbered_event 3] ++ [numbered_event 4]).
Definition outcomes0 : list RecvOutcome :=
  [RecvOk (numbered_event 1); RecvLagged 2; RecvOk (numbered_event 4)].

Lemma recv_accounts_witness :
  exists ds s' reported unreported q,
    recv_all 7 subscription0 outcomes0 = (ds, Ok s')
    /\ sent0 = reported ++ unreported
    /\ covers (Some "work-1") 0 reported ds q
    /\ lag_of s' = zlen unreported
    /\ sub_cursor s' = q.
Proof.
  apply (recv_accounts subscription0 sent0 outcomes0 7).
  - reflexivity.
  - reflexivity.
  - unfold numbered, sent0, u64, U64_MAX. simpl. split_and!; try lia.
    repeat constructor; simpl; lia.
  - unfold sent0, outcomes0. constructor. change 2 with (zlen [numbered_event 2; numbered_event 3]).
    apply delivers_lag; [done|]. repeat constructor.
  - simpl. lia.
Defined.
End BrokerWitness.
