(* ===== verification/Scope.v ===== *)
(** Activity state scopes: src/src/activity/scope.rs.

    A scope serialises its transitions under one lock, so an operation is one
    atomic step.  The clock and the emitter are inputs of the step: [now] is
    the reading of the monotonic clock (nanoseconds) if the step reads it, and
    [answer] is what [try_emit] returns if the step calls it; [None] is a panic
    of theirs, which unwinds the call and poisons the lock it holds.  [sc_emitted]
    is the sequence of updates handed to the emitter. *)

From S2P Require Import Prelude Json Contract.

Inductive ActivityEmitError : Type :=
| EE_Full
| EE_Closed
| EE_InvalidInput
| EE_InvariantViolation.

Inductive ActivityEmission : Type :=
| Emission_NotAttempted
| Emission_Accepted
| Emission_Rejected (error : ActivityEmitError).

Inductive ScopeError : Type :=
| SE_InvalidTransition
| SE_AlreadyTerminal
| SE_InvariantViolation.

Definition is_valid_transition (current next : ActivityState) : bool :=
  match current with
  | Started =>
      match next with
      | WaitingApproval | Running | Completed | Failed | Cancelled => true
      | Started => false
      end
  | WaitingApproval =>
      match next with
      | Running | Failed | Cancelled => true
      | _ => false
      end
  | Running =>
      match next with
      | WaitingApproval | Completed | Failed | Cancelled => true
      | _ => false
      end
  | Completed | Failed | Cancelled => false
  end.

(** [Duration] as nanoseconds; [as_millis] and the saturating conversion. *)
Definition duration_millis_saturating (duration : Z) : Z :=
  Z.min (duration / 1000000) U64_MAX.

Definition elapsed_millis_saturating (started_at now : Z) : Z :=
  let elapsed := default 0 (checked_sub now started_at) in
  duration_millis_saturating elapsed.

(** [None]: the clock panicked. *)
Definition terminal_duration (state : ActivityState) (started_at : Z) (now : option Z) :
    option (option Z) :=
  if is_terminal state
  then now ← now; Some (Some (elapsed_millis_saturating started_at now))
  else Some None.

Section Scope.
Context `{UuidLib}.

Record ActivityScope : Type := mkScope {
  sc_operation : ActivityOperation;
  sc_operation_id : Uuid;
  sc_started_at : Z;
  sc_default_summary : ActivitySummary;
  sc_current : ActivityState;
  sc_terminal : bool;
  sc_poisoned : bool;
  sc_emitted : list ActivityUpdate;
}.

(** [emit]: what the scope reports of the emitter's answer. *)
Definition emit (answer : result ActivityEmitError unit) : ActivityEmission :=
  match answer with
  | Ok _ => Emission_Accepted
  | Err error => Emission_Rejected error
  end.

(** [new_with_identity]: [None] is the [expect] on the start update panicking. *)
Definition scope_new (operation : ActivityOperation) (operation_id : Uuid)
    (default_summary : ActivitySummary) (now : Z) (answer : result ActivityEmitError unit)
    : option (ActivityScope * ActivityEmission) :=
  let started_at := now in
  match update_new operation_id operation Started None default_summary with
  | Err _ => None
  | Ok update =>
      Some (mkScope operation operation_id started_at default_summary Started false false [update],
            emit answer)
  end.

Definition lock_state (s : ActivityScope) : result ScopeError unit :=
  ensure (negb (sc_poisoned s)) SE_InvariantViolation.

(** The guard is dropped while the thread panics. *)
Definition poison (s : ActivityScope) : ActivityScope :=
  mkScope (sc_operation s) (sc_operation_id s) (sc_started_at s) (sc_default_summary s)
    (sc_current s) (sc_terminal s) true (sc_emitted s).

(** What a call comes to: its result, or [None] when it panicked. *)
Definition CallResult : Type := option (result ScopeError ActivityEmission).

Definition transition (s : ActivityScope) (next : ActivityState) (summary : ActivitySummary)
    (now : option Z) (answer : option (result ActivityEmitError unit)) :
    ActivityScope * CallResult :=
  match lock_state s with
  | Err e => (s, Some (Err e))
  | Ok _ =>
      if sc_terminal s then (s, Some (Err SE_AlreadyTerminal))
      else if bool_decide (next = Started) then (s, Some (Err SE_InvalidTransition))
      else if bool_decide (next = sc_current s) then (s, Some (Ok Emission_NotAttempted))
      else if negb (is_valid_transition (sc_current s) next)
      then (s, Some (Err SE_InvalidTransition))
      else
        match terminal_duration next (sc_started_at s) now with
        | None => (poison s, None)
        | Some duration_ms =>
            match update_new (sc_operation_id s) (sc_operation s) next duration_ms summary with
            | Err _ => (s, Some (Err SE_InvariantViolation))
            | Ok update =>
                let s :=
                  mkScope (sc_operation s) (sc_operation_id s) (sc_started_at s)
                    (sc_default_summary s) next (if is_terminal next then true else sc_terminal s)
                    (sc_poisoned s) (sc_emitted s ++ [update]) in
                match answer with
                | None => (poison s, None)
                | Some answer => (s, Some (Ok (emit answer)))
                end
            end
        end
  end.

Definition finish (s : ActivityScope) (terminal_state : ActivityState)
    (summary : ActivitySummary) (now : option Z)
    (answer : option (result ActivityEmitError unit)) : ActivityScope * CallResult :=
  if negb (is_terminal terminal_state) then (s, Some (Err SE_InvalidTransition))
  else transition s terminal_state summary now answer.

Definition running (s : ActivityScope) := transition s Running (sc_default_summary s).
Definition waiting_approval (s : ActivityScope) :=
  transition s WaitingApproval (sc_default_summary s).
Definition complete (s : ActivityScope) := finish s Completed (sc_default_summary s).
Definition fail (s : ActivityScope) := finish s Failed (sc_default_summary s).
Definition cancel (s : ActivityScope) := finish s Cancelled (sc_default_summary s).
Definition complete_with_summary (s : ActivityScope) (summary : ActivitySummary) :=
  finish s Completed summary.
Definition fail_with_summary (s : ActivityScope) (summary : ActivitySummary) :=
  finish s Failed summary.
Definition cancel_with_summary (s : ActivityScope) (summary : ActivitySummary) :=
  finish s Cancelled summary.

(** A call on any clone of the scope's handle. *)
Inductive ScopeCall : Type :=
| CallTransition (next : ActivityState) (summary : ActivitySummary)
| CallFinish (terminal_state : ActivityState) (summary : ActivitySummary).

Definition call (s : ActivityScope) (c : ScopeCall) (now : option Z)
    (answer : option (result ActivityEmitError unit)) : ActivityScope * CallResult :=
  match c with
  | CallTransition next summary => transition s next summary now answer
  | CallFinish terminal_state summary => finish s terminal_state summary now answer
  end.

(** The scopes a program can hold: constructed, then any calls by any holders,
    one at a time. *)
Inductive reachable : ActivityScope -> Prop :=
| reachable_new op id summary now answer s e :
    scope_new op id summary now answer = Some (s, e) -> reachable s
| reachable_call s c now answer :
    reachable s -> reachable (fst (call s c now answer)).

(** * Lemmas *)

Lemma update_new_Ok (id : Uuid) (op : ActivityOperation) (state : ActivityState)
    (d : option Z) (summary : ActivitySummary) :
  (is_terminal state = true <-> d <> None) ->
  update_new id op state d summary = Ok (mkUpdate 1 id op state d summary).
Proof.
  intros Hd. unfold update_new, update_with_schema_version.
  by rewrite (proj2 (validate_update_Ok _)).
Qed.

Lemma terminal_duration_some (state : ActivityState) (t0 : Z) (now : option Z) (d : option Z) :
  terminal_duration state t0 now = Some d -> is_terminal state = true <-> d <> None.
Proof.
  unfold terminal_duration. destruct (is_terminal state); [|by intros [= <-]].
  destruct now; [|done]. by intros [= <-].
Qed.

Lemma valid_transition_facts (current next : ActivityState) :
  is_valid_transition current next = true ->
  next <> Started /\ next <> current /\ is_terminal current = false.
Proof. by destruct current, next. Qed.

(** The update a transition hands to the emitter. *)
Definition update_of (s : ActivityScope) (next : ActivityState) (summary : ActivitySummary)
    (duration : option Z) : ActivityUpdate :=
  mkUpdate ACTIVITY_SCHEMA_VERSION (sc_operation_id s) (sc_operation s) next duration summary.

Definition advance (s : ActivityScope) (next : ActivityState) (summary : ActivitySummary)
    (duration : option Z) : ActivityScope :=
  mkScope (sc_operation s) (sc_operation_id s) (sc_started_at s) (sc_default_summary s) next
    (is_terminal next) (sc_poisoned s) (sc_emitted s ++ [update_of s next summary duration]).

Lemma transition_eq (s : ActivityScope) (next : ActivityState) (summary : ActivitySummary)
    (now : option Z) (answer : option (result ActivityEmitError unit)) :
  sc_poisoned s = false -> sc_terminal s = is_terminal (sc_current s) ->
  transition s next summary now answer =
  if is_terminal (sc_current s) then (s, Some (Err SE_AlreadyTerminal))
  else if is_valid_transition (sc_current s) next
  then match terminal_duration next (sc_started_at s) now with
       | None => (poison s, None)
       | Some duration =>
           match answer with
           | None => (poison (advance s next summary duration), None)
           | Some answer => (advance s next summary duration, Some (Ok (emit answer)))
           end
       end
  else if bool_decide (next = sc_current s /\ next <> Started)
  then (s, Some (Ok Emission_NotAttempted))
  else (s, Some (Err SE_InvalidTransition)).
Proof.
  intros Hp Ht. unfold transition, lock_state. rewrite Hp, Ht. cbn [negb ensure].
  destruct (is_terminal (sc_current s)) eqn:Hterm; [done|].
  destruct (terminal_duration next (sc_started_at s) now) as [d|] eqn:Hd;
    [|by destruct (sc_current s), next].
  rewrite update_new_Ok by (by eapply terminal_duration_some).
  unfold advance, update_of. rewrite Hp. by destruct (sc_current s), next, answer.
Qed.

Lemma transition_poisoned (s : ActivityScope) (next : ActivityState) (summary : ActivitySummary)
    (now : option Z) (answer : option (result ActivityEmitError unit)) :
  sc_poisoned s = true -> transition s next summary now answer = (s, Some (Err SE_InvariantViolation)).
Proof. intros Hp. unfold transition, lock_state. by rewrite Hp. Qed.

(** What every reachable scope satisfies. *)
Record scope_inv (s : ActivityScope) : Prop := {
  si_terminal : sc_terminal s = is_terminal (sc_current s);
  si_first : exists u rest, sc_emitted s = u :: rest /\ upd_state u = Started;
  si_last : exists init u, sc_emitted s = init ++ [u] /\ upd_state u = sc_current s;
  si_steps : forall a u v b, sc_emitted s = a ++ [u; v] ++ b ->
    is_valid_transition (upd_state u) (upd_state v) = true;
  si_updates : Forall (fun u => upd_operation_id u = sc_operation_id s
      /\ upd_operation u = sc_operation s /\ validate_update u = Ok tt) (sc_emitted s);
}.

Lemma scope_new_inv op id summary now answer s e :
  scope_new op id summary now answer = Some (s, e) -> scope_inv s.
Proof.
  unfold scope_new. rewrite update_new_Ok by done. intros [= <- <-].
  split; simpl; try done.
  - by eexists _, [].
  - by eexists [], _.
  - intros [|? [|]] u v b Heq; simplify_list_eq.
  - apply Forall_singleton. split_and!; [done..|]. by apply validate_update_Ok.
Qed.

Lemma advance_inv (s : ActivityScope) (next : ActivityState) (summary : ActivitySummary)
    (duration : option Z) :
  scope_inv s -> is_valid_transition (sc_current s) next = true ->
  (is_terminal next = true <-> duration <> None) -> scope_inv (advance s next summary duration).
Proof.
  intros [Ht (u0 & rest & He & Hu0) (init & ul & Hl & Hul) Hsteps Hall] Hv Hd.
  split; simpl; try done.
  - exists u0, (rest ++ [update_of s next summary duration]). by rewrite He.
  - by eexists _, _.
  - intros a u v b Heq. destruct b as [|w b _] using rev_ind.
    + assert (Hsplit : sc_emitted s ++ [update_of s next summary duration] = (a ++ [u]) ++ [v])
        by (rewrite Heq; by simplify_list_eq).
      apply app_inj_tail in Hsplit as [Hs <-].
      rewrite Hl in Hs. apply app_inj_tail in Hs as [_ <-]. by rewrite Hul.
    + assert (Hsplit : sc_emitted s ++ [update_of s next summary duration] = (a ++ [u; v] ++ b) ++ [w])
        by (rewrite Heq; by simplify_list_eq).
      apply app_inj_tail in Hsplit as [Hs _]. by apply (Hsteps a u v b).
  - apply Forall_app. split; [done|]. apply Forall_singleton. split_and!; [done..|].
    by apply validate_update_Ok.
Qed.

Lemma poison_inv (s : ActivityScope) : scope_inv s -> scope_inv (poison s).
Proof. intros [H1 H2 H3 H4 H5]. by split. Qed.

Lemma transition_inv (s : ActivityScope) (next : ActivityState) (summary : ActivitySummary)
    (now : option Z) (answer : option (result ActivityEmitError unit)) :
  scope_inv s -> scope_inv (fst (transition s next summary now answer)).
Proof.
  intros Hi. destruct (sc_poisoned s) eqn:Hp; [by rewrite transition_poisoned|].
  rewrite transition_eq by (done || apply Hi).
  destruct (is_terminal (sc_current s)); [done|].
  destruct (is_valid_transition (sc_current s) next) eqn:Hv; [|by case_bool_decide].
  destruct (terminal_duration next (sc_started_at s) now) as [d|] eqn:Hd; [|by apply poison_inv].
  pose proof (advance_inv s next summary d Hi Hv (terminal_duration_some _ _ _ _ Hd)) as Ha.
  destruct answer; [done|by apply poison_inv].
Qed.

Lemma reachable_inv (s : ActivityScope) : reachable s -> scope_inv s.
Proof.
  induction 1 as [|s [] now answer _ IH]; [by eapply scope_new_inv|by apply transition_inv|].
  simpl. unfold finish. case_match; [done|by apply transition_inv].
Qed.

(** * Properties *)

(** C36: whatever calls the holders of a scope make, in whatever order, and
    whichever of them panic in the clock or the emitter, the updates it emits form one well-formed life of one operation: the first is
    [Started], each next state is a permitted successor, at most the last is
    terminal, all carry the scope's operation and identity, and each is valid,
    so a duration is present exactly in the terminal one. *)
Theorem scope_emissions_wellformed (s : ActivityScope) :
  reachable s ->
  (exists u rest, sc_emitted s = u :: rest /\ upd_state u = Started)
  /\ (forall a u v b, sc_emitted s = a ++ [u; v] ++ b ->
        is_valid_transition (upd_state u) (upd_state v) = true
        /\ is_terminal (upd_state u) = false)
  /\ (exists init u, sc_emitted s = init ++ [u] /\ upd_state u = sc_current s
        /\ (is_terminal (sc_current s) = true <-> upd_duration_ms u <> None))
  /\ sc_terminal s = is_terminal (sc_current s)
  /\ Forall (fun u => upd_operation_id u = sc_operation_id s
        /\ upd_operation u = sc_operation s /\ validate_update u = Ok tt) (sc_emitted s).
Proof.
  intros Hr%reachable_inv. pose proof Hr as [Ht Hf (init & u & Hl & Hu) Hsteps Hall].
  split_and!; try done.
  - intros a v w b Heq. split; [by eapply Hsteps|].
    by apply (valid_transition_facts _ (upd_state w)), (Hsteps a v w b).
  - exists init, u. split_and!; [done..|]. rewrite Hl in Hall.
    apply Forall_app in Hall as [_ Hall]. apply Forall_cons in Hall as [(_ & _ & Hv) _].
    apply validate_update_Ok in Hv as [_ Hv]. by rewrite <- Hu.
Qed.

(** A scope can be ended, and only once.  While it is neither poisoned nor terminal,
    [fail] and [cancel] take effect at once, and [complete] does unless an
    approval is awaited, whatever the emitter answers (a rejected emission does
    not roll the state back, nor does one that panics); once terminal or poisoned,
    every call is refused and neither the state nor the emitted updates change. *)
Theorem scope_ends_once (s : ActivityScope) (t : Z) (answer : option (result ActivityEmitError unit))
    (summary : ActivitySummary) :
  reachable s ->
  (sc_poisoned s = false -> sc_terminal s = false ->
     let duration := Some (elapsed_millis_saturating (sc_started_at s) t) in
     let ended state :=
       match answer with
       | Some answer => (advance s state summary duration, Some (Ok (emit answer)))
       | None => (poison (advance s state summary duration), None)
       end in
     fail_with_summary s summary (Some t) answer = ended Failed
     /\ cancel_with_summary s summary (Some t) answer = ended Cancelled
     /\ complete_with_summary s summary (Some t) answer
        = if bool_decide (sc_current s = WaitingApproval) then (s, Some (Err SE_InvalidTransition))
          else ended Completed)
  /\ (sc_poisoned s = true \/ sc_terminal s = true -> forall c now,
        fst (call s c now answer) = s /\ exists e, snd (call s c now answer) = Some (Err e)).
Proof.
  intros Hr%reachable_inv. pose proof (si_terminal _ Hr) as Ht. split.
  - intros Hp Hterm. rewrite Ht in Hterm. unfold fail_with_summary, cancel_with_summary, complete_with_summary, finish.
    cbn [is_terminal negb]. rewrite !transition_eq, Hterm by (done || apply Hr).
    by destruct (sc_current s).
  - intros Hend c now.
    assert (forall next sm, exists e, transition s next sm now answer = (s, Some (Err e))) as Hrefused.
    { intros next sm. destruct (sc_poisoned s) eqn:Hp; [eexists; by apply transition_poisoned|].
      destruct Hend as [|Hend]; [done|]. rewrite Ht in Hend. eexists.
      rewrite transition_eq, Hend by (done || apply Hr). done. }
    destruct c as [next sm|next sm]; simpl; [|unfold finish; case_match; [by eauto|]];
      destruct (Hrefused next sm) as [e ->]; by eauto.
Qed.

End Scope.

(** * Witnesses *)

Module ScopeWitness.
Import JsonModel.

Definition scope0 : ActivityScope :=
  mkScope GitPush uuid0 1000 Summary_Empty Started false false
    [mkUpdate 1 uuid0 GitPush Started None Summary_Empty].

Lemma scope0_reachable : reachable scope0.
Proof. by apply (reachable_new GitPush uuid0 Summary_Empty 1000 (Ok tt) _ Emission_Accepted). Qed.

Definition scope1 : ActivityScope :=
  fst (call scope0 (CallFinish Failed Summary_Empty) (Some 5000000) (Some (Err EE_Full))).

Lemma scope1_reachable : reachable scope1.
Proof. apply reachable_call, scope0_reachable. Qed.

(** The emitter panics while it is given the last update. *)
Definition scope2 : ActivityScope :=
  fst (call scope0 (CallFinish Failed Summary_Empty) (Some 5000000) None).

Lemma scope2_reachable : reachable scope2.
Proof. apply reachable_call, scope0_reachable. Qed.

Lemma scope_emissions_wellformed_witness :
  (exists init u, sc_emitted scope1 = init ++ [u] /\ upd_duration_ms u <> None)
  /\ sc_poisoned scope2 = true /\ exists init u, sc_emitted scope2 = init ++ [u] /\ upd_duration_ms u <> None.
Proof.
  split; [|split; [reflexivity|]].
  2: { destruct (scope_emissions_wellformed scope2 scope2_reachable)
         as (_ & _ & (init & u & He & _ & Hd) & _).
       exists init, u. split; [done|]. by apply Hd. }
  destruct (scope_emissions_wellformed scope1 scope1_reachable)
    as (_ & _ & (init & u & He & _ & Hd) & _).
  exists init, u. split; [done|]. by apply Hd.
Defined.

Lemma scope_ends_once_witness :
  snd (cancel_with_summary scope0 Summary_Empty (Some 7) (Some (Ok tt))) = Some (Ok Emission_Accepted)
  /\ fst (call scope2 (CallTransition Running Summary_Empty) (Some 9) (Some (Ok tt))) = scope2.
Proof.
  split.
  - destruct (scope_ends_once scope0 7 (Some (Ok tt)) Summary_Empty scope0_reachable) as [H _].
    destruct (H eq_refl eq_refl) as (_ & -> & _). reflexivity.
  - destruct (scope_ends_once scope2 9 (Some (Ok tt)) Summary_Empty scope2_reachable) as [_ H].
    apply (H (or_introl eq_refl) (CallTransition Running Summary_Empty)).
Defined.
End ScopeWitness.
