(* ===== verification/PendingInteraction.v ===== *)
(** Bounded pending-interaction summaries: src/src/pending_interaction.rs. *)

From S2P Require Import Prelude Json.

Definition MAX_SERIALIZED_BYTES : Z := 4 * 1024.
Definition MAX_COUNT : Z := 64.
Definition MAX_TYPES : Z := 4.
Definition SUMMARY_TTL_SECS : Z := 30.

Inductive SummaryState : Type :=
| SS_None
| SS_Pending
| SS_Unknown
| SS_Unsupported
| SS_Unavailable.

Inductive ProducerKind : Type :=
| RuntimeOwner
| HostRemoteObserver.

Inductive InteractionType : Type :=
| Permission
| Question
| Approval.

#[global] Instance summary_state_eq_dec : EqDecision SummaryState.
Proof. solve_decision. Defined.
#[global] Instance producer_kind_eq_dec : EqDecision ProducerKind.
Proof. solve_decision. Defined.
#[global] Instance interaction_type_eq_dec : EqDecision InteractionType.
Proof. solve_decision. Defined.

Record Summary : Type := mkSummary {
  sum_state : SummaryState;
  sum_count : option Z;
  sum_types : list InteractionType;
  sum_summary_revision : Z;
  sum_observed_at : Z;
  sum_producer_kind : ProducerKind;
  sum_producer_epoch : Z;
  sum_expires_at : Z;
  sum_truncated : bool;
}.

(** The derived [Ord] of [InteractionType] is the order of its variants. *)
Definition type_rank (t : InteractionType) : Z :=
  match t with
  | Permission => 0
  | Question => 1
  | Approval => 2
  end.

(** [Vec::dedup]: drops an element equal to the one kept before it. *)
Fixpoint dedup (l : list InteractionType) : list InteractionType :=
  match l with
  | [] => []
  | a :: rest =>
      match dedup rest with
      | b :: rest' => if bool_decide (a = b) then b :: rest' else a :: b :: rest'
      | [] => [a]
      end
  end.

(** [sort_unstable] then [dedup]. *)
Definition sorted_types (types : list InteractionType) : list InteractionType :=
  dedup (sort_by_key type_rank types).

(** * The derived [Serialize] *)

Definition summary_state_name (s : SummaryState) : string :=
  match s with
  | SS_None => "none"
  | SS_Pending => "pending"
  | SS_Unknown => "unknown"
  | SS_Unsupported => "unsupported"
  | SS_Unavailable => "unavailable"
  end.

Definition producer_kind_name (k : ProducerKind) : string :=
  match k with
  | RuntimeOwner => "runtime_owner"
  | HostRemoteObserver => "host_remote_observer"
  end.

Definition interaction_type_name (t : InteractionType) : string :=
  match t with
  | Permission => "permission"
  | Question => "question"
  | Approval => "approval"
  end.

Definition summary_json (s : Summary) : Json :=
  JObj ([("state", JStr (summary_state_name (sum_state s)))]
        ++ (match sum_count s with Some c => [("count", JInt c)] | None => [] end)
        ++ [ ("types", JArr (map (fun t => JStr (interaction_type_name t)) (sum_types s)))
           ; ("summary_revision", JInt (sum_summary_revision s))
           ; ("observed_at", JInt (sum_observed_at s))
           ; ("producer_kind", JStr (producer_kind_name (sum_producer_kind s)))
           ; ("producer_epoch", JInt (sum_producer_epoch s))
           ; ("expires_at", JInt (sum_expires_at s))
           ; ("truncated", JBool (sum_truncated s)) ]).

(** * Operations *)

Definition count_error : string := "pending interaction count exceeds 64".
Definition revision_error : string := "pending interaction summary revision must be positive".
Definition epoch_error : string := "pending interaction producer epoch must be positive".
Definition too_many_types_error : string := "pending interaction summary contains too many types".
Definition types_error : string :=
  "pending interaction summary types are not unique and sorted".
Definition none_error : string :=
  "none pending interaction summary cannot contain pending items".
Definition expiry_overflow_error : string := "pending interaction summary expiry overflow".
Definition expiry_error : string :=
  "pending interaction summary expiry does not match its TTL".
Definition serialize_error : string := "cannot serialize pending interaction summary".
Definition size_error : string := "pending interaction summary exceeds 4096 bytes".
Definition backwards_error : string :=
  "pending interaction producer epoch cannot move backwards".
Definition revision_overflow_error : string := "pending interaction summary revision overflow".

Section Pending.
Context `{SerdeJson}.

Definition validate (s : Summary) : result string unit :=
  ensure (is_none_or (fun count => count <=? MAX_COUNT) (sum_count s)) count_error ;!
  ensure (0 <? sum_summary_revision s) revision_error ;!
  ensure (0 <? sum_producer_epoch s) epoch_error ;!
  ensure (zlen (sum_types s) <=? MAX_TYPES) too_many_types_error ;!
  ensure (bool_decide (sorted_types (sum_types s) = sum_types s)) types_error ;!
  ensure (negb (bool_decide (sum_state s = SS_None))
          || (bool_decide (sum_types s = [])
              && is_none_or (fun count => count =? 0) (sum_count s)
              && negb (sum_truncated s))) none_error ;!
  let! expected_expiry :=
    ok_or (checked_add (sum_observed_at s) SUMMARY_TTL_SECS) expiry_overflow_error in
  ensure (sum_expires_at s =? expected_expiry) expiry_error ;!
  let! bytes := ok_or (to_vec (summary_json s)) serialize_error in
  ensure (str_len bytes <=? MAX_SERIALIZED_BYTES) size_error.

(** [previous.producer_kind != producer_kind || producer_epoch >= previous.producer_epoch] *)
Definition epoch_advances (previous : Summary) (producer_kind : ProducerKind)
    (producer_epoch : Z) : bool :=
  negb (bool_decide (sum_producer_kind previous = producer_kind))
  || (sum_producer_epoch previous <=? producer_epoch).

Definition observe (previous : option Summary) (state : SummaryState) (count : option Z)
    (types : list InteractionType) (truncated : bool) (producer_kind : ProducerKind)
    (producer_epoch now : Z) : result string Summary :=
  ensure (is_none_or (fun count => count <=? MAX_COUNT) count) count_error ;!
  let bounded_types := sorted_types types in
  let was_truncated := truncated || (MAX_TYPES <? zlen bounded_types) in
  let bounded_types := ztake MAX_TYPES bounded_types in
  (if bool_decide (state = SS_None)
   then ensure (bool_decide (bounded_types = [])
                && is_none_or (fun count => count =? 0) count
                && negb was_truncated) none_error
   else Ok tt) ;!
  match previous with
  | Some previous =>
      validate previous ;!
      ensure (epoch_advances previous producer_kind producer_epoch) backwards_error
  | None => Ok tt
  end ;!
  let semantic_change :=
    is_none_or (fun previous =>
      negb (bool_decide (sum_state previous = state))
      || negb (bool_decide (sum_count previous = count))
      || negb (bool_decide (sum_types previous = bounded_types))
      || negb (Bool.eqb (sum_truncated previous) was_truncated)) previous in
  let! summary_revision :=
    match previous with
    | None => Ok 1
    | Some previous =>
        if semantic_change
        then ok_or (checked_add (sum_summary_revision previous) 1) revision_overflow_error
        else Ok (sum_summary_revision previous)
    end in
  let! expires_at := ok_or (checked_add now SUMMARY_TTL_SECS) expiry_overflow_error in
  let summary := mkSummary state count bounded_types summary_revision now producer_kind
                   producer_epoch expires_at was_truncated in
  validate summary ;!
  Ok summary.

Definition unavailable (previous : option Summary) (producer_kind : ProducerKind)
    (producer_epoch : Z) : result string Summary :=
  let! (summary, semantic_change) :=
    match previous with
    | Some previous =>
        validate previous ;!
        ensure (epoch_advances previous producer_kind producer_epoch) backwards_error ;!
        let semantic_change :=
          negb (bool_decide (sum_state previous = SS_Unavailable))
          || is_some (sum_count previous)
          || negb (bool_decide (sum_types previous = []))
          || sum_truncated previous in
        Ok (mkSummary SS_Unavailable None [] (sum_summary_revision previous)
              (sum_observed_at previous) producer_kind producer_epoch
              (sum_expires_at previous) false,
            semantic_change)
    | None =>
        Ok (mkSummary SS_Unavailable None [] 1 0 producer_kind producer_epoch SUMMARY_TTL_SECS
              false, false)
    end in
  let! summary_revision :=
    if semantic_change
    then ok_or (checked_add (sum_summary_revision summary) 1) revision_overflow_error
    else Ok (sum_summary_revision summary) in
  let summary := mkSummary (sum_state summary) (sum_count summary) (sum_types summary)
                   summary_revision (sum_observed_at summary) (sum_producer_kind summary)
                   (sum_producer_epoch summary) (sum_expires_at summary)
                   (sum_truncated summary) in
  validate summary ;!
  Ok summary.

(** [serde_json::to_value] of a [Summary] is the tree its [Serialize] emits. *)
Definition projection (summary : option Summary) (now : Z) : Json :=
  match summary with
  | None => JObj [("state", JStr "unsupported")]
  | Some summary =>
      if negb (is_ok (validate summary)) then JObj [("state", JStr "unavailable")]
      else if sum_expires_at summary <=? now
      then JObj [ ("state", JStr "unavailable")
                ; ("summary_revision", JInt (sum_summary_revision summary))
                ; ("observed_at", JInt (sum_observed_at summary))
                ; ("producer_kind", JStr (producer_kind_name (sum_producer_kind summary)))
                ; ("producer_epoch", JInt (sum_producer_epoch summary))
                ; ("expires_at", JInt (sum_expires_at summary)) ]
      else summary_json summary
  end.

(** * Lemmas *)

(** What the fields' Rust types say. *)
Definition summary_typed (s : Summary) : Prop :=
  u64 (sum_summary_revision s) /\ u64 (sum_observed_at s) /\ u64 (sum_producer_epoch s)
  /\ u64 (sum_expires_at s) /\ forall c, sum_count s = Some c -> 0 <= c <= 255.

(** The rules a summary must satisfy, without the size of its document. *)
Record well_formed (s : Summary) : Prop := {
  wf_count : forall c, sum_count s = Some c -> c <= MAX_COUNT;
  wf_revision : 0 < sum_summary_revision s;
  wf_epoch : 0 < sum_producer_epoch s;
  wf_types : sorted_types (sum_types s) = sum_types s;
  wf_none : sum_state s = SS_None ->
    sum_types s = [] /\ (sum_count s = None \/ sum_count s = Some 0) /\ sum_truncated s = false;
  wf_expiry : sum_expires_at s = sum_observed_at s + SUMMARY_TTL_SECS;
}.
End Pending.

(** Sorting and dropping duplicates leaves at most one of each kind, in order:
    one of eight lists. *)
Definition type_set (p q a : bool) : list InteractionType :=
  (if p then [Permission] else []) ++ (if q then [Question] else [])
  ++ (if a then [Approval] else []).

Lemma dedup_elem (t : InteractionType) (l : list InteractionType) : t ∈ dedup l <-> t ∈ l.
Proof.
  induction l as [|a l IH]; simpl; [done|].
  destruct (dedup l) as [|b l'] eqn:E.
  - rewrite !elem_of_cons, <- IH. done.
  - case_bool_decide as Hab; [subst b|]; rewrite !elem_of_cons in *; rewrite <- ?IH; tauto.
Qed.

Lemma sorted_types_elem (t : InteractionType) (l : list InteractionType) :
  t ∈ sorted_types l <-> t ∈ l.
Proof. unfold sorted_types. by rewrite dedup_elem, sort_by_key_perm. Qed.

Lemma dedup_sorted (l : list InteractionType) :
  StronglySorted (fun x y => type_rank x <= type_rank y) l ->
  exists p q a, dedup l = type_set p q a.
Proof.
  induction 1 as [|t l Hs (p & q & a & IH) Ht]; [by exists false, false, false|].
  assert (Hmin : forall x, x ∈ type_set p q a -> type_rank t <= type_rank x).
  { intros x Hx. rewrite <- IH, dedup_elem in Hx. rewrite Forall_forall in Ht. auto. }
  cbn [dedup]. rewrite IH. destruct t.
  - exists true, q, a. by destruct p, q, a.
  - destruct p; [specialize (Hmin Permission ltac:(by left)); simpl in Hmin; lia|].
    exists false, true, a. by destruct q, a.
  - destruct p; [specialize (Hmin Permission ltac:(by left)); simpl in Hmin; lia|].
    destruct q; [specialize (Hmin Question ltac:(by left)); simpl in Hmin; lia|].
    exists false, false, true. by destruct a.
Qed.

Lemma sorted_types_set (l : list InteractionType) : exists p q a, sorted_types l = type_set p q a.
Proof. apply dedup_sorted, sort_by_key_sorted. Qed.

Lemma sorted_types_idem (l : list InteractionType) :
  sorted_types (sorted_types l) = sorted_types l.
Proof. destruct (sorted_types_set l) as (p & q & a & ->). by destruct p, q, a. Qed.

Lemma sorted_types_length (l : list InteractionType) : zlen (sorted_types l) <= 3.
Proof. destruct (sorted_types_set l) as (p & q & a & ->). by destruct p, q, a. Qed.

Lemma sorted_types_take (l : list InteractionType) :
  ztake MAX_TYPES (sorted_types l) = sorted_types l.
Proof. destruct (sorted_types_set l) as (p & q & a & ->). by destruct p, q, a. Qed.

Lemma sorted_types_nil (l : list InteractionType) : sorted_types l = [] <-> l = [].
Proof.
  split; [|by intros ->]. destruct l as [|t l]; [done|]. intros E.
  assert (Ht : t ∈ sorted_types (t :: l)) by (apply sorted_types_elem; left).
  rewrite E in Ht. by apply elem_of_nil in Ht.
Qed.

Lemma count_ok (o : option Z) :
  is_none_or (fun count => count =? 0) o = true <-> o = None \/ o = Some 0.
Proof. destruct o; simpl; rewrite ?Z.eqb_eq; naive_solver. Qed.

Section PendingProofs.
Context `{ToVecLaws}.

(** A summary's document is far below the byte limit. *)
Lemma summary_json_size (s : Summary) :
  summary_typed s -> sorted_types (sum_types s) = sum_types s ->
  json_size (summary_json s) <= 400.
Proof.
  intros (Hr & Ho & He & Hx & Hc) Ht.
  pose proof (json_size_u64 _ Hr). pose proof (json_size_u64 _ Ho).
  pose proof (json_size_u64 _ He). pose proof (json_size_u64 _ Hx).
  assert (Hcount : forall c, sum_count s = Some c -> json_size (JInt c) <= 20).
  { intros c Hsc. apply Hc in Hsc. apply json_size_u64. unfold u64, U64_MAX. lia. }
  assert (Htypes : json_size (JArr (map (fun t => JStr (interaction_type_name t)) (sum_types s)))
                   <= 40).
  { destruct (sorted_types_set (sum_types s)) as (p & q & a & Hset).
    rewrite Ht in Hset. rewrite Hset. by destruct p, q, a. }
  assert (Hstate : json_str_size (summary_state_name (sum_state s)) <= 13)
    by by destruct (sum_state s).
  assert (Hkind : json_str_size (producer_kind_name (sum_producer_kind s)) <= 22)
    by by destruct (sum_producer_kind s).
  assert (Htr : json_size (JBool (sum_truncated s)) <= 5) by by destruct (sum_truncated s).
  unfold summary_json. cbn [json_size].
  destruct (sum_count s) as [c|]; [specialize (Hcount c eq_refl)|]; cbn [app map fst snd];
    unfold commas; cbn [length]; unfold sum_z at 1; cbn [fold_right];
    repeat match goal with |- context [json_str_size (String ?c ?k)] =>
      let v := eval vm_compute in (json_str_size (String c k)) in
      change (json_str_size (String c k)) with v end;
    change (json_size (JStr ?x)) with (json_str_size x); lia.
Qed.

Lemma validate_Ok (s : Summary) :
  summary_typed s -> validate s = Ok tt <-> well_formed s.
Proof.
  intros Hty. unfold validate. split.
  - intros Hv.
    repeat match type of Hv with
    | bind _ _ = Ok _ => let E := fresh "E" in apply bind_Ok in Hv as (? & E & Hv)
    end.
    rewrite ?ensure_Ok, ?ok_or_Ok in *. rust_norm. rewrite ?bool_decide_eq_true in *.
    destruct E5 as [-> _]. split; try done.
    + intros c Hc. rewrite Hc in E. simpl in E. by apply Z.leb_le.
    + intros Hn. destruct E4 as [E4|[[Ht Hc] Htr]]; [by rewrite bool_decide_eq_false in E4|].
      apply count_ok in Hc. done.
  - intros [Hc Hr He Ht Hn Hx].
    pose proof (sorted_types_length (sum_types s)) as Hlen. rewrite Ht in Hlen.
    destruct (to_vec_compact (summary_json s)) as (b & Hb & Hbl).
    pose proof (summary_json_size s Hty Ht) as Hsize.
    assert (Hexp : checked_add (sum_observed_at s) SUMMARY_TTL_SECS = Some (sum_expires_at s)).
    { apply checked_add_Some. destruct Hty as (_ & _ & _ & Hty & _). unfold u64 in Hty. lia. }
    rewrite Hexp, Hb. cbn [ok_or bind].
    rewrite (proj2 (Z.ltb_lt 0 _)), (proj2 (Z.ltb_lt 0 _)), (proj2 (Z.leb_le (zlen _) _)),
      (proj2 (bool_decide_eq_true _)), Z.eqb_refl, (proj2 (Z.leb_le (str_len b) _))
      by (done || unfold MAX_TYPES, MAX_SERIALIZED_BYTES; lia).
    assert (Hcnt : is_none_or (fun count => count <=? MAX_COUNT) (sum_count s) = true).
    { apply is_none_or_true. intros c Hsc. by apply Z.leb_le, Hc. }
    rewrite Hcnt. simpl.
    case_bool_decide as Hst; simpl; [|done].
    destruct (Hn Hst) as (-> & Hc0%count_ok & ->). by rewrite Hc0.
Qed.
(** The semantic contents of a summary: what a revision counts changes of. *)
Definition contents (s : Summary) : SummaryState * option Z * list InteractionType * bool :=
  (sum_state s, sum_count s, sum_types s, sum_truncated s).

Lemma semantic_change_eq (p : Summary) (state : SummaryState) (count : option Z)
    (types : list InteractionType) (truncated : bool) :
  negb (bool_decide (sum_state p = state)) || negb (bool_decide (sum_count p = count))
  || negb (bool_decide (sum_types p = types)) || negb (Bool.eqb (sum_truncated p) truncated)
  = negb (bool_decide (contents p = (state, count, types, truncated))).
Proof.
  unfold contents. rewrite <- !negb_andb. f_equal. apply eq_true_iff_eq.
  rewrite !andb_true_iff, !bool_decide_eq_true, Bool.eqb_true_iff.
  split; [by intros [[[-> ->] ->] ->]|by intros [= -> -> -> ->]].
Qed.

Lemma empty_change_eq (p : Summary) :
  negb (bool_decide (sum_state p = SS_Unavailable)) || is_some (sum_count p)
  || negb (bool_decide (sum_types p = [])) || sum_truncated p
  = negb (bool_decide (contents p = (SS_Unavailable, None, [], false))).
Proof.
  unfold contents. destruct p as [st c ty r o k e x tr]; simpl.
  destruct (decide ((st, c, ty, tr) = (SS_Unavailable, None, [], false))) as [[= -> -> -> ->]|Hne];
    [done|].
  rewrite (bool_decide_eq_false_2 _ Hne).
  destruct c, tr; rewrite ?orb_true_r; simpl; rewrite ?orb_true_r; try done.
  rewrite !orb_false_r. repeat case_bool_decide; simpl; try done. by subst.
Qed.

(** The revision an observation gets. *)
Definition next_revision (previous : option Summary)
    (new : SummaryState * option Z * list InteractionType * bool) : Z :=
  match previous with
  | None => 1
  | Some p => if bool_decide (contents p = new) then sum_summary_revision p
              else sum_summary_revision p + 1
  end.

(** When an observation is accepted. *)
Record observable (previous : option Summary) (state : SummaryState) (count : option Z)
    (types : list InteractionType) (truncated : bool) (producer_kind : ProducerKind)
    (producer_epoch now : Z) : Prop := {
  ob_count : forall c, count = Some c -> c <= MAX_COUNT;
  ob_none : state = SS_None ->
    types = [] /\ (count = None \/ count = Some 0) /\ truncated = false;
  ob_previous : forall p, previous = Some p -> well_formed p
    /\ (sum_producer_kind p = producer_kind -> sum_producer_epoch p <= producer_epoch);
  ob_revision : next_revision previous (state, count, sorted_types types, truncated) <= U64_MAX;
  ob_now : now + SUMMARY_TTL_SECS <= U64_MAX;
  ob_epoch : 0 < producer_epoch;
}.

Lemma epoch_advances_true (p : Summary) (k : ProducerKind) (epoch : Z) :
  epoch_advances p k epoch = true <-> (sum_producer_kind p = k -> sum_producer_epoch p <= epoch).
Proof.
  unfold epoch_advances. rewrite orb_true_iff, negb_true_iff, bool_decide_eq_false, Z.leb_le.
  destruct (decide (sum_producer_kind p = k)); naive_solver.
Qed.

Lemma previous_step_Ok (previous : option Summary) (k : ProducerKind) (epoch : Z) :
  (forall p, previous = Some p -> summary_typed p) ->
  match previous with
  | Some p => validate p ;! ensure (epoch_advances p k epoch) backwards_error
  | None => Ok tt
  end = Ok tt <->
  forall p, previous = Some p -> well_formed p
    /\ (sum_producer_kind p = k -> sum_producer_epoch p <= epoch).
Proof.
  intros Hty. destruct previous as [p|]; [|naive_solver].
  rewrite bind_Ok. split.
  - intros ([] & Hv & He%ensure_Ok) p' [= <-].
    rewrite epoch_advances_true in He. split; [by apply validate_Ok, Hv; apply Hty|done].
  - intros Hp. destruct (Hp p eq_refl) as [Hw He]. exists tt.
    rewrite ensure_Ok, epoch_advances_true. split; [|done]. by apply validate_Ok; [apply Hty|].
Qed.

(** C37: [observe] accepts exactly the observations the contract allows, and
    returns the summary they describe: kinds sorted and without duplicates,
    freshness derived from [now], and the revision advanced by one when, and
    only when, the semantic contents changed. The result satisfies every rule
    a reader checks. *)
Theorem observe_spec (previous : option Summary) (state : SummaryState) (count : option Z)
    (types : list InteractionType) (truncated : bool) (producer_kind : ProducerKind)
    (producer_epoch now : Z) (s : Summary) :
  (forall p, previous = Some p -> summary_typed p) -> u64 producer_epoch -> u64 now ->
  (forall c, count = Some c -> 0 <= c <= 255) ->
  observe previous state count types truncated producer_kind producer_epoch now = Ok s <->
  observable previous state count types truncated producer_kind producer_epoch now
  /\ s = mkSummary state count (sorted_types types)
           (next_revision previous (state, count, sorted_types types, truncated))
           now producer_kind producer_epoch (now + SUMMARY_TTL_SECS) truncated
  /\ well_formed s.
Proof.
  intros Hprev Hepoch Hnow Hcount. unfold observe. cbv zeta.
  rewrite sorted_types_take.
  pose proof (sorted_types_length types) as Hlen.
  rewrite (proj2 (Z.ltb_ge MAX_TYPES _)), orb_false_r by (unfold MAX_TYPES; lia).
  set (new := (state, count, sorted_types types, truncated)).
  set (s0 := mkSummary state count (sorted_types types) (next_revision previous new)
               now producer_kind producer_epoch (now + SUMMARY_TTL_SECS) truncated).
  assert (Hrev : forall r : Z,
    match previous with
    | None => Ok 1
    | Some p =>
        if is_none_or (fun p => negb (bool_decide (sum_state p = state))
             || negb (bool_decide (sum_count p = count))
             || negb (bool_decide (sum_types p = sorted_types types))
             || negb (Bool.eqb (sum_truncated p) truncated)) previous
        then ok_or (checked_add (sum_summary_revision p) 1) revision_overflow_error
        else Ok (sum_summary_revision p)
    end = Ok r <-> r = next_revision previous new /\ next_revision previous new <= U64_MAX).
  { intros r. destruct previous as [p|]; simpl; [|unfold U64_MAX; naive_solver lia].
    rewrite semantic_change_eq. fold new.
    pose proof (Hprev p eq_refl) as (Hr & _). unfold u64 in Hr.
    case_bool_decide; simpl; [naive_solver lia|].
    rewrite ok_or_Ok, checked_add_Some. naive_solver lia. }
  assert (Hnone : (if bool_decide (state = SS_None)
     then ensure (bool_decide (sorted_types types = [])
                  && is_none_or (fun count => count =? 0) count && negb truncated) none_error
     else Ok tt) = Ok tt <->
     (state = SS_None -> types = [] /\ (count = None \/ count = Some 0) /\ truncated = false)).
  { case_bool_decide; [|naive_solver]. rewrite ensure_Ok, !andb_true_iff, bool_decide_eq_true,
      sorted_types_nil, count_ok, negb_true_iff. naive_solver. }
  assert (Hty : 0 <= next_revision previous new <= U64_MAX ->
                now + SUMMARY_TTL_SECS <= U64_MAX -> summary_typed s0).
  { intros Hr Hx. unfold summary_typed, u64, SUMMARY_TTL_SECS in *. simpl. naive_solver lia. }
  assert (Hrpos : 0 <= next_revision previous new).
  { unfold next_revision. destruct previous as [p|]; [|lia].
    pose proof (Hprev p eq_refl) as (Hr & _). unfold u64 in Hr. destruct (bool_decide (contents p = new)); lia. }
  split.
  - intros Ho.
    apply bind_Ok in Ho as ([] & Hc%ensure_Ok & Ho). apply bind_Ok in Ho as ([] & Hn & Ho).
    apply bind_Ok in Ho as ([] & Hp & Ho). apply bind_Ok in Ho as (r & Hr & Ho).
    apply bind_Ok in Ho as (x & Hx & Ho). apply bind_Ok in Ho as ([] & Hv & Ho).
    pose proof (proj1 Hnone Hn) as Hn2.
    pose proof (proj1 (previous_step_Ok _ producer_kind producer_epoch Hprev) Hp) as Hp2.
    apply Hrev in Hr as [-> Hr]. apply ok_or_Ok, checked_add_Some in Hx as [-> Hx].
    injection Ho as <-. fold s0 in Hv |- *.
    assert (Hw : well_formed s0) by by apply validate_Ok; [apply Hty|].
    split_and!; try done. split; try done; [|apply Hw].
    intros c ->. simpl in Hc. by apply Z.leb_le.
  - intros ([Hc Hn Hp Hr Hx He] & -> & Hw). fold s0 in Hw |- *.
    rewrite bind_Ok. exists tt. rewrite ensure_Ok, is_none_or_true.
    split; [intros c Hsc; by apply Z.leb_le, Hc|].
    rewrite bind_Ok. exists tt. split; [by apply Hnone|].
    rewrite bind_Ok. exists tt. split; [exact (proj2 (previous_step_Ok _ producer_kind producer_epoch Hprev) Hp)|].
    rewrite bind_Ok. eexists. split; [by apply Hrev|].
    rewrite (proj2 (checked_add_Some now _ _)) by done. cbn [ok_or bind]. fold s0.
    by rewrite (proj2 (validate_Ok s0 (Hty (conj Hrpos Hr) Hx))).
Qed.

(** The projection never invents the absence of pending work: it says
    ["none"] only of a summary that is present, well formed, fresh at [now]
    and itself an observation of nothing pending; an absent, invalid or stale
    summary never reads as ["none"]. *)
Theorem projection_none_sound (summary : option Summary) (now : Z) (entries : list (string * Json)) :
  (forall s, summary = Some s -> summary_typed s) ->
  projection summary now = JObj entries -> ("state", JStr "none") ∈ entries ->
  exists s, summary = Some s /\ well_formed s /\ now < sum_observed_at s + SUMMARY_TTL_SECS
    /\ sum_state s = SS_None /\ sum_types s = [] /\ (sum_count s = None \/ sum_count s = Some 0).
Proof.
  intros Hty Hp Hin. destruct summary as [s|]; simpl in Hp.
  2: { injection Hp as <-. apply list_elem_of_singleton in Hin. discriminate Hin. }
  specialize (Hty s eq_refl). exists s. split; [done|].
  destruct (validate s) as [[]|] eqn:Hv; simpl in Hp.
  2: { injection Hp as <-. apply list_elem_of_singleton in Hin. discriminate Hin. }
  apply validate_Ok in Hv as Hw; [|done].
  destruct (Z.leb_spec (sum_expires_at s) now) as [Hs|Hs].
  { injection Hp as <-. rewrite !elem_of_cons, elem_of_nil in Hin. naive_solver. }
  rewrite (wf_expiry _ Hw) in Hs. unfold summary_json in Hp. injection Hp as <-.
  assert (Hst : sum_state s = SS_None).
  { apply elem_of_cons in Hin. destruct Hin as [Hin|Hin].
    - destruct (sum_state s); simplify_eq/=; done.
    - exfalso. destruct (sum_count s); simpl in Hin; rewrite !elem_of_cons, elem_of_nil in Hin; naive_solver. }
  destruct (wf_none _ Hw Hst) as (? & ? & ?). split_and!; done.
Qed.

(** A failed read never passes for an observation: [unavailable] keeps the
    freshness of the previous summary (so it still expires when that did),
    carries no count and no kinds, and advances the revision by one exactly
    when the summary was not already an empty [unavailable]. *)
Theorem unavailable_spec (previous : option Summary) (k : ProducerKind) (epoch : Z) (s : Summary) :
  (forall p, previous = Some p -> summary_typed p) -> u64 epoch ->
  unavailable previous k epoch = Ok s ->
  well_formed s /\ contents s = (SS_Unavailable, None, [], false)
  /\ sum_producer_kind s = k /\ sum_producer_epoch s = epoch
  /\ sum_observed_at s = match previous with Some p => sum_observed_at p | None => 0 end
  /\ sum_summary_revision s = next_revision previous (SS_Unavailable, None, [], false)
  /\ forall p, previous = Some p -> sum_producer_kind p = k -> sum_producer_epoch p <= epoch.
Proof.
  intros Hprev Hep Hu. unfold unavailable in Hu.
  apply bind_Ok in Hu as ([s1 ch] & Hs1 & Hu). apply bind_Ok in Hu as (r & Hr & Hu).
  apply bind_Ok in Hu as ([] & Hv & [= <-]).
  assert (Hs : (forall p, previous = Some p -> sum_producer_kind p = k -> sum_producer_epoch p <= epoch)
    /\ s1 = mkSummary SS_Unavailable None []
         (match previous with Some p => sum_summary_revision p | None => 1 end)
         (match previous with Some p => sum_observed_at p | None => 0 end) k epoch
         (match previous with Some p => sum_expires_at p | None => SUMMARY_TTL_SECS end) false
    /\ r = next_revision previous (SS_Unavailable, None, [], false) /\ u64 r).
  { destruct previous as [p|].
    - specialize (Hprev p eq_refl). apply bind_Ok in Hs1 as ([] & _ & Hs1).
      apply bind_Ok in Hs1 as ([] & He%ensure_Ok & [= <- <-]).
      rewrite epoch_advances_true in He. split_and!; [naive_solver|done|..].
      + rewrite empty_change_eq in Hr. revert Hr. simpl.
        case_bool_decide; simpl; [naive_solver|].
        rewrite ok_or_Ok, checked_add_Some. naive_solver.
      + destruct Hprev as (Hrp & _). unfold u64 in *. case_match; simplify_eq/=; [|lia].
        apply ok_or_Ok, checked_add_Some in Hr. lia.
    - injection Hs1 as <- <-. injection Hr as <-. unfold u64, U64_MAX. split_and!; try done; lia. }
  destruct Hs as (He & -> & -> & Hru). simpl in *.
  assert (Hw : well_formed (mkSummary SS_Unavailable None []
      (next_revision previous (SS_Unavailable, None, [], false))
      (match previous with Some p => sum_observed_at p | None => 0 end) k epoch
      (match previous with Some p => sum_expires_at p | None => SUMMARY_TTL_SECS end) false)).
  { apply validate_Ok; [|done]. destruct previous as [p|].
    - destruct (Hprev p eq_refl) as (? & ? & ? & ? & ?). by split_and!.
    - unfold summary_typed, u64, U64_MAX, SUMMARY_TTL_SECS in *. simpl. split_and!; try done; lia. }
  by split_and!.
Qed.
End PendingProofs.

(** * Witnesses *)

Module PendingWitness.
Import JsonModel.

#[local] Instance codec3 : SerdeJson := codec [].

Definition previous0 : Summary :=
  mkSummary SS_Pending (Some 2) [Permission; Question] 4 100 RuntimeOwner 3 130 false.

Lemma previous0_typed p : Some previous0 = Some p -> summary_typed p.
Proof.
  intros [= <-]. unfold summary_typed, u64, U64_MAX. simpl.
  split_and!; try lia. intros c [= <-]; lia.
Qed.

Lemma observe_spec_witness :
  observable (Some previous0) SS_None None [] false RuntimeOwner 3 120
  /\ well_formed (mkSummary SS_None None [] 5 120 RuntimeOwner 3 150 false).
Proof.
  destruct (proj1 (observe_spec (Some previous0) SS_None None [] false RuntimeOwner 3 120
                     (mkSummary SS_None None [] 5 120 RuntimeOwner 3 150 false)
                     previous0_typed ltac:(unfold u64, U64_MAX; lia)
                     ltac:(unfold u64, U64_MAX; lia) ltac:(done)))
    as (Ho & _ & Hw); [vm_compute; reflexivity|by split].
Defined.

Definition idle0 : Summary := mkSummary SS_None None [] 5 120 RuntimeOwner 3 150 false.

Lemma idle0_typed p : Some idle0 = Some p -> summary_typed p.
Proof.
  intros [= <-]. unfold summary_typed, u64, U64_MAX. simpl. split_and!; try lia. done.
Qed.

Lemma idle0_projection : exists entries,
  projection (Some idle0) 149 = JObj entries /\ ("state", JStr "none") ∈ entries.
Proof. eexists. split; [vm_compute; reflexivity|left]. Qed.

Lemma projection_none_sound_witness :
  exists s, Some idle0 = Some s /\ well_formed s /\ 149 < sum_observed_at s + SUMMARY_TTL_SECS
    /\ sum_state s = SS_None /\ sum_types s = [] /\ (sum_count s = None \/ sum_count s = Some 0).
Proof.
  destruct idle0_projection as (entries & Hp & Hin).
  exact (projection_none_sound (Some idle0) 149 entries idle0_typed Hp Hin).
Defined.

Lemma unavailable0 : unavailable (Some previous0) RuntimeOwner 3
  = Ok (mkSummary SS_Unavailable None [] 5 100 RuntimeOwner 3 130 false).
Proof. vm_compute. reflexivity. Qed.

Lemma unavailable_spec_witness :
  exists s, unavailable (Some previous0) RuntimeOwner 3 = Ok s
            /\ sum_observed_at s = 100 /\ contents s = (SS_Unavailable, None, [], false).
Proof.
  eexists. split; [exact unavailable0|].
  destruct (unavailable_spec (Some previous0) RuntimeOwner 3 _
    previous0_typed ltac:(unfold u64, U64_MAX; lia) unavailable0)
    as (_ & Hc & _ & _ & Ho & _).
  split; [exact Ho|exact Hc].
Defined.
End PendingWitness.
