(* ===== verification/Requests.v ===== *)
(** The typed request boundary of task operations:
    src/src/orchestration/requests.rs (and [codex_continuation] of
    src/src/codex_app_server.rs, which it calls).

    Arguments are a [serde_json::Value], through [Json.JsonValue]; uuids through
    [Json.UuidLib].  A borrowed [&str] of the arguments is its contents.  An
    error is the outermost message of the [anyhow] error.  The model has the
    [network] feature on. *)

From S2P Require Import Prelude Json.

(** * Data *)

Inductive Backend : Type :=
| Codex
| OpenCode
| DevinAcp
| DevinCloud.

Inductive Operation : Type :=
| OpStatus
| TaskStart
| TaskGet
| TaskList
| TaskControl.

Inductive ControlAction : Type :=
| Steer
| Resume
| Interrupt
| Answer.

Inductive ExecutionLocality : Type :=
| HostLocal
| Hosted.

Inductive ResumeSemantics : Type :=
| ReconcileThread
| ResumeMessage
| AgentLoadSession.

Inductive InterruptSemantics : Type :=
| CancelTurn
| AbortSession
| TerminateHosted.

Inductive InputWait : Type :=
| ApprovalOnly
| UserInput.

#[global] Instance backend_eq_dec : EqDecision Backend.
Proof. solve_decision. Defined.
#[global] Instance control_action_eq_dec : EqDecision ControlAction.
Proof. solve_decision. Defined.
#[global] Instance execution_locality_eq_dec : EqDecision ExecutionLocality.
Proof. solve_decision. Defined.

Record BackendCapabilities : Type := mkCapabilities {
  cap_execution : ExecutionLocality;
  cap_resume : option ResumeSemantics;
  cap_interrupt : option InterruptSemantics;
  cap_interaction_answer : bool;
  cap_input_wait : InputWait;
}.

Definition MAX_TASK_INPUT_BYTES : Z := 1024 * 1024.
Definition MAX_ARGUMENT_BYTES : Z := 256.
Definition MAX_INTERACTION_ANSWER_BYTES : Z := 16 * 1024.
Definition MAX_REPOS : Z := 16.
Definition DEFAULT_TASK_LIST_LIMIT : Z := 50.
Definition MAX_TASK_LIST_LIMIT : Z := 128.

Definition supports_control_action (c : BackendCapabilities) (action : ControlAction) : bool :=
  match action with
  | Steer => true
  | Resume => is_some (cap_resume c)
  | Interrupt => is_some (cap_interrupt c)
  | Answer => cap_interaction_answer c
  end.

Definition capabilities (b : Backend) : BackendCapabilities :=
  match b with
  | Codex => mkCapabilities HostLocal (Some ReconcileThread) (Some CancelTurn) false ApprovalOnly
  | OpenCode => mkCapabilities HostLocal (Some ResumeMessage) (Some AbortSession) true ApprovalOnly
  | DevinAcp =>
      mkCapabilities HostLocal (Some AgentLoadSession) (Some AbortSession) false ApprovalOnly
  | DevinCloud => mkCapabilities Hosted (Some ResumeMessage) (Some TerminateHosted) false UserInput
  end.

Definition action_label (b : Backend) : string :=
  match b with
  | Codex => "Codex"
  | OpenCode => "OpenCode"
  | DevinAcp => "Devin"
  | DevinCloud => "Devin"
  end.

Definition control_action_as_str (a : ControlAction) : string :=
  match a with
  | Steer => "steer"
  | Resume => "resume"
  | Interrupt => "interrupt"
  | Answer => "answer"
  end.

(** The prefix and the action of an operation's compatibility label. *)
Definition operation_name (b : Backend) (op : Operation) : string :=
  let prefix :=
    match b with
    | Codex => "codex"
    | OpenCode => "opencode"
    | DevinAcp => "devin"
    | DevinCloud => "devin_cloud"
    end in
  let action :=
    match op with
    | OpStatus => "status"
    | TaskStart => "task_start"
    | TaskGet => "task_get"
    | TaskList => "task_list"
    | TaskControl => "task_control"
    end in
  prefix +:+ "_" +:+ action.

(** * Argument validators *)

(** [value.contains('\0')] *)
Definition nul_free (value : string) : bool := negb (str_contains 0 value).

Definition control_free (value : string) : bool := negb (existsb is_control (chars value)).

Definition validate_task_input (value label : string) : result string unit :=
  ensure (negb (str_is_empty value) && (str_len value <=? MAX_TASK_INPUT_BYTES) && nul_free value)
    (label +:+ " must contain 1..=1048576 NUL-free UTF-8 bytes").

Definition validate_argument (value label : string) : result string unit :=
  ensure (negb (str_is_empty value) && (str_len value <=? MAX_ARGUMENT_BYTES) && nul_free value)
    (label +:+ " must contain 1..=256 NUL-free UTF-8 bytes").

Definition validate_argument_control_free (value label : string) : result string unit :=
  ensure (negb (str_is_empty value) && (str_len value <=? MAX_ARGUMENT_BYTES)
          && control_free value)
    (label +:+ " must contain 1..=256 control-free UTF-8 bytes").

Definition devin_modes : list string :=
  ["normal"; "fast"; "lite"; "ultra"; "fusion"; "swe-2-medium"; "swe-2-high"; "swe-2-max"].

Definition one_of (value : string) (names : list string) : bool := existsb (String.eqb value) names.

Definition validate_devin_mode (value : string) : result string unit :=
  ensure (one_of value devin_modes)
    "devin_mode must be one of normal, fast, lite, ultra, fusion, swe-2-medium, swe-2-high, swe-2-max".

Definition is_swe2_mode (value : string) : bool :=
  one_of value ["swe-2-medium"; "swe-2-high"; "swe-2-max"].

Definition validate_swe_selection (devin_mode swe_tier : option string) : result string unit :=
  match swe_tier with
  | None => Ok tt
  | Some tier =>
      ensure (one_of tier ["promo"; "priority"])
        "swe_tier must be one of promo, priority" ;!
      ensure (is_some_and is_swe2_mode devin_mode)
        "swe_tier is only valid with devin_mode swe-2-medium, swe-2-high, or swe-2-max"
  end.

(** [if let Some(x) = o { f(x)?; }] *)
Definition if_some {A : Type} (o : option A) (f : A -> result string unit) : result string unit :=
  match o with
  | None => Ok tt
  | Some a => f a
  end.

(** [iter().map(f).collect::<Result<_>>()]: the first error stops it. *)
Fixpoint try_map {A B : Type} (f : A -> result string B) (l : list A) : result string (list B) :=
  match l with
  | [] => Ok []
  | a :: rest =>
      let! b := f a in
      let! bs := try_map f rest in
      Ok (b :: bs)
  end.

Section Requests.
Context `{UuidLib} {V : Type} `{JsonValue V}.

Inductive CodexContinuation : Type :=
| ContNew
| ContPreviousTask (task_id : Uuid).

Record CodexStartOptions : Type := mkCodexStart {
  codex_model : string;
  codex_effort : string;
  codex_cont : CodexContinuation;
}.

Record OpenCodeStartOptions : Type := mkOpenCodeStart {
  oc_model : option string;
  oc_agent : option string;
  oc_variant : option string;
  oc_workspace_requirement : option string;
}.

Record DevinAcpStartOptions : Type := mkDevinAcpStart {
  acp_model : option string;
  acp_agent : option string;
  acp_cloud : bool;
}.

Record DevinCloudStartOptions : Type := mkDevinCloudStart {
  cloud_title : option string;
  cloud_devin_mode : option string;
  cloud_swe_tier : option string;
  cloud_repos : list string;
  cloud_max_acu_limit : option Z;
}.

Inductive StartOptions : Type :=
| StartCodex (o : CodexStartOptions)
| StartOpenCode (o : OpenCodeStartOptions)
| StartDevinAcp (o : DevinAcpStartOptions)
| StartDevinCloud (o : DevinCloudStartOptions).

Record TaskStartRequest : Type := mkTaskStart {
  start_operation_id : string;
  start_options : StartOptions;
}.

Record TaskGetRequest : Type := mkTaskGet {
  get_task_id : string;
  get_after_revision : option Z;
  get_wait_ms : Z;
}.

Record TaskControlRequest : Type := mkTaskControl {
  ctl_task_id : string;
  ctl_operation_id : string;
  ctl_action : ControlAction;
  ctl_interaction_id : option string;
}.

Inductive TaskRequest : Type :=
| ReqStatus
| ReqStart (r : TaskStartRequest)
| ReqGet (r : TaskGetRequest)
| ReqList
| ReqControl (r : TaskControlRequest).

Definition execution_locality (o : StartOptions) : ExecutionLocality :=
  match o with
  | StartDevinCloud _ => Hosted
  | StartDevinAcp options => if acp_cloud options then Hosted else HostLocal
  | _ => HostLocal
  end.

(** * Argument accessors *)

Definition required_string (args : V) (key : string) : result string string :=
  ok_or (v ← v_get args key; v_as_str v) ("missing or invalid " +:+ key).

Definition required_uuid (args : V) (key : string) : result string string :=
  let! value := required_string args key in
  let! _ := ok_or (uuid_parse_str value) (key +:+ " must be a UUID") in
  Ok value.

Definition optional_string (args : V) (key : string) : result string (option string) :=
  match v_get args key with
  | None => Ok None
  | Some value =>
      if v_is_null value then Ok None
      else ok_or (Some <$> v_as_str value) (key +:+ " must be a string")
  end.

Definition optional_u64_strict (args : V) (key : string) : result string (option Z) :=
  match v_get args key with
  | None => Ok None
  | Some value =>
      ok_or (Some <$> v_as_u64 value) (key +:+ " must be a non-negative integer")
  end.

Definition optional_u64_lenient (args : V) (key : string) : result string (option Z) :=
  match v_get args key with
  | None => Ok None
  | Some value =>
      if v_is_null value then Ok None
      else ok_or (Some <$> v_as_u64 value) (key +:+ " must be a non-negative integer")
  end.

(** [max] is 16 at the only call, which the message spells out. *)
Definition optional_string_list (args : V) (key : string) (max : Z) (max_text : string) :
    result string (list string) :=
  match v_get args key with
  | None => Ok []
  | Some value =>
      if v_is_null value then Ok []
      else match v_as_array value with
      | Some items =>
          ensure (zlen items <=? max) (key +:+ " accepts at most " +:+ max_text +:+ " entries") ;!
          try_map (fun item =>
            let! value := ok_or (v_as_str item) (key +:+ " entries must be strings") in
            validate_argument_control_free value key ;!
            Ok value) items
      | None => Err (key +:+ " must be an array of strings")
      end
  end.

Definition continuation_error : string :=
  "continuation must be {type:new} or {type:previous_task,task_id:UUID}".

(** [codex_continuation]; [serde_json::from_value] of the exact objects the
    check lets through reads the tag and the uuid. *)
Definition codex_continuation (args : V) : result string CodexContinuation :=
  match v_get args "continuation" with
  | None => Ok ContNew
  | Some value =>
      let! len := ok_or (v_object_len value) "continuation must be an object" in
      let tag := (t ← v_get value "type"; v_as_str t) in
      let exact :=
        match tag with
        | Some t =>
            if String.eqb t "new" then len =? 1
            else if String.eqb t "previous_task"
            then (len =? 2) && is_some (v_get value "task_id")
            else false
        | None => false
        end in
      ensure exact continuation_error ;!
      if bool_decide (tag = Some "new") then Ok ContNew
      else
        let! task_id :=
          ok_or (t ← v_get value "task_id"; s ← v_as_str t; uuid_parse_str s)
            continuation_error in
        Ok (ContPreviousTask task_id)
  end.

(** * Parsing *)

(** The [match backend] of [parse_task_start] that reads and checks the options. *)
Definition parse_start_options (backend : Backend) (args : V) (task : string) :
    result string StartOptions :=
  match backend with
  | Codex =>
      let! model := required_string args "model" in
      let! effort := required_string args "effort" in
      validate_task_input task "task" ;!
      validate_argument model "model" ;!
      validate_argument effort "effort" ;!
      let! continuation := codex_continuation args in
      Ok (StartCodex (mkCodexStart model effort continuation))
  | OpenCode =>
      ensure (is_none (v_get args "continuation")) "unsupported OpenCode task continuation" ;!
      let! model := optional_string args "model" in
      let! agent := optional_string args "agent" in
      let! variant := optional_string args "variant" in
      let! workspace_requirement := optional_string args "workspace_requirement" in
      validate_task_input task "task" ;!
      if_some model (fun model =>
        validate_argument model "model" ;!
        ensure (str_contains 47 model)
          "model must be a provider/model pair such as anthropic/claude-sonnet-4") ;!
      if_some agent (fun agent => validate_argument agent "agent") ;!
      if_some variant (fun variant => validate_argument variant "variant") ;!
      ensure (is_none_or (fun value => String.eqb value "managed_commands")
                workspace_requirement)
        "workspace_requirement must be managed_commands" ;!
      Ok (StartOpenCode (mkOpenCodeStart model agent variant workspace_requirement))
  | DevinAcp =>
      ensure (is_none (v_get args "continuation")) "unsupported Devin task continuation" ;!
      let! model := optional_string args "model" in
      let! agent := optional_string args "agent" in
      let! cloud :=
        match v_get args "cloud" with
        | None => Ok false
        | Some value => ok_or (v_as_bool value) "cloud must be a boolean"
        end in
      validate_task_input task "task" ;!
      if_some model (fun model => validate_argument model "model") ;!
      if_some agent (fun agent => validate_argument agent "agent") ;!
      let options := StartDevinAcp (mkDevinAcpStart model agent cloud) in
      ensure (bool_decide (execution_locality options = HostLocal)
              || (is_none model && is_none agent))
        "model and agent are ignored by `devin acp --cloud`; omit them when cloud is true" ;!
      Ok options
  | DevinCloud =>
      ensure (is_none (v_get args "continuation")) "unsupported Devin task continuation" ;!
      let! title := optional_string args "title" in
      let! devin_mode := optional_string args "devin_mode" in
      let! swe_tier := optional_string args "swe_tier" in
      let! repos := optional_string_list args "repos" MAX_REPOS "16" in
      let! max_acu_limit := optional_u64_lenient args "max_acu_limit" in
      validate_task_input task "task" ;!
      if_some title (fun title => validate_argument_control_free title "title") ;!
      if_some devin_mode (fun mode => validate_devin_mode mode) ;!
      validate_swe_selection devin_mode swe_tier ;!
      if_some max_acu_limit (fun limit =>
        ensure (in_range 1 100000 limit) "max_acu_limit must be within 1..=100000") ;!
      Ok (StartDevinCloud (mkDevinCloudStart title devin_mode swe_tier repos max_acu_limit))
  end.

Definition parse_task_start (backend : Backend) (args : V) : result string TaskStartRequest :=
  let! operation_id := required_uuid args "operation_id" in
  let! task := required_string args "task" in
  let! options := parse_start_options backend args task in
  Ok (mkTaskStart operation_id options).

Definition task_wait_ms (args : V) : result string Z :=
  let! wait_ms :=
    match v_get args "wait_ms" with
    | None => Ok 0
    | Some value => ok_or (v_as_u64 value) "wait_ms must be an integer in 0..=30000"
    end in
  ensure (wait_ms <=? 30000) "wait_ms must be an integer in 0..=30000" ;!
  Ok wait_ms.

Definition parse_task_get (backend : Backend) (args : V) : result string TaskGetRequest :=
  let! task_id := required_uuid args "task_id" in
  let! after_revision :=
    match backend with
    | DevinCloud => optional_u64_lenient args "after_revision"
    | _ => optional_u64_strict args "after_revision"
    end in
  let! wait_ms := task_wait_ms args in
  Ok (mkTaskGet task_id after_revision wait_ms).

Definition task_list_limit (args : V) : result string Z :=
  match v_get args "limit" with
  | None => Ok DEFAULT_TASK_LIST_LIMIT
  | Some value =>
      let! limit := ok_or (v_as_u64 value) "task_list limit must be an integer" in
      ensure (in_range 1 MAX_TASK_LIST_LIMIT limit) "task_list limit must be 1..=128" ;!
      Ok limit
  end.

Definition unsupported_action (backend : Backend) : string :=
  "unsupported " +:+ action_label backend +:+ " task action".

(** The [match action] of [parse_task_control] that checks the action's input. *)
Definition control_interaction (args : V) (action : ControlAction) (input : option string) :
    result string (option string) :=
  match action with
  | Steer =>
      let! input := ok_or input "steer requires input" in
      validate_task_input input "input" ;!
      ensure (is_none (v_get args "interaction_id") && is_none (v_get args "answer"))
        "steer does not accept interaction_id or answer" ;!
      Ok None
  | Resume | Interrupt =>
      ensure (is_none input) (control_action_as_str action +:+ " does not accept input") ;!
      ensure (is_none (v_get args "interaction_id") && is_none (v_get args "answer"))
        (control_action_as_str action +:+ " does not accept interaction_id or answer") ;!
      Ok None
  | Answer =>
      ensure (is_none input) "answer does not accept input" ;!
      let! interaction_id := required_uuid args "interaction_id" in
      let! answer :=
        ok_or (v ← v_get args "answer"; if v_is_object v then Some v else None)
          "answer requires an object answer" in
      let! bytes := ok_or (v_to_vec answer) "serialize" in
      ensure (str_len bytes <=? MAX_INTERACTION_ANSWER_BYTES) "answer exceeds 16384 bytes" ;!
      Ok (Some interaction_id)
  end.

Definition parse_task_control (backend : Backend) (args : V) :
    result string TaskControlRequest :=
  let! task_id := required_uuid args "task_id" in
  let! operation_id := required_uuid args "operation_id" in
  let! action := required_string args "action" in
  let! action :=
    ok_or (match_str action
      [("steer", Steer); ("resume", Resume); ("interrupt", Interrupt); ("answer", Answer)])
      (unsupported_action backend) in
  ensure (supports_control_action (capabilities backend) action) (unsupported_action backend) ;!
  let input := (v ← v_get args "input"; v_as_str v) in
  let! interaction_id := control_interaction args action input in
  Ok (mkTaskControl task_id operation_id action interaction_id).

Definition parse (backend : Backend) (operation : Operation) (args : V) :
    result string TaskRequest :=
  match operation with
  | OpStatus => Ok ReqStatus
  | TaskStart => let! r := parse_task_start backend args in Ok (ReqStart r)
  | TaskGet => let! r := parse_task_get backend args in Ok (ReqGet r)
  | TaskList => let! _ := task_list_limit args in Ok ReqList
  | TaskControl => let! r := parse_task_control backend args in Ok (ReqControl r)
  end.
End Requests.
