(* ===== verification/RequestsTheorems.v ===== *)
(** What the request boundary guarantees: the requests each parser accepts and
    rejects ([Requests]). *)

From S2P Require Import Prelude Json Requests.

(** A non-empty string of at most [max] bytes, none of them NUL. *)
Definition text_within (max : Z) (s : string) : Prop :=
  0 < str_len s <= max /\ forall b, b ∈ str_bytes s -> b <> 0.

Lemma text_check (max : Z) (s : string) :
  negb (str_is_empty s) && (str_len s <=? max) && nul_free s = true <-> text_within max s.
Proof.
  unfold text_within, nul_free, str_is_empty, str_contains. pose proof (str_len_nonneg s).
  rewrite !andb_true_iff, !negb_true_iff, Z.eqb_neq, Z.leb_le, <- not_true_iff_false, existsb_exists.
  setoid_rewrite Z.eqb_eq. split.
  - intros [[He Hl] Hn]. split; [lia|]. intros b Hb ->. apply Hn. exists 0.
    by rewrite <- list_elem_of_In.
  - intros [[He Hl] Hn]. split_and!; [lia|done|]. intros (b & Hb & <-).
    apply (Hn 0); [by apply list_elem_of_In|done].
Qed.

Lemma validate_task_input_Ok (s label : string) (u : unit) :
  validate_task_input s label = Ok u <-> text_within MAX_TASK_INPUT_BYTES s.
Proof. unfold validate_task_input. by rewrite ensure_Ok, text_check. Qed.

Lemma validate_argument_Ok (s label : string) (u : unit) :
  validate_argument s label = Ok u <-> text_within MAX_ARGUMENT_BYTES s.
Proof. unfold validate_argument. by rewrite ensure_Ok, text_check. Qed.

Lemma one_of_true (s : string) (names : list string) : one_of s names = true <-> s ∈ names.
Proof.
  unfold one_of. rewrite existsb_exists, list_elem_of_In. setoid_rewrite String.eqb_eq.
  naive_solver.
Qed.

(** A non-empty string of at most 256 bytes without control characters. *)
Definition control_free_argument (s : string) : Prop :=
  0 < str_len s <= 256 /\ forall c, c ∈ chars s -> is_control c = false.

Lemma validate_argument_control_free_Ok (s label : string) (u : unit) :
  validate_argument_control_free s label = Ok u <-> control_free_argument s.
Proof.
  unfold validate_argument_control_free, control_free_argument, control_free, str_is_empty,
    MAX_ARGUMENT_BYTES.
  pose proof (str_len_nonneg s).
  rewrite ensure_Ok, !andb_true_iff, !negb_true_iff, Z.eqb_neq, Z.leb_le, <- not_true_iff_false,
    existsb_exists. split.
  - intros [[He Hl] Hn]. split; [lia|]. intros c Hc. apply not_true_iff_false. intros Ht.
    apply Hn. exists c. by rewrite <- list_elem_of_In.
  - intros [[He Hl] Hn]. split_and!; [lia|done|]. intros (c & Hc & Ht).
    by rewrite Hn in Ht by by apply list_elem_of_In.
Qed.

Lemma if_some_Ok {A : Type} (o : option A) (f : A -> result string unit) (u : unit) :
  if_some o f = Ok u <-> forall a, o = Some a -> f a = Ok tt.
Proof. destruct u, o; simpl; naive_solver. Qed.

Lemma try_map_Ok {A B : Type} (f : A -> result string B) (l : list A) (bs : list B) :
  try_map f l = Ok bs <-> Forall2 (fun a b => f a = Ok b) l bs.
Proof.
  revert bs. induction l as [|a l IH]; intros bs; simpl.
  - split; [by intros [= <-]|]. by inversion 1.
  - split.
    + intros Hb. apply bind_Ok in Hb as (b & Hb & Hr). apply bind_Ok in Hr as (r & Hr & [= <-]).
      constructor; [done|by apply IH].
    + inversion 1 as [|? b ? r Hb Hr]; subst. apply bind_Ok. exists b. split; [done|].
      apply bind_Ok. exists r. split; [by apply IH|done].
Qed.

Section RequestTheorems.
Context `{UuidLib} {V : Type} `{JsonValue V}.

(** The string at a key, and a string there that is a uuid. *)
Definition str_arg (args : V) (key : string) : option string := v ← v_get args key; v_as_str v.
Definition uuid_arg (args : V) (key s : string) : Prop :=
  str_arg args key = Some s /\ uuid_parse_str s <> None.

Lemma required_string_Ok (args : V) (key s : string) :
  required_string args key = Ok s <-> str_arg args key = Some s.
Proof. unfold required_string. by rewrite ok_or_Ok. Qed.

Lemma required_uuid_Ok (args : V) (key s : string) :
  required_uuid args key = Ok s <-> uuid_arg args key s.
Proof.
  unfold required_uuid, uuid_arg. rewrite bind_Ok. setoid_rewrite required_string_Ok.
  setoid_rewrite bind_Ok. setoid_rewrite ok_or_Ok. split.
  - intros (x & Hx & u & Hu & [= <-]). by rewrite Hu.
  - intros [Hs Hu]. destruct (uuid_parse_str s) as [u|] eqn:E; [|done]. eauto 6.
Qed.

(** Setoid rewriting of a chain of steps into a chain of existentials. *)
Lemma bind_unit_Ok {E A : Type} (r : result E unit) (k : unit -> result E A) (a : A) :
  bind r k = Ok a <-> r = Ok tt /\ k tt = Ok a.
Proof. rewrite bind_Ok. split; [intros ([] & ? & ?)|]; eauto. Qed.

(** The action named on the wire. *)
Lemma action_of_wire (s : string) (a : ControlAction) :
  match_str s [("steer", Steer); ("resume", Resume); ("interrupt", Interrupt); ("answer", Answer)]
  = Some a <-> s = control_action_as_str a.
Proof.
  simpl. repeat case_match; rewrite ?String.eqb_eq, ?String.eqb_neq in *; subst;
    destruct a; simpl; naive_solver.
Qed.

(** The input rules of each control action. *)
Definition action_rules (args : V) (action : ControlAction) (interaction_id : option string) :
    Prop :=
  match action with
  | Steer =>
      (exists input, str_arg args "input" = Some input
                     /\ text_within MAX_TASK_INPUT_BYTES input)
      /\ v_get args "interaction_id" = None /\ v_get args "answer" = None
      /\ interaction_id = None
  | Resume | Interrupt =>
      str_arg args "input" = None
      /\ v_get args "interaction_id" = None /\ v_get args "answer" = None
      /\ interaction_id = None
  | Answer =>
      str_arg args "input" = None
      /\ exists id answer bytes, interaction_id = Some id /\ uuid_arg args "interaction_id" id
         /\ v_get args "answer" = Some answer /\ v_is_object answer = true
         /\ v_to_vec answer = Some bytes /\ str_len bytes <= MAX_INTERACTION_ANSWER_BYTES
  end.

Lemma control_interaction_Ok (args : V) (a : ControlAction) (i : option string) :
  control_interaction args a (str_arg args "input") = Ok i <-> action_rules args a i.
Proof.
  destruct a; cbn [control_interaction action_rules].
  - rewrite bind_Ok. setoid_rewrite bind_unit_Ok. setoid_rewrite bind_unit_Ok.
    setoid_rewrite ok_or_Ok. setoid_rewrite validate_task_input_Ok. setoid_rewrite ensure_Ok.
    setoid_rewrite andb_true_iff. setoid_rewrite is_none_true. naive_solver.
  - rewrite !bind_unit_Ok, !ensure_Ok, andb_true_iff, !is_none_true. naive_solver.
  - rewrite !bind_unit_Ok, !ensure_Ok, andb_true_iff, !is_none_true. naive_solver.
  - rewrite bind_unit_Ok, ensure_Ok, is_none_true, bind_Ok. setoid_rewrite required_uuid_Ok.
    setoid_rewrite bind_Ok. setoid_rewrite ok_or_Ok. setoid_rewrite bind_Ok.
    setoid_rewrite ok_or_Ok. setoid_rewrite bind_unit_Ok. setoid_rewrite ensure_Ok.
    setoid_rewrite Z.leb_le. apply and_iff_compat_l. split.
    + intros (id & Hid & ans & Ha & b & Hb & Hl & [= <-]).
      destruct (v_get args "answer") as [v|] eqn:Hv; simpl in Ha; [|done].
      destruct (v_is_object v) eqn:Ho; simplify_eq. eauto 10.
    + intros (id & ans & b & -> & Hid & Ha & Ho & Hb & Hl). exists id. split; [done|].
      exists ans. rewrite Ha. simpl. rewrite Ho. eauto.
Qed.

Lemma supports_true (backend : Backend) (a : ControlAction) :
  supports_control_action (capabilities backend) a = true <-> (a = Answer -> backend = OpenCode).
Proof. destruct backend, a; simpl; naive_solver. Qed.

(** C38: a control request is accepted exactly when its two ids are UUIDs, the
    action is one the backend supports, and the input rules of that action
    hold: [steer] carries 1 B to 1 MiB of NUL-free input and nothing else,
    [resume] and [interrupt] carry none, [answer] (an OpenCode action only)
    carries a UUID and an object of at most 16 KiB. The request is then exactly
    those fields. *)
Theorem control_parse_spec (backend : Backend) (args : V) (r : TaskControlRequest) :
  parse_task_control backend args = Ok r <->
  uuid_arg args "task_id" (ctl_task_id r)
  /\ uuid_arg args "operation_id" (ctl_operation_id r)
  /\ str_arg args "action" = Some (control_action_as_str (ctl_action r))
  /\ (ctl_action r = Answer -> backend = OpenCode)
  /\ action_rules args (ctl_action r) (ctl_interaction_id r).
Proof.
  unfold parse_task_control. cbv zeta. fold (str_arg args "input").
  rewrite bind_Ok. setoid_rewrite required_uuid_Ok. setoid_rewrite bind_Ok.
  setoid_rewrite required_uuid_Ok. split.
  - intros (t & Ht & o & Ho & Hr). apply bind_Ok in Hr as (s & Hs%required_string_Ok & Hr).
    apply bind_Ok in Hr as (a & Ha & Hr). apply ok_or_Ok, action_of_wire in Ha as ->.
    apply bind_unit_Ok in Hr as [Hsup Hr]. rewrite ensure_Ok, supports_true in Hsup.
    apply bind_Ok in Hr as (i & Hi & [= <-]). apply control_interaction_Ok in Hi. done.
  - destruct r as [t o a i]; simpl. intros (Ht & Ho & Ha & Hsup & Hi).
    exists t. split; [done|]. exists o. split; [done|].
    rewrite bind_Ok. exists (control_action_as_str a). split; [by apply required_string_Ok|].
    rewrite bind_Ok. exists a. split; [by apply ok_or_Ok, action_of_wire|].
    rewrite bind_unit_Ok, ensure_Ok, supports_true. split; [done|].
    rewrite bind_Ok. exists i. split; [by apply control_interaction_Ok|done].
Qed.

(** An action outside the backend's contract is rejected with the
    backend's own message, whatever the rest of the request says: an unknown
    name everywhere, and [answer] everywhere but on OpenCode. *)
Theorem control_unsupported (backend : Backend) (args : V) (t o action : string) :
  uuid_arg args "task_id" t -> uuid_arg args "operation_id" o ->
  str_arg args "action" = Some action ->
  (forall a, action = control_action_as_str a -> a = Answer /\ backend <> OpenCode) ->
  parse_task_control backend args = Err ("unsupported " +:+ action_label backend +:+ " task action").
Proof.
  intros Ht%required_uuid_Ok Ho%required_uuid_Ok Ha%required_string_Ok Hu.
  unfold parse_task_control. rewrite Ht, Ho, Ha. cbn [bind].
  destruct (match_str action _) as [a|] eqn:E; [|done]. cbn [ok_or bind].
  apply action_of_wire, Hu in E as [-> Hb]. by destruct backend.
Qed.

Lemma str_contains_true (c : Z) (s : string) : str_contains c s = true <-> c ∈ str_bytes s.
Proof.
  unfold str_contains. rewrite existsb_exists, list_elem_of_In. setoid_rewrite Z.eqb_eq.
  naive_solver.
Qed.

(** The options a start request of each backend may carry. *)
Definition start_valid (backend : Backend) (o : StartOptions) : Prop :=
  match backend, o with
  | Codex, StartCodex c =>
      text_within 256 (codex_model c)
      /\ text_within 256 (codex_effort c)
  | OpenCode, StartOpenCode c =>
      (forall m, oc_model c = Some m -> text_within 256 m /\ 47 ∈ str_bytes m)
      /\ (forall a, oc_agent c = Some a -> text_within 256 a)
      /\ (forall v, oc_variant c = Some v -> text_within 256 v)
      /\ (forall w, oc_workspace_requirement c = Some w -> w = "managed_commands"%string)
  | DevinAcp, StartDevinAcp c =>
      (forall m, acp_model c = Some m -> text_within 256 m)
      /\ (forall a, acp_agent c = Some a -> text_within 256 a)
      /\ (acp_cloud c = true -> acp_model c = None /\ acp_agent c = None)
  | DevinCloud, StartDevinCloud c =>
      (forall t, cloud_title c = Some t -> control_free_argument t)
      /\ (forall m, cloud_devin_mode c = Some m -> m ∈ ["normal"; "fast"; "lite"; "ultra"; "fusion"; "swe-2-medium"; "swe-2-high";
                  "swe-2-max"]%string)
      /\ (forall t, cloud_swe_tier c = Some t ->
           t ∈ ["promo"; "priority"]%string /\
           exists m, cloud_devin_mode c = Some m
                     /\ m ∈ ["swe-2-medium"; "swe-2-high"; "swe-2-max"]%string)
      /\ zlen (cloud_repos c) <= 16 /\ Forall control_free_argument (cloud_repos c)
      /\ (forall n, cloud_max_acu_limit c = Some n -> 1 <= n <= 100000)
  | _, _ => False
  end.

(** An optional text: absent or [null], or a string. *)
Definition text_field (args : V) (key : string) (o : option string) : Prop :=
  match v_get args key with
  | None => o = None
  | Some v => (v_is_null v = true /\ o = None)
              \/ (v_is_null v = false /\ exists s, v_as_str v = Some s /\ o = Some s)
  end.

(** An optional number: absent or [null], or a non-negative integer. *)
Definition number_field (args : V) (key : string) (o : option Z) : Prop :=
  match v_get args key with
  | None => o = None
  | Some v => (v_is_null v = true /\ o = None)
              \/ (v_is_null v = false /\ exists n, v_as_u64 v = Some n /\ o = Some n)
  end.

(** An optional list: absent or [null] (empty), or an array of at most [max] short
    control-free texts. *)
Definition list_field (args : V) (key : string) (max : Z) (l : list string) : Prop :=
  match v_get args key with
  | None => l = []
  | Some v =>
      (v_is_null v = true /\ l = [])
      \/ (v_is_null v = false /\ exists items, v_as_array v = Some items /\ zlen items <= max
          /\ Forall2 (fun item s => v_as_str item = Some s /\ control_free_argument s) items l)
  end.

(** The continuation of a Codex task: absent, or one of two exact objects. *)
Definition continuation_field (args : V) (c : CodexContinuation) : Prop :=
  match v_get args "continuation" with
  | None => c = ContNew
  | Some v =>
      (v_object_len v = Some 1 /\ str_arg v "type" = Some "new"%string /\ c = ContNew)
      \/ (v_object_len v = Some 2 /\ str_arg v "type" = Some "previous_task"%string
          /\ exists text id, str_arg v "task_id" = Some text /\ uuid_parse_str text = Some id
               /\ c = ContPreviousTask id)
  end.

(** Where the fields of the options come from. *)
Definition start_reads (args : V) (o : StartOptions) : Prop :=
  match o with
  | StartCodex c =>
      str_arg args "model" = Some (codex_model c)
      /\ str_arg args "effort" = Some (codex_effort c)
      /\ continuation_field args (codex_cont c)
  | StartOpenCode c =>
      v_get args "continuation" = None
      /\ text_field args "model" (oc_model c)
      /\ text_field args "agent" (oc_agent c)
      /\ text_field args "variant" (oc_variant c)
      /\ text_field args "workspace_requirement" (oc_workspace_requirement c)
  | StartDevinAcp c =>
      v_get args "continuation" = None
      /\ text_field args "model" (acp_model c)
      /\ text_field args "agent" (acp_agent c)
      /\ match v_get args "cloud" with
         | None => acp_cloud c = false
         | Some v => v_as_bool v = Some (acp_cloud c)
         end
  | StartDevinCloud c =>
      v_get args "continuation" = None
      /\ text_field args "title" (cloud_title c)
      /\ text_field args "devin_mode" (cloud_devin_mode c)
      /\ text_field args "swe_tier" (cloud_swe_tier c)
      /\ list_field args "repos" 16 (cloud_repos c)
      /\ number_field args "max_acu_limit" (cloud_max_acu_limit c)
  end.

Lemma optional_string_Ok (args : V) (key : string) (o : option string) :
  optional_string args key = Ok o <-> text_field args key o.
Proof.
  unfold optional_string, text_field. destruct (v_get args key) as [v|]; [|naive_solver].
  destruct (v_is_null v); [naive_solver|]. rewrite ok_or_Ok, fmap_Some. naive_solver.
Qed.

Lemma optional_number_Ok (args : V) (key : string) (o : option Z) :
  optional_u64_lenient args key = Ok o <-> number_field args key o.
Proof.
  unfold optional_u64_lenient, number_field. destruct (v_get args key) as [v|]; [|naive_solver].
  destruct (v_is_null v); [naive_solver|]. rewrite ok_or_Ok, fmap_Some. naive_solver.
Qed.

Lemma optional_string_list_Ok (args : V) (key max_text : string) (max : Z) (l : list string) :
  optional_string_list args key max max_text = Ok l <-> list_field args key max l.
Proof.
  unfold optional_string_list, list_field. destruct (v_get args key) as [v|]; [|naive_solver].
  destruct (v_is_null v); [naive_solver|]. destruct (v_as_array v) as [items|]; [|naive_solver].
  rewrite bind_unit_Ok, ensure_Ok, Z.leb_le, try_map_Ok.
  assert (Hitem : forall item s,
    (let! value := ok_or (v_as_str item) (key +:+ " entries must be strings") in
     validate_argument_control_free value key ;! Ok value) = Ok s
    <-> v_as_str item = Some s /\ control_free_argument s).
  { intros item s. rewrite bind_Ok. setoid_rewrite ok_or_Ok. setoid_rewrite bind_unit_Ok.
    setoid_rewrite validate_argument_control_free_Ok. naive_solver. }
  split.
  - intros [Hlen Hl]. right. split; [done|]. exists items. split_and!; [done|done|].
    eapply Forall2_impl; [exact Hl|]. intros item s Hs. by apply Hitem.
  - intros [[? _]|(_ & items' & [= <-] & Hlen & Hl)]; [done|]. split; [done|].
    eapply Forall2_impl; [exact Hl|]. intros item s Hs. by apply Hitem.
Qed.

Lemma list_field_valid (args : V) (key : string) (max : Z) (l : list string) :
  0 <= max -> list_field args key max l -> zlen l <= max /\ Forall control_free_argument l.
Proof.
  unfold list_field. intros Hmax Hl.
  destruct (v_get args key) as [v|]; [|subst; by split; [|constructor]].
  destruct Hl as [[_ ->]|(_ & items & _ & Hlen & Hl)]; [by split; [|constructor]|].
  split; [unfold zlen in *; by rewrite <- (Forall2_length _ _ _ Hl)|].
  clear Hlen. induction Hl as [|item s items l [_ Hs] _ IH]; by constructor.
Qed.

Lemma codex_continuation_Ok (args : V) (c : CodexContinuation) :
  codex_continuation args = Ok c <-> continuation_field args c.
Proof.
  unfold codex_continuation, continuation_field. destruct (v_get args "continuation") as [v|]; [|naive_solver].
  rewrite bind_Ok. setoid_rewrite ok_or_Ok. unfold str_arg.
  set (tag := (t ← v_get v "type"; v_as_str t)). cbv zeta. setoid_rewrite bind_unit_Ok.
  setoid_rewrite ensure_Ok. split.
  - intros (len & Hlen & Hex & Hc). destruct tag as [t|]; [|done].
    destruct (String.eqb_spec t "new") as [->|Hnew].
    { apply Z.eqb_eq in Hex as ->. rewrite bool_decide_eq_true_2 in Hc by done. left. naive_solver. }
    destruct (String.eqb_spec t "previous_task") as [->|]; [|done].
    apply andb_true_iff in Hex as [->%Z.eqb_eq _]. rewrite bool_decide_eq_false_2 in Hc by done.
    right. split_and!; [done|done|]. apply bind_Ok in Hc as (id & Hid & [= <-]).
    apply ok_or_Ok in Hid. destruct (v_get v "task_id") as [t|]; [|done]. simpl in Hid |- *.
    destruct (v_as_str t) as [text|]; [|done]. by exists text, id.
  - intros [(Hlen & -> & ->)|(Hlen & -> & text & id & Ht & Hid & ->)]; eexists; (split; [exact Hlen|]);
      (split; [done || idtac|]); cbn; [done| |].
    + destruct (v_get v "task_id"); [done|discriminate Ht].
    + destruct (v_get v "task_id") as [t|]; [|discriminate Ht]. simpl in Ht |- *. rewrite Ht. simpl. by rewrite Hid.
Qed.

Lemma swe_selection_Ok (mode tier : option string) (u : unit) :
  validate_swe_selection mode tier = Ok u <->
  forall t, tier = Some t -> t ∈ ["promo"; "priority"]%string /\
    exists m, mode = Some m /\ m ∈ ["swe-2-medium"; "swe-2-high"; "swe-2-max"]%string.
Proof.
  destruct u, tier as [t|]; cbn [validate_swe_selection]; [|naive_solver].
  rewrite bind_unit_Ok, !ensure_Ok, one_of_true.
  destruct mode as [m|]; cbn [is_some_and]; [unfold is_swe2_mode; rewrite one_of_true|];
    split; intros Hx.
  - intros t' [= <-]. naive_solver.
  - specialize (Hx t eq_refl). naive_solver.
  - naive_solver.
  - specialize (Hx t eq_refl). naive_solver.
Qed.

(** The field checks of each backend, as propositions. *)
Lemma if_argument_Ok (o : option string) (label : string) (u : unit) :
  if_some o (fun v => validate_argument v label) = Ok u <->
  forall v, o = Some v -> text_within MAX_ARGUMENT_BYTES v.
Proof. rewrite if_some_Ok. by setoid_rewrite validate_argument_Ok. Qed.

Lemma if_model_Ok (o : option string) (e : string) (u : unit) :
  if_some o (fun v => validate_argument v "model" ;! ensure (str_contains 47 v) e) = Ok u <->
  forall v, o = Some v -> text_within MAX_ARGUMENT_BYTES v /\ 47 ∈ str_bytes v.
Proof.
  rewrite if_some_Ok. setoid_rewrite bind_unit_Ok. setoid_rewrite validate_argument_Ok.
  setoid_rewrite ensure_Ok. by setoid_rewrite str_contains_true.
Qed.

Lemma workspace_Ok (o : option string) :
  is_none_or (fun value => String.eqb value "managed_commands") o = true <->
  forall w, o = Some w -> w = "managed_commands"%string.
Proof. rewrite is_none_or_true. by setoid_rewrite String.eqb_eq. Qed.

(** Undoes the steps of the option parsers, in either direction. *)
Ltac undo_steps Ho :=
  repeat match type of Ho with
    | bind _ _ = Ok _ => let E := fresh "E" in apply bind_Ok in Ho as (? & E & Ho)
    end;
  injection Ho as <-;
  rewrite ?ensure_Ok, ?is_none_true, ?validate_task_input_Ok, ?if_argument_Ok, ?if_model_Ok,
    ?required_string_Ok, ?validate_argument_Ok, ?workspace_Ok, ?optional_string_Ok,
    ?optional_string_list_Ok, ?optional_number_Ok, ?codex_continuation_Ok in *.
Ltac redo_step :=
  apply bind_Ok; first [exists tt | eexists]; split;
  [ first [ eassumption
          | apply required_string_Ok; eassumption
          | apply optional_string_Ok; eassumption
          | apply optional_string_list_Ok; eassumption
          | apply optional_number_Ok; eassumption
          | apply codex_continuation_Ok; eassumption
          | apply validate_task_input_Ok; eassumption
          | apply if_argument_Ok; eassumption
          | apply if_model_Ok; eassumption
          | apply validate_argument_Ok; eassumption
          | apply ensure_Ok, is_none_true; eassumption
          | apply ensure_Ok, workspace_Ok; eassumption ] |].

Lemma codex_options_Ok (args : V) (task : string) (o : StartOptions) :
  parse_start_options Codex args task = Ok o <->
  text_within MAX_TASK_INPUT_BYTES task /\ start_reads args o /\ start_valid Codex o.
Proof.
  cbn [parse_start_options]. split.
  - intros Ho. undo_steps Ho. by split_and!.
  - destruct o as [c|c|c|c]; simpl; try tauto. destruct c as [m e c]; simpl.
    intros (Ht & (Hm & He & Hc) & Vm & Ve). by do 6 redo_step.
Qed.

Lemma opencode_options_Ok (args : V) (task : string) (o : StartOptions) :
  parse_start_options OpenCode args task = Ok o <->
  text_within MAX_TASK_INPUT_BYTES task /\ start_reads args o /\ start_valid OpenCode o.
Proof.
  cbn [parse_start_options]. split.
  - intros Ho. undo_steps Ho. by split_and!.
  - destruct o as [c|c|c|c]; simpl; try tauto. destruct c as [m a v w]; simpl.
    intros (Ht & (Hc & Hm & Ha & Hv & Hw) & Vm & Va & Vv & Vw). by do 10 redo_step.
Qed.

Lemma devin_acp_options_Ok (args : V) (task : string) (o : StartOptions) :
  parse_start_options DevinAcp args task = Ok o <->
  text_within MAX_TASK_INPUT_BYTES task /\ start_reads args o /\ start_valid DevinAcp o.
Proof.
  assert (Hlocal : forall (m a : option string) (b : bool),
    bool_decide ((if b then Hosted else HostLocal) = HostLocal) || (is_none m && is_none a) = true
    <-> (b = true -> m = None /\ a = None)).
  { intros m a []; simpl; rewrite ?andb_true_iff, ?is_none_true; naive_solver. }
  cbn [parse_start_options]. split.
  - intros Ho. undo_steps Ho. cbn [execution_locality acp_cloud] in *. rewrite Hlocal in *.
    split_and!; try done. simpl. split_and!; try done.
    destruct (v_get args "cloud"); simplify_eq; [by rewrite ok_or_Ok in E2|done].
  - destruct o as [c|c|c|c]; simpl; try tauto. destruct c as [m a b]; simpl.
    intros (Ht & (Hc & Hm & Ha & Hb) & Vm & Va & Vb).
    do 3 redo_step. apply bind_Ok. exists b. split.
    { destruct (v_get args "cloud"); [by rewrite Hb|by subst]. }
    do 3 redo_step. apply bind_Ok. exists tt.
    by rewrite ensure_Ok, Hlocal.
Qed.

Lemma devin_cloud_options_Ok (args : V) (task : string) (o : StartOptions) :
  parse_start_options DevinCloud args task = Ok o <->
  text_within MAX_TASK_INPUT_BYTES task /\ start_reads args o /\ start_valid DevinCloud o.
Proof.
  assert (Htitle : forall (t : option string) u,
    if_some t (fun title => validate_argument_control_free title "title") = Ok u <->
    forall v, t = Some v -> control_free_argument v)
    by (intros; rewrite if_some_Ok; by setoid_rewrite validate_argument_control_free_Ok).
  assert (Hmode : forall (t : option string) u,
    if_some t (fun mode => validate_devin_mode mode) = Ok u <->
    forall v, t = Some v -> v ∈ devin_modes)
    by (intros; rewrite if_some_Ok; unfold validate_devin_mode; setoid_rewrite ensure_Ok;
        by setoid_rewrite one_of_true).
  assert (Hacu : forall (n : option Z) (e : string) u,
    if_some n (fun limit => ensure (in_range 1 100000 limit) e) = Ok u <->
    forall v, n = Some v -> 1 <= v <= 100000)
    by (intros; rewrite if_some_Ok; setoid_rewrite ensure_Ok; by setoid_rewrite in_range_true).
  cbn [parse_start_options]. split.
  - intros Ho. undo_steps Ho. rewrite Htitle, Hmode, swe_selection_Ok, Hacu in *.
    assert (Hr := E3). apply list_field_valid in Hr as [? ?]; [|done].
    by split_and!.
  - destruct o as [c|c|c|c]; simpl; try tauto. destruct c as [t m s r n]; simpl.
    intros (Ht & (Hc & Rt & Rm & Rs & Rr & Rn) & Vt & Vm & Vs & _ & _ & Vn).
    do 7 redo_step.
    apply bind_Ok; exists tt; rewrite Htitle; split; [done|].
    apply bind_Ok; exists tt; rewrite Hmode; split; [done|].
    apply bind_Ok; exists tt; rewrite swe_selection_Ok; split; [done|].
    apply bind_Ok; exists tt; rewrite Hacu; by split.
Qed.

Lemma start_options_Ok (backend : Backend) (args : V) (task : string) (o : StartOptions) :
  parse_start_options backend args task = Ok o <->
  text_within MAX_TASK_INPUT_BYTES task /\ start_reads args o /\ start_valid backend o.
Proof.
  destruct backend; [apply codex_options_Ok|apply opencode_options_Ok|apply devin_acp_options_Ok
    |apply devin_cloud_options_Ok].
Qed.

(** C39: a start request is accepted exactly when its operation id is a UUID,
    its task is 1 B to 1 MiB of NUL-free text, its options are read from the
    backend's own fields, and they satisfy the backend's rules; the request
    keeps the id and the options, and never the task text. *)
Theorem start_parse_spec (backend : Backend) (args : V) (r : TaskStartRequest) :
  parse_task_start backend args = Ok r <->
  uuid_arg args "operation_id" (start_operation_id r)
  /\ (exists task, str_arg args "task" = Some task /\ text_within 1048576 task)
  /\ start_reads args (start_options r) /\ start_valid backend (start_options r).
Proof.
  unfold parse_task_start. rewrite bind_Ok. setoid_rewrite required_uuid_Ok. split.
  - intros (oid & Hid & Hr). apply bind_Ok in Hr as (task & Ht%required_string_Ok & Hr).
    apply bind_Ok in Hr as (o & Ho%start_options_Ok & [= <-]). naive_solver.
  - destruct r as [oid o]. simpl. intros (Hid & (task & Ht & Vt) & Hr & Hv).
    exists oid. split; [done|]. apply bind_Ok. exists task. rewrite required_string_Ok.
    split; [done|]. apply bind_Ok. exists o. by rewrite start_options_Ok.
Qed.

(** The hosted/local boundary: an accepted start runs on this host unless
    the backend is Devin Cloud or the request is a [--cloud] Devin one, and a
    start that is hosted carries no local model or agent selector. *)
Theorem start_locality (backend : Backend) (args : V) (r : TaskStartRequest) :
  parse_task_start backend args = Ok r ->
  (execution_locality (start_options r) = Hosted <->
   cap_execution (capabilities backend) = Hosted
   \/ exists c, start_options r = StartDevinAcp c /\ acp_cloud c = true
                /\ acp_model c = None /\ acp_agent c = None).
Proof.
  intros Hr. unfold parse_task_start in Hr. apply bind_Ok in Hr as (oid & _ & Hr).
  apply bind_Ok in Hr as (task & _ & Hr). apply bind_Ok in Hr as (o & Ho & [= <-]). simpl.
  apply start_options_Ok in Ho as (_ & _ & Hv).
  destruct backend, o as [c|c|c|c]; simpl in Hv |- *; try (by destruct Hv);
    try (split; [discriminate|intros [|(? & ? & _)]; discriminate]).
  - destruct Hv as (_ & _ & Hc). destruct (acp_cloud c) eqn:E; simpl.
    + split; [|done]. intros _. right. exists c. by specialize (Hc eq_refl).
    + split; [done|]. intros [|(c' & [= <-] & Hb & _)]; congruence.
  - split; [by left|done].
Qed.

(** The revision a [task_get] waits past: absent, or a non-negative integer; a
    [null] is read as absent by Devin Cloud only. *)
Definition after_revision_is (backend : Backend) (args : V) (o : option Z) : Prop :=
  match v_get args "after_revision" with
  | None => o = None
  | Some v => (v_is_null v = true /\ backend = DevinCloud /\ o = None)
              \/ exists n, v_as_u64 v = Some n /\ o = Some n
  end.

Lemma optional_u64_strict_Ok (args : V) (key : string) (o : option Z) :
  optional_u64_strict args key = Ok o <->
  match v_get args key with
  | None => o = None
  | Some v => exists n, v_as_u64 v = Some n /\ o = Some n
  end.
Proof.
  unfold optional_u64_strict. destruct (v_get args key) as [v|]; [|naive_solver].
  rewrite ok_or_Ok, fmap_Some. done.
Qed.

Lemma optional_u64_lenient_Ok `{!JsonValueLaws V} (args : V) (key : string) (o : option Z) :
  optional_u64_lenient args key = Ok o <->
  match v_get args key with
  | None => o = None
  | Some v => (v_is_null v = true /\ o = None) \/ exists n, v_as_u64 v = Some n /\ o = Some n
  end.
Proof.
  unfold optional_u64_lenient. destruct (v_get args key) as [v|]; [|naive_solver].
  destruct (v_is_null v) eqn:Hn.
  - apply v_null_not_u64 in Hn. naive_solver.
  - rewrite ok_or_Ok, fmap_Some. naive_solver.
Qed.

(** A get request is accepted exactly when its task id is a UUID, its
    revision is absent or a [u64] ([null] counts as absent for Devin Cloud and
    is an error for every other backend), and its wait is absent (zero) or at
    most thirty seconds; a list request exactly when its limit is absent (50)
    or within 1..=128. *)
Theorem get_and_list_parse_spec `{!JsonValueLaws V} (backend : Backend) (args : V) :
  (forall r, parse_task_get backend args = Ok r <->
    uuid_arg args "task_id" (get_task_id r)
    /\ after_revision_is backend args (get_after_revision r)
    /\ match v_get args "wait_ms" with
       | None => get_wait_ms r = 0
       | Some v => v_as_u64 v = Some (get_wait_ms r) /\ 0 <= get_wait_ms r <= 30000
       end)
  /\ (forall n, task_list_limit args = Ok n <->
    match v_get args "limit" with
    | None => n = 50
    | Some v => v_as_u64 v = Some n /\ 1 <= n <= 128
    end).
Proof.
  assert (Hafter : forall o,
    match backend with
    | DevinCloud => optional_u64_lenient args "after_revision"
    | _ => optional_u64_strict args "after_revision"
    end = Ok o <-> after_revision_is backend args o).
  { intros o. unfold after_revision_is.
    destruct backend; rewrite ?optional_u64_strict_Ok, ?optional_u64_lenient_Ok;
      destruct (v_get args "after_revision"); naive_solver. }
  assert (Hwait : forall w, task_wait_ms args = Ok w <->
    match v_get args "wait_ms" with
    | None => w = 0
    | Some v => v_as_u64 v = Some w /\ 0 <= w <= 30000
    end).
  { intros w. unfold task_wait_ms. destruct (v_get args "wait_ms") as [v|]; simpl.
    - rewrite bind_Ok. setoid_rewrite ok_or_Ok. setoid_rewrite bind_unit_Ok.
      setoid_rewrite ensure_Ok. setoid_rewrite Z.leb_le. split.
      + intros (x & Hx & Hl & [= <-]). apply v_u64_range in Hx as Hr. unfold u64 in Hr.
        split; [done|lia].
      + intros [Hv Hr]. exists w. split_and!; [done|lia|done].
    - naive_solver. }
  split.
  - intros [t o w]; simpl. unfold parse_task_get. rewrite bind_Ok. setoid_rewrite required_uuid_Ok.
    setoid_rewrite bind_Ok. setoid_rewrite Hafter. setoid_rewrite bind_Ok. setoid_rewrite Hwait.
    naive_solver.
  - intros n. unfold task_list_limit. destruct (v_get args "limit") as [v|]; [|naive_solver].
    rewrite bind_Ok. setoid_rewrite ok_or_Ok. setoid_rewrite bind_unit_Ok.
    setoid_rewrite ensure_Ok. setoid_rewrite in_range_true. unfold MAX_TASK_LIST_LIMIT.
    naive_solver.
Qed.

(** The argument keys an operation reads. *)
Definition request_keys (backend : Backend) (op : Operation) : list string :=
  match op with
  | OpStatus => []
  | TaskStart =>
      ["operation_id"; "task"; "continuation"]%string ++
      match backend with
      | Codex => ["model"; "effort"]%string
      | OpenCode => ["model"; "agent"; "variant"; "workspace_requirement"]%string
      | DevinAcp => ["model"; "agent"; "cloud"]%string
      | DevinCloud => ["title"; "devin_mode"; "swe_tier"; "repos"; "max_acu_limit"]%string
      end
  | TaskGet => ["task_id"; "after_revision"; "wait_ms"]%string
  | TaskList => ["limit"]%string
  | TaskControl => ["task_id"; "operation_id"; "action"; "input"; "interaction_id"; "answer"]%string
  end.

(** Parsing reads the operation's own argument keys and nothing else:
    arguments that agree on them give the same request or the same error. *)
Theorem parse_reads_own_keys (backend : Backend) (op : Operation) (args args' : V) :
  (forall key, key ∈ request_keys backend op -> v_get args key = v_get args' key) ->
  parse backend op args = parse backend op args'.
Proof.
  intros Hk.
  destruct op; try done; cbn [parse]; f_equal;
    unfold parse_task_start, parse_start_options, parse_task_get, task_list_limit,
      parse_task_control, control_interaction, codex_continuation, required_uuid, required_string,
      optional_string, optional_u64_strict, optional_u64_lenient, optional_string_list,
      task_wait_ms;
    destruct backend;
    repeat match goal with
      | |- context [v_get args ?key] =>
          rewrite (Hk key) by (cbn; rewrite list_elem_of_In; simpl; tauto)
      end; done.
Qed.
End RequestTheorems.

(** * Witnesses *)

Module RequestWitness.
Import JsonModel.

(** An answer sent to a backend that has none. *)
Definition answer_args : Json :=
  JObj [("task_id", JStr nil_uuid); ("operation_id", JStr one_uuid); ("action", JStr "answer")].

Lemma nil_uuid_arg : uuid_arg answer_args "task_id" nil_uuid.
Proof. split; [reflexivity|]. apply is_some_true. vm_compute. reflexivity. Qed.

Lemma one_uuid_arg : uuid_arg answer_args "operation_id" one_uuid.
Proof. split; [reflexivity|]. apply is_some_true. vm_compute. reflexivity. Qed.

Lemma control_unsupported_witness :
  parse_task_control Codex answer_args = Err "unsupported Codex task action".
Proof.
  apply (control_unsupported Codex answer_args nil_uuid one_uuid "answer" nil_uuid_arg one_uuid_arg
           eq_refl).
  intros a Ha. by destruct a.
Defined.

(** A hosted Devin start. *)
Definition cloud_args : Json :=
  JObj [("operation_id", JStr nil_uuid); ("task", JStr "do it"); ("cloud", JBool true)].
Definition cloud_request : TaskStartRequest :=
  mkTaskStart nil_uuid (StartDevinAcp (mkDevinAcpStart None None true)).

Lemma cloud_parse : parse_task_start DevinAcp cloud_args = Ok cloud_request.
Proof. vm_compute. reflexivity. Qed.

Lemma start_locality_witness : execution_locality (start_options cloud_request) = Hosted.
Proof.
  apply (start_locality DevinAcp cloud_args cloud_request cloud_parse).
  right. exists (mkDevinAcpStart None None true). by split_and!.
Defined.

Lemma parse_reads_own_keys_witness :
  parse Codex TaskList (JObj [("limit", JInt 7); ("extra", JStr "x")])
  = parse Codex TaskList (JObj [("limit", JInt 7)]).
Proof.
  apply (parse_reads_own_keys Codex TaskList).
  intros key Hkey. apply list_elem_of_In in Hkey. destruct Hkey as [<-|[]]. reflexivity.
Defined.

Lemma get_and_list_parse_spec_witness :
  task_list_limit (JObj [("limit", JInt 128)]) = Ok 128.
Proof.
  apply (proj2 (get_and_list_parse_spec Codex (JObj [("limit", JInt 128)])) 128).
  split; [reflexivity|lia].
Defined.
End RequestWitness.
