(* ===== verification/Outcome.v ===== *)
(** Task outcomes and bounded waiting: src/src/orchestration/outcome.rs and
    src/src/orchestration/wait.rs.

    The uuid crate is [Json.UuidLib] with its v5 hash as a parameter; a view the
    code builds with [json!] is a [Json] tree.  Tokio's clock, [timeout_at] and
    [sleep_until] are the class [Tokio]: what a probe answers and how long every
    call takes is the environment's choice. *)

From S2P Require Import Prelude Json.

(** * Outcome records (outcome.rs) *)

Definition MAX_OUTCOME_TEXT_BYTES : Z := 256.

Inductive VerificationStatus : Type :=
| VPassed
| VFailed.

Inductive VerificationTarget : Type :=
| TCommit (commit : string)
| TSnapshot (snapshot : string)
| TUnidentified (commit : option string) (dirty : bool).

Record VerificationRecord : Type := mkVerification {
  ver_status : VerificationStatus;
  ver_target : VerificationTarget;
  ver_record_revision : Z;
  ver_checked_at : Z;
}.

Inductive DeliveryStatus : Type :=
| DPending
| DSubmitted
| DMerged
| DClosed
| DFailed.

Record DeliveryRecord : Type := mkDelivery {
  del_status : DeliveryStatus;
  del_branch : option string;
  del_pull_request : option string;
  del_updated_at : Z;
}.

Definition verification_status_as_str (s : VerificationStatus) : string :=
  match s with
  | VPassed => "passed"
  | VFailed => "failed"
  end.

Definition delivery_status_as_str (s : DeliveryStatus) : string :=
  match s with
  | DPending => "pending"
  | DSubmitted => "submitted"
  | DMerged => "merged"
  | DClosed => "closed"
  | DFailed => "failed"
  end.

Definition validate_text (value label : string) : result string unit :=
  ensure (negb (str_is_empty value) && (str_len value <=? MAX_OUTCOME_TEXT_BYTES)
          && negb (str_contains 0 value))
    (label +:+ " must contain 1..=256 NUL-free UTF-8 bytes").

Definition verification_validate (r : VerificationRecord) : result string unit :=
  ensure (0 <? ver_record_revision r) "verification record_revision must be positive" ;!
  ensure (0 <? ver_checked_at r) "verification checked_at must be positive" ;!
  match ver_target r with
  | TCommit commit => validate_text commit "verification commit"
  | TSnapshot snapshot => validate_text snapshot "verification snapshot"
  | TUnidentified (Some commit) _ => validate_text commit "verification commit"
  | TUnidentified None _ => Ok tt
  end.

Definition delivery_validate (r : DeliveryRecord) : result string unit :=
  ensure (0 <? del_updated_at r) "delivery updated_at must be positive" ;!
  match del_branch r with
  | Some branch => validate_text branch "delivery branch"
  | None => Ok tt
  end ;!
  match del_pull_request r with
  | Some pull_request => validate_text pull_request "delivery pull_request"
  | None => Ok tt
  end.

(** The derived [Serialize], internally tagged by [kind]. *)
Definition target_json (t : VerificationTarget) : Json :=
  match t with
  | TCommit commit => JObj [("kind", JStr "commit"); ("commit", JStr commit)]
  | TSnapshot snapshot => JObj [("kind", JStr "snapshot"); ("snapshot", JStr snapshot)]
  | TUnidentified commit dirty =>
      JObj [("kind", JStr "unidentified"); ("commit", ser_option JStr commit);
            ("dirty", JBool dirty)]
  end.

Definition is_unidentified (t : VerificationTarget) : bool :=
  match t with
  | TUnidentified _ _ => true
  | _ => false
  end.

Definition verification_view (stored : option VerificationRecord) (record_revision : Z) : Json :=
  match stored with
  | None =>
      JObj [("status", JStr "not_run"); ("stale", JBool false); ("target", JNull);
            ("record_revision", JNull); ("checked_at", JNull)]
  | Some stored =>
      let current :=
        (ver_record_revision stored =? record_revision)
        && negb (is_unidentified (ver_target stored)) in
      JObj [("status", JStr (if current then verification_status_as_str (ver_status stored)
                             else "not_run"));
            ("stale", JBool (negb current));
            ("target", target_json (ver_target stored));
            ("record_revision", JInt (ver_record_revision stored));
            ("checked_at", JInt (ver_checked_at stored))]
  end.

Definition delivery_view (stored : option DeliveryRecord) : Json :=
  match stored with
  | None =>
      JObj [("status", JStr "not_started"); ("branch", JNull); ("pull_request", JNull);
            ("updated_at", JNull)]
  | Some stored =>
      JObj [("status", JStr (delivery_status_as_str (del_status stored)));
            ("branch", ser_option JStr (del_branch stored));
            ("pull_request", ser_option JStr (del_pull_request stored));
            ("updated_at", JInt (del_updated_at stored))]
  end.

(** [u64::to_le_bytes]. *)
Fixpoint le_bytes (width : nat) (n : Z) : list Z :=
  match width with
  | O => []
  | S width => Z.land n 255 :: le_bytes width (Z.shiftr n 8)
  end.

Section ExecutionId.
Context `{UuidLib} (as_bytes : Uuid -> list Z) (from_bytes : list Z -> Uuid)
  (new_v5 : Uuid -> list Z -> Uuid).

Definition EXECUTION_ID_NAMESPACE : Uuid :=
  from_bytes [232; 208; 189; 178; 96; 250; 81; 203; 175; 159; 146; 192; 53; 154; 206; 155].

Definition execution_id_bytes (task_id : Uuid) (generation : Z) : list Z :=
  as_bytes task_id ++ le_bytes 8 generation.

Definition execution_id (task_id : Uuid) (generation : Z) : Uuid :=
  new_v5 EXECUTION_ID_NAMESPACE (execution_id_bytes task_id generation).

Definition execution_view (task_id : Uuid) (generation : Z) (state : string) : Json :=
  JObj [("id", JStr (uuid_to_string (execution_id task_id generation)));
        ("generation", JInt generation); ("state", JStr state)].
End ExecutionId.

(** * Bounded waiting (wait.rs) *)

(** Tokio as the loop sees it, times in milliseconds.  [timed_probe k now
    deadline] is [timeout_at(deadline, probe())] for the [k]-th probe, started
    at [now]: what it returned ([None] when the deadline passed first) and the
    time it returned; [slept k now until] is the time [sleep_until] returned. *)
Class Tokio (V : Type) := {
  timed_probe : nat -> Z -> Z -> option (result string V) * Z;
  slept : nat -> Z -> Z -> Z;
}.

(** The clock is monotone, and a sleep does not return early. *)
Class TokioLaws (V : Type) `{Tokio V} := {
  probe_takes_time : forall k now deadline, now <= (timed_probe k now deadline).2;
  sleep_reaches : forall k now until, now <= slept k now until /\ until <= slept k now until;
}.

Section Wait.
Context {V : Type} `{JsonValue V} `{!Tokio V}.

(** The value the wait returns: a probe's view as it is, or the document the
    timeout builds. *)
Inductive WaitAnswer : Type :=
| Probed (view : V)
| TimedOut (document : Json).

Definition view_revision (view : V) : option Z := v ← v_get view "revision"; v_as_u64 v.
Definition view_status (view : V) : option string := v ← v_get view "status"; v_as_str v.
Definition view_flag (view : V) (key : string) : bool :=
  bool_decide ((v ← v_get view key; v_as_bool v) = Some true).

(** [matches!(status, Some("running" | "accepted" | "not_modified"))] *)
Definition quiet_status (status : option string) : bool :=
  is_some_and (fun s => String.eqb s "running" || String.eqb s "accepted"
                        || String.eqb s "not_modified") status.

(** The condition under which the loop returns the view. *)
Definition needs_attention (after_revision : option Z) (view : V) : bool :=
  is_none after_revision
  || negb (bool_decide (view_revision view = after_revision))
  || negb (quiet_status (view_status view))
  || is_some_and (fun state => negb (v_is_null state)) (v_get view "recovery_state")
  || view_flag view "reconciliation_required"
  || view_flag view "reconciliation_deferred".

Definition timeout_document (task_id : string) (last_revision : option Z) : Json :=
  JObj ([("task_id", JStr task_id);
         ("status", JStr (if is_some last_revision then "not_modified" else "wait_timeout"));
         ("wait", JObj [("outcome", JStr "timeout")])]
        ++ match last_revision with
           | Some revision => [("revision", JInt revision)]
           | None => []
           end).

(** The loop; a unit of fuel is a probe.  [None] is running out of fuel. *)
Fixpoint wait_loop (fuel k : nat) (task_id : string) (after_revision : option Z)
    (deadline now interval : Z) (last_revision : option Z) :
    option (result string WaitAnswer) :=
  match fuel with
  | O => None
  | S fuel =>
      match timed_probe k now deadline with
      | (None, _) => Some (Ok (TimedOut (timeout_document task_id last_revision)))
      | (Some (Err e), _) => Some (Err e)
      | (Some (Ok view), now) =>
          if needs_attention after_revision view then Some (Ok (Probed view))
          else
            let last_revision := view_revision view in
            let next_probe := Z.min (now + interval) deadline in
            let now := slept k now next_probe in
            if deadline <=? now
            then Some (Ok (TimedOut (timeout_document task_id last_revision)))
            else wait_loop fuel (S k) task_id after_revision deadline now
                   (Z.min (interval * 2) 2000) last_revision
      end
  end.

Definition for_update (fuel : nat) (task_id : string) (after_revision : option Z)
    (start wait_ms : Z) : option (result string WaitAnswer) :=
  wait_loop fuel 0 task_id after_revision (start + wait_ms) start 500 None.
End Wait.

(** * Views *)

(** A verification is reported as passed exactly when a passing result is
    stored for the current record revision and identifies its content; a
    stored result that is not current reads as [not_run] with [stale] set, and
    its target stays visible. *)
Theorem verification_view_spec (stored : option VerificationRecord) (record_revision : Z) :
  let view := verification_view stored record_revision in
  (JsonModel.tree_get view "status" = Some (JStr "passed") <->
   exists r, stored = Some r /\ ver_status r = VPassed
     /\ ver_record_revision r = record_revision /\ is_unidentified (ver_target r) = false)
  /\ (JsonModel.tree_get view "stale" = Some (JBool true) <->
      exists r, stored = Some r
        /\ (ver_record_revision r <> record_revision \/ is_unidentified (ver_target r) = true))
  /\ (JsonModel.tree_get view "stale" = Some (JBool true) ->
      JsonModel.tree_get view "status" = Some (JStr "not_run"))
  /\ (forall r, stored = Some r ->
      JsonModel.tree_get view "target" = Some (target_json (ver_target r))).
Proof.
  intros view. subst view. destruct stored as [[st t rr ck]|]; cbn [verification_view ver_status
    ver_target ver_record_revision ver_checked_at].
  2: { cbn. split_and!; naive_solver. }
  set (current := (rr =? record_revision) && negb (is_unidentified t)).
  assert (Hc : current = true <-> rr = record_revision /\ is_unidentified t = false)
    by (subst current; rewrite andb_true_iff, Z.eqb_eq, negb_true_iff; done).
  assert (Hn : current = false <-> rr <> record_revision \/ is_unidentified t = true)
    by (subst current; rewrite andb_false_iff, Z.eqb_neq, negb_false_iff; done).
  clearbody current. cbn. split_and!.
  - destruct current, st; simpl; naive_solver.
  - destruct current; simpl; naive_solver.
  - destruct current; simpl; naive_solver.
  - naive_solver.
Qed.

(** * Execution ids *)

Lemma le_bytes_mod (w : nat) (n m : Z) :
  0 <= n -> 0 <= m -> le_bytes w n = le_bytes w m ->
  n mod 2 ^ (8 * Z.of_nat w) = m mod 2 ^ (8 * Z.of_nat w).
Proof.
  revert n m. induction w as [|w IH]; intros n m Hn Hm; [simpl; by rewrite !Z.mod_1_r|].
  cbn [le_bytes]. intros [= Hb Hr].
  change 255 with (Z.ones 8) in Hb. rewrite !Z.land_ones in Hb by lia.
  rewrite !Z.shiftr_div_pow2 in Hr by lia. apply IH in Hr; [|apply Z.div_pos; lia..].
  replace (8 * Z.of_nat (S w)) with (8 + 8 * Z.of_nat w) by lia.
  rewrite Z.pow_add_r, !Z.rem_mul_r by lia. congruence.
Qed.

Lemma le_bytes_inj (n m : Z) : u64 n -> u64 m -> le_bytes 8 n = le_bytes 8 m -> n = m.
Proof.
  unfold u64, U64_MAX. intros Hn Hm Hb. apply le_bytes_mod in Hb; [|lia..].
  change (2 ^ (8 * Z.of_nat 8)) with 18446744073709551616 in Hb.
  by rewrite !Z.mod_small in Hb by lia.
Qed.

(** The hash input of an execution id names one (task, generation) pair:
    two executions hash the same bytes only if they are the same execution. *)
Theorem execution_id_bytes_inj `{UuidLib} (as_bytes : Uuid -> list Z) (t t' : Uuid) (g g' : Z) :
  (forall u, length (as_bytes u) = 16%nat) -> (forall u v, as_bytes u = as_bytes v -> u = v) ->
  u64 g -> u64 g' ->
  execution_id_bytes as_bytes t g = execution_id_bytes as_bytes t' g' -> t = t' /\ g = g'.
Proof.
  intros Hlen Hinj Hg Hg' Hb. unfold execution_id_bytes in Hb.
  apply app_inj_1 in Hb as [Ht Hgb]; [|by rewrite !Hlen].
  split; [by apply Hinj|by apply le_bytes_inj].
Qed.

(** * The wait loop *)

Section WaitTheorems.
Context {V : Type} `{JsonValue V} `{!Tokio V}.

Lemma needs_attention_false (after_revision : option Z) (view : V) :
  needs_attention after_revision view = false ->
  after_revision <> None /\ view_revision view = after_revision.
Proof.
  unfold needs_attention. rewrite !orb_false_iff, negb_false_iff, bool_decide_eq_true.
  intros [[[[[Ha Hv] _] _] _] _]. split; [|done]. by intros ->.
Qed.

(** One probe either ends the wait or sleeps for the whole interval. *)
Lemma wait_loop_step `{!TokioLaws V} (fuel k : nat) (task_id : string) (after last : option Z)
    (deadline now interval : Z) :
  (exists a, wait_loop (S fuel) k task_id after deadline now interval last = Some a)
  \/ exists now' last', now + interval <= now' < deadline
     /\ wait_loop (S fuel) k task_id after deadline now interval last
        = wait_loop fuel (S k) task_id after deadline now' (Z.min (interval * 2) 2000) last'.
Proof.
  cbn [wait_loop]. destruct (timed_probe k now deadline) as [[[view|e]|] now1] eqn:Hp; eauto.
  destruct (needs_attention after view); [by eauto|].
  pose proof (probe_takes_time k now deadline) as Ht. rewrite Hp in Ht. simpl in Ht.
  destruct (sleep_reaches k now1 (Z.min (now1 + interval) deadline)) as [H1 H2].
  destruct (Z.leb_spec deadline (slept k now1 (Z.min (now1 + interval) deadline))); [by eauto|].
  right. do 2 eexists. split; [|done]. lia.
Qed.

Lemma wait_loop_steady `{!TokioLaws V} (fuel k : nat) (task_id : string) (after last : option Z)
    (deadline now : Z) :
  (0 < fuel)%nat -> deadline - now <= 2000 * Z.of_nat fuel ->
  exists a, wait_loop fuel k task_id after deadline now 2000 last = Some a.
Proof.
  revert k now last. induction fuel as [|fuel IH]; intros k now last Hf Hd; [lia|].
  destruct (wait_loop_step fuel k task_id after last deadline now 2000)
    as [Ha|(now' & last' & Hn & ->)]; [done|].
  change (Z.min (2000 * 2) 2000) with 2000. apply IH; lia.
Qed.

(** The wait is bounded: whatever the backend answers and however long it
    takes, a wait of at most thirty seconds makes at most seventeen probes
    (immediately, after 0.5 s, after 1 s more, then every 2 s) and returns. *)
Theorem for_update_returns `{!TokioLaws V} (task_id : string) (after_revision : option Z)
    (start wait_ms : Z) :
  wait_ms <= 30000 -> exists a, for_update 17 task_id after_revision start wait_ms = Some a.
Proof.
  intros Hw. unfold for_update.
  destruct (wait_loop_step 16 0 task_id after_revision None (start + wait_ms) start 500)
    as [Ha|(now1 & last1 & Hn1 & ->)]; [done|]. change (Z.min (500 * 2) 2000) with 1000.
  destruct (wait_loop_step 15 1 task_id after_revision last1 (start + wait_ms) now1 1000)
    as [Ha|(now2 & last2 & Hn2 & ->)]; [done|]. change (Z.min (1000 * 2) 2000) with 2000.
  apply wait_loop_steady; lia.
Qed.

(** What makes a view worth the caller's attention, field by field: there was no
    cursor, the revision is another one, the task is neither running nor accepted nor
    unchanged, it is being recovered, or it has to be reconciled. *)
Inductive attention (after_revision : option Z) (view : V) : Prop :=
| att_no_cursor (Ha : after_revision = None)
| att_revision (Hr : (v ← v_get view "revision"; v_as_u64 v) <> after_revision)
| att_status (Hs : forall s, s ∈ ["running"; "accepted"; "not_modified"]%string ->
    (v ← v_get view "status"; v_as_str v) <> Some s)
| att_recovery (v : V) (Hv : v_get view "recovery_state" = Some v) (Hn : v_is_null v = false)
| att_flag (key : string) (v : V)
    (Hk : key ∈ ["reconciliation_required"; "reconciliation_deferred"]%string)
    (Hv : v_get view key = Some v) (Hb : v_as_bool v = Some true).

Lemma view_flag_true (view : V) (key : string) :
  view_flag view key = true <-> exists v, v_get view key = Some v /\ v_as_bool v = Some true.
Proof. unfold view_flag. rewrite bool_decide_eq_true, bind_Some. done. Qed.

Lemma quiet_status_true (status : option string) :
  quiet_status status = true <->
  exists s, s ∈ ["running"; "accepted"; "not_modified"]%string /\ status = Some s.
Proof.
  unfold quiet_status. setoid_rewrite list_elem_of_In. destruct status as [s|]; simpl; [|naive_solver].
  rewrite !orb_true_iff, !String.eqb_eq. naive_solver.
Qed.

Lemma needs_attention_iff (after_revision : option Z) (view : V) :
  needs_attention after_revision view = true <-> attention after_revision view.
Proof.
  unfold needs_attention. rewrite !orb_true_iff, is_none_true, !negb_true_iff, !view_flag_true.
  rewrite bool_decide_eq_false. unfold view_revision, view_status. split.
  - intros [[[[[Ha|Hr]|Hs]|Hv]|(v & Hv & Hb)]|(v & Hv & Hb)].
    + by apply att_no_cursor.
    + by apply att_revision.
    + apply att_status. intros s Hin He. apply not_true_iff_false in Hs. apply Hs, quiet_status_true. eauto.
    + destruct (v_get view "recovery_state") as [v|] eqn:Hg; [|done]. simpl in Hv.
      apply negb_true_iff in Hv. by eapply att_recovery.
    + eapply (att_flag _ _ "reconciliation_required"); [apply list_elem_of_In; simpl; auto|done..].
    + eapply (att_flag _ _ "reconciliation_deferred"); [apply list_elem_of_In; simpl; auto|done..].
  - intros [Ha|Hr|Hs|v Hv Hn|key v Hk Hv Hb].
    + by do 5 left.
    + do 4 left. by right.
    + do 3 left. right. apply not_true_iff_false. intros (s & Hin & He)%quiet_status_true. by apply (Hs s).
    + do 2 left. right. by rewrite Hv; simpl; rewrite Hn.
    + apply list_elem_of_In in Hk as [<-|[<-|[]]]; [left; right|right]; eauto.
Qed.

(** The probes the wait makes: [probe_at k now interval] when its [k]-th probe starts
    at [now], the next one being due [interval] later.  Every earlier one answered
    before the deadline with a view that needs no attention. *)
Inductive probe_at (after_revision : option Z) (deadline start : Z) : nat -> Z -> Z -> Prop :=
| probe_first : probe_at after_revision deadline start 0 start 500
| probe_next (k : nat) (now interval now1 : Z) (view : V)
    (Hbefore : probe_at after_revision deadline start k now interval)
    (Hanswer : timed_probe k now deadline = (Some (Ok view), now1))
    (Hquiet : ~ attention after_revision view)
    (Hin_time : slept k now1 (Z.min (now1 + interval) deadline) < deadline) :
    probe_at after_revision deadline start (S k) (slept k now1 (Z.min (now1 + interval) deadline))
      (Z.min (interval * 2) 2000).

(** What the caller is told when the time is over, with and without a revision. *)
Definition timeout_reply (task_id : string) (known : option Z) : Json :=
  match known with
  | None => JObj [("task_id", JStr task_id); ("status", JStr "wait_timeout");
                  ("wait", JObj [("outcome", JStr "timeout")])]
  | Some revision => JObj [("task_id", JStr task_id); ("status", JStr "not_modified");
                           ("wait", JObj [("outcome", JStr "timeout")]); ("revision", JInt revision)]
  end.

Lemma timeout_document_reply (task_id : string) (known : option Z) :
  timeout_document task_id known = timeout_reply task_id known.
Proof. by destruct known. Qed.

(** What the last probe of a wait must have been for its answer. *)
Definition answer_of_probe (task_id : string) (after_revision : option Z) (deadline : Z)
    (k : nat) (now interval : Z) (a : result string WaitAnswer) : Prop :=
  match a with
  | Ok (Probed view) =>
      (timed_probe k now deadline).1 = Some (Ok view) /\ attention after_revision view
  | Err e => (timed_probe k now deadline).1 = Some (Err e)
  | Ok (TimedOut document) =>
      ((timed_probe k now deadline).1 = None
       /\ document = timeout_reply task_id (if (k =? 0)%nat then None else after_revision))
      \/ (exists view now1, timed_probe k now deadline = (Some (Ok view), now1)
          /\ ~ attention after_revision view
          /\ deadline <= slept k now1 (Z.min (now1 + interval) deadline)
          /\ document = timeout_reply task_id after_revision)
  end.

Lemma wait_loop_honest (fuel k : nat) (task_id : string) (after last : option Z)
    (deadline start now interval : Z) (a : result string WaitAnswer) :
  probe_at after deadline start k now interval ->
  last = (if (k =? 0)%nat then None else after) ->
  wait_loop fuel k task_id after deadline now interval last = Some a ->
  exists k' now' interval', probe_at after deadline start k' now' interval'
    /\ answer_of_probe task_id after deadline k' now' interval' a.
Proof.
  revert k now interval last. induction fuel as [|fuel IH]; intros k now interval last Hp Hlast; [done|].
  cbn [wait_loop]. destruct (timed_probe k now deadline) as [[[view|e]|] now1] eqn:Ht.
  - destruct (needs_attention after view) eqn:Hn.
    { intros [= <-]. exists k, now, interval. split; [done|]. simpl. rewrite Ht.
      by apply needs_attention_iff in Hn. }
    assert (Hq : ~ attention after view) by (rewrite <- needs_attention_iff; congruence).
    apply needs_attention_false in Hn as [Hs Hv]. rewrite Hv.
    destruct (Z.leb_spec deadline (slept k now1 (Z.min (now1 + interval) deadline))).
    + intros [= <-]. exists k, now, interval. split; [done|]. right. exists view, now1.
      by rewrite timeout_document_reply.
    + intros Hw. eapply IH; [| |exact Hw]; [by eapply probe_next|done].
  - intros [= <-]. exists k, now, interval. split; [done|]. simpl. by rewrite Ht.
  - intros [= <-]. exists k, now, interval. split; [done|]. left.
    by rewrite Ht, Hlast, timeout_document_reply.
Qed.

(** C40: the wait adds nothing to what the backend said.  Its answer is decided by one of
    the probes it really made, every earlier one having answered in time that nothing
    needs attention: it is that probe's view unchanged, and then the view needs the
    caller's attention; or that probe's error; or a timeout document, when that probe
    passed the deadline or the sleep after it did, whose only revision, if any, is
    the cursor the caller came with. *)
Theorem for_update_honest (fuel : nat) (task_id : string) (after_revision : option Z)
    (start wait_ms : Z) (a : result string WaitAnswer) :
  for_update fuel task_id after_revision start wait_ms = Some a ->
  exists k now interval, probe_at after_revision (start + wait_ms) start k now interval
    /\ answer_of_probe task_id after_revision (start + wait_ms) k now interval a.
Proof. intros Hw. eapply wait_loop_honest; [constructor|done|exact Hw]. Qed.
End WaitTheorems.

(** * Witnesses *)

Module OutcomeWitness.
Import JsonModel.

(** A backend that answers at once that revision 3 is still running. *)
Definition running3 : Json := JObj [("revision", JInt 3); ("status", JStr "running")].

#[local] Instance running_clock : Tokio Json := {
  timed_probe k now deadline := (Some (Ok running3), now + 7);
  slept k now until := Z.max now until + 1;
}.

#[local] Instance running_clock_laws : TokioLaws Json.
Proof. split; intros; simpl; lia. Qed.

Lemma for_update_returns_witness :
  exists a, for_update 17 "t" (Some 3) 1000 30000 = Some a.
Proof. apply (for_update_returns "t" (Some 3) 1000 30000). lia. Defined.

Lemma running_timeout :
  for_update 17 "t" (Some 3) 1000 30000 = Some (Ok (TimedOut (timeout_document "t" (Some 3)))).
Proof. vm_compute. reflexivity. Qed.

Lemma for_update_honest_witness :
  exists k now interval, probe_at (Some 3) (1000 + 30000) 1000 k now interval
    /\ answer_of_probe "t" (Some 3) (1000 + 30000) k now interval
         (Ok (TimedOut (timeout_document "t" (Some 3)))).
Proof.
  exact (for_update_honest 17 "t" (Some 3) 1000 30000 _ running_timeout).
Defined.
End OutcomeWitness.
