(* ===== verification/Upgrade.v ===== *)
(** Durable upgrade transactions: src/src/upgrade_transaction.rs (with the
    identifier checks of host_identity.rs and config.rs it calls).

    The transaction directory is a map from file names to files; a write can
    fail as the file system chooses ([io_error]).  The record's derived serde
    code is the class [TransactionCodec].  [config::unix_time] is a clock the
    environment chooses.  Error texts leave out the paths and modes formatted
    into them. *)

From S2P Require Import Prelude Strings Json.
From stdpp Require Import pretty.
#[local] Open Scope Z_scope.
#[local] Open Scope rust_scope.

(** * States *)

Inductive UpgradeTransactionState : Type :=
| Prepared
| Committed
| SupervisorHandoff
| SessionsVerifying
| IngressRestarting
| EndpointVerifying
| PluginReconciling
| Completed
| Failed
| RolledBack.

#[global] Instance upgrade_state_eq_dec : EqDecision UpgradeTransactionState.
Proof. solve_decision. Defined.

Definition state_as_str (s : UpgradeTransactionState) : string :=
  match s with
  | Prepared => "prepared"
  | Committed => "committed"
  | SupervisorHandoff => "supervisor_handoff"
  | SessionsVerifying => "sessions_verifying"
  | IngressRestarting => "ingress_restarting"
  | EndpointVerifying => "endpoint_verifying"
  | PluginReconciling => "plugin_reconciling"
  | Completed => "completed"
  | Failed => "failed"
  | RolledBack => "rolled_back"
  end.

Definition is_terminal (s : UpgradeTransactionState) : bool :=
  match s with
  | Completed | Failed | RolledBack => true
  | _ => false
  end.

Definition forward_order (s : UpgradeTransactionState) : option Z :=
  match s with
  | Prepared => Some 0
  | Committed => Some 1
  | SupervisorHandoff => Some 2
  | SessionsVerifying => Some 3
  | IngressRestarting => Some 4
  | EndpointVerifying => Some 5
  | PluginReconciling => Some 6
  | Completed => Some 7
  | Failed | RolledBack => None
  end.

Definition can_transition_to (s next : UpgradeTransactionState) : bool :=
  if is_terminal s then false
  else match next with
  | Failed | RolledBack => true
  | _ =>
      match forward_order s, forward_order next with
      | Some current, Some next => current <? next
      | _, _ => false
      end
  end.

(** * Records *)

Record UpgradePlannedSession : Type := mkPlanned {
  pl_session_id : string;
  pl_source_process_id : Z;
  pl_source_started_at : Z;
}.

Record UpgradeTransaction : Type := mkTransaction {
  t_schema : Z;
  t_transaction_id : string;
  t_source_version : string;
  t_target_version : string;
  t_host_id : string;
  t_source_boot_generation : string;
  t_state : UpgradeTransactionState;
  t_created_at : Z;
  t_updated_at : Z;
  t_sequence : Z;
  t_reconnect_expected : bool;
  t_supervisor_handoff_required : bool;
  t_ingress_restart_required : bool;
  t_planned_session_count : Z;
  t_planned_sessions : list UpgradePlannedSession;
  t_activity_session : option UpgradePlannedSession;
  t_approved_executable_sha256 : option string;
  t_verified_host_id : option string;
  t_verified_version : option string;
  t_verified_boot_generation : option string;
  t_restored_session_count : option Z;
  t_failure_summary : option string;
}.

#[global] Instance planned_eq_dec : EqDecision UpgradePlannedSession.
Proof. solve_decision. Defined.
#[global] Instance transaction_eq_dec : EqDecision UpgradeTransaction.
Proof. solve_decision. Defined.

Definition UPGRADE_TRANSACTION_SCHEMA_VERSION : Z := 1.
Definition MAX_UPGRADE_TRANSACTION_BYTES : Z := 64 * 1024.
Definition MAX_UPGRADE_TRANSACTIONS : Z := 64.
Definition MAX_PLANNED_SESSIONS : Z := 64.
Definition MAX_UPGRADE_TRANSACTION_STRING_BYTES : Z := 256.
Definition MAX_FAILURE_SUMMARY_BYTES : Z := 1024.

(** [UpgradeTransaction::new], with the id and the time it draws. *)
Definition transaction_new (new_v4 : string) (now : Z)
    (source_version target_version host_id source_boot_generation : string)
    (reconnect_expected supervisor_handoff_required ingress_restart_required : bool) :
    UpgradeTransaction :=
  mkTransaction UPGRADE_TRANSACTION_SCHEMA_VERSION new_v4 source_version target_version host_id
    source_boot_generation Prepared now now 0 reconnect_expected supervisor_handoff_required
    ingress_restart_required 0 [] None None None None None None None.

(** Field updates. *)
Definition with_state (t : UpgradeTransaction) (s : UpgradeTransactionState) (now : Z)
    (summary : option string) : UpgradeTransaction :=
  mkTransaction (t_schema t) (t_transaction_id t) (t_source_version t) (t_target_version t)
    (t_host_id t) (t_source_boot_generation t) s (t_created_at t) now (t_sequence t)
    (t_reconnect_expected t) (t_supervisor_handoff_required t) (t_ingress_restart_required t)
    (t_planned_session_count t) (t_planned_sessions t) (t_activity_session t)
    (t_approved_executable_sha256 t) (t_verified_host_id t) (t_verified_version t)
    (t_verified_boot_generation t) (t_restored_session_count t) summary.

Definition with_restored (t : UpgradeTransaction) (n : option Z) : UpgradeTransaction :=
  mkTransaction (t_schema t) (t_transaction_id t) (t_source_version t) (t_target_version t)
    (t_host_id t) (t_source_boot_generation t) (t_state t) (t_created_at t) (t_updated_at t)
    (t_sequence t) (t_reconnect_expected t) (t_supervisor_handoff_required t)
    (t_ingress_restart_required t) (t_planned_session_count t) (t_planned_sessions t)
    (t_activity_session t) (t_approved_executable_sha256 t) (t_verified_host_id t)
    (t_verified_version t) (t_verified_boot_generation t) n (t_failure_summary t).

Definition with_verified (t : UpgradeTransaction) (host version boot : string) :
    UpgradeTransaction :=
  mkTransaction (t_schema t) (t_transaction_id t) (t_source_version t) (t_target_version t)
    (t_host_id t) (t_source_boot_generation t) (t_state t) (t_created_at t) (t_updated_at t)
    (t_sequence t) (t_reconnect_expected t) (t_supervisor_handoff_required t)
    (t_ingress_restart_required t) (t_planned_session_count t) (t_planned_sessions t)
    (t_activity_session t) (t_approved_executable_sha256 t) (Some host) (Some version)
    (Some boot) (t_restored_session_count t) (t_failure_summary t).

(** * State changes; the error leaves the record as it was *)

Definition terminal_error (t : UpgradeTransaction) : string :=
  "upgrade transaction " +:+ t_transaction_id t +:+ " is already terminal ("
  +:+ state_as_str (t_state t) +:+ ")".

Definition set_state (now : Z) (t : UpgradeTransaction) (s : UpgradeTransactionState) :
    result string UpgradeTransaction :=
  ensure (negb (is_terminal (t_state t))) (terminal_error t) ;!
  ensure (can_transition_to (t_state t) s)
    ("invalid upgrade transaction transition " +:+ state_as_str (t_state t) +:+ " -> "
     +:+ state_as_str s) ;!
  Ok (with_state t s now (t_failure_summary t)).

Definition nul_free (s : string) : bool := negb (str_contains 0 s).

Definition validate_summary (summary : string) : result string unit :=
  ensure (str_len summary <=? MAX_FAILURE_SUMMARY_BYTES)
    "upgrade transaction failure summary exceeds 1024 bytes" ;!
  ensure (nul_free summary) "upgrade transaction failure summary must not contain NUL".

Definition mark_failed (now : Z) (t : UpgradeTransaction) (summary : string) :
    result string UpgradeTransaction :=
  ensure (negb (is_terminal (t_state t))) (terminal_error t) ;!
  validate_summary summary ;!
  Ok (with_state t Failed now (Some summary)).

Definition mark_rolled_back (now : Z) (t : UpgradeTransaction) (summary : option string) :
    result string UpgradeTransaction :=
  ensure (negb (is_terminal (t_state t))) (terminal_error t) ;!
  match summary with
  | Some summary =>
      validate_summary summary ;!
      Ok (with_state t RolledBack now (Some summary))
  | None => Ok (with_state t RolledBack now (t_failure_summary t))
  end.

Definition coordinator_phases (t : UpgradeTransaction) : list UpgradeTransactionState :=
  (if t_supervisor_handoff_required t then [SupervisorHandoff] else [])
  ++ [SessionsVerifying]
  ++ (if t_ingress_restart_required t then [IngressRestarting] else [])
  ++ [EndpointVerifying; PluginReconciling; Completed].

(** * The reconnect-safe view *)

Record UpgradeTransactionStatus : Type := mkStatus {
  st_transaction_id : string;
  st_state : UpgradeTransactionState;
  st_terminal : bool;
  st_source_version : string;
  st_target_version : string;
  st_host_id : string;
  st_reconnect_expected : bool;
  st_supervisor_handoff_required : bool;
  st_ingress_restart_required : bool;
  st_planned_session_count : Z;
  st_created_at : Z;
  st_updated_at : Z;
  st_verified_host_id : option string;
  st_verified_version : option string;
  st_verified_boot_generation : option string;
  st_restored_session_count : option Z;
  st_coordinator_alive : option bool;
  st_incomplete : bool;
  st_failure_summary : option string;
}.

Definition status (t : UpgradeTransaction) : UpgradeTransactionStatus :=
  mkStatus (t_transaction_id t) (t_state t) (is_terminal (t_state t)) (t_source_version t)
    (t_target_version t) (t_host_id t) (t_reconnect_expected t)
    (t_supervisor_handoff_required t) (t_ingress_restart_required t)
    (t_planned_session_count t) (t_created_at t) (t_updated_at t) (t_verified_host_id t)
    (t_verified_version t) (t_verified_boot_generation t) (t_restored_session_count t)
    None false (t_failure_summary t).

(** * Admission over the durable set *)

Inductive UpgradeApplyDisposition : Type :=
| StartNew
| ExistingActive (id : string)
| ConflictActive (id : string)
| AlreadyCompleted (id : string).

(** The key [max_by_key] compares: lexicographic, strings bytewise. *)
Definition recency_le (a b : UpgradeTransaction) : bool :=
  if t_sequence a =? t_sequence b
  then if t_updated_at a =? t_updated_at b
       then String.leb (t_transaction_id a) (t_transaction_id b)
       else t_updated_at a <? t_updated_at b
  else t_sequence a <? t_sequence b.

(** [Iterator::max_by_key]: of equal maxima the last. *)
Definition max_recent (l : list UpgradeTransaction) : option UpgradeTransaction :=
  fold_left (fun best t =>
    match best with
    | None => Some t
    | Some b => if recency_le b t then Some t else Some b
    end) l None.

Definition recent_transaction (transactions : list UpgradeTransaction) :
    option UpgradeTransaction :=
  max_recent transactions.

Definition next_transaction_sequence (transactions : list UpgradeTransaction) :
    result string Z :=
  ok_or (checked_add (fold_right Z.max 0 (map t_sequence transactions)) 1)
    "upgrade transaction sequence is exhausted".

Definition is_completed (t : UpgradeTransaction) : bool :=
  bool_decide (t_state t = Completed).

Definition latest_completed_transaction (transactions : list UpgradeTransaction) :
    option UpgradeTransaction :=
  max_recent (List.filter is_completed transactions).

Definition active_transactions (transactions : list UpgradeTransaction) :
    list UpgradeTransaction :=
  List.filter (fun t => negb (is_terminal (t_state t))) transactions.

Definition classify_apply (active latest_completed : option UpgradeTransaction)
    (target_version : string) : UpgradeApplyDisposition :=
  match active with
  | Some active =>
      if String.eqb (t_target_version active) target_version
      then ExistingActive (t_transaction_id active)
      else ConflictActive (t_transaction_id active)
  | None =>
      match latest_completed with
      | Some completed =>
          if String.eqb (t_target_version completed) target_version
          then AlreadyCompleted (t_transaction_id completed)
          else StartNew
      | None => StartNew
      end
  end.

Definition admit_apply (transactions : list UpgradeTransaction) (target_version : string) :
    result string UpgradeApplyDisposition :=
  let active := active_transactions transactions in
  ensure (zlen active <=? 1)
    (pretty (zlen active) +:+ " active upgrade transactions already own the local runtime") ;!
  Ok (classify_apply (head active) (latest_completed_transaction transactions) target_version).

Definition transaction_for_health (transactions : list UpgradeTransaction) :
    option UpgradeTransaction :=
  match active_transactions transactions with
  | [transaction] => Some transaction
  | [] => recent_transaction transactions
  | _ => None
  end.

(** * The commit barrier *)

Inductive UpgradeCommitDecision : Type :=
| DecPending
| DecCommitted
| DecAborted.

#[global] Instance decision_eq_dec : EqDecision UpgradeCommitDecision.
Proof. solve_decision. Defined.

Definition decision_str (d : UpgradeCommitDecision) : string :=
  match d with
  | DecPending => "pending"
  | DecCommitted => "committed"
  | DecAborted => "aborted"
  end.

(** [decide]: the value of the [watch] channel after it, and what it returned. *)
Definition decide_barrier (current decision : UpgradeCommitDecision) :
    UpgradeCommitDecision * result string unit :=
  if negb (bool_decide (current = DecPending))
  then (current, Err ("upgrade commit barrier was already decided as " +:+ decision_str current))
  else (decision, Ok tt).

Definition barrier_commit (current : UpgradeCommitDecision) := decide_barrier current DecCommitted.
Definition barrier_abort (current : UpgradeCommitDecision) := decide_barrier current DecAborted.

(** The [watch] channel of the barrier as its waiter sees it: the value, whether
    it was sent since the waiter last marked it seen, and whether every sender is
    gone. *)
Record BarrierChannel : Type := mkChannel {
  bc_value : UpgradeCommitDecision;
  bc_unseen : bool;
  bc_closed : bool;
}.

Definition barrier_new : BarrierChannel := mkChannel DecPending false false.

(** [send_if_modified] marks the value as unseen when [decide] changed it; a
    transport whose last sender is gone has nothing to call. *)
Definition barrier_send (c : BarrierChannel) (after : UpgradeCommitDecision * result string unit) :
    BarrierChannel :=
  if bc_closed c then c
  else match after with
  | (value, Ok _) => mkChannel value true false
  | (_, Err _) => c
  end.

Definition barrier_seen (c : BarrierChannel) : BarrierChannel :=
  mkChannel (bc_value c) false (bc_closed c).

(** What happens to a barrier: the transport's calls and the drop of its last
    clone, and the turns of the waiter, in any interleaving. *)
Inductive BarrierEvent : Type :=
| EvCommit
| EvAbort
| EvDropped
| EvWaiter.

(** Where [UpgradeCommitWaiter::wait] is: before [borrow_and_update], or in
    [changed().await]. *)
Inductive WaiterAt : Type :=
| AtBorrow
| AtChanged.

(** One turn of the waiter: its next section, or its answer.  [changed] looks for
    an unseen value before it looks for senders. *)
Definition waiter_turn (c : BarrierChannel) (at_ : WaiterAt) :
    BarrierChannel * (WaiterAt + UpgradeCommitDecision) :=
  match at_ with
  | AtBorrow =>
      (barrier_seen c,
       if negb (bool_decide (bc_value c = DecPending)) then inr (bc_value c) else inl AtChanged)
  | AtChanged =>
      if bc_unseen c then (barrier_seen c, inl AtBorrow)
      else if bc_closed c then (c, inr DecAborted)
      else (c, inl AtChanged)
  end.

(** [UpgradeCommitWaiter::wait] through a run of the barrier; [None] while it is
    still waiting at the end of it. *)
Fixpoint wait_decision (c : BarrierChannel) (at_ : WaiterAt) (events : list BarrierEvent) :
    option UpgradeCommitDecision :=
  match events with
  | [] => None
  | EvCommit :: rest => wait_decision (barrier_send c (barrier_commit (bc_value c))) at_ rest
  | EvAbort :: rest => wait_decision (barrier_send c (barrier_abort (bc_value c))) at_ rest
  | EvDropped :: rest => wait_decision (mkChannel (bc_value c) (bc_unseen c) true) at_ rest
  | EvWaiter :: rest =>
      match waiter_turn c at_ with
      | (c, inl at_) => wait_decision c at_ rest
      | (_, inr decision) => Some decision
      end
  end.

(** [bounded_failure_summary]: NUL bytes become spaces, and the text is cut
    at the last character boundary within the bound. *)
Definition replace_nul (s : string) : string :=
  string_of_list_ascii
    (map (fun c => if byte_of c =? 0 then " "%char else c) (list_ascii_of_string s)).

Definition bounded_failure_summary (text : string) : string :=
  let sanitized := replace_nul text in
  if str_len sanitized <=? MAX_FAILURE_SUMMARY_BYTES then sanitized
  else String.substring 0 (boundary_before sanitized (Z.to_nat MAX_FAILURE_SUMMARY_BYTES)) sanitized.

(** * Validation and the durable directory *)

Section Durable.
Context `{UuidLib}.

Definition host_id_byte (b : Z) : bool :=
  is_ascii_alphanumeric b || (b =? 46) || (b =? 95) || (b =? 45).

Definition host_id_validate (value : string) : result string string :=
  ensure (negb (str_is_empty value)) "host ID must not be empty" ;!
  ensure (str_len value <=? 128) "host ID must be at most 128 bytes" ;!
  ensure (forallb host_id_byte (str_bytes value))
    "host ID may contain only ASCII letters, digits, '.', '_', and '-'" ;!
  ensure (existsb is_ascii_alphanumeric (str_bytes value))
    "host ID must contain at least one letter or digit" ;!
  Ok value.

(** [chars] of a string whose characters are all ASCII are its bytes. *)
Definition validate_session_id (id : string) : result string unit :=
  ensure (negb (str_is_empty id)) "session ID must not be empty" ;!
  ensure (str_len id <=? 64) "session ID must be at most 64 bytes" ;!
  ensure (forallb host_id_byte (chars id))
    "session ID may contain only ASCII letters, numbers, '-', '_', and '.'" ;!
  ensure (negb (String.eqb id ".") && negb (String.eqb id "..")) "invalid session ID".

Definition validate_transaction_id (transaction_id : string) : result string unit :=
  let! parsed := ok_or (uuid_parse_str transaction_id) "invalid upgrade transaction ID" in
  ensure (String.eqb (uuid_to_string parsed) transaction_id)
    "upgrade transaction ID must be a canonical UUID".

Definition validate_name (name value : string) : result string unit :=
  ensure (negb (trim_is_empty value) && (str_len value <=? MAX_UPGRADE_TRANSACTION_STRING_BYTES))
    ("upgrade transaction " +:+ name +:+ " is empty or oversized") ;!
  ensure (nul_free value) ("upgrade transaction " +:+ name +:+ " must not contain NUL").

Definition validate_opt {A B : Type} (o : option A) (f : A -> result string B) :
    result string unit :=
  match o with
  | Some a => let! _ := f a in Ok tt
  | None => Ok tt
  end.

(** [with_context(c)]: the outermost message of an error is [c]. *)
Definition with_context {A : Type} (r : result string A) (c : string) : result string A :=
  map_err (fun _ => c) r.

Definition identity_complete (p : UpgradePlannedSession) : bool :=
  (0 <? pl_source_process_id p) && (0 <? pl_source_started_at p).

(** The loop over the planned sessions, with the ids inserted so far. *)
Fixpoint validate_planned (seen : list string) (l : list UpgradePlannedSession) :
    result string unit :=
  match l with
  | [] => Ok tt
  | p :: rest =>
      with_context (validate_session_id (pl_session_id p)) "invalid planned upgrade session ID" ;!
      ensure (identity_complete p) "planned upgrade session identity is incomplete" ;!
      ensure (negb (existsb (String.eqb (pl_session_id p)) seen))
        "duplicate planned upgrade session ID" ;!
      validate_planned (pl_session_id p :: seen) rest
  end.

Definition digest_valid (digest : string) : bool :=
  (str_len digest =? 64)
  && forallb (fun b => is_ascii_digit b || in_range 97 102 b) (str_bytes digest).

Definition validate_transaction (t : UpgradeTransaction) : result string unit :=
  ensure (t_schema t =? UPGRADE_TRANSACTION_SCHEMA_VERSION)
    "unsupported upgrade transaction schema" ;!
  validate_transaction_id (t_transaction_id t) ;!
  validate_name "source_version" (t_source_version t) ;!
  validate_name "target_version" (t_target_version t) ;!
  validate_name "source_boot_generation" (t_source_boot_generation t) ;!
  let! _ := with_context (host_id_validate (t_host_id t)) "invalid upgrade transaction host_id" in
  validate_opt (t_activity_session t) (fun session =>
    with_context (validate_session_id (pl_session_id session))
      "invalid upgrade activity session ID" ;!
    ensure (identity_complete session) "upgrade activity session identity is incomplete") ;!
  ensure (zlen (t_planned_sessions t) <=? MAX_PLANNED_SESSIONS)
    "upgrade transaction contains too many planned sessions" ;!
  validate_planned [] (t_planned_sessions t) ;!
  ensure (bool_decide (t_planned_sessions t = [])
          || (t_planned_session_count t =? zlen (t_planned_sessions t)))
    "planned upgrade session count does not match identities" ;!
  validate_opt (t_approved_executable_sha256 t) (fun digest =>
    ensure (digest_valid digest) "approved upgrade executable identity is invalid") ;!
  validate_opt (t_verified_host_id t) (fun host_id =>
    with_context (host_id_validate host_id) "invalid verified upgrade transaction host_id") ;!
  validate_opt (t_verified_version t) (validate_name "verified_version") ;!
  validate_opt (t_verified_boot_generation t) (validate_name "verified_boot_generation") ;!
  validate_opt (t_failure_summary t) validate_summary.

(** A directory entry: what [open] with [O_NOFOLLOW] and [fstat] see. *)
Inductive EntryKind : Type :=
| RegularFile
| SymbolicLink
| OtherFile.

#[global] Instance entry_kind_eq_dec : EqDecision EntryKind.
Proof. solve_decision. Defined.

Record DirEntry : Type := mkEntry {
  en_kind : EntryKind;
  en_mode : Z;
  en_bytes : string;
}.

#[local] Notation Dir := (gmap string DirEntry).

(** The record's derived [Serialize] and [Deserialize], through serde_json. *)
Class TransactionCodec := {
  to_vec_pretty : UpgradeTransaction -> option string;
  txn_from_slice : string -> option UpgradeTransaction;
}.

(** What was written reads back as the same record. *)
Class TransactionCodecLaws `{TransactionCodec} := {
  txn_round_trip : forall t b, to_vec_pretty t = Some b -> txn_from_slice b = Some t;
}.

(** What the system answers to one call that changes the directory: the name the
    temporary file gets ([std::process::id] and a fresh uuid), the step of a write
    that fails with its error, whether removing the temporary file after it fails
    too, and the error of [remove_transaction]'s own [remove_file]. *)
Inductive WriteStep : Type :=
| CreateTemporary
| WriteBytes (written : string)
| SyncFile
| RenameOver.

Record DirectoryIo : Type := mkIo {
  io_suffix : string;
  io_fault : option (WriteStep * string);
  io_cleanup_fails : bool;
  io_remove_error : option string;
}.

Context `{!TransactionCodec} (io : Dir -> string -> DirectoryIo).

Definition file_name (transaction_id : string) : string := transaction_id +:+ ".json".

(** [path.with_extension(format!("json.{pid}.{uuid}.tmp"))] *)
Definition temporary_name (path suffix : string) : string := path +:+ "." +:+ suffix +:+ ".tmp".

Definition transaction_path (transaction_id : string) : result string string :=
  validate_transaction_id transaction_id ;!
  Ok (file_name transaction_id).

Definition new_file (bytes : string) : DirEntry := mkEntry RegularFile 384 bytes.

(** The closure of [write_transaction]: create, write, sync, rename; each [?]
    leaves the temporary file as it is. *)
Definition replace_record (d : Dir) (path temporary bytes : string)
    (fault : option (WriteStep * string)) : Dir * result string unit :=
  match d !! temporary, fault with
  | Some _, _ => (d, Err ("failed to create upgrade transaction " +:+ temporary))
  | None, Some (CreateTemporary, _) =>
      (d, Err ("failed to create upgrade transaction " +:+ temporary))
  | None, Some (WriteBytes written, e) => (<[temporary := new_file written]> d, Err e)
  | None, Some (SyncFile, e) => (<[temporary := new_file bytes]> d, Err e)
  | None, Some (RenameOver, _) =>
      (<[temporary := new_file bytes]> d, Err ("failed to replace upgrade transaction " +:+ path))
  | None, None => (<[path := new_file bytes]> d, Ok tt)
  end.

(** After an error [let _ = remove_file(&temporary)]. *)
Definition write_transaction (d : Dir) (t : UpgradeTransaction) : Dir * result string unit :=
  match
    validate_transaction t ;!
    let! path := transaction_path (t_transaction_id t) in
    let! bytes := ok_or (to_vec_pretty t) "serialize" in
    ensure (str_len bytes <=? MAX_UPGRADE_TRANSACTION_BYTES)
      "upgrade transaction exceeds 65536 bytes" ;!
    Ok (path, bytes)
  with
  | Err e => (d, Err e)
  | Ok (path, bytes) =>
      let answers := io d path in
      let temporary := temporary_name path (io_suffix answers) in
      match replace_record d path temporary bytes (io_fault answers) with
      | (d, Ok u) => (d, Ok u)
      | (d, Err e) => (if io_cleanup_fails answers then d else delete temporary d, Err e)
      end
  end.

Definition read_transaction_if_present (d : Dir) (transaction_id : string) :
    result string (option UpgradeTransaction) :=
  let! path := transaction_path transaction_id in
  match d !! path with
  | None => Ok None
  | Some file =>
      ensure (negb (bool_decide (en_kind file = SymbolicLink))) "cannot open upgrade transaction" ;!
      ensure (bool_decide (en_kind file = RegularFile))
        "upgrade transaction must be a regular file" ;!
      ensure (str_len (en_bytes file) <=? MAX_UPGRADE_TRANSACTION_BYTES)
        "upgrade transaction exceeds 65536 bytes" ;!
      ensure (Z.land (Z.land (en_mode file) 511) 63 =? 0)
        "upgrade transaction must be owner-only" ;!
      let! transaction := ok_or (txn_from_slice (en_bytes file)) "invalid upgrade transaction" in
      validate_transaction transaction ;!
      ensure (String.eqb (t_transaction_id transaction) transaction_id)
        "upgrade transaction ID does not match its file name" ;!
      Ok (Some transaction)
  end.

Definition read_transaction (d : Dir) (transaction_id : string) :
    result string UpgradeTransaction :=
  let! o := read_transaction_if_present d transaction_id in
  ok_or o ("upgrade transaction " +:+ transaction_id +:+ " is not present").

Definition remove_transaction (d : Dir) (transaction_id : string) : Dir * result string unit :=
  match transaction_path transaction_id with
  | Err e => (d, Err e)
  | Ok path =>
      match d !! path with
      | None => (d, Ok tt)
      | Some file =>
          if negb (bool_decide (en_kind file = RegularFile))
          then (d, Err "refusing to remove upgrade transaction through a non-regular file")
          else match io_remove_error (io d path) with
          | Some e => (d, Err e)
          | None => (delete path d, Ok tt)
          end
      end
  end.

(** The loop of [list_transaction_ids] stops at the entry that makes one id too
    many, whatever the order of the scan. *)
Definition list_transaction_ids (d : Dir) : result string (list string) :=
  let ids :=
    omap (fun name =>
      match str_strip_suffix ".json" name with
      | Some id => if is_ok (validate_transaction_id id) then Some id else None
      | None => None
      end) (map fst (map_to_list d)) in
  ensure (zlen ids <=? MAX_UPGRADE_TRANSACTIONS) "too many upgrade transactions" ;!
  Ok (sort_strings ids).

Fixpoint load_ids (d : Dir) (ids : list string) : result string (list UpgradeTransaction) :=
  match ids with
  | [] => Ok []
  | id :: rest =>
      let! o := read_transaction_if_present d id in
      let! l := load_ids d rest in
      match o with
      | Some t => Ok (t :: l)
      | None => Ok l
      end
  end.

Definition load_transactions (d : Dir) : result string (list UpgradeTransaction) :=
  let! ids := list_transaction_ids d in
  load_ids d ids.

Definition classify_persisted_apply (d : Dir) (target_version : string) :
    result string UpgradeApplyDisposition :=
  let! transactions := load_transactions d in
  admit_apply transactions target_version.

(** The locks a live process holds, by transaction id. *)
Record IncompleteUpgradeTransaction : Type := mkIncomplete {
  in_transaction_id : string;
  in_state : UpgradeTransactionState;
  in_target_version : string;
}.

Fixpoint incomplete_of (d : Dir) (locks : gset string) (ids : list string) :
    result string (list IncompleteUpgradeTransaction) :=
  match ids with
  | [] => Ok []
  | id :: rest =>
      let! t := read_transaction d id in
      if is_terminal (t_state t) then incomplete_of d locks rest
      else if bool_decide (id ∈ locks) then incomplete_of d locks rest
      else
        let! l := incomplete_of d locks rest in
        Ok (mkIncomplete (t_transaction_id t) (t_state t) (t_target_version t) :: l)
  end.

Definition incomplete_upgrade_transactions (d : Dir) (locks : gset string) :
    result string (list IncompleteUpgradeTransaction) :=
  let! ids := list_transaction_ids d in
  incomplete_of d locks ids.

(** * The coordinator *)

Inductive UpgradeCoordinatorStep : Type :=
| StepContinue
| StepRollback.

Record UpgradeVerifiedIdentity : Type := mkIdentity {
  vi_host_id : string;
  vi_version : string;
  vi_boot_generation : string;
}.

(** The executor trait: [execute_phase] sees the directory as it is when the
    phase runs, and by its contract does not write to it. *)
Class UpgradeCoordinatorExecutor (X : Type) := {
  execute_phase : X -> Dir -> UpgradeTransactionState -> result string UpgradeCoordinatorStep * X;
  verified_identity : X -> option UpgradeVerifiedIdentity;
  restored_session_count : X -> option Z;
  activity_state_persisted : X -> UpgradeTransaction -> X;
}.

Context {X : Type} `{!UpgradeCoordinatorExecutor X} (clock : nat -> Z).

Record World : Type := mkWorld {
  w_dir : Dir;
  w_locks : gset string;
  w_ticks : nat;
  w_exec : X;
}.

(** The readings of [unix_time] are numbered by [w_ticks]. *)
Definition unix_time (w : World) : Z := clock (w_ticks w).

(** A state change followed by [write_transaction(..)?] and the notification. *)
Definition record_change (w : World) (change : Z -> result string UpgradeTransaction) :
    World * result string UpgradeTransaction :=
  match change (unix_time w) with
  | Err e => (w, Err e)
  | Ok t =>
      match write_transaction (w_dir w) t with
      | (d, Err e) => (mkWorld d (w_locks w) (S (w_ticks w)) (w_exec w), Err e)
      | (d, Ok _) =>
          (mkWorld d (w_locks w) (S (w_ticks w)) (activity_state_persisted (w_exec w) t), Ok t)
      end
  end.

Definition finish (r : World * result string UpgradeTransaction) :
    World * result string UpgradeTransactionStatus :=
  (r.1, let! t := r.2 in Ok (status t)).

(** What the coordinator records of a phase that finished. *)
Definition phase_results (x : X) (t : UpgradeTransaction) (phase : UpgradeTransactionState) :
    UpgradeTransaction :=
  let t :=
    if bool_decide (phase = SessionsVerifying) then with_restored t (restored_session_count x)
    else t in
  if bool_decide (phase = EndpointVerifying)
  then match verified_identity x with
       | Some i => with_verified t (vi_host_id i) (vi_version i) (vi_boot_generation i)
       | None => t
       end
  else t.

Fixpoint run_phases (phases : list UpgradeTransactionState) (w : World)
    (t : UpgradeTransaction) : World * result string UpgradeTransactionStatus :=
  match phases with
  | [] => (w, Ok (status t))
  | phase :: rest =>
      if bool_decide (phase = Completed)
      then finish (record_change w (fun now => set_state now t Completed))
      else
        let '(r, x) := execute_phase (w_exec w) (w_dir w) phase in
        let w := mkWorld (w_dir w) (w_locks w) (w_ticks w) x in
        match r with
        | Ok StepContinue =>
            let t := phase_results x t phase in
            match record_change w (fun now => set_state now t phase) with
            | (w, Err e) => (w, Err e)
            | (w, Ok t) => run_phases rest w t
            end
        | Ok StepRollback =>
            finish (record_change w (fun now => mark_rolled_back now t
              (Some ("upgrade coordinator rolled back at " +:+ state_as_str phase))))
        | Err _ =>
            finish (record_change w (fun now => mark_failed now t
              ("upgrade phase " +:+ state_as_str phase +:+ " failed")))
        end
  end.

Definition run_upgrade_coordinator_with_lock (transaction_id : string) (w : World)
    (decision : UpgradeCommitDecision) : World * result string UpgradeTransactionStatus :=
  match read_transaction (w_dir w) transaction_id with
  | Err e => (w, Err e)
  | Ok t =>
      if negb (bool_decide (t_state t = Prepared))
      then (w, Err ("upgrade transaction " +:+ t_transaction_id t +:+ " is not prepared (state "
                    +:+ state_as_str (t_state t) +:+ ")"))
      else match decision with
      | DecAborted | DecPending =>
          finish (record_change w (fun now => mark_failed now t
            "upgrade response was not delivered; destructive phase aborted"))
      | DecCommitted =>
          match record_change w (fun now => set_state now t Committed) with
          | (w, Err e) => (w, Err e)
          | (w, Ok t) => run_phases (coordinator_phases t) w t
          end
      end
  end.

Definition release_lock (transaction_id : string) (w : World) : World :=
  mkWorld (w_dir w) (w_locks w ∖ {[transaction_id]}) (w_ticks w) (w_exec w).

(** [run_upgrade_coordinator]: the exclusive lock, then the run on the waiter's
    decision ([None]: the transport never decides), then the lock's drop. *)
Definition run_upgrade_coordinator (transaction_id : string) (w : World)
    (waiter : option UpgradeCommitDecision) :
    option (World * result string UpgradeTransactionStatus) :=
  match validate_transaction_id transaction_id with
  | Err e => Some (w, Err e)
  | Ok _ =>
      if bool_decide (transaction_id ∈ w_locks w)
      then Some (w, Err ("upgrade transaction " +:+ transaction_id
                         +:+ " is owned by another live process"))
      else
        let w := mkWorld (w_dir w) ({[transaction_id]} ∪ w_locks w) (w_ticks w) (w_exec w) in
        match waiter with
        | None => None
        | Some decision =>
            let '(w, r) := run_upgrade_coordinator_with_lock transaction_id w decision in
            Some (release_lock transaction_id w, r)
        end
  end.
End Durable.
