(* ===== verification/UpgradeTheorems.v ===== *)
(** What upgrade transactions guarantee ([Upgrade]): the state machine only moves
    forward, the durable record follows it, no destructive phase runs without a
    delivered response, and admission leaves one owner. *)

From S2P Require Import Prelude Strings Json Upgrade.
From stdpp Require Import relations.
#[local] Open Scope Z_scope.
#[local] Open Scope rust_scope.

#[local] Notation Dir := (gmap string DirEntry).

(** * The state machine *)

(** Position in the life cycle; a failure comes after everything. *)
Definition rank (s : UpgradeTransactionState) : Z :=
  match forward_order s with
  | Some n => n
  | None => 8
  end.

Lemma can_transition_rank (s s' : UpgradeTransactionState) :
  can_transition_to s s' = true -> rank s < rank s' /\ is_terminal s = false.
Proof. by destruct s, s'. Qed.

(** One successful operation on a transaction. *)
Inductive upgrade_step (t : UpgradeTransaction) : UpgradeTransaction -> Prop :=
| step_set_state (now : Z) (s : UpgradeTransactionState) (t' : UpgradeTransaction)
    (Hs : set_state now t s = Ok t') : upgrade_step t t'
| step_mark_failed (now : Z) (summary : string) (t' : UpgradeTransaction)
    (Hs : mark_failed now t summary = Ok t') : upgrade_step t t'
| step_mark_rolled_back (now : Z) (summary : option string) (t' : UpgradeTransaction)
    (Hs : mark_rolled_back now t summary = Ok t') : upgrade_step t t'.

(** What no operation changes. *)
Definition identity_of (t : UpgradeTransaction) :=
  (t_schema t, t_transaction_id t, t_source_version t, t_target_version t, t_host_id t,
   t_source_boot_generation t, t_created_at t, t_sequence t, t_planned_sessions t).

Lemma set_state_Ok (now : Z) (t t' : UpgradeTransaction) (s : UpgradeTransactionState) :
  set_state now t s = Ok t' <->
  can_transition_to (t_state t) s = true /\ t' = with_state t s now (t_failure_summary t).
Proof.
  unfold set_state. rewrite !bind_ensure. split.
  - destruct (negb _); [|done]. destruct (can_transition_to _ _) eqn:E; [|done]. by intros [= <-].
  - intros [Hc ->]. destruct (can_transition_rank _ _ Hc) as [_ ->]. by rewrite Hc.
Qed.

Lemma validate_summary_Ok (s : string) :
  validate_summary s = Ok tt <-> str_len s <= MAX_FAILURE_SUMMARY_BYTES /\ nul_free s = true.
Proof.
  unfold validate_summary. rewrite bind_ensure. destruct (Z.leb_spec (str_len s) MAX_FAILURE_SUMMARY_BYTES);
    rewrite ?ensure_Ok; naive_solver lia.
Qed.

Lemma mark_failed_Ok (now : Z) (t t' : UpgradeTransaction) (s : string) :
  mark_failed now t s = Ok t' <->
  is_terminal (t_state t) = false /\ validate_summary s = Ok tt
  /\ t' = with_state t Failed now (Some s).
Proof.
  unfold mark_failed. rewrite bind_ensure. destruct (is_terminal _); simpl; [naive_solver|].
  rewrite bind_Ok. split; [intros ([] & ? & [= <-]); done|]. intros (_ & ? & ->). by exists tt.
Qed.

Lemma mark_rolled_back_Ok (now : Z) (t t' : UpgradeTransaction) (o : option string) :
  mark_rolled_back now t o = Ok t' <->
  is_terminal (t_state t) = false /\ (forall s, o = Some s -> validate_summary s = Ok tt)
  /\ t' = with_state t RolledBack now (match o with Some s => Some s | None => t_failure_summary t end).
Proof.
  unfold mark_rolled_back. rewrite bind_ensure. destruct (is_terminal _); simpl; [naive_solver|].
  destruct o as [s|]; [|naive_solver]. rewrite bind_Ok. split.
  - intros ([] & ? & [= <-]). naive_solver.
  - intros (_ & Hs & ->). exists tt. naive_solver.
Qed.

Lemma upgrade_step_rank (t t' : UpgradeTransaction) :
  upgrade_step t t' ->
  rank (t_state t) < rank (t_state t') /\ is_terminal (t_state t) = false
  /\ identity_of t' = identity_of t.
Proof.
  assert (Hr : forall s, is_terminal s = false -> rank s < 8) by by intros [].
  intros [now s ? Hs|now s ? Hs|now o ? Hs].
  - apply set_state_Ok in Hs as [Hc ->]. apply can_transition_rank in Hc as [? ?]. done.
  - apply mark_failed_Ok in Hs as (Hn & _ & ->). split_and!; try done. by apply Hr.
  - apply mark_rolled_back_Ok in Hs as (Hn & _ & ->). split_and!; try done. by apply Hr.
Qed.

(** A transaction's life is finite and one-way: every successful state
    change moves strictly forward, so at most eight are possible from any
    state (none from a terminal one), and no change touches the record's
    identity. *)
Theorem upgrade_lifecycle (n : nat) (t t' : UpgradeTransaction) :
  nsteps upgrade_step n t t' ->
  Z.of_nat n + rank (t_state t) <= rank (t_state t') <= 8
  /\ (is_terminal (t_state t) = true -> n = 0%nat)
  /\ identity_of t' = identity_of t.
Proof.
  assert (H8 : forall s, rank s <= 8) by (intros []; unfold rank; simpl; lia).
  induction 1 as [t|n t u t' Hs _ (IHr & _ & IHi)].
  - split_and!; try done; try lia; apply H8.
  - apply upgrade_step_rank in Hs as (Hr & Hn & Hi). split_and!; [lia|lia|congruence|congruence].
Qed.

(** * Durability *)

Section DurableTheorems.
Context `{UuidLib} `{!TransactionCodec} (io : Dir -> string -> DirectoryIo).

(** The temporary file of a write of [t]. *)
Definition temporary_of (d : Dir) (t : UpgradeTransaction) : string :=
  let path := file_name (t_transaction_id t) in temporary_name path (io_suffix (io d path)).

(** A write either puts the record in its file, or touches the temporary file only. *)
Lemma write_transaction_spec (d d' : Dir) (t : UpgradeTransaction) (r : result string unit) :
  write_transaction io d t = (d', r) ->
  match r with
  | Ok _ => validate_transaction t = Ok tt
      /\ exists b, to_vec_pretty t = Some b /\ str_len b <= MAX_UPGRADE_TRANSACTION_BYTES
         /\ d' = <[file_name (t_transaction_id t) := mkEntry RegularFile 384 b]> d
  | Err _ => forall name, name <> temporary_of d t -> d' !! name = d !! name
  end.
Proof.
  unfold write_transaction, temporary_of. case_match eqn:E; [|by intros [= <- <-]].
  destruct a as [path bytes]. apply bind_Ok in E as ([] & Hv & E).
  apply bind_Ok in E as (p & Hp & E). apply bind_Ok in E as (b & Hb & E).
  apply bind_Ok in E as ([] & Hl & [= -> ->]).
  apply bind_Ok in Hp as ([] & _ & [= <-]). cbn zeta.
  set (answers := io _ _). set (temporary := temporary_name _ _). unfold replace_record.
  apply ok_or_Ok in Hb. apply ensure_Ok, Z.leb_le in Hl.
  destruct (d !! temporary), (io_fault answers) as [[[] ?]|], (io_cleanup_fails answers);
    intros [= <- <-]; try (by intros; rewrite ?lookup_delete_ne, ?lookup_insert_ne by done); eauto.
Qed.

Lemma read_transaction_Ok (d : Dir) (id : string) (t : UpgradeTransaction) :
  read_transaction d id = Ok t <->
  validate_transaction_id id = Ok tt /\ t_transaction_id t = id
  /\ validate_transaction t = Ok tt
  /\ exists file, d !! file_name id = Some file /\ en_kind file = RegularFile
     /\ str_len (en_bytes file) <= MAX_UPGRADE_TRANSACTION_BYTES
     /\ Z.land (Z.land (en_mode file) 511) 63 = 0 /\ txn_from_slice (en_bytes file) = Some t.
Proof.
  unfold read_transaction, read_transaction_if_present, transaction_path. split.
  - intros Hr. apply bind_Ok in Hr as (o & Hr & Ho). apply ok_or_Ok in Ho as ->.
    apply bind_Ok in Hr as (p & Hp & Hr). apply bind_Ok in Hp as ([] & Hid & [= <-]).
    destruct (d !! file_name id) as [file|]; [|done].
    apply bind_Ok in Hr as ([] & _ & Hr). apply bind_Ok in Hr as ([] & Hk & Hr).
    apply bind_Ok in Hr as ([] & Hl & Hr). apply bind_Ok in Hr as ([] & Hm & Hr).
    apply bind_Ok in Hr as (t0 & Ht & Hr). apply bind_Ok in Hr as ([] & Hv & Hr).
    apply bind_Ok in Hr as ([] & He & [= ->]).
    rewrite ensure_Ok, bool_decide_eq_true in Hk. rewrite ensure_Ok, Z.leb_le in Hl.
    rewrite ensure_Ok, Z.eqb_eq in Hm. rewrite ok_or_Ok in Ht.
    rewrite ensure_Ok, String.eqb_eq in He. eauto 10.
  - intros (Hid & He & Hv & file & Hf & Hk & Hl & Hm & Ht). rewrite Hid. cbn [bind].
    rewrite Hf, Hk, Ht. rewrite (bool_decide_eq_false_2 (RegularFile = SymbolicLink)) by done.
    rewrite bool_decide_eq_true_2 by done. cbn [bind ensure negb ok_or].
    rewrite (proj2 (Z.leb_le _ _) Hl), Hm. cbn [bind ensure ok_or]. rewrite Hv. cbn [bind].
    by rewrite He, String.eqb_refl.
Qed.

Lemma validate_transaction_own_id (t : UpgradeTransaction) :
  validate_transaction t = Ok tt -> validate_transaction_id (t_transaction_id t) = Ok tt.
Proof.
  unfold validate_transaction. intros Hv. apply bind_Ok in Hv as ([] & _ & Hv).
  by apply bind_Ok in Hv as ([] & Hid & _).
Qed.

Lemma file_name_inj (a b : string) : file_name a = file_name b -> a = b.
Proof.
  unfold file_name. intros He. apply (f_equal list_ascii_of_string) in He.
  assert (Happ : forall x y, list_ascii_of_string (x +:+ y)
                             = list_ascii_of_string x ++ list_ascii_of_string y).
  { intros x y. induction x as [|c x IH]; [done|].
    change (String c x +:+ y) with (String c (x +:+ y)). simpl. by rewrite IH. }
  rewrite !Happ in He. apply app_inv_tail in He.
  by rewrite <- (string_of_list_ascii_of_string a), <- (string_of_list_ascii_of_string b), He.
Qed.

Lemma file_name_not_temporary (id path suffix : string) :
  file_name id <> temporary_name path suffix.
Proof.
  intros He%(f_equal (fun s => last (list_ascii_of_string s))).
  unfold file_name, temporary_name in He. by rewrite !list_ascii_app, !last_app in He.
Qed.

(** A temporary file is never listed as a transaction. *)
Lemma temporary_not_listed (path suffix : string) :
  str_strip_suffix ".json" (temporary_name path suffix) = None.
Proof.
  destruct (str_strip_suffix _ _) as [id|] eqn:E; [|done]. apply str_strip_suffix_Some in E.
  exfalso. by apply (file_name_not_temporary id path suffix).
Qed.

Lemma read_transaction_same (d d' : Dir) (id : string) :
  d' !! file_name id = d !! file_name id -> read_transaction d' id = read_transaction d id.
Proof.
  intros He. unfold read_transaction, read_transaction_if_present, transaction_path.
  destruct (validate_transaction_id id); [|done]. cbn [bind]. by rewrite He.
Qed.

Lemma write_failed_reads (d d' : Dir) (t : UpgradeTransaction) (e : string) (id : string) :
  write_transaction io d t = (d', Err e) -> read_transaction d' id = read_transaction d id.
Proof.
  intros Hw%write_transaction_spec. apply read_transaction_same, Hw, file_name_not_temporary.
Qed.

Lemma write_ok_reads (d d' : Dir) (t : UpgradeTransaction) (id : string) :
  write_transaction io d t = (d', Ok tt) -> id <> t_transaction_id t ->
  read_transaction d' id = read_transaction d id.
Proof.
  intros (Hv & b & Hb & Hl & ->)%write_transaction_spec Hid. apply read_transaction_same.
  rewrite lookup_insert_ne; [done|]. intros He%file_name_inj. congruence.
Qed.

Lemma write_ok_read_own `{!TransactionCodecLaws} (d d' : Dir) (t : UpgradeTransaction) :
  write_transaction io d t = (d', Ok tt) -> read_transaction d' (t_transaction_id t) = Ok t.
Proof.
  intros (Hv & b & Hb & Hl & ->)%write_transaction_spec.
  apply read_transaction_Ok. split; [by apply validate_transaction_own_id|].
  split_and!; [done|done|]. eexists. rewrite lookup_insert_eq.
  split_and!; [done|done|done|done|]. by apply txn_round_trip.
Qed.

(** C29: the durable record: a write that succeeds is read back as the same record and
    leaves every other file as it was; a write that fails, at whatever step and
    whether or not its temporary file could be removed, leaves every transaction
    as it was, and every file but the temporary one, which is never taken for a
    transaction; and whatever is read is valid and belongs to the id asked for. *)
Theorem write_read_transaction `{!TransactionCodecLaws} (d d' : Dir) (t : UpgradeTransaction)
    (r : result string unit) :
  write_transaction io d t = (d', r) ->
  (r = Ok tt -> read_transaction d' (t_transaction_id t) = Ok t
    /\ (forall id, id <> t_transaction_id t -> read_transaction d' id = read_transaction d id)
    /\ forall name, name <> file_name (t_transaction_id t) -> d' !! name = d !! name)
  /\ (forall e, r = Err e -> (forall id, read_transaction d' id = read_transaction d id)
    /\ forall name, d' !! name <> d !! name ->
         name = temporary_of d t /\ str_strip_suffix ".json" name = None)
  /\ (forall id t0, read_transaction d' id = Ok t0 ->
        t_transaction_id t0 = id /\ validate_transaction t0 = Ok tt).
Proof.
  intros Hw. split_and!.
  - intros ->. split_and!; [by eapply write_ok_read_own|intros; by eapply write_ok_reads|].
    apply write_transaction_spec in Hw as (_ & b & _ & _ & ->).
    intros name Hn. by rewrite lookup_insert_ne.
  - intros e ->. split; [intros id; by eapply write_failed_reads|].
    apply write_transaction_spec in Hw. intros name Hn.
    destruct (decide (name = temporary_of d t)) as [->|Hne]; [|by rewrite (Hw name Hne) in Hn].
    split; [done|apply temporary_not_listed].
  - intros id t0 Hr%read_transaction_Ok. tauto.
Qed.

(** * The coordinator *)

Context {X : Type} (ex : UpgradeCoordinatorExecutor X) (clock : nat -> Z).

(** The durable record of [id] is [t]. *)
Definition durable (w : World (X := X)) (id : string) (t : UpgradeTransaction) : Prop :=
  read_transaction (w_dir w) id = Ok t.

Lemma record_change_spec `{!TransactionCodecLaws} (w w' : World) (id : string)
    (change : Z -> result string UpgradeTransaction) (r : result string UpgradeTransaction) :
  (forall now t, change now = Ok t -> t_transaction_id t = id) ->
  record_change io clock w change = (w', r) ->
  match r with
  | Ok t => change (unix_time clock w) = Ok t /\ durable w' id t
            /\ w_exec w' = activity_state_persisted (w_exec w) t
  | Err _ => (forall i, read_transaction (w_dir w') i = read_transaction (w_dir w) i)
             /\ w_exec w' = w_exec w
  end.
Proof.
  intros Hid Hr. unfold record_change in Hr.
  destruct (change _) as [t|e] eqn:Hc; [|by injection Hr as <- <-].
  destruct (write_transaction io (w_dir w) t) as [d [[]|e]] eqn:Hw; injection Hr as <- <-.
  - split_and!; [done| |done]. unfold durable. simpl. rewrite <- (Hid _ _ Hc).
    by eapply write_ok_read_own.
  - split; [|done]. intros i. by eapply write_failed_reads.
Qed.

Lemma set_state_id (id : string) (now : Z) (t t' : UpgradeTransaction)
    (s : UpgradeTransactionState) :
  t_transaction_id t = id -> set_state now t s = Ok t' -> t_transaction_id t' = id.
Proof. intros <- Hs. by apply set_state_Ok in Hs as [_ ->]. Qed.

Lemma mark_failed_id (id : string) (now : Z) (t t' : UpgradeTransaction) (s : string) :
  t_transaction_id t = id -> mark_failed now t s = Ok t' -> t_transaction_id t' = id.
Proof. intros <- Hs. by apply mark_failed_Ok in Hs as (_ & _ & ->). Qed.

Lemma mark_rolled_back_id (id : string) (now : Z) (t t' : UpgradeTransaction)
    (o : option string) :
  t_transaction_id t = id -> mark_rolled_back now t o = Ok t' -> t_transaction_id t' = id.
Proof. intros <- Hs. by apply mark_rolled_back_Ok in Hs as (_ & _ & ->). Qed.

Lemma phase_results_same (x : X) (t : UpgradeTransaction) (p : UpgradeTransactionState) :
  t_state (phase_results x t p) = t_state t
  /\ t_transaction_id (phase_results x t p) = t_transaction_id t
  /\ t_supervisor_handoff_required (phase_results x t p) = t_supervisor_handoff_required t
  /\ t_ingress_restart_required (phase_results x t p) = t_ingress_restart_required t.
Proof. unfold phase_results. repeat case_match; done. Qed.

(** The phases that do work: all but the last, [Completed]. *)
Definition work_phases (t : UpgradeTransaction) : list UpgradeTransactionState :=
  (if t_supervisor_handoff_required t then [SupervisorHandoff] else [])
  ++ [SessionsVerifying]
  ++ (if t_ingress_restart_required t then [IngressRestarting] else [])
  ++ [EndpointVerifying; PluginReconciling].

Lemma coordinator_phases_work (t : UpgradeTransaction) :
  coordinator_phases t = work_phases t ++ [Completed].
Proof. unfold coordinator_phases, work_phases. by rewrite <- !app_assoc. Qed.

Lemma work_phases_not_completed (t : UpgradeTransaction) : Completed ∉ work_phases t.
Proof.
  rewrite list_elem_of_In. unfold work_phases.
  destruct (t_supervisor_handoff_required t), (t_ingress_restart_required t); simpl; naive_solver.
Qed.

(** An executor that keeps the phases it was asked to run, each with the state
    the durable record was in. *)
Definition durable_state (d : Dir) (id : string) : option UpgradeTransactionState :=
  match read_transaction d id with
  | Ok t => Some (t_state t)
  | Err _ => None
  end.
End DurableTheorems.

Definition log_entry : Type := UpgradeTransactionState * option UpgradeTransactionState.

Definition logged `{UuidLib} `{!TransactionCodec} {X : Type} (ex : UpgradeCoordinatorExecutor X)
    (id : string) : UpgradeCoordinatorExecutor (X * list log_entry) := {|
  execute_phase xl d p :=
    let '(r, x) := execute_phase xl.1 d p in (r, (x, xl.2 ++ [(p, durable_state d id)]));
  verified_identity xl := verified_identity xl.1;
  restored_session_count xl := restored_session_count xl.1;
  activity_state_persisted xl t := (activity_state_persisted xl.1 t, xl.2);
|}.

Section Coordinator.
Context `{UuidLib} `{TransactionCodecLaws} (io : Dir -> string -> DirectoryIo)
  {X : Type} (ex : UpgradeCoordinatorExecutor X) (clock : nat -> Z).

(** How a run that has [t] durable may leave things: the record of [id] is
    still readable, never behind [t], and what a finished run answers is the
    status of that record, in a terminal state. *)
Definition outcome_ok {Y : Type} (id : string) (from : UpgradeTransactionState)
    (w : World (X := Y)) (r : result string UpgradeTransactionStatus) : Prop :=
  exists t, durable w id t /\ rank from <= rank (t_state t)
    /\ forall st, r = Ok st -> st = status t /\ is_terminal (t_state t) = true.

Lemma finish_outcome (w w' : World) (id : string) (t : UpgradeTransaction)
    (change : Z -> result string UpgradeTransaction) (r : result string UpgradeTransactionStatus) :
  durable w id t ->
  (forall now t', change now = Ok t' -> t_transaction_id t' = id
     /\ rank (t_state t) <= rank (t_state t') /\ is_terminal (t_state t') = true) ->
  finish (record_change io clock w change) = (w', r) -> outcome_ok id (t_state t) w' r.
Proof.
  intros Hd Hc Hf. unfold finish in Hf.
  destruct (record_change io clock w change) as [w1 r1] eqn:Hr. simpl in Hf.
  injection Hf as <- <-.
  apply (record_change_spec io ex clock w w1 id) in Hr; [|intros; by eapply Hc].
  destruct r1 as [t1|e]; simpl.
  - destruct Hr as (Ht & Hd1 & _). apply Hc in Ht as (_ & Hrk & Htm).
    exists t1. split_and!; [done|done|]. by intros st [= <-].
  - destruct Hr as [Hw _]. exists t. unfold durable in *. rewrite Hw. split_and!; [done|lia|done].
Qed.

Lemma run_phases_outcome (pre : list UpgradeTransactionState) (w w' : World) (id : string)
    (t td : UpgradeTransaction) (r : result string UpgradeTransactionStatus) :
  Completed ∉ pre -> t_transaction_id t = id -> durable w id td -> t_state td = t_state t ->
  run_phases io clock (pre ++ [Completed]) w t = (w', r) ->
  outcome_ok id (t_state t) w' r.
Proof.
  revert w t td. induction pre as [|p pre IH]; intros w t td Hpre Hid Hd Hst Hrun.
  - cbn [app run_phases] in Hrun. rewrite bool_decide_eq_true_2 in Hrun by done.
    rewrite <- Hst. eapply finish_outcome; [done| |done].
    intros now t' Hs. split; [exact (set_state_id id _ _ _ _ Hid Hs)|].
    apply set_state_Ok in Hs as [Hc ->]. apply can_transition_rank in Hc as [Hc _].
    rewrite Hst. simpl. split; [lia|done].
  - rewrite not_elem_of_cons in Hpre. destruct Hpre as [Hp Hpre].
    cbn [app run_phases] in Hrun. rewrite bool_decide_eq_false_2 in Hrun by done.
    destruct (execute_phase (w_exec w) (w_dir w) p) as [rs x] eqn:He.
    destruct rs as [[|]|e].
    + destruct (phase_results_same ex x t p) as (Hs & Hi & _ & _).
      destruct (record_change _ _ _ _) as [w1 [t1|e]] eqn:Hr;
        apply (record_change_spec io ex clock _ w1 id) in Hr;
        try (intros now t' Hs2; exact (set_state_id id _ _ _ _ (eq_trans Hi Hid) Hs2)); simpl in Hr.
      * destruct Hr as (Ht & Hd1 & _). apply set_state_Ok in Ht as [Hc Ht].
        assert (Hst1 : t_state t1 = p) by by rewrite Ht.
        assert (Hid1 : t_transaction_id t1 = id) by (rewrite Ht; simpl; by rewrite Hi).
        destruct (IH w1 t1 t1 Hpre Hid1 Hd1 eq_refl Hrun) as (t2 & Hd2 & Hr2 & Hs2).
        exists t2. split_and!; [done| |done].
        apply can_transition_rank in Hc as [Hc _]. rewrite Hs in Hc. rewrite Hst1 in Hr2. lia.
      * destruct Hr as [Hw _]. injection Hrun as <- <-. exists td. unfold durable in *.
        rewrite Hw. split_and!; [done|rewrite Hst; lia|done].
    + rewrite <- Hst. eapply (finish_outcome (mkWorld (w_dir w) (w_locks w) (w_ticks w) x)); [exact Hd| |exact Hrun].
      intros now t' Hs. split; [exact (mark_rolled_back_id id _ _ _ _ Hid Hs)|].
      apply mark_rolled_back_Ok in Hs as (_ & _ & ->). split; [by destruct (t_state td)|done].
    + rewrite <- Hst. eapply (finish_outcome (mkWorld (w_dir w) (w_locks w) (w_ticks w) x)); [exact Hd| |exact Hrun].
      intros now t' Hs. split; [exact (mark_failed_id id _ _ _ _ Hid Hs)|].
      apply mark_failed_Ok in Hs as (_ & _ & ->). split; [by destruct (t_state td)|done].
Qed.

(** C2: crash consistency of the coordinator: from a readable prepared record,
    whatever the executor, the clock, the file system and the transport do, the
    durable record stays readable and never moves back; a run that answers
    answers with exactly the durable record's status, in a terminal state, and
    without a commit that state is [Failed]. *)
Theorem coordinator_outcome (w w' : World) (id : string) (t0 : UpgradeTransaction)
    (decision : UpgradeCommitDecision) (r : result string UpgradeTransactionStatus) :
  read_transaction (w_dir w) id = Ok t0 ->
  run_upgrade_coordinator_with_lock io clock id w decision = (w', r) ->
  exists t, read_transaction (w_dir w') id = Ok t /\ rank (t_state t0) <= rank (t_state t)
    /\ forall st, r = Ok st -> st = status t /\ is_terminal (t_state t) = true
         /\ (decision <> DecCommitted -> t_state t = Failed).
Proof.
  intros Hd Hrun. unfold run_upgrade_coordinator_with_lock in Hrun. rewrite Hd in Hrun.
  assert (Hid : t_transaction_id t0 = id) by (apply read_transaction_Ok in Hd; tauto).
  case_bool_decide as Hp; simpl in Hrun; [|injection Hrun as <- <-; exists t0; by split_and!].
  destruct (decide (decision = DecCommitted)) as [->|Hdec].
  - destruct (record_change _ _ _ _) as [w1 [t1|e]] eqn:Hr;
      apply (record_change_spec io ex clock _ w1 id) in Hr;
      try (intros now t Hs; exact (set_state_id id _ _ _ _ Hid Hs)).
    + destruct Hr as (Ht & Hd1 & _). apply set_state_Ok in Ht as [Hc Ht].
      rewrite coordinator_phases_work in Hrun.
      apply (run_phases_outcome _ _ _ id _ t1) in Hrun as (t2 & Hd2 & Hr2 & Hs2);
        [|apply work_phases_not_completed|by rewrite Ht|done|done].
      exists t2. split_and!; [done| |].
      * rewrite Ht in Hr2. simpl in Hr2. apply can_transition_rank in Hc as [Hc _]. lia.
      * intros st Hst. destruct (Hs2 st Hst). done.
    + injection Hrun as <- <-. destruct Hr as [Hw _]. exists t0. rewrite Hw. by split_and!.
  - assert (Hfin : finish (record_change io clock w (fun now => mark_failed now t0
      "upgrade response was not delivered; destructive phase aborted")) = (w', r))
      by by destruct decision.
    unfold finish in Hfin. destruct (record_change _ _ _ _) as [w1 r1] eqn:Hr.
    injection Hfin as <- <-.
    apply (record_change_spec io ex clock _ w1 id) in Hr;
      [|intros now t Hs; exact (mark_failed_id id _ _ _ _ Hid Hs)]. destruct r1 as [t1|e]; simpl.
    + destruct Hr as (Ht & Hd1 & _). apply mark_failed_Ok in Ht as (_ & _ & Ht).
      exists t1. split_and!; [done| |intros st [= <-]; by rewrite Ht].
      rewrite Ht, Hp. done.
    + destruct Hr as [Hw _]. exists t0. rewrite Hw. by split_and!.
Qed.
End Coordinator.

Section CoordinatorLog.
Context `{UuidLib} `{TransactionCodecLaws} (io : Dir -> string -> DirectoryIo)
  {X : Type} (ex : UpgradeCoordinatorExecutor X) (clock : nat -> Z) (id : string).

#[local] Instance logged_executor : UpgradeCoordinatorExecutor (X * list log_entry) :=
  logged ex id.

Notation log_of w := ((w_exec w).2).

(** Recording a change runs no phase. *)
Lemma record_change_log (w w' : World) (change : Z -> result string UpgradeTransaction)
    (r : result string UpgradeTransaction) :
  record_change io clock w change = (w', r) -> log_of w' = log_of w.
Proof.
  unfold record_change. destruct (change _); [|by intros [= <- <-]].
  by destruct (write_transaction io (w_dir w) a) as [d [[]|e]]; intros [= <- <-].
Qed.

Lemma finish_log (w w' : World) (change : Z -> result string UpgradeTransaction)
    (s : UpgradeTransactionState) (r : result string UpgradeTransactionStatus) :
  (forall now t, change now = Ok t -> t_state t = s) ->
  finish (record_change io clock w change) = (w', r) ->
  log_of w' = log_of w /\ forall st, r = Ok st -> st_state st = s.
Proof.
  intros Hs Hf. unfold finish in Hf.
  destruct (record_change io clock w change) as [w1 r1] eqn:Hr. simpl in Hf.
  injection Hf as <- <-. split; [by eapply record_change_log|].
  unfold record_change in Hr. destruct (change _) as [t|e] eqn:Hc; [|by injection Hr as <- <-].
  destruct (write_transaction io (w_dir w) t) as [d [[]|e]]; injection Hr as <- <-; [|done].
  simpl. intros st [= <-]. simpl. by eapply Hs.
Qed.

Lemma durable_state_eq (w : World (X := X * list log_entry)) (t : UpgradeTransaction) :
  durable w id t -> durable_state (w_dir w) id = Some (t_state t).
Proof. unfold durable, durable_state. by intros ->. Qed.

(** The log of a run through [phases] when the record was in state [s]. *)
Definition expected_log (s : UpgradeTransactionState) (phases : list UpgradeTransactionState) :
    list log_entry :=
  zip phases (Some <$> s :: phases).

Lemma run_phases_log (pre : list UpgradeTransactionState) (w w' : World)
    (t td : UpgradeTransaction) (r : result string UpgradeTransactionStatus) :
  Completed ∉ pre -> t_transaction_id t = id -> durable w id td -> t_state td = t_state t ->
  run_phases io clock (pre ++ [Completed]) w t = (w', r) ->
  exists n, (n <= length pre)%nat
    /\ log_of w' = log_of w ++ take n (expected_log (t_state t) pre)
    /\ forall st, r = Ok st -> st_state st = Completed -> n = length pre.
Proof.
  revert w t td. induction pre as [|p pre IH]; intros w t td Hpre Hid Hd Hst Hrun.
  - cbn [app run_phases] in Hrun. rewrite bool_decide_eq_true_2 in Hrun by done.
    exists O. split; [done|]. apply (finish_log _ _ _ Completed) in Hrun as [Hl _].
    + by rewrite Hl, app_nil_r.
    + by intros now t' [_ ->]%set_state_Ok.
  - rewrite not_elem_of_cons in Hpre. destruct Hpre as [Hp Hpre].
    cbn [app run_phases] in Hrun. rewrite bool_decide_eq_false_2 in Hrun by done.
    assert (Hdur : forall n, take (S n) (expected_log (t_state t) (p :: pre))
                  = (p, durable_state (w_dir w) id) :: take n (expected_log p pre)).
    { intros n. by rewrite (durable_state_eq w td Hd), Hst. }
    destruct (execute_phase (w_exec w) (w_dir w) p) as [rs x] eqn:He.
    assert (Hx : x.2 = log_of w ++ [(p, durable_state (w_dir w) id)]).
    { simpl in He. match type of He with (let '(_, _) := ?e in _) = _ => destruct e end.
      by injection He as _ <-. }
    destruct rs as [[|]|e].
    + destruct (phase_results_same logged_executor x t p) as (Hs & Hi & _ & _).
      destruct (record_change _ _ _ _) as [w1 [t1|e]] eqn:Hr;
        assert (Hl := record_change_log _ _ _ _ Hr); simpl in Hl; rewrite Hx in Hl.
      * apply (record_change_spec io logged_executor clock _ w1 id) in Hr;
          [|intros now t' Hs2; exact (set_state_id id _ _ _ _ (eq_trans Hi Hid) Hs2)].
        destruct Hr as (Ht & Hd1 & _). apply set_state_Ok in Ht as [Hc Ht].
        assert (Hst1 : t_state t1 = p) by by rewrite Ht.
        assert (Hid1 : t_transaction_id t1 = id) by (rewrite Ht; simpl; by rewrite Hi).
        destruct (IH w1 t1 t1 Hpre Hid1 Hd1 eq_refl Hrun) as (n & Hn & Hlog & Hfin).
        exists (S n). split_and!; [simpl; lia| |intros; simpl; f_equal; by eapply Hfin].
        by rewrite Hlog, Hl, Hst1, Hdur, <- app_assoc.
      * injection Hrun as <- <-. exists 1%nat. split_and!; [simpl; lia| |done].
        by rewrite Hl, Hdur.
    + exists 1%nat. apply (finish_log _ _ _ RolledBack) in Hrun as [Hl Hs].
      * simpl in Hl. split_and!; [simpl; lia|by rewrite Hl, Hx, Hdur|].
        intros st Hok Hcm. apply Hs in Hok. congruence.
      * by intros now t' (_ & _ & ->)%mark_rolled_back_Ok.
    + exists 1%nat. apply (finish_log _ _ _ Failed) in Hrun as [Hl Hs].
      * simpl in Hl. split_and!; [simpl; lia|by rewrite Hl, Hx, Hdur|].
        intros st Hok Hcm. apply Hs in Hok. congruence.
      * by intros now t' (_ & _ & ->)%mark_failed_Ok.
Qed.

Lemma run_aborted_log (w w' : World) (t0 : UpgradeTransaction)
    (decision : UpgradeCommitDecision) (r : result string UpgradeTransactionStatus) :
  decision <> DecCommitted -> read_transaction (w_dir w) id = Ok t0 ->
  run_upgrade_coordinator_with_lock io clock id w decision = (w', r) ->
  log_of w' = log_of w
  /\ forall st, r = Ok st -> st_state st = Failed.
Proof.
  intros Hdec Hd Hrun. unfold run_upgrade_coordinator_with_lock in Hrun. rewrite Hd in Hrun.
  case_bool_decide as Hp; simpl in Hrun; [|by injection Hrun as <- <-].
  destruct decision; try done;
    (eapply finish_log; [|exact Hrun]; by intros now t' (_ & _ & ->)%mark_failed_Ok).
Qed.

(** C31: the destructive phases of a run: only after the commit decision, in the
    order of the transaction's plan without repeats or gaps, and each one with
    the previous phase already durable as the record's state; a run that ends
    [Completed] has run all of them. *)
Theorem coordinator_phase_log (w w' : World) (t0 : UpgradeTransaction)
    (decision : UpgradeCommitDecision) (r : result string UpgradeTransactionStatus) :
  read_transaction (w_dir w) id = Ok t0 -> log_of w = [] ->
  run_upgrade_coordinator_with_lock io clock id w decision = (w', r) ->
  exists n, (n <= length (work_phases t0))%nat
    /\ log_of w' = take n (expected_log Committed (work_phases t0))
    /\ (n <> 0%nat -> decision = DecCommitted /\ t_state t0 = Prepared)
    /\ forall st, r = Ok st -> st_state st = Completed ->
         n = length (work_phases t0) \/ t_state t0 = Completed.
Proof.
  intros Hd Hnil Hrun. unfold run_upgrade_coordinator_with_lock in Hrun. rewrite Hd in Hrun.
  assert (Hid : t_transaction_id t0 = id) by (apply read_transaction_Ok in Hd; tauto).
  case_bool_decide as Hp; simpl in Hrun.
  2: { injection Hrun as <- <-. exists O. split_and!; [lia|done|done|done]. }
  destruct (decide (decision = DecCommitted)) as [->|Hdec].
  - destruct (record_change _ _ _ _) as [w1 [t1|e]] eqn:Hr;
      assert (Hl := record_change_log _ _ _ _ Hr); rewrite Hnil in Hl.
    + apply (record_change_spec io logged_executor clock _ w1 id) in Hr;
        [|intros now t Hs; exact (set_state_id id _ _ _ _ Hid Hs)].
      destruct Hr as (Ht & Hd1 & _). apply set_state_Ok in Ht as [Hc Ht].
      assert (Hw : work_phases t1 = work_phases t0) by by rewrite Ht.
      rewrite coordinator_phases_work in Hrun.
      apply (run_phases_log _ _ _ _ t1) in Hrun as (n & Hn & Hlog & Hfin);
        [|apply work_phases_not_completed|by rewrite Ht|done|done].
      rewrite Hw in *. exists n. split_and!; [done| |done|].
      * by rewrite Hlog, Hl, Ht.
      * intros st Hok Hcm. left. by eapply Hfin.
    + injection Hrun as <- <-. exists O. split_and!; [lia|done|done|done].
  - assert (Hab : run_upgrade_coordinator_with_lock io clock id w decision = (w', r))
      by (unfold run_upgrade_coordinator_with_lock; by rewrite Hd, bool_decide_eq_true_2).
    apply (run_aborted_log _ _ t0) in Hab as [Hl Hs]; [|done|done].
    exists O. split_and!; [lia|by rewrite Hl|done|].
    intros st Hok Hcm. apply Hs in Hok. congruence.
Qed.

(** The first thing the transport did with the barrier decides it. *)
Fixpoint first_decision (events : list BarrierEvent) : option UpgradeCommitDecision :=
  match events with
  | [] => None
  | EvCommit :: _ => Some DecCommitted
  | EvAbort :: _ => Some DecAborted
  | EvDropped :: _ => Some DecAborted
  | EvWaiter :: rest => first_decision rest
  end.

(** A channel between the first decision and the waiter's answer. *)
Definition channel_decided (c : BarrierChannel) (d : UpgradeCommitDecision) : Prop :=
  (bc_value c = d /\ d <> DecPending) \/ (c = mkChannel DecPending false true /\ d = DecAborted).

Lemma decided_wait (events : list BarrierEvent) : forall c at_ d r,
  channel_decided c d -> (at_ = AtChanged -> bc_value c = DecPending \/ bc_unseen c = true) ->
  wait_decision c at_ events = Some r -> r = d.
Proof.
  induction events as [|ev events IH]; intros c at_ d r Hc Hat Hw; [done|].
  assert (Hsend : forall x, channel_decided (barrier_send c (decide_barrier (bc_value c) x)) d
    /\ (at_ = AtChanged -> bc_value (barrier_send c (decide_barrier (bc_value c) x)) = DecPending
                           \/ bc_unseen (barrier_send c (decide_barrier (bc_value c) x)) = true)).
  { intros x. unfold barrier_send. destruct Hc as [[Hv Hd]|[-> ->]]; [|by split; [right|]].
    destruct (bc_closed c); [by split; [left|]|].
    unfold decide_barrier. rewrite bool_decide_eq_false_2 by congruence. by split; [left|]. }
  destruct ev; cbn [wait_decision] in Hw.
  - by refine (IH _ _ _ _ _ _ Hw); apply Hsend.
  - by refine (IH _ _ _ _ _ _ Hw); apply Hsend.
  - refine (IH _ _ _ _ _ _ Hw); [|exact Hat]. destruct Hc as [Hc|[-> ->]]; [by left|by right].
  - destruct at_; cbn [waiter_turn] in Hw.
    + destruct Hc as [[Hv Hd]|[-> ->]].
      * rewrite bool_decide_eq_false_2 in Hw by congruence. cbn in Hw. congruence.
      * cbn in Hw. refine (IH _ _ _ _ _ _ Hw); [by right|by left].
    + destruct Hc as [[Hv Hd]|[-> ->]]; [|cbn in Hw; congruence].
      destruct (Hat eq_refl) as [?|Hu]; [congruence|]. rewrite Hu in Hw.
      refine (IH _ _ _ _ _ _ Hw); [by left|done].
Qed.

Lemma wait_first (events : list BarrierEvent) : forall at_ r,
  wait_decision barrier_new at_ events = Some r -> first_decision events = Some r.
Proof.
  induction events as [|ev events IH]; intros at_ r Hw; [done|].
  destruct ev; cbn [wait_decision first_decision] in *.
  - f_equal. symmetry. refine (decided_wait _ _ _ _ _ _ _ Hw); [by left|by right].
  - f_equal. symmetry. refine (decided_wait _ _ _ _ _ _ _ Hw); [by left|by right].
  - f_equal. symmetry. refine (decided_wait _ _ _ _ _ _ _ Hw); [by right|by left].
  - destruct at_; cbn in Hw; [exact (IH AtChanged r Hw)|exact (IH AtChanged r Hw)].
Qed.

(** Three turns after a decision, at the latest, the waiter has answered it. *)
Lemma wait_returns (c : BarrierChannel) (at_ : WaiterAt) (d : UpgradeCommitDecision)
    (events : list BarrierEvent) :
  channel_decided c d -> (at_ = AtChanged -> bc_value c = DecPending \/ bc_unseen c = true) ->
  wait_decision c at_ (EvWaiter :: EvWaiter :: EvWaiter :: events) = Some d.
Proof.
  intros [[Hv Hd]|[-> ->]] Hat; [|by destruct at_].
  destruct at_; cbn [wait_decision waiter_turn].
  - by rewrite Hv, bool_decide_eq_false_2.
  - destruct (Hat eq_refl) as [?|Hu]; [congruence|]. rewrite Hu. cbn.
    by rewrite Hv, bool_decide_eq_false_2.
Qed.

(** C3: only a delivered response authorises destructive work: however the transport's
    calls and the turns of the waiter interleave, if a run through the commit
    barrier executed any phase, the first thing the transport did with the barrier
    was to commit it; after an abort, or after the barrier was dropped undecided,
    no phase runs, even when a commit follows before the waiter looks. *)
Theorem commit_authorises_phases (w w' : World) (t0 : UpgradeTransaction)
    (events : list BarrierEvent) (r : result string UpgradeTransactionStatus) :
  read_transaction (w_dir w) id = Ok t0 -> log_of w = [] ->
  run_upgrade_coordinator io clock id w (wait_decision barrier_new AtBorrow events) = Some (w', r) ->
  log_of w' <> [] ->
  exists before rest, events = before ++ EvCommit :: rest /\ Forall (eq EvWaiter) before.
Proof.
  intros Hd Hnil Hrun Hlog. unfold run_upgrade_coordinator in Hrun.
  destruct (validate_transaction_id id) as [u|e]; [|by injection Hrun as <- <-].
  case_bool_decide; [by injection Hrun as <- <-|].
  destruct (wait_decision barrier_new AtBorrow events) as [decision|] eqn:Hw; [|done].
  apply wait_first in Hw. destruct (decide (decision = DecCommitted)) as [->|Hne].
  - clear -Hw. induction events as [|[] events IH]; cbn [first_decision] in Hw; try done.
    + by exists [], events.
    + destruct (IH Hw) as (before & rest & -> & Hb). exists (EvWaiter :: before), rest.
      split; [done|]. by constructor.
  - exfalso. set (w1 := mkWorld (w_dir w) ({[id]} ∪ w_locks w) (w_ticks w) (w_exec w)) in *.
    destruct (run_upgrade_coordinator_with_lock io clock id w1 decision) as [w2 r2] eqn:Hr.
    injection Hrun as <- <-.
    apply (run_aborted_log w1 w2 t0) in Hr as [Hl _]; [|done|done].
    apply Hlog; simpl; by rewrite Hl.
Qed.
End CoordinatorLog.

(** * Admission *)

Lemma recency_le_trans (a b c : UpgradeTransaction) :
  recency_le a b = true -> recency_le b c = true -> recency_le a c = true.
Proof.
  unfold recency_le. intros Hab Hbc.
  repeat match goal with
  | H : context [?x =? ?y] |- _ => destruct (Z.eqb_spec x y)
  | |- context [?x =? ?y] => destruct (Z.eqb_spec x y)
  end; rewrite ?Z.ltb_lt in *; try lia.
  by eapply string_leb_trans.
Qed.

Lemma recency_le_total (a b : UpgradeTransaction) :
  recency_le a b = false -> recency_le b a = true.
Proof.
  unfold recency_le. rewrite (Z.eqb_sym (t_sequence b)), (Z.eqb_sym (t_updated_at b)).
  destruct (Z.eqb_spec (t_sequence a) (t_sequence b)); [|rewrite Z.ltb_lt, Z.ltb_ge; lia].
  destruct (Z.eqb_spec (t_updated_at a) (t_updated_at b)); [|rewrite Z.ltb_lt, Z.ltb_ge; lia].
  intros Hf. destruct (String.leb_total (t_transaction_id a) (t_transaction_id b)); congruence.
Qed.

Lemma recency_le_refl (a : UpgradeTransaction) : recency_le a a = true.
Proof. destruct (recency_le a a) eqn:E; [done|]. by rewrite (recency_le_total _ _ E) in E. Qed.

(** [m] is a most recent element of [l]. *)
Definition newest (l : list UpgradeTransaction) (m : UpgradeTransaction) : Prop :=
  m ∈ l /\ forall t, t ∈ l -> recency_le t m = true.

Lemma max_recent_spec (l : list UpgradeTransaction) :
  match max_recent l with
  | Some m => newest l m
  | None => l = []
  end.
Proof.
  unfold max_recent.
  assert (Hgen : forall best, match fold_left (fun best t =>
      match best with
      | None => Some t
      | Some b => if recency_le b t then Some t else Some b
      end) l best with
    | Some m => newest (match best with Some b => b :: l | None => l end) m
    | None => best = None /\ l = []
    end).
  { induction l as [|t l IH]; intros best; simpl.
    - destruct best as [b|]; [|done]. split; [by left|].
      intros t ->%list_elem_of_singleton. apply recency_le_refl.
    - destruct best as [b|]; [|specialize (IH (Some t)); case_match; naive_solver].
      destruct (recency_le b t) eqn:E.
      + specialize (IH (Some t)). case_match; [|naive_solver]. destruct IH as [Hin Hmax].
        split; [by right|]. intros x [->|Hx]%elem_of_cons; [|by apply Hmax].
        eapply recency_le_trans; [done|]. apply Hmax. by left.
      + specialize (IH (Some b)). case_match; [|naive_solver]. destruct IH as [Hin Hmax].
        split.
        { apply elem_of_cons in Hin as [->|Hin]; [by left|by right; right]. }
        intros x [->|[->|Hx]%elem_of_cons]%elem_of_cons.
        * apply Hmax. by left.
        * eapply recency_le_trans; [by apply recency_le_total|]. apply Hmax. by left.
        * apply Hmax. by right. }
  specialize (Hgen None). simpl in Hgen. case_match; tauto.
Qed.

(** Admission leaves the runtime at most one owner: two active
    transactions refuse every request; one active transaction makes the
    request a retry (same target) or a conflict (another), never a new start;
    with none active, the request is a no-op when the most recent completed
    transaction reached the target, and only otherwise a new start. *)
Theorem admit_apply_spec (transactions : list UpgradeTransaction) (target_version : string) :
  let active := active_transactions transactions in
  let completed := List.filter is_completed transactions in
  match admit_apply transactions target_version with
  | Err _ => exists a b rest, active = a :: b :: rest
  | Ok (ExistingActive id) =>
      exists t, active = [t] /\ t_transaction_id t = id /\ t_target_version t = target_version
  | Ok (ConflictActive id) =>
      exists t, active = [t] /\ t_transaction_id t = id /\ t_target_version t <> target_version
  | Ok (AlreadyCompleted id) =>
      active = [] /\ exists m, newest completed m /\ t_transaction_id m = id
                     /\ t_target_version m = target_version
  | Ok StartNew =>
      active = [] /\ (completed = [] \/ exists m, newest completed m
                                       /\ t_target_version m <> target_version)
  end.
Proof.
  intros active completed. unfold admit_apply. fold active.
  destruct active as [|a [|b rest]]; cbn [head zlen length ensure bind].
  - change (zlen []) with 0. simpl. unfold latest_completed_transaction. fold completed.
    pose proof (max_recent_spec completed) as Hm.
    destruct (max_recent completed) as [m|]; simpl; [|split; [done|by left]].
    destruct (String.eqb_spec (t_target_version m) target_version); simpl; eauto 6.
  - simpl. destruct (String.eqb_spec (t_target_version a) target_version); eauto.
  - rewrite bind_ensure, (proj2 (Z.leb_gt (zlen (a :: b :: rest)) 1)).
    + eauto.
    + unfold zlen. simpl. lia.
Qed.

(** * Witnesses *)

Module UpgradeWitness.
Import JsonModel.

Definition plan0 : UpgradeTransaction :=
  transaction_new nil_uuid 100 "1.0.0" "1.1.0" "host-a" "boot-1" true false false.
Definition at0 (s : UpgradeTransactionState) : UpgradeTransaction := with_state plan0 s 200 None.
Definition undelivered0 : UpgradeTransaction :=
  with_state plan0 Failed 200
    (Some "upgrade response was not delivered; destructive phase aborted").

(** The records of the runs below. *)
Definition known : list UpgradeTransaction :=
  [plan0; at0 Committed; at0 SessionsVerifying; at0 EndpointVerifying; at0 PluginReconciling;
   at0 Completed; undelivered0].

Definition index_bytes (n : nat) : string := String (ascii_of_nat (48 + n)) EmptyString.

(** A codec for finitely many records: a record's bytes are its place in a table. *)
Definition table_codec_of (table : list UpgradeTransaction) : TransactionCodec := {|
  to_vec_pretty t := (fun p => index_bytes p.1) <$> list_find (eq t) table;
  txn_from_slice b :=
    match b with
    | String c EmptyString => table !! (nat_of_ascii c - 48)%nat
    | _ => None
    end;
|}.

Lemma transaction_table_laws (table : list UpgradeTransaction) :
  (length table <= 200)%nat -> TransactionCodecLaws (H0 := table_codec_of table).
Proof.
  intros Hlen. split. intros t b Hb. unfold to_vec_pretty, table_codec_of in Hb.
  destruct (list_find (eq t) table) as [[i u]|] eqn:Hf; [|discriminate Hb].
  cbn [fmap option_fmap option_map fst] in Hb. injection Hb as <-.
  unfold index_bytes, txn_from_slice, table_codec_of.
  apply list_find_Some in Hf as (Hi & <- & _).
  pose proof (lookup_lt_Some _ _ _ Hi) as Hl.
  rewrite nat_ascii_embedding by lia. by replace (48 + i - 48)%nat with i by lia.
Qed.

#[local] Instance table_codec : TransactionCodec := table_codec_of known.
#[local] Instance table_codec_laws : TransactionCodecLaws := transaction_table_laws known ltac:(simpl; lia).

Definition disk_ok (d : Dir) (path : string) : DirectoryIo := mkIo "7.u" None false None.

(** A disk that cannot rename, and cannot remove the temporary file either. *)
Definition disk_full (d : Dir) (path : string) : DirectoryIo :=
  mkIo "7.u" (Some (RenameOver, "disk full"%string)) true None.
Definition clock0 (n : nat) : Z := 200.

#[local] Instance obedient : UpgradeCoordinatorExecutor unit := {
  execute_phase _ _ _ := (Ok StepContinue, tt);
  verified_identity _ := None;
  restored_session_count _ := None;
  activity_state_persisted _ _ := tt;
}.

Definition dir0 : Dir := {[file_name nil_uuid := mkEntry RegularFile 384 (index_bytes 0)]}.
Definition world0 : World := mkWorld dir0 ∅ 0 tt.
Definition logged_world0 : World := mkWorld dir0 ∅ 0 (tt, @nil log_entry).

Lemma dir0_read : read_transaction dir0 nil_uuid = Ok plan0.
Proof. vm_compute. reflexivity. Qed.

Lemma upgrade_lifecycle_witness :
  Z.of_nat 2 + rank (t_state plan0) <= rank Failed <= 8.
Proof.
  apply (upgrade_lifecycle 2 plan0 (with_state (at0 Committed) Failed 300 (Some "x"))).
  eapply nsteps_l; [apply (step_set_state plan0 200 Committed); reflexivity|].
  apply nsteps_once. apply (step_mark_failed _ 300 "x"). reflexivity.
Defined.

(** A write that fails at its last step and leaves its temporary file behind. *)
Definition broken : Dir * result string unit := write_transaction disk_full dir0 (at0 Committed).

Lemma broken_value :
  broken.1 !! temporary_of disk_full dir0 (at0 Committed) = Some (new_file (index_bytes 1))
  /\ is_ok broken.2 = false.
Proof. split; vm_compute; reflexivity. Qed.

Lemma write_read_transaction_witness :
  read_transaction (write_transaction disk_ok dir0 (at0 Committed)).1 nil_uuid = Ok (at0 Committed)
  /\ read_transaction broken.1 nil_uuid = Ok plan0.
Proof.
  split.
  - apply (write_read_transaction disk_ok dir0 _ (at0 Committed) _ (surjective_pairing _)).
    vm_compute. reflexivity.
  - rewrite <- dir0_read.
    destruct (broken.2) as [[]|e] eqn:He; [destruct broken_value as [_ Hb]; rewrite He in Hb; discriminate Hb|].
    apply (write_read_transaction disk_full dir0 broken.1 (at0 Committed) (broken.2) (surjective_pairing _)) in He.
    apply (proj1 He nil_uuid).
Defined.

Definition run0 := run_upgrade_coordinator_with_lock disk_ok clock0 nil_uuid world0 DecCommitted.

Lemma coordinator_outcome_witness :
  exists t, read_transaction (w_dir run0.1) nil_uuid = Ok t /\ rank Prepared <= rank (t_state t).
Proof.
  destruct (coordinator_outcome disk_ok obedient clock0 world0 run0.1 nil_uuid plan0 DecCommitted
              run0.2 dir0_read (surjective_pairing run0)) as (t & Ht & Hr & _).
  exists t. split; [exact Ht|exact Hr].
Defined.

#[local] Instance logged_obedient : UpgradeCoordinatorExecutor (unit * list log_entry) :=
  logged obedient nil_uuid.

Definition run1 :=
  run_upgrade_coordinator_with_lock disk_ok clock0 nil_uuid logged_world0 DecCommitted.

(** The whole run, and its log. *)
Lemma run1_completes :
  (is_ok run1.2 = true) /\ (w_exec run1.1).2 =
    [(SessionsVerifying, Some Committed); (EndpointVerifying, Some SessionsVerifying);
     (PluginReconciling, Some EndpointVerifying)].
Proof. split; vm_compute; reflexivity. Qed.

Lemma coordinator_phase_log_witness :
  exists n, (n <= 3)%nat
    /\ (w_exec run1.1).2 = take n (expected_log Committed (work_phases plan0)).
Proof.
  destruct (coordinator_phase_log disk_ok obedient clock0 nil_uuid logged_world0 run1.1 plan0
              DecCommitted run1.2 dir0_read eq_refl (surjective_pairing run1))
    as (n & Hn & Hl & _).
  exists n. split; [exact Hn|exact Hl].
Defined.

(** The transport commits and is told to abort before the waiter looks. *)
Definition barrier_run : list BarrierEvent :=
  [EvWaiter; EvCommit; EvAbort; EvDropped; EvWaiter; EvWaiter].

Definition run2 : option (World * result string UpgradeTransactionStatus) :=
  run_upgrade_coordinator disk_ok clock0 nil_uuid logged_world0
    (wait_decision barrier_new AtBorrow barrier_run).

Lemma run2_logs : exists w r, run2 = Some (w, r) /\ negb (bool_decide ((w_exec w).2 = [])) = true.
Proof.
  assert (Hs : is_some run2 = true) by (vm_compute; reflexivity).
  destruct run2 as [[w r]|] eqn:E; [|discriminate Hs]. exists w, r. split; [done|].
  assert (Hb : is_some_and (fun wr => negb (bool_decide ((w_exec wr.1).2 = []))) run2 = true)
    by (vm_compute; reflexivity).
  by rewrite E in Hb.
Qed.

(** The same transport the other way round runs nothing. *)
Example abort_then_commit :
  wait_decision barrier_new AtBorrow [EvAbort; EvCommit; EvWaiter] = Some DecAborted.
Proof. reflexivity. Qed.

Lemma commit_authorises_phases_witness :
  exists before rest, barrier_run = before ++ EvCommit :: rest /\ Forall (eq EvWaiter) before.
Proof.
  destruct run2_logs as (w & r & Hr & Hl).
  apply (commit_authorises_phases disk_ok obedient clock0 nil_uuid logged_world0 w plan0
           barrier_run r dir0_read eq_refl Hr).
  intros Hnil. rewrite Hnil in Hl. discriminate Hl.
Defined.
End UpgradeWitness.
