(* ===== verification/UpgradeAdmission.v ===== *)
(** Admission of an upgrade: src/src/upgrade_coordinator.rs, [prepare_apply], over
    the durable records of [Upgrade], and who owns the runtime after it.

    The whole of it runs under the admission lock, so no other admission comes in
    between; a coordinator that is still running may only take its own record
    forward, which no branch below depends on.  What the file system, the locks of
    the coordinators, the sessions and the spawned child answer are fields of
    [PrepareEnv]; until it has answered READY the child writes nothing. *)

From S2P Require Import Prelude Strings Utf8 Json Upgrade UpgradeTheorems.
From stdpp Require Import pretty.
#[local] Open Scope Z_scope.
#[local] Open Scope rust_scope.

#[local] Notation Dir := (gmap string DirEntry).

(** * Data *)

Inductive HelperGeneration : Type :=
| HelperCompatible
| HelperIncompatible
| HelperUnavailable.

#[global] Instance helper_generation_eq : EqDecision HelperGeneration.
Proof. solve_decision. Defined.

(** The fields [prepare_apply] reads. *)
Record RemoteUpgradePreflight : Type := mkPreflight {
  rp_source_version : string;
  rp_supervisor_handoff_required : bool;
  rp_blocked_session_count : Z;
  rp_direct_ingress_action : string;
  rp_direct_ingress_blocked : bool;
  rp_reconnect_expected : bool;
  rp_helper_generation : HelperGeneration;
  rp_planned_sessions : list UpgradePlannedSession;
}.

Record InstalledUpgradeExecutable : Type := mkExecutable {
  ex_target_version : string;
  ex_digest_hex : string;
}.

Record UpgradeActivityContext : Type := mkActivity {
  ac_session : UpgradePlannedSession;
  ac_operation_id : string;
}.

Record PreparedRemoteUpgrade : Type := mkPrepared {
  pu_status : UpgradeTransactionStatus;
  pu_commit : bool;
  pu_accepted_new : bool;
}.

Record PrepareEnv : Type := mkEnv {
  pe_revalidated : result string unit;
  pe_admission_lock : result string unit;
  pe_sessions_verified : result string unit;
  pe_lock_is_held : string -> result string bool;
  pe_host_id : result string string;
  pe_boot_generation : string;
  pe_new_v4 : string;
  pe_spawned : result string unit;
  pe_clock : nat -> Z;
}.

(** * Operations *)

Section Admission.
Context `{UuidLib} `{!TransactionCodec} (io : Dir -> string -> DirectoryIo).

Definition is_restart (p : RemoteUpgradePreflight) : bool :=
  String.eqb (rp_direct_ingress_action p) "restart".

Definition completed_upgrade_is_current (completed : UpgradeTransaction)
    (preflight : RemoteUpgradePreflight) (approved_digest : string) : result string bool :=
  if rp_supervisor_handoff_required preflight || is_restart preflight then Ok false
  else
    ensure (bool_decide (t_approved_executable_sha256 completed = Some approved_digest))
      "completed upgrade identity does not match the installed candidate" ;!
    Ok true.

(** The assignments after [UpgradeTransaction::new]. *)
Definition with_approval (t : UpgradeTransaction) (sequence : Z)
    (planned : list UpgradePlannedSession) (digest : string) : UpgradeTransaction :=
  mkTransaction (t_schema t) (t_transaction_id t) (t_source_version t) (t_target_version t)
    (t_host_id t) (t_source_boot_generation t) (t_state t) (t_created_at t) (t_updated_at t)
    sequence (t_reconnect_expected t) (t_supervisor_handoff_required t)
    (t_ingress_restart_required t) (zlen planned) planned (t_activity_session t) (Some digest)
    (t_verified_host_id t) (t_verified_version t) (t_verified_boot_generation t)
    (t_restored_session_count t) (t_failure_summary t).

Definition with_activity (t : UpgradeTransaction) (activity : option UpgradeActivityContext) :
    UpgradeTransaction :=
  match activity with
  | None => t
  | Some a =>
      mkTransaction (t_schema t) (ac_operation_id a) (t_source_version t) (t_target_version t)
        (t_host_id t) (t_source_boot_generation t) (t_state t) (t_created_at t) (t_updated_at t)
        (t_sequence t) (t_reconnect_expected t) (t_supervisor_handoff_required t)
        (t_ingress_restart_required t) (t_planned_session_count t) (t_planned_sessions t)
        (Some (ac_session a)) (t_approved_executable_sha256 t)
        (t_verified_host_id t) (t_verified_version t) (t_verified_boot_generation t)
        (t_restored_session_count t) (t_failure_summary t)
  end.

Definition prepared_transaction_from_approved (new_v4 : string) (now : Z)
    (preflight : RemoteUpgradePreflight)
    (target_version approved_executable_sha256 host_id source_boot_generation : string)
    (sequence : Z) : UpgradeTransaction :=
  with_approval
    (transaction_new new_v4 now (rp_source_version preflight) target_version host_id
       source_boot_generation (rp_reconnect_expected preflight)
       (rp_supervisor_handoff_required preflight) (is_restart preflight))
    sequence (rp_planned_sessions preflight) approved_executable_sha256.

(** The loop over the loaded records: an ownerless [Prepared] one is failed. *)
Fixpoint fail_ownerless (env : PrepareEnv) (tick : nat) (d : Dir) (l : list UpgradeTransaction) :
    Dir * result string unit :=
  match l with
  | [] => (d, Ok tt)
  | t :: rest =>
      if negb (bool_decide (t_state t = Prepared)) then fail_ownerless env tick d rest
      else match pe_lock_is_held env (t_transaction_id t) with
      | Err e => (d, Err e)
      | Ok true => fail_ownerless env tick d rest
      | Ok false =>
          match mark_failed (pe_clock env tick) t
                  "prepared coordinator owner disappeared before commit" with
          | Err e => (d, Err e)
          | Ok t =>
              match write_transaction io d t with
              | (d, Err e) => (d, Err e)
              | (d, Ok _) => fail_ownerless env (S tick) d rest
              end
          end
      end
  end.

(** From the new record to the end. *)
Definition start_transaction (env : PrepareEnv) (tick : nat) (d : Dir) (t : UpgradeTransaction) :
    Dir * result string PreparedRemoteUpgrade :=
  match write_transaction io d t with
  | (d, Err e) => (d, Err e)
  | (d, Ok _) =>
      match pe_spawned env with
      | Ok _ => (d, Ok (mkPrepared (status t) true true))
      | Err error =>
          match mark_failed (pe_clock env tick) t "upgrade coordinator failed before commit" with
          | Err e => (d, Err e)
          | Ok t =>
              match write_transaction io d t with
              | (d, Err e) => (d, Err e)
              | (d, Ok _) => (d, Err error)
              end
          end
      end
  end.

(** What the match on the disposition decides: an answer, or to start ([None]). *)
Definition disposition_answer (d : Dir) (executable : InstalledUpgradeExecutable)
    (preflight : RemoteUpgradePreflight) (disposition : UpgradeApplyDisposition) :
    result string (option PreparedRemoteUpgrade) :=
  match disposition with
  | ExistingActive id =>
      let! t := read_transaction d id in
      Ok (Some (mkPrepared (status t) false false))
  | AlreadyCompleted id =>
      let! completed := read_transaction d id in
      let! current := completed_upgrade_is_current completed preflight (ex_digest_hex executable) in
      Ok (if current then Some (mkPrepared (status completed) false false) else None)
  | ConflictActive id =>
      Err ("upgrade transaction " +:+ id +:+ " already owns the runtime for a different target")
  | StartNew => Ok None
  end.

(** The checks before the admission lock and the first one under it. *)
Definition prepare_checks (env : PrepareEnv) (executable : InstalledUpgradeExecutable)
    (preflight : RemoteUpgradePreflight) (expected_version : option string) : result string unit :=
  validate_opt expected_version (fun expected =>
    ensure (String.eqb expected (ex_target_version executable))
      ("installed target version changed: expected " +:+ expected +:+ ", found "
       +:+ ex_target_version executable)) ;!
  ensure (rp_blocked_session_count preflight =? 0)
    ("upgrade is blocked by " +:+ pretty (rp_blocked_session_count preflight) +:+ " session(s)") ;!
  ensure (negb (rp_direct_ingress_blocked preflight)) "direct ingress upgrade is blocked" ;!
  ensure (bool_decide (rp_helper_generation preflight = HelperCompatible))
    "sandbox helper generation is not compatible with the running supervisor" ;!
  pe_revalidated env ;!
  pe_admission_lock env ;!
  pe_sessions_verified env.

Definition prepare_apply (env : PrepareEnv) (executable : InstalledUpgradeExecutable)
    (preflight : RemoteUpgradePreflight) (expected_version : option string)
    (activity : option UpgradeActivityContext) (d : Dir) :
    Dir * result string PreparedRemoteUpgrade :=
  match
    prepare_checks env executable preflight expected_version ;!
    load_transactions d
  with
  | Err e => (d, Err e)
  | Ok loaded =>
      match fail_ownerless env 0 d loaded with
      | (d, Err e) => (d, Err e)
      | (d, Ok _) =>
          match
            let! persisted := load_transactions d in
            let! sequence := next_transaction_sequence persisted in
            let! disposition := admit_apply persisted (ex_target_version executable) in
            let! answer := disposition_answer d executable preflight disposition in
            match answer with
            | Some answer => Ok (inl answer)
            | None =>
                let! host_id := pe_host_id env in
                Ok (inr (with_activity
                  (prepared_transaction_from_approved (pe_new_v4 env)
                     (pe_clock env (length loaded)) preflight (ex_target_version executable)
                     (ex_digest_hex executable) host_id (pe_boot_generation env) sequence)
                  activity))
            end
          with
          | Err e => (d, Err e)
          | Ok (inl answer) => (d, Ok answer)
          | Ok (inr t) => start_transaction env (S (length loaded)) d t
          end
      end
  end.
End Admission.

(** * Who owns the runtime *)

Section AdmissionTheorems.
Context `{UuidLib} `{TransactionCodecLaws} (io : Dir -> string -> DirectoryIo).

(** A durable record that is still to be completed, failed or rolled back. *)
Definition unfinished (t : UpgradeTransaction) : Prop :=
  t_state t ∉ [Completed; Failed; RolledBack].

Definition active_in (d : Dir) (id : string) : Prop :=
  exists t, read_transaction d id = Ok t /\ unfinished t.

Definition single_owner (d : Dir) : Prop :=
  forall a b, active_in d a -> active_in d b -> a = b.

Lemma unfinished_iff (t : UpgradeTransaction) : unfinished t <-> is_terminal (t_state t) = false.
Proof.
  unfold unfinished. rewrite list_elem_of_In. destruct (t_state t); simpl; naive_solver.
Qed.

Lemma sorted_names_perm (l : list string) : sort_strings l ≡ₚ l.
Proof.
  induction l as [|s l IH]; [done|]. cbn [sort_strings fold_right]. fold (sort_strings l).
  transitivity (s :: sort_strings l); [|by rewrite IH]. clear IH.
  induction (sort_strings l) as [|x r IHr]; [done|]. simpl. destruct (String.leb s x); [done|].
  rewrite IHr. apply perm_swap.
Qed.

Lemma list_ids_elem (d : Dir) (ids : list string) (id : string) :
  list_transaction_ids d = Ok ids ->
  id ∈ ids <-> validate_transaction_id id = Ok tt /\ is_Some (d !! file_name id).
Proof.
  intros Hl. apply bind_Ok in Hl as ([] & _ & [= <-]). rewrite sorted_names_perm, list_elem_of_omap.
  split.
  - intros (name & Hin & Hid). apply list_elem_of_fmap in Hin as ([name' e] & -> & Hin).
    apply elem_of_map_to_list in Hin. cbn [fst] in Hid.
    destruct (str_strip_suffix _ _) as [s|] eqn:Hs; [|done]. case_match eqn:Hv; [|done].
    injection Hid as ->. apply str_strip_suffix_Some in Hs. apply is_ok_true in Hv as [[] ?].
    split; [done|]. unfold file_name. rewrite <- Hs. by exists e.
  - intros [Hv [e He]]. exists (file_name id). split.
    + apply list_elem_of_fmap. exists (file_name id, e). by rewrite elem_of_map_to_list.
    + unfold file_name. rewrite str_strip_suffix_app, Hv. done.
Qed.

Lemma load_ids_elem (d : Dir) (ids : list string) : forall l t,
  load_ids d ids = Ok l ->
  t ∈ l <-> exists id, id ∈ ids /\ read_transaction_if_present d id = Ok (Some t).
Proof.
  induction ids as [|id ids IH]; intros l t Hl; cbn [load_ids] in Hl.
  - injection Hl as <-. split; [by intros ?%elem_of_nil|]. by intros (? & ?%elem_of_nil & _).
  - apply bind_Ok in Hl as (o & Ho & Hl). apply bind_Ok in Hl as (l' & Hl' & Hl).
    specialize (IH l' t Hl').
    assert (Hl2 : t ∈ l <-> o = Some t \/ t ∈ l').
    { destruct o as [t0|]; injection Hl as <-; [rewrite elem_of_cons; naive_solver|naive_solver]. }
    rewrite Hl2, IH. split.
    + intros [->|(i & Hi & Hr)]; [exists id|exists i]; rewrite elem_of_cons; auto.
    + intros (i & [->|Hi]%elem_of_cons & Hr); [left; congruence|right; eauto].
Qed.

Lemma read_present (d : Dir) (id : string) (t : UpgradeTransaction) :
  read_transaction_if_present d id = Ok (Some t) <-> read_transaction d id = Ok t.
Proof.
  unfold read_transaction. destruct (read_transaction_if_present d id) as [[t'|]|]; simpl; naive_solver.
Qed.

(** The loaded list is the durable set. *)
Lemma load_elem (d : Dir) (l : list UpgradeTransaction) (t : UpgradeTransaction) :
  load_transactions d = Ok l -> t ∈ l <-> read_transaction d (t_transaction_id t) = Ok t.
Proof.
  intros Hl. apply bind_Ok in Hl as (ids & Hids & Hl). rewrite (load_ids_elem _ _ _ _ Hl).
  setoid_rewrite read_present. split.
  - intros (id & _ & Hr). by assert (t_transaction_id t = id) as -> by (apply read_transaction_Ok in Hr; tauto).
  - intros Hr. exists (t_transaction_id t). split; [|done]. rewrite (list_ids_elem _ _ _ Hids).
    apply read_transaction_Ok in Hr as (Hv & _ & _ & file & Hf & _). by rewrite Hf.
Qed.

(** What one write does to the reads. *)
Lemma write_reads (d d' : Dir) (t : UpgradeTransaction) (r : result string unit) (id : string) :
  write_transaction io d t = (d', r) ->
  read_transaction d' id = read_transaction d id
  \/ (id = t_transaction_id t /\ read_transaction d' id = Ok t).
Proof.
  intros Hw. destruct r as [[]|e]; [|left; by eapply write_failed_reads].
  destruct (decide (id = t_transaction_id t)) as [->|Hne]; [right|left; by eapply write_ok_reads].
  split; [done|]. by eapply write_ok_read_own.
Qed.

(** Whatever comes of it, the loop fails ownerless [Prepared] records and touches no other. *)
Lemma fail_ownerless_reads (env : PrepareEnv) (l : list UpgradeTransaction) : forall tick d d' r id,
  fail_ownerless io env tick d l = (d', r) ->
  read_transaction d' id = read_transaction d id
  \/ exists t t', t ∈ l /\ t_transaction_id t = id /\ t_state t = Prepared
       /\ pe_lock_is_held env id = Ok false
       /\ read_transaction d' id = Ok t' /\ t_state t' = Failed.
Proof.
  induction l as [|t l IH]; intros tick d d' r id Hf; cbn [fail_ownerless] in Hf.
  { injection Hf as <- <-. by left. }
  assert (Hskip : forall tick, fail_ownerless io env tick d l = (d', r) ->
    read_transaction d' id = read_transaction d id
    \/ exists t0 t', t0 ∈ t :: l /\ t_transaction_id t0 = id /\ t_state t0 = Prepared
         /\ pe_lock_is_held env id = Ok false /\ read_transaction d' id = Ok t' /\ t_state t' = Failed).
  { intros k Hk. destruct (IH _ _ _ _ id Hk) as [?|(u & u' & ? & ?)]; [by left|].
    right. exists u, u'. split; [by right|done]. }
  case_bool_decide as Hp; cbn [negb] in Hf; [|by apply (Hskip tick)].
  destruct (pe_lock_is_held env (t_transaction_id t)) as [[]|e] eqn:Hlock;
    [by apply (Hskip tick)| |by injection Hf as <- <-; left].
  destruct (mark_failed _ _ _) as [t1|e] eqn:Hm; [|by injection Hf as <- <-; left].
  apply mark_failed_Ok in Hm as (_ & _ & ->).
  destruct (write_transaction io d _) as [d1 [u|e]] eqn:Hw.
  - apply (write_reads _ _ _ _ id) in Hw. destruct (IH _ _ _ _ id Hf) as [->|(v & v' & ? & ?)].
    + destruct Hw as [->|[-> ->]]; [by left|]. right. eexists t, _. split; [by left|]. by split_and!.
    + right. exists v, v'. split; [by right|done].
  - injection Hf as <- <-. left. by eapply write_failed_reads.
Qed.

Lemma fail_ownerless_active (env : PrepareEnv) (l : list UpgradeTransaction) tick d d' r id :
  fail_ownerless io env tick d l = (d', r) -> active_in d' id -> active_in d id.
Proof.
  intros Hf (t & Hr & Hu). apply (fail_ownerless_reads _ _ _ _ _ _ id) in Hf as [He|(_ & t' & _ & _ & _ & _ & Hr' & Hs)].
  - exists t. by rewrite <- He.
  - rewrite Hr in Hr'. injection Hr' as <-. apply unfinished_iff in Hu. by rewrite Hs in Hu.
Qed.

(** A new transaction where none was active is the only owner, however its start ends. *)
Lemma start_owner (env : PrepareEnv) (tick : nat) (d d' : Dir) (t : UpgradeTransaction) r id :
  (forall id, ~ active_in d id) -> start_transaction io env tick d t = (d', r) ->
  active_in d' id -> id = t_transaction_id t.
Proof.
  intros Hno Hs (u & Hu & Hact). unfold start_transaction in Hs.
  destruct (write_transaction io d t) as [d1 r1] eqn:Hw. apply (write_reads _ _ _ _ id) in Hw.
  assert (Hd1 : read_transaction d1 id = Ok u -> id = t_transaction_id t).
  { intros Hr. destruct Hw as [He|[-> _]]; [|done]. exfalso. apply (Hno id). exists u. by rewrite <- He. }
  destruct r1 as [[]|e]; [|injection Hs as <- <-; auto].
  destruct (pe_spawned env); [injection Hs as <- <-; auto|].
  destruct (mark_failed _ _ _) as [t1|e'] eqn:Hm; [|injection Hs as <- <-; auto].
  apply mark_failed_Ok in Hm as (_ & _ & ->).
  destruct (write_transaction io d1 _) as [d2 [[]|e2]] eqn:Hw2; injection Hs as <- <-;
    apply (write_reads _ _ _ _ id) in Hw2 as [He|[-> _]]; rewrite ?He in Hu; auto.
Qed.

Lemma active_elem (l : list UpgradeTransaction) (t : UpgradeTransaction) :
  t ∈ active_transactions l <-> t ∈ l /\ unfinished t.
Proof.
  unfold active_transactions. rewrite list_elem_of_In, List.filter_In, <- list_elem_of_In, unfinished_iff.
  by rewrite negb_true_iff.
Qed.

Lemma loaded_active (d : Dir) (l : list UpgradeTransaction) (id : string) :
  load_transactions d = Ok l ->
  active_in d id <-> exists t, t ∈ active_transactions l /\ t_transaction_id t = id.
Proof.
  intros Hl. setoid_rewrite active_elem. setoid_rewrite (load_elem _ _ _ Hl). split.
  - intros (t & Hr & Hu). assert (Hid : t_transaction_id t = id) by (apply read_transaction_Ok in Hr; tauto).
    exists t. by rewrite Hid.
  - intros (t & [Hr Hu] & <-). by exists t.
Qed.

Lemma newest_elem (l : list UpgradeTransaction) (m : UpgradeTransaction) : newest l m -> m ∈ l.
Proof. by intros [? _]. Qed.

(** What the loaded set says when admission answers: nobody else owns the runtime, and
    the record it points to is durable with the requested target. *)
Lemma admitted (d : Dir) (l : list UpgradeTransaction) (target : string) disposition :
  load_transactions d = Ok l -> admit_apply l target = Ok disposition ->
  single_owner d
  /\ match disposition with
     | ExistingActive id | AlreadyCompleted id =>
         exists t, read_transaction d id = Ok t /\ t_target_version t = target
     | _ => True
     end
  /\ match disposition with
     | AlreadyCompleted _ | StartNew => forall id, ~ active_in d id
     | _ => True
     end.
Proof.
  intros Hl Ha. pose proof (admit_apply_spec l target) as Hspec. rewrite Ha in Hspec. cbn zeta in Hspec.
  assert (Hno : active_transactions l = [] -> forall id, ~ active_in d id).
  { intros He id Hact. apply (loaded_active _ _ _ Hl) in Hact as (t & Ht & _). rewrite He in Ht.
    by apply elem_of_nil in Ht. }
  assert (Hone : forall t, active_transactions l = [t] -> single_owner d).
  { intros t He a b Hia Hib. apply (loaded_active _ _ _ Hl) in Hia as (u & Hu & <-).
    apply (loaded_active _ _ _ Hl) in Hib as (v & Hv & <-). rewrite He in Hu, Hv.
    apply list_elem_of_singleton in Hu as ->. by apply list_elem_of_singleton in Hv as ->. }
  assert (Hread : forall t, t ∈ l -> read_transaction d (t_transaction_id t) = Ok t)
    by (intros t; by rewrite <- (load_elem _ _ _ Hl)).
  destruct disposition as [|id|id|id].
  - destruct Hspec as [He _]. split_and!; [|done|exact (Hno He)].
    intros a b Hia. exfalso. by apply (Hno He a).
  - destruct Hspec as (t & He & <- & Ht). split_and!; [by eapply Hone| |done].
    exists t. split; [|done]. apply Hread. assert (t ∈ active_transactions l) as [? _]%active_elem; [|done].
    rewrite He. by apply list_elem_of_singleton.
  - destruct Hspec as (t & He & _). split_and!; [by eapply Hone|done..].
  - destruct Hspec as (He & m & Hm%newest_elem & <- & Ht). split_and!.
    + intros a b Hia. exfalso. by apply (Hno He a).
    + exists m. split; [|exact Ht]. apply Hread. rewrite list_elem_of_In, List.filter_In in Hm.
      rewrite list_elem_of_In. apply Hm.
    + exact (Hno He).
Qed.

Lemma fail_ownerless_live (env : PrepareEnv) (l : list UpgradeTransaction) tick d d' r id t :
  fail_ownerless io env tick d l = (d', r) -> (forall u, u ∈ l -> read_transaction d (t_transaction_id u) = Ok u) ->
  read_transaction d id = Ok t ->
  t_state t <> Prepared \/ pe_lock_is_held env id <> Ok false -> read_transaction d' id = Ok t.
Proof.
  intros Hf Hl Hr Hlive. apply (fail_ownerless_reads _ _ _ _ _ _ id) in Hf as [->|(u & _ & Hu & <- & Hp & Hk & _)]; [done|].
  apply Hl in Hu. rewrite Hr in Hu. injection Hu as ->. by destruct Hlive.
Qed.

(** An answer without a start is the record of the id of the disposition. *)
Lemma answered (d : Dir) executable preflight disposition (p : PreparedRemoteUpgrade) :
  disposition_answer d executable preflight disposition = Ok (Some p) ->
  pu_commit p = false /\ pu_accepted_new p = false
  /\ exists id, (disposition = ExistingActive id \/ disposition = AlreadyCompleted id)
     /\ exists t, read_transaction d id = Ok t /\ pu_status p = status t.
Proof.
  destruct disposition as [|id|id|id]; cbn [disposition_answer]; try done.
  - intros (t & Ht & [= <-])%bind_Ok. split_and!; [done..|]. exists id. split; [by left|]. by exists t.
  - intros (t & Ht & ([] & _ & [= <-])%bind_Ok)%bind_Ok. split_and!; [done..|].
    exists id. split; [by right|]. by exists t.
Qed.

Lemma with_activity_facts (t : UpgradeTransaction) (activity : option UpgradeActivityContext) :
  t_state (with_activity t activity) = t_state t
  /\ t_target_version (with_activity t activity) = t_target_version t.
Proof. by destruct activity. Qed.

End AdmissionTheorems.

(** * Witness *)

Module AdmissionWitness.
Import JsonModel UpgradeWitness.

Definition digest0 : string := String.concat EmptyString (repeat "ab"%string 32).
Definition preflight0 : RemoteUpgradePreflight :=
  mkPreflight "1.0.0" true 0 "none" false true HelperCompatible [].
Definition executable0 : InstalledUpgradeExecutable := mkExecutable "1.2.0" digest0.
Definition env0 : PrepareEnv :=
  mkEnv (Ok tt) (Ok tt) (Ok tt) (fun _ => Ok false) (Ok "host-a"%string) "boot-2" one_uuid (Ok tt)
    (fun _ => 300).

(** The record left behind by a coordinator that died before its commit, what it
    becomes, and the new one. *)
Definition abandoned : UpgradeTransaction :=
  with_state plan0 Failed 300 (Some "prepared coordinator owner disappeared before commit"%string).
Definition fresh : UpgradeTransaction :=
  prepared_transaction_from_approved one_uuid 300 preflight0 "1.2.0" digest0 "host-a" "boot-2" 1.

#[local] Instance codec : TransactionCodec := table_codec_of [plan0; abandoned; fresh].
#[local] Instance codec_laws : TransactionCodecLaws :=
  transaction_table_laws [plan0; abandoned; fresh] ltac:(simpl; lia).

Definition admission : Dir * result string PreparedRemoteUpgrade :=
  prepare_apply disk_ok env0 executable0 preflight0 (Some "1.2.0"%string) None dir0.

Lemma admission_value :
  admission.2 = Ok (mkPrepared (status fresh) true true)
  /\ read_transaction admission.1 nil_uuid = Ok abandoned.
Proof. split; vm_compute; reflexivity. Qed.

End AdmissionWitness.
