(* ===== verification/Change.v ===== *)
(** Durable Changes and the single-writer lease: src/src/change.rs, with the
    receipt types of src/src/delivery.rs a Change carries.

    The store of one owner scope maps a Change id to the bytes of its file
    [chg-<id>.json]; the record's derived serde code is the class
    [ChangeCodec].  Every operation holds the store's exclusive lock from its
    first read to its last write, so an operation is one step.  What a write
    does is the file system's choice ([WriteOutcome]): it may fail before the
    rename, or after it (the directory's [sync_all]).  Canonical paths and the
    digest that names an idempotent Change are parameters. *)

From S2P Require Import Prelude Json.

Definition MAX_RECORD : Z := 128 * 1024.
Definition MAX_EXECUTIONS : Z := 128.

Record ChangeScope : Type := mkScope {
  sc_session_id : string;
  sc_session_started_at : Z;
  sc_session_process_id : Z;
  sc_canonical_root : string;
  sc_repository_id : string;
}.

Inductive ChangeBase : Type :=
| OriginMain
| BaseChange (id : string).

Record ExecutionAttempt : Type := mkAttempt {
  ea_execution_id : string;
  ea_backend : string;
  ea_executor : string;
  ea_generation : Z;
}.

Record WriterLease : Type := mkLease {
  wl_execution_id : string;
  wl_generation : Z;
}.

Record Verification : Type := mkVerification {
  vf_revision : string;
  vf_record_revision : Z;
  vf_task_record_revision : Z;
  vf_passed : bool;
}.

(** * Receipts of deliveries (delivery.rs) *)

Inductive DeliveryState : Type :=
| Accepted
| Delegated
| ReconciliationRequired
| DeliveryCompleted.

Record PullRequestReceipt : Type := mkPullRequest {
  pr_number : Z;
  pr_head_ref : string;
  pr_base_ref : string;
  pr_revision : string;
  pr_url : string;
  pr_stack_parent_pr_number : option Z;
  pr_stack_linked : bool;
}.

#[global] Instance scope_eq_dec : EqDecision ChangeScope.
Proof. solve_decision. Defined.
#[global] Instance base_eq_dec : EqDecision ChangeBase.
Proof. solve_decision. Defined.
#[global] Instance attempt_eq_dec : EqDecision ExecutionAttempt.
Proof. solve_decision. Defined.
#[global] Instance lease_eq_dec : EqDecision WriterLease.
Proof. solve_decision. Defined.
#[global] Instance verification_eq_dec : EqDecision Verification.
Proof. solve_decision. Defined.
#[global] Instance delivery_state_eq_dec : EqDecision DeliveryState.
Proof. solve_decision. Defined.
#[global] Instance pull_request_eq_dec : EqDecision PullRequestReceipt.
Proof. solve_decision. Defined.

(** [label]: 1 to 128 ASCII letters, digits, hyphens, underscores and dots. *)
Definition label_byte (b : Z) : bool :=
  is_ascii_alphanumeric b || (b =? 45) || (b =? 95) || (b =? 46).

Definition label (value : string) : result string unit :=
  ensure (negb (str_is_empty value) && (str_len value <=? 128)
          && forallb label_byte (str_bytes value)) "invalid Change correlation identifier".

(** [ChangeScope::validate], [canonicalize] resolving a path. *)
Definition scope_validate (canonicalize : string -> option string) (s : ChangeScope) :
    result string unit :=
  let! absolute :=
    match sc_canonical_root s with
    | String c _ => if bool_decide (c = "/"%char)
                    then let! p := ok_or (canonicalize (sc_canonical_root s)) "canonicalize" in
                         Ok (String.eqb p (sc_canonical_root s))
                    else Ok false
    | EmptyString => Ok false
    end in
  ensure absolute "Change scope must be canonical" ;!
  label (sc_session_id s) ;!
  ensure (negb (str_is_empty (sc_repository_id s)) && (str_len (sc_repository_id s) <=? 255)
          && forallb (fun b => label_byte b || (b =? 47)) (str_bytes (sc_repository_id s)))
    "invalid repository identity".

Section Change.
Context `{UuidLib}.

Record InitialStart : Type := mkInitialStart {
  is_operation_id : Uuid;
  is_request_fingerprint : string;
  is_snapshot_operation_id : Uuid;
  is_execution_id : string;
  is_snapshot_dispatch_attempted : bool;
  is_snapshot_verified : bool;
  is_vcs_operation_id : option string;
}.

Record DeliveryReceipt : Type := mkReceipt {
  dr_operation_id : Uuid;
  dr_plan_fingerprint : string;
  dr_state : DeliveryState;
  dr_delegated_task_id : option string;
  dr_branch_revision : option string;
  dr_pull_request : option PullRequestReceipt;
  dr_observation_operation_id : option Uuid;
  dr_observation_task_id : option string;
}.

Definition receipt_is_terminal (d : DeliveryReceipt) : bool :=
  bool_decide (dr_state d = DeliveryCompleted).

Record ChangeRecord : Type := mkChange {
  c_schema_version : Z;
  c_change_id : string;
  c_scope : ChangeScope;
  c_task_id : string;
  c_parent_task_id : option string;
  c_parent_change_id : option string;
  c_base : ChangeBase;
  c_workspace_id : option string;
  c_provisioning_operation_id : option Uuid;
  c_allocation_operation_id : option Uuid;
  c_allocation_pending : bool;
  c_executions : list ExecutionAttempt;
  c_initial_start : option InitialStart;
  c_writer : option WriterLease;
  c_writer_generation : Z;
  c_logical_change_id : option string;
  c_materialized_revision : option string;
  c_latest_snapshot_operation_id : option Uuid;
  c_task_record_revision : Z;
  c_verification : option Verification;
  c_delivery : option DeliveryReceipt;
  c_revision : Z;
}.

(** Assignments to the fields of a record. *)

Definition set_workspace_id (r : ChangeRecord) (v : option string) : ChangeRecord :=
  mkChange
    (c_schema_version r) (c_change_id r) (c_scope r) (c_task_id r) (c_parent_task_id r)
    (c_parent_change_id r) (c_base r) v (c_provisioning_operation_id r)
    (c_allocation_operation_id r) (c_allocation_pending r) (c_executions r) (c_initial_start
    r) (c_writer r) (c_writer_generation r) (c_logical_change_id r) (c_materialized_revision
    r) (c_latest_snapshot_operation_id r) (c_task_record_revision r) (c_verification r)
    (c_delivery r) (c_revision r).

Definition set_provisioning_operation_id (r : ChangeRecord) (v : option Uuid) : ChangeRecord :=
  mkChange
    (c_schema_version r) (c_change_id r) (c_scope r) (c_task_id r) (c_parent_task_id r)
    (c_parent_change_id r) (c_base r) (c_workspace_id r) v (c_allocation_operation_id r)
    (c_allocation_pending r) (c_executions r) (c_initial_start r) (c_writer r)
    (c_writer_generation r) (c_logical_change_id r) (c_materialized_revision r)
    (c_latest_snapshot_operation_id r) (c_task_record_revision r) (c_verification r)
    (c_delivery r) (c_revision r).

Definition set_allocation_operation_id (r : ChangeRecord) (v : option Uuid) : ChangeRecord :=
  mkChange
    (c_schema_version r) (c_change_id r) (c_scope r) (c_task_id r) (c_parent_task_id r)
    (c_parent_change_id r) (c_base r) (c_workspace_id r) (c_provisioning_operation_id r) v
    (c_allocation_pending r) (c_executions r) (c_initial_start r) (c_writer r)
    (c_writer_generation r) (c_logical_change_id r) (c_materialized_revision r)
    (c_latest_snapshot_operation_id r) (c_task_record_revision r) (c_verification r)
    (c_delivery r) (c_revision r).

Definition set_allocation_pending (r : ChangeRecord) (v : bool) : ChangeRecord :=
  mkChange
    (c_schema_version r) (c_change_id r) (c_scope r) (c_task_id r) (c_parent_task_id r)
    (c_parent_change_id r) (c_base r) (c_workspace_id r) (c_provisioning_operation_id r)
    (c_allocation_operation_id r) v (c_executions r) (c_initial_start r) (c_writer r)
    (c_writer_generation r) (c_logical_change_id r) (c_materialized_revision r)
    (c_latest_snapshot_operation_id r) (c_task_record_revision r) (c_verification r)
    (c_delivery r) (c_revision r).

Definition set_executions (r : ChangeRecord) (v : list ExecutionAttempt) : ChangeRecord :=
  mkChange
    (c_schema_version r) (c_change_id r) (c_scope r) (c_task_id r) (c_parent_task_id r)
    (c_parent_change_id r) (c_base r) (c_workspace_id r) (c_provisioning_operation_id r)
    (c_allocation_operation_id r) (c_allocation_pending r) v (c_initial_start r) (c_writer r)
    (c_writer_generation r) (c_logical_change_id r) (c_materialized_revision r)
    (c_latest_snapshot_operation_id r) (c_task_record_revision r) (c_verification r)
    (c_delivery r) (c_revision r).

Definition set_initial_start (r : ChangeRecord) (v : option InitialStart) : ChangeRecord :=
  mkChange
    (c_schema_version r) (c_change_id r) (c_scope r) (c_task_id r) (c_parent_task_id r)
    (c_parent_change_id r) (c_base r) (c_workspace_id r) (c_provisioning_operation_id r)
    (c_allocation_operation_id r) (c_allocation_pending r) (c_executions r) v (c_writer r)
    (c_writer_generation r) (c_logical_change_id r) (c_materialized_revision r)
    (c_latest_snapshot_operation_id r) (c_task_record_revision r) (c_verification r)
    (c_delivery r) (c_revision r).

Definition set_writer (r : ChangeRecord) (v : option WriterLease) : ChangeRecord :=
  mkChange
    (c_schema_version r) (c_change_id r) (c_scope r) (c_task_id r) (c_parent_task_id r)
    (c_parent_change_id r) (c_base r) (c_workspace_id r) (c_provisioning_operation_id r)
    (c_allocation_operation_id r) (c_allocation_pending r) (c_executions r) (c_initial_start
    r) v (c_writer_generation r) (c_logical_change_id r) (c_materialized_revision r)
    (c_latest_snapshot_operation_id r) (c_task_record_revision r) (c_verification r)
    (c_delivery r) (c_revision r).

Definition set_writer_generation (r : ChangeRecord) (v : Z) : ChangeRecord :=
  mkChange
    (c_schema_version r) (c_change_id r) (c_scope r) (c_task_id r) (c_parent_task_id r)
    (c_parent_change_id r) (c_base r) (c_workspace_id r) (c_provisioning_operation_id r)
    (c_allocation_operation_id r) (c_allocation_pending r) (c_executions r) (c_initial_start
    r) (c_writer r) v (c_logical_change_id r) (c_materialized_revision r)
    (c_latest_snapshot_operation_id r) (c_task_record_revision r) (c_verification r)
    (c_delivery r) (c_revision r).

Definition set_logical_change_id (r : ChangeRecord) (v : option string) : ChangeRecord :=
  mkChange
    (c_schema_version r) (c_change_id r) (c_scope r) (c_task_id r) (c_parent_task_id r)
    (c_parent_change_id r) (c_base r) (c_workspace_id r) (c_provisioning_operation_id r)
    (c_allocation_operation_id r) (c_allocation_pending r) (c_executions r) (c_initial_start
    r) (c_writer r) (c_writer_generation r) v (c_materialized_revision r)
    (c_latest_snapshot_operation_id r) (c_task_record_revision r) (c_verification r)
    (c_delivery r) (c_revision r).

Definition set_materialized_revision (r : ChangeRecord) (v : option string) : ChangeRecord :=
  mkChange
    (c_schema_version r) (c_change_id r) (c_scope r) (c_task_id r) (c_parent_task_id r)
    (c_parent_change_id r) (c_base r) (c_workspace_id r) (c_provisioning_operation_id r)
    (c_allocation_operation_id r) (c_allocation_pending r) (c_executions r) (c_initial_start
    r) (c_writer r) (c_writer_generation r) (c_logical_change_id r) v
    (c_latest_snapshot_operation_id r) (c_task_record_revision r) (c_verification r)
    (c_delivery r) (c_revision r).

Definition set_latest_snapshot_operation_id (r : ChangeRecord) (v : option Uuid) : ChangeRecord :=
  mkChange
    (c_schema_version r) (c_change_id r) (c_scope r) (c_task_id r) (c_parent_task_id r)
    (c_parent_change_id r) (c_base r) (c_workspace_id r) (c_provisioning_operation_id r)
    (c_allocation_operation_id r) (c_allocation_pending r) (c_executions r) (c_initial_start
    r) (c_writer r) (c_writer_generation r) (c_logical_change_id r) (c_materialized_revision
    r) v (c_task_record_revision r) (c_verification r) (c_delivery r) (c_revision r).

Definition set_task_record_revision (r : ChangeRecord) (v : Z) : ChangeRecord :=
  mkChange
    (c_schema_version r) (c_change_id r) (c_scope r) (c_task_id r) (c_parent_task_id r)
    (c_parent_change_id r) (c_base r) (c_workspace_id r) (c_provisioning_operation_id r)
    (c_allocation_operation_id r) (c_allocation_pending r) (c_executions r) (c_initial_start
    r) (c_writer r) (c_writer_generation r) (c_logical_change_id r) (c_materialized_revision
    r) (c_latest_snapshot_operation_id r) v (c_verification r) (c_delivery r) (c_revision r).

Definition set_verification (r : ChangeRecord) (v : option Verification) : ChangeRecord :=
  mkChange
    (c_schema_version r) (c_change_id r) (c_scope r) (c_task_id r) (c_parent_task_id r)
    (c_parent_change_id r) (c_base r) (c_workspace_id r) (c_provisioning_operation_id r)
    (c_allocation_operation_id r) (c_allocation_pending r) (c_executions r) (c_initial_start
    r) (c_writer r) (c_writer_generation r) (c_logical_change_id r) (c_materialized_revision
    r) (c_latest_snapshot_operation_id r) (c_task_record_revision r) v (c_delivery r)
    (c_revision r).

Definition set_delivery (r : ChangeRecord) (v : option DeliveryReceipt) : ChangeRecord :=
  mkChange
    (c_schema_version r) (c_change_id r) (c_scope r) (c_task_id r) (c_parent_task_id r)
    (c_parent_change_id r) (c_base r) (c_workspace_id r) (c_provisioning_operation_id r)
    (c_allocation_operation_id r) (c_allocation_pending r) (c_executions r) (c_initial_start
    r) (c_writer r) (c_writer_generation r) (c_logical_change_id r) (c_materialized_revision
    r) (c_latest_snapshot_operation_id r) (c_task_record_revision r) (c_verification r) v
    (c_revision r).

Definition set_revision (r : ChangeRecord) (v : Z) : ChangeRecord :=
  mkChange
    (c_schema_version r) (c_change_id r) (c_scope r) (c_task_id r) (c_parent_task_id r)
    (c_parent_change_id r) (c_base r) (c_workspace_id r) (c_provisioning_operation_id r)
    (c_allocation_operation_id r) (c_allocation_pending r) (c_executions r) (c_initial_start
    r) (c_writer r) (c_writer_generation r) (c_logical_change_id r) (c_materialized_revision
    r) (c_latest_snapshot_operation_id r) (c_task_record_revision r) (c_verification r)
    (c_delivery r) v.


#[global] Instance initial_start_eq_dec : EqDecision InitialStart.
Proof. solve_decision. Defined.
#[global] Instance receipt_eq_dec : EqDecision DeliveryReceipt.
Proof. solve_decision. Defined.
#[global] Instance change_eq_dec : EqDecision ChangeRecord.
Proof. solve_decision. Defined.

(** * The store *)

(** The record's derived [Serialize] and [Deserialize], through serde_json. *)
Class ChangeCodec := {
  change_to_vec : ChangeRecord -> option string;
  change_from_slice : string -> option ChangeRecord;
}.

(** What was written reads back as the same record. *)
Class ChangeCodecLaws `{ChangeCodec} := {
  change_round_trip : forall r b, change_to_vec r = Some b -> change_from_slice b = Some r;
}.

Inductive WriteOutcome : Type :=
| WriteDone
| WriteFailed (e : string)
| WriteUnsynced (e : string).

Notation Store := (gmap string string).

Context `{!ChangeCodec} (write_outcome : Store -> string -> WriteOutcome) (scope : ChangeScope).

Definition read_locked (st : Store) (id : string) : result string ChangeRecord :=
  label id ;!
  let! bytes := ok_or (st !! id) "No such file or directory" in
  ensure (str_len bytes <=? MAX_RECORD) "Change record exceeds size limit" ;!
  let! record := ok_or (change_from_slice bytes) "invalid Change record" in
  ensure ((c_schema_version record =? 1) && String.eqb (c_change_id record) id
          && bool_decide (c_scope record = scope)) "Change ownership or schema mismatch" ;!
  Ok record.

Definition write_locked (st : Store) (record : ChangeRecord) : Store * result string unit :=
  match
    label (c_change_id record) ;!
    let! bytes := ok_or (change_to_vec record) "serialize" in
    ensure (str_len bytes <=? MAX_RECORD) "Change record exceeds size limit" ;!
    Ok bytes
  with
  | Err e => (st, Err e)
  | Ok bytes =>
      match write_outcome st (c_change_id record) with
      | WriteDone => (<[c_change_id record := bytes]> st, Ok tt)
      | WriteFailed e => (st, Err e)
      | WriteUnsynced e => (<[c_change_id record := bytes]> st, Err e)
      end
  end.

(** [write_locked(&record)?; Ok(record)]. *)
Definition write_return (st : Store) (record : ChangeRecord) :
    Store * result string ChangeRecord :=
  let '(st, r) := write_locked st record in
  (st, r ;! Ok record).

Fixpoint read_all (st : Store) (ids : list string) : result string (list ChangeRecord) :=
  match ids with
  | [] => Ok []
  | id :: rest =>
      let! r := read_locked st id in
      let! l := read_all st rest in
      Ok (r :: l)
  end.

Definition list_locked (st : Store) : result string (list ChangeRecord) :=
  read_all st (map fst (map_to_list st)).

Definition get (st : Store) (id : string) : result string ChangeRecord := read_locked st id.

Fixpoint insert_change (r : ChangeRecord) (l : list ChangeRecord) : list ChangeRecord :=
  match l with
  | [] => [r]
  | x :: rest =>
      if String.leb (c_change_id r) (c_change_id x) then r :: l else x :: insert_change r rest
  end.

(** [list]: the bound is checked after every record read. *)
Definition list_changes (st : Store) : result string (list ChangeRecord) :=
  let! records := list_locked st in
  ensure (zlen records <=? 4096) "Change projection exceeds size limit" ;!
  Ok (fold_right insert_change [] records).

Definition revision_conflict : string := "Change record revision conflict".

(** [update] up to its write: the record to return and whether it changed. *)
Definition update_plan (st : Store) (id : string) (expected_revision : Z)
    (f : ChangeRecord -> result string ChangeRecord) : result string (ChangeRecord * bool) :=
  let! record := read_locked st id in
  ensure (c_revision record =? expected_revision) revision_conflict ;!
  let! before := ok_or (change_to_vec record) "serialize" in
  let! record := f record in
  ensure (String.eqb (c_change_id record) id && bool_decide (c_scope record = scope)
          && (c_schema_version record =? 1)) "Change immutable identity changed" ;!
  let! after := ok_or (change_to_vec record) "serialize" in
  if String.eqb after before then Ok (record, false)
  else
    let! revision := ok_or (checked_add (c_revision record) 1) "Change revision overflow" in
    Ok (set_revision record revision, true).

(** A planned change: nothing on an error, the record itself when nothing
    changed, a write otherwise. *)
Definition commit_plan (st : Store) (plan : result string (ChangeRecord * bool)) :
    Store * result string ChangeRecord :=
  match plan with
  | Err e => (st, Err e)
  | Ok (record, false) => (st, Ok record)
  | Ok (record, true) => write_return st record
  end.

Definition update (st : Store) (id : string) (expected_revision : Z)
    (f : ChangeRecord -> result string ChangeRecord) : Store * result string ChangeRecord :=
  commit_plan st (update_plan st id expected_revision f).

(** * Creation *)

Definition label_opt (o : option string) : result string unit :=
  match o with
  | Some id => label id
  | None => Ok tt
  end.

Definition new_record (change_id task_id : string) (parent_task_id parent_change_id : option string)
    (base : ChangeBase) : ChangeRecord :=
  mkChange 1 change_id scope task_id parent_task_id parent_change_id base None None None false []
    None None 0 None None None 0 None None 1.

Definition create_named_plan (st : Store) (change_id task_id : string)
    (parent_task_id parent_change_id : option string) (base : ChangeBase) :
    result string (ChangeRecord * bool) :=
  label change_id ;!
  label task_id ;!
  label_opt parent_task_id ;!
  label_opt parent_change_id ;!
  ensure (is_none_or (fun parent => bool_decide (base = BaseChange parent)) parent_change_id)
    "base_change and parent_change_id conflict" ;!
  match base with
  | BaseChange id => let! _ := read_locked st id in Ok tt
  | OriginMain => Ok tt
  end ;!
  match parent_change_id with
  | Some id => let! _ := read_locked st id in Ok tt
  | None => Ok tt
  end ;!
  if is_some (st !! change_id)
  then
    let! existing := read_locked st change_id in
    ensure (String.eqb (c_task_id existing) task_id
            && bool_decide (c_parent_task_id existing = parent_task_id)
            && bool_decide (c_parent_change_id existing = parent_change_id)
            && bool_decide (c_base existing = base)) "Change creation operation conflict" ;!
    Ok (existing, false)
  else
    let! records := list_locked st in
    ensure (negb (existsb (fun record => String.eqb (c_task_id record) task_id) records))
      "task already owns a Change in this owner scope" ;!
    Ok (new_record change_id task_id parent_task_id parent_change_id base, true).

Definition create_named (st : Store) (change_id task_id : string)
    (parent_task_id parent_change_id : option string) (base : ChangeBase) :
    Store * result string ChangeRecord :=
  commit_plan st
    (create_named_plan st change_id task_id parent_task_id parent_change_id base).

(** [idempotent_id] is the digest that names the Change of an operation. *)
Definition create_idempotent (idempotent_id : Uuid -> string) (st : Store) (operation_id : Uuid)
    (task_id : string) (parent_task_id parent_change_id : option string) (base : ChangeBase) :
    Store * result string ChangeRecord :=
  create_named st (idempotent_id operation_id) task_id parent_task_id parent_change_id base.

Definition create_provisioned (st : Store) (change_id : Uuid) (task_id : string)
    (parent_task_id : option string) : Store * result string ChangeRecord :=
  create_named st (uuid_to_string change_id) task_id parent_task_id None OriginMain.

(** * Workspace allocation *)

Definition allocation_intent_step (operation_id : Uuid) (r : ChangeRecord) :
    result string ChangeRecord :=
  ensure (is_none (c_workspace_id r)) "Change already allocated" ;!
  ensure (is_none (c_allocation_operation_id r)
          || bool_decide (c_allocation_operation_id r = Some operation_id))
    "Change allocation operation conflict" ;!
  Ok (set_allocation_pending (set_allocation_operation_id r (Some operation_id)) true).

Definition allocation_intent (st : Store) (id : string) (rev : Z) (operation_id : Uuid) :
    Store * result string ChangeRecord :=
  update st id rev (allocation_intent_step operation_id).

Definition bind_managed_workspace_plan (st : Store) (id : string) (rev : Z) (operation_id : Uuid)
    (workspace : string) : result string (ChangeRecord * bool) :=
  label workspace ;!
  let! records := list_locked st in
  ensure (negb (existsb (fun other =>
            negb (String.eqb (c_change_id other) id)
            && bool_decide (c_workspace_id other = Some workspace)) records))
    "workspace already owned by another Change" ;!
  let! record := read_locked st id in
  ensure (c_revision record =? rev) revision_conflict ;!
  ensure (bool_decide (c_allocation_operation_id record = Some operation_id))
    "Change allocation operation conflict" ;!
  match c_workspace_id record with
  | Some existing =>
      ensure (String.eqb existing workspace) "Change workspace conflict" ;!
      ensure (bool_decide (c_provisioning_operation_id record = Some operation_id))
        "Change provisioning receipt conflict" ;!
      Ok (record, false)
  | None =>
      ensure (c_allocation_pending record) "Change allocation has no intent" ;!
      let record :=
        set_allocation_pending
          (set_provisioning_operation_id (set_workspace_id record (Some workspace))
             (Some operation_id)) false in
      let! revision := ok_or (checked_add (c_revision record) 1) "Change revision overflow" in
      Ok (set_revision record revision, true)
  end.

Definition bind_managed_workspace (st : Store) (id : string) (rev : Z) (operation_id : Uuid)
    (workspace : string) : Store * result string ChangeRecord :=
  commit_plan st (bind_managed_workspace_plan st id rev operation_id workspace).

Definition allocated (r : ChangeRecord) : bool :=
  is_some (c_workspace_id r) && negb (c_allocation_pending r).
Definition not_allocated : string := "Change workspace not allocated".

(** * Executions and the initial start *)

Definition find_execution (execution_id : string) (l : list ExecutionAttempt) :
    option ExecutionAttempt :=
  find (fun e => String.eqb (ea_execution_id e) execution_id) l.

Definition append_execution_step (attempt : ExecutionAttempt) (r : ChangeRecord) :
    result string ChangeRecord :=
  ensure (allocated r) not_allocated ;!
  match find_execution (ea_execution_id attempt) (c_executions r) with
  | Some old =>
      ensure (bool_decide (old = attempt)) "execution identity conflict" ;!
      Ok r
  | None =>
      match last (c_executions r) with
      | Some previous =>
          ensure (ea_generation previous <? ea_generation attempt)
            "execution generation did not advance"
      | None => Ok tt
      end ;!
      ensure (zlen (c_executions r) <? MAX_EXECUTIONS) "execution history full" ;!
      Ok (set_executions r (c_executions r ++ [attempt]))
  end.

Definition append_execution (st : Store) (id : string) (rev : Z) (attempt : ExecutionAttempt) :
    Store * result string ChangeRecord :=
  match
    label (ea_execution_id attempt) ;!
    label (ea_backend attempt) ;!
    label (ea_executor attempt)
  with
  | Err e => (st, Err e)
  | Ok _ => update st id rev (append_execution_step attempt)
  end.

Definition reserve_initial_start_step (start : InitialStart) (r : ChangeRecord) :
    result string ChangeRecord :=
  ensure (allocated r) not_allocated ;!
  match c_initial_start r with
  | Some existing =>
      ensure (bool_decide (is_operation_id existing = is_operation_id start)
              && String.eqb (is_request_fingerprint existing) (is_request_fingerprint start)
              && bool_decide (is_snapshot_operation_id existing = is_snapshot_operation_id start)
              && String.eqb (is_execution_id existing) (is_execution_id start))
        "initial Change start operation conflict" ;!
      Ok r
  | None =>
      ensure (bool_decide (c_executions r = []) && is_none (c_writer r))
        "Change already has an execution" ;!
      Ok (set_initial_start r (Some start))
  end.

Definition reserve_initial_start (st : Store) (id : string) (rev : Z) (start : InitialStart) :
    Store * result string ChangeRecord :=
  update st id rev (reserve_initial_start_step start).

Definition verify_initial_snapshot_step (operation_id : Uuid)
    (logical materialized vcs_operation_id : string) (r : ChangeRecord) :
    result string ChangeRecord :=
  let! start := ok_or (c_initial_start r) "initial Change start missing" in
  ensure (bool_decide (is_snapshot_operation_id start = operation_id))
    "initial snapshot operation conflict" ;!
  ensure (is_snapshot_dispatch_attempted start) "initial snapshot was never dispatched" ;!
  if is_snapshot_verified start
  then
    ensure (bool_decide (c_logical_change_id r = Some logical)
            && bool_decide (c_materialized_revision r = Some materialized)
            && bool_decide (is_vcs_operation_id start = Some vcs_operation_id))
      "initial snapshot result conflict" ;!
    Ok r
  else
    ensure (bool_decide (c_executions r = []) && is_none (c_writer r))
      "initial snapshot followed task startup" ;!
    let start := mkInitialStart (is_operation_id start) (is_request_fingerprint start)
                   (is_snapshot_operation_id start) (is_execution_id start)
                   (is_snapshot_dispatch_attempted start) true (Some vcs_operation_id) in
    let r := set_initial_start r (Some start) in
    let r := set_logical_change_id r (Some logical) in
    let r := set_materialized_revision r (Some materialized) in
    Ok (set_latest_snapshot_operation_id r (Some operation_id)).

Definition verify_initial_snapshot (st : Store) (id : string) (rev : Z) (operation_id : Uuid)
    (logical materialized vcs_operation_id : string) : Store * result string ChangeRecord :=
  match label logical ;! label materialized ;! label vcs_operation_id with
  | Err e => (st, Err e)
  | Ok _ =>
      update st id rev
        (verify_initial_snapshot_step operation_id logical materialized vcs_operation_id)
  end.

Definition mark_initial_snapshot_attempt_step (operation_id : Uuid) (r : ChangeRecord) :
    result string ChangeRecord :=
  let! start := ok_or (c_initial_start r) "initial Change start missing" in
  ensure (bool_decide (is_snapshot_operation_id start = operation_id))
    "initial snapshot operation conflict" ;!
  ensure (negb (is_snapshot_verified start) && bool_decide (c_executions r = [])
          && is_none (c_writer r)) "initial snapshot dispatch followed task startup" ;!
  Ok (set_initial_start r (Some
        (mkInitialStart (is_operation_id start) (is_request_fingerprint start)
           (is_snapshot_operation_id start) (is_execution_id start) true
           (is_snapshot_verified start) (is_vcs_operation_id start)))).

Definition mark_initial_snapshot_attempt (st : Store) (id : string) (rev : Z)
    (operation_id : Uuid) : Store * result string ChangeRecord :=
  update st id rev (mark_initial_snapshot_attempt_step operation_id).

(** * The writer lease *)

Definition handoff_writer_step (previous : option WriterLease) (execution_id : string)
    (r : ChangeRecord) : result string ChangeRecord :=
  ensure (allocated r) not_allocated ;!
  ensure (is_some_and (fun e => String.eqb (ea_execution_id e) execution_id)
            (last (c_executions r))) "writer execution is not current" ;!
  ensure (is_none previous && is_none (c_writer r)) "writer must be released before handoff" ;!
  let! generation := ok_or (checked_add (c_writer_generation r) 1) "writer generation overflow" in
  Ok (set_writer (set_writer_generation r generation) (Some (mkLease execution_id generation))).

Definition handoff_writer (st : Store) (id : string) (rev : Z) (previous : option WriterLease)
    (execution_id : string) : Store * result string ChangeRecord :=
  match label execution_id with
  | Err e => (st, Err e)
  | Ok _ => update st id rev (handoff_writer_step previous execution_id)
  end.

Definition release_writer_step (expected : WriterLease) (r : ChangeRecord) :
    result string ChangeRecord :=
  ensure (bool_decide (c_writer r = Some expected)) "writer fence mismatch" ;!
  Ok (set_writer r None).

Definition release_writer (st : Store) (id : string) (rev : Z) (expected : WriterLease) :
    Store * result string ChangeRecord :=
  update st id rev (release_writer_step expected).

(** * Observations and verification *)

Definition observe_task_revision_step (task_revision : Z) (r : ChangeRecord) :
    result string ChangeRecord :=
  ensure (c_task_record_revision r <=? task_revision) "task record revision regressed" ;!
  if negb (task_revision =? c_task_record_revision r)
  then Ok (set_verification (set_task_record_revision r task_revision) None)
  else Ok r.

Definition observe_task_revision (st : Store) (id : string) (rev task_revision : Z) :
    Store * result string ChangeRecord :=
  match ensure (0 <? task_revision) "task record revision must be positive" with
  | Err e => (st, Err e)
  | Ok _ => update st id rev (observe_task_revision_step task_revision)
  end.

Definition observe_snapshot_step (operation_id : Uuid) (logical materialized : string)
    (r : ChangeRecord) : result string ChangeRecord :=
  ensure (is_none_or (fun old => String.eqb old logical) (c_logical_change_id r))
    "logical change identity conflict" ;!
  let r := set_logical_change_id r (Some logical) in
  if negb (bool_decide (c_materialized_revision r = Some materialized))
     || negb (bool_decide (c_latest_snapshot_operation_id r = Some operation_id))
  then
    let r := set_materialized_revision r (Some materialized) in
    let r := set_latest_snapshot_operation_id r (Some operation_id) in
    Ok (set_verification r None)
  else Ok r.

Definition observe_snapshot (st : Store) (id : string) (rev : Z) (operation_id : Uuid)
    (logical materialized : string) : Store * result string ChangeRecord :=
  match label logical ;! label materialized with
  | Err e => (st, Err e)
  | Ok _ => update st id rev (observe_snapshot_step operation_id logical materialized)
  end.

(** [r.revision + 1] wraps at the width of a [u64]; the update that follows
    fails on the same overflow. *)
Definition verify_step (materialized : string) (passed : bool) (r : ChangeRecord) :
    result string ChangeRecord :=
  ensure (bool_decide (c_materialized_revision r = Some materialized))
    "verification target is stale" ;!
  ensure (0 <? c_task_record_revision r) "task record revision missing" ;!
  if is_some_and (fun v => String.eqb (vf_revision v) materialized
                           && Bool.eqb (vf_passed v) passed) (c_verification r)
  then Ok r
  else Ok (set_verification r (Some
             (mkVerification materialized (Z.land (c_revision r + 1) U64_MAX)
                (c_task_record_revision r) passed))).

Definition verify (st : Store) (id : string) (rev : Z) (materialized : string) (passed : bool) :
    Store * result string ChangeRecord :=
  update st id rev (verify_step materialized passed).

Definition release_ready (st : Store) (id : string) : result string bool :=
  let! r := get st id in
  Ok (negb (c_allocation_pending r) && is_none (c_writer r)
      && is_none_or receipt_is_terminal (c_delivery r)).
End Change.
