(* ===== verification/ChangeTheorems.v ===== *)
(** What the Change store guarantees ([Change]): the store invariant under every
    operation and every file-system outcome, optimistic revisions, the writer
    fence, and verifications that do not outlive what they verified. *)

From S2P Require Import Prelude Json Change.
#[local] Notation Store := (gmap string string).

Section RecordTheorems.
Context `{UuidLib}.

(** * Records *)

(** What no operation changes. *)
Definition identity_of (r : ChangeRecord) :=
  (c_schema_version r, c_change_id r, c_scope r, c_task_id r, c_parent_task_id r,
   c_parent_change_id r, c_base r).

(** The invariant of a record. *)
Record record_wf (r : ChangeRecord) : Prop := {
  wf_writer : forall l, c_writer r = Some l ->
    wl_generation l = c_writer_generation r /\ c_workspace_id r <> None
    /\ exists e, e ∈ c_executions r /\ ea_execution_id e = wl_execution_id l;
  wf_generation : 0 <= c_writer_generation r;
  wf_pending : c_allocation_pending r = true ->
    c_workspace_id r = None /\ c_allocation_operation_id r <> None;
  wf_workspace : c_workspace_id r <> None ->
    c_provisioning_operation_id r <> None
    /\ c_provisioning_operation_id r = c_allocation_operation_id r;
  wf_executions : key_sorted ea_generation (c_executions r)
    /\ NoDup (map ea_execution_id (c_executions r)) /\ zlen (c_executions r) <= MAX_EXECUTIONS;
  wf_allocated : c_executions r <> [] -> c_workspace_id r <> None;
  wf_verification : forall v, c_verification r = Some v ->
    vf_task_record_revision v = c_task_record_revision r /\ 0 < c_task_record_revision r
    /\ c_materialized_revision r <> None;
}.

(** A verification was recorded at a revision the record has reached. *)
Definition verified_by (revision : Z) (r : ChangeRecord) : Prop :=
  forall v, c_verification r = Some v -> vf_record_revision v <= revision.

(** The lease may stay, be given up, or be granted anew under the next
    generation to a record that has none. *)
Definition lease_step (r r' : ChangeRecord) : Prop :=
  (c_writer_generation r' = c_writer_generation r
   /\ (c_writer r' = c_writer r \/ c_writer r' = None))
  \/ (c_writer r = None /\ c_writer_generation r' = c_writer_generation r + 1
      /\ exists l, c_writer r' = Some l /\ wl_generation l = c_writer_generation r').

(** What every closure passed to [update] does. *)
Record step_ok (r r' : ChangeRecord) : Prop := {
  so_identity : identity_of r' = identity_of r;
  so_revision : c_revision r' = c_revision r;
  so_workspace : c_workspace_id r' = c_workspace_id r;
  so_lease : lease_step r r';
  so_task : c_task_record_revision r <= c_task_record_revision r';
  so_wf : record_wf r -> record_wf r';
  so_verified : 0 <= c_revision r -> c_revision r + 1 <= U64_MAX ->
    verified_by (c_revision r) r -> verified_by (c_revision r + 1) r';
}.

Lemma step_ok_refl (r : ChangeRecord) : step_ok r r.
Proof.
  split; try done; [left; by auto|]. intros _ _ Hv v Hs. specialize (Hv v Hs). lia.
Qed.

Lemma verified_by_mono (n m : Z) (r : ChangeRecord) :
  verified_by n r -> n <= m -> verified_by m r.
Proof. intros Hv Hl v Hs. specialize (Hv v Hs). lia. Qed.

(** Sections of the proofs that follow: the guards of a closure as equations. *)
Lemma allocated_true (r : ChangeRecord) :
  allocated r = true <-> c_workspace_id r <> None /\ c_allocation_pending r = false.
Proof. unfold allocated. by rewrite andb_true_iff, is_some_true, negb_true_iff. Qed.

(** Closures that only rewrite fields the invariant does not relate. *)
Ltac trivial_step Hwf :=
  split; try done; [left; by auto
    |intros []; split; done
    |intros _ _ Hv v Hs; specialize (Hv v Hs); lia].

Lemma allocation_intent_ok (op : Uuid) (r r' : ChangeRecord) :
  allocation_intent_step op r = Ok r' ->
  step_ok r r'.
Proof.
  unfold allocation_intent_step. intros Hr. apply bind_Ok in Hr as ([] & Hw & Hr). apply bind_Ok in Hr as ([] & _ & [= <-]).
  apply ensure_Ok, is_none_true in Hw.
  split; try done; [left; by auto| |].
  - intros []; split; try done; simpl; by rewrite Hw.
  - intros _ _ Hv v Hs. specialize (Hv v Hs). lia.
Qed.

Lemma find_execution_None (x : string) (l : list ExecutionAttempt) :
  find_execution x l = None -> x ∉ map ea_execution_id l.
Proof.
  unfold find_execution. intros Hf Hin. rewrite list_elem_of_In, in_map_iff in Hin.
  destruct Hin as (e & <- & He). apply (find_none _ _ Hf) in He. by rewrite String.eqb_refl in He.
Qed.

Lemma append_execution_ok (a : ExecutionAttempt) (r r' : ChangeRecord) :
  append_execution_step a r = Ok r' -> step_ok r r'.
Proof.
  unfold append_execution_step. intros Hr. apply bind_Ok in Hr as ([] & Hal & Hr).
  apply ensure_Ok, allocated_true in Hal as [Hws Hpend].
  destruct (find_execution _ _) eqn:Hf.
  { apply bind_Ok in Hr as ([] & _ & [= <-]). apply step_ok_refl. }
  apply bind_Ok in Hr as ([] & Hgen & Hr). apply bind_Ok in Hr as ([] & Hlen & [= <-]).
  apply ensure_Ok, Z.ltb_lt in Hlen. apply find_execution_None in Hf.
  split; try done; [left; by auto| |].
  - intros [Hw Hg Hp Hwo (Hs & Hn & Hl) Hal Hv]. split; simpl; try done.
    + intros l Hwl. destruct (Hw l Hwl) as (? & ? & e & He & Hx). split_and!; try done.
      exists e. rewrite elem_of_app. auto.
    + split_and!.
      * apply key_sorted_app. split_and!; [done|by repeat constructor|].
        intros x y Hx ->%list_elem_of_singleton.
        destruct (last (c_executions r)) as [p|] eqn:Hla.
        -- apply ensure_Ok, Z.ltb_lt in Hgen.
           apply last_Some in Hla as [l0 Hla]. rewrite Hla in Hx, Hs.
           apply key_sorted_app in Hs as (_ & _ & Hs).
           apply elem_of_app in Hx as [Hx| ->%list_elem_of_singleton]; [|done].
           specialize (Hs x p Hx ltac:(by left)). lia.
        -- apply last_None in Hla. rewrite Hla in Hx. by apply elem_of_nil in Hx.
      * rewrite map_app. apply NoDup_app. split_and!; [done| |by apply NoDup_singleton].
        intros x Hx ->%list_elem_of_singleton. done.
      * rewrite zlen_app. unfold zlen at 2. simpl. lia.
  - intros _ _ Hv v Hs. specialize (Hv v Hs). lia.
Qed.

Lemma reserve_initial_start_ok (s : InitialStart) (r r' : ChangeRecord) :
  reserve_initial_start_step s r = Ok r' -> step_ok r r'.
Proof.
  unfold reserve_initial_start_step. intros Hr. apply bind_Ok in Hr as ([] & _ & Hr).
  destruct (c_initial_start r).
  - apply bind_Ok in Hr as ([] & _ & [= <-]). apply step_ok_refl.
  - apply bind_Ok in Hr as ([] & _ & [= <-]). trivial_step Hwf.
Qed.

Lemma mark_initial_snapshot_ok (op : Uuid) (r r' : ChangeRecord) :
  mark_initial_snapshot_attempt_step op r = Ok r' -> step_ok r r'.
Proof.
  unfold mark_initial_snapshot_attempt_step. intros Hr. apply bind_Ok in Hr as (s & _ & Hr).
  apply bind_Ok in Hr as ([] & _ & Hr). apply bind_Ok in Hr as ([] & _ & [= <-]).
  trivial_step Hwf.
Qed.

Lemma verify_initial_snapshot_ok (op : Uuid) (logical materialized vcs : string)
    (r r' : ChangeRecord) :
  verify_initial_snapshot_step op logical materialized vcs r = Ok r' -> step_ok r r'.
Proof.
  unfold verify_initial_snapshot_step. intros Hr. apply bind_Ok in Hr as (s & _ & Hr).
  apply bind_Ok in Hr as ([] & _ & Hr). apply bind_Ok in Hr as ([] & _ & Hr).
  destruct (is_snapshot_verified s); apply bind_Ok in Hr as ([] & _ & [= <-]);
    [apply step_ok_refl|].
  split; try done; [left; by auto| |].
  - intros []; split; try done. intros v Hv. simpl in Hv |- *.
    destruct (wf_verification0 v Hv) as (? & ? & _). done.
  - intros _ _ Hv v Hs. specialize (Hv v Hs). lia.
Qed.

Lemma handoff_writer_ok (prev : option WriterLease) (x : string) (r r' : ChangeRecord) :
  handoff_writer_step prev x r = Ok r' ->
  step_ok r r' /\ prev = None /\ c_writer r = None
  /\ c_writer r' = Some (mkLease x (c_writer_generation r + 1)).
Proof.
  unfold handoff_writer_step. intros Hr. apply bind_Ok in Hr as ([] & Hal & Hr).
  apply ensure_Ok, allocated_true in Hal as [Hws Hpend].
  apply bind_Ok in Hr as ([] & Hlast & Hr). apply bind_Ok in Hr as ([] & Hnone & Hr).
  apply bind_Ok in Hr as (g & Hg & [= <-]).
  apply ok_or_Ok, checked_add_Some in Hg as [-> Hg].
  rewrite ensure_Ok, andb_true_iff, !is_none_true in Hnone. destruct Hnone as [Hpn Hwn].
  apply ensure_Ok in Hlast. destruct (last (c_executions r)) as [e|] eqn:Hla; [|done].
  simpl in Hlast. apply String.eqb_eq in Hlast.
  assert (He : e ∈ c_executions r).
  { apply last_Some in Hla as [l0 ->]. rewrite elem_of_app. right. by left. }
  split_and!; try done. split; try done.
  - right. simpl. eauto.
  - intros [Hw Hg0 Hp Hwo Hex Hal Hv]. split; simpl; try done; [|lia].
    intros l [= <-]. simpl. eauto 6.
  - intros _ _ Hv v Hs. specialize (Hv v Hs). lia.
Qed.

Lemma release_writer_ok (l : WriterLease) (r r' : ChangeRecord) :
  release_writer_step l r = Ok r' ->
  step_ok r r' /\ c_writer r = Some l /\ c_writer r' = None.
Proof.
  unfold release_writer_step. intros Hr. apply bind_Ok in Hr as ([] & Hw & [= <-]).
  apply ensure_Ok, bool_decide_eq_true in Hw. split_and!; try done.
  split; try done; [left; by auto|intros []; by split|].
  intros _ _ Hv v Hs. specialize (Hv v Hs). lia.
Qed.

Lemma observe_task_revision_ok (n : Z) (r r' : ChangeRecord) :
  observe_task_revision_step n r = Ok r' ->
  step_ok r r' /\ c_task_record_revision r' = n
  /\ (n <> c_task_record_revision r -> c_verification r' = None).
Proof.
  unfold observe_task_revision_step. intros Hr. apply bind_Ok in Hr as ([] & Hn & Hr).
  apply ensure_Ok, Z.leb_le in Hn. destruct (Z.eqb_spec n (c_task_record_revision r)) as [->|Hne];
    injection Hr as <-; [split_and!; [apply step_ok_refl|done|done]|].
  split_and!; try done. split; try done; [left; by auto|]. intros []; by split.
Qed.

Lemma observe_snapshot_ok (op : Uuid) (logical materialized : string) (r r' : ChangeRecord) :
  observe_snapshot_step op logical materialized r = Ok r' ->
  step_ok r r' /\ c_materialized_revision r' = Some materialized
  /\ (c_materialized_revision r <> Some materialized
      \/ c_latest_snapshot_operation_id r <> Some op -> c_verification r' = None).
Proof.
  unfold observe_snapshot_step. intros Hr. apply bind_Ok in Hr as ([] & _ & Hr).
  cbv zeta in Hr. cbn [set_logical_change_id c_materialized_revision
    c_latest_snapshot_operation_id] in Hr.
  case_bool_decide as Hm; case_bool_decide as Ho; simpl in Hr; injection Hr as <-.
  1: { split_and!; [|done|tauto]. split; try done; [left; by auto|intros []; by split|].
       intros _ _ Hv v Hs. specialize (Hv v Hs). lia. }
  all: split_and!; try done; split; try done; [left; by auto|].
  all: intros []; by split.
Qed.

Lemma verify_ok (materialized : string) (passed : bool) (r r' : ChangeRecord) :
  verify_step materialized passed r = Ok r' ->
  step_ok r r' /\ c_materialized_revision r = Some materialized
  /\ exists v, c_verification r' = Some v /\ vf_revision v = materialized /\ vf_passed v = passed.
Proof.
  unfold verify_step. intros Hr. apply bind_Ok in Hr as ([] & Hm & Hr).
  apply bind_Ok in Hr as ([] & Hp & Hr). apply ensure_Ok, bool_decide_eq_true in Hm.
  apply ensure_Ok, Z.ltb_lt in Hp.
  destruct (is_some_and _ (c_verification r)) eqn:Hs; injection Hr as <-.
  - destruct (c_verification r) as [v|] eqn:Hv; [|done]. simpl in Hs.
    apply andb_true_iff in Hs as [Hr Hb]. apply String.eqb_eq in Hr. apply eqb_prop in Hb.
    split_and!; [apply step_ok_refl|done|eauto].
  - split_and!; [|done|simpl; eauto]. split; try done; [left; by auto| |].
    + intros []; split; try done. simpl. intros v [= <-]. simpl. rewrite Hm. done.
    + intros H0 Hb _ v [= <-]. simpl. unfold U64_MAX in *.
      change 18446744073709551615 with (Z.ones 64). rewrite Z.land_ones, Z.mod_small; lia.
Qed.
End RecordTheorems.

(** * The store *)

Section StoreTheorems.
Context `{UuidLib} `{!ChangeCodec} `{!ChangeCodecLaws} (write_outcome : Store -> string -> WriteOutcome)
  (scope : ChangeScope).

Notation read st id := (read_locked scope st id).

Lemma read_locked_Ok (st : Store) (id : string) (r : ChangeRecord) :
  read st id = Ok r <->
  label id = Ok tt /\ c_schema_version r = 1 /\ c_change_id r = id /\ c_scope r = scope
  /\ exists b, st !! id = Some b /\ str_len b <= MAX_RECORD /\ change_from_slice b = Some r.
Proof.
  unfold read_locked. split.
  - intros Hr. apply bind_Ok in Hr as ([] & Hl & Hr). apply bind_Ok in Hr as (b & Hb & Hr).
    apply bind_Ok in Hr as ([] & Hs & Hr). apply bind_Ok in Hr as (x & Hx & Hr).
    apply bind_Ok in Hr as ([] & Hk & [= ->]).
    rewrite ensure_Ok, !andb_true_iff, Z.eqb_eq, String.eqb_eq, bool_decide_eq_true in Hk.
    rewrite ensure_Ok, Z.leb_le in Hs. rewrite ok_or_Ok in Hb, Hx || idtac.
    apply ok_or_Ok in Hb. apply ok_or_Ok in Hx. destruct Hk as [[? ?] ?]. eauto 10.
  - intros (Hl & Hv & Hi & Hsc & b & Hb & Hs & Hr). rewrite Hl, Hb. cbn [bind ok_or].
    rewrite (proj2 (Z.leb_le _ _) Hs), Hr. cbn [bind ok_or ensure].
    by rewrite Hv, Hi, Hsc, String.eqb_refl, bool_decide_eq_true_2.
Qed.

(** [r] may be written: the bytes it becomes, within the bound. *)
Definition writable (r : ChangeRecord) (b : string) : Prop :=
  label (c_change_id r) = Ok tt /\ c_schema_version r = 1 /\ c_scope r = scope
  /\ change_to_vec r = Some b /\ str_len b <= MAX_RECORD.

Lemma read_put (st : Store) (id : string) (r : ChangeRecord) (b : string) :
  writable r b ->
  read (<[c_change_id r := b]> st) id = if bool_decide (id = c_change_id r) then Ok r else read st id.
Proof.
  intros (Hl & Hv & Hs & Hb & Hsz). case_bool_decide as Hid; [subst id|].
  - apply read_locked_Ok. rewrite lookup_insert_eq. split_and!; try done.
    exists b. split_and!; try done. by apply change_round_trip.
  - unfold read_locked. by rewrite lookup_insert_ne.
Qed.

(** Where a record that gets written comes from. *)
Inductive origin (st : Store) (r' : ChangeRecord) : Prop :=
| origin_created (task : string) (pt pc : option string) (base : ChangeBase)
    (Hnew : st !! c_change_id r' = None)
    (Hrec : r' = new_record scope (c_change_id r') task pt pc base)
    (Htask : forall id2 r2, read st id2 = Ok r2 -> c_task_id r2 <> task)
| origin_updated (r : ChangeRecord)
    (Hread : read st (c_change_id r') = Ok r)
    (Hid : identity_of r' = identity_of r)
    (Hrev : c_revision r' = c_revision r + 1) (Hmax : c_revision r + 1 <= U64_MAX)
    (Hlease : lease_step r r')
    (Htaskrev : c_task_record_revision r <= c_task_record_revision r')
    (Hwf : record_wf r -> record_wf r')
    (Hver : 0 <= c_revision r -> verified_by (c_revision r) r -> verified_by (c_revision r') r')
    (Hws : c_workspace_id r' = c_workspace_id r
           \/ exists w, c_workspace_id r' = Some w
              /\ forall id2 r2, read st id2 = Ok r2 -> id2 <> c_change_id r' ->
                   c_workspace_id r2 <> Some w).

(** What an operation may do to the store, and what it may return. *)
Inductive effect (st : Store) : Store -> result string ChangeRecord -> Prop :=
| effect_none (res : result string ChangeRecord)
    (Hres : forall r, res = Ok r -> read st (c_change_id r) = Ok r) : effect st st res
| effect_write (r' : ChangeRecord) (b : string) (res : result string ChangeRecord)
    (Hw : writable r' b) (Ho : origin st r') (Hres : forall r, res = Ok r -> r = r') :
    effect st (<[c_change_id r' := b]> st) res.

Lemma effect_err (st : Store) (e : string) : effect st st (Err e).
Proof. by apply effect_none. Qed.

Lemma write_return_effect (st st' : Store) (r' : ChangeRecord) (res : result string ChangeRecord) :
  c_schema_version r' = 1 -> c_scope r' = scope -> origin st r' ->
  write_return write_outcome st r' = (st', res) -> effect st st' res.
Proof.
  intros Hv Hs Ho Hw. unfold write_return, write_locked in Hw.
  destruct (bind (label (c_change_id r')) _) as [b|e] eqn:E.
  - apply bind_Ok in E as ([] & Hl & E). apply bind_Ok in E as (b' & Hb & E).
    apply bind_Ok in E as ([] & Hz & [= ->]).
    apply ok_or_Ok in Hb. apply ensure_Ok, Z.leb_le in Hz.
    destruct (write_outcome st (c_change_id r')); injection Hw as <- <-.
    + apply effect_write; [done|done|]. by intros r [= <-].
    + apply effect_err.
    + by apply effect_write.
  - injection Hw as <- <-. apply effect_err.
Qed.

(** What an update plans. *)
Lemma update_plan_Ok (st : Store) (id : string) (rev : Z)
    (f : ChangeRecord -> result string ChangeRecord) (r' : ChangeRecord) (changed : bool) :
  update_plan scope st id rev f = Ok (r', changed) ->
  exists r r1, read st id = Ok r /\ c_revision r = rev /\ f r = Ok r1
    /\ c_change_id r1 = id /\ c_scope r1 = scope /\ c_schema_version r1 = 1
    /\ if changed then r' = set_revision r1 (c_revision r1 + 1) /\ c_revision r1 + 1 <= U64_MAX
       else r1 = r /\ r' = r.
Proof.
  unfold update_plan. intros E.
  apply bind_Ok in E as (r & Hr & E). apply bind_Ok in E as ([] & Hrev & E).
  apply bind_Ok in E as (b & Hb & E). apply bind_Ok in E as (r1 & Hf & E).
  apply bind_Ok in E as ([] & Hk & E). apply bind_Ok in E as (a & Ha & E).
  apply ensure_Ok, Z.eqb_eq in Hrev.
  rewrite ensure_Ok, !andb_true_iff, String.eqb_eq, bool_decide_eq_true, Z.eqb_eq in Hk.
  destruct Hk as [[Hi Hsc] Hv]. exists r, r1. split_and!; try done.
  destruct (String.eqb_spec a b) as [->|_].
  - injection E as <- <-. apply ok_or_Ok in Hb. apply ok_or_Ok in Ha.
    apply change_round_trip in Hb. apply change_round_trip in Ha.
    assert (r1 = r) by congruence. by subst.
  - apply bind_Ok in E as (n & Hn & [= <- <-]). apply ok_or_Ok, checked_add_Some in Hn as [-> ?].
    done.
Qed.

Lemma read_own (st : Store) (id : string) (r : ChangeRecord) :
  read st id = Ok r -> read st (c_change_id r) = Ok r.
Proof. intros Hr. by destruct (proj1 (read_locked_Ok _ _ _) Hr) as (_ & _ & -> & _). Qed.

Lemma update_effect (st st' : Store) (id : string) (rev : Z)
    (f : ChangeRecord -> result string ChangeRecord) (res : result string ChangeRecord) :
  (forall r r', f r = Ok r' -> step_ok r r') ->
  update write_outcome scope st id rev f = (st', res) -> effect st st' res.
Proof.
  intros Hstep Hu. unfold update, commit_plan in Hu.
  destruct (update_plan scope st id rev f) as [[r' []]|e] eqn:E;
    [| |injection Hu as <- <-; apply effect_err];
    apply update_plan_Ok in E as (r & r1 & Hr & Hrev & Hf & Hi & Hsc & Hv & E).
  - destruct E as [-> Hmax]. destruct (Hstep _ _ Hf) as [Hid Hre Hws Hl Ht Hwf Hver].
    eapply write_return_effect; [| | |exact Hu]; [done|done|].
    apply (origin_updated _ _ r); simpl; rewrite ?Hi, ?Hre; try done; [by rewrite <- Hre| | |by left].
    + intros Hw. destruct (Hwf Hw). by split.
    + intros Hpos. by apply Hver; [|rewrite <- Hre].
  - destruct E as [-> ->]. injection Hu as <- <-. apply effect_none. intros ? [= <-].
    by eapply read_own.
Qed.

Lemma read_all_Ok (st : Store) (ids : list string) (l : list ChangeRecord) :
  read_all scope st ids = Ok l -> Forall2 (fun id r => read st id = Ok r) ids l.
Proof.
  revert l. induction ids as [|id ids IH]; intros l; simpl; [by intros [= <-]|].
  intros Hl. apply bind_Ok in Hl as (r & Hr & Hl). apply bind_Ok in Hl as (l' & Hl' & [= <-]).
  constructor; [done|by apply IH].
Qed.

(** Every readable record is in the list. *)
Lemma list_locked_complete (st : Store) (l : list ChangeRecord) (id : string) (r : ChangeRecord) :
  list_locked scope st = Ok l -> read st id = Ok r -> r ∈ l.
Proof.
  unfold list_locked. intros Hl%read_all_Ok Hr.
  assert (Hin : id ∈ map fst (map_to_list st)).
  { apply read_locked_Ok in Hr as (_ & _ & _ & _ & b & Hb & _).
    rewrite list_elem_of_In, in_map_iff. exists (id, b). split; [done|].
    by apply list_elem_of_In, elem_of_map_to_list. }
  apply list_elem_of_lookup in Hin as [i Hi].
  destruct (Forall2_lookup_l _ _ _ _ _ Hl Hi) as (r2 & Hr2 & Hread).
  rewrite Hr in Hread. injection Hread as ->. by eapply list_elem_of_lookup_2.
Qed.

Lemma create_effect (st st' : Store) (id task : string) (pt pc : option string)
    (base : ChangeBase) (res : result string ChangeRecord) :
  create_named write_outcome scope st id task pt pc base = (st', res) -> effect st st' res.
Proof.
  intros Hc. unfold create_named, commit_plan in Hc.
  destruct (create_named_plan scope st id task pt pc base) as [[r' ch]|e] eqn:E;
    [|injection Hc as <- <-; apply effect_err].
  unfold create_named_plan in E. do 7 apply bind_Ok in E as ([] & _ & E).
  destruct (st !! id) as [b|] eqn:Hid; simpl in E.
  - apply bind_Ok in E as (x & Hx & E). apply bind_Ok in E as ([] & _ & [= <- <-]).
    injection Hc as <- <-. apply effect_none. intros ? [= <-]. by eapply read_own.
  - apply bind_Ok in E as (l & Hl & E). apply bind_Ok in E as ([] & Hfree & [= <- <-]).
    eapply write_return_effect; [| | |exact Hc]; [done|done|].
    apply (origin_created _ _ task pt pc base); [done|done|].
    intros id2 r2 Hr2 Ht. apply ensure_Ok, negb_true_iff in Hfree.
    apply not_true_iff_false in Hfree. apply Hfree, existsb_exists. exists r2.
    split; [|by apply String.eqb_eq].
    apply list_elem_of_In. by eapply list_locked_complete.
Qed.

Lemma bind_effect (st st' : Store) (id workspace : string) (rev : Z) (op : Uuid)
    (res : result string ChangeRecord) :
  bind_managed_workspace write_outcome scope st id rev op workspace = (st', res) ->
  effect st st' res.
Proof.
  intros Hc. unfold bind_managed_workspace, commit_plan in Hc.
  destruct (bind_managed_workspace_plan scope st id rev op workspace) as [[r' ch]|e] eqn:E;
    [|injection Hc as <- <-; apply effect_err].
  unfold bind_managed_workspace_plan in E. apply bind_Ok in E as ([] & _ & E).
  apply bind_Ok in E as (l & Hl & E). apply bind_Ok in E as ([] & Hfree & E).
  apply bind_Ok in E as (r & Hr & E). apply bind_Ok in E as ([] & Hrev & E).
  apply bind_Ok in E as ([] & Hop & E). apply ensure_Ok, bool_decide_eq_true in Hop.
  destruct (c_workspace_id r) as [w|] eqn:Hw.
  - apply bind_Ok in E as ([] & _ & E). apply bind_Ok in E as ([] & _ & [= <- <-]).
    injection Hc as <- <-. apply effect_none. intros ? [= <-]. by eapply read_own.
  - apply bind_Ok in E as ([] & Hp & E). apply bind_Ok in E as (n & Hn & [= <- <-]).
    apply ok_or_Ok, checked_add_Some in Hn as [-> Hmax]. simpl in Hmax.
    destruct (proj1 (read_locked_Ok _ _ _) Hr) as (_ & Hv & Hi & Hs & _).
    eapply write_return_effect; [| | |exact Hc]; [done|done|].
    apply (origin_updated _ _ r); simpl; try done; [by rewrite Hi|left; by auto| | |].
    + intros []; split; simpl; try done; naive_solver.
    + intros _ Hver v Hvs. specialize (Hver v Hvs). lia.
    + right. exists workspace. split; [done|]. intros id2 r2 Hr2 Hne Hw2.
      apply ensure_Ok, negb_true_iff, not_true_iff_false in Hfree.
      apply Hfree, existsb_exists. exists r2. split.
      { apply list_elem_of_In. by eapply list_locked_complete. }
      destruct (proj1 (read_locked_Ok _ _ _) Hr2) as (_ & _ & Hi2 & _).
      rewrite andb_true_iff, negb_true_iff, String.eqb_neq, bool_decide_eq_true. split; congruence.
Qed.

(** * Operations and runs *)

Inductive ChangeOp : Type :=
| OpCreate (id task : string) (parent_task parent_change : option string) (base : ChangeBase)
| OpAllocate (id : string) (rev : Z) (op : Uuid)
| OpBind (id : string) (rev : Z) (op : Uuid) (workspace : string)
| OpAppend (id : string) (rev : Z) (attempt : ExecutionAttempt)
| OpReserve (id : string) (rev : Z) (start : InitialStart)
| OpMarkSnapshot (id : string) (rev : Z) (op : Uuid)
| OpVerifySnapshot (id : string) (rev : Z) (op : Uuid) (logical materialized vcs : string)
| OpHandoff (id : string) (rev : Z) (previous : option WriterLease) (execution : string)
| OpRelease (id : string) (rev : Z) (expected : WriterLease)
| OpObserveTask (id : string) (rev task_revision : Z)
| OpObserveSnapshot (id : string) (rev : Z) (op : Uuid) (logical materialized : string)
| OpVerify (id : string) (rev : Z) (materialized : string) (passed : bool).

Definition apply_op (st : Store) (o : ChangeOp) : Store * result string ChangeRecord :=
  match o with
  | OpCreate id task pt pc base => create_named write_outcome scope st id task pt pc base
  | OpAllocate id rev op => allocation_intent write_outcome scope st id rev op
  | OpBind id rev op w => bind_managed_workspace write_outcome scope st id rev op w
  | OpAppend id rev a => append_execution write_outcome scope st id rev a
  | OpReserve id rev s => reserve_initial_start write_outcome scope st id rev s
  | OpMarkSnapshot id rev op => mark_initial_snapshot_attempt write_outcome scope st id rev op
  | OpVerifySnapshot id rev op l m v =>
      verify_initial_snapshot write_outcome scope st id rev op l m v
  | OpHandoff id rev p x => handoff_writer write_outcome scope st id rev p x
  | OpRelease id rev l => release_writer write_outcome scope st id rev l
  | OpObserveTask id rev n => observe_task_revision write_outcome scope st id rev n
  | OpObserveSnapshot id rev op l m => observe_snapshot write_outcome scope st id rev op l m
  | OpVerify id rev m p => verify write_outcome scope st id rev m p
  end.

Definition run_ops (st : Store) (ops : list ChangeOp) : Store :=
  fold_left (fun st o => (apply_op st o).1) ops st.

Lemma apply_op_effect (st : Store) (o : ChangeOp) :
  effect st (apply_op st o).1 (apply_op st o).2.
Proof.
  destruct (apply_op st o) as [st' res] eqn:Ha. simpl.
  destruct o; cbn [apply_op] in Ha; [by eapply create_effect| |by eapply bind_effect|..];
    unfold allocation_intent, append_execution, reserve_initial_start,
      mark_initial_snapshot_attempt, verify_initial_snapshot, handoff_writer, release_writer,
      observe_task_revision, observe_snapshot, verify in Ha.
  all: try (destruct (bind _ _); [|injection Ha as <- <-; apply effect_err]).
  all: try (destruct (label _); [|injection Ha as <- <-; apply effect_err]).
  all: try (destruct (ensure _ _); [|injection Ha as <- <-; apply effect_err]).
  all: (eapply update_effect; [|exact Ha]); intros r0 r0' Hs.
  - by eapply allocation_intent_ok.
  - by eapply append_execution_ok.
  - by eapply reserve_initial_start_ok.
  - by eapply mark_initial_snapshot_ok.
  - by eapply verify_initial_snapshot_ok.
  - by eapply handoff_writer_ok.
  - by eapply release_writer_ok.
  - by eapply observe_task_revision_ok.
  - by eapply observe_snapshot_ok.
  - by eapply verify_ok.
Qed.

(** What a write leaves to read. *)
Lemma write_return_reads (st : Store) (r' : ChangeRecord) (i : string) :
  c_schema_version r' = 1 -> c_scope r' = scope ->
  read (write_return write_outcome st r').1 i = read st i
  \/ (i = c_change_id r' /\ read (write_return write_outcome st r').1 i = Ok r').
Proof.
  intros Hv Hs. unfold write_return, write_locked.
  destruct (bind (label (c_change_id r')) _) as [b|e] eqn:E; [|by left].
  apply bind_Ok in E as ([] & Hl & E). apply bind_Ok in E as (b' & Hb & E).
  apply bind_Ok in E as ([] & Hz & [= ->]). apply ok_or_Ok in Hb. apply ensure_Ok, Z.leb_le in Hz.
  assert (Hput := read_put st i r' b). destruct (write_outcome st (c_change_id r')); simpl; [|by left|];
    rewrite Hput by by split_and!.
  all: case_bool_decide; [by right|by left].
Qed.

(** What an update leaves to read: the record, or what its closure made of it. *)
Lemma update_reads (st : Store) (id : string) (rev : Z)
    (f : ChangeRecord -> result string ChangeRecord) (i : string) (r : ChangeRecord) :
  read st i = Ok r ->
  exists r', read (update write_outcome scope st id rev f).1 i = Ok r'
    /\ (r' = r \/ i = id /\ c_revision r = rev
                  /\ exists r1, f r = Ok r1 /\ r' = set_revision r1 (c_revision r1 + 1)).
Proof.
  intros Hr. unfold update, commit_plan.
  destruct (update_plan scope st id rev f) as [[r2 []]|e] eqn:E; try (exists r; by auto).
  apply update_plan_Ok in E as (r0 & r1 & Hr0 & Hrev & Hf & Hi & Hsc & Hv & -> & _).
  destruct (write_return_reads st (set_revision r1 (c_revision r1 + 1)) i) as [He|[Heq He]];
    [done|done|exists r; rewrite He; auto|].
  rewrite He. eexists. split; [done|]. right. simpl in Heq. rewrite Hi in Heq. subst i.
  rewrite Hr in Hr0. injection Hr0 as ->. eauto.
Qed.

(** No closure of this component writes the receipt of a delivery or the revision. *)
Ltac keeps_fields :=
  intros;
  repeat match goal with
  | H : bind _ _ = Ok _ |- _ => apply bind_Ok in H as (? & ? & H)
  | H : Ok _ = Ok _ |- _ => injection H as <-
  | H : (if ?b then _ else _) = Ok _ |- _ => destruct b
  | H : match ?o with _ => _ end = Ok _ |- _ => destruct o
  end; by split.

Definition receipt_untouched (f : ChangeRecord -> result string ChangeRecord) : Prop :=
  forall r r1, f r = Ok r1 -> c_delivery r1 = c_delivery r /\ c_revision r1 = c_revision r.

(** One operation on the records that are there: unchanged, or one revision on with
    the same receipt. *)
Definition next_or_same (r r' : ChangeRecord) : Prop :=
  r' = r \/ (c_revision r' = c_revision r + 1 /\ c_delivery r' = c_delivery r).

Lemma update_next (st : Store) (id : string) (rev : Z)
    (f : ChangeRecord -> result string ChangeRecord) (i : string) (r : ChangeRecord) :
  receipt_untouched f -> read st i = Ok r ->
  exists r', read (update write_outcome scope st id rev f).1 i = Ok r' /\ next_or_same r r'.
Proof.
  intros Hf Hr. destruct (update_reads st id rev f i r Hr) as (r' & Hr' & Hn). exists r'. split; [done|].
  destruct Hn as [->|(_ & _ & r1 & [Hd Hrev]%Hf & ->)]; [by left|right]. simpl. by rewrite Hrev.
Qed.

Lemma create_next (st : Store) (id task : string) (pt pc : option string) (base : ChangeBase)
    (i : string) (r : ChangeRecord) :
  read st i = Ok r -> read (create_named write_outcome scope st id task pt pc base).1 i = Ok r.
Proof.
  intros Hr. unfold create_named, commit_plan.
  destruct (create_named_plan scope st id task pt pc base) as [[r' []]|e] eqn:E; [|done|done].
  unfold create_named_plan in E. do 7 apply bind_Ok in E as ([] & _ & E).
  destruct (st !! id) as [b|] eqn:Hid; simpl in E.
  { apply bind_Ok in E as (x & _ & E). by apply bind_Ok in E as ([] & _ & ?). }
  apply bind_Ok in E as (l & _ & E). apply bind_Ok in E as ([] & _ & [= <-]).
  destruct (write_return_reads st (new_record scope id task pt pc base) i) as [->|[Heq _]]; [done..|].
  simpl in Heq. subst i. apply read_locked_Ok in Hr as (_ & _ & _ & _ & b & Hb & _). congruence.
Qed.

(** What a bound workspace changes in a record. *)
Definition bound_to (r : ChangeRecord) (workspace : string) (op : Uuid) : ChangeRecord :=
  set_revision
    (set_allocation_pending
       (set_provisioning_operation_id (set_workspace_id r (Some workspace)) (Some op)) false)
    (c_revision r + 1).

Lemma bind_reads (st : Store) (id workspace : string) (rev : Z) (op : Uuid) (i : string)
    (r : ChangeRecord) :
  read st i = Ok r ->
  exists r', read (bind_managed_workspace write_outcome scope st id rev op workspace).1 i = Ok r'
    /\ (r' = r \/ r' = bound_to r workspace op).
Proof.
  intros Hr. unfold bind_managed_workspace, commit_plan.
  destruct (bind_managed_workspace_plan scope st id rev op workspace) as [[r' []]|e] eqn:E;
    try (exists r; split; [done|by left]).
  unfold bind_managed_workspace_plan in E. apply bind_Ok in E as ([] & _ & E).
  apply bind_Ok in E as (l & _ & E). apply bind_Ok in E as ([] & _ & E).
  apply bind_Ok in E as (r0 & Hr0 & E). apply bind_Ok in E as ([] & _ & E).
  apply bind_Ok in E as ([] & _ & E). destruct (c_workspace_id r0).
  { apply bind_Ok in E as ([] & _ & E). by apply bind_Ok in E as ([] & _ & ?). }
  apply bind_Ok in E as ([] & _ & E). apply bind_Ok in E as (n & Hn & [= <-]).
  apply ok_or_Ok, checked_add_Some in Hn as [-> _].
  destruct (proj1 (read_locked_Ok _ _ _) Hr0) as (_ & Hv & Hi & Hs & _).
  destruct (write_return_reads st (bound_to r0 workspace op) i) as [He|[Heq He]];
    [done|done|exists r; split; [by etransitivity|by left]|].
  simpl in Heq. rewrite Hi in Heq. subst i. rewrite Hr in Hr0. injection Hr0 as ->.
  exists (bound_to r0 workspace op). split; [exact He|by right].
Qed.

Lemma apply_op_next (st : Store) (o : ChangeOp) (i : string) (r : ChangeRecord) :
  read st i = Ok r -> exists r', read (apply_op st o).1 i = Ok r' /\ next_or_same r r'.
Proof.
  intros Hr. assert (Hsame : exists r', read st i = Ok r' /\ next_or_same r r').
  { exists r. split; [done|by left]. }
  destruct o; cbn [apply_op].
  { exists r. split; [by apply create_next|by left]. }
  2: { destruct (bind_reads st id workspace rev op i r Hr) as (r' & Hr' & Hb). exists r'. split; [done|].
       destruct Hb as [->| ->]; [by left|by right]. }
  all: unfold allocation_intent, append_execution, reserve_initial_start,
      mark_initial_snapshot_attempt, verify_initial_snapshot, handoff_writer, release_writer,
      observe_task_revision, observe_snapshot, verify.
  all: try (destruct (bind _ _); [|exact Hsame]).
  all: try (destruct (label _); [|exact Hsame]).
  all: try (destruct (ensure _ _); [|exact Hsame]).
  all: apply update_next; [|exact Hr].
  all: unfold receipt_untouched, allocation_intent_step, append_execution_step,
      reserve_initial_start_step, mark_initial_snapshot_attempt_step, verify_initial_snapshot_step,
      handoff_writer_step, release_writer_step, observe_task_revision_step, observe_snapshot_step,
      verify_step; cbv zeta; keeps_fields.
Qed.

(** The invariant of a store. *)
Record store_ok (st : Store) : Prop := {
  st_readable : forall id, st !! id <> None -> exists r, read st id = Ok r;
  st_records : forall id r, read st id = Ok r ->
    record_wf r /\ 0 < c_revision r /\ verified_by (c_revision r) r;
  st_tasks : forall id1 id2 r1 r2, read st id1 = Ok r1 -> read st id2 = Ok r2 ->
    c_task_id r1 = c_task_id r2 -> id1 = id2;
  st_workspaces : forall id1 id2 r1 r2 w, read st id1 = Ok r1 -> read st id2 = Ok r2 ->
    c_workspace_id r1 = Some w -> c_workspace_id r2 = Some w -> id1 = id2;
}.

Lemma store_ok_empty : store_ok ∅.
Proof.
  assert (Hn : forall id r, read ∅ id <> Ok r).
  { intros id r Hr. apply read_locked_Ok in Hr as (_ & _ & _ & _ & b & Hb & _).
    by rewrite lookup_empty in Hb. }
  split.
  - intros id Hid. by rewrite lookup_empty in Hid.
  - intros id r Hr. by apply Hn in Hr.
  - intros id1 id2 r1 r2 Hr. by apply Hn in Hr.
  - intros id1 id2 r1 r2 w Hr. by apply Hn in Hr.
Qed.

Lemma new_record_wf (id task : string) (pt pc : option string) (base : ChangeBase) :
  record_wf (new_record scope id task pt pc base)
  /\ verified_by 1 (new_record scope id task pt pc base).
Proof.
  split; [|done]. split; simpl; try done.
  split_and!; [constructor|constructor|]. unfold zlen, MAX_EXECUTIONS. simpl. lia.
Qed.

Lemma effect_store_ok (st st' : Store) (res : result string ChangeRecord) :
  effect st st' res -> store_ok st -> store_ok st'.
Proof.
  intros [res' Hres|r' b res' Hw Ho Hres] Hok; [done|]. pose proof Hok as [Hread Hrec Htask Hws].
  assert (Hput : forall id, read (<[c_change_id r' := b]> st) id
      = if bool_decide (id = c_change_id r') then Ok r' else read st id)
    by (intros; by apply read_put).
  assert (Hnew : record_wf r' /\ 0 < c_revision r' /\ verified_by (c_revision r') r').
  { destruct Ho as [task pt pc base Hn -> Ht|r Hr Hi Hrev Hm Hl Ht Hwf Hver Hw'].
    - destruct (new_record_wf (c_change_id r') task pt pc base). simpl. done.
    - destruct (Hrec _ _ Hr) as (Hwfr & Hpos & Hv). split_and!; [by apply Hwf|lia|].
      apply Hver; [lia|done]. }
  assert (Htask' : forall id2 r2, id2 <> c_change_id r' -> read st id2 = Ok r2 ->
                     c_task_id r2 <> c_task_id r').
  { intros id2 r2 Hne Hr2. destruct Ho as [task pt pc base Hn Heq Ht|r Hr Hi _ _ _ _ _ _ _].
    - rewrite Heq. simpl. by eapply Ht.
    - injection Hi as _ _ _ Hti _ _ _. rewrite Hti. intros He. apply Hne. by eapply Htask. }
  assert (Hws' : forall id2 r2 w, id2 <> c_change_id r' -> read st id2 = Ok r2 ->
                   c_workspace_id r' = Some w -> c_workspace_id r2 <> Some w).
  { intros id2 r2 w Hne Hr2 Hsome. destruct Ho as [task pt pc base Hn Heq Ht|r Hr _ _ _ _ _ _ _ Hwk].
    - rewrite Heq in Hsome. done.
    - destruct Hwk as [Hsame|(w' & Hw' & Hfree)].
      + intros Hw2. apply Hne. eapply Hws; [exact Hr2|exact Hr|exact Hw2|congruence].
      + rewrite Hsome in Hw'. injection Hw' as <-. by eapply Hfree. }
  split.
  - intros id Hid. rewrite Hput. case_bool_decide; [by eauto|]. apply Hread.
    by rewrite lookup_insert_ne in Hid.
  - intros id r. rewrite Hput. case_bool_decide; [by intros [= <-]|apply Hrec].
  - intros id1 id2 r1 r2. rewrite !Hput.
    case_bool_decide as E1; case_bool_decide as E2; [by subst| | |apply Htask].
    + intros [= <-] Hr2 He. exfalso. by eapply Htask'.
    + intros Hr1 [= <-] He. exfalso. by eapply Htask'.
  - intros id1 id2 r1 r2 w. rewrite !Hput.
    case_bool_decide as E1; case_bool_decide as E2; [by subst| | |apply Hws].
    + intros [= <-] Hr2 Hw1 Hw2. exfalso. by eapply Hws'.
    + intros Hr1 [= <-] Hw1 Hw2. exfalso. by eapply Hws'.
Qed.

(** C1: the store invariant: after any operations on any well-formed store,
    whatever their arguments and whatever the file system does to each write,
    every record is readable, keeps its writer lease, allocation, executions
    and verification consistent, and no two Changes share a task or a
    workspace. The empty store satisfies it. *)
Theorem change_store_invariant (ops : list ChangeOp) :
  store_ok ∅ /\ forall st, store_ok st -> store_ok (run_ops st ops).
Proof.
  split; [exact store_ok_empty|]. unfold run_ops.
  induction ops as [|o ops IH]; intros st Hst; simpl; [done|].
  apply IH. eapply effect_store_ok; [apply apply_op_effect|done].
Qed.

(** * Optimistic revisions *)

(** The Change and the revision an operation is against. *)
Definition op_target (o : ChangeOp) : option (string * Z) :=
  match o with
  | OpCreate _ _ _ _ _ => None
  | OpAllocate id rev _ | OpBind id rev _ _ | OpAppend id rev _ | OpReserve id rev _
  | OpMarkSnapshot id rev _ | OpVerifySnapshot id rev _ _ _ _ | OpHandoff id rev _ _
  | OpRelease id rev _ | OpObserveTask id rev _ | OpObserveSnapshot id rev _ _ _
  | OpVerify id rev _ _ => Some (id, rev)
  end.

(** What a targeted operation plans. *)
Definition planned (st : Store) (id : string) (rev : Z) (r' : ChangeRecord) (changed : bool) :
    Prop :=
  exists r, read st id = Ok r /\ c_revision r = rev /\ c_change_id r' = id
    /\ identity_of r' = identity_of r
    /\ if changed then c_revision r' = rev + 1 else r' = r.

Lemma update_planned (st : Store) (id : string) (rev : Z)
    (f : ChangeRecord -> result string ChangeRecord) (r' : ChangeRecord) (ch : bool) :
  (forall r r', f r = Ok r' -> step_ok r r') ->
  update_plan scope st id rev f = Ok (r', ch) -> planned st id rev r' ch.
Proof.
  intros Hstep E. apply update_plan_Ok in E as (r & r1 & Hr & Hrev & Hf & Hi & Hsc & Hv & E).
  destruct (Hstep _ _ Hf) as [Hid Hre _ _ _ _ _]. exists r. destruct ch.
  - destruct E as [-> _]. simpl. by rewrite Hi, Hre, Hrev.
  - destruct E as [-> ->]. done.
Qed.

Lemma bind_planned (st : Store) (id workspace : string) (rev : Z) (op : Uuid)
    (r' : ChangeRecord) (ch : bool) :
  bind_managed_workspace_plan scope st id rev op workspace = Ok (r', ch) ->
  planned st id rev r' ch.
Proof.
  unfold bind_managed_workspace_plan. intros E. apply bind_Ok in E as ([] & _ & E).
  apply bind_Ok in E as (l & _ & E). apply bind_Ok in E as ([] & _ & E).
  apply bind_Ok in E as (r & Hr & E). apply bind_Ok in E as ([] & Hrev & E).
  apply bind_Ok in E as ([] & _ & E). apply ensure_Ok, Z.eqb_eq in Hrev.
  destruct (proj1 (read_locked_Ok _ _ _) Hr) as (_ & _ & Hi & _ & _).
  exists r. destruct (c_workspace_id r).
  - apply bind_Ok in E as ([] & _ & E). apply bind_Ok in E as ([] & _ & [= <- <-]). done.
  - apply bind_Ok in E as ([] & _ & E). apply bind_Ok in E as (n & Hn & [= <- <-]).
    apply ok_or_Ok, checked_add_Some in Hn as [-> _]. simpl. by rewrite Hi, Hrev.
Qed.

(** A targeted operation commits a plan against its revision. *)
Lemma apply_op_plan (st : Store) (o : ChangeOp) (id : string) (rev : Z) :
  op_target o = Some (id, rev) ->
  exists plan, apply_op st o = commit_plan write_outcome st plan
    /\ forall r' ch, plan = Ok (r', ch) -> planned st id rev r' ch.
Proof.
  destruct o; intros [= <- <-]; cbn [apply_op];
    unfold allocation_intent, append_execution, reserve_initial_start,
      mark_initial_snapshot_attempt, verify_initial_snapshot, handoff_writer, release_writer,
      observe_task_revision, observe_snapshot, verify, update, bind_managed_workspace.
  all: try (destruct (bind _ _); [|by eexists (Err _)]).
  all: try (destruct (label _); [|by eexists (Err _)]).
  all: try (destruct (ensure _ _); [|by eexists (Err _)]).
  all: eexists; split; [reflexivity|]; intros r' ch.
  2: by apply bind_planned.
  all: apply update_planned; intros r0 r0' Hs.
  - by eapply allocation_intent_ok.
  - by eapply append_execution_ok.
  - by eapply reserve_initial_start_ok.
  - by eapply mark_initial_snapshot_ok.
  - by eapply verify_initial_snapshot_ok.
  - by eapply handoff_writer_ok.
  - by eapply release_writer_ok.
  - by eapply observe_task_revision_ok.
  - by eapply observe_snapshot_ok.
  - by eapply verify_ok.
Qed.

(** No update is lost: an operation against a revision that is not the
    record's fails and changes nothing; one that succeeds returns the record
    as it is then stored, with the same identity, and either nothing changed or
    the revision went up by exactly one. Other Changes are never touched. *)
Theorem no_lost_update (st : Store) (o : ChangeOp) (id : string) (rev : Z) (r : ChangeRecord) :
  op_target o = Some (id, rev) -> read st id = Ok r ->
  (c_revision r <> rev -> exists e, apply_op st o = (st, Err e))
  /\ (forall r', (apply_op st o).2 = Ok r' ->
       read (apply_op st o).1 id = Ok r' /\ identity_of r' = identity_of r
       /\ (r' = r /\ (apply_op st o).1 = st \/ c_revision r' = c_revision r + 1))
  /\ (forall id2, id2 <> id -> read (apply_op st o).1 id2 = read st id2).
Proof.
  intros Ht Hr. destruct (apply_op_plan st o id rev Ht) as (plan & Hp & Hplan).
  pose proof (apply_op_effect st o) as Heff.
  destruct plan as [[r' ch]|e].
  2: { rewrite Hp. simpl. split_and!; [by eauto|done|done]. }
  destruct (Hplan r' ch eq_refl) as (r0 & Hr0 & Hrev & Hid & Hidn & Hch).
  rewrite Hr in Hr0. injection Hr0 as <-. rewrite Hp in *. split_and!; [done|..].
  - destruct ch; simpl in *; [|intros ? [= <-]; subst r'; by auto].
    intros r2 Hok. rewrite Hok in Heff. unfold write_return in *.
    destruct (write_locked write_outcome st r') as [st' [[]|e]] eqn:Hw; simpl in *; [|done].
    injection Hok as <-. split_and!; [|done|right; by rewrite Hch, Hrev].
    inversion Heff as [? Hsame Heq|r3 b ? Hwr Ho Hres Heq]; subst.
    + rewrite <- (Hsame r' eq_refl) at 1. done.
    + rewrite (Hres _ eq_refl). rewrite read_put by done. by rewrite bool_decide_eq_true_2.
  - intros id2 Hne. destruct ch; simpl in *; [|done]. unfold write_return, write_locked in *.
    destruct (bind (label (c_change_id r')) _); [|done].
    destruct (write_outcome st (c_change_id r')); simpl; try done;
      unfold read_locked; rewrite lookup_insert_ne by (by rewrite Hid); done.
Qed.

(** * The writer fence *)

(** Every operation leaves a record as it was or takes one step from it. *)
Lemma apply_op_record (st : Store) (o : ChangeOp) (id : string) (r : ChangeRecord) :
  read st id = Ok r ->
  exists r', read (apply_op st o).1 id = Ok r' /\ (r' = r \/ lease_step r r').
Proof.
  intros Hr. destruct (apply_op_effect st o) as [res Hres|r' b res Hw Ho Hres]; [by eauto|].
  rewrite read_put by done. case_bool_decide as Hid; [|by eauto]. subst id.
  exists r'. split; [done|]. right. destruct Ho as [task pt pc base Hn|r0 Hr0 _ _ _ Hl].
  - apply read_locked_Ok in Hr as (_ & _ & _ & _ & b0 & Hb0 & _). by rewrite Hn in Hb0.
  - rewrite Hr in Hr0. by injection Hr0 as ->.
Qed.

(** A lease that is over: not the current one, and not of a later generation. *)
Definition lease_over (l : WriterLease) (r : ChangeRecord) : Prop :=
  c_writer r <> Some l /\ wl_generation l <= c_writer_generation r.

Lemma lease_over_step (l : WriterLease) (r r' : ChangeRecord) :
  lease_over l r -> lease_step r r' -> lease_over l r'.
Proof.
  intros [Hw Hg] [[Hs [Hw'|Hw']]|(Hn & Hs & l' & Hl' & Hgl)]; split; try lia; try congruence.
  rewrite Hl'. intros [= ->]. lia.
Qed.

Lemma lease_over_run (l : WriterLease) (ops : list ChangeOp) (st : Store) (id : string)
    (r r' : ChangeRecord) :
  read st id = Ok r -> lease_over l r -> read (run_ops st ops) id = Ok r' -> lease_over l r'.
Proof.
  unfold run_ops. revert st r. induction ops as [|o ops IH]; intros st r Hr Hl; simpl.
  - by rewrite Hr; intros [= <-].
  - destruct (apply_op_record st o id r Hr) as (r1 & Hr1 & Hor). apply IH with r1; [done|].
    destruct Hor as [->|Hs]; [done|by eapply lease_over_step].
Qed.

Lemma lease_run (l : WriterLease) (ops : list ChangeOp) (st : Store) (id : string)
    (r r' : ChangeRecord) :
  read st id = Ok r -> c_writer r = Some l -> wl_generation l <= c_writer_generation r ->
  read (run_ops st ops) id = Ok r' -> c_writer r' = Some l \/ lease_over l r'.
Proof.
  unfold run_ops. revert st r. induction ops as [|o ops IH]; intros st r Hr Hl Hg; simpl.
  - rewrite Hr; intros [= <-]. by left.
  - destruct (apply_op_record st o id r Hr) as (r1 & Hr1 & Hor). intros Hr'.
    assert (Hcase : c_writer r1 = Some l /\ wl_generation l <= c_writer_generation r1
                    \/ lease_over l r1).
    { destruct Hor as [->|[[Hs [Hw|Hw]]|(Hn & _)]]; [by left|left|right|congruence].
      - split; [congruence|lia].
      - split; [congruence|lia]. }
    destruct Hcase as [[Hw Hg1]|Ho]; [exact (IH _ _ Hr1 Hw Hg1 Hr')|].
    right. exact (lease_over_run l ops _ id r1 r' Hr1 Ho Hr').
Qed.

(** C4: the writer fence: a lease that a Change no longer carries is over for
    good. Once the writer of a reachable record is something else than [l],
    no sequence of later operations makes it [l] again, so a released or
    superseded writer can never be mistaken for the current one. *)
Theorem writer_fence (st : Store) (ops1 ops2 : list ChangeOp) (id : string)
    (r r1 r2 : ChangeRecord) (l : WriterLease) :
  store_ok st -> read st id = Ok r -> c_writer r = Some l ->
  read (run_ops st ops1) id = Ok r1 -> c_writer r1 <> Some l ->
  read (run_ops (run_ops st ops1) ops2) id = Ok r2 ->
  c_writer r2 <> Some l.
Proof.
  intros Hok Hr Hl Hr1 Hne Hr2. destruct (st_records _ Hok _ _ Hr) as (Hwf & _ & _).
  destruct (wf_writer _ Hwf l Hl) as (Hg & _).
  destruct (lease_run l ops1 st id r r1 Hr Hl ltac:(lia) Hr1) as [|Ho]; [done|].
  by apply (lease_over_run l ops2 _ id r1 r2 Hr1) in Ho as [? _].
Qed.

(** * Verifications *)

(** What a verification is about. *)
Definition content_of (r : ChangeRecord) :=
  (c_materialized_revision r, c_latest_snapshot_operation_id r, c_task_record_revision r).

(** How a closure may leave the verification [v] of the record it makes: it was
    there and the content is what it was, or the closure recorded it. *)
Definition verification_kept (r r1 : ChangeRecord) : Prop :=
  c_verification r1 = c_verification r /\ content_of r1 = content_of r.

Definition verification_recorded (m : string) (passed : bool) (r r1 : ChangeRecord) : Prop :=
  content_of r1 = content_of r /\ c_materialized_revision r1 = Some m
  /\ exists v, c_verification r1 = Some v /\ vf_revision v = m /\ vf_passed v = passed
       /\ vf_task_record_revision v = c_task_record_revision r1.

Lemma observe_task_verification (n : Z) (r r1 : ChangeRecord) :
  observe_task_revision_step n r = Ok r1 -> verification_kept r r1 \/ c_verification r1 = None.
Proof.
  unfold observe_task_revision_step. intros Hr. apply bind_Ok in Hr as ([] & _ & Hr).
  destruct (negb _); injection Hr as <-; [by right|by left].
Qed.

Lemma observe_snapshot_verification (op : Uuid) (logical m : string) (r r1 : ChangeRecord) :
  observe_snapshot_step op logical m r = Ok r1 -> verification_kept r r1 \/ c_verification r1 = None.
Proof.
  unfold observe_snapshot_step. intros Hr. apply bind_Ok in Hr as ([] & _ & Hr). cbv zeta in Hr.
  destruct (_ || _); injection Hr as <-; [by right|by left].
Qed.

Lemma verify_verification (m : string) (passed : bool) (r r1 : ChangeRecord) :
  verify_step m passed r = Ok r1 ->
  verification_kept r r1 \/ verification_recorded m passed r r1.
Proof.
  unfold verify_step. intros Hr. apply bind_Ok in Hr as ([] & Hm & Hr).
  apply bind_Ok in Hr as ([] & _ & Hr). apply ensure_Ok, bool_decide_eq_true in Hm.
  destruct (is_some_and _ _); injection Hr as <-; [by left|right].
  split_and!; [done|done|]. eexists. split_and!; done.
Qed.

Lemma verify_initial_snapshot_verification (op : Uuid) (logical m vcs : string) (r r1 : ChangeRecord) :
  verify_initial_snapshot_step op logical m vcs r = Ok r1 ->
  c_verification r1 = c_verification r /\ c_task_record_revision r1 = c_task_record_revision r
  /\ c_materialized_revision r1 = Some m /\ exists s, c_initial_start r1 = Some s /\ is_snapshot_verified s = true.
Proof.
  unfold verify_initial_snapshot_step. intros Hr. apply bind_Ok in Hr as (s & Hs & Hr).
  apply ok_or_Ok in Hs.
  apply bind_Ok in Hr as ([] & _ & Hr). apply bind_Ok in Hr as ([] & _ & Hr).
  destruct (is_snapshot_verified s) eqn:Hv; apply bind_Ok in Hr as ([] & Hk & [= <-]);
    [|by split_and!; [..|eexists]].
  apply ensure_Ok in Hk. rewrite !andb_true_iff, !bool_decide_eq_true in Hk.
  split_and!; [done|done|tauto|by exists s].
Qed.

(** What an update leaves of a record, for the fields a verification is about. *)
Lemma update_verification (st : Store) (id : string) (rev : Z)
    (f : ChangeRecord -> result string ChangeRecord) (i : string) (r r' : ChangeRecord) :
  read st i = Ok r -> read (update write_outcome scope st id rev f).1 i = Ok r' ->
  r' = r \/ i = id /\ exists r1, f r = Ok r1 /\ content_of r' = content_of r1
                /\ c_verification r' = c_verification r1 /\ c_initial_start r' = c_initial_start r1.
Proof.
  intros Hr Hr'. destruct (update_reads st id rev f i r Hr) as (r2 & Hr2 & H2).
  rewrite Hr' in Hr2. injection Hr2 as <-. destruct H2 as [->|(-> & _ & r1 & Hf & ->)]; [by left|right].
  split; [done|]. by exists r1.
Qed.

Definition keeps_verification (f : ChangeRecord -> result string ChangeRecord) : Prop :=
  forall r r1, f r = Ok r1 -> verification_kept r r1.

Lemma update_kept (st : Store) (id : string) (rev : Z)
    (f : ChangeRecord -> result string ChangeRecord) (i : string) (r r' : ChangeRecord) :
  keeps_verification f ->
  read st i = Ok r -> read (update write_outcome scope st id rev f).1 i = Ok r' -> verification_kept r r'.
Proof.
  intros Hf Hr Hr'. destruct (update_verification st id rev f i r r' Hr Hr') as [->|(_ & r1 & Hf1 & Hc & Hv & _)];
    [by split|]. apply Hf in Hf1 as [Hv1 Hc1]. split; congruence.
Qed.

(** The operations that touch neither content nor verification. *)
Lemma other_ops_kept (st : Store) (o : ChangeOp) (i : string) (r r' : ChangeRecord) :
  match o with
  | OpVerifySnapshot _ _ _ _ _ _ | OpObserveTask _ _ _ | OpObserveSnapshot _ _ _ _ _
  | OpVerify _ _ _ _ => False
  | _ => True
  end ->
  read st i = Ok r -> read (apply_op st o).1 i = Ok r' -> verification_kept r r'.
Proof.
  intros Ho Hr Hr'. assert (Hsame : read st i = Ok r' -> verification_kept r r').
  { rewrite Hr. intros [= ->]. by split. }
  destruct o; try done; cbn [apply_op] in Hr'.
  { apply (create_next st id task parent_task parent_change base) in Hr. rewrite Hr in Hr'.
    injection Hr' as ->. by split. }
  2: { destruct (bind_reads st id workspace rev op i r Hr) as (r2 & Hr2 & Hb). rewrite Hr' in Hr2.
       injection Hr2 as <-. by destruct Hb as [->| ->]. }
  all: unfold allocation_intent, append_execution, reserve_initial_start,
      mark_initial_snapshot_attempt, handoff_writer, release_writer in Hr'.
  all: try (destruct (bind _ _); [|by apply Hsame]).
  all: try (destruct (label _); [|by apply Hsame]).
  all: eapply update_kept; [|exact Hr|exact Hr'].
  all: unfold keeps_verification, allocation_intent_step, append_execution_step,
      reserve_initial_start_step, mark_initial_snapshot_attempt_step, handoff_writer_step,
      release_writer_step; cbv zeta; keeps_fields.
Qed.

(** C30: a verification does not outlive its content, but for one operation.  Whatever
    operation runs and whatever becomes of its write, a verification the record
    carries afterwards was carried before, of the same task revision, the same
    materialized revision and the same snapshot; or it was just recorded by
    [verify], of the revision materialized at that moment and of the task revision
    the record is at; or the operation was the verification of the initial snapshot,
    which sets the materialized revision and keeps the verification: then the record
    says that its initial snapshot is verified. *)
Theorem verification_follows_content (st : Store) (o : ChangeOp) (id : string)
    (r r' : ChangeRecord) (v : Verification) :
  read st id = Ok r -> read (apply_op st o).1 id = Ok r' -> c_verification r' = Some v ->
  (c_verification r = Some v /\ content_of r' = content_of r)
  \/ (exists rev passed, o = OpVerify id rev (vf_revision v) passed /\ vf_passed v = passed
        /\ c_materialized_revision r' = Some (vf_revision v)
        /\ vf_task_record_revision v = c_task_record_revision r')
  \/ (exists rev op logical m vcs, o = OpVerifySnapshot id rev op logical m vcs
        /\ c_verification r = Some v /\ c_task_record_revision r' = c_task_record_revision r
        /\ c_materialized_revision r' = Some m
        /\ exists s, c_initial_start r' = Some s /\ is_snapshot_verified s = true).
Proof.
  intros Hr Hr' Hv. assert (Hkept : verification_kept r r' ->
    c_verification r = Some v /\ content_of r' = content_of r).
  { intros [Hk Hc]. by rewrite <- Hk. }
  destruct o; try (left; apply Hkept; by eapply other_ops_kept; [|exact Hr|exact Hr']);
    cbn [apply_op] in Hr'; unfold verify_initial_snapshot, observe_task_revision, observe_snapshot, verify in Hr'.
  1: destruct (bind _ _); [|left; apply Hkept; cbn [fst] in Hr'; rewrite Hr in Hr'; injection Hr' as ->; by split].
  2: destruct (ensure _ _); [|left; apply Hkept; cbn [fst] in Hr'; rewrite Hr in Hr'; injection Hr' as ->; by split].
  3: destruct (bind _ _); [|left; apply Hkept; cbn [fst] in Hr'; rewrite Hr in Hr'; injection Hr' as ->; by split].
  all: destruct (update_verification _ _ _ _ _ _ _ Hr Hr') as [->|(-> & r1 & Hf & Hc & Hv1 & Hi)];
    [left; by split|]; rewrite Hv1 in Hv; rewrite Hc; injection Hc as Hm _ Ht.
  - right. right. apply verify_initial_snapshot_verification in Hf as (Hk & Htr & Hmr & s & Hs & Hver).
    eexists _, _, _, _, _. split; [done|]. split_and!; [congruence..|]. exists s. by rewrite Hi.
  - left. apply observe_task_verification in Hf as [[Hk Hc]|Hn]; [by rewrite Hc, <- Hk|congruence].
  - left. apply observe_snapshot_verification in Hf as [[Hk Hc]|Hn]; [by rewrite Hc, <- Hk|congruence].
  - apply verify_verification in Hf as [[Hk Hc]|(Hc & Hmr & u & Hu & <- & Hp & Htr)];
      [left; by rewrite Hc, <- Hk|right; left].
    assert (u = v) as -> by congruence. eexists _, _. split_and!; [done|done|congruence..].
Qed.

(** * Idempotent creation *)

(** Creating a Change is idempotent: repeating a creation that succeeded,
    under the same identity and with the same arguments, returns the same
    record and changes nothing. *)
Theorem create_idempotent_retry (st st' : Store) (id task : string) (pt pc : option string)
    (base : ChangeBase) (r : ChangeRecord) :
  create_named write_outcome scope st id task pt pc base = (st', Ok r) ->
  create_named write_outcome scope st' id task pt pc base = (st', Ok r).
Proof.
  intros Hc. pose proof (create_effect _ _ _ _ _ _ _ _ Hc) as Heff.
  unfold create_named, commit_plan in Hc.
  destruct (create_named_plan scope st id task pt pc base) as [[r' ch]|e] eqn:E; [|done].
  destruct (st !! id) as [b|] eqn:Hid.
  { assert (Hch : ch = false).
    { unfold create_named_plan in E. do 7 apply bind_Ok in E as ([] & _ & E).
      rewrite Hid in E. simpl in E. apply bind_Ok in E as (x & _ & E).
      by apply bind_Ok in E as ([] & _ & [= _ <-]). }
    subst ch. injection Hc as <- <-. unfold create_named, commit_plan. by rewrite E. }
  unfold create_named_plan in E.
  apply bind_Ok in E as ([] & E1 & E). apply bind_Ok in E as ([] & E2 & E).
  apply bind_Ok in E as ([] & E3 & E). apply bind_Ok in E as ([] & E4 & E).
  apply bind_Ok in E as ([] & E5 & E). apply bind_Ok in E as ([] & E6 & E).
  apply bind_Ok in E as ([] & E7 & E). rewrite Hid in E. simpl in E.
  apply bind_Ok in E as (l & _ & E). apply bind_Ok in E as ([] & _ & [= <- <-]).
  set (r0 := new_record scope id task pt pc base) in *.
  assert (Hr0 : r = r0 /\ exists b, writable r0 b /\ st' = <[id := b]> st).
  { unfold write_return in Hc.
    destruct (write_locked write_outcome st r0) as [s [[]|e]] eqn:Hw; cbn [bind] in Hc; [|done].
    injection Hc as <- <-. split; [done|]. inversion Heff as [? Hsame Heq|r3 b ? Hwr Ho Hres Heq].
    - exfalso. specialize (Hsame r0 eq_refl).
      apply read_locked_Ok in Hsame as (_ & _ & _ & _ & b & Hb & _). simpl in Hb.
      congruence.
    - pose proof (Hres r0 eq_refl) as <-. by exists b. }
  destruct Hr0 as (-> & b & Hwr & ->).
  assert (Hget : read (<[id := b]> st) id = Ok r0)
    by (change id with (c_change_id r0) at 1; rewrite read_put by done;
        by rewrite bool_decide_eq_true_2).
  assert (Hother : forall x y, read st x = Ok y -> exists z, read (<[id := b]> st) x = Ok z).
  { intros x y Hx. change id with (c_change_id r0). rewrite read_put by done.
    case_bool_decide; eauto. }
  unfold create_named, commit_plan, create_named_plan.
  rewrite E1, E2, E3, E4, E5. cbn [bind].
  assert (E6' : match base with
      | BaseChange id0 => let! _ := read (<[id := b]> st) id0 in Ok tt
      | OriginMain => Ok tt
      end = @Ok string unit tt).
  { destruct base as [|x]; [done|]. apply bind_Ok in E6 as (y & Hy & _).
    destruct (Hother _ _ Hy) as (z & ->). done. }
  assert (E7' : match pc with
      | Some id0 => let! _ := read (<[id := b]> st) id0 in Ok tt
      | None => Ok tt
      end = @Ok string unit tt).
  { destruct pc as [x|]; [|done]. apply bind_Ok in E7 as (y & Hy & _).
    destruct (Hother _ _ Hy) as (z & ->). done. }
  rewrite E6', E7'. cbn [bind]. rewrite lookup_insert_eq. cbn [is_some is_some_and].
  rewrite Hget. cbn [bind]. subst r0. simpl.
  rewrite String.eqb_refl, !bool_decide_eq_true_2 by done. done.
Qed.
End StoreTheorems.

(** * Witnesses *)

Module ChangeWitness.
Import JsonModel.

Definition scope0 : ChangeScope := mkScope "session" 1 2 "/work" "owner/repo".
Definition attempt0 : ExecutionAttempt := mkAttempt "e1" "codex" "host" 1.
Definition lease0 : WriterLease := mkLease "e1" 1.

(** The records of a Change's life: created, allocating, allocated, executing,
    written, released; and one whose task moved to revision 5. *)
Definition k0 : ChangeRecord := new_record scope0 "c1" "t1" None None OriginMain.
Definition k1 : ChangeRecord :=
  set_revision (set_allocation_pending (set_allocation_operation_id k0 (Some uuid0)) true) 2.
Definition k2 : ChangeRecord :=
  set_revision (set_allocation_pending (set_provisioning_operation_id
    (set_workspace_id k1 (Some "w1"%string)) (Some uuid0)) false) 3.
Definition k3 : ChangeRecord := set_revision (set_executions k2 [attempt0]) 4.
Definition k4 : ChangeRecord :=
  set_revision (set_writer (set_writer_generation k3 1) (Some lease0)) 5.
Definition k5 : ChangeRecord := set_revision (set_writer k4 None) 6.
Definition k6 : ChangeRecord := set_revision (set_task_record_revision k0 5) 2.

(** The last five are the records an update compares before it numbers them. *)
Definition known : list ChangeRecord :=
  [k0; k1; k2; k3; k4; k5; k6; set_revision k1 1; set_revision k3 3; set_revision k4 4;
   set_revision k5 5; set_revision k6 1].
Definition index_bytes (n : nat) : string := String (ascii_of_nat (48 + n)) EmptyString.

(** A codec for finitely many records: a record's bytes are its place in a table. *)
Definition table_codec_of (table : list ChangeRecord) : ChangeCodec := {|
  change_to_vec r := (fun p => index_bytes p.1) <$> list_find (eq r) table;
  change_from_slice b :=
    match b with
    | String c EmptyString => table !! (nat_of_ascii c - 48)%nat
    | _ => None
    end;
|}.

Lemma table_codec_of_laws (table : list ChangeRecord) :
  (length table <= 200)%nat -> @ChangeCodecLaws _ (table_codec_of table).
Proof.
  intros Hlen. split. intros r b Hb. unfold change_to_vec, table_codec_of in Hb.
  destruct (list_find (eq r) table) as [[i u]|] eqn:Hf; [|discriminate Hb].
  cbn [fmap option_fmap option_map fst] in Hb. injection Hb as <-.
  unfold index_bytes, change_from_slice, table_codec_of.
  apply list_find_Some in Hf as (Hi & <- & _). pose proof (lookup_lt_Some _ _ _ Hi) as Hl.
  rewrite nat_ascii_embedding by lia. by replace (48 + i - 48)%nat with i by lia.
Qed.

#[local] Instance table_codec : ChangeCodec := table_codec_of known.
#[local] Instance table_codec_laws : ChangeCodecLaws := table_codec_of_laws known ltac:(simpl; lia).

Definition disk_ok (st : Store) (id : string) : WriteOutcome := WriteDone.

Definition to_writer : list ChangeOp :=
  [OpCreate "c1" "t1" None None OriginMain; OpAllocate "c1" 1 uuid0; OpBind "c1" 2 uuid0 "w1";
   OpAppend "c1" 3 attempt0; OpHandoff "c1" 4 None "e1"].
Definition to_release : list ChangeOp := [OpRelease "c1" 5 lease0].

Definition store_at (n : nat) : Store := {["c1"%string := index_bytes n]}.

Lemma to_writer_run : run_ops disk_ok scope0 ∅ to_writer = store_at 4.
Proof. vm_compute. reflexivity. Qed.

Lemma read_at (n : nat) (r : ChangeRecord) :
  label (c_change_id r) = Ok tt -> c_change_id r = "c1"%string -> c_schema_version r = 1 ->
  c_scope r = scope0 -> (n < 12)%nat -> known !! n = Some r ->
  read_locked scope0 (store_at n) "c1" = Ok r.
Proof.
  intros Hl Hi Hv Hs Hn Hk. apply read_locked_Ok.
  split; [by rewrite <- Hi|]. split_and!; try done. exists (index_bytes n). split_and!; [by apply lookup_singleton_eq|done|].
  unfold index_bytes, change_from_slice, table_codec, table_codec_of.
  rewrite nat_ascii_embedding by lia. by replace (48 + n - 48)%nat with n by lia.
Qed.

Lemma read0 : read_locked scope0 (store_at 0) "c1" = Ok k0.
Proof. by apply read_at; [| | | |lia|]. Qed.
Lemma read4 : read_locked scope0 (store_at 4) "c1" = Ok k4.
Proof. by apply read_at; [| | | |lia|]. Qed.
Lemma read5 : read_locked scope0 (store_at 5) "c1" = Ok k5.
Proof. by apply read_at; [| | | |lia|]. Qed.

Lemma change_store_invariant_witness : store_ok scope0 (store_at 4).
Proof.
  rewrite <- to_writer_run.
  exact (proj2 (change_store_invariant disk_ok scope0 to_writer) ∅ (store_ok_empty scope0)).
Defined.

Lemma no_lost_update_witness :
  exists e, apply_op disk_ok scope0 (store_at 0) (OpAllocate "c1" 7 uuid0) = (store_at 0, Err e).
Proof.
  apply (proj1 (no_lost_update disk_ok scope0 (store_at 0) (OpAllocate "c1" 7 uuid0) "c1" 7 k0
           eq_refl read0)).
  discriminate.
Defined.

Lemma release_run : run_ops disk_ok scope0 (store_at 4) to_release = store_at 5.
Proof. vm_compute. reflexivity. Qed.

Lemma reachable4 : store_ok scope0 (store_at 4).
Proof.
  rewrite <- to_writer_run. unfold run_ops.
  assert (Hg : forall ops st, store_ok scope0 st ->
    store_ok scope0 (fold_left (fun st o => (apply_op disk_ok scope0 st o).1) ops st)).
  { induction ops as [|o ops IH]; intros st Hst; [done|].
    apply IH. eapply effect_store_ok; [apply apply_op_effect|done]. }
  apply Hg, store_ok_empty.
Qed.

Lemma writer_fence_witness : c_writer k5 <> Some lease0.
Proof.
  apply (writer_fence disk_ok scope0 (store_at 4) to_release [] "c1" k4 k5 k5 lease0).
  - exact reachable4.
  - exact read4.
  - reflexivity.
  - rewrite release_run. exact read5.
  - discriminate.
  - rewrite release_run. exact read5.
Defined.

Lemma create_run :
  create_named disk_ok scope0 ∅ "c1" "t1" None None OriginMain = (store_at 0, Ok k0).
Proof. vm_compute. reflexivity. Qed.

Lemma create_idempotent_retry_witness :
  create_named disk_ok scope0 (store_at 0) "c1" "t1" None None OriginMain = (store_at 0, Ok k0).
Proof.
  exact (create_idempotent_retry disk_ok scope0 ∅ (store_at 0) "c1" "t1" None None OriginMain k0
           create_run).
Defined.

(** The records of a run of closures, each before and after it is numbered. *)
Fixpoint trail (r : ChangeRecord) (fs : list (ChangeRecord -> result string ChangeRecord)) :
    list ChangeRecord :=
  match fs with
  | [] => []
  | f :: rest =>
      match f r with
      | Ok r1 => let r2 := set_revision r1 (c_revision r1 + 1) in r1 :: r2 :: trail r2 rest
      | Err _ => []
      end
  end.

(** A Change that is verified before its initial snapshot is. *)
Definition start0 : InitialStart := mkInitialStart uuid0 "fp" uuid0 "e1" false false None.
Definition early_ops : list ChangeOp :=
  [OpObserveTask "c1" 3 1; OpObserveSnapshot "c1" 4 uuid0 "logical" "m0"; OpVerify "c1" 5 "m0" true;
   OpReserve "c1" 6 start0; OpMarkSnapshot "c1" 7 uuid0].
Definition early_trail : list ChangeRecord :=
  k2 :: trail k2
    [observe_task_revision_step 1; observe_snapshot_step uuid0 "logical" "m0"; verify_step "m0" true;
     reserve_initial_start_step start0; mark_initial_snapshot_attempt_step uuid0;
     verify_initial_snapshot_step uuid0 "logical" "m1" "vcs-op"].
#[local] Instance early_codec : ChangeCodec := table_codec_of early_trail.
#[local] Instance early_codec_laws : @ChangeCodecLaws _ early_codec :=
  table_codec_of_laws early_trail ltac:(vm_compute; lia).

Definition snapshot_op : ChangeOp := OpVerifySnapshot "c1" 8 uuid0 "logical" "m1" "vcs-op".
Definition before_snapshot : Store := run_ops disk_ok scope0 (store_at 0) early_ops.
Definition early_verification : Verification := mkVerification "m0" 6 1 true.
Definition record_before : ChangeRecord := nth 10 early_trail k0.
Definition record_after : ChangeRecord := nth 12 early_trail k0.

Lemma before_read : read_locked scope0 before_snapshot "c1" = Ok record_before.
Proof. vm_compute. reflexivity. Qed.
Lemma after_read :
  read_locked scope0
    (apply_op disk_ok scope0 before_snapshot snapshot_op).1 "c1" = Ok record_after.
Proof. vm_compute. reflexivity. Qed.
Lemma after_verification : c_verification record_after = Some early_verification.
Proof. vm_compute. reflexivity. Qed.

(** The initial snapshot does not clear a verification: a passed one survives
    the move of the Change to another revision.  Planning a delivery refuses
    it all the same, for its revision is not the materialized one. *)
Lemma verification_follows_content_witness :
  c_materialized_revision record_after = Some "m1"%string /\ vf_revision early_verification = "m0"%string
  /\ c_verification record_before = Some early_verification.
Proof.
  destruct (verification_follows_content disk_ok scope0
    before_snapshot snapshot_op "c1" record_before record_after early_verification
    before_read after_read after_verification) as [[Hv Hc]|[(rev & passed & Ho & _)|(rev & op & l & m & vcs & _ & Hv & _)]].
  - exfalso. apply (f_equal (fun x => x.1.1)) in Hc. discriminate Hc.
  - discriminate Ho.
  - split; [reflexivity|]. split; [reflexivity|exact Hv].
Defined.
End ChangeWitness.
