(* ===== verification/Delivery.v ===== *)
(** Delivery planning and receipts: src/src/delivery.rs, over the Change store of
    [Change].

    serde_json of the steps and SHA-256 are parameters.  A planning [BTreeMap]
    is the list of its Changes in key order.  The functions that read the store
    before they update it take [seen], the store each of their reads saw, and
    [st], what the final [update] runs on; another process may have changed the
    store in between. *)

From S2P Require Import Prelude Strings Json Change.

Inductive DeliveryMethod : Type :=
| SinglePr
| StackedPr.

Record DeliveryStep : Type := mkStep {
  ds_change_id : string;
  ds_revision : string;
  ds_head_ref : string;
  ds_base_ref : string;
  ds_base_change_id : option string;
  ds_base_revision : option string;
  ds_method : DeliveryMethod;
}.

Record DeliveryPlan : Type := mkPlan {
  dp_steps : list DeliveryStep;
  dp_fingerprint : string;
}.

Record DeliveryObservation : Type := mkObservation {
  do_branch_revision : option string;
  do_pull_request : option PullRequestReceipt;
}.

#[global] Instance method_eq_dec : EqDecision DeliveryMethod.
Proof. solve_decision. Defined.
#[global] Instance step_eq_dec : EqDecision DeliveryStep.
Proof. solve_decision. Defined.

Definition method_of (base_change_id : option string) : DeliveryMethod :=
  if is_some base_change_id then StackedPr else SinglePr.

Definition head_ref_of (change_id : string) : string := "temote/" +:+ change_id.

Section Delivery.
Context `{UuidLib} `{!ChangeCodec} (write_outcome : gmap string string -> string -> WriteOutcome)
  (scope : ChangeScope) (steps_to_vec : list DeliveryStep -> option string)
  (sha256_hex : string -> string).

Notation Store := (gmap string string).

(** * Planning *)

Definition parent_of (change : ChangeRecord) : option string :=
  match c_base change with
  | OriginMain => None
  | BaseChange parent => Some parent
  end.

Definition find_change (id : string) (by_id : list ChangeRecord) : option ChangeRecord :=
  find (fun c => String.eqb (c_change_id c) id) by_id.

(** The [BTreeMap] of the Changes: an error at the first id met twice. *)
Fixpoint index_changes (by_id changes : list ChangeRecord) : result string (list ChangeRecord) :=
  match changes with
  | [] => Ok by_id
  | change :: rest =>
      ensure (is_none (find_change (c_change_id change) by_id)) "duplicate Change identity" ;!
      index_changes (insert_change change by_id) rest
  end.

(** The checks on a Change whose parent is done, and its step. *)
Definition step_for (by_id : list ChangeRecord) (change : ChangeRecord) :
    result string DeliveryStep :=
  ensure (is_some (c_workspace_id change) && negb (c_allocation_pending change))
    "Change workspace not allocated" ;!
  ensure (is_none (c_writer change)) "Change still has an active writer" ;!
  let! revision := ok_or (c_materialized_revision change) "missing materialized revision" in
  let! verification := ok_or (c_verification change) "missing verification" in
  ensure (vf_passed verification && String.eqb (vf_revision verification) revision
          && (vf_record_revision verification <=? c_revision change)
          && (0 <? vf_task_record_revision verification)
          && (vf_task_record_revision verification =? c_task_record_revision change))
    "verification is stale or failed" ;!
  let parent := parent_of change in
  let '(base_ref, base_revision) :=
    match parent with
    | None => ("main"%string, None)
    | Some id => (head_ref_of id, base ← find_change id by_id; c_materialized_revision base)
    end in
  Ok (mkStep (c_change_id change) revision (head_ref_of (c_change_id change)) base_ref parent
        base_revision (method_of parent)).

(** One Change of a pass: [None] when it is done or has to wait. *)
Definition visit (by_id : list ChangeRecord) (done : list string) (change : ChangeRecord) :
    result string (option DeliveryStep) :=
  if bool_decide (c_change_id change ∈ done) then Ok None
  else match parent_of change with
  | None => let! step := step_for by_id change in Ok (Some step)
  | Some parent =>
      let! base := ok_or (find_change parent by_id)
                     ("missing delivery parent for " +:+ c_change_id change) in
      ensure (bool_decide (c_scope base = c_scope change)) "incompatible Change delivery parent" ;!
      if negb (bool_decide (parent ∈ done)) then Ok None
      else let! step := step_for by_id change in Ok (Some step)
  end.

(** A pass over the map: the ids done and the steps, in order, after it. *)
Fixpoint pass (by_id l : list ChangeRecord) (done : list string) (steps : list DeliveryStep) :
    result string (list string * list DeliveryStep) :=
  match l with
  | [] => Ok (done, steps)
  | change :: rest =>
      let! o := visit by_id done change in
      match o with
      | Some step => pass by_id rest (done ++ [c_change_id change]) (steps ++ [step])
      | None => pass by_id rest done steps
      end
  end.

(** The [while] loop; a unit of fuel is a pass, [None] running out of it. *)
Fixpoint plan_loop (fuel : nat) (by_id : list ChangeRecord) (done : list string)
    (steps : list DeliveryStep) : option (result string (list DeliveryStep)) :=
  if negb (length done <? length by_id)%nat then Some (Ok steps)
  else match fuel with
  | O => None
  | S fuel =>
      match pass by_id by_id done steps with
      | Err e => Some (Err e)
      | Ok (done', steps') =>
          if (length done' =? length done)%nat then Some (Err "Change dependency cycle"%string)
          else plan_loop fuel by_id done' steps'
      end
  end.

Definition plan (fuel : nat) (changes : list ChangeRecord) : option (result string DeliveryPlan) :=
  match index_changes [] changes with
  | Err e => Some (Err e)
  | Ok by_id =>
      r ← plan_loop fuel by_id [] [];
      Some (let! steps := r in
            let! bytes := ok_or (steps_to_vec steps) "serialize" in
            Ok (mkPlan steps (sha256_hex bytes)))
  end.

(** * Freshness of a plan *)

(** Every [store.get] takes the store's lock for itself, so an operation that reads
    several times sees a store per read: the Change and the parent of the plan's
    [i]-th step, the stack parent, and the Change the operation is about. *)
Inductive ReadAt : Type :=
| FreshChange (i : nat)
| FreshParent (i : nat)
| StackParent
| Current.

Definition step_fresh (seen : ReadAt -> Store) (i : nat) (step : DeliveryStep) :
    result string unit :=
  let! change := get scope (seen (FreshChange i)) (ds_change_id step) in
  ensure (is_none (c_writer change)) "Change still has an active writer" ;!
  ensure (bool_decide (c_materialized_revision change = Some (ds_revision step)))
    "delivery plan revision is stale" ;!
  let! verification := ok_or (c_verification change) "delivery verification missing" in
  ensure (vf_passed verification && String.eqb (vf_revision verification) (ds_revision step)
          && (0 <? vf_task_record_revision verification)
          && (vf_task_record_revision verification =? c_task_record_revision change))
    "delivery verification is stale" ;!
  match ds_base_change_id step with
  | Some parent =>
      let! base := get scope (seen (FreshParent i)) parent in
      ensure (bool_decide (c_scope base = c_scope change)
              && bool_decide (c_materialized_revision base = ds_base_revision step))
        "delivery parent revision is stale or incompatible" ;!
      ensure (String.eqb (ds_base_ref step) (head_ref_of parent)) "delivery base ref mismatch"
  | None =>
      ensure (String.eqb (ds_base_ref step) "main" && is_none (ds_base_revision step))
        "delivery base mismatch"
  end ;!
  ensure (String.eqb (ds_head_ref step) (head_ref_of (ds_change_id step)))
    "delivery head ref mismatch" ;!
  ensure (bool_decide (ds_method step = method_of (ds_base_change_id step)))
    "delivery method mismatch".

Fixpoint steps_fresh (seen : ReadAt -> Store) (i : nat) (steps : list DeliveryStep) :
    result string unit :=
  match steps with
  | [] => Ok tt
  | step :: rest => step_fresh seen i step ;! steps_fresh seen (S i) rest
  end.

Definition validate_plan_fresh (seen : ReadAt -> Store) (p : DeliveryPlan) : result string unit :=
  let! bytes := ok_or (steps_to_vec (dp_steps p)) "serialize" in
  ensure (String.eqb (sha256_hex bytes) (dp_fingerprint p)) "delivery plan fingerprint mismatch" ;!
  steps_fresh seen 0 (dp_steps p).

Definition find_step (change_id : string) (p : DeliveryPlan) : option DeliveryStep :=
  find (fun s => String.eqb (ds_change_id s) change_id) (dp_steps p).

(** * Receipts *)

(** The receipt of an updated Change.  [None] is an error of two of the callers
    and a panic ([unwrap]) of the other two; the closures below never leave it. *)
Definition return_receipt (r : Store * result string ChangeRecord) :
    Store * result string DeliveryReceipt :=
  (r.1, let! updated := r.2 in ok_or (c_delivery updated) "delivery receipt missing").

Definition accept_step (receipt : DeliveryReceipt) (r : ChangeRecord) :
    result string ChangeRecord :=
  Ok (set_delivery r (Some receipt)).

(** What [accept_once] decides from its reads: a receipt to return as it is, or
    one to claim. *)
Definition accept_plan (seen : ReadAt -> Store) (change_id : string) (expected_revision : Z)
    (p : DeliveryPlan) (operation_id : Uuid) : result string (DeliveryReceipt * bool) :=
  validate_plan_fresh seen p ;!
  let! step := ok_or (find_step change_id p) "Change absent from delivery plan" in
  match ds_base_change_id step with
  | Some parent =>
      let! base := get scope (seen StackParent) parent in
      ensure (is_some_and (fun d => bool_decide (dr_state d = DeliveryCompleted)) (c_delivery base))
        "stack parent delivery is incomplete"
  | None => Ok tt
  end ;!
  let! current := get scope (seen Current) change_id in
  ensure (bool_decide (c_materialized_revision current = Some (ds_revision step)))
    "delivery revision is stale" ;!
  match c_delivery current with
  | Some receipt =>
      ensure (bool_decide (dr_operation_id receipt = operation_id)
              && String.eqb (dr_plan_fingerprint receipt) (dp_fingerprint p))
        "delivery operation conflict" ;!
      Ok (receipt, false)
  | None =>
      ensure (c_revision current =? expected_revision) revision_conflict ;!
      Ok (mkReceipt operation_id (dp_fingerprint p) Accepted None None None None None, true)
  end.

Definition accept_once (seen : ReadAt -> Store) (st : Store) (change_id : string)
    (expected_revision : Z) (p : DeliveryPlan) (operation_id : Uuid) : Store * result string (DeliveryReceipt * bool) :=
  match accept_plan seen change_id expected_revision p operation_id with
  | Err e => (st, Err e)
  | Ok (receipt, false) => (st, Ok (receipt, false))
  | Ok (receipt, true) =>
      let '(st, r) := update write_outcome scope st change_id expected_revision
                        (accept_step receipt) in
      (st, let! _ := r in Ok (receipt, true))
  end.

Definition set_receipt_state (d : DeliveryReceipt) (state : DeliveryState) : DeliveryReceipt :=
  mkReceipt (dr_operation_id d) (dr_plan_fingerprint d) state (dr_delegated_task_id d)
    (dr_branch_revision d) (dr_pull_request d) (dr_observation_operation_id d)
    (dr_observation_task_id d).

Definition record_delegation_step (operation_id : Uuid) (task_id : string) (r : ChangeRecord) :
    result string ChangeRecord :=
  let! receipt := ok_or (c_delivery r) "delivery not accepted" in
  ensure (bool_decide (dr_operation_id receipt = operation_id)) "delivery operation conflict" ;!
  ensure (is_none_or (fun existing => String.eqb existing task_id) (dr_delegated_task_id receipt))
    "delivery task conflict" ;!
  if bool_decide (dr_state receipt = DeliveryCompleted) then Ok r
  else Ok (set_delivery r (Some
         (mkReceipt (dr_operation_id receipt) (dr_plan_fingerprint receipt) Delegated
            (Some task_id) (dr_branch_revision receipt) (dr_pull_request receipt)
            (dr_observation_operation_id receipt) (dr_observation_task_id receipt)))).

Definition record_delegation (st : Store) (change_id : string) (rev : Z) (operation_id : Uuid)
    (task_id : string) : Store * result string DeliveryReceipt :=
  match label task_id with
  | Err e => (st, Err e)
  | Ok _ =>
      return_receipt (update write_outcome scope st change_id rev
                        (record_delegation_step operation_id task_id))
  end.

Definition prepare_observation_step (delivery_operation_id observation_operation_id : Uuid)
    (r : ChangeRecord) : result string ChangeRecord :=
  let! receipt := ok_or (c_delivery r) "delivery not accepted" in
  ensure (bool_decide (dr_operation_id receipt = delivery_operation_id))
    "delivery operation conflict" ;!
  Ok (set_delivery r (Some
    (mkReceipt (dr_operation_id receipt) (dr_plan_fingerprint receipt) (dr_state receipt)
       (dr_delegated_task_id receipt) (dr_branch_revision receipt) (dr_pull_request receipt)
       (Some observation_operation_id) (dr_observation_task_id receipt)))).

Definition prepare_observation (seen st : Store) (change_id : string) (rev : Z)
    (delivery_operation_id observation_operation_id : Uuid) :
    Store * result string DeliveryReceipt :=
  match
    let! current := get scope seen change_id in
    let! existing := ok_or (c_delivery current) "delivery not accepted" in
    ensure (bool_decide (dr_operation_id existing = delivery_operation_id))
      "delivery operation conflict" ;!
    match dr_observation_operation_id existing with
    | Some id =>
        ensure (bool_decide (id = observation_operation_id)) "observation operation conflict" ;!
        Ok (Some existing)
    | None => Ok None
    end
  with
  | Err e => (st, Err e)
  | Ok (Some existing) => (st, Ok existing)
  | Ok None =>
      return_receipt (update write_outcome scope st change_id rev
        (prepare_observation_step delivery_operation_id observation_operation_id))
  end.

Definition record_observation_task_step (delivery_operation_id observation_operation_id : Uuid)
    (task_id : string) (r : ChangeRecord) : result string ChangeRecord :=
  let! receipt := ok_or (c_delivery r) "delivery not accepted" in
  ensure (bool_decide (dr_operation_id receipt = delivery_operation_id)
          && bool_decide (dr_observation_operation_id receipt = Some observation_operation_id))
    "observation operation conflict" ;!
  ensure (is_none_or (fun existing => String.eqb existing task_id) (dr_observation_task_id receipt))
    "observation task conflict" ;!
  Ok (set_delivery r (Some
    (mkReceipt (dr_operation_id receipt) (dr_plan_fingerprint receipt) (dr_state receipt)
       (dr_delegated_task_id receipt) (dr_branch_revision receipt) (dr_pull_request receipt)
       (dr_observation_operation_id receipt) (Some task_id)))).

Definition record_observation_task (st : Store) (change_id : string) (rev : Z)
    (delivery_operation_id observation_operation_id : Uuid) (task_id : string) :
    Store * result string DeliveryReceipt :=
  match ok_or (uuid_parse_str task_id) "invalid UUID"%string with
  | Err e => (st, Err e)
  | Ok _ =>
      return_receipt (update write_outcome scope st change_id rev
        (record_observation_task_step delivery_operation_id observation_operation_id task_id))
  end.

(** The condition under which an observed pull request completes a delivery. *)
Definition pull_request_matches (step : DeliveryStep) (expected_parent_pr : option Z)
    (observed : DeliveryObservation) (pr : PullRequestReceipt) : bool :=
  (0 <? pr_number pr) && String.eqb (pr_head_ref pr) (ds_head_ref step)
  && String.eqb (pr_base_ref pr) (ds_base_ref step)
  && String.eqb (pr_revision pr) (ds_revision step)
  && starts_with "https://" (pr_url pr)
  && match ds_method step with
     | SinglePr => is_none (pr_stack_parent_pr_number pr) && negb (pr_stack_linked pr)
     | StackedPr =>
         bool_decide (pr_stack_parent_pr_number pr = expected_parent_pr) && pr_stack_linked pr
     end
  && bool_decide (do_branch_revision observed = Some (ds_revision step)).

Definition reconcile_step (p : DeliveryPlan) (operation_id : Uuid) (step : DeliveryStep)
    (expected_parent_pr : option Z) (observed : DeliveryObservation) (r : ChangeRecord) :
    result string ChangeRecord :=
  let! receipt := ok_or (c_delivery r) "delivery not accepted" in
  ensure (bool_decide (dr_operation_id receipt = operation_id)
          && String.eqb (dr_plan_fingerprint receipt) (dp_fingerprint p))
    "delivery operation conflict" ;!
  ensure (bool_decide (c_materialized_revision r = Some (ds_revision step)))
    "delivered revision is stale" ;!
  let branch_mismatch :=
    is_some_and (fun branch => negb (String.eqb branch (ds_revision step)))
      (do_branch_revision observed) in
  if branch_mismatch
  then Ok (set_delivery r (Some (set_receipt_state receipt ReconciliationRequired)))
  else
    let receipt :=
      match do_branch_revision observed with
      | Some branch =>
          mkReceipt (dr_operation_id receipt) (dr_plan_fingerprint receipt) (dr_state receipt)
            (dr_delegated_task_id receipt) (Some branch) (dr_pull_request receipt)
            (dr_observation_operation_id receipt) (dr_observation_task_id receipt)
      | None => receipt
      end in
    match do_pull_request observed with
    | Some pr =>
        if pull_request_matches step expected_parent_pr observed pr
        then
          ensure (is_none_or (fun old => bool_decide (old = pr)) (dr_pull_request receipt))
            "conflicting remote PR identity" ;!
          Ok (set_delivery r (Some
            (mkReceipt (dr_operation_id receipt) (dr_plan_fingerprint receipt) DeliveryCompleted
               (dr_delegated_task_id receipt) (dr_branch_revision receipt) (Some pr)
               (dr_observation_operation_id receipt) (dr_observation_task_id receipt))))
        else Ok (set_delivery r (Some (set_receipt_state receipt ReconciliationRequired)))
    | None => Ok (set_delivery r (Some (set_receipt_state receipt ReconciliationRequired)))
    end.

(** What [reconcile] reads before its update: the step and its parent's PR. *)
Definition reconcile_reads (seen : ReadAt -> Store) (change_id : string) (p : DeliveryPlan) :
    result string (DeliveryStep * option Z) :=
  validate_plan_fresh seen p ;!
  let! step := ok_or (find_step change_id p) "Change absent from delivery plan" in
  match ds_base_change_id step with
  | Some parent =>
      let! base := get scope (seen StackParent) parent in
      let! pr := ok_or (d ← c_delivery base; dr_pull_request d) "stack parent PR not reconciled" in
      Ok (step, Some (pr_number pr))
  | None => Ok (step, None)
  end.

Definition reconcile (seen : ReadAt -> Store) (st : Store) (change_id : string) (rev : Z)
    (p : DeliveryPlan) (operation_id : Uuid) (observed : DeliveryObservation) :
    Store * result string DeliveryReceipt :=
  match reconcile_reads seen change_id p with
  | Err e => (st, Err e)
  | Ok (step, expected_parent_pr) =>
      return_receipt (update write_outcome scope st change_id rev
        (reconcile_step p operation_id step expected_parent_pr observed))
  end.

Definition delegated_instruction (step : DeliveryStep) : string :=
  let stack :=
    match ds_method step with
    | SinglePr => "No stack link is needed."
    | StackedPr =>
        "After verifying the parent PR and this PR's exact base/head, use the supported gh-stack link operation only if its capability is confirmed; otherwise report unsupported. Return the parent PR number and whether the stack link was observed."
    end%string in
  "Deliver Temote Change " +:+ ds_change_id step +:+ " at exact revision " +:+ ds_revision step
  +:+ " to head ref " +:+ ds_head_ref step +:+ " with PR base " +:+ ds_base_ref step
  +:+ ". First inspect existing branch and PR state; reconcile the exact head/base/revision before any mutation. Publish only this verified revision and create or update one PR. "
  +:+ stack
  +:+ " Do not merge, retarget an incompatible PR, force-push, reset, clean, or modify sibling workspaces. Return bounded branch and PR identity evidence. If any effect is uncertain, stop for reconciliation.".
End Delivery.
