(* ===== verification/DeliveryTheorems.v ===== *)
(** What delivery guarantees ([Delivery]): plans are complete topological orders
    of verified Changes, an intent is claimed once, and a delivery completes
    only on matching remote evidence. *)

From S2P Require Import Prelude Strings Json Change ChangeTheorems Delivery.
#[local] Notation Store := (gmap string string).

Section PlanTheorems.
Context `{UuidLib} (steps_to_vec : list DeliveryStep -> option string)
  (sha256_hex : string -> string).

(** * The index of a plan *)

Lemma insert_change_perm (c : ChangeRecord) (l : list ChangeRecord) : insert_change c l ≡ₚ c :: l.
Proof.
  induction l as [|x l IH]; simpl; [done|]. case_match; [done|].
  rewrite IH. apply Permutation_swap.
Qed.

Lemma find_change_Some (id : string) (l : list ChangeRecord) (c : ChangeRecord) :
  find_change id l = Some c -> c ∈ l /\ c_change_id c = id.
Proof.
  unfold find_change. intros Hf. apply find_some in Hf as [Hin He].
  split; [by apply list_elem_of_In|by apply String.eqb_eq].
Qed.

Lemma find_change_None (id : string) (l : list ChangeRecord) :
  find_change id l = None <-> id ∉ map c_change_id l.
Proof.
  unfold find_change. rewrite list_elem_of_In, in_map_iff. split.
  - intros Hf (c & <- & Hc). apply (find_none _ _ Hf) in Hc. by rewrite String.eqb_refl in Hc.
  - intros Hn. destruct (find _ l) as [c|] eqn:Hf; [|done]. exfalso. apply find_some in Hf as [Hin He].
    apply Hn. exists c. split; [by apply String.eqb_eq|done].
Qed.

Lemma find_change_elem (l : list ChangeRecord) (c : ChangeRecord) :
  NoDup (map c_change_id l) -> c ∈ l -> find_change (c_change_id c) l = Some c.
Proof.
  induction l as [|x l IH]; intros Hn Hin; [by apply elem_of_nil in Hin|].
  simpl in Hn. apply NoDup_cons in Hn as [Hx Hn]. unfold find_change. simpl.
  apply elem_of_cons in Hin as [->|Hin]; [by rewrite String.eqb_refl|].
  destruct (String.eqb_spec (c_change_id x) (c_change_id c)) as [He|_]; [|by apply IH].
  exfalso. apply Hx. rewrite He, list_elem_of_In. apply in_map. by apply list_elem_of_In.
Qed.

Lemma index_changes_Ok (changes by_id0 by_id : list ChangeRecord) :
  NoDup (map c_change_id by_id0) -> index_changes by_id0 changes = Ok by_id ->
  by_id ≡ₚ by_id0 ++ changes /\ NoDup (map c_change_id by_id).
Proof.
  revert by_id0. induction changes as [|c changes IH]; intros by_id0 Hn; simpl.
  - intros [= <-]. by rewrite app_nil_r.
  - intros Hi. apply bind_Ok in Hi as ([] & Hf & Hi).
    apply ensure_Ok, is_none_true, find_change_None in Hf.
    pose proof (insert_change_perm c by_id0) as Hp.
    apply IH in Hi as [Hi Hn']; [|rewrite Hp; simpl; by apply NoDup_cons].
    split; [|done]. rewrite Hi, Hp. simpl. apply Permutation_middle.
Qed.

Lemma index_changes_total (changes by_id0 : list ChangeRecord) :
  NoDup (map c_change_id (by_id0 ++ changes)) ->
  exists by_id, index_changes by_id0 changes = Ok by_id.
Proof.
  revert by_id0. induction changes as [|c changes IH]; intros by_id0 Hn; simpl; [by eauto|].
  rewrite map_app in Hn. apply NoDup_app in Hn as Hn2. destruct Hn2 as (Hn1 & Hd & Hn2).
  rewrite (proj2 (find_change_None _ _)).
  - simpl. apply IH. rewrite map_app, insert_change_perm. simpl. by rewrite Permutation_middle.
  - intros Hin. apply (Hd _ Hin). simpl. left.
Qed.

(** * Steps *)

(** A Change that may be delivered, at its verified revision. *)
Record deliverable (c : ChangeRecord) (revision : string) : Prop := {
  dl_allocated : c_workspace_id c <> None /\ c_allocation_pending c = false;
  dl_writer : c_writer c = None;
  dl_revision : c_materialized_revision c = Some revision;
  dl_verified : exists v, c_verification c = Some v /\ vf_passed v = true
    /\ vf_revision v = revision /\ vf_record_revision v <= c_revision c
    /\ 0 < vf_task_record_revision v /\ vf_task_record_revision v = c_task_record_revision c;
}.

(** The step of a Change in a plan over [by_id]. *)
Definition step_of (by_id : list ChangeRecord) (c : ChangeRecord) (revision : string) :
    DeliveryStep :=
  mkStep (c_change_id c) revision (head_ref_of (c_change_id c))
    (match parent_of c with None => "main"%string | Some p => head_ref_of p end)
    (parent_of c)
    (p ← parent_of c; base ← find_change p by_id; c_materialized_revision base)
    (method_of (parent_of c)).

Lemma step_for_Ok (by_id : list ChangeRecord) (c : ChangeRecord) (s : DeliveryStep) :
  step_for by_id c = Ok s <-> exists revision, deliverable c revision /\ s = step_of by_id c revision.
Proof.
  unfold step_for, step_of. split.
  - intros Hs. apply bind_Ok in Hs as ([] & Hal & Hs). apply bind_Ok in Hs as ([] & Hw & Hs).
    apply bind_Ok in Hs as (rv & Hrv & Hs). apply bind_Ok in Hs as (v & Hv & Hs).
    apply bind_Ok in Hs as ([] & Hok & Hs).
    rewrite ensure_Ok, andb_true_iff, is_some_true, negb_true_iff in Hal.
    rewrite ensure_Ok, is_none_true in Hw. apply ok_or_Ok in Hrv. apply ok_or_Ok in Hv.
    rewrite ensure_Ok, !andb_true_iff, String.eqb_eq, Z.leb_le, Z.ltb_lt, Z.eqb_eq in Hok.
    exists rv. split; [split; [done|done|done|exists v; tauto]|].
    by destruct (parent_of c); injection Hs as <-.
  - intros (rv & [Hal Hw Hrv (v & Hv & Hp & Hr & Hl & H0' & He)] & ->).
    rewrite Hw, Hrv, Hv. destruct Hal as [Hws Hpend].
    rewrite (proj2 (is_some_true _) Hws), Hpend. cbn [ensure bind ok_or negb andb is_none is_none_or].
    rewrite Hp, Hr, He, String.eqb_refl, Z.eqb_refl. rewrite He in H0'.
    rewrite (proj2 (Z.leb_le _ _) Hl), (proj2 (Z.ltb_lt _ _) H0'). cbn [ensure bind andb].
    by destruct (parent_of c).
Qed.

(** What a visit that yields a step says. *)
Lemma visit_step (by_id : list ChangeRecord) (done : list string) (c : ChangeRecord)
    (s : DeliveryStep) :
  visit by_id done c = Ok (Some s) ->
  c_change_id c ∉ done /\ step_for by_id c = Ok s
  /\ forall p, parent_of c = Some p -> p ∈ done
     /\ exists b, find_change p by_id = Some b /\ c_scope b = c_scope c.
Proof.
  unfold visit. case_bool_decide as Hd; [done|]. intros Hv. split; [done|].
  destruct (parent_of c) as [p|].
  - apply bind_Ok in Hv as (b & Hb & Hv). apply bind_Ok in Hv as ([] & Hs & Hv).
    apply ok_or_Ok in Hb. apply ensure_Ok, bool_decide_eq_true in Hs.
    case_bool_decide as Hp; [|done]. simpl in Hv.
    apply bind_Ok in Hv as (x & Hx & [= ->]). split; [done|]. intros ? [= <-]. eauto.
  - apply bind_Ok in Hv as (x & Hx & [= ->]). done.
Qed.

(** A step has its place: a deliverable Change of the plan, after its parent. *)
Definition well_placed (by_id : list ChangeRecord) (before : list DeliveryStep)
    (s : DeliveryStep) : Prop :=
  exists c revision, c ∈ by_id /\ deliverable c revision /\ s = step_of by_id c revision
    /\ forall p, parent_of c = Some p -> p ∈ map ds_change_id before
       /\ exists b, b ∈ by_id /\ c_change_id b = p /\ c_scope b = c_scope c
          /\ ds_base_revision s = c_materialized_revision b.

Record plan_inv (by_id : list ChangeRecord) (done : list string) (steps : list DeliveryStep) :
    Prop := {
  pi_done : done = map ds_change_id steps;
  pi_nodup : NoDup done;
  pi_placed : forall before s after, steps = before ++ s :: after -> well_placed by_id before s;
}.

Lemma plan_inv_visit (by_id : list ChangeRecord) (done : list string) (steps : list DeliveryStep)
    (c : ChangeRecord) (s : DeliveryStep) :
  plan_inv by_id done steps -> c ∈ by_id -> visit by_id done c = Ok (Some s) ->
  plan_inv by_id (done ++ [c_change_id c]) (steps ++ [s]).
Proof.
  intros [Hd Hn Hp] Hc Hv. apply visit_step in Hv as (Hnew & Hs & Hpar).
  apply step_for_Ok in Hs as (rv & Hdl & Hstep). split.
  - by rewrite map_app, <- Hd, Hstep.
  - apply NoDup_app. split_and!; [done| |by apply NoDup_singleton].
    intros x Hx ->%list_elem_of_singleton. done.
  - intros before s' after Heq. destruct (decide (after = [])) as [->|Hne].
    + apply app_inj_tail in Heq as [<- <-]. exists c, rv. split_and!; try done.
      intros p Hpc. destruct (Hpar p Hpc) as (Hin & b & Hb & Hsc). rewrite <- Hd.
      split; [done|]. apply find_change_Some in Hb as Hb'. exists b. split_and!; try tauto.
      rewrite Hstep. unfold step_of. simpl. rewrite Hpc. simpl. by rewrite Hb.
    + destruct (exists_last Hne) as (after' & x & ->).
      rewrite app_comm_cons, app_assoc in Heq. apply app_inj_tail in Heq as [Heq _].
      by eapply Hp.
Qed.

(** One pass keeps the invariant and only adds. *)
Lemma pass_Ok (by_id l : list ChangeRecord) (done done' : list string)
    (steps steps' : list DeliveryStep) :
  plan_inv by_id done steps -> (forall c, c ∈ l -> c ∈ by_id) ->
  pass by_id l done steps = Ok (done', steps') ->
  plan_inv by_id done' steps' /\ exists added, done' = done ++ added.
Proof.
  revert done steps. induction l as [|c l IH]; intros done steps Hi Hl; simpl.
  - intros [= <- <-]. split; [done|]. exists []. by rewrite app_nil_r.
  - intros Hp. apply bind_Ok in Hp as ([s|] & Hv & Hp).
    + apply IH in Hp as [Hi' [added ->]]; [| |intros; apply Hl; by right].
      * split; [done|]. exists (c_change_id c :: added). by rewrite <- app_assoc.
      * apply plan_inv_visit; [done| |done]. apply Hl. by left.
    + apply IH in Hp as [Hi' Ha]; [done|done|]. intros; apply Hl; by right.
Qed.

Lemma plan_loop_Ok (fuel : nat) (by_id : list ChangeRecord) (done : list string)
    (steps steps' : list DeliveryStep) :
  plan_inv by_id done steps -> plan_loop fuel by_id done steps = Some (Ok steps') ->
  exists done', plan_inv by_id done' steps' /\ (length by_id <= length done')%nat.
Proof.
  revert done steps. induction fuel as [|fuel IH]; intros done steps Hi; simpl.
  - destruct (Nat.ltb_spec (length done) (length by_id)); [done|]. intros [= <-]. eauto.
  - destruct (Nat.ltb_spec (length done) (length by_id)); [|intros [= <-]; eauto]. simpl.
    destruct (pass by_id by_id done steps) as [[d s]|e] eqn:Hp; [|done].
    apply pass_Ok in Hp as [Hi' _]; [|done|done].
    destruct (length d =? length done)%nat; [done|]. by apply IH.
Qed.

Lemma plan_inv_start (by_id : list ChangeRecord) : plan_inv by_id [] [].
Proof. split; [done|constructor|]. intros before s after Heq. by destruct before. Qed.

(** All the ids done are the ids of the map once there are as many. *)
Lemma plan_inv_all (by_id : list ChangeRecord) (done : list string) (steps : list DeliveryStep) :
  plan_inv by_id done steps -> (length by_id <= length done)%nat ->
  map ds_change_id steps ≡ₚ map c_change_id by_id.
Proof.
  intros [Hd Hn Hp] Hlen. rewrite <- Hd. apply submseteq_length_Permutation.
  - apply NoDup_submseteq; [done|]. intros x Hx. rewrite Hd in Hx.
    rewrite list_elem_of_In, in_map_iff in Hx. destruct Hx as (s & <- & Hs).
    apply in_split in Hs as (before & after & ->).
    destruct (Hp before s after eq_refl) as (c & rv & Hc & _ & -> & _). simpl.
    rewrite list_elem_of_In. apply in_map. by apply list_elem_of_In.
  - by rewrite length_map.
Qed.

(** C32: a delivery plan is a complete topological order of verified work: its
    steps are the given Changes, each exactly once, every one after the Change
    it is stacked on, at the revision materialized and passed by a current
    verification, with no writer, and based on the parent's revision. *)
Theorem plan_sound (fuel : nat) (changes : list ChangeRecord) (p : DeliveryPlan) :
  plan steps_to_vec sha256_hex fuel changes = Some (Ok p) ->
  NoDup (map c_change_id changes)
  /\ map ds_change_id (dp_steps p) ≡ₚ map c_change_id changes
  /\ forall before s after, dp_steps p = before ++ s :: after ->
     exists c, c ∈ changes /\ ds_change_id s = c_change_id c /\ deliverable c (ds_revision s)
       /\ ds_base_change_id s = parent_of c
       /\ forall parent, parent_of c = Some parent -> parent ∈ map ds_change_id before
          /\ exists b, b ∈ changes /\ c_change_id b = parent /\ c_scope b = c_scope c
             /\ ds_base_revision s = c_materialized_revision b.
Proof.
  unfold plan. destruct (index_changes [] changes) as [by_id|e] eqn:Hidx; [|done].
  apply index_changes_Ok in Hidx as [Hperm Hnd]; [|constructor]. simpl in Hperm.
  destruct (plan_loop fuel by_id [] []) as [[steps|e]|] eqn:Hl; simpl; [|done|done].
  intros [= Hp]. apply bind_Ok in Hp as (bytes & _ & [= <-]). simpl.
  apply plan_loop_Ok in Hl as (done & Hi & Hlen); [|apply plan_inv_start].
  split_and!.
  - by rewrite <- Hperm.
  - rewrite (plan_inv_all _ _ _ Hi Hlen). by rewrite Hperm.
  - intros before s after Heq. destruct (pi_placed _ _ _ Hi _ _ _ Heq) as (c & rv & Hc & Hd & -> & Hpar).
    exists c. split_and!; try done; [by rewrite <- Hperm|].
    intros parent Hp. destruct (Hpar parent Hp) as (Hin & b & Hb & Hrest).
    split; [done|]. exists b. split; [by rewrite <- Hperm|done].
Qed.

(** * Completeness *)

Lemma pass_length (by_id l : list ChangeRecord) (done done' : list string)
    (steps steps' : list DeliveryStep) :
  pass by_id l done steps = Ok (done', steps') -> exists added, done' = done ++ added.
Proof.
  revert done steps. induction l as [|c l IH]; intros done steps; simpl.
  - intros [= <- <-]. exists []. by rewrite app_nil_r.
  - intros Hp. apply bind_Ok in Hp as ([s|] & _ & Hp); apply IH in Hp as [added ->]; [|by eauto].
    exists (c_change_id c :: added). by rewrite <- app_assoc.
Qed.

(** Every pass that does not end the loop does at least one more Change. *)
Lemma plan_loop_total (fuel : nat) (by_id : list ChangeRecord) (done : list string)
    (steps : list DeliveryStep) :
  (length by_id - length done <= fuel)%nat ->
  exists r, plan_loop fuel by_id done steps = Some r.
Proof.
  revert done steps. induction fuel as [|fuel IH]; intros done steps Hf; simpl.
  - destruct (Nat.ltb_spec (length done) (length by_id)); [lia|]. simpl. eauto.
  - destruct (Nat.ltb_spec (length done) (length by_id)); simpl; [|by eauto].
    destruct (pass by_id by_id done steps) as [[d s]|e] eqn:Hp; [|by eauto].
    apply pass_length in Hp as [added ->]. rewrite length_app.
    destruct (Nat.eqb_spec (length done + length added) (length done)); [by eauto|].
    apply IH. rewrite length_app. lia.
Qed.

(** A set of Changes that can be delivered: each one verified, its parent among
    them in the same scope and of a smaller rank. *)
Record plannable (changes : list ChangeRecord) (rank : string -> nat) : Prop := {
  pl_nodup : NoDup (map c_change_id changes);
  pl_deliverable : forall c, c ∈ changes -> exists revision, deliverable c revision;
  pl_parent : forall c p, c ∈ changes -> parent_of c = Some p ->
    exists b, b ∈ changes /\ c_change_id b = p /\ c_scope b = c_scope c
              /\ (rank p < rank (c_change_id c))%nat;
}.

Lemma visit_total (by_id : list ChangeRecord) (rank : string -> nat) (done : list string)
    (c : ChangeRecord) :
  plannable by_id rank -> c ∈ by_id ->
  exists o, visit by_id done c = Ok o
    /\ (c_change_id c ∉ done -> (forall p, parent_of c = Some p -> p ∈ done) -> o <> None).
Proof.
  intros [Hnd Hdl Hpar] Hc. unfold visit. case_bool_decide as Hd; [by eauto|].
  destruct (Hdl c Hc) as (rv & Hrv).
  assert (Hs : step_for by_id c = Ok (step_of by_id c rv)) by (apply step_for_Ok; eauto).
  destruct (parent_of c) as [p|] eqn:Hp.
  - destruct (Hpar c p Hc Hp) as (b & Hb & <- & Hsc & _).
    rewrite (find_change_elem _ _ Hnd Hb). cbn [ok_or bind].
    rewrite bool_decide_eq_true_2 by done. cbn [ensure bind].
    case_bool_decide as Hpd; simpl.
    + rewrite Hs. simpl. eexists. split; [done|]. done.
    + eexists. split; [done|]. intros _ Hall. by specialize (Hall _ eq_refl).
  - rewrite Hs. simpl. by eexists.
Qed.

Lemma pass_total (by_id l : list ChangeRecord) (rank : string -> nat) (done : list string)
    (steps : list DeliveryStep) :
  plannable by_id rank -> (forall c, c ∈ l -> c ∈ by_id) ->
  exists done' steps', pass by_id l done steps = Ok (done', steps')
    /\ (forall x, x ∈ done -> x ∈ done')
    /\ forall c, c ∈ l -> (forall p, parent_of c = Some p -> p ∈ done) -> c_change_id c ∈ done'.
Proof.
  intros Hpl. revert done steps. induction l as [|c l IH]; intros done steps Hl; simpl.
  - do 2 eexists. split_and!; [done|done|]. intros c Hc. by apply elem_of_nil in Hc.
  - destruct (visit_total by_id rank done c Hpl (Hl c ltac:(by left))) as (o & Hv & Ho).
    rewrite Hv. cbn [bind].
    assert (Hl' : forall c0, c0 ∈ l -> c0 ∈ by_id) by (intros; apply Hl; by right).
    destruct o as [s|].
    + destruct (IH (done ++ [c_change_id c]) (steps ++ [s]) Hl') as (d & st & Hp & Hsub & Hall).
      exists d, st. split_and!; [done|intros x Hx; apply Hsub, elem_of_app; by left|].
      intros c0 [->|Hc0]%elem_of_cons Hpar.
      * apply Hsub, elem_of_app. right. by left.
      * apply Hall; [done|]. intros p Hp0. apply elem_of_app. left. by apply Hpar.
    + destruct (IH done steps Hl') as (d & st & Hp & Hsub & Hall).
      exists d, st. split_and!; [done|done|]. intros c0 [->|Hc0]%elem_of_cons Hpar.
      * destruct (decide (c_change_id c ∈ done)) as [Hin|Hout]; [by apply Hsub|].
        by destruct (Ho Hout Hpar).
      * by apply Hall.
Qed.

(** While something is missing, some missing Change is ready. *)
Lemma ready_exists (by_id : list ChangeRecord) (rank : string -> nat) (done : list string) :
  plannable by_id rank -> (length done < length by_id)%nat ->
  exists c, c ∈ by_id /\ c_change_id c ∉ done /\ forall p, parent_of c = Some p -> p ∈ done.
Proof.
  intros Hpl Hlen.
  assert (Hmissing : exists c, c ∈ by_id /\ c_change_id c ∉ done).
  { destruct (decide (Forall (fun c => c_change_id c ∈ done) by_id)) as [Hall|Hn].
    - exfalso. assert (Hsub : map c_change_id by_id ⊆+ done).
      { apply NoDup_submseteq; [apply Hpl|]. intros x Hx.
        rewrite list_elem_of_In, in_map_iff in Hx. destruct Hx as (c & <- & Hc).
        rewrite Forall_forall in Hall. apply Hall. by apply list_elem_of_In. }
      apply submseteq_length in Hsub. rewrite length_map in Hsub. lia.
    - apply not_Forall_Exists in Hn; [|apply _]. by apply Exists_exists in Hn. }
  destruct Hmissing as (c & Hc & Hout).
  remember (rank (c_change_id c)) as n eqn:Hn. revert c Hc Hout Hn.
  induction (lt_wf n) as [n _ IH]. intros c Hc Hout ->.
  destruct (parent_of c) as [p|] eqn:Hp; [|exists c; split_and!; [done|done|by rewrite Hp]].
  destruct (decide (p ∈ done)) as [Hin|Hpo].
  - exists c. split_and!; [done|done|]. rewrite Hp. by intros ? [= <-].
  - destruct (pl_parent _ _ Hpl c p Hc Hp) as (b & Hb & <- & _ & Hlt).
    exact (IH _ Hlt b Hb Hpo eq_refl).
Qed.

Lemma plan_loop_complete (fuel : nat) (by_id : list ChangeRecord) (rank : string -> nat)
    (done : list string) (steps : list DeliveryStep) :
  plannable by_id rank -> (length by_id - length done <= fuel)%nat ->
  exists steps', plan_loop fuel by_id done steps = Some (Ok steps').
Proof.
  intros Hpl. revert done steps. induction fuel as [|fuel IH]; intros done steps Hf; simpl.
  - destruct (Nat.ltb_spec (length done) (length by_id)); [lia|]. simpl. eauto.
  - destruct (Nat.ltb_spec (length done) (length by_id)) as [Hlt|]; simpl; [|by eauto].
    destruct (pass_total by_id by_id rank done steps Hpl ltac:(done)) as (d & s & Hp & Hsub & Hall).
    rewrite Hp. destruct (ready_exists by_id rank done Hpl Hlt) as (c & Hc & Hout & Hpar).
    specialize (Hall c Hc Hpar). apply pass_length in Hp as [added ->]. rewrite length_app.
    destruct added as [|x added]; [by rewrite app_nil_r in Hall|].
    simpl. destruct (Nat.eqb_spec (length done + S (length added)) (length done)); [lia|].
    apply IH. rewrite length_app. simpl. lia.
Qed.

Lemma plannable_perm (l l' : list ChangeRecord) (rank : string -> nat) :
  l ≡ₚ l' -> plannable l rank -> plannable l' rank.
Proof.
  intros Hp [Hn Hd Hpar]. split.
  - by rewrite <- Hp.
  - intros c Hc. apply Hd. by rewrite Hp.
  - intros c p Hc Hpc. destruct (Hpar c p) as (b & Hb & Hrest); [by rewrite Hp|done|].
    exists b. split; [by rewrite <- Hp|done].
Qed.

(** C33: planning terminates and is complete: as many passes as there are
    Changes always reach an answer, and the answer is a plan whenever the
    Changes are distinct, individually deliverable, and stacked without a
    cycle on parents of the same scope in the set. *)
Theorem plan_complete (changes : list ChangeRecord) :
  (exists r, plan steps_to_vec sha256_hex (length changes) changes = Some r)
  /\ forall rank, plannable changes rank -> (forall steps, steps_to_vec steps <> None) ->
     exists p, plan steps_to_vec sha256_hex (length changes) changes = Some (Ok p).
Proof.
  unfold plan. split.
  - destruct (index_changes [] changes) as [by_id|e] eqn:Hidx; [|by eauto].
    apply index_changes_Ok in Hidx as [Hperm _]; [|constructor]. simpl in Hperm.
    destruct (plan_loop_total (length changes) by_id [] []) as [r Hr].
    { rewrite (Permutation_length Hperm). simpl. lia. }
    rewrite Hr. simpl. eauto.
  - intros rank Hpl Hser. destruct (index_changes_total changes []) as [by_id Hidx]; [apply Hpl|].
    rewrite Hidx. apply index_changes_Ok in Hidx as [Hperm _]; [|constructor]. simpl in Hperm.
    assert (Hpl' : plannable by_id rank) by (by eapply plannable_perm).
    destruct (plan_loop_complete (length changes) by_id rank [] [] Hpl') as [steps Hr].
    { rewrite (Permutation_length Hperm). simpl. lia. }
    rewrite Hr. simpl. destruct (steps_to_vec steps) as [b|] eqn:Hb; [|by destruct (Hser steps)].
    simpl. eauto.
Qed.
End PlanTheorems.

(** * Receipts *)

Section ReceiptTheorems.
Context `{UuidLib} `{!ChangeCodec} `{!ChangeCodecLaws} (write_outcome : Store -> string -> WriteOutcome)
  (scope : ChangeScope) (steps_to_vec : list DeliveryStep -> option string)
  (sha256_hex : string -> string).

Notation read st id := (read_locked scope st id).
Notation accept := (accept_once write_outcome scope steps_to_vec sha256_hex).

(** The operations of this component on a store, each with what its reads saw. *)
Inductive DeliveryOp : Type :=
| OpAccept (seen : ReadAt -> Store) (id : string) (rev : Z) (p : DeliveryPlan) (op : Uuid)
| OpDelegate (id : string) (rev : Z) (op : Uuid) (task : string)
| OpPrepare (seen : Store) (id : string) (rev : Z) (op obs : Uuid)
| OpObserveDelivery (id : string) (rev : Z) (op obs : Uuid) (task : string)
| OpReconcile (seen : ReadAt -> Store) (id : string) (rev : Z) (p : DeliveryPlan) (op : Uuid)
    (observed : DeliveryObservation).

Definition apply_delivery (st : Store) (o : DeliveryOp) : Store :=
  match o with
  | OpAccept seen id rev p op => (accept seen st id rev p op).1
  | OpDelegate id rev op task => (record_delegation write_outcome scope st id rev op task).1
  | OpPrepare seen id rev op obs => (prepare_observation write_outcome scope seen st id rev op obs).1
  | OpObserveDelivery id rev op obs task =>
      (record_observation_task write_outcome scope st id rev op obs task).1
  | OpReconcile seen id rev p op observed =>
      (reconcile write_outcome scope steps_to_vec sha256_hex seen st id rev p op observed).1
  end.

(** Everything processes do to a store: Change operations and delivery ones. *)
Definition run_all (st : Store) (ops : list (ChangeOp + DeliveryOp)) : Store :=
  fold_left (fun st o => match o with
                         | inl o => (apply_op write_outcome scope st o).1
                         | inr o => apply_delivery st o
                         end) ops st.

(** The closures of this component write the delivery field only. *)
Lemma set_delivery_ok (r : ChangeRecord) (d : option DeliveryReceipt) :
  step_ok r (set_delivery r d).
Proof.
  split; try done; [left; by auto|by intros []|]. intros _ _ Hv v Hs. specialize (Hv v Hs). lia.
Qed.

Ltac delivery_step :=
  intros;
  repeat match goal with
  | H : bind _ _ = Ok _ |- _ => apply bind_Ok in H as (? & ? & H)
  | H : Ok _ = Ok _ |- _ => injection H as <-
  | H : (if ?b then _ else _) = Ok _ |- _ => destruct b
  | H : match ?o with _ => _ end = Ok _ |- _ => destruct o
  end; first [apply set_delivery_ok | apply step_ok_refl].

Lemma update_delivery_effect (st : Store) (id : string) (rev : Z)
    (f : ChangeRecord -> result string ChangeRecord) :
  (forall r r', f r = Ok r' -> step_ok r r') ->
  exists res, effect scope st (update write_outcome scope st id rev f).1 res.
Proof.
  intros Hf. exists (update write_outcome scope st id rev f).2.
  apply (update_effect write_outcome scope _ _ id rev f); [done|by destruct (update _ _ _ _ _ _)].
Qed.

Lemma unchanged_effect (st : Store) : exists res, effect scope st st res.
Proof. exists (Err EmptyString). apply effect_err. Qed.

Lemma apply_delivery_effect (st : Store) (o : DeliveryOp) :
  exists res, effect scope st (apply_delivery st o) res.
Proof.
  destruct o as [seen id rev p op|id rev op task|seen id rev op obs|id rev op obs task
    |seen id rev p op observed]; simpl.
  - unfold accept_once. destruct (accept_plan _ _ _ _ _ _ _ _) as [[rc []]|e];
      [|apply unchanged_effect..].
    rewrite (surjective_pairing (update _ _ _ _ _ _)). apply update_delivery_effect.
    unfold accept_step. delivery_step.
  - unfold record_delegation. destruct (label task); [|apply unchanged_effect].
    apply update_delivery_effect. unfold record_delegation_step. delivery_step.
  - unfold prepare_observation. destruct (bind _ _) as [[x|]|e]; [apply unchanged_effect| |apply unchanged_effect].
    apply update_delivery_effect. unfold prepare_observation_step. delivery_step.
  - unfold record_observation_task. destruct (ok_or _ _); [|apply unchanged_effect].
    apply update_delivery_effect. unfold record_observation_task_step. delivery_step.
  - unfold reconcile. destruct (reconcile_reads _ _ _ _ _ _) as [[step ppr]|e];
      [|apply unchanged_effect].
    apply update_delivery_effect. unfold reconcile_step. cbv zeta. delivery_step.
Qed.

(** Deliveries keep the store invariant: any mixture of Change operations and
    delivery operations of any processes, each delivery operation acting on
    whatever its reads saw, takes a well-formed store to a well-formed one. *)
Theorem delivery_store_invariant (st : Store) (ops : list (ChangeOp + DeliveryOp)) :
  store_ok scope st -> store_ok scope (run_all st ops).
Proof.
  unfold run_all. revert st. induction ops as [|[o|o] ops IH]; intros st Hst; simpl; [done|..].
  - apply IH. eapply effect_store_ok; [apply apply_op_effect|done].
  - apply IH. destruct (apply_delivery_effect st o) as [res Hres]. by eapply effect_store_ok.
Qed.

(** A claim is an update of a Change that showed no delivery at its revision. *)
Lemma accept_claim (seen : ReadAt -> Store) (st st' : Store) (id : string) (rev : Z) (p : DeliveryPlan) (op : Uuid)
    (rc : DeliveryReceipt) :
  accept seen st id rev p op = (st', Ok (rc, true)) ->
  rc = mkReceipt op (dp_fingerprint p) Accepted None None None None None
  /\ (exists r0, read (seen Current) id = Ok r0 /\ c_delivery r0 = None /\ c_revision r0 = rev)
  /\ exists r', update write_outcome scope st id rev (accept_step rc) = (st', Ok r').
Proof.
  unfold accept_once. destruct (accept_plan _ _ _ _ _ _ _ _) as [[rc' []]|e] eqn:E; [|done|done].
  intros Hu. destruct (update _ _ _ _ _ _) as [s [r'|e]] eqn:Hup; simpl in Hu; [|done].
  injection Hu as -> ->. unfold accept_plan in E.
  apply bind_Ok in E as ([] & _ & E). apply bind_Ok in E as (stp & _ & E).
  apply bind_Ok in E as ([] & _ & E). apply bind_Ok in E as (cur & Hcur & E).
  apply bind_Ok in E as ([] & _ & E). destruct (c_delivery cur) as [d|] eqn:Hd.
  - apply bind_Ok in E as ([] & _ & E). done.
  - apply bind_Ok in E as ([] & Hrev & [= <-]). apply ensure_Ok, Z.eqb_eq in Hrev.
    split_and!; [done|by exists cur|by exists r'].
Qed.

(** A successful update at [rev] was of a record at [rev], and what it stores is
    what the closure made, one revision on if it changed anything. *)
Lemma update_stored (st st' : Store) (id : string) (rev : Z)
    (f : ChangeRecord -> result string ChangeRecord) (r' : ChangeRecord) :
  update write_outcome scope st id rev f = (st', Ok r') ->
  exists r r1, read st id = Ok r /\ c_revision r = rev /\ f r = Ok r1 /\ read st' id = Ok r'
    /\ (r1 = r /\ r' = r /\ st' = st \/ r' = set_revision r1 (c_revision r1 + 1)).
Proof.
  unfold update, commit_plan. intros Hu.
  destruct (update_plan scope st id rev f) as [[r2 ch]|e] eqn:E; [|done].
  apply update_plan_Ok in E as (r & r1 & Hr & Hrev & Hf & Hi & Hsc & Hv & E). exists r, r1.
  destruct ch.
  - destruct E as [-> Hmax]. unfold write_return, write_locked in Hu.
    destruct (bind (label _) _) as [b|e] eqn:Eb; [|done].
    apply bind_Ok in Eb as ([] & Hl & Eb). apply bind_Ok in Eb as (b' & Hb & Eb).
    apply bind_Ok in Eb as ([] & Hz & [= ->]). apply ok_or_Ok in Hb. apply ensure_Ok, Z.leb_le in Hz.
    destruct (write_outcome _ _); simpl in Hu; [|done|done]. injection Hu as <- <-.
    split_and!; try done; [|by right].
    assert (Hput := read_put scope st id (set_revision r1 (c_revision r1 + 1)) b).
    rewrite bool_decide_eq_true_2 in Hput by done. apply Hput. by split_and!.
  - destruct E as [-> ->]. injection Hu as <- <-. split_and!; try done. by left.
Qed.

(** * Histories

    The stores processes made one after the other, the newest first.  What the reads
    of an operation see are stores of the history before it; they need not be the
    newest, nor the same store twice. *)

Definition op_saw (h : list Store) (o : DeliveryOp) : Prop :=
  match o with
  | OpAccept seen _ _ _ _ | OpReconcile seen _ _ _ _ _ => forall at_, seen at_ ∈ h
  | OpPrepare seen _ _ _ _ => seen ∈ h
  | _ => True
  end.

Inductive history : list Store -> Prop :=
| history_start (st : Store) : history [st]
| history_change (st : Store) (h : list Store) (o : ChangeOp) :
    history (st :: h) -> history ((apply_op write_outcome scope st o).1 :: st :: h)
| history_delivery (st : Store) (h : list Store) (o : DeliveryOp) :
    history (st :: h) -> op_saw (st :: h) o -> history (apply_delivery st o :: st :: h).

(** How a record may look later: not changed, or at a later revision, with its
    delivery still that of the same operation and plan. *)
Definition same_delivery (d d' : DeliveryReceipt) : Prop :=
  dr_operation_id d' = dr_operation_id d /\ dr_plan_fingerprint d' = dr_plan_fingerprint d.

Definition later (r r' : ChangeRecord) : Prop :=
  r' = r
  \/ (c_revision r < c_revision r'
      /\ forall d, c_delivery r = Some d -> exists d', c_delivery r' = Some d' /\ same_delivery d d').

Lemma later_trans (r1 r2 r3 : ChangeRecord) : later r1 r2 -> later r2 r3 -> later r1 r3.
Proof.
  intros [->|[Hrev Hd]] [->|[Hrev' Hd']]; [by left|right; by split|right; by split|right].
  split; [lia|]. intros d Hr. destruct (Hd d Hr) as (d1 & Hr1 & He & Hp).
  destruct (Hd' d1 Hr1) as (d2 & Hr2 & He2 & Hp2). exists d2. split; [done|].
  unfold same_delivery. by rewrite He2, Hp2.
Qed.

Lemma next_later (r r' : ChangeRecord) : next_or_same r r' -> later r r'.
Proof.
  intros [->|[Hrev Hd]]; [by left|right]. split; [lia|]. intros d Hr. exists d. by rewrite Hd.
Qed.

(** A closure that keeps the receipt of the record it is given. *)
Definition keeps_receipt (r : ChangeRecord) (f : ChangeRecord -> result string ChangeRecord) : Prop :=
  forall r1, f r = Ok r1 -> c_revision r1 = c_revision r
    /\ forall d, c_delivery r = Some d -> exists d', c_delivery r1 = Some d' /\ same_delivery d d'.

Lemma update_later (st : Store) (id : string) (rev : Z)
    (f : ChangeRecord -> result string ChangeRecord) (i : string) (r : ChangeRecord) :
  read st i = Ok r -> (i = id -> c_revision r = rev -> keeps_receipt r f) ->
  exists r', read (update write_outcome scope st id rev f).1 i = Ok r' /\ later r r'.
Proof.
  intros Hr Hf. destruct (update_reads write_outcome scope st id rev f i r Hr) as (r' & Hr' & Hn).
  exists r'. split; [done|]. destruct Hn as [->|(Hi & Hrev & r1 & Hf1 & ->)]; [by left|right].
  destruct (Hf Hi Hrev r1 Hf1) as [Hk Hd]. simpl. split; [lia|exact Hd].
Qed.

Ltac receipt_step :=
  intros ?r1 Hf;
  repeat match goal with
  | H : bind _ _ = Ok _ |- _ => apply bind_Ok in H as (? & ? & H)
  | H : Ok _ = Ok _ |- _ => injection H as <-
  | H : (if ?b then _ else _) = Ok _ |- _ => destruct b
  | H : match ?o with _ => _ end = Ok _ |- _ => destruct o
  end; (split; [done|]); intros ?d ?Hd;
  repeat match goal with
  | H : ok_or _ _ = Ok _ |- _ => apply ok_or_Ok in H
  end; eexists; (split; [done|]); simplify_eq; by split.

Lemma delegation_keeps (op : Uuid) (task : string) (r : ChangeRecord) :
  keeps_receipt r (record_delegation_step op task).
Proof. unfold record_delegation_step. receipt_step. Qed.

Lemma prepare_keeps (op obs : Uuid) (r : ChangeRecord) :
  keeps_receipt r (prepare_observation_step op obs).
Proof. unfold prepare_observation_step. receipt_step. Qed.

Lemma observation_keeps (op obs : Uuid) (task : string) (r : ChangeRecord) :
  keeps_receipt r (record_observation_task_step op obs task).
Proof. unfold record_observation_task_step. receipt_step. Qed.

Lemma reconcile_keeps (p : DeliveryPlan) (op : Uuid) (step : DeliveryStep) (parent_pr : option Z)
    (observed : DeliveryObservation) (r : ChangeRecord) :
  keeps_receipt r (reconcile_step p op step parent_pr observed).
Proof. unfold reconcile_step. cbv zeta. destruct (do_branch_revision observed); receipt_step. Qed.

(** One delivery operation on what is there, when everything it saw is older. *)
Lemma apply_delivery_later (st : Store) (o : DeliveryOp) (i : string) (r : ChangeRecord) :
  (forall seen id rev p op r0, o = OpAccept seen id rev p op -> read (seen Current) id = Ok r0 ->
     exists r1, read st id = Ok r1 /\ later r0 r1) ->
  read st i = Ok r -> exists r', read (apply_delivery st o) i = Ok r' /\ later r r'.
Proof.
  intros Hold Hr. assert (Hsame : exists r', read st i = Ok r' /\ later r r') by (exists r; split; [done|by left]).
  destruct o as [seen id rev p op|id rev op task|seen id rev op obs|id rev op obs task
    |seen id rev p op observed]; simpl.
  - unfold accept_once. destruct (accept_plan _ _ _ _ _ _ _ _) as [[rc []]|e] eqn:E; [|exact Hsame..].
    rewrite (surjective_pairing (update _ _ _ _ _ _)). apply update_later; [done|].
    intros -> Hrev r1 [= <-]. split; [done|]. intros d Hd. exfalso. unfold accept_plan in E.
    apply bind_Ok in E as ([] & _ & E). apply bind_Ok in E as (stp & _ & E).
    apply bind_Ok in E as ([] & _ & E). apply bind_Ok in E as (cur & Hcur & E).
    apply bind_Ok in E as ([] & _ & E).
    destruct (Hold _ _ _ _ _ _ eq_refl Hcur) as (r1 & Hr1 & Hl). rewrite Hr in Hr1. injection Hr1 as <-.
    destruct (c_delivery cur) as [d0|] eqn:Hd0; [by apply bind_Ok in E as ([] & _ & ?)|].
    apply bind_Ok in E as ([] & Hrv & _). apply ensure_Ok, Z.eqb_eq in Hrv.
    destruct Hl as [->|[Hlt _]]; [congruence|lia].
  - unfold record_delegation. destruct (label task); [|exact Hsame].
    apply update_later; [done|]. intros _ _. apply delegation_keeps.
  - unfold prepare_observation. destruct (bind _ _) as [[x|]|e]; [exact Hsame| |exact Hsame].
    apply update_later; [done|]. intros _ _. apply prepare_keeps.
  - unfold record_observation_task. destruct (ok_or _ _); [|exact Hsame].
    apply update_later; [done|]. intros _ _. apply observation_keeps.
  - unfold reconcile. destruct (reconcile_reads _ _ _ _ _ _) as [[step ppr]|e]; [|exact Hsame].
    apply update_later; [done|]. intros _ _. apply reconcile_keeps.
Qed.

(** Whatever a store of the history shows, the newest shows it or something later. *)
Lemma history_later (h : list Store) (st : Store) :
  history (st :: h) -> forall old i r, old ∈ st :: h -> read old i = Ok r ->
  exists r', read st i = Ok r' /\ later r r'.
Proof.
  remember (st :: h) as all eqn:Hall. intros Hh. revert st h Hall.
  induction Hh as [st0|st0 h0 o Hh IH|st0 h0 o Hh IH Hsaw]; intros st h [= <- <-] old i r Hin Hr.
  - apply list_elem_of_singleton in Hin as ->. exists r. split; [done|by left].
  - apply elem_of_cons in Hin as [->|Hin]; [exists r; split; [done|by left]|].
    destruct (IH _ _ eq_refl old i r Hin Hr) as (r1 & Hr1 & Hl).
    destruct (apply_op_next write_outcome scope st0 o i r1 Hr1) as (r2 & Hr2 & Hn).
    exists r2. split; [done|]. eapply later_trans; [exact Hl|by apply next_later].
  - apply elem_of_cons in Hin as [->|Hin]; [exists r; split; [done|by left]|].
    destruct (IH _ _ eq_refl old i r Hin Hr) as (r1 & Hr1 & Hl).
    destruct (apply_delivery_later st0 o i r1) as (r2 & Hr2 & Hl2); [|done|].
    + intros seen id rev p op r0 -> Hr0. by apply (IH _ _ eq_refl (seen Current)).
    + exists r2. split; [done|]. by eapply later_trans.
Qed.

(** A store further down a history is the newest of a history of its own. *)
Lemma history_suffix (later_ h : list Store) (st : Store) :
  history (later_ ++ st :: h) -> history (st :: h).
Proof.
  induction later_ as [|x l IH]; [done|]. intros Hh. apply IH.
  inversion Hh as [? He|? ? ? Hh' He|? ? ? Hh' _ He]; [by destruct l|..]; congruence.
Qed.

(** C5: a delivery intent is claimed once, whatever Change and delivery operations of any
    processes run before, in between and after: once a caller has claimed the intent
    of a Change, no other caller claims it, wherever in the history its reads
    happened; and a caller that gets an answer gets the receipt of the very operation
    and plan that were claimed, unclaimed, and changes nothing. *)
Theorem accept_claims_once (h h2 : list Store) (seen seen2 : ReadAt -> Store)
    (st st1 st2 st3 : Store) (id : string)
    (rev rev2 : Z) (p p2 : DeliveryPlan) (op op2 : Uuid) (rc rc2 : DeliveryReceipt) (b : bool) :
  history (st :: h) -> (forall at_, seen at_ ∈ st :: h) ->
  accept seen st id rev p op = (st1, Ok (rc, true)) ->
  history (st2 :: h2) -> (exists between, st2 :: h2 = between ++ st1 :: st :: h) ->
  (forall at_, seen2 at_ ∈ st2 :: h2) ->
  accept seen2 st2 id rev2 p2 op2 = (st3, Ok (rc2, b)) ->
  b = false /\ st3 = st2 /\ op2 = op /\ dp_fingerprint p2 = dp_fingerprint p
  /\ dr_operation_id rc2 = op /\ dr_plan_fingerprint rc2 = dp_fingerprint p.
Proof.
  intros Hh Hseen (Hrc & (r0 & Hr0 & Hnone & Hrev) & r' & Hu)%accept_claim Hh2 [between Hb] Hseen2 Ha.
  apply update_stored in Hu as (r & r1 & Hr & Hrv & Hf & Hst1 & Hor). injection Hf as <-.
  destruct (history_later _ _ Hh _ _ _ (Hseen Current) Hr0) as (r2 & Hr2 & Hl).
  rewrite Hr in Hr2. injection Hr2 as <-. destruct Hl as [->|[Hlt _]]; [|lia].
  assert (Hclaimed : c_delivery r' = Some rc /\ c_revision r' = rev + 1).
  { destruct Hor as [(Heq & _)| ->]; [|simpl; split; [done|lia]].
    exfalso. apply (f_equal c_delivery) in Heq. simpl in Heq. congruence. }
  clear Hor. destruct Hclaimed as [Hdel Hrev'].
  assert (Hin1 : st1 ∈ st2 :: h2) by (rewrite Hb, elem_of_app, elem_of_cons; auto).
  (* What the second caller's read of the Change may have seen. *)
  assert (Hcur : forall cur, read (seen2 Current) id = Ok cur ->
    (c_delivery cur = None /\ c_revision cur <= rev)
    \/ exists d, c_delivery cur = Some d /\ same_delivery rc d).
  { intros cur Hcur. specialize (Hseen2 Current). rewrite Hb, elem_of_app, elem_of_cons in Hseen2.
    assert (Hbefore : seen2 Current ∈ st :: h -> c_delivery cur = None /\ c_revision cur <= rev).
    { intros Hin. destruct (history_later _ _ Hh _ _ _ Hin Hcur) as (r3 & Hr3 & Hl3).
      rewrite Hr in Hr3. injection Hr3 as <-. destruct Hl3 as [->|[Hlt Hk]]; [split; [done|lia]|].
      destruct (c_delivery cur) as [d|] eqn:Hd; [|split; [done|lia]].
      destruct (Hk d eq_refl) as (d' & Hd' & _). congruence. }
    assert (Hafter : later r' cur -> exists d, c_delivery cur = Some d /\ same_delivery rc d).
    { intros [->|[_ Hk]]; [exists rc; by split|]. destruct (Hk rc Hdel) as (d & Hd & Hs). by exists d. }
    destruct Hseen2 as [Hin|[Heq|Hin]]; [right|right|left; by apply Hbefore].
    - apply list_elem_of_split in Hin as (l1 & l2 & ->). rewrite <- app_assoc in Hb. simpl in Hb.
      assert (Hmid : history (seen2 Current :: l2 ++ st1 :: st :: h))
        by (apply (history_suffix l1); by rewrite <- Hb).
      destruct (history_later _ _ Hmid st1 id r') as (r3 & Hr3 & Hl3);
        [rewrite elem_of_cons, elem_of_app, elem_of_cons; auto|done|].
      rewrite Hcur in Hr3. injection Hr3 as <-. by apply Hafter.
    - rewrite Heq, Hst1 in Hcur. injection Hcur as <-. apply Hafter. by left. }
  destruct b.
  { exfalso. apply accept_claim in Ha as (_ & (r3 & Hr3 & Hn3 & Hrev3) & r4 & Hu).
    destruct (Hcur _ Hr3) as [[_ Hle]|(d & Hd & _)]; [|congruence].
    apply update_stored in Hu as (r5 & _ & Hr5 & Hrev5 & _).
    destruct (history_later _ _ Hh2 _ _ _ Hin1 Hst1) as (r6 & Hr6 & Hl6).
    rewrite Hr5 in Hr6. injection Hr6 as <-. destruct Hl6 as [->|[Hlt _]]; lia. }
  unfold accept_once in Ha.
  destruct (accept_plan _ _ _ _ _ _ _ _) as [[rc' []]|e] eqn:E; [|injection Ha as <- ->|done].
  { destruct (update _ _ _ _ _ _) as [s [x|e]]; by simpl in Ha. }
  unfold accept_plan in E.
  apply bind_Ok in E as ([] & _ & E). apply bind_Ok in E as (stp & _ & E).
  apply bind_Ok in E as ([] & _ & E). apply bind_Ok in E as (cur & Hcur' & E).
  apply bind_Ok in E as ([] & _ & E).
  destruct (c_delivery cur) as [d|] eqn:Hd; [|by apply bind_Ok in E as ([] & _ & ?)].
  apply bind_Ok in E as ([] & Hop & [= <-]).
  rewrite ensure_Ok, andb_true_iff, bool_decide_eq_true, String.eqb_eq in Hop. destruct Hop as [Hop Hfp].
  destruct (Hcur _ Hcur') as [[Hn _]|(d' & Hd' & Ho & Hp)]; [congruence|].
  rewrite Hd in Hd'. injection Hd' as <-. rewrite Hrc in Ho, Hp. simpl in Ho, Hp.
  split_and!; congruence.
Qed.

(** Whether a pull request is the evidence a step asks for. *)
Record evidence (step : DeliveryStep) (parent_pr : option Z) (observed : DeliveryObservation)
    (pr : PullRequestReceipt) : Prop := {
  ev_number : 0 < pr_number pr;
  ev_head : pr_head_ref pr = ds_head_ref step;
  ev_base : pr_base_ref pr = ds_base_ref step;
  ev_revision : pr_revision pr = ds_revision step;
  ev_url : starts_with "https://" (pr_url pr) = true;
  ev_stack : match ds_method step with
             | SinglePr => pr_stack_parent_pr_number pr = None /\ pr_stack_linked pr = false
             | StackedPr => pr_stack_parent_pr_number pr = parent_pr /\ pr_stack_linked pr = true
             end;
  ev_branch : do_branch_revision observed = Some (ds_revision step);
}.

Lemma pull_request_matches_true (step : DeliveryStep) (parent_pr : option Z)
    (observed : DeliveryObservation) (pr : PullRequestReceipt) :
  pull_request_matches step parent_pr observed pr = true <-> evidence step parent_pr observed pr.
Proof.
  unfold pull_request_matches.
  rewrite !andb_true_iff, Z.ltb_lt, !String.eqb_eq, bool_decide_eq_true.
  assert (Hstack : match ds_method step with
      | SinglePr => is_none (pr_stack_parent_pr_number pr) && negb (pr_stack_linked pr)
      | StackedPr => bool_decide (pr_stack_parent_pr_number pr = parent_pr) && pr_stack_linked pr
      end = true <->
    match ds_method step with
    | SinglePr => pr_stack_parent_pr_number pr = None /\ pr_stack_linked pr = false
    | StackedPr => pr_stack_parent_pr_number pr = parent_pr /\ pr_stack_linked pr = true
    end).
  { destruct (ds_method step); rewrite andb_true_iff, ?is_none_true, ?negb_true_iff,
      ?bool_decide_eq_true; done. }
  rewrite Hstack. split; [intros [[[[[[? ?] ?] ?] ?] ?] ?]; by split|by intros []].
Qed.

(** C6: a delivery is completed only on matching remote evidence: when
    [reconcile] reports a completed receipt, the plan was fresh, it has a step
    for the Change, and the observation holds a pull request of exactly that
    step's head, base, revision and stacking, on a branch at that revision;
    the receipt carries that pull request and belongs to the operation and the
    plan asked about. *)
Theorem reconcile_completed (seen : ReadAt -> Store) (st st' : Store) (id : string) (rev : Z) (p : DeliveryPlan)
    (op : Uuid) (observed : DeliveryObservation) (rc : DeliveryReceipt) :
  reconcile write_outcome scope steps_to_vec sha256_hex seen st id rev p op observed = (st', Ok rc) ->
  dr_state rc = DeliveryCompleted ->
  validate_plan_fresh scope steps_to_vec sha256_hex seen p = Ok tt
  /\ dr_operation_id rc = op /\ dr_plan_fingerprint rc = dp_fingerprint p
  /\ exists step parent_pr pr, find_step id p = Some step
     /\ do_pull_request observed = Some pr /\ evidence step parent_pr observed pr
     /\ dr_pull_request rc = Some pr /\ dr_branch_revision rc = Some (ds_revision step)
     /\ forall parent, ds_base_change_id step = Some parent ->
          exists b d q, read (seen StackParent) parent = Ok b /\ c_delivery b = Some d
            /\ dr_pull_request d = Some q /\ parent_pr = Some (pr_number q).
Proof.
  intros Hrec Hdone. unfold reconcile in Hrec.
  destruct (reconcile_reads _ _ _ _ _ _) as [[step parent_pr]|e] eqn:E; [|done].
  unfold reconcile_reads in E. apply bind_Ok in E as ([] & Hfresh & E).
  apply bind_Ok in E as (stp & Hstp & E). apply ok_or_Ok in Hstp.
  assert (Hstep : stp = step /\ forall parent, ds_base_change_id step = Some parent ->
    exists b d q, read (seen StackParent) parent = Ok b /\ c_delivery b = Some d
      /\ dr_pull_request d = Some q /\ parent_pr = Some (pr_number q)).
  { destruct (ds_base_change_id stp) as [parent|] eqn:Hbase.
    - apply bind_Ok in E as (bs & Hb & E). apply bind_Ok in E as (q & Hq & [= <- <-]).
      split; [done|]. intros ? Hp. rewrite Hbase in Hp. injection Hp as <-.
      apply ok_or_Ok in Hq. destruct (c_delivery bs) as [d|] eqn:Hd; [|done]. simpl in Hq. eauto 8.
    - injection E as <- <-. split; [done|]. intros parent Hp. congruence. }
  destruct Hstep as [-> Hparent]. split; [done|].
  unfold return_receipt in Hrec.
  destruct (update _ _ _ _ _ _) as [s [r'|e]] eqn:Hu; simpl in Hrec; [|done].
  injection Hrec as -> Hrc. apply ok_or_Ok in Hrc.
  apply update_stored in Hu as (r & r1 & _ & _ & Hf & _ & Hor).
  assert (Hd1 : c_delivery r1 = Some rc) by (destruct Hor as [(-> & -> & _)| ->]; done).
  clear Hor. unfold reconcile_step in Hf.
  apply bind_Ok in Hf as (d & Hd & Hf). apply bind_Ok in Hf as ([] & Hop & Hf).
  apply bind_Ok in Hf as ([] & _ & Hf).
  rewrite ensure_Ok, andb_true_iff, bool_decide_eq_true, String.eqb_eq in Hop.
  destruct Hop as [Hop Hfp]. cbv zeta in Hf.
  destruct (is_some_and _ (do_branch_revision observed)) eqn:Hbr.
  { injection Hf as <-. simpl in Hd1. injection Hd1 as <-. done. }
  destruct (do_pull_request observed) as [pr|] eqn:Hpr.
  2: { injection Hf as <-. simpl in Hd1. injection Hd1 as <-. done. }
  destruct (pull_request_matches step parent_pr observed pr) eqn:Hm.
  2: { injection Hf as <-. simpl in Hd1. injection Hd1 as <-. done. }
  apply pull_request_matches_true in Hm. pose proof (ev_branch _ _ _ _ Hm) as Hb.
  rewrite Hb in Hf. apply bind_Ok in Hf as ([] & _ & [= <-]). simpl in Hd1. injection Hd1 as <-.
  simpl. split_and!; [done|done|]. exists step, parent_pr, pr. by split_and!.
Qed.
End ReceiptTheorems.

Module DeliveryWitness.
Import JsonModel ChangeWitness.

(** Two verified Changes at record revision 9, the second stacked on the first. *)
Definition verified0 (id task : string) (base : ChangeBase) : ChangeRecord :=
  mkChange 1 id scope0 task None None base (Some ("ws-" +:+ id)) (Some uuid0) (Some uuid0) false []
    None None 0 None (Some ("rev-" +:+ id)) None 4
    (Some (mkVerification ("rev-" +:+ id) 8 4 true)) None 9.
Definition a0 : ChangeRecord := verified0 "a" "ta" OriginMain.
Definition b0 : ChangeRecord := verified0 "b" "tb" (BaseChange "a").

(** Injective enough serializations: the ids and revisions of the steps. *)
Definition steps_text (l : list DeliveryStep) : option string :=
  Some (fold_right (fun s acc => ds_change_id s +:+ "@" +:+ ds_revision s +:+ ";" +:+ acc) EmptyString l).
Definition digest (s : string) : string := "sha256:" +:+ s.

Definition step_a : DeliveryStep :=
  mkStep "a" "rev-a" "temote/a" "main" None None SinglePr.
Definition step_b : DeliveryStep :=
  mkStep "b" "rev-b" "temote/b" "temote/a" (Some "a"%string) (Some "rev-a"%string) StackedPr.
Definition plan_ab : DeliveryPlan := mkPlan [step_a; step_b] "sha256:a@rev-a;b@rev-b;".
Definition plan_a : DeliveryPlan := mkPlan [step_a] "sha256:a@rev-a;".

(** The steps come in stacking order, whatever the order of the request. *)
Lemma plan_run : plan steps_text digest 2 [b0; a0] = Some (Ok plan_ab).
Proof. vm_compute. reflexivity. Qed.

Lemma plan_sound_witness :
  exists c, c ∈ [b0; a0] /\ ds_change_id step_b = c_change_id c /\ deliverable c "rev-b"
  /\ "a"%string ∈ map ds_change_id [step_a].
Proof.
  destruct (proj2 (proj2 (plan_sound steps_text digest 2 [b0; a0] plan_ab plan_run))
              [step_a] step_b [] eq_refl) as (c & Hc & Hid & Hd & Hbase & Hpar).
  exists c. refine (conj Hc (conj Hid (conj Hd _))). exact (proj1 (Hpar _ (eq_sym Hbase))).
Defined.

Lemma deliverable0 (id task : string) (base : ChangeBase) :
  deliverable (verified0 id task base) ("rev-" +:+ id).
Proof. split; simpl; try done. eexists. split_and!; try done; simpl; lia. Qed.

Lemma plannable0 : plannable [b0; a0] (fun id => if String.eqb id "b" then 1%nat else 0%nat).
Proof.
  split.
  - vm_compute. repeat constructor; rewrite list_elem_of_In; simpl; intuition discriminate.
  - intros c [<-|[<-|[]]]%list_elem_of_In; eexists; apply deliverable0.
  - intros c p [<-|[<-|[]]]%list_elem_of_In Hp; [|discriminate Hp]. injection Hp as <-.
    exists a0. split_and!; [by right; left|done|done|]. simpl. lia.
Qed.

Lemma plan_complete_witness : exists p, plan steps_text digest 2 [b0; a0] = Some (Ok p).
Proof.
  apply (proj2 (plan_complete steps_text digest [b0; a0]) _ plannable0). intros steps. discriminate.
Defined.

(** The life of a Change: created, allocated, bound, observed, verified; then claimed,
    delegated, observed remotely and completed. *)
Definition receipt0 : DeliveryReceipt :=
  mkReceipt uuid0 "sha256:a@rev-a;" Accepted None None None None None.
Definition pr0 : PullRequestReceipt :=
  mkPullRequest 7 "temote/a" "main" "rev-a" "https://example.test/pull/7" None false.
Definition observed0 : DeliveryObservation := mkObservation (Some "rev-a"%string) (Some pr0).
Definition born : ChangeRecord := new_record scope0 "a" "ta" None None OriginMain.
Definition bind_step (r : ChangeRecord) : result string ChangeRecord :=
  Ok (set_allocation_pending
        (set_provisioning_operation_id (set_workspace_id r (Some "ws-a"%string)) (Some uuid0)) false).

Definition life : list ChangeRecord :=
  born :: trail born
    [allocation_intent_step uuid0; bind_step; observe_task_revision_step 4;
     observe_snapshot_step uuid0 "logical" "rev-a"; verify_step "rev-a" true;
     accept_step receipt0; record_delegation_step uuid0 "task-1";
     prepare_observation_step uuid0 uuid1; record_observation_task_step uuid0 uuid1 one_uuid;
     reconcile_step plan_a uuid0 step_a None observed0].

#[local] Instance life_codec : ChangeCodec := table_codec_of life.
#[local] Instance life_codec_laws : ChangeCodecLaws := table_codec_of_laws life ltac:(vm_compute; lia).

(** The record after its [n]-th step, and the store that holds it. *)
Definition record_at (n : nat) : ChangeRecord := nth (2 * n) life born.
Definition store_at (n : nat) : Store := {["a"%string := index_bytes (2 * n)]}.
Definition saw (n : nat) : ReadAt -> Store := fun _ => store_at n.

Definition life_ops : list (ChangeOp + DeliveryOp) :=
  [inl (OpCreate "a" "ta" None None OriginMain); inl (OpAllocate "a" 1 uuid0);
   inl (OpBind "a" 2 uuid0 "ws-a"); inl (OpObserveTask "a" 3 4);
   inl (OpObserveSnapshot "a" 4 uuid0 "logical" "rev-a"); inl (OpVerify "a" 5 "rev-a" true);
   inr (OpAccept (saw 5) "a" 6 plan_a uuid0); inr (OpDelegate "a" 7 uuid0 "task-1");
   inr (OpPrepare (store_at 7) "a" 8 uuid0 uuid1);
   inr (OpObserveDelivery "a" 9 uuid0 uuid1 one_uuid);
   inr (OpReconcile (saw 9) "a" 10 plan_a uuid0 observed0)].

(** The whole run, from the empty store to a completed delivery. *)
Lemma life_run :
  run_all disk_ok scope0 steps_text digest ∅ life_ops = store_at 10
  /\ (dr_state <$> c_delivery (record_at 10)) = Some DeliveryCompleted
  /\ c_revision (record_at 10) = 11.
Proof. split_and!; vm_compute; reflexivity. Qed.

Lemma life_read : read_locked scope0 (store_at 10) "a" = Ok (record_at 10).
Proof. vm_compute. reflexivity. Qed.

Lemma delivery_store_invariant_witness :
  store_ok scope0 (store_at 10) /\ read_locked scope0 (store_at 10) "a" = Ok (record_at 10).
Proof.
  split; [|exact life_read]. rewrite <- (proj1 life_run).
  exact (delivery_store_invariant disk_ok scope0 steps_text digest ∅ life_ops (store_ok_empty scope0)).
Defined.

(** One caller claims; while its task is delegated a second one asks, with the same
    operation, from what it read then. *)
Lemma claim_run :
  accept_once disk_ok scope0 steps_text digest (saw 5) (store_at 5) "a" 6 plan_a uuid0
  = (store_at 6, Ok (receipt0, true)).
Proof. vm_compute. reflexivity. Qed.

Definition delegated0 : DeliveryReceipt := set_receipt_state
  (mkReceipt uuid0 "sha256:a@rev-a;" Accepted (Some "task-1"%string) None None None None) Delegated.

Lemma retry_run :
  accept_once disk_ok scope0 steps_text digest (saw 7) (store_at 7) "a" 6 plan_a uuid0
  = (store_at 7, Ok (delegated0, false)).
Proof. vm_compute. reflexivity. Qed.

Lemma delegate_history : history disk_ok scope0 steps_text digest [store_at 7; store_at 6; store_at 5].
Proof.
  replace (store_at 7) with (apply_delivery disk_ok scope0 steps_text digest (store_at 6)
    (OpDelegate "a" 7 uuid0 "task-1")) by (vm_compute; reflexivity).
  apply history_delivery; [|exact I].
  replace (store_at 6) with (apply_delivery disk_ok scope0 steps_text digest (store_at 5)
    (OpAccept (saw 5) "a" 6 plan_a uuid0)) by (vm_compute; reflexivity).
  apply history_delivery; [apply history_start|]. intros at_. apply list_elem_of_singleton. reflexivity.
Qed.

Lemma accept_claims_once_witness :
  dr_operation_id delegated0 = uuid0 /\ dr_plan_fingerprint delegated0 = dp_fingerprint plan_a
  /\ accept_once disk_ok scope0 steps_text digest (saw 5) (store_at 7) "a" 6 plan_a uuid0
     = (store_at 7, Err revision_conflict).
Proof.
  destruct (accept_claims_once disk_ok scope0 steps_text digest [] [store_at 6; store_at 5] (saw 5) (saw 7)
    (store_at 5) (store_at 6) (store_at 7) (store_at 7) "a" 6 6 plan_a plan_a uuid0 uuid0 receipt0
    delegated0 false (history_start disk_ok scope0 steps_text digest (store_at 5))
    (fun at_ => proj2 (list_elem_of_singleton _ _) eq_refl) claim_run delegate_history
    (ex_intro _ [store_at 7] eq_refl) (fun at_ => list_elem_of_here _ _) retry_run)
    as (_ & _ & _ & _ & Ho & Hp).
  split; [exact Ho|]. split; [exact Hp|]. vm_compute. reflexivity.
Defined.

Lemma reconcile_run :
  exists rc, reconcile disk_ok scope0 steps_text digest (saw 9) (store_at 9) "a" 10 plan_a uuid0
      observed0 = (store_at 10, Ok rc)
    /\ c_delivery (record_at 10) = Some rc.
Proof. eexists. split; vm_compute; reflexivity. Qed.

Lemma reconcile_completed_witness :
  exists rc, c_delivery (record_at 10) = Some rc
  /\ dr_operation_id rc = uuid0 /\ dr_plan_fingerprint rc = dp_fingerprint plan_a.
Proof.
  destruct reconcile_run as (rc & Hrun & Hrc). exists rc. split; [exact Hrc|].
  assert (Hdone : dr_state rc = DeliveryCompleted).
  { pose proof (proj1 (proj2 life_run)) as Hd. rewrite Hrc in Hd. by injection Hd. }
  destruct (reconcile_completed disk_ok scope0 steps_text digest (saw 9) (store_at 9)
    (store_at 10) "a" 10 plan_a uuid0 _ rc Hrun Hdone) as (_ & Hop & Hfp & _).
  exact (conj Hop Hfp).
Defined.
End DeliveryWitness.
