(* ===== verification/Observation.v ===== *)
(** Observation records: src/src/observation.rs.

    What the shared orchestration entry writes to the journal for one request
    and its outcome.  A [serde_json::Value] is a [Json] tree; SHA-256 and the
    repository key of a workspace (observation/repository.rs) are parameters; the
    [n]-th record built takes its id from [fresh n] ([Uuid::new_v4]) and its
    time from [clock n] ([config::unix_time]).  A function that appends records
    returns the list of them, in the order it appends. *)

From S2P Require Import Prelude Strings Json Requests.
From stdpp Require Import pretty.
#[local] Open Scope Z_scope.
#[local] Open Scope rust_scope.

Definition OBSERVATION_SCHEMA_VERSION : Z := 1.
Definition INSTRUCTION_PREVIEW_BYTES : Z := 4096.
Definition VIEW_INLINE_BYTES : Z := 8192.
Definition ERROR_PREVIEW_BYTES : Z := 512.

Definition DENY_KEYS_EXACT : list string :=
  ["task"; "input"; "prompt"; "auth"; "api_key"; "apikey"; "bearer"; "private_key"].
Definition DENY_KEYS_SUBSTRING : list string :=
  ["secret"; "token"; "password"; "passwd"; "credential"; "authorization"].

(** * Records *)

Record ActorRef : Type := mkActor {
  ac_transport : string;
  ac_principal : option string;
}.

Definition actor_mcp (public : bool) : ActorRef :=
  mkActor (if public then "mcp-public" else "mcp-stdio") None.

Record TargetRef : Type := mkTarget { tg_backend : string }.

Record SessionInstanceRef : Type := mkInstance {
  si_started_at : Z;
  si_process_id : Z;
}.

Record EvidenceRefRecord : Type := mkEvidence {
  er_evidence_id : string;
  er_bytes : Z;
  er_retention_seconds : Z;
}.

Record StateRef : Type := mkStateRef {
  sr_task_id : option string;
  sr_status : option string;
  sr_revision : option Z;
  sr_generation : option Z;
}.

Record Provenance : Type := mkProvenance {
  pv_tool : string;
  pv_source : string;
  pv_control_action : option string;
}.

#[global] Instance actor_ref_eq_dec : EqDecision ActorRef.
Proof. solve_decision. Defined.
#[global] Instance target_ref_eq_dec : EqDecision TargetRef.
Proof. solve_decision. Defined.
#[global] Instance session_instance_ref_eq_dec : EqDecision SessionInstanceRef.
Proof. solve_decision. Defined.
#[global] Instance evidence_ref_eq_dec : EqDecision EvidenceRefRecord.
Proof. solve_decision. Defined.
#[global] Instance state_ref_eq_dec : EqDecision StateRef.
Proof. solve_decision. Defined.
#[global] Instance provenance_eq_dec : EqDecision Provenance.
Proof. solve_decision. Defined.

Inductive ObservationKind : Type :=
| KInstruction
| KOperationAccepted
| KExecutionState
| KEvidence
| KVerification
| KDelivery
| KReconciliation.

#[global] Instance observation_kind_eq_dec : EqDecision ObservationKind.
Proof. solve_decision. Defined.

Definition kind_as_str (k : ObservationKind) : string :=
  match k with
  | KInstruction => "instruction"
  | KOperationAccepted => "operation_accepted"
  | KExecutionState => "execution_state"
  | KEvidence => "evidence"
  | KVerification => "verification"
  | KDelivery => "delivery"
  | KReconciliation => "reconciliation"
  end.

Definition kind_parse (value : string) : option ObservationKind :=
  match_str value
    [("instruction", KInstruction); ("operation_accepted", KOperationAccepted);
     ("execution_state", KExecutionState); ("evidence", KEvidence);
     ("verification", KVerification); ("delivery", KDelivery);
     ("reconciliation", KReconciliation)]%string.

Inductive ObservationContent : Type :=
| CText (preview : string) (total_bytes : Z) (sha256 : string) (truncated : bool)
| CView (view : Json)
| CViewDigest (sha256 : string) (total_bytes : Z) (truncated : bool)
| CError (preview : string)
| CNone.

#[global] Instance observation_content_eq_dec : EqDecision ObservationContent.
Proof. solve_decision. Defined.

Section ObservationRecord.
Context `{UuidLib}.

Record Observation : Type := mkObservation {
  ob_id : Uuid;
  ob_schema_version : Z;
  ob_observed_at : Z;
  ob_accepted_at : option Z;
  ob_session_id : string;
  ob_session_instance : SessionInstanceRef;
  ob_repository : option string;
  ob_repository_key : option string;
  ob_workspace_id : option string;
  ob_task_id : option string;
  ob_execution_id : option string;
  ob_operation_id : option string;
  ob_actor : ActorRef;
  ob_target : TargetRef;
  ob_action : string;
  ob_kind : ObservationKind;
  ob_content : ObservationContent;
  ob_state_ref : option StateRef;
  ob_evidence_refs : list EvidenceRefRecord;
  ob_provenance : Provenance;
  ob_revision : Z;
  ob_dedupe_key : string;
}.
#[global] Instance observation_eq_dec : EqDecision Observation.
Proof. solve_decision. Defined.
End ObservationRecord.

(** The fields of [config::Session] these functions read. *)
Record Session : Type := mkSession {
  se_id : string;
  se_cwd : string;
  se_started_at : Z;
  se_process_id : Z;
}.

(** * Text and views *)

Definition truncate_utf8 (text : string) (max_bytes : Z) : string * bool :=
  if str_len text <=? max_bytes then (text, false)
  else (String.substring 0 (boundary_before text (Z.to_nat max_bytes)) text, true).

(** [Path::file_name]: the last component, unless it is [..] or the root. *)
Definition file_name_of (path : string) : option string :=
  match last (List.filter (fun c => negb (String.eqb c EmptyString || String.eqb c "."))
                (split_on "/" path)) with
  | Some c => if String.eqb c ".." then None else Some c
  | None => None
  end.

Definition repository_label (session : Session) : option string := file_name_of (se_cwd session).

Definition denied_key (key : string) : bool :=
  let lower := to_ascii_lowercase key in
  existsb (String.eqb lower) DENY_KEYS_EXACT
  || existsb (fun name => contains_str name lower) DENY_KEYS_SUBSTRING.

(** The recursion of [sanitize_value]; a [Map] built by [insert] from distinct
    keys in order is the entries in that order. *)
Fixpoint sanitize_value (value : Json) : Json :=
  match value with
  | JObj map =>
      JObj ((fix clean (l : list (string * Json)) :=
               match l with
               | [] => []
               | (key, entry) :: rest =>
                   if denied_key key then clean rest
                   else (key, sanitize_value entry) :: clean rest
               end) map)
  | JArr items => JArr (map sanitize_value items)
  | other => other
  end.

Notation v_field v key := (JsonModel.tree_get v key).
Notation v_str v := (de_string v).
Notation v_u64 v := (de_u64 v).

(** [Value::as_bool], [Value::as_array]. *)
Definition v_bool (v : Json) : option bool :=
  match v with
  | JBool b => Some b
  | _ => None
  end.
Definition v_array (v : Json) : option (list Json) :=
  match v with
  | JArr l => Some l
  | _ => None
  end.

Definition str_field (v : Json) (key : string) : option string := x ← v_field v key; v_str x.
Definition u64_field (v : Json) (key : string) : option Z := x ← v_field v key; v_u64 x.

Fixpoint first_nonempty (view : Json) (keys : list string) : option string :=
  match keys with
  | [] => None
  | key :: rest =>
      match str_field view key with
      | Some value => if negb (str_is_empty value) then Some value else first_nonempty view rest
      | None => first_nonempty view rest
      end
  end.

Definition execution_id_of (view : Json) : option string :=
  first_nonempty view ["thread_id"; "opencode_session_id"; "acp_session_id"; "devin_session_id"]%string.

Definition state_ref_of (view : Json) : option StateRef :=
  let task_id := str_field view "task_id" in
  let status := str_field view "status" in
  if is_none task_id && is_none status then None
  else Some (mkStateRef task_id status (u64_field view "revision") (u64_field view "generation")).

Definition evidence_ref_of (entry : Json) : option EvidenceRefRecord :=
  id ← str_field entry "evidence_id";
  bytes ← u64_field entry "bytes";
  retention ← u64_field entry "retention_seconds";
  Some (mkEvidence id bytes retention).

Definition evidence_refs_of (view : Json) : list EvidenceRefRecord :=
  match x ← v_field view "evidence"; v_array x with
  | Some refs => omap evidence_ref_of refs
  | None => []
  end.

Definition reconciliation_marked (view : Json) : bool :=
  bool_decide ((x ← v_field view "reconciliation_required"; v_bool x) = Some true)
  || bool_decide (str_field view "status" = Some "reconciliation_required"%string).

Definition action_of (op : Operation) : string :=
  match op with
  | OpStatus => "status"
  | TaskStart => "task_start"
  | TaskGet => "task_get"
  | TaskList => "task_list"
  | TaskControl => "task_control"
  end.

(** [Backend::name]. *)
Definition backend_name (b : Backend) : string :=
  match b with
  | Codex => "codex"
  | OpenCode => "opencode"
  | DevinAcp => "devin_acp"
  | DevinCloud => "devin_cloud"
  end.

(** * Building records *)

Section Records.
Context `{UuidLib} `{SerdeJson} (sha256_hex : string -> string)
  (repository_key_for_workspace : string -> option string)
  (fresh : nat -> Uuid) (clock : nat -> Z).

Definition text_content (text : string) (preview_bytes : Z) : ObservationContent :=
  let '(preview, truncated) := truncate_utf8 text preview_bytes in
  CText preview (str_len text) (sha256_hex text) truncated.

(** [serde_json::to_vec(&v).unwrap_or_default()]; [Value]'s [Display] is the same
    compact text. *)
Definition value_text (v : Json) : string := default EmptyString (to_vec v).

Definition view_content (view : Json) : Json * ObservationContent :=
  let sanitized := sanitize_value view in
  let serialized := value_text sanitized in
  if str_len serialized <=? VIEW_INLINE_BYTES
  then (sanitized, CView sanitized)
  else (sanitized, CViewDigest (sha256_hex serialized) (str_len serialized) true).

Definition content_digest (content : ObservationContent) : string :=
  match content with
  | CView view => sha256_hex (value_text view)
  | CViewDigest sha256 _ _ => sha256
  | CText _ _ sha256 _ => sha256
  | CError preview => sha256_hex preview
  | CNone => "none"
  end.

Definition instance_of (session : Session) : SessionInstanceRef :=
  mkInstance (se_started_at session) (se_process_id session).

Definition base_observation (n : nat) (session : Session) (actor : ActorRef) (backend : Backend)
    (action tool : string) (kind : ObservationKind) (dedupe_key : string) : Observation :=
  mkObservation (fresh n) OBSERVATION_SCHEMA_VERSION (clock n) None (se_id session)
    (instance_of session) (repository_label session)
    (repository_key_for_workspace (se_cwd session)) None None None None actor
    (mkTarget (backend_name backend)) action kind CNone None []
    (mkProvenance tool "orchestration" None) 0 dedupe_key.

(** Assignments to the fields of a record under construction. *)
Definition with_key (o : Observation) (operation_id task_id : option string)
    (control_action : option string) (key : string) : Observation :=
  mkObservation (ob_id o) (ob_schema_version o) (ob_observed_at o) (ob_accepted_at o)
    (ob_session_id o) (ob_session_instance o) (ob_repository o) (ob_repository_key o)
    (ob_workspace_id o) task_id (ob_execution_id o) operation_id (ob_actor o) (ob_target o)
    (ob_action o) (ob_kind o) (ob_content o) (ob_state_ref o) (ob_evidence_refs o)
    (mkProvenance (pv_tool (ob_provenance o)) (pv_source (ob_provenance o)) control_action)
    (ob_revision o) key.
Definition with_content (o : Observation) (content : ObservationContent) : Observation :=
  mkObservation (ob_id o) (ob_schema_version o) (ob_observed_at o) (ob_accepted_at o)
    (ob_session_id o) (ob_session_instance o) (ob_repository o) (ob_repository_key o)
    (ob_workspace_id o) (ob_task_id o) (ob_execution_id o) (ob_operation_id o) (ob_actor o)
    (ob_target o) (ob_action o) (ob_kind o) content (ob_state_ref o) (ob_evidence_refs o)
    (ob_provenance o) (ob_revision o) (ob_dedupe_key o).
Definition with_view (o : Observation) (task_id : option string) (state : option StateRef)
    (execution_id : option string) (evidence : list EvidenceRefRecord) : Observation :=
  mkObservation (ob_id o) (ob_schema_version o) (ob_observed_at o) (ob_accepted_at o)
    (ob_session_id o) (ob_session_instance o) (ob_repository o) (ob_repository_key o)
    (ob_workspace_id o) task_id execution_id (ob_operation_id o) (ob_actor o) (ob_target o)
    (ob_action o) (ob_kind o) (ob_content o) state evidence (ob_provenance o) (ob_revision o)
    (ob_dedupe_key o).
Definition with_accepted (o : Observation) (accepted_at : option Z) : Observation :=
  mkObservation (ob_id o) (ob_schema_version o) (ob_observed_at o) accepted_at
    (ob_session_id o) (ob_session_instance o) (ob_repository o) (ob_repository_key o)
    (ob_workspace_id o) (ob_task_id o) (ob_execution_id o) (ob_operation_id o) (ob_actor o)
    (ob_target o) (ob_action o) (ob_kind o) (ob_content o) (ob_state_ref o) (ob_evidence_refs o)
    (ob_provenance o) (ob_revision o) (ob_dedupe_key o).
Definition with_revision (o : Observation) (revision : Z) : Observation :=
  mkObservation (ob_id o) (ob_schema_version o) (ob_observed_at o) (ob_accepted_at o)
    (ob_session_id o) (ob_session_instance o) (ob_repository o) (ob_repository_key o)
    (ob_workspace_id o) (ob_task_id o) (ob_execution_id o) (ob_operation_id o) (ob_actor o)
    (ob_target o) (ob_action o) (ob_kind o) (ob_content o) (ob_state_ref o) (ob_evidence_refs o)
    (ob_provenance o) revision (ob_dedupe_key o).

(** [format!("{}:{}:...", ...)]. *)
Definition key_of (parts : list string) : string := join_strings ":" parts.

(** The instruction record of a request, written before it is dispatched. *)
Definition record_instruction (n : nat) (session : Session) (actor : ActorRef) (backend : Backend)
    (op : Operation) (request : TaskRequest) (args : Json) : list Observation :=
  let o := base_observation n session actor backend (action_of op) (operation_name backend op)
             KInstruction EmptyString in
  let '(o, text) :=
    match request with
    | ReqStart start =>
        (with_key o (Some (start_operation_id start)) None None
           (key_of ["instr"; se_id session; "start"; start_operation_id start]),
         str_field args "task")
    | ReqControl control =>
        (with_key o (Some (ctl_operation_id control)) (Some (ctl_task_id control))
           (Some (control_action_as_str (ctl_action control)))
           (key_of ["instr"; se_id session; "control"; ctl_operation_id control]),
         if bool_decide (ctl_action control = Steer) then str_field args "input" else None)
    | ReqGet get =>
        (with_key o None (Some (get_task_id get)) None
           (key_of ["instr"; se_id session; "get"; get_task_id get]), None)
    | ReqList => (with_key o None None None (key_of ["instr"; se_id session; "list"]), None)
    | ReqStatus =>
        (with_key o None None None (key_of ["instr"; se_id session; "status"; backend_name backend]),
         None)
    end in
  [with_content o match text with
                  | Some text => text_content text INSTRUCTION_PREVIEW_BYTES
                  | None => CNone
                  end].

(** The records of one state-bearing view. *)
Definition record_state_view (n : nat) (session : Session) (actor : ActorRef) (backend : Backend)
    (op : Operation) (view : Json) : list Observation :=
  match state_ref_of view with
  | None => []
  | Some state =>
      let action := action_of op in
      let tool := operation_name backend op in
      let task_label := default EmptyString (sr_task_id state) in
      let '(sanitized, content) := view_content view in
      let evidence := evidence_refs_of sanitized in
      let o := base_observation n session actor backend action tool KExecutionState
                 (key_of ["state"; se_id session; backend_name backend; task_label;
                          content_digest content]) in
      let o := with_content (with_view o (sr_task_id state) (Some state)
                               (execution_id_of sanitized) evidence) content in
      let entries :=
        imap (fun i e =>
          with_view (base_observation (n + 1 + i) session actor backend action tool KEvidence
                        (key_of ["ev"; se_id session; er_evidence_id e]))
            (sr_task_id state) None None [e]) evidence in
      let recon :=
        if reconciliation_marked view
        then [with_view (base_observation (n + 1 + length evidence) session actor backend action
                            tool KReconciliation
                            (key_of ["recon"; se_id session; task_label;
                                     pretty (Z.to_N (default 0 (sr_revision state)))]))
                (sr_task_id state) (Some state) None []]
        else [] in
      o :: entries ++ recon
  end.

Fixpoint record_state_views (n : nat) (session : Session) (actor : ActorRef) (backend : Backend)
    (op : Operation) (views : list Json) : list Observation :=
  match views with
  | [] => []
  | view :: rest =>
      let l := record_state_view n session actor backend op view in
      l ++ record_state_views (n + length l) session actor backend op rest
  end.

Definition request_operation_id (request : TaskRequest) : option string :=
  match request with
  | ReqStart start => Some (start_operation_id start)
  | ReqControl control => Some (ctl_operation_id control)
  | _ => None
  end.

Definition request_task_id (request : TaskRequest) : option string :=
  match request with
  | ReqGet get => Some (get_task_id get)
  | ReqControl control => Some (ctl_task_id control)
  | _ => None
  end.

Definition request_control_action (request : TaskRequest) : option string :=
  match request with
  | ReqControl control => Some (control_action_as_str (ctl_action control))
  | _ => None
  end.

(** The acceptance and delivery records of a mutating operation. *)
Definition record_accepted (n : nat) (session : Session) (actor : ActorRef) (backend : Backend)
    (op : Operation) (request : TaskRequest) (view : Json) (kind : ObservationKind)
    (prefix : string) : Observation :=
  let operation_id := request_operation_id request in
  let key := key_of [prefix; se_id session; default EmptyString operation_id] in
  let o := base_observation n session actor backend (action_of op) (operation_name backend op)
             kind key in
  let o := with_accepted (with_key o operation_id None (request_control_action request) key)
             (Some (ob_observed_at o)) in
  with_view o (str_field view "task_id") (state_ref_of view) (execution_id_of view) [].

(** The records of a dispatched operation's result; an error is its text. *)
Definition record_outcome (n : nat) (session : Session) (actor : ActorRef) (backend : Backend)
    (op : Operation) (request : TaskRequest) (outcome : result string Json) : list Observation :=
  match outcome with
  | Ok view =>
      let accepted :=
        match request with
        | ReqStart _ | ReqControl _ =>
            [record_accepted n session actor backend op request view KOperationAccepted "accepted";
             record_accepted (n + 1) session actor backend op request view KDelivery "del"]
        | _ => []
        end in
      let n := (n + length accepted)%nat in
      accepted ++
      match request with
      | ReqStatus =>
          let '(_, content) := view_content view in
          [with_content (base_observation n session actor backend (action_of op)
                           (operation_name backend op) KVerification
                           (key_of ["verify"; se_id session; backend_name backend;
                                    content_digest content])) content]
      | ReqList =>
          match x ← v_field view "tasks"; v_array x with
          | Some tasks => record_state_views n session actor backend op tasks
          | None => []
          end
      | _ => record_state_view n session actor backend op view
      end
  | Err error =>
      let '(preview, _) := truncate_utf8 error ERROR_PREVIEW_BYTES in
      let task_id := request_task_id request in
      let operation_id := request_operation_id request in
      let key_target :=
        match task_id with
        | Some t => t
        | None => default (action_of op) operation_id
        end in
      let key := key_of ["err"; se_id session; action_of op; key_target; sha256_hex preview] in
      let o := base_observation n session actor backend (action_of op) (operation_name backend op)
                 KReconciliation key in
      let o := with_key o operation_id task_id None key in
      [with_content
         (with_view o task_id
            (Some (mkStateRef task_id (Some "dispatch_error"%string) None None)) None [])
         (CError preview)]
  end.

End Records.
