(* ===== verification/ObservationTheorems.v ===== *)
(** What the recorded observations guarantee ([Observation]): nothing unbounded
    or denied is recorded, and the records of an operation depend neither on
    the transport nor on when or how often it is observed. *)

From S2P Require Import Prelude Strings Json Requests Observation.

(** * Previews *)

Lemma boundary_before_le (s : string) (n : nat) : (boundary_before s n <= n)%nat.
Proof. induction n as [|n IH]; simpl; [lia|]. case_match; lia. Qed.

Lemma boundary_before_boundary (s : string) (n : nat) :
  is_char_boundary s (Z.of_nat (boundary_before s n)) = true.
Proof.
  induction n as [|n IH]; cbn [boundary_before]; [done|].
  destruct (is_char_boundary s (Z.of_nat (S n))) eqn:Hb; [done|exact IH].
Qed.

Lemma substring_prefix (s : string) (n : nat) :
  exists rest, s = String.substring 0 n s +:+ rest
  /\ str_len (String.substring 0 n s) <= Z.of_nat n.
Proof.
  unfold str_len. revert n. induction s as [|x s IH]; intros [|n]; simpl.
  1-3: by eexists; split; [reflexivity|simpl; lia].
  destruct (IH n) as (rest & Heq & Hl). exists rest. split; [|lia].
  rewrite string_app_cons. by f_equal.
Qed.

(** A preview is the text itself or a prefix of it within the bound, cut between
    two characters. *)
Lemma truncate_utf8_spec (text : string) (max : Z) (preview : string) (truncated : bool) :
  0 <= max -> truncate_utf8 text max = (preview, truncated) ->
  str_len preview <= max
  /\ exists rest, text = preview +:+ rest
  /\ (truncated = false -> rest = EmptyString)
  /\ (truncated = true -> exists n, preview = String.substring 0 n text
        /\ is_char_boundary text (Z.of_nat n) = true).
Proof.
  intros Hmax. unfold truncate_utf8. destruct (Z.leb_spec (str_len text) max).
  - intros [= <- <-]. split; [done|]. exists EmptyString. by rewrite string_app_nil_r.
  - intros [= <- <-]. set (n := boundary_before text (Z.to_nat max)).
    destruct (substring_prefix text n) as (rest & Heq & Hl).
    pose proof (boundary_before_le text (Z.to_nat max)). fold n in H0. split; [lia|].
    exists rest. split_and!; [done|done|]. intros _. exists n. split; [done|].
    apply boundary_before_boundary.
Qed.

(** * Sanitizing *)

(** No object at any depth has a denied key. *)
Fixpoint is_clean (v : Json) : bool :=
  match v with
  | JObj entries =>
      (fix all (l : list (string * Json)) :=
         match l with
         | [] => true
         | (key, entry) :: rest => negb (denied_key key) && is_clean entry && all rest
         end) entries
  | JArr items => forallb is_clean items
  | _ => true
  end.

Lemma sanitize_clean : forall v, is_clean (sanitize_value v) = true.
Proof.
  fix IH 1. intros [| | | | |items|entries]; try reflexivity; cbn [sanitize_value is_clean].
  - induction items as [|x items IHl]; [reflexivity|]. cbn [map forallb]. by rewrite IH, IHl.
  - induction entries as [|[key x] entries IHl]; [reflexivity|].
    destruct (denied_key key) eqn:Hd; [exact IHl|]. by rewrite Hd, IH.
Qed.

(** Sanitizing keeps what is clean: it is the identity there. *)
Lemma sanitize_id : forall v, is_clean v = true -> sanitize_value v = v.
Proof.
  fix IH 1. intros [| | | | |items|entries] Hc; try reflexivity; cbn [sanitize_value is_clean] in *.
  - f_equal. induction items as [|x items IHl]; [reflexivity|]. cbn [map forallb] in *.
    apply andb_true_iff in Hc as [Hx Hc]. by rewrite (IH x Hx), (IHl Hc).
  - f_equal. induction entries as [|[key x] entries IHl]; [reflexivity|].
    rewrite !andb_true_iff in Hc. destruct Hc as [[Hk Hx] Hc]. apply negb_true_iff in Hk.
    by rewrite Hk, (IH x Hx), (IHl Hc).
Qed.

Section ObservationTheorems.
Context `{UuidLib} `{SerdeJson} (sha256_hex : string -> string)
  (repository_key : string -> option string).

(** * Bounds *)

(** What a content may hold. *)
Definition content_ok (content : ObservationContent) : Prop :=
  match content with
  | CText preview _ _ _ => str_len preview <= INSTRUCTION_PREVIEW_BYTES
  | CView view => is_clean view = true /\ str_len (value_text view) <= VIEW_INLINE_BYTES
  | CViewDigest _ _ _ => True
  | CError preview => str_len preview <= ERROR_PREVIEW_BYTES
  | CNone => True
  end.

Lemma view_content_ok (view sanitized : Json) (content : ObservationContent) :
  view_content sha256_hex view = (sanitized, content) -> content_ok content.
Proof.
  unfold view_content. destruct (Z.leb_spec (str_len (value_text (sanitize_value view))) VIEW_INLINE_BYTES).
  - intros [= _ <-]. split; [apply sanitize_clean|done].
  - by intros [= _ <-].
Qed.

Definition records_ok (l : list Observation) : Prop := Forall (fun o => content_ok (ob_content o)) l.

Lemma state_view_ok (fresh : nat -> Uuid) (clock : nat -> Z) (n : nat) (session : Session)
    (actor : ActorRef) (backend : Backend) (op : Operation) (view : Json) :
  records_ok (record_state_view sha256_hex repository_key fresh clock n session actor backend op view).
Proof.
  unfold record_state_view. destruct (state_ref_of view); [|constructor].
  destruct (view_content sha256_hex view) as [sanitized content] eqn:Hv.
  constructor; [by eapply view_content_ok|]. apply Forall_app. split.
  - apply Forall_lookup. intros i o Ho. rewrite list_lookup_imap in Ho.
    destruct (_ !! i); [|done]. by injection Ho as <-.
  - destruct (reconciliation_marked view); repeat constructor.
Qed.

Lemma state_views_ok (fresh : nat -> Uuid) (clock : nat -> Z) (n : nat) (session : Session)
    (actor : ActorRef) (backend : Backend) (op : Operation) (views : list Json) :
  records_ok (record_state_views sha256_hex repository_key fresh clock n session actor backend op views).
Proof.
  revert n. induction views as [|view views IH]; intros n; simpl; [constructor|].
  apply Forall_app. split; [apply state_view_ok|apply IH].
Qed.

(** Nothing unbounded and nothing denied is recorded: whatever the caller
    sends and the backend answers, every record of an instruction or an
    outcome carries at most a 4096-byte preview, a 512-byte error, a digest,
    or a view of at most 8192 bytes with no denied key at any depth. *)
Theorem recorded_content_bounded (fresh : nat -> Uuid) (clock : nat -> Z) (n : nat)
    (session : Session) (actor : ActorRef) (backend : Backend) (op : Operation)
    (request : TaskRequest) (args : Json) (outcome : result string Json) :
  records_ok (record_instruction sha256_hex repository_key fresh clock n session actor backend op
                request args)
  /\ records_ok (record_outcome sha256_hex repository_key fresh clock n session actor backend op
                   request outcome).
Proof.
  split.
  - assert (Ht : forall text, content_ok (text_content sha256_hex text INSTRUCTION_PREVIEW_BYTES)).
    { intros text. unfold text_content.
      destruct (truncate_utf8 text INSTRUCTION_PREVIEW_BYTES) as [p t] eqn:Hp.
      by apply truncate_utf8_spec in Hp as [Hl _]. }
    unfold record_instruction. destruct request; repeat constructor; case_match; simpl; done.
  - unfold record_outcome. destruct outcome as [view|error].
    + apply Forall_app. split; [destruct request; repeat constructor|].
      destruct request; try apply state_view_ok.
      * destruct (view_content sha256_hex view) as [sanitized content] eqn:Hv.
        constructor; [by eapply view_content_ok|constructor].
      * destruct (mbind _ _); [apply state_views_ok|constructor].
    + destruct (truncate_utf8 error ERROR_PREVIEW_BYTES) as [p t] eqn:Hp.
      constructor; [|constructor]. by apply truncate_utf8_spec in Hp as [Hl _].
Qed.

(** * Shape *)

(** A record without its identity, its times and who carried it. *)
Definition shape (o : Observation) :=
  (ob_schema_version o, ob_session_id o, ob_session_instance o, ob_repository o,
   ob_repository_key o, (ob_task_id o, ob_execution_id o, ob_operation_id o),
   (ob_target o, ob_action o, ob_kind o, ob_content o, ob_state_ref o),
   (ob_evidence_refs o, ob_provenance o, ob_revision o, ob_dedupe_key o)).

Lemma state_view_shape (fresh fresh' : nat -> Uuid) (clock clock' : nat -> Z) (n n' : nat)
    (session : Session) (actor actor' : ActorRef) (backend : Backend) (op : Operation) (view : Json) :
  map shape (record_state_view sha256_hex repository_key fresh clock n session actor backend op view)
  = map shape (record_state_view sha256_hex repository_key fresh' clock' n' session actor' backend op
                 view).
Proof.
  unfold record_state_view. destruct (state_ref_of view); [|done].
  destruct (view_content sha256_hex view) as [sanitized content]. cbn [map]. rewrite !map_app.
  f_equal. f_equal; [|by destruct (reconciliation_marked view)].
  etransitivity; [apply fmap_imap|]. etransitivity; [|symmetry; apply fmap_imap]. by apply imap_ext.
Qed.

Lemma state_views_shape (fresh fresh' : nat -> Uuid) (clock clock' : nat -> Z) (n n' : nat)
    (session : Session) (actor actor' : ActorRef) (backend : Backend) (op : Operation)
    (views : list Json) :
  map shape (record_state_views sha256_hex repository_key fresh clock n session actor backend op views)
  = map shape (record_state_views sha256_hex repository_key fresh' clock' n' session actor' backend op
                 views).
Proof.
  revert n n'. induction views as [|view views IH]; intros n n'; simpl; [done|].
  rewrite !map_app. f_equal; [apply state_view_shape|apply IH].
Qed.

(** The same operation is recorded in the same shape by every transport and
    on every retry: two observers with different actors, clocks and id
    generators record the same instruction and outcome as the same records
    (deduplication keys included), up to the id, the times and the actor. *)
Theorem recorded_shape_agrees (fresh fresh' : nat -> Uuid) (clock clock' : nat -> Z) (n n' : nat)
    (session : Session) (actor actor' : ActorRef) (backend : Backend) (op : Operation)
    (request : TaskRequest) (args : Json) (outcome : result string Json) :
  map shape (record_instruction sha256_hex repository_key fresh clock n session actor backend op
               request args)
  = map shape (record_instruction sha256_hex repository_key fresh' clock' n' session actor' backend op
                 request args)
  /\ map shape (record_outcome sha256_hex repository_key fresh clock n session actor backend op
                  request outcome)
     = map shape (record_outcome sha256_hex repository_key fresh' clock' n' session actor' backend op
                    request outcome).
Proof.
  split; [unfold record_instruction; by destruct request|].
  unfold record_outcome. destruct outcome as [view|error].
  - rewrite !map_app. f_equal; [by destruct request|].
    destruct request; try apply state_view_shape.
    + by destruct (view_content sha256_hex view).
    + destruct (mbind _ _); [apply state_views_shape|done].
  - by destruct (truncate_utf8 error ERROR_PREVIEW_BYTES).
Qed.
End ObservationTheorems.
