(* ===== verification/Journal.v ===== *)
(** The observation journal of a session: src/src/observation/store.rs.

    A session's files are a [Disk]: the bytes of [obs-<id>.jsonl] and the
    sidecar [obs-<id>.meta.json] as the record its text parses to ([None] when it
    is absent or unparsable).  Each process has its own [JournalCache].  An
    operation holds the session's file lock from its first read to its last
    write, so it is one step; what the file system does to each call is chosen
    by the environment ([AppendIo]).  The record's derived serde code is the
    class [ObservationCodec].  The store's directories are private and hold
    regular files. *)

From S2P Require Import Prelude Strings Json Upgrade Observation.

Definition MAX_JOURNAL_BYTES : Z := Z.shiftl 8 20.
Definition COMPACTION_TARGET_BYTES : Z := MAX_JOURNAL_BYTES - MAX_JOURNAL_BYTES / 4.

Record JournalCache : Type := mkCache {
  jc_file_len : Z;
  jc_revision : Z;
  jc_dedupe : gmap string Z;
}.

Definition cache_default : JournalCache := mkCache 0 0 ∅.

Record JournalMeta : Type := mkMeta {
  jm_schema_version : Z;
  jm_base_revision : Z;
  jm_write_failures : Z;
  jm_compactions : Z;
  jm_last_write_error : option string;
}.

Definition meta_default : JournalMeta := mkMeta 0 0 0 0 None.

Record JournalStatus : Type := mkStatus {
  js_schema_version : Z;
  js_exists : bool;
  js_revision : Z;
  js_base_revision : Z;
  js_observations : Z;
  js_bytes : Z;
  js_max_bytes : Z;
  js_compactions : Z;
  js_write_failures : Z;
  js_last_write_error : option string;
  js_corrupt_lines : Z;
  js_degraded : bool;
}.

Record ListFilter : Type := mkFilter {
  lf_kind : option ObservationKind;
  lf_task_id : option string;
  lf_after_revision : option Z;
  lf_limit : option Z;
}.

Definition no_filter : ListFilter := mkFilter None None None None.

Inductive AppendOutcome : Type :=
| Appended (revision : Z)
| Duplicate (revision : Z).

Record Disk : Type := mkDisk {
  dk_journal : option string;
  dk_meta : option JournalMeta;
}.

(** What a [write_all] and [sync_all] of a line do: everything; an error after
    some of its bytes; or all the bytes and then a failed [sync_all]. *)
Inductive AppendWrite : Type :=
| WriteAll
| WriteTorn (n : nat)
| SyncFailed.

(** The file system's choices in one [append]: whether the lock and directories,
    the reads, the replacement of the journal and of the sidecar, the opening
    of the file and the final [metadata] succeed. *)
Record AppendIo : Type := mkAppendIo {
  io_prepare : bool;
  io_read : bool;
  io_replace : bool;
  io_meta : bool;
  io_open : bool;
  io_write : AppendWrite;
  io_len : bool;
}.

Definition io_fine : AppendIo := mkAppendIo true true true true true WriteAll true.

Class ObservationCodec `{UuidLib} := {
  observation_to_vec : Observation -> option string;
  observation_from_str : string -> option Observation;
}.

Section Journal.
Context `{ObservationCodec}.

(** * Reading *)

(** The records of the parsable lines and the number of the other ones. *)
Fixpoint read_lines (seen : list Uuid) (l : list string) : list Observation * Z :=
  match l with
  | [] => ([], 0)
  | line :: rest =>
      if trim_is_empty line then read_lines seen rest
      else match observation_from_str line with
      | Some record =>
          if (ob_schema_version record =? OBSERVATION_SCHEMA_VERSION)
             && negb (bool_decide (ob_id record ∈ seen))
          then let '(records, corrupt) := read_lines (ob_id record :: seen) rest in
               (record :: records, corrupt)
          else let '(records, corrupt) := read_lines seen rest in (records, corrupt + 1)
      | None => let '(records, corrupt) := read_lines seen rest in (records, corrupt + 1)
      end
  end.

(** [ok]: the file can be opened and read; [read_to_string] wants UTF-8. *)
Definition read_journal (ok : bool) (journal : option string) :
    result string (list Observation * Z) :=
  let! text := ok_or journal "cannot open observation journal" in
  ensure (ok && utf8_valid (str_bytes text)) "cannot read observation journal" ;!
  Ok (read_lines [] (lines text)).

Definition read_meta (d : Disk) : JournalMeta := default meta_default (dk_meta d).

(** [write_meta]: the sidecar is replaced as a whole, or not at all. *)
Definition write_meta (ok : bool) (d : Disk) (meta : JournalMeta) : Disk * result string unit :=
  if ok
  then (mkDisk (dk_journal d)
          (Some (mkMeta OBSERVATION_SCHEMA_VERSION (jm_base_revision meta)
                   (jm_write_failures meta) (jm_compactions meta) (jm_last_write_error meta))),
        Ok tt)
  else (d, Err "cannot replace the sidecar"%string).

Definition note_write_failure (prepare_ok meta_ok : bool) (d : Disk) (error : string) : Disk :=
  if prepare_ok
  then
    let meta := read_meta d in
    (write_meta meta_ok d
       (mkMeta (jm_schema_version meta) (jm_base_revision meta)
          (saturating_add (jm_write_failures meta) 1) (jm_compactions meta)
          (Some (take_chars 256 error)))).1
  else d.

(** [iter().map(...).collect()] into a [HashMap]: the last entry of a key wins. *)
Definition dedupe_of (records : list Observation) : gmap string Z :=
  fold_left (fun m r => <[ob_dedupe_key r := ob_revision r]> m) records ∅.

(** [records.last().map(|r| r.revision).unwrap_or(base)]. *)
Definition last_revision (records : list Observation) (base : Z) : Z :=
  match last records with
  | Some r => ob_revision r
  | None => base
  end.

Definition journal_len (d : Disk) : Z :=
  match dk_journal d with
  | Some text => str_len text
  | None => 0
  end.

Definition refresh_cache_locked (ok : bool) (d : Disk) (cache : JournalCache) :
    result string (JournalCache * Z) :=
  let actual_len := journal_len d in
  if actual_len =? jc_file_len cache then Ok (cache, actual_len)
  else
    let base := jm_base_revision (read_meta d) in
    if actual_len =? 0 then Ok (mkCache 0 base ∅, 0)
    else
      let! (records, _) := read_journal ok (dk_journal d) in
      Ok (mkCache actual_len (Z.max (last_revision records base) base) (dedupe_of records),
          actual_len).

(** * Compaction *)

Definition line_of (b : string) : string := b +:+ String newline EmptyString.

(** The loop over the records, newest first. *)
Fixpoint keep_newest (newest_first kept : list Observation) (kept_bytes : Z) :
    result string (list Observation * Z) :=
  match newest_first with
  | [] => Ok (kept, kept_bytes)
  | record :: rest =>
      let! b := ok_or (observation_to_vec record) "serialize"%string in
      let size := str_len b + 1 in
      if COMPACTION_TARGET_BYTES <? saturating_add kept_bytes size
      then Ok (kept, kept_bytes)
      else keep_newest rest (record :: kept) (kept_bytes + size)
  end.

Fixpoint payload_of (records : list Observation) : result string string :=
  match records with
  | [] => Ok EmptyString
  | record :: rest =>
      let! b := ok_or (observation_to_vec record) "serialize"%string in
      let! payload := payload_of rest in
      Ok (line_of b +:+ payload)
  end.

(** [compact_locked]: the new disk, and the new cache and sidecar on success. *)
Definition compact_locked (io : AppendIo) (d : Disk) (cache : JournalCache) (meta : JournalMeta) :
    Disk * result string (JournalCache * JournalMeta) :=
  match
    let! (records, _) := read_journal (io_read io) (dk_journal d) in
    let! (kept, _) := keep_newest (rev records) [] 0 in
    let! payload := payload_of kept in
    Ok (records, kept, payload)
  with
  | Err e => (d, Err e)
  | Ok (records, kept, payload) =>
      if negb (io_replace io) then (d, Err "cannot replace the journal"%string)
      else
        let dropped := saturating_sub (zlen records) (zlen kept) in
        let d := mkDisk (Some payload) (dk_meta d) in
        let meta :=
          mkMeta (jm_schema_version meta) (saturating_add (jm_base_revision meta) dropped)
            (jm_write_failures meta) (saturating_add (jm_compactions meta) 1)
            (jm_last_write_error meta) in
        match write_meta (io_meta io) d meta with
        | (d, Err e) => (d, Err e)
        | (d, Ok _) =>
            (d, Ok (mkCache (str_len payload) (last_revision kept (jm_base_revision meta))
                      (dedupe_of kept), meta))
        end
  end.

(** * Appending *)

(** Writing a line at the end of the file. *)
Definition append_line (io : AppendIo) (d : Disk) (line : string) : Disk * result string unit :=
  if negb (io_open io) then (d, Err "cannot open observation journal"%string)
  else
    let text := default EmptyString (dk_journal d) in
    match io_write io with
    | WriteAll => (mkDisk (Some (text +:+ line)) (dk_meta d), Ok tt)
    | WriteTorn n =>
        (mkDisk (Some (text +:+ String.substring 0 n line)) (dk_meta d), Err "write"%string)
    | SyncFailed => (mkDisk (Some (text +:+ line)) (dk_meta d), Err "sync"%string)
    end.

(** [append] after the cache is fresh and the key is new. *)
Definition append_new (io : AppendIo) (d : Disk) (cache : JournalCache) (current_len : Z)
    (observation : Observation) : Disk * JournalCache * result string AppendOutcome :=
  let meta := read_meta d in
  let revision := Z.max (saturating_add (jc_revision cache) 1) (jm_base_revision meta) in
  match observation_to_vec (with_revision observation revision) with
  | None => (d, cache, Err "serialize"%string)
  | Some b =>
      let line := line_of b in
      let new_len := saturating_add current_len (str_len line) in
      let '(d, compacted) :=
        if MAX_JOURNAL_BYTES <? new_len then compact_locked io d cache meta
        else (d, Ok (cache, meta)) in
      match compacted with
      | Err e => (d, cache, Err e)
      | Ok (cache, _) =>
          match append_line io d line with
          | (d, Err e) => (d, cache, Err e)
          | (d, Ok _) =>
              (d, mkCache (if io_len io then journal_len d else new_len) revision
                    (<[ob_dedupe_key observation := revision]> (jc_dedupe cache)),
               Ok (Appended revision))
          end
      end
  end.

Definition append (io : AppendIo) (d : Disk) (cache : JournalCache) (observation : Observation) :
    Disk * JournalCache * result string AppendOutcome :=
  match validate_session_id (ob_session_id observation) with
  | Err e => (d, cache, Err e)
  | Ok _ =>
      if negb (io_prepare io) then (d, cache, Err "cannot acquire observation journal lock"%string)
      else match refresh_cache_locked (io_read io) d cache with
      | Err e => (d, cache, Err e)
      | Ok (cache, current_len) =>
          match jc_dedupe cache !! ob_dedupe_key observation with
          | Some revision => (d, cache, Ok (Duplicate revision))
          | None => append_new io d cache current_len observation
          end
      end
  end.

(** * Queries *)

Definition filter_matches (session_id : string) (filter : ListFilter) (record : Observation) : bool :=
  String.eqb (ob_session_id record) session_id
  && is_none_or (fun after => after <? ob_revision record) (lf_after_revision filter)
  && is_none_or (fun kind => bool_decide (ob_kind record = kind)) (lf_kind filter)
  && is_none_or (fun task => bool_decide (ob_task_id record = Some task)) (lf_task_id filter).

(** [list]; [ok]: the lock is taken and the file read. *)
Definition list_records (ok : bool) (d : Disk) (session_id : string) (filter : ListFilter) :
    result string (list Observation * Z) :=
  validate_session_id session_id ;!
  let! (records, corrupt) :=
    match dk_journal d with
    | Some _ => ensure ok "lock"%string ;! read_journal ok (dk_journal d)
    | None => Ok ([], 0)
    end in
  let filtered := List.filter (filter_matches session_id filter) records in
  let filtered :=
    match lf_limit filter with
    | Some limit =>
        if limit <? zlen filtered then zdrop (zlen filtered - limit) filtered else filtered
    | None => filtered
    end in
  Ok (filtered, corrupt).

Definition get_record (ok : bool) (d : Disk) (session_id : string) (id : Uuid) :
    result string (option Observation) :=
  let! (records, _) := list_records ok d session_id no_filter in
  Ok (find (fun record => bool_decide (ob_id record = id)) records).

(** One entry of the store's directory: a name (if it is UTF-8) and whether it
    is a regular file. *)
Definition session_of_entry (entry : option string * bool) : option string :=
  name ← entry.1;
  rest ← str_strip_prefix "obs-" name;
  session_id ← str_strip_suffix ".jsonl" rest;
  if is_ok (validate_session_id session_id) && entry.2 then Some session_id else None.

Definition retained_sessions (entries : list (option string * bool)) : list string :=
  sort_strings (omap session_of_entry entries).

Record ReplicationSnapshot : Type := mkSnapshot {
  rs_base_revision : Z;
  rs_head_revision : Z;
  rs_gap_count : Z;
  rs_write_failures : Z;
  rs_corrupt_lines : Z;
  rs_records : list Observation;
}.

(** The loop that counts the revisions missing between the records. *)
Fixpoint count_gaps (records : list Observation) (gap_count expected_revision : Z) : Z :=
  match records with
  | [] => gap_count
  | record :: rest =>
      let gap_count :=
        if expected_revision <? ob_revision record
        then saturating_add gap_count (ob_revision record - expected_revision)
        else gap_count in
      count_gaps rest gap_count
        (Z.max expected_revision (saturating_add (ob_revision record) 1))
  end.

Definition replication_snapshot (ok : bool) (d : Disk) (session_id : string)
    (after_revision limit : Z) : result string ReplicationSnapshot :=
  validate_session_id session_id ;!
  let meta := read_meta d in
  let! (records, corrupt_lines) :=
    match dk_journal d with
    | Some _ => ensure ok "lock"%string ;! read_journal ok (dk_journal d)
    | None => Ok ([], 0)
    end in
  let records :=
    sort_by_key ob_revision
      (List.filter (fun record => String.eqb (ob_session_id record) session_id) records) in
  let head_revision := last_revision records (jm_base_revision meta) in
  let gap_count := count_gaps records 0 (saturating_add (jm_base_revision meta) 1) in
  let page :=
    List.filter (fun record => String.eqb (ob_session_id record) session_id
                               && (after_revision <? ob_revision record)) records in
  Ok (mkSnapshot (jm_base_revision meta) head_revision gap_count (jm_write_failures meta)
        corrupt_lines (take (Z.to_nat limit) page)).

(** [Iterator::max] of the revisions. *)
Definition max_revision (records : list Observation) : option Z :=
  match records with
  | [] => None
  | r :: rest => Some (fold_left (fun m r => Z.max m (ob_revision r)) rest (ob_revision r))
  end.

Definition journal_status (ok : bool) (d : Disk) (session_id : string) :
    result string JournalStatus :=
  validate_session_id session_id ;!
  let meta := read_meta d in
  let base := jm_base_revision meta in
  let! (exists_, bytes, corrupt, observations, revision) :=
    match dk_journal d with
    | Some text =>
        ensure ok "lock"%string ;!
        let! (records, corrupt) := read_journal ok (dk_journal d) in
        Ok (true, str_len text, corrupt,
            zlen (List.filter (fun r => String.eqb (ob_session_id r) session_id) records),
            default base (max_revision records))
    | None => Ok (false, 0, 0, 0, 0)
    end in
  Ok (mkStatus OBSERVATION_SCHEMA_VERSION exists_ revision base observations bytes
        MAX_JOURNAL_BYTES (jm_compactions meta) (jm_write_failures meta)
        (jm_last_write_error meta) corrupt
        ((0 <? jm_write_failures meta) || (0 <? corrupt))).

End Journal.
