(* ===== verification/JournalTheorems.v ===== *)
(** What the observation journal guarantees ([Journal]): on a sound journal every
    append is a step of an append-once log; compaction keeps the newest records
    within its bound; replication reports exactly the missing revisions; and
    what a torn write does to the appends after it. *)

From S2P Require Import Prelude Strings Json Upgrade Observation Journal.

(** Compact JSON of a record is one object on one line of valid UTF-8, and parses
    to the record again; a number inside an inlined view may lose precision, so
    only the fields around the content are promised. *)
Class ObservationCodecLaws `{ObservationCodec} := {
  observation_object : forall o b, observation_to_vec o = Some b ->
    exists rest, b = String "{" rest /\ ends_with "}" b = true;
  observation_one_line : forall o b, observation_to_vec o = Some b ->
    forall x, x ∈ str_bytes b -> 32 <= x;
  observation_utf8 : forall o b, observation_to_vec o = Some b -> utf8_valid (str_bytes b) = true;
  observation_read_back : forall o b, observation_to_vec o = Some b ->
    exists content, observation_from_str b = Some (with_content o content);
}.

Section JournalTheorems.
Context `{ObservationCodecLaws}.

(** * Lines *)

Lemma observation_line (o : Observation) (b : string) :
  observation_to_vec o = Some b ->
  lines (line_of b) = [b] /\ trim_is_empty b = false /\ utf8_valid (str_bytes (line_of b)) = true.
Proof.
  intros Hb. destruct (observation_object o b Hb) as (rest & -> & Hend). split_and!.
  - apply lines_line.
    + intros Hin. assert (Hc : byte_of newline ∈ str_bytes (String "{" rest)).
      { by apply elem_of_map. }
      apply (observation_one_line o _ Hb) in Hc. done.
    + unfold strip_cr. destruct (str_strip_suffix _ _) as [p|] eqn:Hs; [|done]. exfalso.
      apply str_strip_suffix_Some in Hs.
      assert (Hc : byte_of carriage_return ∈ str_bytes (String "{" rest)).
      { rewrite Hs, str_bytes_app. apply elem_of_app. right. by left. }
      apply (observation_one_line o _ Hb) in Hc. done.
  - unfold trim_is_empty, chars, str_bytes. cbn [list_ascii_of_string map]. by cbn.
  - unfold line_of. rewrite str_bytes_app, utf8_valid_app; [done|]. by eapply observation_utf8.
Qed.

Lemma read_lines_seen (seen seen' : list Uuid) (l : list string) :
  (forall x, x ∈ seen <-> x ∈ seen') -> read_lines seen l = read_lines seen' l.
Proof.
  revert seen seen'. induction l as [|line l IH]; intros seen seen' Hs; simpl; [done|].
  destruct (trim_is_empty line); [by apply IH|].
  destruct (observation_from_str line) as [r|]; [|by rewrite (IH seen seen')].
  rewrite (bool_decide_ext _ (ob_id r ∈ seen') (Hs _)). rewrite (IH seen seen' Hs).
  destruct (_ && _); [|done].
  rewrite (IH (ob_id r :: seen) (ob_id r :: seen')); [done|].
  intros x. rewrite !elem_of_cons, Hs. done.
Qed.

Lemma read_lines_app (seen : list Uuid) (a b : list string) :
  let ra := read_lines seen a in
  let rb := read_lines (map ob_id ra.1 ++ seen) b in
  read_lines seen (a ++ b) = (ra.1 ++ rb.1, ra.2 + rb.2).
Proof.
  revert seen. induction a as [|line a IH]; intros seen; simpl.
  { by destruct (read_lines seen b). }
  destruct (trim_is_empty line); [apply IH|].
  assert (Hskip : read_lines seen (a ++ b)
    = ((read_lines seen a).1 ++ (read_lines (map ob_id (read_lines seen a).1 ++ seen) b).1,
       (read_lines seen a).2 + (read_lines (map ob_id (read_lines seen a).1 ++ seen) b).2))
    by apply IH.
  destruct (observation_from_str line) as [r|]; [destruct (_ && _)|].
  - specialize (IH (ob_id r :: seen)). rewrite IH.
    destruct (read_lines (ob_id r :: seen) a) as [ra ca]. simpl.
    erewrite (read_lines_seen (map ob_id ra ++ ob_id r :: seen)); [done|].
    intros x. simpl. rewrite !elem_of_cons, !elem_of_app, !elem_of_cons. tauto.
  - rewrite Hskip. destruct (read_lines seen a) as [ra ca]. simpl. f_equal. lia.
  - rewrite Hskip. destruct (read_lines seen a) as [ra ca]. simpl. f_equal. lia.
Qed.

(** * The state of a journal *)

Definition text_of (d : Disk) : string := default EmptyString (dk_journal d).
Definition records_of (d : Disk) : list Observation := (read_lines [] (lines (text_of d))).1.

Lemma journal_len_text (d : Disk) : journal_len d = str_len (text_of d).
Proof. unfold journal_len, text_of. by destruct (dk_journal d). Qed.

(** A record as the log sees it. *)
Definition entry_of (o : Observation) : Z * string := (ob_revision o, ob_dedupe_key o).
Definition entries_of (d : Disk) : list (Z * string) := map entry_of (records_of d).

(** A journal without a torn line: readable text, complete lines, and records in
    revision order. *)
Record journal_wf (d : Disk) : Prop := {
  jw_utf8 : utf8_valid (str_bytes (text_of d)) = true;
  jw_terminated : terminated (text_of d);
  jw_sorted : key_sorted ob_revision (records_of d);
}.

(** A cache agrees with the journal whenever it believes it does. *)
Definition cache_ok (d : Disk) (c : JournalCache) : Prop :=
  jc_file_len c = journal_len d ->
  jc_dedupe c = dedupe_of (records_of d)
  /\ forall r, r ∈ records_of d -> ob_revision r <= jc_revision c.

Lemma read_journal_Ok (ok : bool) (d : Disk) (p : list Observation * Z) :
  read_journal ok (dk_journal d) = Ok p ->
  ok = true /\ dk_journal d = Some (text_of d) /\ p = read_lines [] (lines (text_of d)).
Proof.
  unfold read_journal, text_of. intros Hr. apply bind_Ok in Hr as (t & Ht & Hr).
  apply ok_or_Ok in Ht. apply bind_Ok in Hr as ([] & Hok & [= <-]).
  apply ensure_Ok, andb_true_iff in Hok as [-> _]. by rewrite Ht.
Qed.

Lemma last_revision_max (l : list Observation) (base : Z) (r : Observation) :
  key_sorted ob_revision l -> r ∈ l -> ob_revision r <= last_revision l base.
Proof.
  unfold last_revision. intros Hs Hr. destruct (last l) as [x|] eqn:Hl.
  - apply last_Some in Hl as [l' ->]. apply key_sorted_app in Hs as (_ & _ & Hlt).
    apply elem_of_app in Hr as [Hr| ->%list_elem_of_singleton]; [|lia].
    specialize (Hlt r x Hr ltac:(by left)). lia.
  - apply last_None in Hl. subst. by apply elem_of_nil in Hr.
Qed.

(** Refreshing makes the cache agree, and touches nothing. *)
Lemma refresh_ok (ok : bool) (d : Disk) (c c' : JournalCache) (len : Z) :
  key_sorted ob_revision (records_of d) -> cache_ok d c ->
  refresh_cache_locked ok d c = Ok (c', len) ->
  cache_ok d c' /\ jc_file_len c' = journal_len d /\ len = journal_len d.
Proof.
  intros Hs Hc. unfold refresh_cache_locked.
  destruct (Z.eqb_spec (journal_len d) (jc_file_len c)) as [He|Hne]; [by intros [= <- <-]|].
  destruct (Z.eqb_spec (journal_len d) 0) as [Hz|Hz].
  - intros [= <- <-]. simpl. split_and!; [|done|done]. intros _. simpl.
    assert (Ht : text_of d = EmptyString).
    { unfold journal_len, text_of in *. destruct (dk_journal d) as [t|]; [|done].
      unfold str_len in Hz. by destruct t. }
    unfold records_of. rewrite Ht. split; [done|]. intros r Hr. by apply elem_of_nil in Hr.
  - intros Hr. apply bind_Ok in Hr as ([records corrupt] & Hrd & Hr).
    apply read_journal_Ok in Hrd as (_ & _ & Hp). injection Hr as <- <-. simpl.
    assert (Hrec : records = records_of d) by (unfold records_of; by rewrite <- Hp).
    split_and!; [|done|done]. intros _. simpl. rewrite Hrec. split; [done|].
    intros r Hin.
    pose proof (last_revision_max _ (jm_base_revision (read_meta d)) r Hs Hin). lia.
Qed.
(** * What reading yields *)

Lemma read_lines_sound (seen : list Uuid) (l : list string) :
  let records := (read_lines seen l).1 in
  Forall (fun r => ob_schema_version r = OBSERVATION_SCHEMA_VERSION /\ ob_id r ∉ seen) records
  /\ NoDup (map ob_id records).
Proof.
  revert seen. induction l as [|line l IH]; intros seen; simpl; [split; constructor|].
  destruct (trim_is_empty line); [apply IH|].
  assert (Hskip : forall c, let records := (let '(r, k) := read_lines seen l in (r, k + c)).1 in
    Forall (fun r => ob_schema_version r = OBSERVATION_SCHEMA_VERSION /\ ob_id r ∉ seen) records
    /\ NoDup (map ob_id records)).
  { intros c. specialize (IH seen). by destruct (read_lines seen l). }
  destruct (observation_from_str line) as [r|]; [|apply Hskip].
  destruct (Z.eqb_spec (ob_schema_version r) OBSERVATION_SCHEMA_VERSION) as [Hv|]; [|apply Hskip].
  destruct (decide (ob_id r ∈ seen)) as [Hin|Hn].
  { rewrite bool_decide_eq_true_2 by done. apply Hskip. }
  rewrite bool_decide_eq_false_2 by done. simpl. specialize (IH (ob_id r :: seen)).
  destruct (read_lines (ob_id r :: seen) l) as [rs k]. simpl in *. destruct IH as [Hall Hnd].
  split; [constructor; [done|]|constructor; [|done]].
  - eapply Forall_impl; [exact Hall|]. intros x [? Hx]. split; [done|].
    intros Hin. apply Hx. by right.
  - intros (x & Hx & He)%elem_of_map_inv.
    rewrite Forall_forall in Hall. destruct (Hall x Hx) as [_ Hxn].
    apply Hxn. rewrite He. by left.
Qed.

(** The same record up to the content of a view. *)
Definition similar (o o' : Observation) : Prop := exists content, o' = with_content o content.

(** Lines of new records are read as those records. *)
Lemma read_line_of (seen : list Uuid) (o : Observation) (b : string) (rest : list string) :
  observation_to_vec o = Some b -> ob_schema_version o = OBSERVATION_SCHEMA_VERSION ->
  ob_id o ∉ seen ->
  exists o', similar o o' /\ read_lines seen (b :: rest)
    = (o' :: (read_lines (ob_id o :: seen) rest).1, (read_lines (ob_id o :: seen) rest).2).
Proof.
  intros Hb Hv Hid. destruct (observation_line o b Hb) as (_ & Ht & _).
  destruct (observation_read_back o b Hb) as [content Hr].
  exists (with_content o content). split; [by exists content|]. simpl.
  rewrite Ht, Hr. simpl. rewrite Hv, bool_decide_eq_false_2 by done. simpl.
  by destruct (read_lines _ rest).
Qed.

Lemma payload_read (kept : list Observation) (payload : string) (seen : list Uuid) :
  payload_of kept = Ok payload ->
  Forall (fun r => ob_schema_version r = OBSERVATION_SCHEMA_VERSION /\ ob_id r ∉ seen) kept ->
  NoDup (map ob_id kept) ->
  terminated payload /\ utf8_valid (str_bytes payload) = true
  /\ exists kept', Forall2 similar kept kept' /\ read_lines seen (lines payload) = (kept', 0).
Proof.
  revert payload seen. induction kept as [|o kept IH]; intros payload seen; simpl.
  - intros [= <-] _ _. split_and!; [by left|done|]. exists []. by split.
  - intros Hp [[Hv Hid] Hall]%Forall_cons [Hnin Hnd]%NoDup_cons.
    apply bind_Ok in Hp as (b & Hb & Hp). apply ok_or_Ok in Hb.
    apply bind_Ok in Hp as (rest & Hrest & [= <-]).
    destruct (observation_line o b Hb) as (Hl & _ & Hutf).
    destruct (IH rest (ob_id o :: seen) Hrest) as (Ht & Hu & kept' & Hsim & Hread); [|done|].
    { rewrite Forall_forall in Hall |- *. intros x Hx. destruct (Hall x Hx) as [? Hxs].
      split; [done|]. intros [Heq|]%elem_of_cons; [|done]. apply Hnin. rewrite <- Heq.
      by apply elem_of_map. }
    split_and!.
    + destruct Ht as [->|[body ->]]; [|right; exists (line_of b +:+ body); by rewrite string_app_assoc].
      right. exists b. by rewrite string_app_nil_r.
    + by rewrite str_bytes_app, utf8_valid_app.
    + destruct (read_line_of seen o b (lines rest) Hb Hv Hid) as (o' & Ho & Hr).
      exists (o' :: kept'). split; [by constructor|].
      rewrite lines_terminated by (right; by exists b). rewrite Hl. simpl app.
      by rewrite Hr, Hread.
Qed.

(** * Compaction *)

Lemma target_value : COMPACTION_TARGET_BYTES = 6291456.
Proof. vm_compute. reflexivity. Qed.
Lemma max_value : MAX_JOURNAL_BYTES = 8388608.
Proof. vm_compute. reflexivity. Qed.
#[local] Opaque MAX_JOURNAL_BYTES COMPACTION_TARGET_BYTES.

(** The size of a record on disk. *)
Definition record_size (o : Observation) : Z :=
  match observation_to_vec o with
  | Some b => str_len b + 1
  | None => 0
  end.
Definition total_record_size (l : list Observation) : Z := sum_z (map record_size l).

Lemma record_size_nonneg (o : Observation) : 0 <= record_size o.
Proof. unfold record_size. case_match; [|lia]. pose proof (str_len_nonneg s). lia. Qed.

Lemma total_cons (o : Observation) (l : list Observation) :
  total_record_size (o :: l) = record_size o + total_record_size l.
Proof. reflexivity. Qed.

Lemma keep_newest_spec (l kept0 kept : list Observation) (n bytes : Z) :
  0 <= n <= COMPACTION_TARGET_BYTES -> keep_newest (rev l) kept0 n = Ok (kept, bytes) ->
  exists dropped kept1, l = dropped ++ kept1 /\ kept = kept1 ++ kept0
  /\ bytes = n + total_record_size kept1 /\ 0 <= bytes <= COMPACTION_TARGET_BYTES
  /\ (forall pre o, dropped = pre ++ [o] -> COMPACTION_TARGET_BYTES < bytes + record_size o).
Proof.
  revert kept0 n. induction l as [|o l IH] using rev_ind; intros kept0 n Hn; simpl.
  - intros [= <- <-]. exists [], []. split_and!; try done; try (unfold total_record_size; simpl; lia).
    intros pre o Hd. by destruct pre.
  - rewrite rev_app_distr. simpl. intros Hk. apply bind_Ok in Hk as (b & Hb & Hk).
    apply ok_or_Ok in Hb.
    assert (Hsize : record_size o = str_len b + 1) by (unfold record_size; by rewrite Hb).
    destruct (Z.ltb_spec COMPACTION_TARGET_BYTES (saturating_add n (str_len b + 1))) as [Hlt|Hge].
    + injection Hk as <- <-. exists (l ++ [o]), [].
      split_and!; try done; try (unfold total_record_size; simpl; lia); [by rewrite app_nil_r|].
      intros pre x [_ <-]%app_inj_tail. unfold saturating_add in Hlt.
      rewrite target_value in *. lia.
    + pose proof (record_size_nonneg o).
      assert (Hsum : saturating_add n (str_len b + 1) = n + (str_len b + 1)).
      { unfold saturating_add in *. rewrite target_value in *.
        unfold U64_MAX in *. lia. }
      apply IH in Hk as (dropped & kept1 & -> & -> & -> & Hb2 & Hmax); [|lia].
      exists dropped, (kept1 ++ [o]).
      assert (Ht : total_record_size (kept1 ++ [o]) = total_record_size kept1 + record_size o).
      { unfold total_record_size. rewrite map_app, sum_z_app. unfold sum_z at 2. simpl. lia. }
      rewrite Ht. split_and!; try lia; [by rewrite app_assoc|by rewrite <- app_assoc|].
      intros pre x Hd. specialize (Hmax pre x Hd). lia.
Qed.

Lemma payload_len (kept : list Observation) (payload : string) :
  payload_of kept = Ok payload -> str_len payload = total_record_size kept.
Proof.
  revert payload. induction kept as [|o kept IH]; intros payload; simpl; [by intros [= <-]|].
  intros Hp. apply bind_Ok in Hp as (b & Hb & Hp). apply ok_or_Ok in Hb.
  apply bind_Ok in Hp as (rest & Hrest & [= <-]).
  rewrite total_cons. unfold line_of, record_size. rewrite Hb.
  rewrite !str_len_append, (IH rest Hrest). done.
Qed.

Lemma similar_map {A : Type} (f : Observation -> A) (l l' : list Observation) :
  (forall o c, f (with_content o c) = f o) -> Forall2 similar l l' -> map f l' = map f l.
Proof. intros Hf. induction 1 as [|o o' l l' [c ->]]; simpl; [done|]. by rewrite Hf, IHForall2. Qed.

Lemma sorted_map_eq (l l' : list Observation) :
  map ob_revision l' = map ob_revision l -> key_sorted ob_revision l -> key_sorted ob_revision l'.
Proof.
  revert l'. induction l as [|o l IH]; intros [|o' l']; simpl; try done. intros [= Ho Hl] Hs.
  apply StronglySorted_inv in Hs as [Hs Hall]. constructor; [by apply IH|].
  rewrite Ho. rewrite Forall_forall in Hall |- *. intros x Hx.
  assert (Hin : ob_revision x ∈ map ob_revision l) by (rewrite <- Hl; by apply elem_of_map).
  apply elem_of_map_inv in Hin as (y & Hy & ->). by apply Hall.
Qed.

Lemma dedupe_map_eq (l l' : list Observation) :
  map entry_of l' = map entry_of l -> dedupe_of l' = dedupe_of l.
Proof.
  unfold dedupe_of. generalize (∅ : gmap string Z). revert l'.
  induction l as [|o l IH]; intros [|o' l'] m; simpl; try done. intros [= Hr Hk Hl].
  rewrite Hr, Hk. by apply IH.
Qed.

Lemma last_revision_map_eq (l l' : list Observation) (base : Z) :
  map ob_revision l' = map ob_revision l -> last_revision l' base = last_revision l base.
Proof.
  intros Hm. assert (Hl : ob_revision <$> last l' = ob_revision <$> last l).
  { rewrite <- !fmap_last. by f_equal. }
  unfold last_revision. destruct (last l'), (last l); simpl in Hl; congruence.
Qed.

(** What a compaction that replaced the journal leaves. *)
Record compacted (d d' : Disk) : Prop := {
  cp_wf : journal_wf d';
  cp_exists : dk_journal d' = Some (text_of d');
  cp_suffix : exists dropped, entries_of d = dropped ++ entries_of d';
  cp_ids : map ob_id (records_of d') `suffix_of` map ob_id (records_of d);
  cp_len : journal_len d' <= COMPACTION_TARGET_BYTES;
}.

Lemma compact_fails (io : AppendIo) (d d' : Disk) (c : JournalCache) (m : JournalMeta) (e : string) :
  compact_locked io d c m = (d', Err e) -> d' = d \/ io_replace io = true /\ io_meta io = false.
Proof.
  unfold compact_locked. destruct (bind _ _) as [[[records kept] payload]|e'];
    [|by intros [= <- _]; left].
  destruct (io_replace io); simpl; [|by intros [= <- _]; left].
  unfold write_meta. destruct (io_meta io); [done|]. by right.
Qed.

Lemma compact_spec (io : AppendIo) (d d' : Disk) (c : JournalCache) (m : JournalMeta)
    (r : result string (JournalCache * JournalMeta)) :
  journal_wf d -> compact_locked io d c m = (d', r) ->
  d' = d /\ (exists e, r = Err e)
  \/ compacted d d'
     /\ forall c' m', r = Ok (c', m') -> cache_ok d' c' /\ jc_file_len c' = journal_len d'
        /\ (forall x, x ∈ records_of d' -> ob_revision x <= jc_revision c').
Proof.
  intros [Hutf Hterm Hsort] Hc. unfold compact_locked in Hc.
  destruct (bind (read_journal _ _) _) as [[[records kept] payload]|e] eqn:E;
    [|left; injection Hc as <- <-; by eauto].
  destruct (io_replace io); simpl in Hc; [|left; injection Hc as <- <-; by eauto].
  apply bind_Ok in E as ([rs corrupt] & Hr & E). apply read_journal_Ok in Hr as (_ & _ & Hp).
  apply bind_Ok in E as ([k bytes] & Hk & E). apply bind_Ok in E as (pl & Hpl & E).
  injection E as -> -> ->.
  assert (Hrec : records = records_of d) by (unfold records_of; by rewrite <- Hp).
  apply keep_newest_spec in Hk as (dropped & kept1 & Hl & -> & Hbytes & Hb & _);
    [|rewrite target_value; lia].
  rewrite app_nil_r in *. rewrite Hrec in Hl.
  pose proof (read_lines_sound [] (lines (text_of d))) as [Hall Hnd].
  fold (records_of d) in Hall, Hnd. rewrite Hl in Hall, Hnd, Hsort.
  apply Forall_app in Hall as [_ Hall]. rewrite map_app in Hnd. apply NoDup_app in Hnd as (_ & _ & Hnd).
  apply key_sorted_app in Hsort as (_ & Hsort & _).
  destruct (payload_read kept1 payload [] Hpl Hall Hnd) as (Ht & Hu & kept' & Hsim & Hread).
  pose proof (payload_len _ _ Hpl) as Hlen.
  pose proof (similar_map entry_of _ _ ltac:(done) Hsim) as He.
  pose proof (similar_map ob_id _ _ ltac:(done) Hsim) as Hi.
  pose proof (similar_map ob_revision _ _ ltac:(done) Hsim) as Hrv.
  right. set (d1 := mkDisk (Some payload) (dk_meta d)) in *.
  assert (Hd' : dk_journal d' = Some payload).
  { unfold write_meta in Hc. destruct (io_meta io); by injection Hc as <- _. }
  assert (Hrec' : records_of d' = kept').
  { unfold records_of, text_of. rewrite Hd'. simpl. by rewrite Hread. }
  assert (Hs' : key_sorted ob_revision kept') by (by eapply sorted_map_eq).
  split.
  - split; unfold entries_of, journal_len, text_of; rewrite ?Hrec', ?Hd'; simpl; try done.
    + split; unfold text_of; rewrite ?Hrec', ?Hd'; done.
    + exists (map entry_of dropped). by rewrite Hl, map_app, He.
    + exists (map ob_id dropped). by rewrite Hl, map_app, Hi.
    + lia.
  - intros c' m' ->. unfold write_meta in Hc. destruct (io_meta io); [|done].
    injection Hc as _ <- _. unfold cache_ok, journal_len. simpl. rewrite Hd', Hrec'.
    assert (Hle : forall x, x ∈ kept' -> ob_revision x <= last_revision kept1
                    (saturating_add (jm_base_revision m) (saturating_sub (zlen records) (zlen kept1)))).
    { intros x Hx. rewrite <- (last_revision_map_eq _ kept' _ Hrv). by apply last_revision_max. }
    split_and!; [|done|done]. intros _. split; [by rewrite (dedupe_map_eq _ _ He)|done].
Qed.

(** * Appending a line *)

Lemma append_line_read (d : Disk) (meta : option JournalMeta) (o : Observation) (b : string) :
  journal_wf d -> observation_to_vec o = Some b ->
  ob_schema_version o = OBSERVATION_SCHEMA_VERSION -> ob_id o ∉ map ob_id (records_of d) ->
  (forall r, r ∈ records_of d -> ob_revision r < ob_revision o) ->
  let d' := mkDisk (Some (text_of d +:+ line_of b)) meta in
  journal_wf d' /\ journal_len d' = str_len (text_of d) + record_size o
  /\ exists o', similar o o' /\ records_of d' = records_of d ++ [o'].
Proof.
  intros [Hutf Hterm Hsort] Hb Hv Hid Hrev d'.
  destruct (observation_line o b Hb) as (Hl & _ & Hu).
  assert (Hread : exists o', similar o o' /\ records_of d' = records_of d ++ [o']).
  { unfold records_of. change (text_of d') with (text_of d +:+ line_of b).
    rewrite lines_terminated by done. rewrite Hl, read_lines_app. cbn [fst].
    destruct (read_line_of (map ob_id (records_of d) ++ []) o b [] Hb Hv) as (o' & Ho & Hr).
    { by rewrite app_nil_r. }
    exists o'. split; [done|]. fold (records_of d). by rewrite Hr. }
  assert (Hlen : journal_len d' = str_len (text_of d) + record_size o).
  { change (journal_len d') with (str_len (text_of d +:+ line_of b)).
    unfold record_size, line_of. rewrite Hb, !str_len_append. done. }
  split_and!; [|done|done].
  destruct Hread as (o' & [content ->] & Hr). split.
  - change (text_of d') with (text_of d +:+ line_of b). by rewrite str_bytes_app, utf8_valid_app.
  - change (text_of d') with (text_of d +:+ line_of b). apply terminated_line.
  - rewrite Hr. apply key_sorted_app. split_and!; [done|by repeat constructor|].
    intros x y Hx ->%list_elem_of_singleton. by apply Hrev.
Qed.

Lemma dedupe_snoc (l : list Observation) (o : Observation) :
  dedupe_of (l ++ [o]) = <[ob_dedupe_key o := ob_revision o]> (dedupe_of l).
Proof. unfold dedupe_of. by rewrite fold_left_app. Qed.

(** The map knows exactly the keys of the records. *)
Lemma dedupe_lookup (l : list Observation) (key : string) :
  match dedupe_of l !! key with
  | Some rev => (rev, key) ∈ map entry_of l
  | None => key ∉ map ob_dedupe_key l
  end.
Proof.
  induction l as [|o l IH] using rev_ind; [by apply not_elem_of_nil|].
  rewrite dedupe_snoc, !map_app. destruct (decide (ob_dedupe_key o = key)) as [<-|Hne].
  - rewrite lookup_insert_eq. apply elem_of_app. right. by left.
  - rewrite lookup_insert_ne by done. destruct (dedupe_of l !! key).
    + apply elem_of_app. by left.
    + intros [Hin|Hin]%elem_of_app; [done|]. by apply list_elem_of_singleton in Hin.
Qed.

(** * The abstract log *)

(** An append-once log, which may forget its oldest entries at any step: a
    recorded key is answered with its revision; a new one is appended under a
    revision above every entry; an error appends the entry or nothing. *)
Inductive log_step (key : string) :
    list (Z * string) -> result string AppendOutcome -> list (Z * string) -> Prop :=
| log_duplicate (l : list (Z * string)) (rev : Z) :
    (rev, key) ∈ l -> log_step key l (Ok (Duplicate rev)) l
| log_append (l dropped kept : list (Z * string)) (rev : Z) :
    l = dropped ++ kept -> key ∉ map snd l -> (forall e, e ∈ l -> e.1 < rev) ->
    log_step key l (Ok (Appended rev)) (kept ++ [(rev, key)])
| log_error (l dropped kept : list (Z * string)) (e : string) :
    l = dropped ++ kept -> log_step key l (Err e) kept
| log_unsynced (l dropped kept : list (Z * string)) (rev : Z) (e : string) :
    l = dropped ++ kept -> key ∉ map snd l -> (forall e, e ∈ l -> e.1 < rev) ->
    log_step key l (Err e) (kept ++ [(rev, key)]).

(** Revisions left: 2^64 appends are out of reach. *)
Definition room (d : Disk) (c : JournalCache) : Prop :=
  jc_revision c < U64_MAX /\ jm_base_revision (read_meta d) < U64_MAX
  /\ forall r, r ∈ records_of d -> ob_revision r < U64_MAX.

(** The file system does not tear a line, and does not lose the sidecar of a
    compaction that replaced the journal. *)
Definition clean_io (io : AppendIo) : Prop :=
  (forall n, io_write io <> WriteTorn n) /\ (io_replace io = true -> io_meta io = true).

Lemma entries_fst (d : Disk) (e : Z * string) :
  e ∈ entries_of d -> exists r, r ∈ records_of d /\ e = entry_of r.
Proof. by intros (r & Hr & ->)%elem_of_map_inv; exists r. Qed.

Lemma entries_keys (d : Disk) : map snd (entries_of d) = map ob_dedupe_key (records_of d).
Proof. unfold entries_of. rewrite map_map. done. Qed.

(** Writing the line of a new record on a sound journal [d1], what is left of [d]. *)
Lemma append_line_spec (io : AppendIo) (d d1 d2 : Disk) (c1 : JournalCache) (o : Observation)
    (b : string) (r : result string unit) (dropped : list (Z * string)) :
  journal_wf d1 -> cache_ok d1 c1 -> jc_file_len c1 = journal_len d1 ->
  entries_of d = dropped ++ entries_of d1 ->
  ob_dedupe_key o ∉ map snd (entries_of d) ->
  (forall e, e ∈ entries_of d -> e.1 < ob_revision o) ->
  observation_to_vec o = Some b -> ob_schema_version o = OBSERVATION_SCHEMA_VERSION ->
  ob_id o ∉ map ob_id (records_of d1) -> clean_io io ->
  append_line io d1 (line_of b) = (d2, r) ->
  journal_wf d2
  /\ match r with
     | Ok _ => entries_of d2 = entries_of d1 ++ [entry_of o]
               /\ dedupe_of (records_of d2) = <[ob_dedupe_key o := ob_revision o]> (jc_dedupe c1)
               /\ (forall x, x ∈ records_of d2 -> ob_revision x <= ob_revision o)
     | Err e => cache_ok d2 c1 /\ log_step (ob_dedupe_key o) (entries_of d) (Err e) (entries_of d2)
     end.
Proof.
  intros Hwf Hc Hlen Hd Hkey Hrev Hb Hv Hid [Htorn _] Ha. unfold append_line in Ha.
  destruct (io_open io); simpl in Ha.
  2: { injection Ha as <- <-. split_and!; try done. by eapply log_error. }
  assert (Hr : forall x, x ∈ records_of d1 -> ob_revision x < ob_revision o).
  { intros x Hx. apply (Hrev (entry_of x)). rewrite Hd. apply elem_of_app. right.
    by apply elem_of_map. }
  fold (text_of d1) in Ha.
  destruct (append_line_read d1 (dk_meta d1) o b Hwf Hb Hv Hid Hr)
    as (Hwf2 & Hlen2 & o' & [content ->] & Hrec).
  assert (Hent : entries_of (mkDisk (Some (text_of d1 +:+ line_of b)) (dk_meta d1))
                 = entries_of d1 ++ [entry_of o]).
  { unfold entries_of. by rewrite Hrec, map_app. }
  destruct (io_write io) as [|n|]; [|by destruct (Htorn n)|]; injection Ha as <- <-.
  - split_and!; try done.
    + rewrite Hrec, dedupe_snoc. by destruct (Hc Hlen) as [-> _].
    + intros x. rewrite Hrec. intros [Hx| ->%list_elem_of_singleton]%elem_of_app; [|done].
      apply Hr in Hx. lia.
  - split_and!; [done| |].
    + intros He. exfalso. rewrite Hlen2 in He. unfold record_size in He. rewrite Hb in He.
      pose proof (str_len_nonneg b). rewrite Hlen, journal_len_text in He. lia.
    + rewrite Hent. by eapply log_unsynced.
Qed.

Lemma refresh_room (ok : bool) (d : Disk) (c c' : JournalCache) (len : Z) :
  room d c -> refresh_cache_locked ok d c = Ok (c', len) -> jc_revision c' < U64_MAX.
Proof.
  intros (Hroom & Hbase & Hmax). unfold refresh_cache_locked.
  destruct (journal_len d =? jc_file_len c); [by intros [= <- _]|].
  destruct (journal_len d =? 0); [by intros [= <- _]|].
  intros Hr. apply bind_Ok in Hr as ([records corrupt] & Hrd & Hr).
  apply read_journal_Ok in Hrd as (_ & _ & Hp). injection Hr as <- _. simpl.
  unfold last_revision. destruct (last records) as [x|] eqn:Hl; [|lia].
  assert (x ∈ records_of d); [|by specialize (Hmax x ltac:(done)); lia].
  unfold records_of. rewrite <- Hp. apply last_Some in Hl as [l' ->]. apply elem_of_app. right. by left.
Qed.

(** [append_new] on a fresh cache that does not know the key. *)
Lemma append_new_spec (io : AppendIo) (d d' : Disk) (c c' : JournalCache) (o : Observation)
    (r : result string AppendOutcome) :
  journal_wf d -> cache_ok d c -> jc_file_len c = journal_len d -> clean_io io ->
  jc_revision c < U64_MAX ->
  ob_schema_version o = OBSERVATION_SCHEMA_VERSION -> ob_id o ∉ map ob_id (records_of d) ->
  ob_dedupe_key o ∉ map ob_dedupe_key (records_of d) ->
  append_new io d c (journal_len d) o = (d', c', r) ->
  journal_wf d' /\ cache_ok d' c' /\ log_step (ob_dedupe_key o) (entries_of d) r (entries_of d').
Proof.
  intros Hwf Hc Hlen Hio Hroom Hv Hid Hkey Ha. unfold append_new in Ha. cbv zeta in Ha.
  set (revision := Z.max (saturating_add (jc_revision c) 1) (jm_base_revision (read_meta d))) in *.
  assert (Hsat : jc_revision c < revision).
  { unfold revision. rewrite saturating_add_exact by lia. lia. }
  assert (Hrev : forall e, e ∈ entries_of d -> e.1 < revision).
  { intros e (x & Hx & ->)%entries_fst. destruct (Hc Hlen) as [_ Hle]. specialize (Hle x Hx). simpl. lia. }
  rewrite <- entries_keys in Hkey.
  destruct (observation_to_vec (with_revision o revision)) as [b|] eqn:Hb.
  2: { injection Ha as <- <- <-. split_and!; try done. by apply (log_error _ _ [] _). }
  destruct (if MAX_JOURNAL_BYTES <? _ then _ else _) as [d1 rc] eqn:Hcomp.
  assert (Hleft : d1 = d /\ rc = Ok (c, read_meta d) \/ d1 = d /\ (exists e, rc = Err e)
    \/ compacted d d1 /\ forall c1 m1, rc = Ok (c1, m1) -> cache_ok d1 c1
         /\ jc_file_len c1 = journal_len d1).
  { destruct (MAX_JOURNAL_BYTES <? _).
    - apply compact_spec in Hcomp as [[-> He]|[Hcp Hok]]; [by right; left| |done].
      right; right. split; [done|]. intros c1 m1 Hrc. destruct (Hok c1 m1 Hrc) as (? & ? & _). done.
    - injection Hcomp as <- <-. by left. }
  assert (Hd1 : journal_wf d1 /\ (exists dropped, entries_of d = dropped ++ entries_of d1)
    /\ ob_id o ∉ map ob_id (records_of d1)).
  { assert (Hall : d1 = d \/ compacted d d1) by naive_solver.
    destruct Hall as [->|Hcp]; [split_and!; [done|by exists []|done]|].
    destruct Hcp as [? _ ? [k Hk] _]. split_and!; [done|done|].
    intros Hin. apply Hid. rewrite Hk. apply elem_of_app. by right. }
  destruct Hd1 as (Hwf1 & [dropped Hdrop] & Hid1).
  destruct rc as [[c1 m1]|e].
  2: { injection Ha as <- <- <-. split_and!; [done| |by eapply log_error].
       destruct Hleft as [[-> ?]|[[-> _]|[Hcp _]]]; [done|done|].
       destruct (compact_fails io d d1 c (read_meta d) e) as [->|Hm]; [|done|].
       - destruct (MAX_JOURNAL_BYTES <? _); [done|by injection Hcomp].
       - destruct Hio as [_ Hio]. destruct Hm as [Hrep Hmeta]. rewrite Hio in Hmeta; done. }
  assert (Hc1 : cache_ok d1 c1 /\ jc_file_len c1 = journal_len d1).
  { destruct Hleft as [[-> [= -> _]]|[[_ [? ?]]|[_ Hok]]]; [done|done|by eapply Hok]. }
  destruct Hc1 as [Hc1 Hlen1].
  destruct (append_line io d1 (line_of b)) as [d2 rl] eqn:Hal.
  eapply (append_line_spec io d d1 d2 c1 (with_revision o revision) b rl dropped) in Hal
    as [Hwf2 Hres]; try done.
  destruct rl as [u|e]; injection Ha as <- <- <-; split_and!; try done; [| |apply Hres..].
  - destruct Hres as (_ & Hded & Hmax). intros _. simpl. done.
  - destruct Hres as [-> _]. by eapply log_append.
Qed.

(** * Appending *)

(** [append] on a sound journal. *)
Lemma append_spec (io : AppendIo) (d d' : Disk) (c c' : JournalCache) (o : Observation)
    (r : result string AppendOutcome) :
  journal_wf d -> cache_ok d c -> room d c -> clean_io io ->
  ob_schema_version o = OBSERVATION_SCHEMA_VERSION -> ob_id o ∉ map ob_id (records_of d) ->
  append io d c o = (d', c', r) ->
  journal_wf d' /\ cache_ok d' c' /\ log_step (ob_dedupe_key o) (entries_of d) r (entries_of d').
Proof.
  intros Hwf Hc (Hroom & Hbase & Hmax) Hio Hv Hid Ha. unfold append in Ha.
  assert (Hsame : forall e, journal_wf d /\ cache_ok d c
            /\ log_step (ob_dedupe_key o) (entries_of d) (Err e) (entries_of d)).
  { intros e. split_and!; [done|done|]. by apply (log_error _ _ [] _). }
  destruct (validate_session_id _); [|injection Ha as <- <- <-; apply Hsame].
  destruct (io_prepare io); simpl in Ha; [|injection Ha as <- <- <-; apply Hsame].
  destruct (refresh_cache_locked _ _ _) as [[c1 len]|e] eqn:Href;
    [|injection Ha as <- <- <-; apply Hsame].
  assert (Hrev1 : jc_revision c1 < U64_MAX) by (by eapply refresh_room).
  apply refresh_ok in Href as (Hc1 & Hlen1 & ->); [|apply Hwf|done].
  destruct (Hc1 Hlen1) as [Hded Hle]. pose proof (dedupe_lookup (records_of d) (ob_dedupe_key o)) as Hk.
  rewrite <- Hded in Hk. destruct (jc_dedupe c1 !! ob_dedupe_key o) as [rev|].
  { injection Ha as <- <- <-. split_and!; try done. by apply log_duplicate. }
  by eapply append_new_spec.
Qed.

(** * Processes *)

(** The files of one session and the caches of the processes that write it. *)
Record Machine : Type := mkMachine {
  mc_disk : Disk;
  mc_caches : nat -> JournalCache;
}.

Definition set_cache (m : Machine) (p : nat) (c : JournalCache) : nat -> JournalCache :=
  fun q => if decide (q = p) then c else mc_caches m q.

(** A step of a process.  An append assumes the bookkeeping the code relies on:
    fresh ids, revisions to spare, no torn line; and that no other process
    remembers, from before, a journal of exactly the new length. *)
Inductive journal_step (m : Machine) :
    option (string * result string AppendOutcome) -> Machine -> Prop :=
| step_append (p : nat) (io : AppendIo) (o : Observation) (d' : Disk) (c' : JournalCache)
    (r : result string AppendOutcome)
    (Happend : append io (mc_disk m) (mc_caches m p) o = (d', c', r))
    (Hio : clean_io io) (Hroom : room (mc_disk m) (mc_caches m p))
    (Hschema : ob_schema_version o = OBSERVATION_SCHEMA_VERSION)
    (Hfresh : ob_id o ∉ map ob_id (records_of (mc_disk m)))
    (Hlen : dk_journal d' = dk_journal (mc_disk m)
            \/ forall q, q <> p -> jc_file_len (mc_caches m q) <> journal_len d') :
    journal_step m (Some (ob_dedupe_key o, r)) (mkMachine d' (set_cache m p c'))
| step_restart (p : nat) :
    journal_step m None (mkMachine (mc_disk m) (set_cache m p cache_default))
| step_note_failure (prepare_ok meta_ok : bool) (error : string) :
    journal_step m None
      (mkMachine (note_write_failure prepare_ok meta_ok (mc_disk m) error) (mc_caches m)).

Inductive journal_run : Machine -> list (string * result string AppendOutcome) -> Machine -> Prop :=
| run_nil (m : Machine) : journal_run m [] m
| run_silent (m m1 m2 : Machine) (l : list (string * result string AppendOutcome)) :
    journal_step m None m1 -> journal_run m1 l m2 -> journal_run m l m2
| run_cons (m m1 m2 : Machine) (a : string * result string AppendOutcome)
    (l : list (string * result string AppendOutcome)) :
    journal_step m (Some a) m1 -> journal_run m1 l m2 -> journal_run m (a :: l) m2.

Inductive log_run :
    list (Z * string) -> list (string * result string AppendOutcome) -> list (Z * string) -> Prop :=
| log_run_nil (l : list (Z * string)) : log_run l [] l
| log_run_cons (l l1 l2 : list (Z * string)) (key : string) (r : result string AppendOutcome)
    (rest : list (string * result string AppendOutcome)) :
    log_step key l r l1 -> log_run l1 rest l2 -> log_run l ((key, r) :: rest) l2.

(** The simulation relation's concrete half. *)
Definition machine_ok (m : Machine) : Prop :=
  journal_wf (mc_disk m) /\ forall p, cache_ok (mc_disk m) (mc_caches m p).

Lemma same_text (d d' : Disk) :
  dk_journal d' = dk_journal d ->
  (journal_wf d -> journal_wf d') /\ (forall c, cache_ok d c -> cache_ok d' c)
  /\ entries_of d' = entries_of d.
Proof.
  intros He. assert (Hr : records_of d' = records_of d) by (unfold records_of, text_of; by rewrite He).
  split_and!.
  - intros [Hu Ht Hs]. split; unfold text_of in *; rewrite ?Hr, ?He; done.
  - intros c Hc. unfold cache_ok, journal_len in *. by rewrite Hr, He.
  - unfold entries_of. by rewrite Hr.
Qed.

Lemma cache_default_ok (d : Disk) : cache_ok d cache_default.
Proof.
  unfold cache_ok. rewrite journal_len_text. intros Hl. unfold records_of.
  destruct (text_of d) as [|x t]; [|unfold str_len in Hl; done].
  split; [done|]. intros r Hr. by apply elem_of_nil in Hr.
Qed.

Lemma journal_step_sim (m m' : Machine) (a : option (string * result string AppendOutcome)) :
  machine_ok m -> journal_step m a m' ->
  machine_ok m'
  /\ match a with
     | Some (key, r) => log_step key (entries_of (mc_disk m)) r (entries_of (mc_disk m'))
     | None => entries_of (mc_disk m') = entries_of (mc_disk m)
     end.
Proof.
  intros [Hwf Hc] [p io o d' c' r Ha Hio Hroom Hv Hid Hlen|p|a1 a2 e]; simpl.
  - destruct (append_spec io _ d' _ c' o r Hwf (Hc p) Hroom Hio Hv Hid Ha) as (Hwf' & Hc' & Hs).
    split; [|done]. split; [done|]. intros q. unfold set_cache. simpl.
    destruct (decide (q = p)) as [->|Hne]; [done|]. destruct Hlen as [He|Hl].
    + by apply (same_text _ _ He).
    + intros Hq. by destruct (Hl q Hne).
  - split; [|done]. split; [done|]. intros q. unfold set_cache. simpl.
    destruct (decide (q = p)); [apply cache_default_ok|apply Hc].
  - assert (He : dk_journal (note_write_failure a1 a2 (mc_disk m) e) = dk_journal (mc_disk m)).
    { unfold note_write_failure, write_meta. by destruct a1, a2. }
    destruct (same_text _ _ He) as (Hw & Hcc & Hent). split; [|done].
    split; [by apply Hw|]. intros q. by apply Hcc, Hc.
Qed.

Lemma machine_start (meta : option JournalMeta) :
  machine_ok (mkMachine (mkDisk None meta) (fun _ => cache_default)).
Proof.
  split; [|intros p; apply cache_default_ok]. split; [done|by left|constructor].
Qed.


(** * Bounds *)

Lemma compact_len (io : AppendIo) (d d' : Disk) (c : JournalCache) (m : JournalMeta)
    (r : result string (JournalCache * JournalMeta)) :
  compact_locked io d c m = (d', r) ->
  (d' = d /\ exists e, r = Err e) \/ journal_len d' <= COMPACTION_TARGET_BYTES.
Proof.
  unfold compact_locked. destruct (bind (read_journal _ _) _) as [[[records kept] payload]|e] eqn:E;
    [|intros [= <- <-]; left; by eauto].
  destruct (io_replace io); simpl; [|intros [= <- <-]; left; by eauto].
  apply bind_Ok in E as ([rs corrupt] & Hr & E).
  apply bind_Ok in E as ([k bytes] & Hk & E). apply bind_Ok in E as (pl & Hpl & [= -> -> ->]).
  apply keep_newest_spec in Hk as (dropped & kept1 & _ & -> & -> & Hb & _);
    [|rewrite target_value; lia].
  rewrite app_nil_r in Hpl. apply payload_len in Hpl.
  unfold write_meta. destruct (io_meta io); intros [= <- _]; right; unfold journal_len; simpl; lia.
Qed.

Lemma substring_len (n : nat) (s : string) : str_len (String.substring 0 n s) <= str_len s.
Proof.
  unfold str_len. revert n. induction s as [|x s IH]; intros [|n]; simpl; try lia.
  specialize (IH n). lia.
Qed.

Lemma append_line_len (io : AppendIo) (d d' : Disk) (line : string) (r : result string unit) :
  append_line io d line = (d', r) -> journal_len d' <= journal_len d + str_len line.
Proof.
  pose proof (str_len_nonneg line). pose proof (journal_len_text d) as Hl. unfold text_of in Hl.
  unfold append_line. destruct (io_open io); simpl; [|intros [= <- _]; lia].
  destruct (io_write io) as [|n|]; intros [= <- _]; rewrite journal_len_text; unfold text_of; simpl;
    rewrite str_len_append; [lia| |lia].
  pose proof (substring_len n line). lia.
Qed.

Lemma refresh_len (ok : bool) (d : Disk) (c c' : JournalCache) (len : Z) :
  refresh_cache_locked ok d c = Ok (c', len) -> len = journal_len d.
Proof.
  unfold refresh_cache_locked. destruct (journal_len d =? jc_file_len c); [by intros [= _ <-]|].
  destruct (Z.eqb_spec (journal_len d) 0) as [Hz|]; [by intros [= _ <-]|].
  intros Hr. by apply bind_Ok in Hr as ([records corrupt] & _ & [= _ <-]).
Qed.

Lemma compact_if_len (io : AppendIo) (d d1 : Disk) (c : JournalCache) (m : JournalMeta) (n : Z)
    (rc : result string (JournalCache * JournalMeta)) :
  journal_len d <= MAX_JOURNAL_BYTES -> 0 <= n <= MAX_JOURNAL_BYTES - COMPACTION_TARGET_BYTES ->
  (if MAX_JOURNAL_BYTES <? saturating_add (journal_len d) n then compact_locked io d c m
   else (d, Ok (c, m))) = (d1, rc) ->
  journal_len d1 <= MAX_JOURNAL_BYTES
  /\ forall x, rc = Ok x -> journal_len d1 + n <= MAX_JOURNAL_BYTES.
Proof.
  intros Hlen Hn. destruct (Z.ltb_spec MAX_JOURNAL_BYTES (saturating_add (journal_len d) n)) as [Hlt|Hge].
  - intros [[-> [e ->]]|Hl]%compact_len; [done|]. split; [lia|]. intros x _. lia.
  - intros [= <- <-]. split; [done|]. intros x _. revert Hge. unfold saturating_add, U64_MAX.
    rewrite max_value in *. lia.
Qed.

Lemma append_len (io : AppendIo) (d d' : Disk) (c c' : JournalCache) (o : Observation)
    (r : result string AppendOutcome) :
  journal_len d <= MAX_JOURNAL_BYTES ->
  (forall n, record_size (with_revision o n) <= MAX_JOURNAL_BYTES - COMPACTION_TARGET_BYTES) ->
  append io d c o = (d', c', r) -> journal_len d' <= MAX_JOURNAL_BYTES.
Proof.
  intros Hlen Hsize Ha. unfold append in Ha.
  destruct (validate_session_id _); [|by injection Ha as <- _ _].
  destruct (io_prepare io); simpl in Ha; [|by injection Ha as <- _ _].
  destruct (refresh_cache_locked _ _ _) as [[c1 len]|e] eqn:Href; [|by injection Ha as <- _ _].
  apply refresh_len in Href as ->.
  destruct (jc_dedupe c1 !! _); [by injection Ha as <- _ _|].
  unfold append_new in Ha. cbv zeta in Ha. set (n := Z.max _ _) in *. specialize (Hsize n).
  unfold record_size in Hsize. destruct (observation_to_vec _) as [b|]; [|by injection Ha as <- _ _].
  assert (Hb : str_len (line_of b) = str_len b + 1).
  { unfold line_of. by rewrite str_len_append. }
  destruct (if MAX_JOURNAL_BYTES <? _ then _ else _) as [d1 rc] eqn:Hcomp.
  apply compact_if_len in Hcomp as [Hd1 Hok]; [|done|pose proof (str_len_nonneg b); lia].
  destruct rc as [[c2 m2]|e]; [|by injection Ha as <- _ _].
  specialize (Hok _ eq_refl). destruct (append_line io d1 (line_of b)) as [d2 rl] eqn:Hal.
  apply append_line_len in Hal. destruct rl; injection Ha as <- _ _; lia.
Qed.

Lemma compact_keeps (io : AppendIo) (d d' : Disk) (c c' : JournalCache) (m m' : JournalMeta) :
  compact_locked io d c m = (d', Ok (c', m')) ->
  exists dropped kept, records_of d = dropped ++ kept
  /\ total_record_size kept = journal_len d' /\ journal_len d' <= COMPACTION_TARGET_BYTES
  /\ (forall pre o, dropped = pre ++ [o] ->
        COMPACTION_TARGET_BYTES < total_record_size kept + record_size o)
  /\ jm_base_revision m' = saturating_add (jm_base_revision m) (zlen dropped).
Proof.
  unfold compact_locked.
  destruct (bind (read_journal _ _) _) as [[[records kept] payload]|e] eqn:E; [|done].
  destruct (io_replace io); simpl; [|done]. unfold write_meta. destruct (io_meta io); [|done].
  intros [= <- _ <-]. apply bind_Ok in E as ([rs corrupt] & Hr & E).
  apply read_journal_Ok in Hr as (_ & _ & Hp).
  apply bind_Ok in E as ([k bytes] & Hk & E). apply bind_Ok in E as (pl & Hpl & [= -> -> ->]).
  assert (Hrec : records = records_of d) by (unfold records_of; by rewrite <- Hp).
  apply keep_newest_spec in Hk as (dropped & kept1 & Hl & -> & -> & Hb & Hmax);
    [|rewrite target_value; lia].
  rewrite app_nil_r in *. exists dropped, kept1. rewrite <- Hrec.
  unfold journal_len. cbn [dk_journal jm_base_revision]. rewrite (payload_len _ _ Hpl).
  split; [done|]. split; [done|]. split; [lia|]. split.
  + intros pre o Hd. specialize (Hmax pre o Hd). lia.
  + do 2 f_equal. rewrite Hl, zlen_app. unfold saturating_sub.
    pose proof (zlen_nonneg dropped). lia.
Qed.

(** The journal is bounded: an append keeps the file within
    [MAX_JOURNAL_BYTES] whatever the file system does, a torn write included,
    provided a record fits the quarter that compaction frees; and a compaction
    keeps the newest records, as many as fit its target, and advances the base
    revision by the number it dropped. *)
Theorem journal_bounded :
  (forall io d d' c c' o r,
     journal_len d <= MAX_JOURNAL_BYTES ->
     (forall n, record_size (with_revision o n) <= MAX_JOURNAL_BYTES - COMPACTION_TARGET_BYTES) ->
     append io d c o = (d', c', r) -> journal_len d' <= MAX_JOURNAL_BYTES)
  /\ (forall io d d' c c' m m',
     compact_locked io d c m = (d', Ok (c', m')) ->
     exists dropped kept, records_of d = dropped ++ kept
     /\ total_record_size kept = journal_len d' /\ journal_len d' <= COMPACTION_TARGET_BYTES
     /\ (forall pre o, dropped = pre ++ [o] ->
           COMPACTION_TARGET_BYTES < total_record_size kept + record_size o)
     /\ jm_base_revision m' = saturating_add (jm_base_revision m) (zlen dropped)).
Proof. split; [apply append_len|apply compact_keeps]. Qed.

(** * Torn writes *)

Lemma lines_open (good frag : string) :
  terminated good -> frag <> EmptyString -> newline ∉ list_ascii_of_string frag ->
  lines (good +:+ frag) = lines good ++ [frag].
Proof.
  intros Ht Hne Hn. rewrite lines_terminated by done. f_equal. unfold lines.
  rewrite split_on_none by done. simpl. destruct (String.eqb_spec frag EmptyString); [done|done].
Qed.

Lemma lines_merged (good frag : string) (o : Observation) (b : string) :
  terminated good -> newline ∉ list_ascii_of_string frag -> observation_to_vec o = Some b ->
  lines (good +:+ frag +:+ line_of b) = lines good ++ [frag +:+ b].
Proof.
  intros Ht Hn Hb. rewrite lines_terminated by done. f_equal.
  destruct (observation_line o b Hb) as (Hl & _ & _).
  destruct (observation_object o b Hb) as (rest & Hrest & Hend).
  assert (Hnb : newline ∉ list_ascii_of_string b).
  { intros Hin. assert (Hc : byte_of newline ∈ str_bytes b) by (by apply elem_of_map).
    apply (observation_one_line o _ Hb) in Hc. done. }
  unfold line_of. rewrite <- string_app_assoc. apply lines_line.
  - rewrite list_ascii_app. by intros [?|?]%elem_of_app.
  - unfold strip_cr. destruct (str_strip_suffix _ (frag +:+ b)) as [p|] eqn:Hs; [|done]. exfalso.
    apply str_strip_suffix_Some in Hs. unfold ends_with in Hend.
    destruct (str_strip_suffix "}" b) as [q|] eqn:Hq; [|done].
    apply str_strip_suffix_Some in Hq. rewrite Hq, <- string_app_assoc in Hs.
    apply (f_equal list_ascii_of_string) in Hs. rewrite !list_ascii_app in Hs. simpl in Hs.
    by apply app_inj_tail in Hs as [_ Hs].
Qed.

Lemma read_lines_bad (seen : list Uuid) (l : list string) (bad : string) :
  trim_is_empty bad = false -> observation_from_str bad = None ->
  (read_lines seen (l ++ [bad])).1 = (read_lines seen l).1.
Proof.
  intros Ht Hb. rewrite read_lines_app. simpl. rewrite Ht, Hb. by rewrite app_nil_r.
Qed.

Lemma brace_not_blank (rest : string) : trim_is_empty (String "{" rest) = false.
Proof. unfold trim_is_empty, chars, str_bytes. by cbn. Qed.

(** A torn write swallows the append after it.  When the journal ends in the
    unterminated beginning of a record, the next append that does not compact
    is told [Appended], but its line continues the torn one and is unreadable:
    the record is in no later reading of the journal; and the process that
    appended it answers a retry with [Duplicate], so it is not recorded either. *)
Theorem torn_tail_loses_append (d d' : Disk) (c c' : JournalCache) (o : Observation)
    (good frag : string) (rev : Z) :
  dk_journal d = Some (good +:+ String "{" frag) -> terminated good ->
  newline ∉ list_ascii_of_string (String "{" frag) ->
  observation_from_str (String "{" frag) = None ->
  (forall o b, observation_to_vec o = Some b -> observation_from_str (String "{" frag +:+ b) = None) ->
  jc_file_len c <> journal_len d ->
  (forall n, journal_len d + record_size (with_revision o n) <= MAX_JOURNAL_BYTES) ->
  append io_fine d c o = (d', c', Ok (Appended rev)) ->
  records_of d' = records_of d
  /\ append io_fine d' c' o = (d', c', Ok (Duplicate rev)).
Proof.
  intros Hj Hgood Hn Hbad Hmerge Hlen Hroom Ha.
  assert (Hd : text_of d = good +:+ String "{" frag) by (unfold text_of; by rewrite Hj).
  unfold append in Ha. destruct (validate_session_id _) as [u|] eqn:Hsid; [|done].
  cbn [io_prepare io_fine negb] in Ha.
  destruct (refresh_cache_locked _ _ _) as [[c1 len]|e] eqn:Href; [|done].
  apply refresh_len in Href as ->.
  destruct (jc_dedupe c1 !! ob_dedupe_key o) eqn:Hkey; [done|].
  unfold append_new in Ha. cbv zeta in Ha. set (n := Z.max _ _) in *. specialize (Hroom n).
  unfold record_size in Hroom. destruct (observation_to_vec (with_revision o n)) as [b|] eqn:Hb; [|done].
  assert (Hfit : (MAX_JOURNAL_BYTES <? saturating_add (journal_len d) (str_len (line_of b))) = false).
  { apply Z.ltb_ge. unfold line_of. rewrite str_len_append.
    change (str_len (String newline EmptyString)) with 1. unfold saturating_add. lia. }
  rewrite Hfit in Ha. unfold append_line in Ha. cbn [io_open io_write io_len io_fine negb] in Ha.
  injection Ha as <- <- <-. split.
  - assert (Ht : text_of (mkDisk (Some (default EmptyString (dk_journal d) +:+ line_of b)) (dk_meta d))
                 = good +:+ String "{" frag +:+ line_of b).
    { unfold text_of. rewrite Hj. apply string_app_assoc. }
    unfold records_of. rewrite Ht, Hd, (lines_merged _ _ _ _ Hgood Hn Hb), (lines_open _ _ Hgood) by done.
    rewrite !read_lines_bad; try done; try apply brace_not_blank.
    by eapply Hmerge.
  - unfold append. rewrite Hsid. cbn [io_prepare io_fine negb]. unfold refresh_cache_locked.
    cbn [jc_file_len]. rewrite Z.eqb_refl. cbn [jc_dedupe]. by rewrite lookup_insert_eq.
Qed.

(** A write torn inside a character blocks the journal.  When the file is not
    valid UTF-8, every reader fails, and so does every append of a process that
    does not already know the file at this length; nothing is written, so the
    journal stays blocked. *)
Theorem split_character_blocks_journal (d : Disk) (text : string) :
  dk_journal d = Some text -> utf8_valid (str_bytes text) = false ->
  (forall io c o, jc_file_len c <> journal_len d -> exists e, append io d c o = (d, c, Err e))
  /\ (forall ok sid f, exists e, list_records ok d sid f = Err e)
  /\ (forall ok sid, exists e, journal_status ok d sid = Err e)
  /\ (forall ok sid after limit, exists e, replication_snapshot ok d sid after limit = Err e).
Proof.
  intros Hj Hu.
  assert (Hr : forall ok, exists e, read_journal ok (dk_journal d) = Err e).
  { intros ok. unfold read_journal. rewrite Hj. simpl. rewrite Hu, andb_false_r. simpl. eauto. }
  split_and!.
  - intros io c o Hlen. unfold append. destruct (validate_session_id _); [|by eauto].
    destruct (io_prepare io); simpl; [|by eauto]. unfold refresh_cache_locked.
    destruct (Z.eqb_spec (journal_len d) (jc_file_len c)); [congruence|].
    destruct (Z.eqb_spec (journal_len d) 0) as [Hz|].
    { unfold journal_len in Hz. rewrite Hj in Hz. by destruct text. }
    destruct (Hr (io_read io)) as [e He]. rewrite He. simpl. eauto.
  - intros ok sid f. unfold list_records. destruct (validate_session_id _); simpl; [|by eauto].
    rewrite Hj. destruct ok; simpl; [|by eauto]. rewrite <- Hj. destruct (Hr true) as [e He].
    rewrite He. simpl. eauto.
  - intros ok sid. unfold journal_status. destruct (validate_session_id _); simpl; [|by eauto].
    rewrite Hj. destruct ok; simpl; [|by eauto]. rewrite <- Hj. destruct (Hr true) as [e He].
    rewrite He. simpl. eauto.
  - intros ok sid after limit. unfold replication_snapshot.
    destruct (validate_session_id _); simpl; [|by eauto].
    rewrite Hj. destruct ok; simpl; [|by eauto]. rewrite <- Hj. destruct (Hr true) as [e He].
    rewrite He. simpl. eauto.
Qed.

(** * Replication *)

Lemma last_cons (x : Observation) (l : list Observation) (base : Z) :
  last_revision (x :: l) base = last_revision l (ob_revision x).
Proof. unfold last_revision. rewrite last_cons. by destruct (last l). Qed.

Lemma count_gaps_exact (l : list Observation) (gaps expected : Z) :
  key_sorted ob_revision l ->
  (forall r, r ∈ l -> expected <= ob_revision r < U64_MAX) ->
  0 <= gaps <= expected ->
  count_gaps l gaps expected = gaps + (last_revision l (expected - 1) + 1 - expected) - zlen l.
Proof.
  revert gaps expected. induction l as [|x l IH]; intros gaps expected Hs Hr Hg; simpl.
  { unfold last_revision, zlen. simpl. lia. }
  apply StronglySorted_inv in Hs as [Hs Hall]. rewrite Forall_forall in Hall.
  pose proof (Hr x ltac:(by left)) as Hx. rewrite last_cons, zlen_cons.
  assert (Hgap : (if expected <? ob_revision x then saturating_add gaps (ob_revision x - expected)
                  else gaps) = gaps + (ob_revision x - expected)).
  { destruct (Z.ltb_spec expected (ob_revision x)); [|lia]. apply saturating_add_exact. lia. }
  rewrite Hgap, saturating_add_exact by lia.
  replace (Z.max expected (ob_revision x + 1)) with (ob_revision x + 1) by lia.
  rewrite IH; [|done| |lia].
  - replace (ob_revision x + 1 - 1) with (ob_revision x) by lia. lia.
  - intros r Hin. specialize (Hall r Hin). specialize (Hr r ltac:(by right)). lia.
Qed.

(** A replication page states exactly what is missing: on a sound journal
    whose records are numbered above the base, the gap count is the number of
    revisions from the base to the head that no record of the session has; the
    head is the newest revision; and the page is the first [limit] records
    after the cursor, in revision order. *)
Theorem replication_gap_count (d : Disk) (session_id : string) (after limit : Z)
    (s : ReplicationSnapshot) :
  let base := jm_base_revision (read_meta d) in
  let own := List.filter (fun r => String.eqb (ob_session_id r) session_id) (records_of d) in
  journal_wf d -> 0 <= base -> (forall r, r ∈ records_of d -> base < ob_revision r < U64_MAX) ->
  replication_snapshot true d session_id after limit = Ok s ->
  rs_base_revision s = base
  /\ rs_head_revision s = last_revision own base
  /\ (forall r, r ∈ own -> ob_revision r <= rs_head_revision s)
  /\ rs_gap_count s = (rs_head_revision s - base) - zlen own
  /\ rs_records s = take (Z.to_nat limit) (List.filter (fun r => after <? ob_revision r) own)
  /\ key_sorted ob_revision (rs_records s).
Proof.
  intros base own Hwf Hbase Hrev Hs.
  assert (Hsort : key_sorted ob_revision own) by (apply key_sorted_filter, Hwf).
  assert (Hown : forall r, r ∈ own -> base < ob_revision r < U64_MAX /\ ob_session_id r = session_id).
  { intros r Hr. apply list_elem_of_In, filter_In in Hr as [Hr He].
    apply String.eqb_eq in He. split; [|done]. by apply Hrev, list_elem_of_In. }
  unfold replication_snapshot in Hs. apply bind_Ok in Hs as ([] & _ & Hs).
  apply bind_Ok in Hs as ([records corrupt] & Hread & [= <-]). cbn.
  assert (Hrec : records = records_of d).
  { destruct (dk_journal d) as [t|] eqn:Hj.
    - rewrite <- Hj in Hread. apply bind_Ok in Hread as ([] & _ & Hread).
      apply read_journal_Ok in Hread as (_ & _ & Hp). unfold records_of. by rewrite <- Hp.
    - injection Hread as <- <-. unfold records_of, text_of. by rewrite Hj. }
  subst records. fold own. rewrite (sort_by_key_id _ _ Hsort). fold base.
  assert (Hpage : List.filter (fun r => String.eqb (ob_session_id r) session_id
                                        && (after <? ob_revision r)) own
                  = List.filter (fun r => after <? ob_revision r) own).
  { apply filter_ext_in. intros r Hr. apply list_elem_of_In, Hown in Hr as [_ ->].
    by rewrite String.eqb_refl. }
  rewrite Hpage. split_and!; try done.
  - intros r Hr. by apply last_revision_max.
  - destruct own as [|x own'] eqn:Hl; [by unfold last_revision, zlen; simpl; lia|]. rewrite <- Hl in *.
    assert (Hx : x ∈ own) by (rewrite Hl; by left). destruct (Hown x Hx) as [Hx' _].
    rewrite saturating_add_exact by lia. rewrite count_gaps_exact; [|done| |lia].
    + replace (base + 1 - 1) with base by lia. lia.
    + intros r Hr. destruct (Hown r Hr). lia.
  - apply key_sorted_take. by apply key_sorted_filter.
Qed.

(** * The base revision of a missing journal *)

(** A process that finds no journal next to a sidecar with a positive base
    revision numbers its first record with the base revision itself, which a
    dropped record may already have had; one that has a stale cache numbers it
    with the next one. *)
Lemma missing_journal_reuses_base (d d' : Disk) (c' : JournalCache) (o : Observation) (rev : Z) :
  dk_journal d = None -> 0 < jm_base_revision (read_meta d) ->
  append io_fine d cache_default o = (d', c', Ok (Appended rev)) ->
  (forall n, record_size (with_revision o n) <= MAX_JOURNAL_BYTES) ->
  rev = jm_base_revision (read_meta d).
Proof.
  intros Hj Hbase Ha Hsize. unfold append in Ha. destruct (validate_session_id _); [|done].
  cbn [io_prepare io_fine negb] in Ha.
  assert (Hl : journal_len d = 0) by (unfold journal_len; by rewrite Hj).
  unfold refresh_cache_locked in Ha. rewrite Hl in Ha. cbn in Ha.
  unfold append_new in Ha. cbv zeta in Ha. set (n := Z.max _ _) in *.
  assert (Hn : n = jm_base_revision (read_meta d)).
  { unfold n. rewrite saturating_add_exact by done. cbn [jc_revision cache_default]. lia. }
  specialize (Hsize n). unfold record_size in Hsize. destruct (observation_to_vec _) as [b|]; [|done].
  assert (Hfit : (MAX_JOURNAL_BYTES <? saturating_add 0 (str_len (line_of b))) = false).
  { apply Z.ltb_ge. unfold line_of. rewrite str_len_append.
    change (str_len (String newline EmptyString)) with 1. unfold saturating_add. lia. }
  rewrite Hfit in Ha. cbn in Ha. by injection Ha as _ _ <-.
Qed.
End JournalTheorems.

Module JournalWitness.
Import JsonModel.

Definition record0 (id : Uuid) (key : string) (revision : Z) : Observation :=
  mkObservation id 1 1700000000 None "s1" (mkInstance 5 42) (Some "repo"%string) None None
    (Some "task-1"%string) None None (mkActor "mcp-stdio" None) (mkTarget "codex") "task_get"
    KExecutionState CNone None [] (mkProvenance "codex_task_get" "orchestration" None) revision key.
Definition first : Observation := record0 uuid0 "k1" 0.
Definition second : Observation := record0 uuid1 "k2" 0.

(** A codec that knows the numbered records. *)
Definition known : list Observation := [with_revision first 1; with_revision second 2].
Definition index_text (n : nat) : string :=
  String "{" (String (ascii_of_nat (48 + n)) (String "}" EmptyString)).

#[local] Instance table_codec : ObservationCodec := {
  observation_to_vec o := (fun p => index_text p.1) <$> list_find (eq o) known;
  observation_from_str b :=
    match b with
    | String "{" (String c (String "}" EmptyString)) => known !! (nat_of_ascii c - 48)%nat
    | _ => None
    end;
}.

Lemma table_to_vec (o : Observation) (b : string) :
  observation_to_vec o = Some b ->
  b = index_text 0 /\ o = with_revision first 1 \/ b = index_text 1 /\ o = with_revision second 2.
Proof.
  unfold observation_to_vec, table_codec, known. cbn [list_find].
  destruct (decide (o = with_revision first 1)) as [->|]; [by intros [= <-]; left|].
  destruct (decide (o = with_revision second 2)) as [->|]; [by intros [= <-]; right|done].
Qed.

#[local] Instance table_codec_laws : ObservationCodecLaws.
Proof.
  split; intros o b [[-> ->]|[-> ->]]%table_to_vec.
  1-2: by eexists.
  1-2: intros x Hx; vm_compute in Hx; repeat (apply elem_of_cons in Hx as [->|Hx]; [done|]);
    by apply elem_of_nil in Hx.
  1-2: done.
  1-2: exists CNone; reflexivity.
Qed.

Definition empty_disk : Disk := mkDisk None None.
Definition disk1 : Disk := mkDisk (Some (line_of (index_text 0))) None.
Definition cache1 : JournalCache := mkCache 4 1 {["k1"%string := 1]}.

Lemma append_first : append io_fine empty_disk cache_default first = (disk1, cache1, Ok (Appended 1)).
Proof. vm_compute. reflexivity. Qed.

Definition start : Machine := mkMachine empty_disk (fun _ => cache_default).

Lemma first_step :
  journal_step start (Some ("k1"%string, Ok (Appended 1))) (mkMachine disk1 (set_cache start 0 cache1)).
Proof.
  change "k1"%string with (ob_dedupe_key first).
  apply (step_append start 0 io_fine first disk1 cache1); [exact append_first|by split|..].
  - split_and!; [done|done|]. intros r Hr. by apply elem_of_nil in Hr.
  - done.
  - apply not_elem_of_nil.
  - right. intros q _. discriminate.
Qed.

(** Another process, whose cache is cold, is asked to record the same again. *)
Definition retried : Observation := record0 uuid1 "k1" 0.
Definition retry := append io_fine disk1 cache_default retried.

Lemma append_again : retry = (disk1, retry.1.2, Ok (Duplicate 1)).
Proof. vm_compute. reflexivity. Qed.

Definition recorded : Machine := mkMachine disk1 (set_cache start 0 cache1).
Definition ended : Machine := mkMachine disk1 (set_cache recorded 1 retry.1.2).

Lemma records_disk1 : records_of disk1 = [with_revision first 1].
Proof. vm_compute. reflexivity. Qed.

Lemma two_steps :
  journal_run start [("k1"%string, Ok (Appended 1)); ("k1"%string, Ok (Duplicate 1))] ended.
Proof.
  eapply run_cons; [exact first_step|].
  eapply run_cons; [|apply run_nil]. change "k1"%string with (ob_dedupe_key retried).
  apply (step_append recorded 1 io_fine retried disk1 retry.1.2); [exact append_again|by split|..].
  - split_and!; [done|done|]. intros r Hr. change (r ∈ records_of disk1) in Hr.
    rewrite records_disk1 in Hr. by apply list_elem_of_singleton in Hr as ->.
  - done.
  - change (uuid1 ∉ map ob_id (records_of disk1)). rewrite records_disk1.
    intros Hr. by apply list_elem_of_singleton in Hr.
  - by left.
Qed.


Lemma record_small (o : Observation) : record_size o <= 4.
Proof.
  unfold record_size. destruct (observation_to_vec o) as [b|] eqn:Hb; [|done].
  by apply table_to_vec in Hb as [[-> _]|[-> _]].
Qed.

Lemma journal_bounded_witness : journal_len disk1 <= MAX_JOURNAL_BYTES.
Proof.
  apply (proj1 journal_bounded io_fine empty_disk disk1 cache_default cache1 first (Ok (Appended 1))).
  - rewrite max_value. done.
  - intros n. rewrite max_value, target_value. pose proof (record_small (with_revision first n)). lia.
  - exact append_first.
Defined.

(** The first record torn after two bytes, then the second appended. *)
Definition torn_disk : Disk := mkDisk (Some "{0"%string) None.

Lemma torn_write :
  append (mkAppendIo true true true true true (WriteTorn 2) true) empty_disk cache_default first
  = (torn_disk, cache_default, Err "write"%string).
Proof. vm_compute. reflexivity. Qed.

Definition merged_disk : Disk := mkDisk (Some ("{0"%string +:+ line_of (index_text 0))) None.
Definition merged_cache : JournalCache := mkCache 6 1 {["k1"%string := 1]}.

Lemma append_after_torn :
  append io_fine torn_disk cache_default first = (merged_disk, merged_cache, Ok (Appended 1)).
Proof. vm_compute. reflexivity. Qed.

Lemma torn_tail_loses_append_witness :
  records_of merged_disk = records_of torn_disk
  /\ append io_fine merged_disk merged_cache first = (merged_disk, merged_cache, Ok (Duplicate 1)).
Proof.
  apply (torn_tail_loses_append torn_disk merged_disk cache_default merged_cache first "" "0" 1).
  - reflexivity.
  - by left.
  - by apply (bool_decide_eq_true_1 (newline ∉ list_ascii_of_string "{0")).
  - reflexivity.
  - by intros o b [[-> _]|[-> _]]%table_to_vec.
  - discriminate.
  - intros n. rewrite max_value. pose proof (record_small (with_revision first n)).
    change (journal_len torn_disk) with 2. lia.
  - exact append_after_torn.
Defined.

(** A journal that ends in the first byte of a two-byte character. *)
Definition split_text : string := String "{" (String (ascii_of_nat 34) (String (ascii_of_nat 195) EmptyString)).

Lemma split_character_blocks_journal_witness :
  exists e, list_records true (mkDisk (Some split_text) None) "s1" no_filter = Err e.
Proof.
  apply (proj1 (proj2 (split_character_blocks_journal (mkDisk (Some split_text) None) split_text
    eq_refl eq_refl))).
Defined.

Lemma replicate_run :
  replication_snapshot true disk1 "s1" 0 10
  = Ok (mkSnapshot 0 1 0 0 0 [with_revision first 1]).
Proof. vm_compute. reflexivity. Qed.

Lemma empty_wf : journal_wf empty_disk.
Proof. exact (proj1 (machine_start None)). Qed.

Lemma disk1_wf : journal_wf disk1.
Proof.
  refine (proj1 (append_spec io_fine empty_disk disk1 cache_default cache1 first _ empty_wf
    (cache_default_ok _) _ _ eq_refl (not_elem_of_nil _) append_first)); [|by split].
  split_and!; [done|done|]. intros r Hr. by apply elem_of_nil in Hr.
Qed.

Lemma replication_gap_count_witness : 0 = (1 - 0) - 1.
Proof.
  refine (proj1 (proj2 (proj2 (proj2 (replication_gap_count disk1 "s1" 0 10 _ disk1_wf _ _ replicate_run))))).
  - done.
  - by intros r [->|Hr%elem_of_nil]%elem_of_cons.
Defined.
End JournalWitness.
