(* ===== verification/Replicator.v ===== *)
(** * Replication of the journals: src/src/observation/replicator.rs

    A host sends its retained journals to the gateway, one bounded batch per
    call, and moves a durable cursor for every session only on the gateway's
    answer.  The durable state of one target is the status file and an
    acknowledgement file per session; a replicator has its own copy of the status
    and its own timer.  A call holds the directory's lock throughout, so it is one
    step: what the environment decides in it (the lock, the clocks, the listing,
    the reads, the answer of the gateway, the writes) is a record.

    An instant is in nanoseconds, a duration in seconds. *)

From S2P Require Import Prelude Strings Json Value Observation Journal.
From stdpp Require Import pretty.

#[local] Open Scope Z_scope.
#[local] Open Scope rust_scope.

Definition SYNC_SCHEMA_VERSION : Z := 1.
Definition MAX_BATCH_RECORDS : Z := 32.
Definition MAX_BATCH_BYTES : Z := 512 * 1024.
Definition INITIAL_RETRY_DELAY : Z := 2.
Definition MAX_RETRY_DELAY : Z := 300.
Definition NANOS : Z := 1000000000.

Record AckState := mkAck {
  ak_schema_version : Z;
  ak_host_id : string;
  ak_session_id : string;
  ak_acked_through_revision : Z;
  ak_delivered_through_revision : Z;
  ak_repository_key : option string;
  ak_reported_base_revision : Z;
  ak_reported_head_revision : Z;
  ak_reported_gap_count : Z;
  ak_reported_degraded : bool;
  ak_updated_at : Z;
}.

Definition ack_fresh (host_id session_id : string) : AckState :=
  mkAck SYNC_SCHEMA_VERSION host_id session_id 0 0 None 0 0 0 false 0.

Record ReplicatorStatus := mkReplicatorStatus {
  rp_schema_version : Z;
  rp_host_id : string;
  rp_last_session_id : option string;
  rp_last_attempt_at : option Z;
  rp_last_success_at : option Z;
  rp_last_error_code : option string;
  rp_consecutive_failures : Z;
  rp_retry_after_seconds : Z;
  rp_retry_at : option Z;
  rp_sessions_seen : Z;
  rp_records_acked : Z;
  rp_last_cloud_head_seq : option Z;
  rp_last_source_complete : option bool;
}.

Definition status_default (host_id : string) : ReplicatorStatus :=
  mkReplicatorStatus SYNC_SCHEMA_VERSION host_id None None None None 0 0 None 0 0 None None.

Record SyncRecord := mkSyncRecord {
  sr_source_revision : Z;
  sr_observation : Json;
}.

Record SyncRequest := mkSyncRequest {
  sq_schema_version : Z;
  sq_session_id : string;
  sq_repository_key : option string;
  sq_source_base_revision : Z;
  sq_source_head_revision : Z;
  sq_journal_degraded : bool;
  sq_gap_count : Z;
  sq_records : list SyncRecord;
}.

Record SyncResponse := mkSyncResponse {
  sp_session_id : string;
  sp_acked_through_revision : Z;
  sp_committed_through_revision : Z;
  sp_cloud_head_seq : Z;
  sp_complete : bool;
}.

Inductive SyncFailureCode :=
| LocalStore | Authentication | RemoteRejected | Timeout | Transport | InvalidResponse
| InvalidAck | IdentityConflict.

Definition code_as_str (code : SyncFailureCode) : string :=
  match code with
  | LocalStore => "local_store"
  | Authentication => "authentication"
  | RemoteRejected => "remote_rejected"
  | Timeout => "timeout"
  | Transport => "transport"
  | InvalidResponse => "invalid_response"
  | InvalidAck => "invalid_ack"
  | IdentityConflict => "identity_conflict"
  end.

Inductive SyncOutcome :=
| NoWork
| Busy
| Backoff (seconds : Z)
| Acked (session_id : string) (records through_revision : Z).

Record PendingBatch := mkPendingBatch {
  pb_request : SyncRequest;
  pb_previous_ack : AckState;
  pb_session_id : string;
}.

(** The files of one target. *)
Record SyncDisk := mkSyncDisk {
  sd_status : option ReplicatorStatus;
  sd_acks : gmap string AckState;
}.

Record HostReplicator := mkReplicator {
  hr_host_id : string;
  hr_include_previews : bool;
  hr_retry_at : option Z;
  hr_retry_delay : Z;
  hr_status : ReplicatorStatus;
}.

(** An atomic write: done; failed before the rename; or renamed and then reported
    as failed. *)
Inductive SyncWrite := WDone | WFailed | WLate.

Definition write_ok (w : SyncWrite) : bool :=
  match w with
  | WDone => true
  | _ => false
  end.

Definition write_json_atomic {A : Type} (w : SyncWrite) (old new : A) : A :=
  match w with
  | WFailed => old
  | _ => new
  end.

(** * What leaves the host *)

(** [object.remove] and [object.insert]. *)
Definition object_remove (k : string) (l : list (string * Json)) : list (string * Json) :=
  List.filter (fun kv => negb (String.eqb kv.1 k)) l.

Fixpoint object_insert (k : string) (v : Json) (l : list (string * Json)) : list (string * Json) :=
  match l with
  | [] => [(k, v)]
  | (k', v') :: rest =>
      if String.eqb k k' then (k, v) :: rest else (k', v') :: object_insert k v rest
  end.

(** [preview.chars().take(INSTRUCTION_PREVIEW_BYTES).collect()]. *)
Definition preview_chars (preview : string) : string :=
  take_chars (Z.to_nat INSTRUCTION_PREVIEW_BYTES) preview.

Section Cloud.
Context `{UuidLib, !SerdeJson} (sha256_hex : string -> string).

Definition digest_json (bytes : string) : Json :=
  JObj [("kind"%string, JStr "view_digest"); ("sha256"%string, JStr (sha256_hex bytes));
        ("total_bytes"%string, JInt (str_len bytes)); ("truncated"%string, JBool false)].

Definition cloud_content (content : ObservationContent) (include_previews : bool) : Json :=
  match content with
  | CText preview total_bytes sha256 truncated =>
      JObj [("kind"%string, JStr "text");
            ("preview"%string, JStr (if include_previews then preview_chars preview
                                     else EmptyString));
            ("total_bytes"%string, JInt total_bytes); ("sha256"%string, JStr sha256);
            ("truncated"%string, JBool truncated)]
  | CView view =>
      if include_previews then JObj [("kind"%string, JStr "view"); ("view"%string, view)]
      else digest_json (default EmptyString (to_vec view))
  | CViewDigest sha256 total_bytes truncated =>
      JObj [("kind"%string, JStr "view_digest"); ("sha256"%string, JStr sha256);
            ("total_bytes"%string, JInt total_bytes); ("truncated"%string, JBool truncated)]
  | CError preview =>
      if include_previews then JObj [("kind"%string, JStr "error"); ("preview"%string, JStr preview)]
      else digest_json preview
  | CNone => JObj [("kind"%string, JStr "none")]
  end.

(** [serde_json::to_value(observation)]: the derived [Serialize] of the record and of
    its parts; an absent option is left out. *)
Definition opt_field {A : Type} (k : string) (f : A -> Json) (o : option A) :
    list (string * Json) :=
  match o with
  | Some a => [(k, f a)]
  | None => []
  end.

Definition content_to_json (content : ObservationContent) : Json :=
  match content with
  | CText preview total_bytes sha256 truncated =>
      JObj [("kind"%string, JStr "text"); ("preview"%string, JStr preview);
            ("total_bytes"%string, JInt total_bytes); ("sha256"%string, JStr sha256);
            ("truncated"%string, JBool truncated)]
  | CView view => JObj [("kind"%string, JStr "view"); ("view"%string, view)]
  | CViewDigest sha256 total_bytes truncated =>
      JObj [("kind"%string, JStr "view_digest"); ("sha256"%string, JStr sha256);
            ("total_bytes"%string, JInt total_bytes); ("truncated"%string, JBool truncated)]
  | CError preview => JObj [("kind"%string, JStr "error"); ("preview"%string, JStr preview)]
  | CNone => JObj [("kind"%string, JStr "none")]
  end.

Definition instance_to_json (i : SessionInstanceRef) : Json :=
  JObj [("started_at"%string, JInt (si_started_at i)); ("process_id"%string, JInt (si_process_id i))].

Definition actor_to_json (a : ActorRef) : Json :=
  JObj ([("transport"%string, JStr (ac_transport a))] ++ opt_field "principal" JStr (ac_principal a)).

Definition state_ref_to_json (s : StateRef) : Json :=
  JObj (opt_field "task_id" JStr (sr_task_id s) ++ opt_field "status" JStr (sr_status s)
        ++ opt_field "revision" JInt (sr_revision s)
        ++ opt_field "generation" JInt (sr_generation s)).

Definition evidence_to_json (e : EvidenceRefRecord) : Json :=
  JObj [("evidence_id"%string, JStr (er_evidence_id e)); ("bytes"%string, JInt (er_bytes e));
        ("retention_seconds"%string, JInt (er_retention_seconds e))].

Definition provenance_to_json (p : Provenance) : Json :=
  JObj ([("tool"%string, JStr (pv_tool p)); ("source"%string, JStr (pv_source p))]
        ++ opt_field "control_action" JStr (pv_control_action p)).

Definition observation_fields (o : Observation) : list (string * Json) :=
  [("id"%string, JStr (uuid_to_string (ob_id o)));
   ("schema_version"%string, JInt (ob_schema_version o));
   ("observed_at"%string, JInt (ob_observed_at o))]
  ++ opt_field "accepted_at" JInt (ob_accepted_at o)
  ++ [("session_id"%string, JStr (ob_session_id o));
      ("session_instance"%string, instance_to_json (ob_session_instance o))]
  ++ opt_field "repository" JStr (ob_repository o)
  ++ opt_field "repository_key" JStr (ob_repository_key o)
  ++ opt_field "workspace_id" JStr (ob_workspace_id o)
  ++ opt_field "task_id" JStr (ob_task_id o)
  ++ opt_field "execution_id" JStr (ob_execution_id o)
  ++ opt_field "operation_id" JStr (ob_operation_id o)
  ++ [("actor"%string, actor_to_json (ob_actor o));
      ("target"%string, JObj [("backend"%string, JStr (tg_backend (ob_target o)))]);
      ("action"%string, JStr (ob_action o));
      ("kind"%string, JStr (kind_as_str (ob_kind o)));
      ("content"%string, content_to_json (ob_content o))]
  ++ opt_field "state_ref" state_ref_to_json (ob_state_ref o)
  ++ [("evidence_refs"%string, JArr (map evidence_to_json (ob_evidence_refs o)));
      ("provenance"%string, provenance_to_json (ob_provenance o));
      ("revision"%string, JInt (ob_revision o));
      ("dedupe_key"%string, JStr (ob_dedupe_key o))].

Definition cloud_observation (o : Observation) (include_previews : bool) : Json :=
  JObj (object_insert "content" (cloud_content (ob_content o) include_previews)
          (object_remove "repository_key" (object_remove "repository" (observation_fields o)))).

(** [serde_json::to_vec(&record)?.len()]. *)
Definition sync_record_json (r : SyncRecord) : Json :=
  JObj [("source_revision"%string, JInt (sr_source_revision r));
        ("observation"%string, sr_observation r)].

Definition sync_record_len (r : SyncRecord) : result string Z :=
  let! bytes := ok_or (to_vec (sync_record_json r)) "cannot encode a sync record"%string in
  Ok (str_len bytes).
End Cloud.

(** * One batch *)

Section Batch.
Context `{UuidLib, !SerdeJson, !ObservationCodec} (sha256_hex : string -> string).

(** The loop over the page: the records of one repository that fit. *)
Fixpoint fill_batch (include_previews : bool) (key : option (option string)) (encoded_bytes : Z)
    (records : list SyncRecord) (page : list Observation) :
    result string (list SyncRecord * option (option string)) :=
  match page with
  | [] => Ok (records, key)
  | o :: rest =>
      if is_some_and (fun known => negb (bool_decide (known = ob_repository_key o))) key
      then Ok (records, key)
      else
        let key := Some (default (ob_repository_key o) key) in
        let record := mkSyncRecord (ob_revision o)
                        (cloud_observation sha256_hex o include_previews) in
        let! bytes := sync_record_len record in
        if negb (match records with
                 | [] => true
                 | _ => false
                 end) && (MAX_BATCH_BYTES <? saturating_add encoded_bytes bytes)
        then Ok (records, key)
        else
          ensure (bytes <=? MAX_BATCH_BYTES)
            "one observation exceeds the cloud sync batch byte limit" ;!
          fill_batch include_previews key (saturating_add encoded_bytes bytes)
            (records ++ [record]) rest
  end.

(** The acknowledgement of a session, or a fresh one. *)
Definition load_ack (acks : gmap string AckState) (host_id session_id : string) : AckState :=
  match acks !! session_id with
  | Some ack =>
      if (ak_schema_version ack =? SYNC_SCHEMA_VERSION)
         && String.eqb (ak_host_id ack) host_id && String.eqb (ak_session_id ack) session_id
      then ack else ack_fresh host_id session_id
  | None => ack_fresh host_id session_id
  end.

Definition scan_after_revision (ack : AckState) : Z :=
  Z.max (ak_acked_through_revision ack) (ak_delivered_through_revision ack).

Definition batch_gap_count (ack : AckState) (snapshot : ReplicationSnapshot) : Z :=
  Z.max (ak_reported_gap_count ack)
    (saturating_add
       (saturating_add
          (saturating_add (saturating_sub (rs_base_revision snapshot) (scan_after_revision ack))
             (rs_gap_count snapshot))
          (rs_corrupt_lines snapshot))
       (rs_write_failures snapshot)).

Definition batch_degraded (ack : AckState) (snapshot : ReplicationSnapshot) : bool :=
  ak_reported_degraded ack || (0 <? rs_write_failures snapshot) || (0 <? rs_corrupt_lines snapshot)
  || (0 <? batch_gap_count ack snapshot).

Definition metadata_changed (ack : AckState) (snapshot : ReplicationSnapshot) : bool :=
  negb (ak_reported_base_revision ack =? rs_base_revision snapshot)
  || negb (ak_reported_head_revision ack =? rs_head_revision snapshot)
  || negb (ak_reported_gap_count ack =? batch_gap_count ack snapshot)
  || negb (Bool.eqb (ak_reported_degraded ack) (batch_degraded ack snapshot)).

Definition identity_changed : string := "observation source repository identity changed".

(** The part of the scan for one session, after its snapshot: [None] is [continue]. *)
Definition session_batch (include_previews : bool) (session_id : string) (ack : AckState)
    (snapshot : ReplicationSnapshot) : result string (option PendingBatch) :=
  if rs_head_revision snapshot <? scan_after_revision ack
  then Err "observation replication cursor is ahead of its journal"%string
  else
    let! filled := fill_batch include_previews None 0 [] (rs_records snapshot) in
    let '(records, key) := filled in
    let empty := match records with
                 | [] => true
                 | _ => false
                 end in
    if empty && negb (metadata_changed ack snapshot) then Ok None
    else
      let repository_key := if empty then ak_repository_key ack else default None key in
      if negb empty && is_some (ak_repository_key ack)
         && negb (bool_decide (ak_repository_key ack = repository_key))
      then Err identity_changed
      else Ok (Some (mkPendingBatch
             (mkSyncRequest SYNC_SCHEMA_VERSION session_id repository_key
                (rs_base_revision snapshot) (rs_head_revision snapshot)
                (batch_degraded ack snapshot) (batch_gap_count ack snapshot) records)
             ack session_id)).

(** * The environment of one call *)

Record SyncEnvironment := mkSyncEnvironment {
  sy_lock : result unit bool;                      (* acquired, busy, or an error *)
  sy_unix : Z;
  sy_instant : Z;
  sy_instant_later : Z;
  sy_sessions : result string (list string);       (* [retained_sessions] *)
  sy_journals : gmap string Disk;
  sy_read : string -> bool;
  sy_save_scan : string -> SyncWrite;
  sy_save_attempt : SyncWrite;
  sy_send : SyncRequest -> result SyncFailureCode SyncResponse;
  sy_save_ack : SyncWrite;
  sy_save_final : SyncWrite;
}.

Definition empty_disk : Disk := mkDisk None None.

Definition snapshot_of (e : SyncEnvironment) (session_id : string) (after : Z) :
    result string ReplicationSnapshot :=
  replication_snapshot (sy_read e session_id) (default empty_disk (sy_journals e !! session_id))
    session_id after MAX_BATCH_RECORDS.

(** * The status *)

Definition set_last_session (s : ReplicatorStatus) (session_id : string) : ReplicatorStatus :=
  mkReplicatorStatus (rp_schema_version s) (rp_host_id s) (Some session_id) (rp_last_attempt_at s)
    (rp_last_success_at s) (rp_last_error_code s) (rp_consecutive_failures s)
    (rp_retry_after_seconds s) (rp_retry_at s) (rp_sessions_seen s) (rp_records_acked s)
    (rp_last_cloud_head_seq s) (rp_last_source_complete s).

Definition set_sessions_seen (s : ReplicatorStatus) (n : Z) : ReplicatorStatus :=
  mkReplicatorStatus (rp_schema_version s) (rp_host_id s) (rp_last_session_id s)
    (rp_last_attempt_at s) (rp_last_success_at s) (rp_last_error_code s)
    (rp_consecutive_failures s) (rp_retry_after_seconds s) (rp_retry_at s) n (rp_records_acked s)
    (rp_last_cloud_head_seq s) (rp_last_source_complete s).

Definition set_attempt (s : ReplicatorStatus) (now : Z) : ReplicatorStatus :=
  mkReplicatorStatus (rp_schema_version s) (rp_host_id s) (rp_last_session_id s) (Some now)
    (rp_last_success_at s) (rp_last_error_code s) (rp_consecutive_failures s)
    (rp_retry_after_seconds s) (rp_retry_at s) (rp_sessions_seen s) (rp_records_acked s)
    (rp_last_cloud_head_seq s) (rp_last_source_complete s).

Definition set_failure (s : ReplicatorStatus) (code : SyncFailureCode) (delay now : Z) :
    ReplicatorStatus :=
  mkReplicatorStatus (rp_schema_version s) (rp_host_id s) (rp_last_session_id s)
    (rp_last_attempt_at s) (rp_last_success_at s) (Some (code_as_str code))
    (Z.min (rp_consecutive_failures s + 1) 4294967295) delay (Some (saturating_add now delay))
    (rp_sessions_seen s) (rp_records_acked s) (rp_last_cloud_head_seq s)
    (rp_last_source_complete s).

Definition set_success (s : ReplicatorStatus) (now acked cloud_head : Z) (complete : bool) :
    ReplicatorStatus :=
  mkReplicatorStatus (rp_schema_version s) (rp_host_id s) (rp_last_session_id s)
    (rp_last_attempt_at s) (Some now) None 0 0 None (rp_sessions_seen s)
    (saturating_add (rp_records_acked s) acked) (Some cloud_head) (Some complete).

Definition set_status (h : HostReplicator) (s : ReplicatorStatus) : HostReplicator :=
  mkReplicator (hr_host_id h) (hr_include_previews h) (hr_retry_at h) (hr_retry_delay h) s.

(** [save_status]. *)
Definition save_status (w : SyncWrite) (h : HostReplicator) (d : SyncDisk) : SyncDisk :=
  mkSyncDisk (write_json_atomic w (sd_status d) (Some (hr_status h))) (sd_acks d).

(** [record_failure]; the delay doubles up to its limit. *)
Definition record_failure (h : HostReplicator) (d : SyncDisk) (e : SyncEnvironment)
    (code : SyncFailureCode) : HostReplicator * SyncDisk * result SyncFailureCode SyncOutcome :=
  let h := mkReplicator (hr_host_id h) (hr_include_previews h)
             (Some (sy_instant_later e + hr_retry_delay h * NANOS))
             (Z.min (hr_retry_delay h * 2) MAX_RETRY_DELAY)
             (set_failure (hr_status h) code (hr_retry_delay h) (sy_unix e)) in
  (h, save_status (sy_save_final e) h d, Err code).

(** The delay and the timer a status gives. *)
Definition loaded_delay (s : ReplicatorStatus) : Z :=
  if rp_retry_after_seconds s =? 0 then INITIAL_RETRY_DELAY
  else Z.min (Z.min (rp_retry_after_seconds s * 2) U64_MAX) MAX_RETRY_DELAY.

Definition loaded_retry_at (s : ReplicatorStatus) (now instant : Z) : option Z :=
  match rp_retry_at s with
  | Some retry_at => if now <? retry_at then Some (instant + (retry_at - now) * NANOS) else None
  | None => None
  end.

Definition status_matches (host_id : string) (s : ReplicatorStatus) : bool :=
  (rp_schema_version s =? SYNC_SCHEMA_VERSION) && String.eqb (rp_host_id s) host_id.

(** [HostReplicator::new]. *)
Definition replicator_new (host_id : string) (include_previews : bool) (d : SyncDisk)
    (now instant : Z) : HostReplicator :=
  let status := match sd_status d with
                | Some s => if status_matches host_id s then s else status_default host_id
                | None => status_default host_id
                end in
  mkReplicator host_id include_previews (loaded_retry_at status now instant) (loaded_delay status)
    status.

(** What a call takes over from the status file. *)
Definition reload (h : HostReplicator) (d : SyncDisk) (e : SyncEnvironment) : HostReplicator :=
  match sd_status d with
  | Some s =>
      if status_matches (hr_host_id h) s then
        mkReplicator (hr_host_id h) (hr_include_previews h)
          (loaded_retry_at s (sy_unix e) (sy_instant e)) (loaded_delay s) s
      else h
  | None => h
  end.

(** * The scan *)

(** [partition_point(|session| session <= last)] on a sorted list. *)
Fixpoint partition_point (last : string) (sessions : list string) : nat :=
  match sessions with
  | [] => 0
  | s :: rest => if String.leb s last then S (partition_point last rest) else 0
  end.

Definition scan_start (s : ReplicatorStatus) (sessions : list string) : nat :=
  match rp_last_session_id s with
  | Some last => (partition_point last sessions) mod (length sessions)
  | None => 0
  end%nat.

(** The sessions in the order of the scan. *)
Definition rotate (n : nat) (sessions : list string) : list string :=
  drop n sessions ++ take n sessions.

Fixpoint scan (h : HostReplicator) (d : SyncDisk) (e : SyncEnvironment) (sessions : list string) :
    HostReplicator * SyncDisk * result string (option PendingBatch) :=
  match sessions with
  | [] => (h, d, Ok None)
  | session_id :: rest =>
      let h := set_status h (set_last_session (hr_status h) session_id) in
      let d := save_status (sy_save_scan e session_id) h d in
      if negb (write_ok (sy_save_scan e session_id)) then (h, d, Err "cannot save status"%string)
      else
        let ack := load_ack (sd_acks d) (hr_host_id h) session_id in
        match snapshot_of e session_id (scan_after_revision ack) with
        | Err error => (h, d, Err error)
        | Ok snapshot =>
            match session_batch (hr_include_previews h) session_id ack snapshot with
            | Err error => (h, d, Err error)
            | Ok None => scan h d e rest
            | Ok (Some batch) => (h, d, Ok (Some batch))
            end
        end
  end.

Definition next_batch (h : HostReplicator) (d : SyncDisk) (e : SyncEnvironment) :
    HostReplicator * SyncDisk * result string (option PendingBatch) :=
  match sy_sessions e with
  | Err error => (h, d, Err error)
  | Ok [] => (h, d, Ok None)
  | Ok sessions =>
      let h := set_status h (set_sessions_seen (hr_status h) (zlen sessions)) in
      scan h d e (rotate (scan_start (hr_status h) sessions) sessions)
  end.

(** * The answer *)

Definition last_sent_revision (q : SyncRequest) : Z :=
  match last (sq_records q) with
  | Some r => sr_source_revision r
  | None => sq_source_head_revision q
  end.

Definition response_valid (batch : PendingBatch) (p : SyncResponse) : bool :=
  String.eqb (sp_session_id p) (pb_session_id batch)
  && (ak_acked_through_revision (pb_previous_ack batch) <=? sp_acked_through_revision p)
  && (sp_acked_through_revision p <=? sq_source_head_revision (pb_request batch))
  && (sp_committed_through_revision p <=? last_sent_revision (pb_request batch)).

Definition apply_response (batch : PendingBatch) (p : SyncResponse) (now : Z) : AckState :=
  let ack := pb_previous_ack batch in
  let q := pb_request batch in
  mkAck (ak_schema_version ack) (ak_host_id ack) (ak_session_id ack)
    (Z.max (ak_acked_through_revision ack) (sp_acked_through_revision p))
    (Z.max (Z.max (ak_delivered_through_revision ack) (sp_committed_through_revision p))
       (sp_acked_through_revision p))
    (sq_repository_key q) (sq_source_base_revision q) (sq_source_head_revision q)
    (sq_gap_count q) (sq_journal_degraded q) now.

Definition acked_records (q : SyncRequest) (p : SyncResponse) : Z :=
  zlen (List.filter (fun r => sr_source_revision r
          <=? Z.max (sp_committed_through_revision p) (sp_acked_through_revision p)) (sq_records q)).

(** The end of a call whose batch was sent. *)
Definition finish_batch (h : HostReplicator) (d : SyncDisk) (e : SyncEnvironment)
    (batch : PendingBatch) (p : SyncResponse) :
    HostReplicator * SyncDisk * result SyncFailureCode SyncOutcome :=
  if negb (response_valid batch p) then record_failure h d e InvalidAck
  else
    let ack := apply_response batch p (sy_unix e) in
    let d := mkSyncDisk (sd_status d)
               (write_json_atomic (sy_save_ack e) (sd_acks d)
                  (<[pb_session_id batch := ack]> (sd_acks d))) in
    if negb (write_ok (sy_save_ack e)) then record_failure h d e LocalStore
    else
      let status := set_success (hr_status h) (sy_unix e) (acked_records (pb_request batch) p)
                      (sp_cloud_head_seq p) (sp_complete p) in
      let h := mkReplicator (hr_host_id h) (hr_include_previews h) None INITIAL_RETRY_DELAY status in
      (h, save_status (sy_save_final e) h d,
       Ok (Acked (pb_session_id batch) (zlen (sq_records (pb_request batch)))
             (ak_delivered_through_revision ack))).

(** The call past its timer. *)
Definition send_next (h : HostReplicator) (d : SyncDisk) (e : SyncEnvironment) :
    HostReplicator * SyncDisk * result SyncFailureCode SyncOutcome :=
  match next_batch h d e with
  | (h, d, Err error) =>
      record_failure h d e (if String.eqb error identity_changed then IdentityConflict
                            else LocalStore)
  | (h, d, Ok None) => (h, d, Ok NoWork)
  | (h, d, Ok (Some batch)) =>
      let h := set_status h (set_attempt (hr_status h) (sy_unix e)) in
      let d := save_status (sy_save_attempt e) h d in
      match sy_send e (pb_request batch) with
      | Err code => record_failure h d e code
      | Ok response => finish_batch h d e batch response
      end
  end.

(** [sync_next]. *)
Definition sync_next (h : HostReplicator) (d : SyncDisk) (e : SyncEnvironment) :
    HostReplicator * SyncDisk * result SyncFailureCode SyncOutcome :=
  match sy_lock e with
  | Err _ => record_failure h d e LocalStore
  | Ok false => (h, d, Ok Busy)
  | Ok true =>
      let h := reload h d e in
      match hr_retry_at h with
      | Some retry_at =>
          if sy_instant e <? retry_at then
            (h, d, Ok (Backoff (saturating_add
                          (Z.max (retry_at - sy_instant_later e) 0 / NANOS) 1)))
          else send_next h d e
      | None => send_next h d e
      end
  end.
End Batch.
