(* ===== verification/ReplicatorTheorems.v ===== *)
(** * What reaches the gateway

    A batch is a run of consecutive records of one repository within its limits;
    the durable cursor of a session never passes a record the gateway does not
    have, whatever is appended, compacted, lost or answered in between; every
    session gets its turn; and without previews the content of what was said does
    not leave the host. *)

From S2P Require Import Prelude Strings Json Value Observation Journal JournalTheorems Replicator.

#[local] Open Scope Z_scope.
#[local] Open Scope rust_scope.

Section Filling.
Context `{UU : UuidLib, SJ : !SerdeJson, OC : !ObservationCodec} (sha256_hex : string -> string).

Definition record_of (previews : bool) (o : Observation) : SyncRecord :=
  mkSyncRecord (ob_revision o) (cloud_observation sha256_hex o previews).

(** The encoded size of the records, when every one can be encoded. *)
Fixpoint batch_bytes (records : list SyncRecord) : option Z :=
  match records with
  | [] => Some 0
  | r :: rest =>
      match sync_record_len r, batch_bytes rest with
      | Ok n, Some m => Some (n + m)
      | _, _ => None
      end
  end.

Lemma sync_record_len_nonneg r n : sync_record_len r = Ok n -> 0 <= n.
Proof.
  unfold sync_record_len. destruct (ok_or _ _); cbn; [|done]. intros [= <-]. apply str_len_nonneg.
Qed.

Lemma batch_bytes_snoc l r n m :
  batch_bytes l = Some m -> sync_record_len r = Ok n -> batch_bytes (l ++ [r]) = Some (m + n).
Proof.
  revert m. induction l as [|x l IH]; intros m Hm Hn; cbn in *.
  - injection Hm as <-. rewrite Hn. f_equal. lia.
  - destruct (sync_record_len x) as [k|]; [|done]. destruct (batch_bytes l) as [k'|]; [|done].
    injection Hm as <-. rewrite (IH k') by done. f_equal. lia.
Qed.

(** What the loop has built so far, and what it ends with. *)
Definition batch_shape (previews : bool) (page : list Observation) (n : nat)
    (records : list SyncRecord) (key : option (option string)) : Prop :=
  (n <= length page)%nat
  /\ records = map (record_of previews) (take n page)
  /\ Forall (fun o => Some (ob_repository_key o) = key) (take n page)
  /\ exists bytes, batch_bytes records = Some bytes /\ 0 <= bytes <= MAX_BATCH_BYTES.

Lemma fill_batch_spec previews page : forall done rest key bytes records out key',
  page = done ++ rest ->
  records = map (record_of previews) done ->
  Forall (fun o => Some (ob_repository_key o) = key) done ->
  (done = [] -> key = None) ->
  batch_bytes records = Some bytes -> 0 <= bytes <= MAX_BATCH_BYTES ->
  fill_batch sha256_hex previews key bytes records rest = Ok (out, key') ->
  exists n, batch_shape previews page n out key'
            /\ (length done <= n)%nat /\ (done = [] -> rest <> [] -> 0 < n)%nat.
Proof.
  intros dn rest. revert dn. induction rest as [|o rest IH];
    intros dn key bytes records out key' Hpage Hrec Hkey Hnone Hbytes Hle; cbn [fill_batch].
  - intros [= <- <-]. exists (length dn). rewrite app_nil_r in Hpage. subst page.
    split; [|done]. split; [done|]. rewrite firstn_all. split; [done|]. split; [done|]. by exists bytes.
  - assert (batch_shape previews page (length dn) records key) as Hstop.
    { subst page. split; [rewrite length_app; lia|]. rewrite take_app_length. split; [done|].
      split; [done|]. by exists bytes. }
    destruct (is_some_and _ key) eqn:Ek.
    { intros [= <- <-]. exists (length dn). split; [done|]. split; [done|]. intros ->.
      by rewrite (Hnone eq_refl) in Ek. }
    destruct (sync_record_len _) as [n|] eqn:En; cbn [bind]; [|done].
    assert (Some (default (ob_repository_key o) key) = Some (ob_repository_key o)) as Hdef.
    { destruct key as [known|]; [|done]. cbn in Ek. apply negb_false_iff, bool_decide_eq_true in Ek.
      by rewrite Ek. }
    rewrite Hdef. pose proof (sync_record_len_nonneg _ _ En) as Hn.
    destruct (negb _ && (MAX_BATCH_BYTES <? _)) eqn:Ef.
    { intros [= <- <-]. exists (length dn).
      assert (dn <> []) as Hne.
      { intros ->. by rewrite Hrec in Ef. }
      split; [|by split]. destruct dn as [|x dn]; [done|]. inversion Hkey as [|? ? Hx Hkey']; subst.
      cbn in Ek. apply negb_false_iff, bool_decide_eq_true in Ek. rewrite <- Ek. exact Hstop. }
    destruct (n <=? MAX_BATCH_BYTES) eqn:El; cbn [ensure bind]; [|done].
    apply Z.leb_le in El.
    assert (saturating_add bytes n = bytes + n) as Hsum.
    { apply saturating_add_exact. unfold MAX_BATCH_BYTES, U64_MAX in *. lia. }
    rewrite Hsum in *. intros Hf.
    eapply (IH (dn ++ [o])) in Hf as (k & Hs & Hk & _).
    + exists k. split; [done|]. rewrite length_app in Hk. cbn in Hk. split; [lia|]. intros; lia.
    + by rewrite <- app_assoc.
    + by rewrite map_app, Hrec.
    + apply Forall_app. split; [|by constructor]. destruct dn as [|x dn]; [done|].
      inversion Hkey as [|? ? Hx Hkey']; subst. cbn in Ek.
      apply negb_false_iff, bool_decide_eq_true in Ek. by rewrite <- Ek.
    + by destruct dn.
    + by apply batch_bytes_snoc.
    + split; [lia|]. apply andb_false_iff in Ef as [Ef|Ef%Z.ltb_ge]; [|done].
      destruct records as [|x records]; [|done]. injection Hbytes as <-. lia.
Qed.

Lemma fill_batch_page previews page out key :
  fill_batch sha256_hex previews None 0 [] page = Ok (out, key) ->
  exists n, batch_shape previews page n out key /\ (page <> [] -> (0 < n)%nat).
Proof.
  intros Hf. eapply (fill_batch_spec previews page [] page None 0 []) in Hf as (n & Hs & _ & Hn);
    try done.
  exists n. split; [done|]. by apply Hn.
Qed.

(** * One session's batch *)

(** What a batch for a session holds, given the snapshot it was made from. *)
Record batch_ok (previews : bool) (session_id : string) (ack : AckState)
    (snapshot : ReplicationSnapshot) (batch : PendingBatch) : Prop := mkBatchOk {
  bo_session : pb_session_id batch = session_id /\ sq_session_id (pb_request batch) = session_id;
  bo_ack : pb_previous_ack batch = ack;
  bo_head : sq_source_head_revision (pb_request batch) = rs_head_revision snapshot
            /\ sq_source_base_revision (pb_request batch) = rs_base_revision snapshot
            /\ scan_after_revision ack <= rs_head_revision snapshot;
  bo_records : exists n key,
      batch_shape previews (rs_records snapshot) n (sq_records (pb_request batch)) key
      /\ (rs_records snapshot <> [] -> (0 < n)%nat)
      /\ (n <> 0%nat -> key = Some (sq_repository_key (pb_request batch)));
  bo_identity : sq_records (pb_request batch) <> [] -> ak_repository_key ack <> None ->
                sq_repository_key (pb_request batch) = ak_repository_key ack;
  bo_reported : sq_gap_count (pb_request batch) = batch_gap_count ack snapshot
                /\ sq_journal_degraded (pb_request batch) = batch_degraded ack snapshot;
}.

Lemma session_batch_ok previews session_id ack snapshot batch :
  session_batch sha256_hex previews session_id ack snapshot = Ok (Some batch) ->
  batch_ok previews session_id ack snapshot batch.
Proof.
  unfold session_batch. destruct (Z.ltb_spec (rs_head_revision snapshot) (scan_after_revision ack)); [done|].
  destruct (fill_batch _ _ _ _ _ _) as [[records key]|] eqn:Ef; cbn [bind]; [|done].
  apply fill_batch_page in Ef as (n & Hshape & Hn).
  set (empty := match records with
                | [] => true
                | _ => false
                end).
  destruct (empty && _) eqn:Ee; [done|].
  destruct (negb empty && _ && _) eqn:Ei; [done|]. intros [= <-].
  assert (n <> 0%nat -> empty = false /\ exists o, Some (ob_repository_key o) = key) as Hne.
  { intros Hn0. destruct Hshape as (Hle & Hr & Hk & _).
    destruct (rs_records snapshot) as [|o page]; [cbn in Hle; lia|]. destruct n as [|n]; [done|].
    cbn in Hr, Hk. inversion Hk as [|? ? Ho _]; subst. split; [done|]. by exists o. }
  constructor; cbn; try done.
  - exists n, key. split; [done|]. split; [done|]. intros Hn0.
    destruct (Hne Hn0) as [-> [o <-]]. done.
  - intros Hr Hk. assert (empty = false) as He by (by destruct records). rewrite He in *. cbn in Ei.
    assert (is_some (ak_repository_key ack) = true) as Hs by (by apply is_some_true).
    rewrite Hs in Ei. cbn in Ei. by apply negb_false_iff, bool_decide_eq_true in Ei.
Qed.
End Filling.

(** * The cursor *)

Section Source.
Context `{UU : UuidLib, OC : !ObservationCodec}.

(** ** What a journal promises its replicator *)

Definition own (session_id : string) (d : Disk) : list Observation :=
  List.filter (fun r => String.eqb (ob_session_id r) session_id) (records_of d).
Definition base_of (d : Disk) : Z := jm_base_revision (read_meta d).
Definition head_of (session_id : string) (d : Disk) : Z :=
  last_revision (own session_id d) (base_of d).

Record source_ok (d : Disk) : Prop := mkSourceOk {
  so_wf : journal_wf d;
  so_base : 0 <= base_of d;
  so_revisions : forall r, r ∈ records_of d -> base_of d < ob_revision r < U64_MAX;
}.

(** A revision is given out once, above all that were given out before. *)
Definition source_grows (session_id : string) (d d' : Disk) : Prop :=
  head_of session_id d <= head_of session_id d'
  /\ forall r, r ∈ own session_id d' ->
       (exists r0, r0 ∈ own session_id d /\ ob_revision r0 = ob_revision r)
       \/ head_of session_id d < ob_revision r.

Lemma own_head session_id d r :
  source_ok d -> r ∈ own session_id d -> base_of d < ob_revision r <= head_of session_id d.
Proof.
  intros [Hwf _ Hrev] Hr. split.
  - apply Hrev. apply list_elem_of_In, filter_In in Hr as [Hr _]. by apply list_elem_of_In.
  - apply last_revision_max; [apply key_sorted_filter, Hwf|done].
Qed.

Lemma head_base session_id d : source_ok d -> base_of d <= head_of session_id d.
Proof.
  intros Hok. unfold head_of, last_revision. destruct (last (own session_id d)) as [r|] eqn:E; [|lia].
  apply last_Some in E as [l E]. assert (r ∈ own session_id d) as Hr by (rewrite E; set_solver).
  pose proof (own_head session_id d r Hok Hr). lia.
Qed.

(** The page that a replicator is given. *)
Lemma snapshot_page ok d session_id after s :
  source_ok d ->
  replication_snapshot ok d session_id after MAX_BATCH_RECORDS = Ok s ->
  rs_base_revision s = base_of d /\ rs_head_revision s = head_of session_id d
  /\ rs_records s = take 32 (List.filter (fun r => after <? ob_revision r) (own session_id d)).
Proof.
  intros [Hwf Hbase Hrev] Hs.
  assert (replication_snapshot true d session_id after MAX_BATCH_RECORDS = Ok s) as Hs'.
  { revert Hs. unfold replication_snapshot. destruct (Upgrade.validate_session_id session_id); [|done].
    cbn [bind]. destruct (dk_journal d) as [t|] eqn:Ej; [|done]. by destruct ok. }
  destruct (replication_gap_count d session_id after MAX_BATCH_RECORDS s Hwf Hbase Hrev Hs')
    as (H1 & H2 & _ & _ & H3 & _). done.
Qed.

(** A page in order: what lies between the cursor and the last record sent was sent. *)
Lemma page_covers session_id d after n r last_sent :
  source_ok d ->
  let page := take 32 (List.filter (fun r => after <? ob_revision r) (own session_id d)) in
  last (take n page) = Some last_sent ->
  r ∈ own session_id d -> after < ob_revision r <= ob_revision last_sent ->
  r ∈ take n page.
Proof.
  intros Hok page Hlast Hr Hrev. subst page. rewrite take_take in *.
  set (l := List.filter (fun r => after <? ob_revision r) (own session_id d)) in *.
  assert (key_sorted ob_revision l) as Hs by (do 2 apply key_sorted_filter; apply Hok).
  assert (r ∈ l) as Hin.
  { apply list_elem_of_In, filter_In. split; [by apply list_elem_of_In|]. apply Z.ltb_lt. lia. }
  rewrite <- (take_drop (Nat.min n 32) l) in Hin, Hs. apply elem_of_app in Hin as [Hin|Hin]; [done|].
  apply key_sorted_app in Hs as (_ & _ & Hlt). apply last_Some in Hlast as [l' Hl'].
  specialize (Hlt last_sent r). rewrite Hl' in Hlt at 1.
  assert (ob_revision last_sent < ob_revision r); [|lia]. apply Hlt; [set_solver|done].
Qed.

End Source.

Section Cursor.
Context `{UU : UuidLib, SJ : !SerdeJson, OC : !ObservationCodec} (sha256_hex : string -> string).

#[local] Notation sync_next := (sync_next sha256_hex).

(** ** The world of one target *)

Record SyncWorld := mkSyncWorld {
  sw_disk : SyncDisk;
  sw_replicators : gmap Z HostReplicator;
  sw_journals : gmap string Disk;
  sw_cloud : gset (string * Z);          (* the revisions the gateway has stored *)
}.

Definition journal_of (w : SyncWorld) (session_id : string) : Disk :=
  default empty_disk (sw_journals w !! session_id).

(** An answer of the gateway says what is true of its store: that the records it was
    sent are stored up to the committed revision; and that every revision above the
    reported base is stored up to the acknowledged one. *)
Definition faithful (cloud : gset (string * Z)) (q : SyncRequest) (p : SyncResponse) : Prop :=
  (forall r, r ∈ sq_records q -> sr_source_revision r <= sp_committed_through_revision p ->
     (sq_session_id q, sr_source_revision r) ∈ cloud)
  /\ (forall n, sq_source_base_revision q < n <= sp_acked_through_revision p ->
        (sq_session_id q, n) ∈ cloud).

(** Journals are written and compacted; replicators of the host start; and one of them
    makes a call, in which the gateway may store anything, also when its answer is lost. *)
Inductive sync_step (host : string) : SyncWorld -> SyncWorld -> Prop :=
| sync_journal (w : SyncWorld) (session_id : string) (d' : Disk) :
    source_grows session_id (journal_of w session_id) d' -> source_ok d' ->
    sync_step host w (mkSyncWorld (sw_disk w) (sw_replicators w)
                        (<[session_id := d']> (sw_journals w)) (sw_cloud w))
| sync_start (w : SyncWorld) (k : Z) (previews : bool) (now instant : Z) :
    sync_step host w (mkSyncWorld (sw_disk w)
      (<[k := replicator_new host previews (sw_disk w) now instant]> (sw_replicators w))
      (sw_journals w) (sw_cloud w))
| sync_call (w : SyncWorld) (k : Z) (h h' : HostReplicator) (e : SyncEnvironment) (d' : SyncDisk)
    (answer : result SyncFailureCode SyncOutcome) (cloud' : gset (string * Z)) :
    sw_replicators w !! k = Some h ->
    sy_journals e = sw_journals w ->
    sync_next h (sw_disk w) e = (h', d', answer) ->
    sw_cloud w ⊆ cloud' ->
    (forall q p, sy_send e q = Ok p -> faithful cloud' q p) ->
    sync_step host w (mkSyncWorld d' (<[k := h']> (sw_replicators w)) (sw_journals w) cloud').

Inductive sync_run (host : string) : SyncWorld -> SyncWorld -> Prop :=
| sync_run_nil (w : SyncWorld) : sync_run host w w
| sync_run_snoc (w w1 w2 : SyncWorld) :
    sync_run host w w1 -> sync_step host w1 w2 -> sync_run host w w2.

(** ** The cursor never passes what is not stored *)

Definition cursor (host : string) (w : SyncWorld) (session_id : string) : Z :=
  scan_after_revision (load_ack (sd_acks (sw_disk w)) host session_id).

Definition cursor_ok (host : string) (w : SyncWorld) : Prop :=
  forall session_id,
    cursor host w session_id <= head_of session_id (journal_of w session_id)
    /\ forall r, r ∈ own session_id (journal_of w session_id) ->
         ob_revision r <= cursor host w session_id ->
         (session_id, ob_revision r) ∈ sw_cloud w.

Record sync_ok (host : string) (w : SyncWorld) : Prop := mkSyncOk {
  sk_sources : forall session_id, source_ok (journal_of w session_id);
  sk_hosts : forall k h, sw_replicators w !! k = Some h -> hr_host_id h = host;
  sk_cursor : cursor_ok host w;
}.

(** *** A call changes the acknowledgements only by applying an answer *)

Lemma save_status_acks x h d : sd_acks (save_status x h d) = sd_acks d.
Proof. done. Qed.

Lemma record_failure_acks h d e code h' d' answer :
  record_failure h d e code = (h', d', answer) ->
  sd_acks d' = sd_acks d /\ hr_host_id h' = hr_host_id h /\ answer = Err code.
Proof. unfold record_failure. by intros [= <- <- <-]. Qed.

Lemma reload_host h d e : hr_host_id (reload h d e) = hr_host_id h.
Proof. unfold reload. repeat case_match; done. Qed.

Lemma scan_spec h d e sessions h' d' answer :
  scan sha256_hex h d e sessions = (h', d', answer) ->
  sd_acks d' = sd_acks d /\ hr_host_id h' = hr_host_id h
  /\ forall batch, answer = Ok (Some batch) ->
     exists session_id snapshot,
       let ack := load_ack (sd_acks d) (hr_host_id h) session_id in
       snapshot_of e session_id (scan_after_revision ack) = Ok snapshot
       /\ batch_ok sha256_hex (hr_include_previews h) session_id ack snapshot batch.
Proof.
  revert h d. induction sessions as [|session_id rest IH]; intros h d; cbn [scan].
  { by intros [= <- <- <-]. }
  set (h1 := set_status h _). set (d1 := save_status _ h1 d).
  destruct (negb _); [by intros [= <- <- <-]|].
  change (sd_acks d1) with (sd_acks d). change (hr_host_id h1) with (hr_host_id h).
  destruct (snapshot_of e session_id _) as [snapshot|] eqn:Es; [|by intros [= <- <- <-]].
  destruct (session_batch _ _ _ _ _) as [[batch|]|] eqn:Eb; [| |by intros [= <- <- <-]].
  - intros [= <- <- <-]. split; [done|]. split; [done|]. intros b [= <-].
    exists session_id, snapshot. split; [done|]. by eapply session_batch_ok in Eb.
  - intros Hs. apply IH in Hs as (Ha & Hh & Hb). split; [done|]. split; [done|]. exact Hb.
Qed.

(** What one call did to the acknowledgements. *)
Definition applied (e : SyncEnvironment) (host : string) (acks acks' : gmap string AckState) :
    Prop :=
  acks' = acks
  \/ exists previews session_id snapshot batch p,
       let ack := load_ack acks host session_id in
       snapshot_of e session_id (scan_after_revision ack) = Ok snapshot
       /\ batch_ok sha256_hex previews session_id ack snapshot batch
       /\ sy_send e (pb_request batch) = Ok p /\ response_valid batch p = true
       /\ acks' = <[session_id := apply_response batch p (sy_unix e)]> acks.

Lemma finish_batch_applied h d e batch p h' d' answer acks session_id snapshot previews :
  let ack := load_ack acks (hr_host_id h) session_id in
  sd_acks d = acks ->
  snapshot_of e session_id (scan_after_revision ack) = Ok snapshot ->
  batch_ok sha256_hex previews session_id ack snapshot batch ->
  sy_send e (pb_request batch) = Ok p ->
  finish_batch h d e batch p = (h', d', answer) ->
  hr_host_id h' = hr_host_id h /\ applied e (hr_host_id h) acks (sd_acks d').
Proof.
  intros ack Hacks Hsnap Hb Hsend. unfold finish_batch.
  destruct (response_valid batch p) eqn:Ev; cbn [negb].
  2: { intros Hf. apply record_failure_acks in Hf as (-> & -> & _). split; [done|]. by left. }
  rewrite Hacks, (proj1 (bo_session _ _ _ _ _ _ Hb)).
  assert (applied e (hr_host_id h) acks
            (write_json_atomic (sy_save_ack e) acks
               (<[session_id := apply_response batch p (sy_unix e)]> acks))) as Hw.
  { destruct (sy_save_ack e); cbn; [right|by left|right];
      by exists previews, session_id, snapshot, batch, p. }
  destruct (write_ok _); cbn [negb];
    [intros [= <- <- <-]|intros Hf; apply record_failure_acks in Hf as (-> & -> & _)]; done.
Qed.

Lemma next_batch_spec h d e h' d' answer :
  next_batch sha256_hex h d e = (h', d', answer) ->
  sd_acks d' = sd_acks d /\ hr_host_id h' = hr_host_id h
  /\ forall batch, answer = Ok (Some batch) ->
     exists previews session_id snapshot,
       let ack := load_ack (sd_acks d) (hr_host_id h) session_id in
       snapshot_of e session_id (scan_after_revision ack) = Ok snapshot
       /\ batch_ok sha256_hex previews session_id ack snapshot batch.
Proof.
  unfold next_batch. destruct (sy_sessions e) as [[|s l]|]; [by intros [= <- <- <-]| |by intros [= <- <- <-]].
  intros Hs. apply scan_spec in Hs as (Ha & Hh & Hb). split; [done|]. split; [done|].
  intros batch Hx. destruct (Hb batch Hx) as (sid & snap & ? & ?). eexists _, sid, snap. done.
Qed.

Lemma send_next_applied h d e h' d' answer :
  send_next sha256_hex h d e = (h', d', answer) ->
  hr_host_id h' = hr_host_id h /\ applied e (hr_host_id h) (sd_acks d) (sd_acks d').
Proof.
  unfold send_next. destruct (next_batch _ h d e) as [[h1 d1] b] eqn:En.
  apply next_batch_spec in En as (Ha & Hh & Hb). destruct b as [[batch|]|error].
  - destruct (Hb batch eq_refl) as (previews & session_id & snapshot & Hsnap & Hok).
    destruct (sy_send e (pb_request batch)) as [p|code] eqn:Ep.
    + rewrite <- Hh in *. intros Hf.
      set (h2 := set_status h1 (set_attempt (hr_status h1) (sy_unix e))) in *.
      exact (finish_batch_applied h2 (save_status (sy_save_attempt e) h2 d1) e batch p h' d' answer (sd_acks d) session_id snapshot previews Ha Hsnap Hok Ep Hf).
    + intros Hf. apply record_failure_acks in Hf as (Hf & -> & _). split; [done|]. left.
      rewrite Hf. exact Ha.
  - intros [= <- <- <-]. split; [done|]. by left.
  - intros Hf. apply record_failure_acks in Hf as (-> & -> & _). split; [done|]. by left.
Qed.

Lemma sync_next_applied h d e h' d' answer :
  sync_next h d e = (h', d', answer) ->
  hr_host_id h' = hr_host_id h /\ applied e (hr_host_id h) (sd_acks d) (sd_acks d').
Proof.
  unfold Replicator.sync_next. destruct (sy_lock e) as [[]|].
  - rewrite <- (reload_host h d e). destruct (hr_retry_at (reload h d e)) as [retry_at|];
      [|apply send_next_applied].
    destruct (sy_instant e <? retry_at); [|apply send_next_applied].
    intros [= <- <- <-]. split; [done|]. by left.
  - intros [= <- <- <-]. split; [done|]. by left.
  - intros Hf. apply record_failure_acks in Hf as (-> & -> & _). split; [done|]. by left.
Qed.

(** *** The invariant *)

Lemma load_ack_matches acks host session_id :
  let ack := load_ack acks host session_id in
  ak_schema_version ack = SYNC_SCHEMA_VERSION /\ ak_host_id ack = host /\ ak_session_id ack = session_id.
Proof.
  unfold load_ack. destruct (acks !! session_id) as [ack|]; [|done].
  destruct (_ && _) eqn:E; [|done].
  apply andb_true_iff in E as [[E1%Z.eqb_eq E2%String.eqb_eq]%andb_true_iff E3%String.eqb_eq]. done.
Qed.

Lemma load_ack_applied acks host session_id batch p now :
  pb_previous_ack batch = load_ack acks host session_id ->
  load_ack (<[session_id := apply_response batch p now]> acks) host session_id
  = apply_response batch p now.
Proof.
  intros Hb. unfold load_ack at 1. rewrite lookup_insert_eq. cbn [apply_response ak_schema_version
    ak_host_id ak_session_id]. rewrite Hb.
  destruct (load_ack_matches acks host session_id) as (-> & -> & ->).
  by rewrite Z.eqb_refl, !String.eqb_refl.
Qed.

Lemma load_ack_other acks host session_id session_id' ack :
  session_id <> session_id' -> load_ack (<[session_id := ack]> acks) host session_id'
                               = load_ack acks host session_id'.
Proof. intros Hne. unfold load_ack. by rewrite lookup_insert_ne. Qed.

(** An answer that is faithful moves the cursor over stored records only. *)
Lemma applied_cursor (previews : bool) (session_id : string) (ack : AckState)
    (snapshot : ReplicationSnapshot) (batch : PendingBatch) (p : SyncResponse)
    (cloud : gset (string * Z)) (now : Z) (d : Disk) (ok : bool) :
  source_ok d ->
  replication_snapshot ok d session_id (scan_after_revision ack) MAX_BATCH_RECORDS = Ok snapshot ->
  batch_ok sha256_hex previews session_id ack snapshot batch ->
  response_valid batch p = true -> faithful cloud (pb_request batch) p ->
  scan_after_revision ack <= head_of session_id d ->
  (forall r, r ∈ own session_id d -> ob_revision r <= scan_after_revision ack ->
     (session_id, ob_revision r) ∈ cloud) ->
  let cursor := scan_after_revision (apply_response batch p now) in
  cursor <= head_of session_id d
  /\ forall r, r ∈ own session_id d -> ob_revision r <= cursor -> (session_id, ob_revision r) ∈ cloud.
Proof.
  intros Hsrc Hsnap Hb Hv [Hcommitted Hacked] Hhead Hold cursor.
  destruct (snapshot_page _ _ _ _ _ Hsrc Hsnap) as (Hbase & Hh & Hpage).
  destruct Hb as [[_ Hsid] Hack (Hqh & Hqb & _) (n & key & Hshape & Hn & _) _ _].
  unfold response_valid in Hv. apply andb_true_iff in Hv as [[[_ Ha1]%andb_true_iff Ha2]%andb_true_iff Hc].
  apply Z.leb_le in Ha1, Ha2, Hc. rewrite Hqh, Hh in Ha2. rewrite Hqb, Hbase, Hsid in Hacked.
  destruct Hshape as (Hle & Hrec & _).
  assert (cursor = Z.max (scan_after_revision ack)
            (Z.max (sp_committed_through_revision p) (sp_acked_through_revision p))) as Hcur.
  { unfold cursor, scan_after_revision, apply_response. cbn. rewrite Hack. lia. }
  assert (last_sent_revision (pb_request batch) <= head_of session_id d
    /\ forall r, r ∈ own session_id d ->
         scan_after_revision ack < ob_revision r <= sp_committed_through_revision p ->
         exists x, x ∈ sq_records (pb_request batch) /\ sr_source_revision x = ob_revision r)
    as [Hls Hsent].
  { unfold last_sent_revision in *. rewrite Hrec in *.
    change (map ?f ?l) with (f <$> l) in *. rewrite fmap_last in *.
    destruct (last (take n (rs_records snapshot))) as [o|] eqn:El; cbn [option_fmap option_map fmap] in *.
    - assert (o ∈ own session_id d) as Ho.
      { apply last_Some in El as [l El]. assert (o ∈ take n (rs_records snapshot)) as Hin
          by (rewrite El; set_solver).
        apply subseteq_take in Hin. rewrite Hpage in Hin. apply subseteq_take in Hin.
        apply list_elem_of_In, filter_In in Hin as [Hin _]. by apply list_elem_of_In. }
      split; [apply (own_head session_id d o Hsrc Ho)|]. intros r Hr Hrr.
      exists (record_of sha256_hex previews r). split; [|done]. apply elem_of_map.
      rewrite Hpage in El |- *. eapply page_covers; [done|exact El|done|]. cbn in Hc. lia.
    - split; [rewrite Hqh, Hh; lia|]. intros r Hr Hrr. exfalso. apply last_None in El.
      assert (rs_records snapshot = []) as Hnil.
      { destruct (rs_records snapshot) as [|o page]; [done|]. specialize (Hn ltac:(done)).
        destruct n as [|n]; [lia|done]. }
      rewrite Hnil in Hpage.
      assert (r ∈ List.filter (fun r => scan_after_revision ack <? ob_revision r) (own session_id d)) as Hin.
      { apply list_elem_of_In, filter_In. split; [by apply list_elem_of_In|]. apply Z.ltb_lt. lia. }
      destruct (List.filter _ (own session_id d)) as [|x l]; [by apply not_elem_of_nil in Hin|done]. }
  split; [lia|]. intros r Hr Hrc. pose proof (own_head session_id d r Hsrc Hr) as Hrange.
  destruct (Z.le_gt_cases (ob_revision r) (scan_after_revision ack)); [by apply Hold|].
  destruct (Z.le_gt_cases (ob_revision r) (sp_acked_through_revision p)); [apply Hacked; lia|].
  destruct (Hsent r Hr) as (x & Hx & Hxr); [lia|]. rewrite <- Hxr, <- Hsid. apply Hcommitted; [done|lia].
Qed.

Lemma sync_step_ok host w w' : sync_ok host w -> sync_step host w w' -> sync_ok host w'.
Proof.
  intros Hw Hstep. revert Hw. destruct Hstep as [w sid d' Hgrows Hok|w k previews now instant
    |w k h h' e d' answer cloud' Hk Hj Hcall Hsub Hfaith]; intros [Hsrc Hhost Hcur].
  - split; [| |].
    + intros s. unfold journal_of. cbn. destruct (decide (sid = s)) as [->|Hne];
        [by rewrite lookup_insert_eq|rewrite lookup_insert_ne by done; apply Hsrc].
    + exact Hhost.
    + intros s. unfold journal_of. cbn. change (cursor host _ s) with (cursor host w s).
      destruct (Hcur s) as [Hle Hst]. destruct (decide (sid = s)) as [->|Hne];
        [rewrite lookup_insert_eq|rewrite lookup_insert_ne by done; by split].
      cbn [default from_option id]. destruct Hgrows as [Hhead Hnew]. split; [lia|].
      intros r Hr Hrc. destruct (Hnew r Hr) as [(r0 & Hr0 & He)|?]; [|lia].
      rewrite <- He in *. by apply Hst.
  - split; [done| |done]. cbn. intros k' h. destruct (decide (k = k')) as [->|Hne];
      [rewrite lookup_insert_eq; by intros [= <-]|rewrite lookup_insert_ne by done; apply Hhost].
  - apply sync_next_applied in Hcall as [Hh Happ]. rewrite (Hhost k h Hk) in *.
    split; [done| |].
    + cbn. intros k' h0. destruct (decide (k = k')) as [->|Hne];
        [rewrite lookup_insert_eq; by intros [= <-]|rewrite lookup_insert_ne by done; apply Hhost].
    + intros s. change (journal_of _ s) with (journal_of w s). unfold cursor. cbn [sw_disk sw_cloud].
      assert (scan_after_revision (load_ack (sd_acks (sw_disk w)) host s) <= head_of s (journal_of w s)
        /\ forall r, r ∈ own s (journal_of w s) ->
             ob_revision r <= scan_after_revision (load_ack (sd_acks (sw_disk w)) host s) ->
             (s, ob_revision r) ∈ cloud') as [Hle Hst].
      { destruct (Hcur s) as [Hle Hst]. split; [done|]. intros r Hr Hrc. by apply Hsub, Hst. }
      destruct Happ as [->|(previews & sid & snap & batch & p & Hsnap & Hb & Hsend & Hv & ->)]; [done|].
      destruct (decide (sid = s)) as [->|Hne]; [|by rewrite load_ack_other].
      rewrite load_ack_applied by exact (bo_ack _ _ _ _ _ _ Hb).
      unfold snapshot_of in Hsnap. rewrite Hj in Hsnap.
      eapply (applied_cursor previews s); [apply Hsrc|exact Hsnap|exact Hb|done|by apply Hfaith|done|done].
Qed.

End Cursor.

(** * What is sent *)

Section Privacy.
Context `{UU : UuidLib, SJ : !SerdeJson} (sha256_hex : string -> string).

(** What a content shows when previews are withheld. *)
Inductive public_content :=
| PubText (total_bytes : Z) (sha256 : string) (truncated : bool)
| PubDigest (sha256 : string) (total_bytes : Z) (truncated : bool)
| PubNone.

Definition public_of (content : ObservationContent) : public_content :=
  match content with
  | CText _ total_bytes sha256 truncated => PubText total_bytes sha256 truncated
  | CView view =>
      let bytes := default EmptyString (to_vec view) in
      PubDigest (sha256_hex bytes) (str_len bytes) false
  | CViewDigest sha256 total_bytes truncated => PubDigest sha256 total_bytes truncated
  | CError preview => PubDigest (sha256_hex preview) (str_len preview) false
  | CNone => PubNone
  end.

(** An observation with another content and another repository. *)
Definition with_secrets (o : Observation) (content : ObservationContent)
    (repository repository_key : option string) : Observation :=
  mkObservation (ob_id o) (ob_schema_version o) (ob_observed_at o) (ob_accepted_at o)
    (ob_session_id o) (ob_session_instance o) repository repository_key (ob_workspace_id o)
    (ob_task_id o) (ob_execution_id o) (ob_operation_id o) (ob_actor o) (ob_target o)
    (ob_action o) (ob_kind o) content (ob_state_ref o) (ob_evidence_refs o) (ob_provenance o)
    (ob_revision o) (ob_dedupe_key o).

Lemma cloud_content_public c c' :
  public_of c = public_of c' -> cloud_content sha256_hex c false = cloud_content sha256_hex c' false.
Proof. destruct c, c'; cbn; unfold digest_json; congruence. Qed.

Lemma object_remove_app k l l' :
  object_remove k (l ++ l') = object_remove k l ++ object_remove k l'.
Proof. apply List.filter_app. Qed.

Lemma object_remove_opt {A : Type} k key (f : A -> Json) o :
  object_remove k (opt_field key f o) = if String.eqb key k then [] else opt_field key f o.
Proof. destruct o; cbn; by destruct (key =? k)%string. Qed.

Lemma object_insert_opt {A : Type} k v key (f : A -> Json) o l :
  String.eqb k key = false ->
  object_insert k v (opt_field key f o ++ l) = opt_field key f o ++ object_insert k v l.
Proof. intros E. destruct o; cbn; by rewrite ?E. Qed.

Lemma object_remove_cons k k' v l :
  object_remove k ((k', v) :: l)
  = if String.eqb k' k then object_remove k l else (k', v) :: object_remove k l.
Proof. unfold object_remove. cbn. by destruct (k' =? k)%string. Qed.

Lemma object_remove_in k l kv : kv ∈ object_remove k l -> kv ∈ l /\ kv.1 <> k.
Proof.
  unfold object_remove. intros [Hin Hk]%list_elem_of_In%filter_In.
  by apply list_elem_of_In in Hin; apply negb_true_iff, String.eqb_neq in Hk.
Qed.

Lemma object_remove_nil k : object_remove k [] = [].
Proof. done. Qed.

(** The fields that are sent: those of the record but the repository, with a content. *)
Definition sent_fields (o : Observation) (content : Json) : list (string * Json) :=
  object_insert "content" content
    (object_remove "repository_key" (object_remove "repository" (observation_fields o))).

Lemma sent_fields_secrets o content repository repository_key j :
  sent_fields (with_secrets o content repository repository_key) j = sent_fields o j.
Proof.
  unfold sent_fields, observation_fields.
  repeat (rewrite ?object_remove_app, ?object_remove_opt, ?object_remove_cons,
            ?object_remove_nil;
          cbn [String.eqb Ascii.eqb Bool.eqb app]).
  cbn [app object_insert String.eqb Ascii.eqb Bool.eqb].
  repeat (rewrite object_insert_opt by done; cbn [app object_insert String.eqb Ascii.eqb Bool.eqb]).
  done.
Qed.

Lemma sent_fields_keys o j kv :
  kv ∈ sent_fields o j -> kv.1 <> "repository"%string /\ kv.1 <> "repository_key"%string.
Proof.
  unfold sent_fields. set (l := object_remove _ _).
  assert (forall kv, kv ∈ l -> kv.1 <> "repository"%string /\ kv.1 <> "repository_key"%string) as Hl.
  { by intros x [[_ Hx]%object_remove_in Hk]%object_remove_in. }
  generalize dependent l. induction l as [|[k v] l IH]; intros Hl.
  - intros [-> |[]%elem_of_nil]%elem_of_cons. done.
  - cbn [object_insert]. destruct ("content" =? k)%string.
    + intros [-> |Hin]%elem_of_cons; [done|]. apply Hl. by right.
    + intros [-> |Hin]%elem_of_cons; [apply Hl; by left|]. apply IH; [|done]. intros x Hx. apply Hl. by right.
Qed.

(** Without previews what leaves the host is the same whatever was said, as long as its
    length and digest are; and the repository's name and key are in no observation that is
    sent, with previews or without. *)
Theorem previews_withheld o content repository repository_key previews :
  (public_of content = public_of (ob_content o) ->
   cloud_observation sha256_hex (with_secrets o content repository repository_key) false
   = cloud_observation sha256_hex o false)
  /\ exists fields, cloud_observation sha256_hex o previews = JObj fields
     /\ forall kv, kv ∈ fields -> kv.1 <> "repository"%string /\ kv.1 <> "repository_key"%string.
Proof.
  split.
  - intros Hp. unfold cloud_observation. f_equal. cbn [ob_content with_secrets].
    rewrite (cloud_content_public _ _ Hp). apply sent_fields_secrets.
  - eexists. split; [done|]. apply sent_fields_keys.
Qed.
End Privacy.

(** * Failures *)

Section Backoff.
Context `{UU : UuidLib, SJ : !SerdeJson, OC : !ObservationCodec} (sha256_hex : string -> string).

#[local] Notation sync_next := (sync_next sha256_hex).

Definition delay_ok (delay : Z) : Prop := INITIAL_RETRY_DELAY <= delay <= MAX_RETRY_DELAY.

(** A replicator's status is its own, and its delay is within the bounds. *)
Definition replicator_ok (h : HostReplicator) : Prop :=
  status_matches (hr_host_id h) (hr_status h) = true /\ delay_ok (hr_retry_delay h).

(** The numbers of a status file are unsigned. *)
Definition status_file_ok (d : SyncDisk) : Prop :=
  forall s, sd_status d = Some s -> 0 <= rp_retry_after_seconds s.

Lemma loaded_delay_ok s : 0 <= rp_retry_after_seconds s -> delay_ok (loaded_delay s).
Proof.
  unfold loaded_delay, delay_ok, INITIAL_RETRY_DELAY, MAX_RETRY_DELAY, U64_MAX. intros Hs.
  destruct (Z.eqb_spec (rp_retry_after_seconds s) 0); lia.
Qed.

Lemma status_default_matches host : status_matches host (status_default host) = true.
Proof. unfold status_matches. cbn. apply String.eqb_refl. Qed.

Lemma replicator_new_ok host previews d now instant :
  status_file_ok d -> replicator_ok (replicator_new host previews d now instant).
Proof.
  intros Hd. unfold replicator_new, replicator_ok. cbn [hr_host_id hr_status hr_retry_delay].
  destruct (sd_status d) as [s|] eqn:Es.
  2: { split; [apply status_default_matches|by apply loaded_delay_ok]. }
  destruct (status_matches host s) eqn:Em; (split; [|apply loaded_delay_ok]);
    [done|by apply Hd|apply status_default_matches|done].
Qed.

Lemma reload_ok h d e : status_file_ok d -> replicator_ok h -> replicator_ok (reload h d e).
Proof.
  intros Hd Hh. unfold reload. destruct (sd_status d) as [s|] eqn:Es; [|done].
  destruct (status_matches (hr_host_id h) s) eqn:Em; [|done]. split; [done|].
  apply loaded_delay_ok. by apply Hd.
Qed.

Lemma scan_ok_spec h d e sessions h' d' answer :
  replicator_ok h -> scan sha256_hex h d e sessions = (h', d', answer) ->
  replicator_ok h' /\ hr_host_id h' = hr_host_id h.
Proof.
  revert h d. induction sessions as [|session_id rest IH]; intros h d Hh; cbn [scan].
  { by intros [= <- <- <-]. }
  set (h1 := set_status h _). set (d1 := save_status _ h1 d).
  assert (replicator_ok h1) as H1 by exact Hh.
  destruct (negb _); [by intros [= <- <- <-]|].
  destruct (snapshot_of _ _ _); [|by intros [= <- <- <-]].
  destruct (session_batch _ _ _ _ _) as [[batch|]|]; [by intros [= <- <- <-]| |by intros [= <- <- <-]].
  intros Hs. by apply (IH h1 d1) in Hs.
Qed.

Lemma next_batch_ok h d e h' d' answer :
  replicator_ok h -> next_batch sha256_hex h d e = (h', d', answer) ->
  replicator_ok h' /\ hr_host_id h' = hr_host_id h.
Proof.
  intros Hh. unfold next_batch.
  destruct (sy_sessions e) as [[|s l]|]; [by intros [= <- <- <-]| |by intros [= <- <- <-]].
  intros Hs. eapply scan_ok_spec in Hs; [exact Hs|exact Hh].
Qed.

(** What a call that fails records. *)
Lemma send_next_failure h d e h' d' code :
  replicator_ok h -> send_next sha256_hex h d e = (h', d', Err code) ->
  exists h1 d1, replicator_ok h1 /\ hr_host_id h1 = hr_host_id h
    /\ record_failure h1 d1 e code = (h', d', Err code).
Proof.
  intros Hh. unfold send_next. destruct (next_batch _ h d e) as [[h1 d1] b] eqn:En.
  apply next_batch_ok in En as [H1 Hhost]; [|done].
  destruct b as [[batch|]|error]; [|done|].
  - set (h2 := set_status h1 _). set (d2 := save_status _ h2 d1).
    assert (replicator_ok h2) as H2 by exact H1.
    destruct (sy_send e _) as [p|code'].
    + unfold finish_batch. destruct (negb (response_valid batch p)).
      * intros Hf. pose proof Hf as [= _ _ <-]. by exists h2, d2.
      * destruct (negb (write_ok _)); [|done]. intros Hf. pose proof Hf as [= _ _ <-].
        by eexists h2, _.
    + intros Hf. pose proof Hf as [= _ _ <-]. by exists h2, d2.
  - intros Hf. pose proof Hf as [= _ _ <-]. by exists h1, d1.
Qed.

Lemma sync_next_failure h d e h' d' code :
  status_file_ok d -> replicator_ok h -> sync_next h d e = (h', d', Err code) ->
  exists h1 d1, replicator_ok h1 /\ hr_host_id h1 = hr_host_id h
    /\ record_failure h1 d1 e code = (h', d', Err code).
Proof.
  intros Hd Hh. unfold Replicator.sync_next. pose proof (reload_ok h d e Hd Hh) as Hr.
  rewrite <- (reload_host h d e). destruct (sy_lock e) as [[]|]; [|done|].
  - destruct (hr_retry_at _) as [retry_at|]; [|by apply send_next_failure].
    destruct (sy_instant e <? retry_at); [done|by apply send_next_failure].
  - intros Hf. pose proof Hf as [= _ _ <-]. by exists h, d; rewrite reload_host.
Qed.

Lemma record_failure_ok h d e code h' d' answer :
  replicator_ok h -> record_failure h d e code = (h', d', answer) ->
  replicator_ok h' /\ hr_host_id h' = hr_host_id h.
Proof.
  intros [Hm Hd]. unfold record_failure. intros [= <- <- <-]. split; [|done]. split; [exact Hm|].
  revert Hd. unfold delay_ok, INITIAL_RETRY_DELAY, MAX_RETRY_DELAY. cbn. lia.
Qed.

Lemma send_next_ok h d e h' d' answer :
  replicator_ok h -> send_next sha256_hex h d e = (h', d', answer) ->
  replicator_ok h' /\ hr_host_id h' = hr_host_id h.
Proof.
  intros Hh. destruct answer as [out|code].
  2: { intros (h1 & d1 & H1 & Hhost & Hf)%send_next_failure; [|done].
       apply record_failure_ok in Hf as [? Hf]; [|done]. split; [done|]. by rewrite Hf. }
  unfold send_next. destruct (next_batch _ h d e) as [[h1 d1] b] eqn:En.
  apply next_batch_ok in En as [[Hm Hd] Hhost]; [|done].
  destruct b as [[batch|]|error]; [|by intros [= <- <- <-]|done].
  destruct (sy_send e _) as [p|code']; [|done]. unfold finish_batch.
  destruct (negb _); [done|]. destruct (negb (write_ok _)); [done|]. intros [= <- <- <-].
  split; [|exact Hhost]. split; [exact Hm|]. unfold delay_ok, INITIAL_RETRY_DELAY, MAX_RETRY_DELAY. cbn. lia.
Qed.

(** Before the time in the status file no replicator of the host does anything. *)
Lemma waiting_backs_off h d e s retry_at :
  sy_lock e = Ok true -> sd_status d = Some s -> status_matches (hr_host_id h) s = true ->
  rp_retry_at s = Some retry_at -> sy_unix e < retry_at ->
  exists seconds, sync_next h d e = (reload h d e, d, Ok (Backoff seconds)).
Proof.
  intros Hl Hs Hm Hr Hlt. unfold Replicator.sync_next. rewrite Hl. unfold reload. rewrite Hs, Hm.
  cbn [hr_retry_at]. unfold loaded_retry_at. rewrite Hr.
  apply Z.ltb_lt in Hlt as Hlt'. rewrite Hlt'.
  assert (sy_instant e <? sy_instant e + (retry_at - sy_unix e) * NANOS = true) as ->.
  { apply Z.ltb_lt. unfold NANOS. lia. }
  by eexists.
Qed.

(** A failure makes every replicator of the host wait, for two seconds at first and twice as
    long each time, five minutes at most: before the end of the delay a call reads no
    journal, sends nothing and changes no file. *)
Theorem failure_backs_off h d e h' d' code :
  status_file_ok d -> replicator_ok h -> sync_next h d e = (h', d', Err code) ->
  sy_save_final e <> WFailed ->
  exists delay, delay_ok delay
    /\ replicator_ok h' /\ hr_retry_delay h' = Z.min (delay * 2) MAX_RETRY_DELAY
    /\ loaded_delay (hr_status h') = hr_retry_delay h'
    /\ forall k e', hr_host_id k = hr_host_id h -> sy_lock e' = Ok true ->
         sy_unix e' < saturating_add (sy_unix e) delay ->
         exists seconds, sync_next k d' e' = (reload k d' e', d', Ok (Backoff seconds)).
Proof.
  intros Hd Hh Hs Hsave. apply sync_next_failure in Hs as (h1 & d1 & [Hm Hdelay] & Hhost & Hf); try done.
  unfold record_failure in Hf. injection Hf as <- <-. exists (hr_retry_delay h1).
  assert (replicator_ok (mkReplicator (hr_host_id h1) (hr_include_previews h1)
    (Some (sy_instant_later e + hr_retry_delay h1 * NANOS)) (Z.min (hr_retry_delay h1 * 2) MAX_RETRY_DELAY)
    (set_failure (hr_status h1) code (hr_retry_delay h1) (sy_unix e)))) as Hok.
  { split; [exact Hm|]. revert Hdelay. unfold delay_ok, INITIAL_RETRY_DELAY, MAX_RETRY_DELAY. cbn. lia. }
  split; [done|]. split; [done|]. split; [done|]. split.
  - unfold loaded_delay. cbn [hr_status set_failure rp_retry_after_seconds hr_retry_delay].
    revert Hdelay. unfold delay_ok, INITIAL_RETRY_DELAY, MAX_RETRY_DELAY, U64_MAX. intros Hdelay.
    destruct (Z.eqb_spec (hr_retry_delay h1) 0); lia.
  - intros k e' Hk Hl Hlt.
    eapply (waiting_backs_off k _ e' (set_failure (hr_status h1) code (hr_retry_delay h1) (sy_unix e)));
      [done| |rewrite Hk, <- Hhost; exact Hm|done|exact Hlt].
    cbn [save_status sd_status]. by destruct (sy_save_final e).
Qed.
End Backoff.

(** * Turns *)

Section Turns.
Context `{UU : UuidLib, SJ : !SerdeJson, OC : !ObservationCodec} (sha256_hex : string -> string).

#[local] Notation sync_next := (sync_next sha256_hex).

(** The listing of a directory has every name once, in order. *)
Definition in_order (sessions : list string) : Prop :=
  forall i j a b, (i < j)%nat -> sessions !! i = Some a -> sessions !! j = Some b ->
    String.leb b a = false.

Lemma in_order_tail x l : in_order (x :: l) -> in_order l.
Proof. intros H i j a b Hij Ha Hb. apply (H (S i) (S j) a b); [lia|done|done]. Qed.

Lemma leb_refl s : String.leb s s = true.
Proof. by destruct (String.leb_total s s). Qed.

Lemma partition_point_at l : forall i s,
  in_order l -> l !! i = Some s -> partition_point s l = S i.
Proof.
  induction l as [|x l IH]; intros i s Ho Hi; [done|]. cbn [partition_point].
  destruct i as [|i]; cbn in Hi.
  - injection Hi as <-. rewrite leb_refl. destruct l as [|y l]; [done|]. cbn [partition_point].
    by rewrite (Ho 0%nat 1%nat x y) by (done || lia).
  - assert (String.leb x s = true) as ->.
    { destruct (String.leb_total x s) as [|E]; [done|].
      by rewrite (Ho 0%nat (S i) x s) in E by (done || lia). }
    f_equal. apply IH; [by eapply in_order_tail|done].
Qed.

(** Starting [j + 1] places later is rotating by as much again. *)
Lemma rotate_again (l : list string) p j :
  (p < length l)%nat -> (j < length l)%nat ->
  rotate (S (p + j) mod length l)%nat l = rotate (S j) (rotate p l).
Proof.
  intros Hp Hj. unfold rotate. set (n := length l) in *.
  assert (length (drop p l) = n - p)%nat as Hlen by (rewrite length_drop; done).
  destruct (Nat.lt_trichotomy (S (p + j)) n) as [Hlt|[Heq|Hgt]].
  - rewrite Nat.mod_small by lia. rewrite drop_app_le, take_app_le by lia.
    rewrite drop_drop, <- app_assoc. replace (p + S j)%nat with (S (p + j)) by lia. f_equal.
    rewrite <- (take_drop p (take (S (p + j)) l)), take_take, Nat.min_l by lia. f_equal.
    rewrite take_drop_commute. do 2 f_equal. lia.
  - rewrite Heq, Nat.Div0.mod_same. replace (S j) with (length (drop p l)) by lia.
    rewrite drop_app_length, take_app_length. cbn. by rewrite app_nil_r, take_drop.
  - set (q := (S (p + j) - n)%nat).
    assert (S (p + j) mod n = q)%nat as ->.
    { replace (S (p + j)) with (q + 1 * n)%nat by lia. rewrite Nat.Div0.mod_add.
      apply Nat.mod_small. lia. }
    rewrite drop_app_ge, take_app_ge by lia. replace (S j - length (drop p l))%nat with q by lia.
    rewrite take_take, Nat.min_l by lia. rewrite app_assoc. f_equal.
    rewrite <- (take_drop (p - q) (drop q l)). f_equal.
    + rewrite take_drop_commute. do 2 f_equal. lia.
    + rewrite drop_drop. f_equal. lia.
Qed.

Lemma rotate_length n (l : list string) : length (rotate n l) = length l.
Proof. unfold rotate. rewrite length_app, Nat.add_comm, <- length_app, take_drop. done. Qed.

(** The next scan starts after the session that the last one ended with. *)
Lemma next_rotation status status' sessions j t :
  in_order sessions -> rotate (scan_start status sessions) sessions !! j = Some t ->
  rp_last_session_id status' = Some t ->
  rotate (scan_start status' sessions) sessions
  = rotate (S j) (rotate (scan_start status sessions) sessions).
Proof.
  intros Ho Hj Hlast.
  set (p := scan_start status sessions) in *.
  assert (j < length sessions)%nat as Hjl.
  { apply lookup_lt_Some in Hj. by rewrite rotate_length in Hj. }
  assert (p < length sessions)%nat as Hp.
  { unfold p, scan_start. destruct (rp_last_session_id status); [apply Nat.mod_upper_bound|]; lia. }
  rewrite <- rotate_again by done. f_equal. unfold scan_start. rewrite Hlast.
  unfold rotate in Hj.
  destruct (Nat.lt_ge_cases j (length sessions - p)) as [Hlt|Hge].
  - rewrite lookup_app_l, lookup_drop in Hj by (rewrite length_drop; lia).
    by rewrite (partition_point_at sessions (p + j) t).
  - rewrite lookup_app_r, length_drop in Hj by (rewrite length_drop; lia).
    rewrite lookup_take_lt in Hj by lia.
    rewrite (partition_point_at sessions _ t Ho Hj).
    replace (S (p + j)) with (S (j - (length sessions - p)) + 1 * length sessions)%nat by lia.
    by rewrite Nat.Div0.mod_add.
Qed.

(** A session that a scan would not pass over. *)
Definition pending (previews : bool) (acks : gmap string AckState) (host : string)
    (e : SyncEnvironment) (session_id : string) : Prop :=
  let ack := load_ack acks host session_id in
  forall snapshot, snapshot_of e session_id (scan_after_revision ack) = Ok snapshot ->
    session_batch sha256_hex previews session_id ack snapshot <> Ok None.

(** The lock is acquired, the directory listed and every write done. *)
Definition quiet (sessions : list string) (e : SyncEnvironment) : Prop :=
  sy_lock e = Ok true /\ sy_sessions e = Ok sessions
  /\ (forall s, sy_save_scan e s = WDone) /\ sy_save_attempt e = WDone /\ sy_save_ack e = WDone
  /\ sy_save_final e = WDone.

Lemma scan_turn h d e s l2 l1 h' d' answer :
  (forall s, sy_save_scan e s = WDone) ->
  pending (hr_include_previews h) (sd_acks d) (hr_host_id h) e s ->
  scan sha256_hex h d e (l1 ++ s :: l2) = (h', d', answer) ->
  answer <> Ok None
  /\ exists j t, (j <= length l1)%nat /\ (l1 ++ s :: l2) !! j = Some t
       /\ rp_last_session_id (hr_status h') = Some t.
Proof.
  intros Hw. revert h d. induction l1 as [|x l1 IH]; intros h d Hp; cbn [app scan];
    set (h1 := set_status h _); set (d1 := save_status _ h1 d); rewrite Hw; cbn [write_ok negb];
    change (sd_acks d1) with (sd_acks d); change (hr_host_id h1) with (hr_host_id h).
  - change (hr_include_previews h1) with (hr_include_previews h). specialize (Hp).
    unfold pending in Hp. cbv zeta in Hp.
    destruct (snapshot_of e s _) as [snapshot|] eqn:Es.
    + specialize (Hp _ eq_refl). destruct (session_batch _ _ _ _ _) as [[batch|]|]; [|done|];
        intros [= <- <- <-]; (split; [done|]); exists 0%nat, s; done.
    + intros [= <- <- <-]. split; [done|]. exists 0%nat, s. done.
  - assert (forall r, (h1, d1, r) = (h', d', answer) -> r <> Ok None ->
      answer <> Ok None /\ exists j t, (j <= S (length l1))%nat /\ (x :: l1 ++ s :: l2) !! j = Some t
        /\ rp_last_session_id (hr_status h') = Some t) as Hstop.
    { intros r [= <- <- <-] Hr. split; [done|]. exists 0%nat, x. split_and!; [lia|done|done]. }
    destruct (snapshot_of e x _) as [snapshot|]; [|intros Hs; by apply (Hstop _ Hs)].
    destruct (session_batch _ _ _ _ _) as [[batch|]|]; [intros Hs; by apply (Hstop _ Hs)
      | |intros Hs; by apply (Hstop _ Hs)].
    intros Hs. apply IH in Hs as (Hne & j & t & Hj & Ht & Hl); [|exact Hp]. split; [done|].
    exists (S j), t. cbn. split_and!; [lia|done|done].
Qed.

(** What is saved at the end is what the replicator holds. *)
Lemma record_failure_turn h d e code h' d' answer :
  sy_save_final e = WDone -> record_failure h d e code = (h', d', answer) ->
  sd_status d' = Some (hr_status h')
  /\ rp_last_session_id (hr_status h') = rp_last_session_id (hr_status h).
Proof. intros Hw. unfold record_failure. intros [= <- <- <-]. unfold save_status. by rewrite Hw. Qed.

Lemma send_next_turn h d e sessions s l1 l2 h' d' answer :
  quiet sessions e ->
  pending (hr_include_previews h) (sd_acks d) (hr_host_id h) e s ->
  rotate (scan_start (hr_status h) sessions) sessions = l1 ++ s :: l2 ->
  send_next sha256_hex h d e = (h', d', answer) ->
  sd_status d' = Some (hr_status h')
  /\ exists j t, (j <= length l1)%nat /\ (l1 ++ s :: l2) !! j = Some t
       /\ rp_last_session_id (hr_status h') = Some t.
Proof.
  intros (_ & Hlist & Hscan & Hattempt & Hack & Hfinal) Hp Hrot. unfold send_next.
  destruct (next_batch _ h d e) as [[h1 d1] b] eqn:En. unfold next_batch in En. rewrite Hlist in En.
  destruct sessions as [|x l].
  { unfold rotate in Hrot. rewrite drop_nil, take_nil in Hrot. by destruct l1. }
  change (scan_start (hr_status (set_status h (set_sessions_seen (hr_status h) (zlen (x :: l))))) (x :: l))
    with (scan_start (hr_status h) (x :: l)) in En.
  rewrite Hrot in En. apply scan_turn in En as (Hne & j & t & Hj & Ht & Hlast); [|done|exact Hp].
  assert (forall h2 d2, sd_status d2 = Some (hr_status h2) ->
    rp_last_session_id (hr_status h2) = rp_last_session_id (hr_status h1) ->
    sd_status d2 = Some (hr_status h2)
    /\ exists j t, (j <= length l1)%nat /\ (l1 ++ s :: l2) !! j = Some t
         /\ rp_last_session_id (hr_status h2) = Some t) as Hdone.
  { intros h2 d2 Hd2 Hl2. split; [done|]. exists j, t. by rewrite Hl2. }
  destruct b as [[batch|]|error]; [|done|].
  - destruct (sy_send e _) as [p|code].
    + unfold finish_batch. destruct (negb _).
      * intros Hf. apply record_failure_turn in Hf as [? Hl]; [|done]. by apply Hdone.
      * rewrite Hack. cbn [write_ok negb]. intros [= <- <- <-]. apply Hdone; [|done].
        unfold save_status. cbn. by rewrite Hfinal.
    + intros Hf. apply record_failure_turn in Hf as [? Hl]; [|done]. by apply Hdone.
  - intros Hf. apply record_failure_turn in Hf as [? Hl]; [|done]. by apply Hdone.
Qed.

(** Calls in a row, past their delays, none of which got to a session that all found
    pending. *)
Inductive passed_over (host : string) (sessions : list string) (s : string) : SyncDisk -> nat -> Prop :=
| passed_nil (d : SyncDisk) : passed_over host sessions s d 0
| passed_cons (d d' : SyncDisk) (h h' : HostReplicator) (e : SyncEnvironment)
    (answer : result SyncFailureCode SyncOutcome) (n : nat) :
    hr_host_id h = host -> replicator_ok h -> status_file_ok d -> quiet sessions e ->
    pending (hr_include_previews h) (sd_acks d) host e s ->
    sync_next h d e = (h', d', answer) -> (forall seconds, answer <> Ok (Backoff seconds)) ->
    rp_last_session_id (hr_status h') <> Some s ->
    passed_over host sessions s d' n -> passed_over host sessions s d (S n).

Lemma passed_over_step h d e sessions s l1 l2 h' d' answer :
  in_order sessions -> replicator_ok h -> status_file_ok d -> quiet sessions e ->
  pending (hr_include_previews h) (sd_acks d) (hr_host_id h) e s ->
  rotate (scan_start (hr_status (reload h d e)) sessions) sessions = l1 ++ s :: l2 ->
  sync_next h d e = (h', d', answer) -> (forall seconds, answer <> Ok (Backoff seconds)) ->
  rp_last_session_id (hr_status h') <> Some s ->
  sd_status d' = Some (hr_status h') /\ status_matches (hr_host_id h) (hr_status h') = true
  /\ exists l1' l2', rotate (scan_start (hr_status h') sessions) sessions = l1' ++ s :: l2'
       /\ (length l1' < length l1)%nat.
Proof.
  intros Ho Hok Hfile Hq Hp Hrot Hs Hb Hne.
  assert (send_next sha256_hex (reload h d e) d e = (h', d', answer)) as Hsend.
  { revert Hs. unfold Replicator.sync_next. rewrite (proj1 Hq).
    destruct (hr_retry_at _) as [retry_at|]; [|done].
    destruct (sy_instant e <? retry_at); [|done]. intros [= <- <- <-]. by edestruct Hb. }
  pose proof (send_next_ok _ _ _ _ _ _ _ (reload_ok h d e Hfile Hok) Hsend) as [[Hm _] Hhost].
  rewrite Hhost, reload_host in Hm.
  eapply send_next_turn in Hsend as (Hd & j & t & Hj & Ht & Hlast); [|done| |exact Hrot].
  2: { rewrite reload_host. replace (hr_include_previews (reload h d e)) with (hr_include_previews h);
         [exact Hp|]. unfold reload. by repeat case_match. }
  split; [done|]. split; [done|]. rewrite (next_rotation (hr_status (reload h d e)) _ sessions j t) by
    (done || by rewrite Hrot).
  rewrite Hrot. destruct (decide (j = length l1)) as [->|Hjl].
  { rewrite list_lookup_middle in Ht by done. injection Ht as <-. by destruct Hne. }
  exists (drop (S j) l1), (l2 ++ take (S j) l1). unfold rotate. rewrite drop_app_le, take_app_le by lia.
  rewrite <- app_assoc. split; [done|]. rewrite length_drop. lia.
Qed.

Lemma passed_over_bound host sessions s n d :
  in_order sessions -> passed_over host sessions s d n ->
  forall status l1 l2, sd_status d = Some status -> status_matches host status = true ->
  rotate (scan_start status sessions) sessions = l1 ++ s :: l2 -> (n <= length l1)%nat.
Proof.
  intros Ho Hrun. induction Hrun as [d|d d' h h' e answer n Hh Hok Hfile Hq Hp Hs Hb Hne Hrest IH];
    intros status l1 l2 Hd Hm Hrot; [lia|].
  assert (hr_status (reload h d e) = status) as Hr by (unfold reload; by rewrite Hd, Hh, Hm).
  rewrite <- Hh in Hp.
  destruct (passed_over_step h d e sessions s l1 l2 h' d' answer) as (Hd' & Hm' & l1' & l2' & Hrot' & Hlt);
    [done..|by rewrite Hr|done|done|done|].
  rewrite Hh in Hm'. assert (n <= length l1')%nat; [|lia]. by eapply IH.
Qed.

Lemma rotate_elem n (l : list string) s : s ∈ l -> s ∈ rotate n l.
Proof.
  intros Hs. unfold rotate. apply elem_of_app. rewrite <- (take_drop n l) in Hs.
  apply elem_of_app in Hs as [Hs|Hs]; auto.
Qed.

(** A session with something to send is served in turn: as many calls as there are sessions
    cannot all have passed over it, whichever processes of the host made them. *)
Theorem sessions_take_turns host sessions s n d :
  in_order sessions -> s ∈ sessions -> passed_over host sessions s d n -> (n < length sessions)%nat.
Proof.
  intros Ho Hin Hrun.
  assert (0 < length sessions)%nat as Hpos by (destruct sessions; [by apply elem_of_nil in Hin|cbn; lia]).
  destruct Hrun as [d|d d' h h' e answer n Hh Hok Hfile Hq Hp Hs Hb Hne Hrest]; [done|].
  assert (s ∈ rotate (scan_start (hr_status (reload h d e)) sessions) sessions) as Hin'
    by (by apply rotate_elem).
  apply list_elem_of_split in Hin' as (l1 & l2 & Hrot). rewrite <- Hh in Hp.
  destruct (passed_over_step h d e sessions s l1 l2 h' d' answer) as (Hd' & Hm' & l1' & l2' & Hrot' & Hlt);
    try done.
  rewrite Hh in Hm'. pose proof (passed_over_bound _ _ _ _ _ Ho Hrest _ _ _ Hd' Hm' Hrot').
  pose proof (rotate_length (scan_start (hr_status (reload h d e)) sessions) sessions) as Hlen.
  rewrite Hrot, length_app in Hlen. cbn in Hlen. lia.
Qed.
End Turns.

(** * A host with two sessions *)

Module ReplicatorWitness.
Import JsonModel JournalWitness.
#[local] Existing Instance table_codec.
#[local] Instance writer : SerdeJson := codec [].

Definition sha (_ : string) : string := "sha".

Definition journals : gmap string Disk :=
  {["s1"%string := disk1; "s2"%string := mkDisk None (Some (mkMeta 1 3 0 0 None))]}.

(** A gateway that stores the first record of the first session, and one that is away. *)
Definition gateway (q : SyncRequest) : result SyncFailureCode SyncResponse :=
  if String.eqb (sq_session_id q) "s1" && (0 <=? sq_source_base_revision q)
     && forallb (fun r => sr_source_revision r =? 1) (sq_records q)
  then Ok (mkSyncResponse "s1" 1 1 1 true)
  else Err RemoteRejected.

Definition env (send : SyncRequest -> result SyncFailureCode SyncResponse) : SyncEnvironment :=
  mkSyncEnvironment (Ok true) 100 0 0 (Ok ["s1"%string; "s2"%string]) journals (fun _ => true)
    (fun _ => WDone) WDone send WDone WDone.

Definition files0 : SyncDisk := mkSyncDisk None ∅.
Definition rep0 : HostReplicator := replicator_new "host" true files0 100 0.

Definition call (send : SyncRequest -> result SyncFailureCode SyncResponse) :
    HostReplicator * SyncDisk * result SyncFailureCode SyncOutcome :=
  sync_next sha rep0 files0 (env send).
Definition served := call gateway.
Definition refused := call (fun _ => Err Transport).

Lemma served_run : served = (served.1.1, served.1.2, Ok (Acked "s1" 1 1)).
Proof. vm_compute. reflexivity. Qed.

Lemma refused_run : refused = (refused.1.1, refused.1.2, Err Transport).
Proof. vm_compute. reflexivity. Qed.

Definition world0 : SyncWorld := mkSyncWorld files0 {[0 := rep0]} journals ∅.
Definition world1 : SyncWorld :=
  mkSyncWorld served.1.2 (<[0 := served.1.1]> {[0 := rep0]}) journals {[("s1"%string, 1)]}.

Lemma gateway_faithful q p : gateway q = Ok p -> faithful {[("s1"%string, 1)]} q p.
Proof.
  unfold gateway. destruct (_ && _) eqn:E; [|done]. intros [= <-].
  apply andb_true_iff in E as [[Hs%String.eqb_eq Hb%Z.leb_le]%andb_true_iff Hr].
  rewrite forallb_forall in Hr. unfold faithful. cbn. rewrite Hs. split.
  - intros r Hin%list_elem_of_In _. apply Hr, Z.eqb_eq in Hin. rewrite Hin. set_solver.
  - intros n Hn. assert (n = 1) as -> by lia. set_solver.
Qed.

Lemma no_records_ok meta :
  0 <= jm_base_revision (default meta_default meta) -> source_ok (mkDisk None meta).
Proof.
  intros Hb. split; [exact (proj1 (machine_start meta))|exact Hb|].
  intros r Hr. by apply elem_of_nil in Hr.
Qed.

Lemma world0_ok : sync_ok "host" world0.
Proof.
  assert (forall s, source_ok (journal_of world0 s)) as Hsrc.
  { intros s. unfold journal_of, world0, journals. cbn [sw_journals].
    destruct (decide (s = "s1"%string)) as [->|H1].
    { rewrite lookup_insert_eq. split; [exact disk1_wf|done|].
      intros r Hr. change (r ∈ records_of disk1) in Hr. rewrite records_disk1 in Hr. by apply list_elem_of_singleton in Hr as ->. }
    rewrite lookup_insert_ne by done. destruct (decide (s = "s2"%string)) as [->|H2].
    { rewrite lookup_singleton_eq. by apply no_records_ok. }
    rewrite lookup_singleton_ne by done. by apply no_records_ok. }
  split; [done| |].
  - intros k h Hk. cbn in Hk. apply lookup_singleton_Some in Hk as [_ <-]. done.
  - intros s. unfold cursor, load_ack. cbn [world0 sw_disk files0 sd_acks].
    rewrite lookup_empty. change (scan_after_revision (ack_fresh "host" s)) with 0.
    pose proof (head_base s _ (Hsrc s)) as Hb. pose proof (so_base _ (Hsrc s)). split; [lia|].
    intros r Hr Hle. pose proof (own_head s _ r (Hsrc s) Hr). lia.
Qed.

Lemma world_run : sync_run sha "host" world0 world1.
Proof.
  eapply sync_run_snoc; [apply sync_run_nil|].
  apply (sync_call sha "host" world0 0 rep0 served.1.1 (env gateway) served.1.2 (Ok (Acked "s1" 1 1)));
    [done|done|exact served_run|set_solver|exact gateway_faithful].
Qed.


Lemma previews_withheld_witness :
  cloud_observation sha (with_secrets first (CError "what was said") None None) false
  = cloud_observation sha (with_secrets first (CError "something els") None None) false.
Proof.
  exact (proj1 (previews_withheld sha (with_secrets first (CError "something els") None None)
           (CError "what was said") None None false) eq_refl).
Defined.

Lemma rep0_ok : replicator_ok rep0.
Proof. by apply replicator_new_ok. Qed.

Lemma failure_backs_off_witness : exists delay, delay_ok delay /\ replicator_ok refused.1.1.
Proof.
  destruct (failure_backs_off sha rep0 files0 (env (fun _ => Err Transport)) refused.1.1 refused.1.2
              Transport) as (delay & Hd & Hok & _); [done|exact rep0_ok|exact refused_run|done|].
  by exists delay.
Defined.

Lemma first_turn : passed_over sha "host" ["s1"; "s2"]%string "s2" files0 1.
Proof.
  eapply (passed_cons sha "host" ["s1"; "s2"]%string "s2" files0 served.1.2 rep0 served.1.1 (env gateway));
    [done|exact rep0_ok|done|by split_and!| |exact served_run|done| |apply passed_nil].
  - intros snapshot Hs. vm_compute in Hs. injection Hs as <-. vm_compute. discriminate.
  - vm_compute. discriminate.
Qed.

Lemma sessions_take_turns_witness : (1 < length ["s1"; "s2"]%string)%nat.
Proof.
  refine (sessions_take_turns sha "host" ["s1"; "s2"]%string "s2" 1 files0 _ _ first_turn).
  - intros [|[|i]] [|[|j]] a b Hij Ha Hb; try lia; try done. by injection Ha as <-; injection Hb as <-.
  - set_solver.
Defined.
End ReplicatorWitness.
