(* ===== verification/OAuth.v ===== *)
(** The local OAuth server: src/src/local_oauth.rs.

    The three maps behind the server's mutex are a [State]; an operation's
    critical section is a function from a state to a state.  The clock, the
    random tokens, the owner's answer, DNS and HTTP are arguments; each clock
    reading of a section is an argument of its own, in milliseconds.  The [url]
    crate is the class [UrlLib], SHA-256 with base64url the function
    [sha256_base64url], and the derived [Deserialize] of a client metadata
    document the function [metadata_from_slice]. *)

From stdpp Require Import pretty.
From S2P Require Import Prelude Strings Json.
#[local] Open Scope Z_scope.
#[local] Open Scope rust_scope.

Definition CODE_TTL : Z := 5 * 60 * 1000.
Definition TOKEN_TTL : Z := 15 * 60 * 1000.
Definition MAX_CLIENTS : Z := 256.
Definition MAX_CODES : Z := 256.
Definition MAX_TOKENS : Z := 1024.
Definition MAX_PENDING_AUTHORIZATIONS : Z := 64.
Definition MAX_CLIENT_METADATA_ADDRESSES : Z := 32.
Definition MAX_REDIRECT_URIS : Z := 16.
Definition MAX_URI_BYTES : Z := 2048.
Definition MAX_OAUTH_STATE_BYTES : Z := 4096.
Definition MAX_OAUTH_SCOPE_BYTES : Z := 256.
Definition MAX_OAUTH_TOKEN_VALUE_BYTES : Z := 256.
Definition MAX_OAUTH_FIXED_PARAMETER_BYTES : Z := 64.
Definition MAX_OAUTH_CLIENT_NAME_BYTES : Z := 1024.
Definition MAX_OAUTH_CAPABILITY_VALUES : Z := 8.
Definition MAX_CLIENT_METADATA_BYTES : Z := 128 * 1024.

(** * Data *)

Record ClientRegistration : Type := mkClient {
  cl_name : string;
  cl_redirect_uris : gset string;
  cl_last_used_at : Z;
}.

Record AuthorizationCode : Type := mkCode {
  ac_client_id : string;
  ac_redirect_uri : string;
  ac_code_challenge : string;
  ac_resource : string;
  ac_expires_at : Z;
}.

Record AccessToken : Type := mkToken {
  at_client_id : string;
  at_subject : string;
  at_resource : string;
  at_expires_at : Z;
}.

Record State : Type := mkState {
  st_clients : gmap string ClientRegistration;
  st_codes : gmap string AuthorizationCode;
  st_tokens : gmap string AccessToken;
}.

Definition state_default : State := mkState ∅ ∅ ∅.

Record OAuthError : Type := mkOAuthError {
  oe_status : Z;
  oe_code : string;
  oe_description : string;
}.

Definition bad_request (code description : string) : OAuthError :=
  mkOAuthError 400 code description.

Definition internal_error : OAuthError :=
  mkOAuthError 500 "server_error" "local OAuth operation failed".

Definition error_json (e : OAuthError) : Json :=
  JObj [("error", JStr (oe_code e)); ("error_description", JStr (oe_description e))]%string.

Record RegistrationRequest : Type := mkRegistration {
  rr_redirect_uris : list string;
  rr_client_name : option string;
  rr_application_type : option string;
  rr_grant_types : list string;
  rr_response_types : list string;
  rr_token_endpoint_auth_method : option string;
}.

Record AuthorizeRequest : Type := mkAuthorize {
  ar_response_type : string;
  ar_client_id : string;
  ar_redirect_uri : string;
  ar_code_challenge : string;
  ar_code_challenge_method : string;
  ar_resource : string;
  ar_state : option string;
  ar_scope : option string;
}.
#[global] Instance authorize_request_eq_dec : EqDecision AuthorizeRequest.
Proof. solve_decision. Defined.

Record TokenRequest : Type := mkTokenRequest {
  tr_grant_type : string;
  tr_code : string;
  tr_client_id : string;
  tr_redirect_uri : string;
  tr_code_verifier : string;
  tr_resource : string;
}.

Record ClientMetadataDocument : Type := mkMetadata {
  cm_client_id : string;
  cm_redirect_uris : list string;
  cm_client_name : option string;
  cm_grant_types : list string;
  cm_response_types : list string;
  cm_token_endpoint_auth_method : option string;
}.

(** [Identity] of src/src/provider.rs. *)
Record Identity : Type := mkIdentity {
  id_provider : string;
  id_subject : option string;
  id_display_principal : option string;
  id_email : option string;
}.

(** * The url crate *)

Class UrlLib := {
  Url : Type;
  url_parse : string -> option Url;
  url_scheme : Url -> string;
  url_username : Url -> string;
  url_password : Url -> option string;
  url_fragment : Url -> option string;
  url_host_str : Url -> option string;
  url_port_or_known_default : Url -> option Z;
  url_append_pairs : Url -> list (string * string) -> string;
}.

(** The documentation of [Url::host_str]: an IPv6 address is given between
    brackets; no other host holds a colon. *)
Class UrlLaws `{UrlLib} := {
  url_host_brackets : forall u h,
    url_host_str u = Some h -> str_contains 58 h = true -> starts_with "[" h = true;
}.

(** * Bounds of the requests *)

Definition show_size (n : Z) : string := pretty (Z.to_N n).

Definition validate_client_metadata_length (value : string) (max_bytes : Z) (name : string) :
    result OAuthError unit :=
  ensure (str_len value <=? max_bytes)
    (bad_request "invalid_client_metadata"
       (name +:+ " exceeds " +:+ show_size max_bytes +:+ " bytes")).

Definition validate_parameter_length (value : string) (max_bytes : Z) (name : string) :
    result OAuthError unit :=
  ensure (str_len value <=? max_bytes)
    (bad_request "invalid_request" (name +:+ " exceeds " +:+ show_size max_bytes +:+ " bytes")).

Definition on_some {A : Type} (o : option A) (f : A -> result OAuthError unit) :
    result OAuthError unit :=
  match o with
  | Some a => f a
  | None => Ok tt
  end.

Fixpoint for_each {A : Type} (f : A -> result OAuthError unit) (l : list A) :
    result OAuthError unit :=
  match l with
  | [] => Ok tt
  | a :: rest => f a ;! for_each f rest
  end.

Definition validate_registration_request_bounds (r : RegistrationRequest) :
    result OAuthError unit :=
  on_some (rr_client_name r) (fun name =>
    validate_client_metadata_length name MAX_OAUTH_CLIENT_NAME_BYTES "client_name") ;!
  for_each (fun '(name, value) =>
      on_some value (fun value =>
        validate_client_metadata_length value MAX_OAUTH_FIXED_PARAMETER_BYTES name))
    [("application_type", rr_application_type r);
     ("token_endpoint_auth_method", rr_token_endpoint_auth_method r)]%string ;!
  for_each (fun '(name, values) =>
      ensure (zlen values <=? MAX_OAUTH_CAPABILITY_VALUES)
        (bad_request "invalid_client_metadata" (name +:+ " contains too many values")) ;!
      for_each (fun value =>
        validate_client_metadata_length value MAX_OAUTH_FIXED_PARAMETER_BYTES name) values)
    [("grant_types", rr_grant_types r); ("response_types", rr_response_types r)]%string.

Definition validate_authorize_request_lengths (r : AuthorizeRequest) : result OAuthError unit :=
  validate_parameter_length (ar_response_type r) MAX_OAUTH_FIXED_PARAMETER_BYTES "response_type" ;!
  validate_parameter_length (ar_client_id r) MAX_URI_BYTES "client_id" ;!
  validate_parameter_length (ar_redirect_uri r) MAX_URI_BYTES "redirect_uri" ;!
  validate_parameter_length (ar_code_challenge r) MAX_OAUTH_TOKEN_VALUE_BYTES "code_challenge" ;!
  validate_parameter_length (ar_code_challenge_method r) MAX_OAUTH_FIXED_PARAMETER_BYTES
    "code_challenge_method" ;!
  validate_parameter_length (ar_resource r) MAX_URI_BYTES "resource" ;!
  on_some (ar_state r) (fun s => validate_parameter_length s MAX_OAUTH_STATE_BYTES "state") ;!
  on_some (ar_scope r) (fun s => validate_parameter_length s MAX_OAUTH_SCOPE_BYTES "scope").

Definition validate_token_request_lengths (r : TokenRequest) : result OAuthError unit :=
  validate_parameter_length (tr_grant_type r) MAX_OAUTH_FIXED_PARAMETER_BYTES "grant_type" ;!
  validate_parameter_length (tr_code r) MAX_OAUTH_TOKEN_VALUE_BYTES "code" ;!
  validate_parameter_length (tr_client_id r) MAX_URI_BYTES "client_id" ;!
  validate_parameter_length (tr_redirect_uri r) MAX_URI_BYTES "redirect_uri" ;!
  validate_parameter_length (tr_code_verifier r) MAX_OAUTH_TOKEN_VALUE_BYTES "code_verifier" ;!
  validate_parameter_length (tr_resource r) MAX_URI_BYTES "resource".

Definition validate_scope (scope : option string) : result OAuthError unit :=
  ensure (negb (is_some_and (fun s => existsb (fun v => negb (String.eqb v "mcp"))
                                        (split_ascii_whitespace s)) scope))
    (bad_request "invalid_scope" "only the mcp scope is supported").

Definition validate_code_challenge (value : string) : result OAuthError unit :=
  ensure ((str_len value =? 43)
          && forallb (fun b => is_ascii_alphanumeric b || (b =? 45) || (b =? 95)) (str_bytes value))
    (bad_request "invalid_request"
       "code_challenge must be an unpadded base64url SHA-256 value").

Definition validate_bearer_token (token : string) : result string unit :=
  ensure (negb (str_is_empty token)) "Bearer token is empty"%string ;!
  ensure (str_len token <=? MAX_OAUTH_TOKEN_VALUE_BYTES)
    ("Bearer token exceeds " +:+ show_size MAX_OAUTH_TOKEN_VALUE_BYTES +:+ " bytes").

(** [pkce_challenge]. *)
Definition verifier_valid (verifier : string) : bool :=
  in_range 43 128 (str_len verifier)
  && forallb (fun b => is_ascii_alphanumeric b || (b =? 45) || (b =? 46) || (b =? 95) || (b =? 126))
       (str_bytes verifier).

Definition pkce_challenge (sha256_base64url : string -> string) (verifier : string) :
    result OAuthError string :=
  ensure (verifier_valid verifier) (bad_request "invalid_grant" "code_verifier is invalid") ;!
  Ok (sha256_base64url verifier).

(** * Addresses *)

Inductive IpAddr : Type :=
| V4 (a b c d : Z)
| V6 (s0 s1 s2 s3 s4 s5 s6 s7 : Z).

Definition is_public_ipv4 (a b c : Z) : bool :=
  negb ((a =? 0) || (a =? 10) || (a =? 127) || (224 <=? a)
        || ((a =? 100) && in_range 64 127 b)
        || ((a =? 169) && (b =? 254))
        || ((a =? 172) && in_range 16 31 b)
        || ((a =? 192) && (b =? 168))
        || ((a =? 198) && ((b =? 18) || (b =? 19)))
        || ((a =? 192) && (b =? 0) && (c =? 0))
        || ((a =? 192) && (b =? 0) && (c =? 2))
        || ((a =? 192) && (b =? 88) && (c =? 99))
        || ((a =? 198) && (b =? 51) && (c =? 100))
        || ((a =? 203) && (b =? 0) && (c =? 113))).

(** The high and low octet of a segment: [(s >> 8) as u8], [s as u8]. *)
Definition octet_hi (s : Z) : Z := Z.land (Z.shiftr s 8) 255.
Definition octet_lo (s : Z) : Z := Z.land s 255.

(** [Ipv6Addr::to_ipv4]: an IPv4-compatible or IPv4-mapped address. *)
Definition has_ipv4 (s0 s1 s2 s3 s4 s5 : Z) : bool :=
  (s0 =? 0) && (s1 =? 0) && (s2 =? 0) && (s3 =? 0) && (s4 =? 0) && ((s5 =? 0) || (s5 =? 65535)).

Definition is_public_ipv6 (s0 s1 s2 s3 s4 s5 s6 s7 : Z) : bool :=
  if has_ipv4 s0 s1 s2 s3 s4 s5 then is_public_ipv4 (octet_hi s6) (octet_lo s6) (octet_hi s7)
  else if (s0 =? 100) && (s1 =? 65435) && forallb (Z.eqb 0) [s2; s3; s4; s5]
  then is_public_ipv4 (octet_hi s6) (octet_lo s6) (octet_hi s7)
  else
    let local_nat64 := (s0 =? 100) && (s1 =? 65435) && (s2 =? 1) in
    let discard_only := (s0 =? 256) && (s1 =? 0) && (s2 =? 0) && ((s3 =? 0) || (s3 =? 1)) in
    let ietf_protocol_space := (s0 =? 8193) && (Z.land s1 65024 =? 0) in
    let six_to_four := s0 =? 8194 in
    let documentation_3fff := (s0 =? 16383) && (Z.land s1 61440 =? 0) in
    let srv6_sid := s0 =? 24320 in
    let is_unspecified := forallb (Z.eqb 0) [s0; s1; s2; s3; s4; s5; s6; s7] in
    let is_loopback := forallb (Z.eqb 0) [s0; s1; s2; s3; s4; s5; s6] && (s7 =? 1) in
    negb (is_unspecified || is_loopback
          || (Z.land s0 65280 =? 65280) || (Z.land s0 65024 =? 64512)
          || (Z.land s0 65472 =? 65152) || (Z.land s0 65472 =? 65216)
          || local_nat64 || discard_only || ietf_protocol_space || six_to_four
          || ((s0 =? 8193) && (s1 =? 3512)) || documentation_3fff || srv6_sid).

Definition is_public_ip (ip : IpAddr) : bool :=
  match ip with
  | V4 a b c _ => is_public_ipv4 a b c
  | V6 s0 s1 s2 s3 s4 s5 s6 s7 => is_public_ipv6 s0 s1 s2 s3 s4 s5 s6 s7
  end.

(** [str::parse::<IpAddr>().is_ok()]. *)
Definition decimal_value (s : string) : Z :=
  fold_left (fun n b => n * 10 + (b - 48)) (str_bytes s) 0.

Definition is_octet (s : string) : bool :=
  in_range 1 3 (str_len s) && forallb is_ascii_digit (str_bytes s)
  && ((str_len s =? 1) || negb (starts_with "0" s)) && (decimal_value s <=? 255).

Definition is_ipv4_text (s : string) : bool :=
  let parts := split_on "." s in (length parts =? 4)%nat && forallb is_octet parts.

Definition is_h16 (s : string) : bool :=
  in_range 1 4 (str_len s)
  && forallb (fun b => is_ascii_digit b || in_range 65 70 b || in_range 97 102 b) (str_bytes s).

(** The number of segments that groups stand for; a last group may be IPv4. *)
Fixpoint count_groups (v4 : bool) (l : list string) : option Z :=
  match l with
  | [] => Some 0
  | [s] => if is_h16 s then Some 1 else if v4 && is_ipv4_text s then Some 2 else None
  | s :: rest => if is_h16 s then n ← count_groups v4 rest; Some (n + 1) else None
  end.

Definition side_groups (v4 : bool) (s : string) : option Z :=
  if str_is_empty s then Some 0 else count_groups v4 (split_on ":" s).

Definition is_ipv6_text (s : string) : bool :=
  match split_once_str "::" s with
  | Some (head, tail) =>
      match side_groups false head, side_groups true tail with
      | Some m, Some n => m + n <=? 7
      | _, _ => false
      end
  | None => bool_decide (side_groups true s = Some 8)
  end.

Definition is_ip_text (s : string) : bool := is_ipv4_text s || is_ipv6_text s.

(** * Redirects *)

Section Redirects.
Context `{UrlLib}.

Definition loopback_host (host : string) : bool :=
  eq_ignore_ascii_case host "localhost" || String.eqb host "127.0.0.1" || String.eqb host "::1".

Definition validate_redirect_uri (value : string) : result OAuthError unit :=
  ensure (str_len value <=? MAX_URI_BYTES)
    (bad_request "invalid_client_metadata" "redirect URI is too long") ;!
  let! parsed := ok_or (url_parse value)
    (bad_request "invalid_client_metadata" "redirect URI is invalid") in
  ensure (negb (is_some (url_fragment parsed) || negb (str_is_empty (url_username parsed))
                || is_some (url_password parsed)))
    (bad_request "invalid_client_metadata"
       "redirect URI must not contain credentials or a fragment") ;!
  let secure := String.eqb (url_scheme parsed) "https" in
  let loopback_http :=
    String.eqb (url_scheme parsed) "http" && is_some_and loopback_host (url_host_str parsed) in
  ensure (secure || loopback_http)
    (bad_request "invalid_client_metadata"
       "redirect URI must use HTTPS, except HTTP loopback redirects").

Definition redirect_with_params (redirect_uri : string) (params : list (string * option string)) :
    result OAuthError string :=
  let! url := ok_or (url_parse redirect_uri)
    (bad_request "invalid_request" "redirect URI is invalid") in
  Ok (url_append_pairs url (omap (fun p => (fun v => (p.1, v)) <$> p.2) params)).

Definition redirect_success (redirect_uri code : string) (state : option string) (issuer : string) :
    result OAuthError string :=
  redirect_with_params redirect_uri
    [("code", Some code); ("state", state); ("iss", Some issuer)]%string.

Definition redirect_error (redirect_uri error : string) (state : option string) (issuer : string) :
    result OAuthError string :=
  redirect_with_params redirect_uri
    [("error", Some error); ("state", state); ("iss", Some issuer)]%string.
End Redirects.

(** * The critical sections *)

Definition cleanup_at (s : State) (now : Z) : State :=
  mkState (st_clients s)
    (filter (fun kv => now < ac_expires_at kv.2) (st_codes s))
    (filter (fun kv => now < at_expires_at kv.2) (st_tokens s)).

(** No code and no token of the client. *)
Definition inactive (s : State) (client_id : string) : bool :=
  negb (existsb (fun kv => String.eqb (ac_client_id kv.2) client_id) (map_to_list (st_codes s)))
  && negb (existsb (fun kv => String.eqb (at_client_id kv.2) client_id) (map_to_list (st_tokens s))).

(** [left.last_used_at.cmp(&right.last_used_at).then_with(|| left_id.cmp(right_id))]
    is not [Greater]. *)
Definition client_leb (left right : string * ClientRegistration) : bool :=
  match Z.compare (cl_last_used_at left.2) (cl_last_used_at right.2) with
  | Lt => true
  | Gt => false
  | Eq => String.leb left.1 right.1
  end.

(** [Iterator::min_by]. *)
Fixpoint min_client (l : list (string * ClientRegistration)) :
    option (string * ClientRegistration) :=
  match l with
  | [] => None
  | c :: rest =>
      match min_client rest with
      | None => Some c
      | Some d => if client_leb c d then Some c else Some d
      end
  end.

Definition eviction_candidate (s : State) : option string :=
  fst <$> min_client (List.filter (fun c => inactive s c.1) (map_to_list (st_clients s))).

(** The [while] loop; each round removes a client, so the number of clients is
    fuel enough. *)
Fixpoint evict_clients (fuel : nat) (s : State) (max_clients : Z) : State * bool :=
  if Z.of_nat (size (st_clients s)) <? max_clients then (s, true)
  else match fuel with
  | O => (s, false)
  | S fuel =>
      match eviction_candidate s with
      | None => (s, false)
      | Some client_id =>
          evict_clients fuel (mkState (delete client_id (st_clients s)) (st_codes s) (st_tokens s))
            max_clients
      end
  end.

Definition make_client_capacity_available (s : State) (max_clients : Z) : State * bool :=
  if max_clients =? 0 then (s, false)
  else evict_clients (size (st_clients s)) s max_clients.

Definition insert_client_registration (s : State) (client_id : string)
    (registration : ClientRegistration) (max_clients : Z) : State * result OAuthError unit :=
  if bool_decide (is_Some (st_clients s !! client_id)) then (s, Err internal_error)
  else match make_client_capacity_available s max_clients with
  | (s, false) =>
      (s, Err (bad_request "temporarily_unavailable"
                 "local OAuth client registry is full of active registrations"))
  | (s, true) =>
      (mkState (<[client_id := registration]> (st_clients s)) (st_codes s) (st_tokens s), Ok tt)
  end.

Definition insert_authorization_code (s : State) (code : string) (authorization : AuthorizationCode)
    (max_codes : Z) : State * result OAuthError unit :=
  if bool_decide (is_Some (st_codes s !! code)) then (s, Err internal_error)
  else if max_codes <=? Z.of_nat (size (st_codes s)) then
    (s, Err (bad_request "temporarily_unavailable" "too many pending authorization codes"))
  else (mkState (st_clients s) (<[code := authorization]> (st_codes s)) (st_tokens s), Ok tt).

Definition binding_valid (code : AuthorizationCode) (request : TokenRequest) (challenge : string)
    (now : Z) : bool :=
  (now <? ac_expires_at code)
  && String.eqb (ac_client_id code) (tr_client_id request)
  && String.eqb (ac_redirect_uri code) (tr_redirect_uri request)
  && String.eqb (ac_resource code) (tr_resource request)
  && String.eqb (ac_code_challenge code) challenge.

Definition redeem_authorization_code (s : State) (request : TokenRequest)
    (challenge token : string) (now token_limit : Z) : State * result OAuthError unit :=
  let s := cleanup_at s now in
  if token_limit <=? Z.of_nat (size (st_tokens s)) then
    (s, Err (bad_request "temporarily_unavailable" "too many active local OAuth tokens"))
  else match st_codes s !! tr_code request with
  | None =>
      (s, Err (bad_request "invalid_grant"
                 "authorization code is invalid, expired, or already used"))
  | Some code =>
      if negb (binding_valid code request challenge now) then
        (mkState (st_clients s) (delete (tr_code request) (st_codes s)) (st_tokens s),
         Err (bad_request "invalid_grant" "authorization code binding or PKCE verification failed"))
      else if bool_decide (is_Some (st_tokens s !! token)) then (s, Err internal_error)
      else
        (mkState (st_clients s) (delete (tr_code request) (st_codes s))
           (<[token := mkToken (tr_client_id request) "local-owner" (tr_resource request)
                         (now + TOKEN_TTL)]> (st_tokens s)),
         Ok tt)
  end.

(** * Client metadata documents *)

(** What the network does during a fetch: DNS ([None] when it times out), the
    HTTP client, the answer and the chunks of its body, the last of which may be
    an error. *)
Record HttpResponse : Type := mkResponse {
  hr_status : Z;
  hr_status_text : string;
  hr_content_length : option Z;
  hr_chunks : list (result string string);
}.

Record FetchEnv : Type := mkFetch {
  fe_slot : bool;
  fe_dns : option (result string (list IpAddr));
  fe_client : result string unit;
  fe_response : result string HttpResponse;
}.

Definition unauthorized (description : string) : OAuthError :=
  bad_request "unauthorized_client" description.

Definition client_metadata_too_large : OAuthError :=
  unauthorized "client metadata document is too large".

Definition append_bounded_metadata_chunk (body chunk : string) (max_bytes : Z) :
    result OAuthError string :=
  ensure (saturating_add (str_len body) (str_len chunk) <=? max_bytes) client_metadata_too_large ;!
  Ok (body +:+ chunk).

Fixpoint read_chunks (body : string) (chunks : list (result string string)) :
    result OAuthError string :=
  match chunks with
  | [] => Ok body
  | Err error :: _ => Err (unauthorized ("cannot read client metadata document: " +:+ error))
  | Ok chunk :: rest =>
      let! body := append_bounded_metadata_chunk body chunk MAX_CLIENT_METADATA_BYTES in
      read_chunks body rest
  end.

Definition read_client_metadata_body (response : HttpResponse) : result OAuthError string :=
  ensure (negb (is_some_and (fun n => MAX_CLIENT_METADATA_BYTES <? n) (hr_content_length response)))
    client_metadata_too_large ;!
  read_chunks EmptyString (hr_chunks response).

Section Server.
Context `{UrlLib} (sha256_base64url : string -> string)
  (metadata_from_slice : string -> result string ClientMetadataDocument)
  (debug_str : string -> string) (public_url : string).

(** [with_limits]: the resource the server protects. *)
Definition server_resource : string := public_url +:+ "/mcp".

Definition protected_resource_metadata : Json :=
  JObj [("resource", JStr server_resource);
        ("authorization_servers", JArr [JStr public_url]);
        ("bearer_methods_supported", JArr [JStr "header"]);
        ("scopes_supported", JArr [JStr "mcp"])]%string.

Definition authorization_server_metadata : Json :=
  JObj [("issuer", JStr public_url);
        ("authorization_endpoint", JStr (public_url +:+ "/authorize"));
        ("token_endpoint", JStr (public_url +:+ "/token"));
        ("registration_endpoint", JStr (public_url +:+ "/register"));
        ("response_types_supported", JArr [JStr "code"]);
        ("grant_types_supported", JArr [JStr "authorization_code"]);
        ("code_challenge_methods_supported", JArr [JStr "S256"]);
        ("token_endpoint_auth_methods_supported", JArr [JStr "none"]);
        ("scopes_supported", JArr [JStr "mcp"]);
        ("client_id_metadata_document_supported", JBool true)]%string.

Definition resource_metadata_url : string :=
  public_url +:+ "/.well-known/oauth-protected-resource".

Definition validate_resource (resource : string) : result OAuthError unit :=
  ensure (String.eqb resource server_resource)
    (bad_request "invalid_target" "resource must exactly match this MCP endpoint").

(** [name] cut to 200 characters. *)
Definition registration_name (client_name : option string) : string :=
  let name := take_chars 200 (trim (default "MCP client"%string client_name)) in
  if str_is_empty name then "MCP client"%string else name.

Definition registration_checks (request : RegistrationRequest) : result OAuthError unit :=
  validate_registration_request_bounds request ;!
  ensure (negb (zlen (rr_redirect_uris request) =? 0)
          && (zlen (rr_redirect_uris request) <=? MAX_REDIRECT_URIS))
    (bad_request "invalid_client_metadata"
       ("redirect_uris must contain 1..=" +:+ show_size MAX_REDIRECT_URIS +:+ " entries")) ;!
  ensure (negb (is_some_and (fun v => negb (String.eqb v "native") && negb (String.eqb v "web"))
                  (rr_application_type request)))
    (bad_request "invalid_client_metadata" "application_type must be native or web") ;!
  ensure (negb (is_some_and (fun v => negb (String.eqb v "none"))
                  (rr_token_endpoint_auth_method request)))
    (bad_request "invalid_client_metadata"
       "only public clients with token_endpoint_auth_method=none are supported") ;!
  ensure (negb (existsb (fun v => negb (String.eqb v "authorization_code"))
                  (rr_grant_types request)))
    (bad_request "invalid_client_metadata" "only authorization_code is supported") ;!
  ensure (negb (existsb (fun v => negb (String.eqb v "code")) (rr_response_types request)))
    (bad_request "invalid_client_metadata" "only response_type=code is supported") ;!
  for_each validate_redirect_uri (rr_redirect_uris request).

Definition register (s : State) (now now' : Z) (random : result string string)
    (request : RegistrationRequest) : State * result OAuthError Json :=
  match
    registration_checks request ;!
    map_err (fun _ => internal_error) random
  with
  | Err e => (s, Err e)
  | Ok token =>
      let redirect_uris : gset string := list_to_set (rr_redirect_uris request) in
      let name := registration_name (rr_client_name request) in
      let client_id := "temote-" +:+ token in
      match insert_client_registration (cleanup_at s now) client_id
              (mkClient name redirect_uris now') MAX_CLIENTS with
      | (s, Err e) => (s, Err e)
      | (s, Ok _) =>
          (s, Ok (JObj
            [("client_id", JStr client_id);
             ("client_name", JStr name);
             ("redirect_uris", JArr (map JStr (elements redirect_uris)));
             ("application_type",
              JStr (default "native"%string (rr_application_type request)));
             ("grant_types", JArr [JStr "authorization_code"]);
             ("response_types", JArr [JStr "code"]);
             ("token_endpoint_auth_method", JStr "none")]%string))
      end
  end.

(** The checks of a metadata document's URL: its host. *)
Definition metadata_host (client_id : string) : result OAuthError string :=
  let! url := ok_or (url_parse client_id)
    (unauthorized "client_id is neither a registered client nor a valid HTTPS metadata document URL") in
  ensure (String.eqb (url_scheme url) "https" && str_is_empty (url_username url)
          && is_none (url_password url) && is_none (url_fragment url)
          && bool_decide (url_port_or_known_default url = Some 443))
    (unauthorized "client metadata document client_id must be an HTTPS URL on port 443 without credentials or fragment") ;!
  let! host := ok_or (url_host_str url) (unauthorized "client metadata URL has no host") in
  ensure (negb (is_ip_text host || eq_ignore_ascii_case host "localhost"))
    (unauthorized "client metadata document host must be a public DNS name") ;!
  Ok host.

(** The addresses of the host; the first one is pinned. *)
Definition metadata_addresses (dns : option (result string (list IpAddr))) :
    result OAuthError (list IpAddr) :=
  let! resolved := ok_or dns (unauthorized "timed out resolving client metadata host") in
  let! resolved :=
    map_err (fun e => unauthorized ("cannot resolve client metadata host: " +:+ e)) resolved in
  let addresses := ztake (MAX_CLIENT_METADATA_ADDRESSES + 1) resolved in
  ensure (zlen addresses <=? MAX_CLIENT_METADATA_ADDRESSES)
    (unauthorized "client metadata host resolves to too many addresses") ;!
  ensure (negb ((zlen addresses =? 0) || existsb (fun a => negb (is_public_ip a)) addresses))
    (unauthorized "client metadata host resolves to a non-public address") ;!
  Ok addresses.

Definition metadata_client (client_id redirect_uri : string) (now : Z)
    (metadata : ClientMetadataDocument) : result OAuthError ClientRegistration :=
  ensure (String.eqb (cm_client_id metadata) client_id)
    (unauthorized "client metadata document client_id does not exactly match its URL") ;!
  ensure (negb (zlen (cm_redirect_uris metadata) =? 0)
          && (zlen (cm_redirect_uris metadata) <=? MAX_REDIRECT_URIS))
    (unauthorized ("client metadata redirect_uris must contain 1..=" +:+ show_size MAX_REDIRECT_URIS
                     +:+ " entries")) ;!
  ensure (negb (is_some_and (fun v => negb (String.eqb v "none"))
                  (cm_token_endpoint_auth_method metadata)
                || existsb (fun v => negb (String.eqb v "authorization_code"))
                     (cm_grant_types metadata)
                || existsb (fun v => negb (String.eqb v "code")) (cm_response_types metadata)))
    (unauthorized "client metadata requests unsupported OAuth capabilities") ;!
  map_err (fun e => mkOAuthError (oe_status e) "unauthorized_client" (oe_description e))
    (for_each validate_redirect_uri (cm_redirect_uris metadata)) ;!
  let redirect_uris : gset string := list_to_set (cm_redirect_uris metadata) in
  ensure (bool_decide (redirect_uri ∈ redirect_uris))
    (bad_request "invalid_request"
       "redirect_uri does not exactly match the client metadata document") ;!
  Ok (mkClient (take_chars 200 (default client_id (cm_client_name metadata))) redirect_uris now).

Definition fetch_client_metadata (env : FetchEnv) (now : Z) (client_id redirect_uri : string) :
    result OAuthError ClientRegistration :=
  let! _ := metadata_host client_id in
  ensure (fe_slot env)
    (bad_request "temporarily_unavailable" "too many client metadata fetches are in progress") ;!
  let! _ := metadata_addresses (fe_dns env) in
  map_err (fun e => unauthorized ("cannot create client metadata fetcher: " +:+ e)) (fe_client env) ;!
  let! response :=
    map_err (fun e => unauthorized ("cannot fetch client metadata document: " +:+ e))
      (fe_response env) in
  ensure (in_range 200 299 (hr_status response))
    (unauthorized ("client metadata document returned HTTP " +:+ hr_status_text response)) ;!
  let! bytes := read_client_metadata_body response in
  let! metadata :=
    map_err (fun e => unauthorized ("client metadata document is invalid JSON: " +:+ e))
      (metadata_from_slice bytes) in
  metadata_client client_id redirect_uri now metadata.

Definition resolve_client (s : State) (env : FetchEnv) (now now' : Z)
    (client_id redirect_uri : string) : State * result OAuthError ClientRegistration :=
  let s := cleanup_at s now in
  match st_clients s !! client_id with
  | Some client =>
      let client := mkClient (cl_name client) (cl_redirect_uris client) now' in
      (mkState (<[client_id := client]> (st_clients s)) (st_codes s) (st_tokens s), Ok client)
  | None => (s, fetch_client_metadata env now' client_id redirect_uri)
  end.

(** [authorize] up to the owner's approval: the prompt, when it is asked for.
    [permits] is how many approval permits are free. *)
Definition authorize_checks (request : AuthorizeRequest) : result OAuthError unit :=
  validate_authorize_request_lengths request ;!
  ensure (String.eqb (ar_response_type request) "code")
    (bad_request "unsupported_response_type" "only response_type=code is supported") ;!
  ensure (String.eqb (ar_code_challenge_method request) "S256")
    (bad_request "invalid_request" "PKCE S256 is mandatory") ;!
  validate_code_challenge (ar_code_challenge request) ;!
  validate_resource (ar_resource request) ;!
  validate_scope (ar_scope request).

Definition authorize_detail (client : ClientRegistration) (request : AuthorizeRequest) : string :=
  "Authorize OAuth client " +:+ debug_str (cl_name client)
  +:+ String newline ("client_id: " +:+ ar_client_id request)
  +:+ String newline ("redirect: " +:+ ar_redirect_uri request)
  +:+ String newline ("resource: " +:+ ar_resource request)
  +:+ String newline "scope: mcp".

Definition authorize_begin (s : State) (permits : Z) (env : FetchEnv) (now now' : Z)
    (request : AuthorizeRequest) : State * result OAuthError string :=
  match authorize_checks request with
  | Err e => (s, Err e)
  | Ok _ =>
      let '(s, client) :=
        resolve_client s env now now' (ar_client_id request) (ar_redirect_uri request) in
      (s, let! client := client in
          ensure (bool_decide (ar_redirect_uri request ∈ cl_redirect_uris client))
            (bad_request "invalid_request"
               "redirect_uri does not exactly match the registered URI") ;!
          ensure (0 <? permits)
            (bad_request "temporarily_unavailable"
               "too many OAuth authorization requests are waiting for local approval") ;!
          Ok (authorize_detail client request))
  end.

(** The rest, once the owner answered: the redirect, and the code it carries
    when one was issued. *)
Definition authorize_end (s : State) (allowed : result string bool) (random : result string string)
    (now now' : Z) (request : AuthorizeRequest) : State * result OAuthError string * option string :=
  match map_err (fun _ => internal_error) allowed with
  | Err e => (s, Err e, None)
  | Ok false =>
      (s, redirect_error (ar_redirect_uri request) "access_denied" (ar_state request) public_url,
       None)
  | Ok true =>
      match map_err (fun _ => internal_error) random with
      | Err e => (s, Err e, None)
      | Ok code =>
          match insert_authorization_code (cleanup_at s now) code
                  (mkCode (ar_client_id request) (ar_redirect_uri request)
                     (ar_code_challenge request) (ar_resource request) (now' + CODE_TTL))
                  MAX_CODES with
          | (s, Err e) => (s, Err e, None)
          | (s, Ok _) =>
              (s, redirect_success (ar_redirect_uri request) code (ar_state request) public_url,
               Some code)
          end
      end
  end.

Definition token_checks (request : TokenRequest) : result OAuthError string :=
  validate_token_request_lengths request ;!
  ensure (String.eqb (tr_grant_type request) "authorization_code")
    (bad_request "unsupported_grant_type" "only authorization_code is supported") ;!
  validate_resource (tr_resource request) ;!
  pkce_challenge sha256_base64url (tr_code_verifier request).

Definition token_json (token : string) : Json :=
  JObj [("access_token", JStr token); ("token_type", JStr "Bearer");
        ("expires_in", JInt (TOKEN_TTL / 1000)); ("scope", JStr "mcp")]%string.

Definition token (s : State) (random : result string string) (now : Z) (request : TokenRequest) :
    State * result OAuthError Json :=
  match
    let! challenge := token_checks request in
    let! token := map_err (fun _ => internal_error) random in
    Ok (challenge, token)
  with
  | Err e => (s, Err e)
  | Ok (challenge, token) =>
      match redeem_authorization_code s request challenge token now MAX_TOKENS with
      | (s, Err e) => (s, Err e)
      | (s, Ok _) => (s, Ok (token_json token))
      end
  end.

(** The token of an [Authorization] header, as [to_str] gives it. *)
Definition bearer_token (header : option string) : result string string :=
  let! value := ok_or header "missing Authorization header"%string in
  let! (scheme, token) := ok_or (split_once " " value) "invalid Authorization header"%string in
  ensure (eq_ignore_ascii_case scheme "Bearer") "Authorization scheme must be Bearer"%string ;!
  validate_bearer_token (trim token) ;!
  Ok (trim token).

Definition authenticate (s : State) (header : option string) (now now' : Z) :
    State * result string Identity :=
  match bearer_token header with
  | Err e => (s, Err e)
  | Ok token =>
      let s := cleanup_at s now in
      (s, let! access := ok_or (st_tokens s !! token) "Bearer token is invalid or expired"%string in
          ensure (now' <? at_expires_at access) "Bearer token is expired"%string ;!
          ensure (String.eqb (at_resource access) server_resource)
            "Bearer token resource is invalid"%string ;!
          Ok (mkIdentity "local-oauth" (Some (at_subject access))
                (Some ("local owner via " +:+ at_client_id access)) None))
  end.
End Server.
