(* ===== verification/OAuthTheorems.v ===== *)
(** Theorems about OAuth.v: every token traces back to the owner's approval and
    every approval gives one token at most, the registries are bounded and
    eviction spares active clients, embedded addresses, redirects. *)

From S2P Require Import Prelude Strings Utf8 Json OAuth.

(** * Eviction *)

Lemma client_leb_trans (a b c : string * ClientRegistration) :
  client_leb a b = true -> client_leb b c = true -> client_leb a c = true.
Proof.
  unfold client_leb.
  destruct (Z.compare_spec (cl_last_used_at a.2) (cl_last_used_at b.2)) as [H1|H1|H1]; [| |done];
    (destruct (Z.compare_spec (cl_last_used_at b.2) (cl_last_used_at c.2)) as [H2|H2|H2]; [| |done]);
    (destruct (Z.compare_spec (cl_last_used_at a.2) (cl_last_used_at c.2)); [|done|]; try lia).
  - intros Hab Hbc. apply Is_true_true. apply Is_true_true in Hab, Hbc.
    exact (transitivity (R := String.le) Hab Hbc).
Qed.

Lemma client_leb_total (a b : string * ClientRegistration) :
  client_leb a b = false -> client_leb b a = true.
Proof.
  unfold client_leb. rewrite (Z.compare_antisym (cl_last_used_at b.2)).
  destruct (Z.compare (cl_last_used_at b.2) (cl_last_used_at a.2)); simpl; [|done|done].
  destruct (String.leb_total a.1 b.1) as [->| ->]; done.
Qed.

Lemma client_leb_refl (a : string * ClientRegistration) : client_leb a a = true.
Proof. destruct (client_leb a a) eqn:H; [done|]. by rewrite (client_leb_total _ _ H) in H. Qed.

Lemma min_client_Some (l : list (string * ClientRegistration)) (c : string * ClientRegistration) :
  min_client l = Some c -> c ∈ l /\ forall d, d ∈ l -> client_leb c d = true.
Proof.
  revert c. induction l as [|x l IH]; intros c; simpl; [done|].
  destruct (min_client l) as [d|] eqn:Hd.
  - destruct (IH d eq_refl) as [Hin Hle]. destruct (client_leb x d) eqn:Hx; intros [= <-].
    + split; [left|]. intros e [->|He]%elem_of_cons; [apply client_leb_refl|].
      eapply client_leb_trans; [exact Hx|by apply Hle].
    + split; [by right|]. intros e [->|He]%elem_of_cons; [by apply client_leb_total|by apply Hle].
  - intros [= <-]. split; [left|]. destruct l as [|y l].
    + intros e ->%list_elem_of_singleton. apply client_leb_refl.
    + simpl in Hd. destruct (min_client l); [by destruct (client_leb y _)|done].
Qed.

Lemma min_client_None (l : list (string * ClientRegistration)) : min_client l = None -> l = [].
Proof.
  destruct l as [|x l]; [done|]. simpl. destruct (min_client l); [by destruct (client_leb x _)|done].
Qed.

Lemma inactive_spec (s : State) (id : string) :
  inactive s id = true <->
  (forall c a, st_codes s !! c = Some a -> ac_client_id a <> id)
  /\ (forall t k, st_tokens s !! t = Some k -> at_client_id k <> id).
Proof.
  unfold inactive. rewrite andb_true_iff, !negb_true_iff, <- !not_true_iff_false, !existsb_exists.
  split.
  - intros [Hc Ht]. split.
    + intros c a Ha <-. apply Hc. exists (c, a). split; [|apply String.eqb_refl].
      by apply list_elem_of_In, elem_of_map_to_list.
    + intros t k Hk <-. apply Ht. exists (t, k). split; [|apply String.eqb_refl].
      by apply list_elem_of_In, elem_of_map_to_list.
  - intros [Hc Ht]. split.
    + intros ([c a] & Ha%list_elem_of_In%elem_of_map_to_list & He%String.eqb_eq). by eapply Hc.
    + intros ([t k] & Hk%list_elem_of_In%elem_of_map_to_list & He%String.eqb_eq). by eapply Ht.
Qed.

Lemma candidate_Some (s : State) (id : string) :
  eviction_candidate s = Some id ->
  exists reg, st_clients s !! id = Some reg /\ inactive s id = true
  /\ forall id' reg', st_clients s !! id' = Some reg' -> inactive s id' = true ->
     client_leb (id, reg) (id', reg') = true.
Proof.
  unfold eviction_candidate. destruct (min_client _) as [[id0 reg]|] eqn:Hm; [|done]. intros [= <-].
  apply min_client_Some in Hm as [Hin Hle]. apply list_elem_of_In, filter_In in Hin as [Hin Hi].
  exists reg. split; [by apply elem_of_map_to_list, list_elem_of_In|]. split; [done|].
  intros id' reg' Hr Hi'. apply Hle, list_elem_of_In, filter_In. split; [|done].
  by apply list_elem_of_In, elem_of_map_to_list.
Qed.

Lemma candidate_None (s : State) (id : string) :
  eviction_candidate s = None -> is_Some (st_clients s !! id) -> inactive s id = false.
Proof.
  unfold eviction_candidate. destruct (min_client _) eqn:Hm; [done|]. intros _ [reg Hr].
  apply min_client_None in Hm. destruct (inactive s id) eqn:Hi; [|done]. exfalso.
  assert (H : (id, reg) ∈ @nil (string * ClientRegistration)).
  { rewrite <- Hm. apply list_elem_of_In, filter_In. split; [|done].
    by apply list_elem_of_In, elem_of_map_to_list. }
  by apply elem_of_nil in H.
Qed.

(** The clients an eviction spares: an active one always, and an idle one as
    long as one at least as old is left to evict. *)
Lemma evict_clients_spec (fuel : nat) (s s' : State) (max : Z) (ok : bool) :
  (size (st_clients s) <= fuel)%nat -> 0 < max -> evict_clients fuel s max = (s', ok) ->
  st_codes s' = st_codes s /\ st_tokens s' = st_tokens s
  /\ (forall id reg, st_clients s' !! id = Some reg -> st_clients s !! id = Some reg)
  /\ (forall id reg, st_clients s !! id = Some reg -> st_clients s' !! id = None ->
        inactive s id = true
        /\ forall id' reg', st_clients s' !! id' = Some reg' -> inactive s id' = true ->
           client_leb (id, reg) (id', reg') = true)
  /\ (Z.of_nat (size (st_clients s)) < max -> s' = s)
  /\ (if ok then Z.of_nat (size (st_clients s')) < max
      else max <= Z.of_nat (size (st_clients s'))
           /\ forall id, is_Some (st_clients s' !! id) -> inactive s id = false).
Proof.
  intros Hf Hmax. revert s Hf. induction fuel as [|fuel IH]; intros s Hf; simpl.
  - destruct (Z.ltb_spec (Z.of_nat (size (st_clients s))) max); [|lia]. intros [= <- <-].
    split_and!; [done..| |done|done]. congruence.
  - destruct (Z.ltb_spec (Z.of_nat (size (st_clients s))) max) as [Hlt|Hge].
    { intros [= <- <-]. split_and!; [done..| |done|done]. congruence. }
    destruct (eviction_candidate s) as [id|] eqn:Hc.
    + apply candidate_Some in Hc as (reg & Hr & Hi & Hle). set (s1 := mkState _ _ _).
      assert (Hsz : size (st_clients s1) = pred (size (st_clients s)))
        by (apply map_size_delete_Some; by eexists).
      intros He. destruct (IH s1) as (-> & -> & Hsub & Hgone & Hsame & Hok); [lia|done|].
      assert (Hin : forall x, inactive s1 x = inactive s x) by done.
      split_and!; [done|done| | |lia|done].
      * intros x rx Hx%Hsub. simpl in Hx. by apply lookup_delete_Some in Hx as [_ ?].
      * intros x rx Hx Hnone. destruct (decide (x = id)) as [->|Hne].
        -- split; [done|]. intros y ry Hy Hy'. simplify_eq. apply Hle; [|done].
           apply Hsub in Hy. simpl in Hy. by apply lookup_delete_Some in Hy as [_ ?].
        -- apply (Hgone x rx); [|done]. simpl. by rewrite lookup_delete_ne.
    + intros [= <- <-]. split_and!; [done..| |lia| |]; [congruence|lia|].
      intros id. by apply candidate_None.
Qed.

(** Making room evicts only clients without a live code or token, the least
    recently used first (ties by id), and only while the registry is full; it
    always ends, and it fails only when every client left is active. *)
Theorem capacity_evicts_idle (s s' : State) (max : Z) (ok : bool) :
  0 < max -> make_client_capacity_available s max = (s', ok) ->
  st_codes s' = st_codes s /\ st_tokens s' = st_tokens s
  /\ (forall id reg, st_clients s' !! id = Some reg -> st_clients s !! id = Some reg)
  /\ (forall id reg, st_clients s !! id = Some reg -> st_clients s' !! id = None ->
        inactive s id = true
        /\ forall id' reg', st_clients s' !! id' = Some reg' -> inactive s id' = true ->
           client_leb (id, reg) (id', reg') = true)
  /\ (Z.of_nat (size (st_clients s)) < max -> s' = s)
  /\ (if ok then Z.of_nat (size (st_clients s')) < max
      else max <= Z.of_nat (size (st_clients s'))
           /\ forall id, is_Some (st_clients s' !! id) -> inactive s id = false).
Proof.
  intros Hmax. unfold make_client_capacity_available.
  destruct (Z.eqb_spec max 0); [lia|]. by apply evict_clients_spec.
Qed.

(** * The critical sections *)

Definition code_size (s : State) : Z := Z.of_nat (size (st_codes s)).
Definition token_size (s : State) : Z := Z.of_nat (size (st_tokens s)).
Definition client_size (s : State) : Z := Z.of_nat (size (st_clients s)).

Lemma cleanup_code (s : State) (now : Z) (c : string) (a : AuthorizationCode) :
  st_codes (cleanup_at s now) !! c = Some a <-> st_codes s !! c = Some a /\ now < ac_expires_at a.
Proof. simpl. by rewrite map_lookup_filter_Some. Qed.

Lemma cleanup_token (s : State) (now : Z) (t : string) (k : AccessToken) :
  st_tokens (cleanup_at s now) !! t = Some k <-> st_tokens s !! t = Some k /\ now < at_expires_at k.
Proof. simpl. by rewrite map_lookup_filter_Some. Qed.

(** [s'] keeps part of the codes and tokens of [s] and adds none. *)
Definition shrinks (s s' : State) : Prop := st_codes s' ⊆ st_codes s /\ st_tokens s' ⊆ st_tokens s.

Lemma shrinks_refl (s : State) : shrinks s s.
Proof. by split. Qed.

Lemma cleanup_shrinks (s : State) (now : Z) : shrinks s (cleanup_at s now).
Proof. split; apply map_filter_subseteq. Qed.

Lemma shrinks_sizes (s s' : State) :
  shrinks s s' -> code_size s' <= code_size s /\ token_size s' <= token_size s.
Proof. intros [Hc Ht]. apply map_subseteq_size in Hc, Ht. unfold code_size, token_size. lia. Qed.

#[export] Hint Resolve shrinks_refl cleanup_shrinks : rust.

Lemma insert_client_shrinks (s s' : State) (id : string) (reg : ClientRegistration)
    (r : result OAuthError unit) :
  insert_client_registration s id reg MAX_CLIENTS = (s', r) ->
  client_size s <= MAX_CLIENTS ->
  st_codes s' = st_codes s /\ st_tokens s' = st_tokens s /\ client_size s' <= MAX_CLIENTS.
Proof.
  unfold insert_client_registration. destruct (bool_decide _) eqn:Hdup; [by intros [= <- <-]|].
  apply bool_decide_eq_false in Hdup.
  destruct (make_client_capacity_available s MAX_CLIENTS) as [s1 ok] eqn:Hm.
  assert (Hcap : st_codes s1 = st_codes s /\ st_tokens s1 = st_tokens s
    /\ st_clients s1 ⊆ st_clients s
    /\ (ok = true -> client_size s1 < MAX_CLIENTS)).
  { unfold make_client_capacity_available in Hm. simpl in Hm.
    destruct (evict_clients_spec _ _ _ MAX_CLIENTS _ (le_n _) ltac:(done) Hm) as (-> & -> & Hsub & _ & _ & Hok).
    split_and!; [done..| |by intros ->]. apply map_subseteq_spec. apply Hsub. }
  destruct Hcap as (Hc & Ht & Hsub & Hlt). intros Hr Hs.
  destruct ok; injection Hr as <- <-; simpl; split_and!; try done.
  - specialize (Hlt eq_refl). unfold client_size in *. simpl. rewrite map_size_insert_None.
    + lia.
    + destruct (st_clients s1 !! id) eqn:He; [|done]. exfalso. apply Hdup.
      eexists. by eapply lookup_weaken.
  - apply map_subseteq_size in Hsub. unfold client_size in *. lia.
Qed.

Lemma redeem_spec (s s' : State) (req : TokenRequest) (challenge tok : string) (now : Z)
    (r : result OAuthError unit) :
  redeem_authorization_code s req challenge tok now MAX_TOKENS = (s', r) ->
  st_clients s' = st_clients s
  /\ match r with
     | Err _ => shrinks s s'
     | Ok _ =>
         exists code, st_codes s !! tr_code req = Some code
         /\ now < ac_expires_at code /\ ac_client_id code = tr_client_id req
         /\ ac_redirect_uri code = tr_redirect_uri req /\ ac_resource code = tr_resource req
         /\ ac_code_challenge code = challenge
         /\ token_size (cleanup_at s now) < MAX_TOKENS
         /\ st_tokens (cleanup_at s now) !! tok = None
         /\ s' = mkState (st_clients s) (delete (tr_code req) (st_codes (cleanup_at s now)))
                   (<[tok := mkToken (tr_client_id req) "local-owner" (tr_resource req)
                               (now + TOKEN_TTL)]> (st_tokens (cleanup_at s now)))
     end.
Proof.
  unfold redeem_authorization_code. cbv zeta.
  pose proof (cleanup_shrinks s now) as Hsh. remember (cleanup_at s now) as s1 eqn:Hs1.
  assert (Hcl : st_clients s1 = st_clients s) by (by rewrite Hs1).
  destruct (Z.leb_spec MAX_TOKENS (Z.of_nat (size (st_tokens s1)))) as [|Hlt]; [by intros [= <- <-]|].
  destruct (st_codes s1 !! tr_code req) as [code|] eqn:Hc; [|by intros [= <- <-]].
  destruct (binding_valid code req challenge now) eqn:Hb; simpl.
  - destruct (bool_decide (is_Some (st_tokens s1 !! tok))) eqn:Hd; [by intros [= <- <-]|].
    apply bool_decide_eq_false, eq_None_not_Some in Hd. intros [= <- <-]. split; [done|].
    unfold binding_valid in Hb. rewrite !andb_true_iff, !String.eqb_eq, Z.ltb_lt in Hb.
    destruct Hb as [[[[H1 H2] H3] H4] H5]. exists code.
    rewrite Hs1 in Hc. apply cleanup_code in Hc as [Hc _]. rewrite Hcl. by split_and!.
  - intros [= <- <-]. split; [done|]. destruct Hsh as [H1 H2]. split; [|done]. simpl.
    etransitivity; [apply delete_subseteq|done].
Qed.

(** * The server and its clients

    A run of the server: the operations of any number of clients in the order
    in which they take the mutex, and between the two halves of an
    authorization anything else.  A waiting authorization holds a permit; its
    caller may also go away. *)

Record Server : Type := mkServer {
  sv_state : State;
  sv_pending : list AuthorizeRequest;
  sv_now : Z;
}.

Inductive Label : Type :=
| LOther
| LBegin (req : AuthorizeRequest)
| LGranted (allowed : result string bool) (req : AuthorizeRequest) (code : string) (at_ : Z)
| LToken (req : TokenRequest) (tok : string) (at_ : Z)
| LIdentity (tok : string) (id : Identity) (at_ : Z).

Section Server.
Context `{UrlLib} (sha256_base64url : string -> string)
  (metadata_from_slice : string -> result string ClientMetadataDocument)
  (debug_str : string -> string) (public_url : string).

Definition permits (m : Server) : Z := MAX_PENDING_AUTHORIZATIONS - zlen (sv_pending m).

Definition begin_label (r : result OAuthError string) (req : AuthorizeRequest) : Label :=
  if is_ok r then LBegin req else LOther.

Definition end_label (allowed : result string bool) (code : option string) (req : AuthorizeRequest)
    (at_ : Z) : Label :=
  match code with
  | Some c => LGranted allowed req c at_
  | None => LOther
  end.

Definition token_label (r : result OAuthError Json) (random : result string string)
    (req : TokenRequest) (at_ : Z) : Label :=
  match r, random with
  | Ok _, Ok tok => LToken req tok at_
  | _, _ => LOther
  end.

Definition identity_label (r : result string Identity) (header : option string) (at_ : Z) : Label :=
  match r, bearer_token header with
  | Ok id, Ok tok => LIdentity tok id at_
  | _, _ => LOther
  end.

Inductive server_step (m : Server) : Label -> Server -> Prop :=
| step_register now now' random req s' r :
    sv_now m <= now <= now' -> register (sv_state m) now now' random req = (s', r) ->
    server_step m LOther (mkServer s' (sv_pending m) now')
| step_begin env now now' req s' r :
    sv_now m <= now <= now' ->
    authorize_begin metadata_from_slice debug_str public_url (sv_state m) (permits m) env now now' req
      = (s', r) ->
    server_step m (begin_label r req)
      (mkServer s' (if is_ok r then sv_pending m ++ [req] else sv_pending m) now')
| step_end pre post allowed random now now' req s' r code :
    sv_now m <= now <= now' -> sv_pending m = pre ++ req :: post ->
    authorize_end public_url (sv_state m) allowed random now now' req = (s', r, code) ->
    server_step m (end_label allowed code req now') (mkServer s' (pre ++ post) now')
| step_gone pre post req :
    sv_pending m = pre ++ req :: post ->
    server_step m LOther (mkServer (sv_state m) (pre ++ post) (sv_now m))
| step_token random now req s' r :
    sv_now m <= now -> token sha256_base64url public_url (sv_state m) random now req = (s', r) ->
    server_step m (token_label r random req now) (mkServer s' (sv_pending m) now)
| step_authenticate header now now' s' r :
    sv_now m <= now <= now' ->
    authenticate public_url (sv_state m) header now now' = (s', r) ->
    server_step m (identity_label r header now') (mkServer s' (sv_pending m) now').

Inductive server_run (m : Server) : list Label -> Server -> Prop :=
| run_nil : server_run m [] m
| run_snoc tr m' l m'' :
    server_run m tr m' -> server_step m' l m'' -> server_run m (tr ++ [l]) m''.

Definition server_start (now : Z) : Server := mkServer state_default [] now.

(** What each label owes to the trace before it. *)
Definition justified (tr : list Label) (l : Label) : Prop :=
  match l with
  | LOther => True
  | LBegin req =>
      ar_response_type req = "code"%string /\ ar_code_challenge_method req = "S256"%string
      /\ ar_resource req = server_resource public_url
  | LGranted allowed req _ _ => allowed = Ok true /\ LBegin req ∈ tr
  | LToken req _ t =>
      exists areq t0, LGranted (Ok true) areq (tr_code req) t0 ∈ tr
      /\ t0 <= t < t0 + 300000
      /\ ar_client_id areq = tr_client_id req /\ ar_redirect_uri areq = tr_redirect_uri req
      /\ ar_resource areq = tr_resource req
      /\ ar_code_challenge areq = sha256_base64url (tr_code_verifier req)
  | LIdentity tok id t =>
      exists req t0, LToken req tok t0 ∈ tr /\ t0 <= t < t0 + 900000
      /\ tr_resource req = server_resource public_url
      /\ id = mkIdentity "local-oauth" (Some "local-owner"%string)
                (Some ("local owner via " +:+ tr_client_id req)) None
  end.

(** How often a code was issued and redeemed. *)
Definition issued (c : string) (l : Label) : Z :=
  match l with
  | LGranted _ _ c' _ => if String.eqb c c' then 1 else 0
  | _ => 0
  end.
Definition redeemed (c : string) (l : Label) : Z :=
  match l with
  | LToken req _ _ => if String.eqb c (tr_code req) then 1 else 0
  | _ => 0
  end.
Definition live (c : string) (s : State) : Z := if is_some (st_codes s !! c) then 1 else 0.

Record invariant (tr : list Label) (m : Server) : Prop := {
  inv_code : forall c a, st_codes (sv_state m) !! c = Some a ->
    exists req t, LGranted (Ok true) req c t ∈ tr /\ t <= sv_now m
    /\ a = mkCode (ar_client_id req) (ar_redirect_uri req) (ar_code_challenge req)
             (ar_resource req) (t + CODE_TTL);
  inv_token : forall k a, st_tokens (sv_state m) !! k = Some a ->
    exists req t, LToken req k t ∈ tr /\ t <= sv_now m
    /\ a = mkToken (tr_client_id req) "local-owner" (tr_resource req) (t + TOKEN_TTL);
  inv_pending : forall req, req ∈ sv_pending m -> LBegin req ∈ tr;
  inv_single : forall c,
    sum_z (map (redeemed c) tr) + live c (sv_state m) <= sum_z (map (issued c) tr);
  inv_just : forall pre l post, tr = pre ++ l :: post -> justified pre l;
  inv_sizes : client_size (sv_state m) <= MAX_CLIENTS /\ code_size (sv_state m) <= MAX_CODES
    /\ token_size (sv_state m) <= MAX_TOKENS
    /\ zlen (sv_pending m) <= MAX_PENDING_AUTHORIZATIONS;
}.

(** ** The invariant holds in every run *)


Lemma sum_snoc (f : Label -> Z) (tr : list Label) (l : Label) :
  sum_z (map f (tr ++ [l])) = sum_z (map f tr) + f l.
Proof. rewrite map_app, sum_z_app. unfold sum_z. simpl. lia. Qed.

Lemma live_shrinks (c : string) (s s' : State) : shrinks s s' -> live c s' <= live c s.
Proof.
  intros [Hc _]. unfold live. destruct (st_codes s' !! c) as [a|] eqn:Ha; simpl.
  - rewrite (lookup_weaken _ _ _ _ Ha Hc). done.
  - case_match; lia.
Qed.

Lemma just_snoc (tr : list Label) (l : Label) :
  (forall pre x post, tr = pre ++ x :: post -> justified pre x) -> justified tr l ->
  forall pre x post, tr ++ [l] = pre ++ x :: post -> justified pre x.
Proof.
  intros Hj Hl pre x post He. destruct (decide (post = [])) as [->|Hne].
  - apply app_inj_tail in He as [<- <-]. done.
  - destruct (exists_last Hne) as (post' & y & ->).
    change (pre ++ x :: (post' ++ [y])) with (pre ++ (x :: post') ++ [y]) in He.
    rewrite app_assoc in He. apply app_inj_tail in He as [He _]. by eapply Hj.
Qed.

(** A step that adds no code and no token. *)
Lemma inv_shrink (tr : list Label) (m : Server) (l : Label) (s' : State)
    (pending : list AuthorizeRequest) (now : Z) :
  invariant tr m -> shrinks (sv_state m) s' -> client_size s' <= MAX_CLIENTS -> sv_now m <= now ->
  zlen pending <= MAX_PENDING_AUTHORIZATIONS ->
  (forall req, req ∈ pending -> LBegin req ∈ tr ++ [l]) ->
  justified tr l -> (forall c, redeemed c l = 0 /\ 0 <= issued c l) ->
  invariant (tr ++ [l]) (mkServer s' pending now).
Proof.
  intros I Hs Hcl Hnow Hlen Hp Hj Hr. destruct Hs as [Hc Ht]. split; simpl.
  - intros c a Ha. apply (lookup_weaken _ _ _ _ Ha) in Hc as Hc'.
    destruct (inv_code _ _ I _ _ Hc') as (req & t & Hin & Hle & ->).
    exists req, t. split; [set_solver|]. split; [lia|done].
  - intros k a Ha. apply (lookup_weaken _ _ _ _ Ha) in Ht as Ht'.
    destruct (inv_token _ _ I _ _ Ht') as (req & t & Hin & Hle & ->).
    exists req, t. split; [set_solver|]. split; [lia|done].
  - exact Hp.
  - intros c. rewrite !sum_snoc. pose proof (inv_single _ _ I c).
    pose proof (live_shrinks c _ _ (conj Hc Ht)). destruct (Hr c). lia.
  - apply just_snoc; [apply (inv_just _ _ I)|done].
  - destruct (inv_sizes _ _ I) as (_ & H2 & H3 & _).
    destruct (shrinks_sizes _ _ (conj Hc Ht)). split_and!; [done|lia|lia|done].
Qed.

(** Issuing a code. *)
Lemma inv_grant (tr : list Label) (m : Server) (req : AuthorizeRequest) (c : string)
    (pending : list AuthorizeRequest) (s1 : State) (now : Z) :
  invariant tr m -> shrinks (sv_state m) s1 -> st_clients s1 = st_clients (sv_state m) ->
  sv_now m <= now -> code_size s1 < MAX_CODES -> st_codes s1 !! c = None ->
  LBegin req ∈ tr -> (forall r, r ∈ pending -> r ∈ sv_pending m) ->
  zlen pending <= MAX_PENDING_AUTHORIZATIONS ->
  invariant (tr ++ [LGranted (Ok true) req c now])
    (mkServer (mkState (st_clients s1)
       (<[c := mkCode (ar_client_id req) (ar_redirect_uri req) (ar_code_challenge req)
                 (ar_resource req) (now + CODE_TTL)]> (st_codes s1)) (st_tokens s1)) pending now).
Proof.
  intros I Hs Hcl Hnow Hsz Hnone Hreq Hp Hlen. pose proof Hs as [Hc Ht]. split; simpl.
  - intros c' a [[<- <-]|[_ Ha]]%lookup_insert_Some.
    + exists req, now. split; [set_solver|]. split; [lia|done].
    + apply (lookup_weaken _ _ _ _ Ha) in Hc. destruct (inv_code _ _ I _ _ Hc) as (r & t & Hin & Hle & ->).
      exists r, t. split; [set_solver|]. split; [lia|done].
  - intros k a Ha. apply (lookup_weaken _ _ _ _ Ha) in Ht.
    destruct (inv_token _ _ I _ _ Ht) as (r & t & Hin & Hle & ->).
    exists r, t. split; [set_solver|]. split; [lia|done].
  - intros r Hr%Hp. apply elem_of_app. left. by apply (inv_pending _ _ I).
  - intros c'. rewrite !sum_snoc. pose proof (inv_single _ _ I c') as H1.
    pose proof (live_shrinks c' _ _ Hs) as H2. cbn [redeemed issued].
    unfold live in *. simpl. destruct (String.eqb_spec c' c) as [->|Hne].
    + rewrite lookup_insert_eq. simpl. destruct (st_codes (sv_state m) !! c); simpl in *; lia.
    + rewrite lookup_insert_ne by done. lia.
  - apply just_snoc; [apply (inv_just _ _ I)|done].
  - destruct (inv_sizes _ _ I) as (H1 & _ & H3 & _). destruct (shrinks_sizes _ _ Hs) as [_ H4].
    unfold client_size, code_size, token_size in *. simpl. rewrite Hcl.
    rewrite map_size_insert_None by done. split_and!; [done|lia|lia|done].
Qed.

(** Redeeming one. *)
Lemma inv_redeem (tr : list Label) (m : Server) (req : TokenRequest) (tok : string) (now : Z)
    (code : AuthorizationCode) :
  invariant tr m -> sv_now m <= now -> st_codes (sv_state m) !! tr_code req = Some code ->
  justified tr (LToken req tok now) -> token_size (cleanup_at (sv_state m) now) < MAX_TOKENS ->
  st_tokens (cleanup_at (sv_state m) now) !! tok = None ->
  invariant (tr ++ [LToken req tok now])
    (mkServer (mkState (st_clients (sv_state m))
       (delete (tr_code req) (st_codes (cleanup_at (sv_state m) now)))
       (<[tok := mkToken (tr_client_id req) "local-owner" (tr_resource req) (now + TOKEN_TTL)]>
          (st_tokens (cleanup_at (sv_state m) now)))) (sv_pending m) now).
Proof.
  intros I Hnow Hcode Hj Hsz Hnone. pose proof (cleanup_shrinks (sv_state m) now) as [Hc Ht].
  set (s1 := cleanup_at (sv_state m) now) in *. split; cbn [sv_state sv_pending sv_now st_codes st_tokens].
  - intros c a [_ Ha]%lookup_delete_Some. apply (lookup_weaken _ _ _ _ Ha) in Hc.
    destruct (inv_code _ _ I _ _ Hc) as (r & t & Hin & Hle & ->).
    exists r, t. split; [set_solver|]. split; [lia|done].
  - intros k a [[<- <-]|[_ Ha]]%lookup_insert_Some.
    + exists req, now. split; [set_solver|]. split; [lia|done].
    + apply (lookup_weaken _ _ _ _ Ha) in Ht. destruct (inv_token _ _ I _ _ Ht) as (r & t & Hin & Hle & ->).
      exists r, t. split; [set_solver|]. split; [lia|done].
  - intros r Hr. apply elem_of_app. left. by apply (inv_pending _ _ I).
  - intros c. rewrite !sum_snoc. pose proof (inv_single _ _ I c) as H1.
    pose proof (live_shrinks c _ _ (cleanup_shrinks (sv_state m) now)) as H2. cbn [redeemed issued].
    unfold live in *. cbn [st_codes]. destruct (String.eqb_spec c (tr_code req)) as [->|Hne].
    + rewrite lookup_delete_eq. rewrite Hcode in H1. simpl in *. lia.
    + rewrite lookup_delete_ne by done. fold s1 in H2. lia.
  - apply just_snoc; [apply (inv_just _ _ I)|done].
  - destruct (inv_sizes _ _ I) as (H1 & H2 & _ & H4).
    destruct (shrinks_sizes _ _ (cleanup_shrinks (sv_state m) now)) as [H5 _]. fold s1 in H5.
    unfold client_size, code_size, token_size in *. cbn [st_clients st_codes st_tokens].
    rewrite map_size_insert_None by done.
    assert (Hd : (size (delete (tr_code req) (st_codes s1)) <= size (st_codes s1))%nat)
      by (apply map_subseteq_size, delete_subseteq).
    split_and!; [done|lia|lia|done].
Qed.

Lemma register_shrinks (s s' : State) (now now' : Z) (random : result string string)
    (req : RegistrationRequest) (r : result OAuthError Json) :
  register s now now' random req = (s', r) -> client_size s <= MAX_CLIENTS ->
  shrinks s s' /\ client_size s' <= MAX_CLIENTS.
Proof.
  unfold register. destruct (registration_checks req ;! _) as [tok|e]; [|by intros [= <- <-]; auto with rust].
  destruct (insert_client_registration _ _ _ _) as [s1 r1] eqn:Hi. intros Hr Hs.
  apply insert_client_shrinks in Hi as (Hc & Ht & Hsz); [|done].
  assert (s' = s1) as -> by (destruct r1; by injection Hr).
  split; [|done]. unfold shrinks. rewrite Hc, Ht. apply cleanup_shrinks.
Qed.

Lemma begin_effect (s s' : State) (p : Z) (env : FetchEnv) (now now' : Z) (req : AuthorizeRequest)
    (r : result OAuthError string) :
  authorize_begin metadata_from_slice debug_str public_url s p env now now' req = (s', r) ->
  shrinks s s' /\ client_size s' = client_size s
  /\ (is_ok r = true -> 0 < p /\ justified [] (LBegin req)).
Proof.
  unfold authorize_begin. destruct (authorize_checks public_url req) as [u|e] eqn:Hchk.
  2: { intros [= <- <-]. by split_and!; auto with rust. }
  destruct (resolve_client _ s env now now' _ _) as [s1 client] eqn:Hres. intros [= <- <-].
  split_and!.
  - unfold resolve_client in Hres. cbv zeta in Hres.
    destruct (st_clients (cleanup_at s now) !! _); injection Hres as <- _; apply cleanup_shrinks.
  - unfold resolve_client in Hres. cbv zeta in Hres.
    destruct (st_clients (cleanup_at s now) !! _) eqn:Hl; injection Hres as <- _; [|done].
    unfold client_size. cbn [st_clients]. by rewrite map_size_insert_Some by (by eexists).
  - intros Hok. apply is_ok_true in Hok as [d Hd]. inv_ok. rust_norm. split; [done|].
    unfold authorize_checks in Hchk. inv_ok. unfold validate_resource in *. inv_ok.
    simpl. by rewrite <- !String.eqb_eq.
Qed.

Lemma end_effect (s s' : State) (allowed : result string bool) (random : result string string)
    (now now' : Z) (req : AuthorizeRequest) (r : result OAuthError string) (code : option string) :
  authorize_end public_url s allowed random now now' req = (s', r, code) ->
  match code with
  | None => shrinks s s' /\ st_clients s' = st_clients s
  | Some c =>
      allowed = Ok true /\ code_size (cleanup_at s now) < MAX_CODES
      /\ st_codes (cleanup_at s now) !! c = None
      /\ s' = mkState (st_clients s)
           (<[c := mkCode (ar_client_id req) (ar_redirect_uri req) (ar_code_challenge req)
                     (ar_resource req) (now' + CODE_TTL)]> (st_codes (cleanup_at s now)))
           (st_tokens (cleanup_at s now))
  end.
Proof.
  unfold authorize_end. destruct allowed as [[]|e]; cbn [map_err];
    [|by intros [= <- <- <-]; auto with rust|by intros [= <- <- <-]; auto with rust].
  destruct random as [c|e]; cbn [map_err]; [|by intros [= <- <- <-]; auto with rust].
  unfold insert_authorization_code. pose proof (cleanup_shrinks s now) as Hsh.
  destruct (bool_decide _) eqn:Hd; [by intros [= <- <- <-]|]. apply bool_decide_eq_false in Hd.
  destruct (Z.leb_spec MAX_CODES (Z.of_nat (size (st_codes (cleanup_at s now))))) as [|Hlt];
    [by intros [= <- <- <-]|].
  intros [= <- <- <-]. split_and!; [done|exact Hlt|by apply eq_None_not_Some|done].
Qed.

Lemma justified_begin_mono (tr : list Label) (req : AuthorizeRequest) :
  justified [] (LBegin req) -> justified tr (LBegin req).
Proof. done. Qed.

Lemma plain_label (l : Label) :
  match l with LOther | LBegin _ | LIdentity _ _ _ => True | _ => False end ->
  forall c, redeemed c l = 0 /\ 0 <= issued c l.
Proof. by destruct l. Qed.

Lemma authenticate_spec (tr : list Label) (m : Server) (header : option string) (now now' : Z)
    (s' : State) (r : result string Identity) :
  invariant tr m -> sv_now m <= now <= now' ->
  authenticate public_url (sv_state m) header now now' = (s', r) ->
  shrinks (sv_state m) s' /\ st_clients s' = st_clients (sv_state m)
  /\ justified tr (identity_label r header now').
Proof.
  intros I Hnow. unfold authenticate, identity_label. destruct (bearer_token header) as [tok|e].
  2: { intros [= <- <-]. by split_and!; auto with rust. }
  intros [= <- <-]. split_and!; [apply cleanup_shrinks|done|].
  destruct (ok_or _ _) as [a|e] eqn:Ha; [|done]. apply ok_or_Ok in Ha. cbn [bind].
  destruct (ensure _ _) as [u|e] eqn:He; [|done]. cbn [bind].
  destruct (ensure (String.eqb _ _) _) as [u'|e] eqn:Hr; [|done]. cbn [bind].
  destruct u, u'. apply ensure_Ok in He, Hr. apply Z.ltb_lt in He. apply String.eqb_eq in Hr.
  apply cleanup_token in Ha as [Ha _].
  destruct (inv_token _ _ I _ _ Ha) as (req & t & Hin & Hle & ->). unfold TOKEN_TTL in *. simpl in *.
  exists req, t. split_and!; [done|lia|lia|done|done].
Qed.

#[local] Ltac inv_shrink_step tr m :=
  apply (inv_shrink tr m); auto with rust; try lia; try exact Logic.I; try (by apply plain_label).

Lemma step_invariant (tr : list Label) (m m' : Server) (l : Label) :
  invariant tr m -> server_step m l m' -> invariant (tr ++ [l]) m'.
Proof.
  intros I Hs. destruct (inv_sizes _ _ I) as (Hcl & Hco & Hto & Hpe).
  assert (Hpend : forall l req, req ∈ sv_pending m -> LBegin req ∈ tr ++ [l]).
  { intros l0 req Hin. apply elem_of_app. left. by apply (inv_pending _ _ I). }
  destruct Hs as [now now' random req s' r Hn Hr|env now now' req s' r Hn Hr
    |pre post allowed random now now' req s' r code Hn Hp Hr|pre post req Hp
    |random now req s' r Hn Hr|header now now' s' r Hn Hr].
  - apply register_shrinks in Hr as [Hsh Hsz]; [|done].
    inv_shrink_step tr m.
  - apply begin_effect in Hr as (Hsh & Hsz & Hok). unfold begin_label.
    destruct r as [d|e]; simpl.
    + destruct (Hok eq_refl) as [Hpm Hj]. unfold permits in Hpm.
      inv_shrink_step tr m.
      * rewrite zlen_app, zlen_cons. change (zlen []) with 0. lia.
      * intros q [Hq|Hq]%elem_of_app; [by apply Hpend|]. apply list_elem_of_singleton in Hq as ->. set_solver.
    + inv_shrink_step tr m.
  - assert (Hlen : zlen (pre ++ post) <= MAX_PENDING_AUTHORIZATIONS).
    { rewrite Hp, zlen_app, zlen_cons in Hpe. rewrite zlen_app. lia. }
    assert (Hsub : forall q, q ∈ pre ++ post -> q ∈ sv_pending m) by (rewrite Hp; set_solver).
    apply end_effect in Hr. destruct code as [c|]; simpl.
    + destruct Hr as (-> & Hsz & Hnone & ->).
      apply (inv_grant tr m req c (pre ++ post) (cleanup_at (sv_state m) now) now'); auto with rust; [lia|].
      apply (inv_pending _ _ I). rewrite Hp. set_solver.
    + destruct Hr as [Hsh Hcl']. inv_shrink_step tr m.
      * unfold client_size in *. by rewrite Hcl'.
  - assert (Hlen : zlen (pre ++ post) <= MAX_PENDING_AUTHORIZATIONS).
    { rewrite Hp, zlen_app, zlen_cons in Hpe. rewrite zlen_app. lia. }
    inv_shrink_step tr m.
    intros q Hq. apply Hpend. rewrite Hp. set_solver.
  - unfold token in Hr. unfold token_label.
    destruct (let! challenge := _ in _) as [[challenge tok]|e] eqn:Hchk.
    2: { injection Hr as <- <-. inv_shrink_step tr m. }
    destruct (redeem_authorization_code _ _ _ _ _ _) as [s1 r1] eqn:Hred.
    apply redeem_spec in Hred as [Hcl1 Hred]. destruct r1 as [u|e].
    + destruct Hred as (code & Hc & Hexp & H1 & H2 & H3 & H4 & Hsz & Hnone & ->).
      injection Hr as <- <-. inv_ok. subst.
      destruct (inv_code _ _ I _ _ Hc) as (areq & t & Hin & Hle & ->). simpl in *.
      apply (inv_redeem tr m req tok now _ I Hn Hc); auto.
      exists areq, t. split_and!; auto; try lia.
      unfold token_checks, pkce_challenge in *. by inv_ok.
    + injection Hr as <- <-. inv_shrink_step tr m.
      unfold client_size in *. by rewrite Hcl1.
  - destruct (authenticate_spec tr m header now now' s' r I Hn Hr) as (Hsh & Hcl' & Hj).
    inv_shrink_step tr m.
    + unfold client_size in *. by rewrite Hcl'.
    + intros c. unfold identity_label. by destruct r, (bearer_token header).
Qed.

Lemma run_invariant (now : Z) (tr : list Label) (m : Server) :
  server_run (server_start now) tr m -> invariant tr m.
Proof.
  induction 1 as [|tr m' l m'' _ IH Hs].
  - split; simpl; try done.
    + intros req Hin. by apply elem_of_nil in Hin.
    + intros [|x pre] l post He; done.
  - by eapply step_invariant.
Qed.

(** C9: every token traces back to the owner.  In any interleaving of any
    clients' requests: an identity is given only for a token issued less than
    fifteen minutes before; a token is issued only for a code that was granted
    less than five minutes before, to the same client, redirect URI and
    resource, against the verifier of its PKCE challenge; a code is granted
    only when the owner allowed a request that passed the checks; and a code
    gives at most as many tokens as it had grants. *)
Theorem token_authorised (now : Z) (tr : list Label) (m : Server) :
  server_run (server_start now) tr m ->
  (forall pre l post, tr = pre ++ l :: post -> justified pre l)
  /\ (forall c, sum_z (map (redeemed c) tr) <= sum_z (map (issued c) tr)).
Proof.
  intros Hr. apply run_invariant in Hr as I. split; [apply (inv_just _ _ I)|].
  intros c. pose proof (inv_single _ _ I c) as H1. unfold live in H1. case_match; lia.
Qed.

(** The server is bounded: in every run at most 256 clients, 256 codes, 1024
    tokens and 64 authorizations waiting for the owner. *)
Theorem server_bounded (now : Z) (tr : list Label) (m : Server) :
  server_run (server_start now) tr m ->
  client_size (sv_state m) <= MAX_CLIENTS /\ code_size (sv_state m) <= MAX_CODES
  /\ token_size (sv_state m) <= MAX_TOKENS
  /\ zlen (sv_pending m) <= MAX_PENDING_AUTHORIZATIONS.
Proof. intros Hr. apply run_invariant in Hr as I. apply (inv_sizes _ _ I). Qed.
End Server.

(** * Addresses *)

Lemma octets (a b : Z) :
  0 <= a <= 255 -> 0 <= b <= 255 -> octet_hi (a * 256 + b) = a /\ octet_lo (a * 256 + b) = b.
Proof.
  intros Ha Hb. unfold octet_hi, octet_lo. change 255 with (Z.ones 8).
  rewrite !Z.land_ones, Z.shiftr_div_pow2 by lia. change (2 ^ 8) with 256.
  rewrite Z.div_add_l, (Z.div_small b 256) by lia. split.
  - rewrite Z.mod_small; lia.
  - symmetry. apply (Z.mod_unique _ _ a); [left|]; lia.
Qed.

Lemma private_ipv4 (a b c : Z) :
  a = 127 \/ a = 10 \/ (a = 172 /\ 16 <= b <= 31) \/ (a = 192 /\ b = 168)
  \/ (a = 169 /\ b = 254) \/ 224 <= a -> is_public_ipv4 a b c = false.
Proof.
  unfold is_public_ipv4. intros [->|[->|[[-> Hb]|[[-> ->]|[[-> ->]|Ha]]]]]; try done.
  - apply in_range_true in Hb. by rewrite Hb.
  - apply Z.leb_le in Ha. rewrite Ha, orb_true_r. reflexivity.
Qed.

(** No IPv6 form of an IPv4 address is more public than the address itself:
    the IPv4-compatible, IPv4-mapped and well-known NAT64 forms are judged as
    the IPv4 address; and loopback, private, link-local and multicast addresses
    of both families are never public. *)
Theorem embedded_address_public (a b c d : Z) :
  0 <= a <= 255 -> 0 <= b <= 255 -> 0 <= c <= 255 -> 0 <= d <= 255 ->
  is_public_ip (V6 0 0 0 0 0 0 (a * 256 + b) (c * 256 + d)) = is_public_ip (V4 a b c d)
  /\ is_public_ip (V6 0 0 0 0 0 65535 (a * 256 + b) (c * 256 + d)) = is_public_ip (V4 a b c d)
  /\ is_public_ip (V6 100 65435 0 0 0 0 (a * 256 + b) (c * 256 + d)) = is_public_ip (V4 a b c d)
  /\ (a = 127 \/ a = 10 \/ (a = 172 /\ 16 <= b <= 31) \/ (a = 192 /\ b = 168)
      \/ (a = 169 /\ b = 254) \/ 224 <= a -> is_public_ip (V4 a b c d) = false)
  /\ (forall s1 s2 s3 s4 s5 s6 s7,
        Forall (fun s0 => is_public_ip (V6 s0 s1 s2 s3 s4 s5 s6 s7) = false) [64768; 65152; 65280]
        /\ is_public_ip (V6 0 0 0 0 0 0 0 1) = false).
Proof.
  intros Ha Hb Hc Hd. destruct (octets a b Ha Hb) as [Hh Hl], (octets c d Hc Hd) as [Hh' _].
  assert (H4 : is_public_ip (V6 0 0 0 0 0 0 (a * 256 + b) (c * 256 + d)) = is_public_ipv4 a b c)
    by (simpl; unfold is_public_ipv6; simpl; by rewrite Hh, Hl, Hh').
  assert (H5 : is_public_ip (V6 0 0 0 0 0 65535 (a * 256 + b) (c * 256 + d)) = is_public_ipv4 a b c)
    by (simpl; unfold is_public_ipv6; simpl; by rewrite Hh, Hl, Hh').
  assert (H6 : is_public_ip (V6 100 65435 0 0 0 0 (a * 256 + b) (c * 256 + d)) = is_public_ipv4 a b c)
    by (simpl; unfold is_public_ipv6; simpl; by rewrite Hh, Hl, Hh').
  split; [exact H4|]. split; [exact H5|]. split; [exact H6|]. split.
  - apply private_ipv4.
  - intros s1 s2 s3 s4 s5 s6 s7. split; [|done]. repeat constructor.
Qed.

(** * Redirects *)

(** What a redirect URI may be: at most 2048 bytes, without credentials or
    fragment, over HTTPS, or over HTTP to [localhost] or 127.0.0.1.  The IPv6
    loopback address the code names is never accepted: the comparison is with
    the address without brackets, which [host_str] never gives. *)
Theorem redirect_uri_spec `{UrlLaws} (value : string) :
  validate_redirect_uri value = Ok tt <->
  str_len value <= MAX_URI_BYTES /\ exists u, url_parse value = Some u
  /\ url_fragment u = None /\ url_username u = EmptyString /\ url_password u = None
  /\ (url_scheme u = "https"%string
      \/ url_scheme u = "http"%string /\ exists h, url_host_str u = Some h
         /\ (to_ascii_lowercase h = "localhost"%string \/ h = "127.0.0.1"%string)).
Proof.
  assert (Hnone : forall o : option string, is_some o = false <-> o = None) by (by destruct o).
  assert (Hempty : forall s, str_is_empty s = true <-> s = EmptyString).
  { intros s. split; [|by intros ->]. by destruct s. }
  assert (Hloop : forall u, is_some_and loopback_host (url_host_str u) = true <->
    exists h, url_host_str u = Some h
      /\ (to_ascii_lowercase h = "localhost"%string \/ h = "127.0.0.1"%string)).
  { intros u. destruct (url_host_str u) as [h|] eqn:Hh; simpl; [|split; [done|by intros (? & ? & _)]].
    unfold loopback_host, eq_ignore_ascii_case. rewrite !orb_true_iff, !String.eqb_eq.
    change (to_ascii_lowercase "localhost") with "localhost"%string. split.
    - intros [Hl|Hl]; [by exists h|]. apply (url_host_brackets u h) in Hh; [|by rewrite Hl].
      by rewrite Hl in Hh.
    - intros (h' & [= <-] & Hl). by left. }
  unfold validate_redirect_uri. rewrite bind_ensure. destruct (Z.leb_spec (str_len value) MAX_URI_BYTES).
  2: { split; [done|]. intros [? _]. lia. }
  destruct (url_parse value) as [u|]; simpl; [|split; [done|by intros (_ & ? & ? & _)]].
  rewrite bind_ensure. destruct (negb _) eqn:Hc.
  - rewrite negb_true_iff, !orb_false_iff, !Hnone, negb_false_iff, Hempty in Hc.
    destruct Hc as [[Hf Hu] Hp]. rewrite ensure_Ok, orb_true_iff, andb_true_iff, !String.eqb_eq, Hloop.
    split; [intros Hs; split; [done|]; exists u; by split_and!|].
    intros (_ & u' & [= <-] & _ & _ & _ & Hs). exact Hs.
  - split; [done|]. intros (_ & u' & [= <-] & Hf & Hu & Hp & _). rewrite Hf, Hp in Hc.
    apply Hempty in Hu. by rewrite Hu in Hc.
Qed.

(** * Witnesses *)

Module OAuthWitness.

(** URLs of the form [scheme://host/path], kept as text. *)
Definition toy_host (u : string) : string :=
  match split_once_str "://" u with
  | Some (_, rest) => match split_on "/" rest with h :: _ => h | [] => rest end
  | None => EmptyString
  end.

#[local] Instance toy_url : UrlLib := {|
  Url := string;
  url_parse s := if contains_str "://" s then Some s else None;
  url_scheme u := default EmptyString (fst <$> split_once_str "://" u);
  url_username _ := EmptyString;
  url_password _ := None;
  url_fragment _ := None;
  url_host_str u :=
    Some (if str_contains 58 (toy_host u) then "[" +:+ toy_host u +:+ "]" else toy_host u);
  url_port_or_known_default u := Some 443;
  url_append_pairs u l :=
    u +:+ "?" +:+ join_strings "&" (map (fun p => p.1 +:+ "=" +:+ p.2) l);
|}.

#[local] Instance toy_url_laws : UrlLaws.
Proof.
  split. intros u h [= <-]. destruct (str_contains 58 (toy_host u)) eqn:Hc; intros H.
  - unfold starts_with. apply prefix_app.
  - by rewrite Hc in H.
Qed.

Definition site : string := "https://temote.example".
Definition callback : string := "http://127.0.0.1/cb".
Definition challenge : string := "abcdefghijklmnopqrstuvwxyz0123456789ABCDEFG".
Definition hash (_ : string) : string := challenge.
Definition no_documents (_ : string) : result string ClientMetadataDocument := Err "none"%string.
Definition quoted (s : string) : string := s.
Definition no_network : FetchEnv := mkFetch false None (Ok tt) (Err "none"%string).

Definition reg_request : RegistrationRequest :=
  mkRegistration [callback] (Some "demo"%string) None [] [] None.
Definition auth_request : AuthorizeRequest :=
  mkAuthorize "code" "temote-r1" callback challenge "S256" (site +:+ "/mcp") None None.
Definition token_request : TokenRequest :=
  mkTokenRequest "authorization_code" "r2" "temote-r1" callback challenge (site +:+ "/mcp").

Definition m0 := server_start 0.
Definition op1 := register (sv_state m0) 1 1 (Ok "r1"%string) reg_request.
Definition m1 := mkServer op1.1 (sv_pending m0) 1.
Definition op2 :=
  authorize_begin no_documents quoted site (sv_state m1) (permits m1) no_network 2 2 auth_request.
Definition m2 :=
  mkServer op2.1 (if is_ok op2.2 then sv_pending m1 ++ [auth_request] else sv_pending m1) 2.
Definition op3 :=
  authorize_end site (sv_state m2) (Ok true) (Ok "r2"%string) 3 3 auth_request.
Definition m3 := mkServer op3.1.1 ([] ++ []) 3.
Definition op4 := token hash site (sv_state m3) (Ok "r3"%string) 4 token_request.
Definition m4 := mkServer op4.1 (sv_pending m3) 4.
Definition op5 := authenticate site (sv_state m4) (Some "Bearer r3"%string) 5 5.
Definition m5 := mkServer op5.1 (sv_pending m4) 5.

Definition demo_identity : Identity :=
  mkIdentity "local-oauth" (Some "local-owner"%string) (Some "local owner via temote-r1"%string) None.

Definition demo_trace : list Label :=
  [LOther; LBegin auth_request; LGranted (Ok true) auth_request "r2" 3; LToken token_request "r3" 4;
   LIdentity "r3" demo_identity 5].

Lemma demo_labels :
  begin_label op2.2 auth_request = LBegin auth_request
  /\ sv_pending m2 = [auth_request]
  /\ end_label (Ok true) op3.2 auth_request 3 = LGranted (Ok true) auth_request "r2" 3
  /\ token_label op4.2 (Ok "r3"%string) token_request 4 = LToken token_request "r3" 4
  /\ identity_label op5.2 (Some "Bearer r3"%string) 5 = LIdentity "r3" demo_identity 5.
Proof. split_and!; vm_compute; reflexivity. Qed.

Lemma demo_run : server_run hash no_documents quoted site m0 demo_trace m5.
Proof.
  destruct demo_labels as (H2 & Hp & H3 & H4 & H5). unfold demo_trace. rewrite <- H2, <- H3, <- H4, <- H5.
  set (l2 := begin_label _ _). set (l3 := end_label _ _ _ _). set (l4 := token_label _ _ _ _).
  set (l5 := identity_label _ _ _).
  refine (run_snoc _ _ _ _ m0 [LOther; l2; l3; l4] m4 l5 m5
    (run_snoc _ _ _ _ m0 [LOther; l2; l3] m3 l4 m4
      (run_snoc _ _ _ _ m0 [LOther; l2] m2 l3 m3
        (run_snoc _ _ _ _ m0 [LOther] m1 l2 m2
          (run_snoc _ _ _ _ m0 [] m0 LOther m1 (run_nil _ _ _ _ m0) _) _) _) _) _).
  - apply (step_register _ _ _ _ m0 1 1 (Ok "r1"%string) reg_request op1.1 op1.2); [simpl; lia|].
    apply surjective_pairing.
  - apply (step_begin _ _ _ _ m1 no_network 2 2 auth_request op2.1 op2.2); [simpl; lia|].
    apply surjective_pairing.
  - apply (step_end _ _ _ _ m2 [] [] (Ok true) (Ok "r2"%string) 3 3 auth_request op3.1.1 op3.1.2 op3.2).
    + simpl. lia.
    + exact Hp.
    + unfold op3. by destruct (authorize_end _ _ _ _ _ _ _) as [[? ?] ?].
  - apply (step_token _ _ _ _ m3 (Ok "r3"%string) 4 token_request op4.1 op4.2); [simpl; lia|].
    apply surjective_pairing.
  - apply (step_authenticate _ _ _ _ m4 (Some "Bearer r3"%string) 5 5 op5.1 op5.2); [simpl; lia|].
    apply surjective_pairing.
Qed.

Lemma token_authorised_witness :
  (exists req t0, LToken req "r3" t0 ∈ take 4 demo_trace /\ t0 <= 5 < t0 + 900000)
  /\ (exists areq t0, LGranted (Ok true) areq "r2" t0 ∈ take 3 demo_trace /\ t0 <= 4 < t0 + 300000)
  /\ 1 = sum_z (map (redeemed "r2") demo_trace)
  /\ sum_z (map (redeemed "r2") demo_trace) <= sum_z (map (issued "r2") demo_trace).
Proof.
  destruct (token_authorised hash no_documents quoted site 0 demo_trace m5 demo_run) as [Hj Hs].
  split; [|split; [|split; [reflexivity|apply Hs]]].
  - destruct (Hj (take 4 demo_trace) _ [] eq_refl) as (req & t0 & Hin & Ht & _). by exists req, t0.
  - destruct (Hj (take 3 demo_trace) _ (drop 4 demo_trace) eq_refl) as (areq & t0 & Hin & Ht & _).
    by exists areq, t0.
Defined.

Lemma server_bounded_witness :
  client_size (sv_state m5) <= MAX_CLIENTS /\ code_size (sv_state m5) <= MAX_CODES
  /\ token_size (sv_state m5) <= MAX_TOKENS
  /\ zlen (sv_pending m5) <= MAX_PENDING_AUTHORIZATIONS.
Proof. exact (server_bounded hash no_documents quoted site 0 demo_trace m5 demo_run). Defined.

(** Two idle clients and one with a live code, in a registry of three. *)
Definition crowded : State :=
  mkState {["a"%string := mkClient "a" ∅ 5; "b"%string := mkClient "b" ∅ 3; "c"%string := mkClient "c" ∅ 1]}
    {["k"%string := mkCode "c" callback challenge site 100]} ∅.

Lemma crowded_evicts : (make_client_capacity_available crowded 3).2 = true
  /\ st_clients (make_client_capacity_available crowded 3).1 !! "b"%string = None
  /\ is_Some (st_clients (make_client_capacity_available crowded 3).1 !! "c"%string).
Proof. split_and!; vm_compute; eauto. Qed.

Lemma capacity_evicts_idle_witness :
  client_size (make_client_capacity_available crowded 3).1 < 3.
Proof.
  destruct (capacity_evicts_idle crowded (make_client_capacity_available crowded 3).1 3
              (make_client_capacity_available crowded 3).2 ltac:(lia) (surjective_pairing _))
    as (_ & _ & _ & _ & _ & H).
  rewrite (proj1 crowded_evicts) in H. exact H.
Defined.

Lemma embedded_address_public_witness :
  is_public_ip (V6 0 0 0 0 0 65535 (192 * 256 + 168) (1 * 256 + 1)) = is_public_ip (V4 192 168 1 1).
Proof.
  destruct (embedded_address_public 192 168 1 1) as (_ & H & _); [lia..|]. exact H.
Defined.

Lemma redirect_uri_spec_witness :
  validate_redirect_uri "http://[::1]/cb" <> Ok tt /\ validate_redirect_uri callback = Ok tt.
Proof.
  split.
  - intros H. apply (redirect_uri_spec "http://[::1]/cb") in H as (_ & u & [= <-] & _ & _ & _ & H).
    by vm_compute in H; destruct H as [H|(_ & h & [= <-] & [H|H])].
  - apply (redirect_uri_spec callback). split; [by vm_compute|]. exists callback.
    split_and!; [reflexivity..|]. right. split; [reflexivity|]. exists "127.0.0.1"%string.
    split; [reflexivity|by right].
Defined.
End OAuthWitness.
