(* ===== verification/RepositoryKey.v ===== *)
(** The repository identity of a workspace: src/src/observation/repository.rs.

    The key is read off the Git configuration of the workspace: the one
    [remote.origin.url] of the file, canonicalised when it names a known forge.
    Finding the configuration file is the sandbox's work and a parameter: a
    [GitConfigFile] is what opening and reading it gives.  A slice of a string
    that Rust refuses ([&s[i..j]] with [j < i]) is the error of a [result]. *)

From S2P Require Import Prelude Strings.

Definition MAX_GIT_CONFIG_BYTES : Z := 1024 * 1024.
Definition MAX_REPOSITORY_KEY_BYTES : Z := 512.
Definition MAX_REPOSITORY_PATH_SEGMENTS : Z := 64.

Definition quote : ascii := "034".
Definition quote_str : string := String quote EmptyString.

(** [&s[from..to]]; a panic when the range is reversed or too long. *)
Definition str_slice (s : string) (from to : Z) : result string string :=
  if (from <=? to) && (to <=? str_len s)
  then Ok (String.substring (Z.to_nat from) (Z.to_nat (to - from)) s)
  else Err "slice index out of order"%string.

(** * The configuration file *)

Record GitConfigFile : Type := mkGitConfigFile {
  gc_is_file : bool;
  gc_metadata_len : Z;
  gc_bytes : string;
}.

(** [None] for a file that cannot be opened, read or decoded. *)
Definition read_git_config (file : option GitConfigFile) : option string :=
  match file with
  | None => None
  | Some f =>
      if negb (gc_is_file f) || (MAX_GIT_CONFIG_BYTES <? gc_metadata_len f) then None
      else
        let bytes := String.substring 0 (Z.to_nat (MAX_GIT_CONFIG_BYTES + 1)) (gc_bytes f) in
        if MAX_GIT_CONFIG_BYTES <? str_len bytes then None
        else if utf8_valid (str_bytes bytes) then Some bytes else None
  end.

(** * The origin URL *)

Definition parse_simple_git_config_value (value : string) : option string :=
  if str_is_empty value || contains_any [10; 13; 0] value then None
  else match str_strip_prefix quote_str value with
  | Some inner =>
      match str_strip_suffix quote_str inner with
      | None => None
      | Some inner => if contains_any [34; 92] inner then None else Some inner
      end
  | None =>
      if existsb is_whitespace (chars value) || contains_any [35; 59; 34; 92] value then None
      else Some value
  end.

(** The section a header opens. *)
Definition section_of_header (header : string) : result string string :=
  let otherwise :=
    if eq_ignore_ascii_case header "extensions" then Ok "extensions"%string
    else Ok "other"%string in
  match split_once " " header with
  | Some (name, subsection) =>
      if eq_ignore_ascii_case name "remote" && starts_with quote_str subsection
         && ends_with quote_str subsection
      then
        let! inner := str_slice subsection 1 (str_len subsection - 1) in
        if String.eqb inner "origin" then Ok "origin"%string else otherwise
      else otherwise
  | None => otherwise
  end.

(** The body of the loop: go on with a section and the URL found so far, or
    return [None]. *)
Inductive LineStep : Type :=
| NextLine (section : string) (origin : option string)
| ReturnNone.

(** [value.split(['#', ';']).next()]. *)
Fixpoint before_comment (s : string) : string :=
  match s with
  | EmptyString => EmptyString
  | String c rest =>
      if Ascii.eqb c "#" || Ascii.eqb c ";" then EmptyString else String c (before_comment rest)
  end.

Definition config_header (line : string) (origin : option string) : result string LineStep :=
  let lower := to_ascii_lowercase line in
  if starts_with "[include" lower || starts_with "[url " lower then Ok ReturnNone
  else match h ← str_strip_prefix "[" line; str_strip_suffix "]" h with
  | None => Ok ReturnNone
  | Some header =>
      let! section := section_of_header (trim header) in
      Ok (NextLine section origin)
  end.

Definition config_entry (section : string) (origin : option string) (line : string) : LineStep :=
  let '(key, value) := default (line, EmptyString) (split_once "=" line) in
  let key := to_ascii_lowercase (trim key) in
  if String.eqb key "insteadof" then ReturnNone
  else
    let boolean_value := to_ascii_lowercase (trim (before_comment value)) in
    if String.eqb section "extensions" && String.eqb key "worktreeconfig"
       && negb (bool_decide (boolean_value ∈ ["false"; "no"; "off"; "0"]%string))
    then ReturnNone
    else if negb (String.eqb section "origin") || negb (String.eqb key "url")
    then NextLine section origin
    else match parse_simple_git_config_value (trim value) with
    | None => ReturnNone
    | Some value => if is_some origin then ReturnNone else NextLine section (Some value)
    end.

Definition config_line (section : string) (origin : option string) (raw_line : string) :
    result string LineStep :=
  let line := trim raw_line in
  if str_is_empty line || starts_with "#" line || starts_with ";" line
  then Ok (NextLine section origin)
  else if starts_with "[" line then config_header line origin
  else Ok (config_entry section origin line).

Fixpoint origin_url_lines (section : string) (origin : option string) (l : list string) :
    result string (option string) :=
  match l with
  | [] => Ok origin
  | raw_line :: rest =>
      let! step := config_line section origin raw_line in
      match step with
      | ReturnNone => Ok None
      | NextLine section origin => origin_url_lines section origin rest
      end
  end.

Definition origin_url (config : string) : result string (option string) :=
  origin_url_lines EmptyString None (lines config).

(** * The forge key *)

Definition remote_parts (remote : string) : option (string * string) :=
  match str_strip_prefix "git@" remote with
  | Some rest =>
      '(host, path) ← split_once ":" rest;
      if str_is_empty host || contains_any [64; 47; 58] host then None
      else Some (to_ascii_lowercase host, path)
  | None =>
      '(scheme, after_scheme) ← split_once_str "://" remote;
      if negb (bool_decide (scheme ∈ ["https"; "ssh"]%string))
         || contains_any [37; 63; 35; 92; 0] remote then None
      else
        '(authority, raw_path) ← split_once "/" after_scheme;
        if str_is_empty authority || contains_any [47; 63; 35; 37; 92; 0] authority then None
        else if existsb (fun segment => String.eqb segment "." || String.eqb segment "..")
                  (split_on "/" raw_path) then None
        else
          host ← (if String.eqb scheme "https" && negb (contains_any [64; 58] authority)
                  then Some authority
                  else if String.eqb scheme "ssh" then str_strip_prefix "git@" authority
                  else None);
          if str_is_empty host || contains_any [64; 47; 58; 91; 93] host then None
          else Some (to_ascii_lowercase host, raw_path)
  end.

(** The last segment without a trailing [".git"]. *)
Fixpoint strip_git (segments : list string) : list string :=
  match segments with
  | [] => []
  | [s] => [default s (str_strip_suffix ".git" s)]
  | s :: rest => s :: strip_git rest
  end.

Definition segment_byte (c : Z) : bool :=
  is_ascii_alphanumeric c || (c =? 45) || (c =? 95) || (c =? 46).

Definition segment_ok (segment : string) : bool :=
  negb (str_is_empty segment) && negb (String.eqb segment ".") && negb (String.eqb segment "..")
  && forallb segment_byte (chars segment).

(** The forge of a host and the number of segments of its paths. *)
Definition forge_of_host (host : string) : option (string * Z * Z) :=
  match_str host [("github.com", ("github", 2, 2));
                  ("gitlab.com", ("gitlab", 2, U64_MAX));
                  ("bitbucket.org", ("bitbucket", 2, 2))]%string.

Definition forge_key_of (host path : string) : option string :=
  if str_is_empty path || starts_with "/" path || ends_with "/" path || contains_any [37] path
  then None
  else
    let segments := strip_git (map to_ascii_lowercase (split_on "/" path)) in
    if negb (forallb segment_ok segments) then None
    else
      '(forge, min_segments, max_segments) ← forge_of_host host;
      if (zlen segments <? min_segments) || (max_segments <? zlen segments) then None
      else if MAX_REPOSITORY_PATH_SEGMENTS <? zlen segments then None
      else
        let key := forge +:+ ":" +:+ join_strings "/" segments in
        if str_len key <=? MAX_REPOSITORY_KEY_BYTES then Some key else None.

Definition canonical_forge_key (remote : string) : option string :=
  '(host, path) ← remote_parts remote; forge_key_of host path.

(** [repository_key_for_workspace] from the configuration file that the
    workspace's Git metadata leads to, if it leads to one. *)
Definition repository_key_of_config (file : option GitConfigFile) : result string (option string) :=
  match read_git_config file with
  | None => Ok None
  | Some config =>
      let! origin := origin_url config in
      Ok (url ← origin; canonical_forge_key url)
  end.
