(* ===== verification/RepositoryKeyTheorems.v ===== *)
(** Theorems about RepositoryKey.v: what a repository key can contain, that the
    forms of a remote agree, and when the configuration names an origin. *)

From S2P Require Import Prelude Strings Utf8 RepositoryKey.

(** * Segments *)

Definition key_char (b : Z) : bool := segment_byte b && negb (in_range 65 90 b).

(** A path segment of a key: lower-case letters, digits, ['-'], ['_'] and ['.'],
    and not a relative one. *)
Definition canonical_segment (s : string) : Prop :=
  s <> EmptyString /\ s <> "."%string /\ s <> ".."%string
  /\ Forall (fun b => key_char b = true) (str_bytes s).

Lemma segment_byte_ascii (c : Z) : segment_byte c = true -> c < 128.
Proof. unfold segment_byte, is_ascii_alphanumeric, is_ascii_digit. rust_norm. lia. Qed.

Lemma key_char_not (b c : Z) : key_char b = true -> key_char c = false -> b <> c.
Proof. congruence. Qed.

Lemma segment_ok_canonical (s : string) :
  utf8_valid (str_bytes s) = true -> Forall (fun b => in_range 65 90 b = false) (str_bytes s) ->
  segment_ok s = true -> canonical_segment s.
Proof.
  intros Hv Hl. unfold segment_ok. rewrite !andb_true_iff, !negb_true_iff, !String.eqb_neq.
  intros [[[He H1] H2] Hb]. split; [by intros ->|]. split; [done|]. split; [done|].
  apply (forallb_chars_bytes _ _ segment_byte_ascii Hv) in Hb.
  eapply Forall_impl; [apply Forall_and; split; [exact Hb|exact Hl]|].
  intros b [Hb1 Hb2]. unfold key_char. by rewrite Hb1, Hb2.
Qed.

Lemma canonical_segment_ok (s : string) : canonical_segment s -> segment_ok s = true.
Proof.
  intros (He & H1 & H2 & Hb). unfold segment_ok. rewrite !andb_true_iff, !negb_true_iff, !String.eqb_neq.
  split_and!; [by destruct s|done..|]. unfold chars.
  assert (Hs : Forall (fun b => segment_byte b = true) (str_bytes s)).
  { eapply Forall_impl; [exact Hb|]. intros b. unfold key_char. by intros [? _]%andb_true_iff. }
  rewrite utf8_decode_id.
  - apply forallb_forall. rewrite Forall_forall in Hs. intros x Hx. by apply Hs, list_elem_of_In.
  - eapply Forall_impl; [exact Hs|]. apply segment_byte_ascii.
Qed.

(** [strip_git] only shortens the last segment. *)
Lemma strip_git_prefix (l : list string) (s : string) :
  s ∈ strip_git l -> exists t, t ∈ l /\ (t = s \/ t = s +:+ ".git").
Proof.
  induction l as [|x l IH]; [by intros ?%elem_of_nil|].
  destruct l as [|y l].
  - simpl. intros ->%list_elem_of_singleton. exists x. split; [left|].
    destruct (str_strip_suffix ".git" x) as [p|] eqn:Hp; [|by left].
    right. by apply str_strip_suffix_Some in Hp.
  - change (strip_git (x :: y :: l)) with (x :: strip_git (y :: l)).
    intros [->|Hs]%elem_of_cons; [exists x; split; [left|by left]|].
    destruct (IH Hs) as (t & Ht & He). exists t. split; [by right|done].
Qed.

Lemma strip_git_last (pre : list string) (x : string) :
  strip_git (pre ++ [x +:+ ".git"]) = pre ++ [x].
Proof.
  induction pre as [|p pre IH]; simpl.
  - change (String.append x ".git") with (x +:+ ".git"). by rewrite str_strip_suffix_app.
  - rewrite <- IH. by destruct pre.
Qed.

Lemma strip_git_length (l : list string) : length (strip_git l) = length l.
Proof. induction l as [|x [|y l] IH]; [done..|]. simpl in *. by rewrite IH. Qed.

Definition path_segments (path : string) : list string :=
  strip_git (map to_ascii_lowercase (split_on "/" path)).

Lemma path_segments_canonical (path : string) :
  utf8_valid (str_bytes path) = true -> forallb segment_ok (path_segments path) = true ->
  Forall canonical_segment (path_segments path).
Proof.
  intros Hv Hok. apply Forall_forall. intros s Hs.
  assert (Hseg : segment_ok s = true).
  { by apply (proj1 (forallb_forall _ _) Hok), list_elem_of_In. }
  apply strip_git_prefix in Hs as (t & Ht & Hst). apply elem_of_map_inv in Ht as (p & Hp & ->).
  pose proof (split_on_valid "/" path ltac:(done) Hv) as Hvp. rewrite Forall_forall in Hvp.
  specialize (Hvp _ Hp). pose proof (lower_not_upper p) as Hup.
  rewrite <- utf8_valid_lower, <- to_ascii_lowercase_bytes in Hvp.
  apply segment_ok_canonical; [| |done].
  - destruct Hst as [<-|Hst]; [exact Hvp|]. rewrite Hst, str_bytes_app in Hvp.
    change (str_bytes ".git") with ([] ++ 46 :: str_bytes "git") in Hvp.
    by apply utf8_valid_cut in Hvp as [? _].
  - destruct Hst as [<-|Hst]; [done|]. rewrite Hst, str_bytes_app in Hup.
    by apply Forall_app in Hup as [? _].
Qed.

Lemma join_split (sep : ascii) (s : string) :
  join_strings (String sep EmptyString) (split_on sep s) = s.
Proof.
  unfold join_strings. induction s as [|c s IH]; [done|]. cbn [split_on].
  destruct (Ascii.eqb_spec c sep) as [->|_].
  - pose proof (split_on_nonempty sep s). destruct (split_on sep s) as [|p l]; [done|].
    change (String.concat ?x (EmptyString :: p :: l)) with (x +:+ String.concat x (p :: l)).
    by rewrite IH.
  - destruct (split_on sep s) as [|p l] eqn:Hs; [by apply split_on_nonempty in Hs|].
    destruct l as [|q l]; simpl in IH |- *; [by subst|].
    change (String.append (String c p) ?x) with (String c (String.append p x)). by f_equal.
Qed.

(** * The key of a path *)

Definition forges : list (string * string) :=
  [("github.com", "github"); ("gitlab.com", "gitlab"); ("bitbucket.org", "bitbucket")]%string.

Definition forge_lengths (forge : string) (n : Z) : Prop :=
  2 <= n <= MAX_REPOSITORY_PATH_SEGMENTS /\ (forge <> "gitlab"%string -> n = 2).

(** What a key is made of. *)
Definition key_made_of (host : string) (segs : list string) (k : string) : Prop :=
  exists forge, (host, forge) ∈ forges /\ k = forge +:+ ":" +:+ join_strings "/" segs
  /\ Forall canonical_segment segs /\ forge_lengths forge (zlen segs)
  /\ str_len k <= MAX_REPOSITORY_KEY_BYTES.

Lemma forge_of_host_Some (host forge : string) (lo hi n : Z) :
  forge_of_host host = Some (forge, lo, hi) ->
  (host, forge) ∈ forges
  /\ ((n <? lo) || (hi <? n) = false -> n <= MAX_REPOSITORY_PATH_SEGMENTS -> forge_lengths forge n).
Proof.
  unfold forge_of_host, forge_lengths. simpl.
  rewrite orb_false_iff, Z.ltb_ge, Z.ltb_ge. unfold forges.
  destruct (String.eqb_spec host "github.com") as [->|_]; [intros [= <- <- <-]|].
  { split; [by left|]. intros; split; [lia|intros; lia]. }
  destruct (String.eqb_spec host "gitlab.com") as [->|_]; [intros [= <- <- <-]|].
  { split; [by right; left|]. intros; split; [lia|done]. }
  destruct (String.eqb_spec host "bitbucket.org") as [->|_]; [intros [= <- <- <-]|done].
  split; [by right; right; left|]. intros; split; [lia|intros; lia].
Qed.

Lemma forge_key_of_spec (host path k : string) :
  utf8_valid (str_bytes path) = true -> forge_key_of host path = Some k ->
  key_made_of host (path_segments path) k.
Proof.
  intros Hv. unfold forge_key_of. cbv zeta. fold (path_segments path).
  destruct (_ || contains_any _ _); [done|].
  destruct (forallb segment_ok (path_segments path)) eqn:Hseg; [|done]. simpl.
  destruct (forge_of_host host) as [[[forge lo] hi]|] eqn:Hf; [|done]. simpl.
  destruct ((_ <? _) || _) eqn:Hlen; [done|].
  destruct (Z.ltb_spec MAX_REPOSITORY_PATH_SEGMENTS (zlen (path_segments path))); [done|].
  destruct (Z.leb_spec (str_len (forge +:+ ":" +:+ join_strings "/" (path_segments path)))
              MAX_REPOSITORY_KEY_BYTES) as [Hk|]; [|done]. intros [= <-].
  destruct (forge_of_host_Some _ _ _ _ (zlen (path_segments path)) Hf) as [Hin Hl].
  exists forge. split; [done|]. split; [done|]. split; [by apply path_segments_canonical|].
  split; [by apply Hl|done].
Qed.

(** * The canonical path of a key *)

Lemma join_snoc (pre : list string) (x y : string) :
  join_strings "/" (pre ++ [x]) +:+ y = join_strings "/" (pre ++ [x +:+ y]).
Proof.
  unfold join_strings. induction pre as [|p pre IH]; [done|]. destruct pre as [|q pre].
  - simpl. by rewrite !string_app_assoc.
  - change ((p :: q :: pre) ++ [x]) with (p :: q :: (pre ++ [x])).
    change ((p :: q :: pre) ++ [x +:+ y]) with (p :: q :: (pre ++ [x +:+ y])).
    change (String.concat "/" (p :: q :: ?l)) with (p +:+ "/" +:+ String.concat "/" (q :: l)).
    rewrite !string_app_assoc. do 2 f_equal. exact IH.
Qed.

Lemma canonical_bytes (P : Z -> Prop) (s : string) :
  (forall b, key_char b = true -> P b) -> canonical_segment s -> Forall P (str_bytes s).
Proof. intros HP (_ & _ & _ & Hs). eapply Forall_impl; [exact Hs|exact HP]. Qed.

Lemma key_char_git (P : Z -> Prop) :
  (forall b, key_char b = true -> P b) -> Forall P (str_bytes ".git").
Proof. intros HP. repeat constructor; by apply HP. Qed.

Lemma path_segments_join (segs : list string) :
  segs <> [] -> Forall canonical_segment segs ->
  path_segments (join_strings "/" segs +:+ ".git") = segs.
Proof.
  intros Hne Hs. destruct (exists_last Hne) as (pre & x & ->). rewrite join_snoc. unfold path_segments.
  apply Forall_app in Hs as [Hpre Hx]. apply Forall_cons in Hx as [Hx _].
  assert (Hall : forall P, (forall b, key_char b = true -> P b) ->
            Forall (fun s => Forall P (str_bytes s)) (pre ++ [x +:+ ".git"])).
  { intros P HP. apply Forall_app. split.
    - eapply Forall_impl; [exact Hpre|]. intros s. by apply canonical_bytes.
    - constructor; [|constructor]. rewrite str_bytes_app. apply Forall_app.
      split; [by apply canonical_bytes|by apply key_char_git]. }
  rewrite split_on_join.
  - assert (Hlow : map to_ascii_lowercase (pre ++ [x +:+ ".git"]) = pre ++ [x +:+ ".git"]).
    { specialize (Hall (fun b => in_range 65 90 b = false)).
      assert (HH : forall b, key_char b = true -> in_range 65 90 b = false).
      { intros b. unfold key_char. by intros [_ ?%negb_true_iff]%andb_true_iff. }
      specialize (Hall HH). induction Hall as [|s l Hs _ IH]; [done|]. simpl.
      by rewrite IH, to_ascii_lowercase_id. }
    by rewrite Hlow, strip_git_last.
  - by destruct pre.
  - eapply Forall_impl; [apply (Hall (fun b => b <> 47))|].
    + intros b Hb ->. by vm_compute in Hb.
    + intros s Hb Hin. rewrite Forall_forall in Hb. by apply (Hb _ Hin).
Qed.

Lemma join_canonical_bytes (P : Z -> Prop) (segs : list string) :
  (forall b, key_char b = true -> P b) -> P 47 -> Forall canonical_segment segs ->
  Forall P (str_bytes (join_strings "/" segs +:+ ".git")).
Proof.
  intros HP Hslash Hs. rewrite str_bytes_app. apply Forall_app. split; [|by apply key_char_git].
  apply join_bytes; [by repeat constructor|]. eapply Forall_impl; [exact Hs|].
  intros s. by apply canonical_bytes.
Qed.

Lemma ends_with_app (s t : string) (x : ascii) :
  ends_with (String x EmptyString) (s +:+ t) = true -> t <> EmptyString -> byte_of x ∈ str_bytes t.
Proof.
  unfold ends_with. destruct (str_strip_suffix _ _) as [p|] eqn:Hp; [|done]. intros _ Ht.
  apply str_strip_suffix_Some in Hp. apply (f_equal str_bytes) in Hp. rewrite !str_bytes_app in Hp.
  change (str_bytes (String x EmptyString)) with [byte_of x] in Hp.
  destruct (exists_last (l := str_bytes t)) as (l & y & Hl); [by destruct t|].
  rewrite Hl, app_assoc in Hp. apply app_inj_tail in Hp as [_ <-]. rewrite Hl. set_solver.
Qed.

Lemma forge_key_of_canonical (host k : string) (segs : list string) :
  key_made_of host segs k -> forge_key_of host (join_strings "/" segs +:+ ".git") = Some k.
Proof.
  intros (forge & Hin & -> & Hs & [Hlen Hl2] & Hk).
  assert (Hne : segs <> []) by (intros ->; unfold zlen in Hlen; simpl in Hlen; lia).
  unfold forge_key_of. cbv zeta. fold (path_segments (join_strings "/" segs +:+ ".git")).
  rewrite (path_segments_join _ Hne Hs).
  assert (Hc : (str_is_empty (join_strings "/" segs +:+ ".git")
                || starts_with "/" (join_strings "/" segs +:+ ".git")
                || ends_with "/" (join_strings "/" segs +:+ ".git")
                || contains_any [37] (join_strings "/" segs +:+ ".git")) = false).
  { rewrite !orb_false_iff. split_and!.
    - unfold str_is_empty. rewrite str_len_append. change (str_len ".git") with 4.
      pose proof (str_len_nonneg (join_strings "/" segs)). apply Z.eqb_neq. lia.
    - destruct segs as [|s l]; [done|]. apply Forall_cons in Hs as [(He & _ & _ & Hb) _].
      destruct s as [|c s]; [done|]. rewrite str_bytes_cons in Hb. apply Forall_cons in Hb as [Hb _].
      assert (Hcc : c <> "/"%char) by (intros ->; by vm_compute in Hb).
      assert (E : exists r, join_strings "/" (String c s :: l) +:+ ".git" = String c r)
        by (destruct l; eexists; reflexivity).
      destruct E as [r ->]. unfold starts_with. cbn [String.prefix]. destruct (ascii_dec "/" c) as [<-|_]; [by destruct Hcc|done].
    - apply not_true_iff_false. intros He%ends_with_app; [|done]. vm_compute in He.
      repeat (apply elem_of_cons in He as [He|He]; [done|]). by apply elem_of_nil in He.
    - apply contains_any_false, join_canonical_bytes; [| |done].
      + intros b Hb ->%list_elem_of_singleton. by vm_compute in Hb.
      + by intros ?%list_elem_of_singleton. }
  rewrite Hc. assert (Hok : forallb segment_ok segs = true).
  { apply forallb_forall. rewrite Forall_forall in Hs. intros s Hin'.
    by apply canonical_segment_ok, Hs, list_elem_of_In. }
  rewrite Hok. simpl. unfold MAX_REPOSITORY_PATH_SEGMENTS in *.
  unfold forges in Hin. rewrite !elem_of_cons in Hin.
  destruct Hin as [[= -> ->]|[[= -> ->]|[[= -> ->]|Hin]]]; [| | |by apply elem_of_nil in Hin];
    unfold forge_of_host; simpl.
  - specialize (Hl2 ltac:(done)). rewrite Hl2. simpl.
    by rewrite (proj2 (Z.leb_le _ _) Hk).
  - destruct (Z.ltb_spec (zlen segs) 2); [lia|]. destruct (Z.ltb_spec U64_MAX (zlen segs)).
    { unfold U64_MAX in *. lia. }
    simpl. destruct (Z.ltb_spec 64 (zlen segs)); [lia|]. by rewrite (proj2 (Z.leb_le _ _) Hk).
  - specialize (Hl2 ltac:(done)). rewrite Hl2. simpl.
    by rewrite (proj2 (Z.leb_le _ _) Hk).
Qed.

(** * The forms of a remote *)

Definition clean_host (host : string) : Prop :=
  host <> EmptyString /\ contains_any [64; 47; 58] host = false.

Definition scp_remote (host path : string) : string := "git@" +:+ host +:+ ":" +:+ path.
Definition https_remote (host path : string) : string := "https://" +:+ host +:+ "/" +:+ path.
Definition ssh_remote (host path : string) : string := "ssh://git@" +:+ host +:+ "/" +:+ path.

Definition url_refused (host path : string) : bool :=
  contains_any [37; 63; 35; 92; 0] path
  || existsb (fun s => String.eqb s "." || String.eqb s "..") (split_on "/" path)
  || contains_any [37; 63; 35; 92; 0; 91; 93] host.

Lemma contains_any_In (cs : list Z) (s : string) :
  contains_any cs s = true <-> exists b, b ∈ str_bytes s /\ b ∈ cs.
Proof.
  unfold contains_any. rewrite existsb_exists. split.
  - intros (b & Hb & (c & Hc & ->%Z.eqb_eq)%existsb_exists). exists c.
    by rewrite !list_elem_of_In.
  - intros (b & Hb%list_elem_of_In & Hc%list_elem_of_In). exists b. split; [done|].
    apply existsb_exists. exists b. split; [done|]. apply Z.eqb_refl.
Qed.

Lemma clean_host_no (host : string) (c : ascii) :
  clean_host host -> byte_of c ∈ [64; 47; 58] -> byte_of c ∉ str_bytes host.
Proof.
  intros [_ Hh] Hc Hin. apply not_true_iff_false in Hh. apply Hh, contains_any_In. by eauto.
Qed.

Lemma str_is_empty_false (s : string) : s <> EmptyString -> str_is_empty s = false.
Proof. by destruct s. Qed.

Lemma scp_parts (host path : string) :
  clean_host host -> remote_parts (scp_remote host path) = Some (to_ascii_lowercase host, path).
Proof.
  intros Hh. unfold remote_parts, scp_remote. rewrite str_strip_prefix_app.
  change (":" +:+ path) with (String ":" path).
  rewrite split_once_app by (apply clean_host_no; [done|set_solver]). cbn.
  destruct Hh as [Hne ->]. by rewrite str_is_empty_false.
Qed.

Lemma contains_any_list_app (cs cs' : list Z) (s : string) :
  contains_any (cs ++ cs') s = contains_any cs s || contains_any cs' s.
Proof.
  apply eq_true_iff_eq. rewrite orb_true_iff, !contains_any_In. set_solver.
Qed.

Lemma url_refused_split (host path : string) :
  url_refused host path
  = contains_any [37; 63; 35; 92; 0] host || contains_any [37; 63; 35; 92; 0] path
    || existsb (fun s => String.eqb s "." || String.eqb s "..") (split_on "/" path)
    || contains_any [91; 93] host.
Proof.
  unfold url_refused.
  change [37; 63; 35; 92; 0; 91; 93] with ([37; 63; 35; 92; 0] ++ [91; 93]).
  rewrite contains_any_list_app. set (a := contains_any _ path). set (b := contains_any _ host).
  set (c := contains_any [91; 93] host). destruct a, b, c, (existsb _ _); reflexivity.
Qed.

(** What both URL forms do after their scheme. *)
Lemma url_host_parts (host path : string) (b0 : bool) :
  clean_host host -> b0 = contains_any [37; 63; 35; 92; 0] host || contains_any [37; 63; 35; 92; 0] path ->
  (if b0 then None
   else if existsb (fun s => String.eqb s "." || String.eqb s "..") (split_on "/" path) then None
   else if str_is_empty host || contains_any [64; 47; 58; 91; 93] host then None
   else Some (to_ascii_lowercase host, path))
  = if url_refused host path then None else Some (to_ascii_lowercase host, path).
Proof.
  intros [Hne Hh] ->. rewrite url_refused_split, (str_is_empty_false _ Hne).
  change [64; 47; 58; 91; 93] with ([64; 47; 58] ++ [91; 93]).
  rewrite contains_any_list_app, Hh. simpl.
  by destruct (contains_any _ host || contains_any _ path), (existsb _ _), (contains_any [91; 93] host).
Qed.

Lemma clean_host_subset (cs : list Z) (host : string) :
  clean_host host -> (forall c, c ∈ cs -> c ∈ [64; 47; 58]) -> contains_any cs host = false.
Proof.
  intros [_ Hh] Hcs. apply not_true_iff_false in Hh. apply not_true_iff_false.
  rewrite contains_any_In in Hh |- *. intros (b & Hb & Hc). apply Hh. exists b. auto.
Qed.

Lemma authority_clean (host : string) :
  clean_host host -> contains_any [37; 63; 35; 92; 0] host = false ->
  contains_any [47; 63; 35; 37; 92; 0] host = false.
Proof.
  intros Hh Hb. pose proof (clean_host_subset [47] host Hh ltac:(set_solver)) as H47.
  apply not_true_iff_false. apply not_true_iff_false in Hb, H47.
  rewrite contains_any_In in Hb, H47 |- *. intros (b & Hin & Hc).
  destruct (decide (b = 47)) as [->|]; [apply H47; exists 47; set_solver|].
  apply Hb. exists b. set_solver.
Qed.

Lemma https_parts (host path : string) :
  clean_host host ->
  remote_parts (https_remote host path)
  = if url_refused host path then None else Some (to_ascii_lowercase host, path).
Proof.
  intros Hh. rewrite <- (url_host_parts host path _ Hh eq_refl). unfold remote_parts, https_remote.
  change ("/" +:+ path) with (String "/" path).
  set (rest := host +:+ String "/" path).
  change (str_strip_prefix "git@" ("https://" +:+ rest)) with (@None string). cbv iota.
  change ("https://" +:+ rest) with ("https" +:+ "://" +:+ rest).
  rewrite split_once_str_app by (vm_compute; set_solver).
  cbn [mbind option_bind]. rewrite bool_decide_true by set_solver. cbn [negb orb].
  rewrite !contains_any_app. change (contains_any [37; 63; 35; 92; 0] "https") with false.
  change (contains_any [37; 63; 35; 92; 0] "://") with false. cbn [orb].
  unfold rest at 1. rewrite contains_any_app, contains_any_cons. change (byte_of "/") with 47. cbn [existsb orb Z.eqb Pos.eqb].
  destruct (contains_any [37; 63; 35; 92; 0] host) eqn:Hbad; [done|]. cbn [orb].
  destruct (contains_any [37; 63; 35; 92; 0] path); [done|]. unfold rest.
  rewrite split_once_app by (apply clean_host_no; [done|set_solver]). cbn [mbind option_bind].
  cbn -[contains_any split_on to_ascii_lowercase].
  rewrite (str_is_empty_false host (proj1 Hh)), (authority_clean host) by done. cbn.
  destruct (existsb _ _); [done|]. rewrite (clean_host_subset [64; 58]) by (done || set_solver).
  cbn [negb mbind option_bind]. by rewrite (str_is_empty_false host (proj1 Hh)).
Qed.

Lemma ssh_parts (host path : string) :
  clean_host host ->
  remote_parts (ssh_remote host path)
  = if url_refused host path then None else Some (to_ascii_lowercase host, path).
Proof.
  intros Hh. rewrite <- (url_host_parts host path _ Hh eq_refl). unfold remote_parts, ssh_remote.
  change ("/" +:+ path) with (String "/" path).
  change ("ssh://git@" +:+ ?x) with ("ssh" +:+ "://" +:+ "git@" +:+ x).
  set (rest := "git@" +:+ host +:+ String "/" path).
  change (str_strip_prefix "git@" ("ssh" +:+ "://" +:+ rest)) with (@None string). cbv iota.
  rewrite split_once_str_app by (vm_compute; set_solver).
  cbn [mbind option_bind]. rewrite bool_decide_true by set_solver. cbn [negb orb].
  rewrite !contains_any_app. change (contains_any [37; 63; 35; 92; 0] "ssh") with false.
  change (contains_any [37; 63; 35; 92; 0] "://") with false. cbn [orb].
  unfold rest at 1. rewrite !contains_any_app, (contains_any_cons _ "/").
  change (contains_any [37; 63; 35; 92; 0] "git@") with false. change (byte_of "/") with 47.
  cbn [existsb orb Z.eqb Pos.eqb].
  destruct (contains_any [37; 63; 35; 92; 0] host) eqn:Hbad; [done|]. cbn [orb].
  destruct (contains_any [37; 63; 35; 92; 0] path); [done|]. unfold rest.
  rewrite <- string_app_assoc, split_once_app.
  2: { rewrite str_bytes_app. intros [Hg|Hg]%elem_of_app; [vm_compute in Hg; set_solver|].
       revert Hg. apply clean_host_no; [done|set_solver]. }
  cbn -[contains_any split_on to_ascii_lowercase String.append str_strip_prefix].
  assert (He : str_is_empty ("git@" +:+ host) = false) by done.
  rewrite He, contains_any_app, (authority_clean host) by done. cbn [orb].
  destruct (existsb _ _); [done|]. rewrite str_strip_prefix_app. cbn [mbind option_bind].
  by destruct Hh.
Qed.

(** What the URL forms refuse has no key in the other form either. *)
Lemma lower_fixed (s : string) (c : Z) :
  lower_byte c = c -> c ∈ str_bytes s -> c ∈ str_bytes (to_ascii_lowercase s).
Proof.
  intros Hc Hin. rewrite to_ascii_lowercase_bytes. rewrite <- Hc. by apply elem_of_map.
Qed.

Lemma forge_host_clean (host : string) :
  forge_of_host host <> None -> contains_any [37; 63; 35; 92; 0; 91; 93] host = false.
Proof.
  unfold forge_of_host. simpl.
  destruct (String.eqb_spec host "github.com") as [->|_]; [done|].
  destruct (String.eqb_spec host "gitlab.com") as [->|_]; [done|].
  by destruct (String.eqb_spec host "bitbucket.org") as [->|_].
Qed.

Lemma refused_host (host path : string) :
  contains_any [37; 63; 35; 92; 0; 91; 93] host = true ->
  forge_key_of (to_ascii_lowercase host) path = None.
Proof.
  intros (c & Hin & Hc)%contains_any_In. unfold forge_key_of. cbv zeta.
  destruct (_ || _); [done|]. destruct (negb _); [done|].
  destruct (forge_of_host _) as [[[f lo] hi]|] eqn:Hf; [|done]. exfalso.
  pose proof (forge_host_clean (to_ascii_lowercase host)) as H. rewrite Hf in H.
  specialize (H ltac:(done)). apply not_true_iff_false in H. apply H, contains_any_In.
  exists c. split; [|done]. apply lower_fixed; [|done].
  repeat (apply elem_of_cons in Hc as [->|Hc]; [done|]). by apply elem_of_nil in Hc.
Qed.

Lemma strip_git_keeps (l : list string) (t : string) :
  t ∈ l -> exists s, s ∈ strip_git l /\ (t = s \/ t = s +:+ ".git").
Proof.
  intros Ht. induction l as [|x l IH]; [by apply elem_of_nil in Ht|].
  destruct l as [|y l].
  - apply list_elem_of_singleton in Ht as ->. simpl.
    destruct (str_strip_suffix ".git" x) as [p|] eqn:Hp.
    + apply str_strip_suffix_Some in Hp. exists p. split; [left|by right].
    + exists x. split; [left|by left].
  - change (strip_git (x :: y :: l)) with (x :: strip_git (y :: l)).
    apply elem_of_cons in Ht as [->|Ht]; [exists x; split; [left|by left]|].
    destruct (IH Ht) as (s & Hs & He). exists s. split; [by right|done].
Qed.

Lemma segments_ok_path (path : string) :
  utf8_valid (str_bytes path) = true -> forallb segment_ok (path_segments path) = true ->
  Forall (fun b => key_char (lower_byte b) = true \/ b = 47) (str_bytes path)
  /\ existsb (fun s => String.eqb s "." || String.eqb s "..") (split_on "/" path) = false.
Proof.
  intros Hv Hok. pose proof (path_segments_canonical _ Hv Hok) as Hc. rewrite Forall_forall in Hc.
  assert (Hseg : forall p, p ∈ split_on "/" path -> exists s, canonical_segment s
            /\ (to_ascii_lowercase p = s \/ to_ascii_lowercase p = s +:+ ".git")).
  { intros p Hp. apply (elem_of_map to_ascii_lowercase) in Hp.
    destruct (strip_git_keeps _ _ Hp) as (s & Hs & He). exists s. split; [by apply Hc|done]. }
  split.
  - rewrite <- (join_split "/" path). apply join_bytes; [by repeat constructor; right|].
    apply Forall_forall. intros p Hp. destruct (Hseg p Hp) as (s & (_ & _ & _ & Hb) & He).
    assert (Hl : Forall (fun b => key_char b = true) (str_bytes (to_ascii_lowercase p))).
    { destruct He as [-> | ->]; [done|]. rewrite str_bytes_app. apply Forall_app.
      split; [done|by repeat constructor]. }
    rewrite to_ascii_lowercase_bytes, Forall_map in Hl.
    eapply Forall_impl; [exact Hl|]. intros b Hb'. by left.
  - apply not_true_iff_false. rewrite existsb_exists. intros (p & Hp%list_elem_of_In & Hd).
    destruct (Hseg p Hp) as (s & (_ & H1 & H2 & _) & He).
    assert (Hlen : forall x, s +:+ ".git" = x -> (4 <= String.length x)%nat).
    { intros x <-. rewrite string_length_app. simpl. lia. }
    apply orb_true_iff in Hd as [->%String.eqb_eq| ->%String.eqb_eq]; simpl in He;
      (destruct He as [He|He]; [by symmetry in He|]); symmetry in He; apply Hlen in He; simpl in He; lia.
Qed.

Lemma refused_none (host path : string) :
  utf8_valid (str_bytes path) = true -> url_refused host path = true ->
  forge_key_of (to_ascii_lowercase host) path = None.
Proof.
  intros Hv. unfold url_refused. rewrite !orb_true_iff. intros [Hp|Hh]; [|by apply refused_host].
  unfold forge_key_of. cbv zeta. fold (path_segments path). destruct (_ || _); [done|].
  destruct (forallb segment_ok (path_segments path)) eqn:Hok; [|done]. exfalso.
  destruct (segments_ok_path path Hv Hok) as [Hb Hd]. destruct Hp as [Hp|Hp]; [|congruence].
  apply contains_any_In in Hp as (b & Hin & Hc). rewrite Forall_forall in Hb. specialize (Hb _ Hin).
  repeat (apply elem_of_cons in Hc as [->|Hc]; [by destruct Hb as [Hb|Hb]; vm_compute in Hb|]).
  by apply elem_of_nil in Hc.
Qed.

Lemma forms_key (host path : string) :
  clean_host host -> utf8_valid (str_bytes path) = true ->
  canonical_forge_key (scp_remote host path) = forge_key_of (to_ascii_lowercase host) path
  /\ canonical_forge_key (https_remote host path) = forge_key_of (to_ascii_lowercase host) path
  /\ canonical_forge_key (ssh_remote host path) = forge_key_of (to_ascii_lowercase host) path.
Proof.
  intros Hh Hv. unfold canonical_forge_key.
  rewrite (scp_parts _ _ Hh), (https_parts _ _ Hh), (ssh_parts _ _ Hh).
  destruct (url_refused host path) eqn:Hr; [|done].
  rewrite (refused_none _ _ Hv Hr). cbn [mbind option_bind]. by rewrite (refused_none _ _ Hv Hr).
Qed.

(** The three forms of a remote agree: whatever the host and the path, the
    [git@host:path], [https://host/path] and [ssh://git@host/path] remotes have
    the same key, or none has one. *)
Theorem remote_forms_agree (host path : string) :
  clean_host host -> utf8_valid (str_bytes path) = true ->
  canonical_forge_key (https_remote host path) = canonical_forge_key (scp_remote host path)
  /\ canonical_forge_key (ssh_remote host path) = canonical_forge_key (scp_remote host path).
Proof. intros Hh Hv. destruct (forms_key _ _ Hh Hv) as (-> & -> & ->). done. Qed.

(** * Keys *)

Lemma strip_prefix_valid (p : string) (c : ascii) (s r : string) :
  byte_of c < 128 -> str_strip_prefix (p +:+ String c EmptyString) s = Some r ->
  utf8_valid (str_bytes s) = true -> utf8_valid (str_bytes r) = true.
Proof.
  intros Hc ->%str_strip_prefix_Some. rewrite string_app_assoc, str_bytes_app.
  change (String c EmptyString +:+ r) with (String c r). rewrite str_bytes_cons.
  intros [_ H]%utf8_valid_cut; [done|]. pose proof (byte_of_range c). lia.
Qed.

Lemma split_once_valid (c : ascii) (s a b : string) :
  byte_of c < 128 -> split_once c s = Some (a, b) ->
  utf8_valid (str_bytes s) = true -> utf8_valid (str_bytes b) = true.
Proof.
  intros Hc ->%split_once_Some. rewrite str_bytes_app, str_bytes_cons.
  intros [_ H]%utf8_valid_cut; [done|]. pose proof (byte_of_range c). lia.
Qed.

Lemma split_once_str_Some (sep s a b : string) :
  split_once_str sep s = Some (a, b) -> s = a +:+ sep +:+ b.
Proof.
  revert a. induction s as [|c s IH]; intros a; cbn [split_once_str].
  - destruct (str_strip_prefix sep EmptyString) as [r|] eqn:Hr; [|done]. intros [= <- <-].
    by rewrite <- (str_strip_prefix_Some _ _ _ Hr).
  - destruct (str_strip_prefix sep (String c s)) as [r|] eqn:Hr.
    + intros [= <- <-]. by rewrite <- (str_strip_prefix_Some _ _ _ Hr).
    + destruct (split_once_str sep s) as [[a' b']|]; [|done]. intros [= <- <-].
      rewrite string_app_cons. f_equal. by apply IH.
Qed.

Lemma remote_parts_valid (remote host path : string) :
  utf8_valid (str_bytes remote) = true -> remote_parts remote = Some (host, path) ->
  utf8_valid (str_bytes path) = true.
Proof.
  intros Hv. unfold remote_parts. destruct (str_strip_prefix "git@" remote) as [rest|] eqn:Hp.
  - apply (strip_prefix_valid "git" "@") in Hp; [|done..].
    destruct (split_once ":" rest) as [[h p]|] eqn:Hs; [|done]. simpl.
    apply split_once_valid in Hs; [|done..]. by destruct (_ || _); [|intros [= <- <-]].
  - destruct (split_once_str "://" remote) as [[scheme after]|] eqn:Hs; [|done].
    apply split_once_str_Some in Hs as ->. cbn [mbind option_bind]. destruct (_ || _); [done|].
    rewrite <- string_app_assoc, str_bytes_app in Hv.
    assert (Ha : utf8_valid (str_bytes after) = true).
    { change (scheme +:+ "://") with (scheme +:+ ":/" +:+ "/") in Hv.
      rewrite <- string_app_assoc, str_bytes_app in Hv. change (str_bytes "/") with [47] in Hv.
      rewrite <- app_assoc in Hv. by apply utf8_valid_cut in Hv as [_ ?]. }
    destruct (split_once "/" after) as [[authority raw]|] eqn:Hs; [|done].
    apply split_once_valid in Hs; [|done..]. cbn [mbind option_bind].
    destruct (_ || _); [done|]. destruct (existsb _ _); [done|].
    match goal with |- (?o ≫= _) = _ -> _ => destruct o as [h|]; [|done] end. cbn [mbind option_bind].
    by destruct (_ || _); [|intros [= <- <-]].
Qed.

Lemma forge_host_fixed (host forge : string) :
  (host, forge) ∈ forges -> clean_host host /\ to_ascii_lowercase host = host.
Proof.
  unfold forges, clean_host. rewrite !elem_of_cons.
  intros [[= -> ->]|[[= -> ->]|[[= -> ->]|Hin]]]; [done..|]. by apply elem_of_nil in Hin.
Qed.

(** A key is canonical and carries nothing else of the remote: it is the
    name of a known forge and two to 64 lower-case path segments over letters,
    digits, ['-'], ['_'] and ['.'] (two exactly on GitHub and Bitbucket), at most
    512 bytes, so no user, password, port, query or relative path is in it; and
    the remote rebuilt from the key, in any form, has that key. *)
Theorem forge_key_canonical (remote k : string) :
  utf8_valid (str_bytes remote) = true -> canonical_forge_key remote = Some k ->
  exists host segs, key_made_of host segs k
  /\ let path := join_strings "/" segs +:+ ".git" in
     canonical_forge_key (https_remote host path) = Some k
     /\ canonical_forge_key (ssh_remote host path) = Some k
     /\ canonical_forge_key (scp_remote host path) = Some k.
Proof.
  intros Hv. unfold canonical_forge_key at 1.
  destruct (remote_parts remote) as [[host path]|] eqn:Hp; [|done]. cbn [mbind option_bind]. intros Hk.
  apply remote_parts_valid in Hp; [|done]. apply forge_key_of_spec in Hk; [|done].
  exists host, (path_segments path). split; [done|]. cbv zeta. pose proof Hk as (forge & Hin & _ & Hs & _).
  apply forge_host_fixed in Hin as [Hh Hl].
  assert (Hvp : utf8_valid (str_bytes (join_strings "/" (path_segments path) +:+ ".git")) = true).
  { assert (Ha : Forall (fun c => 0 <= c < 128)
                   (str_bytes (join_strings "/" (path_segments path) +:+ ".git"))).
    { apply join_canonical_bytes; [|lia|done]. intros b. unfold key_char, segment_byte,
        is_ascii_alphanumeric, is_ascii_digit. rust_norm. lia. }
    induction Ha as [|c l Hc _ IH]; [done|]. cbn [utf8_valid].
    by rewrite (proj2 (in_range_true 0 127 c)) by lia. }
  destruct (forms_key _ _ Hh Hvp) as (-> & -> & ->). rewrite Hl.
  by rewrite (forge_key_of_canonical _ _ _ Hk).
Qed.

(** * The origin of a configuration

    What the lines of a configuration say about the origin, read without a
    state but the section: a line that refuses the file, a header whose slice
    panics, or a URL of the section [remote "origin"]. *)

Inductive Event : Type :=
| EvRefuse
| EvPanic
| EvUrl (raw : string).

Definition entry_events (section line : string) : list Event :=
  let '(key, value) := default (line, EmptyString) (split_once "=" line) in
  let key := to_ascii_lowercase (trim key) in
  let flag := to_ascii_lowercase (trim (before_comment value)) in
  if String.eqb key "insteadof" then [EvRefuse]
  else if String.eqb section "extensions" && String.eqb key "worktreeconfig"
          && negb (bool_decide (flag ∈ ["false"; "no"; "off"; "0"]%string)) then [EvRefuse]
  else if String.eqb section "origin" && String.eqb key "url" then [EvUrl (trim value)]
  else [].

Definition line_events (section raw_line : string) : string * list Event :=
  let line := trim raw_line in
  if str_is_empty line || starts_with "#" line || starts_with ";" line then (section, [])
  else if starts_with "[" line then
    let lower := to_ascii_lowercase line in
    if starts_with "[include" lower || starts_with "[url " lower then (section, [EvRefuse])
    else match h ← str_strip_prefix "[" line; str_strip_suffix "]" h with
    | None => (section, [EvRefuse])
    | Some header =>
        match section_of_header (trim header) with
        | Ok section => (section, [])
        | Err _ => (section, [EvPanic])
        end
    end
  else (section, entry_events section line).

Fixpoint events (section : string) (l : list string) : list Event :=
  match l with
  | [] => []
  | raw_line :: rest =>
      let '(section, e) := line_events section raw_line in
      e ++ events section rest
  end.

Definition config_events (config : string) : list Event := events EmptyString (lines config).

(** The URL found is the only one so far. *)
Definition settled (origin : option string) (l : list Event) : Prop :=
  match origin with
  | Some _ => l = []
  | None => l = [] \/ exists raw v, l = [EvUrl raw] /\ parse_simple_git_config_value raw = Some v
  end.

Fixpoint run_events (origin : option string) (l : list Event) : result string (option string) :=
  match l with
  | [] => Ok origin
  | EvRefuse :: _ => Ok None
  | EvPanic :: _ => Err "slice index out of order"%string
  | EvUrl raw :: rest =>
      match parse_simple_git_config_value raw, origin with
      | Some v, None => run_events (Some v) rest
      | _, _ => Ok None
      end
  end.

Lemma section_of_header_Err (h e : string) :
  section_of_header h = Err e -> e = "slice index out of order"%string.
Proof.
  unfold section_of_header. cbv zeta. destruct (split_once " " h) as [[name sub]|].
  2: { by destruct (eq_ignore_ascii_case _ _). }
  destruct (_ && _); [|by destruct (eq_ignore_ascii_case _ _)].
  unfold str_slice. destruct (_ && _); simpl; [|by intros [= <-]].
  destruct (String.eqb _ _); [done|]. by destruct (eq_ignore_ascii_case _ _).
Qed.

Lemma origin_url_lines_events (section : string) (origin : option string) (l : list string) :
  origin_url_lines section origin l = run_events origin (events section l).
Proof.
  revert section origin. induction l as [|raw l IH]; intros section origin; [done|].
  cbn [origin_url_lines events]. unfold config_line, line_events. cbv zeta.
  set (line := trim raw).
  destruct (str_is_empty line || starts_with "#" line || starts_with ";" line); [apply IH|].
  destruct (starts_with "[" line).
  - unfold config_header. cbv zeta. destruct (_ || _); [done|].
    destruct (_ ≫= _) as [header|]; [|done].
    destruct (section_of_header (trim header)) as [s|e] eqn:Hs; [apply IH|].
    apply section_of_header_Err in Hs as ->. done.
  - cbn [bind]. unfold config_entry, entry_events.
    destruct (default _ _) as [key value]. cbv zeta. destruct (String.eqb _ "insteadof"); [done|].
    destruct (String.eqb section "extensions" && _ && _); [done|].
    destruct (String.eqb section "origin"), (String.eqb _ "url"); cbn [negb orb andb app]; try apply IH.
    destruct (parse_simple_git_config_value (trim value)) eqn:Hp; cbn [run_events]; rewrite Hp; [|done].
    destruct origin; [done|]. apply IH.
Qed.

Lemma run_events_Some (origin : option string) (l : list Event) (v : string) :
  run_events origin l = Ok (Some v) <->
  (origin = Some v /\ l = [])
  \/ (origin = None /\ exists raw, l = [EvUrl raw] /\ parse_simple_git_config_value raw = Some v).
Proof.
  revert origin. induction l as [|[| |raw] l IH]; intros origin; simpl.
  - split; [intros [= ->]; by left|]. intros [[-> _]|[_ (r & ? & _)]]; done.
  - split; [done|]. by intros [[_ ?]|[_ (r & ? & _)]].
  - split; [done|]. by intros [[_ ?]|[_ (r & ? & _)]].
  - destruct (parse_simple_git_config_value raw) as [w|] eqn:Hw.
    + destruct origin as [o|].
      * split; [done|]. by intros [[_ ?]|[? _]].
      * rewrite IH. split.
        -- intros [[[= <-] ->]|[? _]]; [|done]. right. split; [done|]. by exists raw.
        -- intros [[? _]|[_ (r & [= <- ->] & Hr)]]; [done|]. left. split; [congruence|done].
    + split; [done|]. intros [[_ ?]|[_ (r & [= <- ->] & Hr)]]; [done|congruence].
Qed.

Lemma run_events_Err (origin : option string) (l : list Event) :
  (exists e, run_events origin l = Err e) <->
  exists pre post, l = pre ++ EvPanic :: post /\ settled origin pre.
Proof.
  revert origin. induction l as [|[| |raw] l IH]; intros origin; simpl.
  - split; [by intros [e ?]|]. by intros ([|? ?] & post & ? & _).
  - split; [by intros [e ?]|]. intros ([|x pre] & post & [=] & Hs); subst.
    destruct origin; [done|]. by destruct Hs as [?|(r & v & [=] & _)].
  - split; [|by eexists]. intros _. exists [], l. split; [done|]. destruct origin; [done|by left].
  - assert (Hno : (forall pre post, EvUrl raw :: l = pre ++ EvPanic :: post -> settled origin pre ->
              exists v, parse_simple_git_config_value raw = Some v /\ origin = None /\ pre = [EvUrl raw])).
    { intros [|x pre] post [=] Hs; subst. destruct origin; [done|].
      destruct Hs as [?|(r & v & [= <- ->] & Hv)]; [done|]. by exists v. }
    destruct (parse_simple_git_config_value raw) as [w|] eqn:Hw; [destruct origin as [o|]|].
    + split; [by intros [e ?]|]. intros (pre & post & He & Hs). destruct (Hno _ _ He Hs) as (? & _ & ? & _).
      done.
    + rewrite IH. split.
      * intros (pre & post & -> & Hs). simpl in Hs. subst pre. exists [EvUrl raw], post.
        split; [done|]. right. by exists raw, w.
      * intros (pre & post & He & Hs). destruct (Hno _ _ He Hs) as (v & _ & _ & ->).
        injection He as ->. by exists [], post.
    + split; [by intros [e ?]|]. intros (pre & post & He & Hs). by destruct (Hno _ _ He Hs) as (? & ? & _).
Qed.

(** An origin is named only by an unambiguous configuration: the URL is the
    value of the one [url] entry of [remote "origin"] sections, and nothing in
    the file refuses it (an include, a rewrite, per-worktree settings, an
    unclosed header).  The reading panics exactly when a header whose slice is
    out of order comes before anything that ends the reading. *)
Theorem origin_url_unambiguous (config : string) :
  (forall url, origin_url config = Ok (Some url) <->
     exists raw, config_events config = [EvUrl raw] /\ parse_simple_git_config_value raw = Some url)
  /\ ((exists e, origin_url config = Err e) <->
      exists before after, config_events config = before ++ EvPanic :: after /\ settled None before).
Proof.
  unfold origin_url, config_events. rewrite origin_url_lines_events. split.
  - intros url. rewrite run_events_Some. naive_solver.
  - apply run_events_Err.
Qed.

(** * A header that panics *)

Definition bad_header : string := "[remote " +:+ quote_str +:+ "]".

Lemma events_app (section : string) (a b : list string) :
  exists section', events section (a ++ b) = events section a ++ events section' b.
Proof.
  revert section. induction a as [|x a IH]; intros section; [by exists section|].
  simpl. destruct (line_events section x) as [s e]. destruct (IH s) as [s' ->].
  exists s'. by rewrite app_assoc.
Qed.

(** The reading does not fail closed on every malformed file: a
    [remote] header whose subsection is one double quote makes the slice of the
    subsection panic, wherever it stands after lines that do not end the reading, and the panic reaches the caller
    of [repository_key_for_workspace]. *)
Theorem malformed_header_panics (before after : string) :
  terminated before -> settled None (config_events before) ->
  let config := before +:+ (bad_header +:+ String newline EmptyString) +:+ after in
  (exists e, origin_url config = Err e)
  /\ (str_len config <= MAX_GIT_CONFIG_BYTES -> utf8_valid (str_bytes config) = true ->
      exists e, repository_key_of_config (Some (mkGitConfigFile true (str_len config) config)) = Err e).
Proof.
  intros Ht Hs config.
  assert (He : exists e, origin_url config = Err e).
  { unfold origin_url. rewrite origin_url_lines_events. apply run_events_Err.
    unfold config. rewrite (lines_terminated _ _ Ht), lines_terminated by (right; by eexists).
    change (lines (bad_header +:+ String newline EmptyString)) with [bad_header].
    destruct (events_app EmptyString (lines before) ([bad_header] ++ lines after)) as [s ->].
    exists (config_events before), (events s (lines after)). split; [done|exact Hs]. }
  split; [exact He|]. intros Hlen Hv. destruct He as [e He]. exists e.
  unfold repository_key_of_config, read_git_config. cbn [gc_is_file gc_metadata_len gc_bytes negb orb].
  destruct (Z.ltb_spec MAX_GIT_CONFIG_BYTES (str_len config)); [lia|].
  assert (Hsub : String.substring 0 (Z.to_nat (MAX_GIT_CONFIG_BYTES + 1)) config = config).
  { apply substring_long. unfold str_len in *. lia. }
  rewrite Hsub. destruct (Z.ltb_spec MAX_GIT_CONFIG_BYTES (str_len config)); [lia|].
  rewrite Hv, He. done.
Qed.

(** * Witnesses *)

Module KeyWitness.
Definition owner_path : string := "F4AH6O/Temote-MCP.git".

Lemma remote_forms_agree_witness :
  canonical_forge_key (https_remote "github.com" owner_path)
  = canonical_forge_key (scp_remote "github.com" owner_path)
  /\ canonical_forge_key (ssh_remote "github.com" owner_path)
     = canonical_forge_key (scp_remote "github.com" owner_path).
Proof. apply remote_forms_agree; [by split|reflexivity]. Defined.

Lemma forge_key_canonical_witness :
  exists host segs, key_made_of host segs "github:f4ah6o/temote-mcp"
  /\ let path := join_strings "/" segs +:+ ".git" in
     canonical_forge_key (https_remote host path) = Some "github:f4ah6o/temote-mcp"%string
     /\ canonical_forge_key (ssh_remote host path) = Some "github:f4ah6o/temote-mcp"%string
     /\ canonical_forge_key (scp_remote host path) = Some "github:f4ah6o/temote-mcp"%string.
Proof.
  apply (forge_key_canonical (scp_remote "github.com" owner_path)); [reflexivity|].
  vm_compute. reflexivity.
Defined.

Lemma malformed_header_panics_witness :
  exists e, origin_url (EmptyString +:+ (bad_header +:+ String newline EmptyString) +:+ EmptyString)
            = Err e.
Proof.
  exact (proj1 (malformed_header_panics EmptyString EmptyString (or_introl eq_refl) (or_introl eq_refl))).
Defined.
End KeyWitness.
