(* ===== verification/Config.v ===== *)
(** * Sessions and their grants: src/src/config.rs

    The metadata of a session, its permission mode and its wire form, the
    capability grants a host adds to it, and what makes loaded metadata valid.
    A path is the string of its bytes, compared by components as [PathBuf] is;
    what a path resolves to is a parameter. *)

From Stdlib Require Import DecimalString.
From S2P Require Import Prelude Strings.
From S2P Require Upgrade.

#[local] Open Scope Z_scope.
#[local] Open Scope rust_scope.

(** * Paths *)

(** [std::path::Component] on Unix; the derived [Ord] is the order of the variants. *)
Inductive Component :=
| RootDir
| CurDir
| ParentDir
| Normal (name : string).

#[global] Instance component_eq : EqDecision Component.
Proof. solve_decision. Defined.

Definition component_of (piece : string) : Component :=
  if String.eqb piece ".." then ParentDir else Normal piece.

(** [Path::components]: empty pieces are skipped, and a [.] that is not at the
    beginning of a relative path. *)
Definition components (path : string) : list Component :=
  let pieces := split_on "/" path in
  let absolute := starts_with "/" path in
  let keep := List.filter (fun p => negb (String.eqb p EmptyString) && negb (String.eqb p ".")) in
  (if absolute then [RootDir]
   else match pieces with
        | p :: _ => if String.eqb p "." then [CurDir] else []
        | [] => []
        end) ++ map component_of (keep pieces).

Definition is_absolute (path : string) : bool := starts_with "/" path.

Definition path_eqb (a b : string) : bool := bool_decide (components a = components b).

Definition component_rank (c : Component) : Z :=
  match c with
  | RootDir => 1
  | CurDir => 2
  | ParentDir => 3
  | Normal _ => 4
  end.

Definition component_leb (a b : Component) : bool :=
  match a, b with
  | Normal x, Normal y => String.leb x y
  | _, _ => component_rank a <=? component_rank b
  end.

Fixpoint components_leb (a b : list Component) : bool :=
  match a, b with
  | [], _ => true
  | _ :: _, [] => false
  | x :: a, y :: b => if bool_decide (x = y) then components_leb a b else component_leb x y
  end.

Definition path_leb (a b : string) : bool := components_leb (components a) (components b).

(** [Vec::contains] on paths. *)
Definition contains_path (paths : list string) (path : string) : bool :=
  existsb (fun p => path_eqb p path) paths.

(** * Sorting and removing duplicates *)

Section Sorting.
Context {A : Type} (leb eqb : A -> A -> bool).

Fixpoint insert_by (a : A) (l : list A) : list A :=
  match l with
  | [] => [a]
  | b :: rest => if leb a b then a :: l else b :: insert_by a rest
  end.

(** [Vec::sort]. *)
Definition sort_by (l : list A) : list A := fold_right insert_by [] l.

Fixpoint dedup_after (last : A) (l : list A) : list A :=
  match l with
  | [] => []
  | a :: rest => if eqb a last then dedup_after last rest else a :: dedup_after a rest
  end.

(** [Vec::dedup]: of a run of equal elements the first stays. *)
Definition dedup_by (l : list A) : list A :=
  match l with
  | [] => []
  | a :: rest => a :: dedup_after a rest
  end.

Definition sort_dedup (l : list A) : list A := dedup_by (sort_by l).
End Sorting.

Definition sort_ports (l : list Z) : list Z := sort_dedup Z.leb Z.eqb l.
Definition sort_prefixes (l : list string) : list string := sort_dedup String.leb String.eqb l.
Definition sort_paths (l : list string) : list string := sort_dedup path_leb path_eqb l.

(** * Permission modes *)

Inductive LifecycleStatus := LsStarting | LsActive | LsStopping | LsStopped | LsCrashed.

Inductive PermissionMode := Ask | Agent | Yolo.

#[global] Instance permission_mode_eq : EqDecision PermissionMode.
Proof. solve_decision. Defined.

Definition mode_parse (value : string) : result string PermissionMode :=
  ok_or (match_str value [("ask", Ask); ("agent", Agent); ("yolo", Yolo)])
    "unknown permission mode; expected ask, agent, or yolo".

Definition mode_as_str (mode : PermissionMode) : string :=
  match mode with
  | Ask => "ask"
  | Agent => "agent"
  | Yolo => "yolo"
  end.

Definition from_legacy_yolo (yolo : bool) : PermissionMode := if yolo then Yolo else Ask.

Definition is_yolo (mode : PermissionMode) : bool :=
  match mode with
  | Yolo => true
  | _ => false
  end.

(** * Sessions *)

Record SessionGrants := mkGrants {
  sg_listen_ports : list Z;
  sg_dev_tool_env_prefixes : list string;
  sg_ambient_git_credentials : bool;
}.

Definition no_grants : SessionGrants := mkGrants [] [] false.

Record Session := mkSession {
  s_id : string;
  s_cwd : string;
  s_permitted_directories : list string;
  s_started_at : Z;
  s_process_id : Z;
  s_permission_mode : PermissionMode;
  s_grants : SessionGrants;
}.

Record SessionWire := mkWire {
  w_id : string;
  w_cwd : string;
  w_permitted_directories : list string;
  w_started_at : Z;
  w_process_id : Z;
  w_permission_mode : option PermissionMode;
  w_yolo : bool;
  w_grants : SessionGrants;
}.

Definition session_of_wire (w : SessionWire) : Session :=
  mkSession (w_id w) (w_cwd w) (w_permitted_directories w) (w_started_at w) (w_process_id w)
    (match w_permission_mode w with
     | Some mode => mode
     | None => from_legacy_yolo (w_yolo w)
     end) (w_grants w).

Definition wire_of_session (s : Session) : SessionWire :=
  mkWire (s_id s) (s_cwd s) (s_permitted_directories s) (s_started_at s) (s_process_id s)
    (Some (s_permission_mode s)) (is_yolo (s_permission_mode s)) (s_grants s).

Definition yolo (s : Session) : bool := is_yolo (s_permission_mode s).

(** Assignments to the fields a session changes. *)
Definition set_permission_mode (s : Session) (mode : PermissionMode) : Session :=
  mkSession (s_id s) (s_cwd s) (s_permitted_directories s) (s_started_at s) (s_process_id s) mode
    (s_grants s).

Definition set_permitted_directories (s : Session) (paths : list string) : Session :=
  mkSession (s_id s) (s_cwd s) paths (s_started_at s) (s_process_id s) (s_permission_mode s)
    (s_grants s).

Definition set_grants (s : Session) (grants : SessionGrants) : Session :=
  mkSession (s_id s) (s_cwd s) (s_permitted_directories s) (s_started_at s) (s_process_id s)
    (s_permission_mode s) grants.

Definition set_started_at (s : Session) (started_at : Z) : Session :=
  mkSession (s_id s) (s_cwd s) (s_permitted_directories s) started_at (s_process_id s)
    (s_permission_mode s) (s_grants s).

Definition set_process_id (s : Session) (process_id : Z) : Session :=
  mkSession (s_id s) (s_cwd s) (s_permitted_directories s) (s_started_at s) process_id
    (s_permission_mode s) (s_grants s).

(** * Grant requests *)

Definition MAX_GRANT_LISTEN_PORTS : Z := 64.
Definition MAX_GRANT_ENV_PREFIXES : Z := 32.
Definition MAX_GRANT_ENV_PREFIX_BYTES : Z := 64.
Definition MAX_GRANT_DIRECTORIES : Z := 16.

Record SessionGrantRequest := mkRequest {
  gr_listen_ports : list Z;
  gr_dev_tool_env_prefixes : list string;
  gr_ambient_git_credentials : bool;
  gr_directories : list string;
}.

Definition is_effectively_empty (r : SessionGrantRequest) : bool :=
  match gr_listen_ports r, gr_dev_tool_env_prefixes r, gr_directories r with
  | [], [], [] => negb (gr_ambient_git_credentials r)
  | _, _, _ => false
  end.

Definition prefix_byte (c : Z) : bool := is_ascii_alphanumeric c || (c =? 95).

Definition validate_dev_tool_env_prefix (prefix : string) : result string unit :=
  ensure (negb (str_is_empty prefix) && (str_len prefix <=? MAX_GRANT_ENV_PREFIX_BYTES))
    "dev-tool env prefix must be 1..=64 bytes" ;!
  ensure (forallb prefix_byte (chars prefix))
    "dev-tool env prefix may contain only ASCII letters, numbers, and '_'".

(** [for x in l { f(x)?; }]. *)
Fixpoint for_each {A : Type} (f : A -> result string unit) (l : list A) : result string unit :=
  match l with
  | [] => Ok tt
  | a :: rest => f a ;! for_each f rest
  end.

Definition request_validate (r : SessionGrantRequest) : result string unit :=
  ensure (zlen (gr_listen_ports r) <=? MAX_GRANT_LISTEN_PORTS)
    "listen port grant exceeds 64 ports" ;!
  ensure (zlen (gr_dev_tool_env_prefixes r) <=? MAX_GRANT_ENV_PREFIXES)
    "dev-tool env prefix grant exceeds 32 prefixes" ;!
  ensure (zlen (gr_directories r) <=? MAX_GRANT_DIRECTORIES)
    "directory grant exceeds 16 directories" ;!
  for_each validate_dev_tool_env_prefix (gr_dev_tool_env_prefixes r) ;!
  for_each (fun d => ensure (is_absolute d) "directory grant must be an absolute path")
    (gr_directories r).

(** A number in decimal digits. *)
Definition decimal (n : Z) : string := NilZero.string_of_uint (N.to_uint (Z.to_N n)).

Definition describe (r : SessionGrantRequest) : string :=
  let ports := match gr_listen_ports r with
               | [] => []
               | l => ["listen on TCP ports " +:+ join_strings ", " (map decimal l)
                         +:+ " (any interface)"]
               end in
  let prefixes := match gr_dev_tool_env_prefixes r with
                  | [] => []
                  | l => ["dev-tool env prefixes " +:+ join_strings ", " l]
                  end in
  let ambient := if gr_ambient_git_credentials r then ["ambient Git credentials"%string] else [] in
  let directories := match gr_directories r with
                     | [] => []
                     | l => ["permitted directories " +:+ join_strings ", " l]
                     end in
  join_strings "; " (ports ++ prefixes ++ ambient ++ directories).

Section Directories.
Context (canonical_directory : string -> result string string).

(** The canonical directories that are not yet permitted, in order. *)
Fixpoint missing_directories (s : Session) (l : list string) : result string (list string) :=
  match l with
  | [] => Ok []
  | d :: rest =>
      let! directory := canonical_directory d in
      let! missing := missing_directories s rest in
      Ok (if contains_path (s_permitted_directories s) directory then missing
          else directory :: missing)
  end.

Definition contains_port (ports : list Z) (port : Z) : bool := existsb (Z.eqb port) ports.
Definition contains_prefix (prefixes : list string) (prefix : string) : bool :=
  existsb (String.eqb prefix) prefixes.

Definition grants_missing_from (r : SessionGrantRequest) (s : Session) :
    result string SessionGrantRequest :=
  request_validate r ;!
  let ports := List.filter (fun p => negb (contains_port (sg_listen_ports (s_grants s)) p))
                 (gr_listen_ports r) in
  let prefixes :=
    List.filter (fun p => negb (contains_prefix (sg_dev_tool_env_prefixes (s_grants s)) p))
      (gr_dev_tool_env_prefixes r) in
  let ambient := gr_ambient_git_credentials r
                 && negb (sg_ambient_git_credentials (s_grants s)) in
  let! directories := missing_directories s (gr_directories r) in
  Ok (mkRequest (sort_ports ports) (sort_prefixes prefixes) ambient (sort_paths directories)).

(** The session is changed in place: also an [Err] comes with what has become of it. *)
Definition apply_session_grants (s : Session) (r : SessionGrantRequest) :
    Session * result string SessionGrantRequest :=
  match grants_missing_from r s with
  | Err e => (s, Err e)
  | Ok applied =>
      if is_effectively_empty applied then (s, Ok applied)
      else
        let g := s_grants s in
        let ports := sort_ports (sg_listen_ports g ++ gr_listen_ports applied) in
        let s := set_grants s (mkGrants ports (sg_dev_tool_env_prefixes g)
                                 (sg_ambient_git_credentials g)) in
        if negb (zlen ports <=? MAX_GRANT_LISTEN_PORTS)
        then (s, Err "listen port grant exceeds 64 ports"%string)
        else
          let prefixes :=
            sort_prefixes (sg_dev_tool_env_prefixes g ++ gr_dev_tool_env_prefixes applied) in
          let s := set_grants s (mkGrants ports prefixes (sg_ambient_git_credentials g)) in
          if negb (zlen prefixes <=? MAX_GRANT_ENV_PREFIXES)
          then (s, Err "dev-tool env prefix grant exceeds 32 prefixes"%string)
          else
            let s := set_grants s (mkGrants ports prefixes
                       (sg_ambient_git_credentials g || gr_ambient_git_credentials applied)) in
            (set_permitted_directories s
               (sort_paths (s_permitted_directories s ++ gr_directories applied)), Ok applied)
  end.

Definition revoke_session_grants (s : Session) (r : SessionGrantRequest) :
    Session * result string SessionGrantRequest :=
  let checked :=
    ensure (match gr_directories r with
            | [] => true
            | _ => false
            end) "directories are revoked with `session permission revoke <path>`"%string ;!
    request_validate r in
  match checked with
  | Err e => (s, Err e)
  | Ok _ =>
      let g := s_grants s in
      let ambient := gr_ambient_git_credentials r && sg_ambient_git_credentials g in
      (set_grants s (mkGrants
         (List.filter (fun p => negb (contains_port (gr_listen_ports r) p)) (sg_listen_ports g))
         (List.filter (fun p => negb (contains_prefix (gr_dev_tool_env_prefixes r) p))
            (sg_dev_tool_env_prefixes g))
         (if ambient then false else sg_ambient_git_credentials g)),
       Ok (mkRequest
         (List.filter (contains_port (sg_listen_ports g)) (gr_listen_ports r))
         (List.filter (contains_prefix (sg_dev_tool_env_prefixes g)) (gr_dev_tool_env_prefixes r))
         ambient []))
  end.
End Directories.

(** * Identifiers and paths of a session *)

(** [session_id]; [fresh] is the text of a new random uuid. *)
Definition session_id (id : option string) (fresh : string) : result string string :=
  let id := match id with
            | Some id => id
            | None => fresh
            end in
  Upgrade.validate_session_id id ;!
  Ok id.

Definition namespace_byte (b : Z) : bool :=
  is_ascii_alphanumeric b || (b =? 45) || (b =? 95).

Definition validate_socket_namespace (namespace : string) : result string unit :=
  ensure (negb (str_is_empty namespace) && (str_len namespace <=? 12))
    "TEMOTE_SOCKET_NAMESPACE must contain 1..=12 ASCII characters" ;!
  ensure (forallb namespace_byte (str_bytes namespace))
    "TEMOTE_SOCKET_NAMESPACE accepts only ASCII letters, digits, '-' and '_'".

Definition socket_dir_for (euid : Z) (namespace : option string) : result string string :=
  match namespace with
  | None => Ok ("/tmp/temote-mcp-" +:+ decimal euid)
  | Some namespace =>
      validate_socket_namespace namespace ;!
      Ok ("/tmp/tmcp-" +:+ decimal euid +:+ "-" +:+ namespace)
  end.

Definition socket_path (euid : Z) (namespace : option string) (id : string) :
    result string string :=
  Upgrade.validate_session_id id ;!
  let! directory := socket_dir_for euid namespace in
  Ok (directory +:+ "/" +:+ id +:+ ".sock").

Definition validate_session_probe_response (response : string) : result string unit :=
  ensure (String.eqb (trim response) "active") "unexpected session probe response".

(** * Life cycle records *)

Record SessionLifecycle := mkLifecycle {
  lc_status : LifecycleStatus;
  lc_started_at : Z;
  lc_stopped_at : option Z;
  lc_exit_reason : option string;
  lc_last_error : option string;
  lc_logical_path : option string;
  lc_root_name : option string;
  lc_root_relative_path : option string;
  lc_restart_policy : string;
  lc_restart_count : Z;
  lc_last_restart_at : option Z;
  lc_next_restart_at : option Z;
  lc_restart_limit_reason : option string;
}.

Definition lifecycle_starting (started_at : Z) (logical_path : option string) : SessionLifecycle :=
  let root := path ← logical_path;
              Some (match split_once "/" path with
                    | Some (name, relative) => (name, relative)
                    | None => (path, EmptyString)
                    end) in
  mkLifecycle LsStarting started_at None None None logical_path (fst <$> root) (snd <$> root)
    "never" 0 None None None.

(** * Loaded metadata *)

Inductive FsError := FsNotFound | FsNotADirectory | FsOther.

Section Loaded.
Context (canonicalize : string -> result FsError string) (is_dir : string -> bool)
  (symlink_is_dir : string -> result FsError bool).

Definition canonical_directory (path : string) : result string string :=
  let! resolved := map_err (fun _ => "cannot resolve path"%string) (canonicalize path) in
  ensure (is_dir resolved) "path is not a directory" ;!
  Ok resolved.

Definition new_session_with_mode (cwd : string) (id : option string) (fresh : string)
    (mode : PermissionMode) (now : Z) : result string Session :=
  let! cwd := canonical_directory cwd in
  let! id := session_id id fresh in
  Ok (mkSession id cwd [cwd] now 0 mode no_grants).

Definition validate_loaded_session_identity (requested_id : string) (s : Session) :
    result string unit :=
  Upgrade.validate_session_id requested_id ;!
  ensure (String.eqb (s_id s) requested_id) "session metadata ID mismatch" ;!
  Upgrade.validate_session_id (s_id s).

Definition nonempty {A : Type} (l : list A) : bool :=
  match l with
  | [] => false
  | _ => true
  end.

(** The loop over the permitted roots with the set [seen] of those before. *)
Fixpoint validate_roots (seen roots : list string) : result string (list string) :=
  match roots with
  | [] => Ok seen
  | root :: rest =>
      let! canonical := canonical_directory root in
      ensure (path_eqb canonical root) "session permitted root is not canonical" ;!
      ensure (negb (contains_path seen root)) "duplicate session permitted root" ;!
      validate_roots (root :: seen) rest
  end.

Definition validate_loaded_session (requested_id : string) (s : Session) : result string unit :=
  validate_loaded_session_identity requested_id s ;!
  let! canonical_cwd := canonical_directory (s_cwd s) in
  ensure (path_eqb canonical_cwd (s_cwd s)) "session cwd is not canonical" ;!
  ensure (nonempty (s_permitted_directories s)) "session metadata has no permitted directories" ;!
  let! seen := validate_roots [] (s_permitted_directories s) in
  ensure (contains_path seen (s_cwd s)) "session cwd is missing from permitted directories".

(** [PathBuf::push] of a component. *)
Definition push_component (current : string) (c : Component) : string :=
  match c with
  | RootDir => "/"
  | CurDir => current +:+ "."
  | ParentDir => current +:+ (if ends_with "/" current then ".." else "/..")
  | Normal name =>
      current +:+ (if str_is_empty current || ends_with "/" current then name else "/" +:+ name)
  end.

Fixpoint verify_ancestors (current : string) (cs : list Component) : result string unit :=
  match cs with
  | [] => Ok tt
  | c :: rest =>
      let current := push_component current c in
      match symlink_is_dir current with
      | Ok dir =>
          let! resolved := map_err (fun _ => "cannot resolve session path ancestor"%string)
                             (canonicalize current) in
          ensure (path_eqb resolved current) "session path ancestor is not canonical" ;!
          ensure dir "session path ancestor is not a directory" ;!
          verify_ancestors current rest
      | Err FsNotFound => Ok tt
      | Err _ => Err "cannot inspect session path"%string
      end
  end.

Definition verify_existing_ancestor_is_canonical (path : string) : result string unit :=
  verify_ancestors EmptyString (components path).

Definition is_dot (c : Component) : bool :=
  match c with
  | CurDir | ParentDir => true
  | _ => false
  end.

Definition session_path_resolves (path : string) : result string bool :=
  ensure (is_absolute path) "session path is not absolute" ;!
  ensure (negb (existsb is_dot (components path))) "session path is not normalized" ;!
  match canonicalize path with
  | Ok resolved =>
      ensure (path_eqb resolved path) "session path is not canonical" ;!
      ensure (is_dir resolved) "session path is not a directory" ;!
      Ok true
  | Err FsOther => Err "cannot resolve path"%string
  | Err _ => verify_existing_ancestor_is_canonical path ;! Ok false
  end.

Fixpoint view_roots (seen roots : list string) (resolved : bool) :
    result string (list string * bool) :=
  match roots with
  | [] => Ok (seen, resolved)
  | root :: rest =>
      ensure (negb (contains_path seen root)) "duplicate session permitted root" ;!
      let! here := session_path_resolves root in
      view_roots (root :: seen) rest (resolved && here)
  end.

Definition validate_loaded_session_for_view (requested_id : string) (s : Session) :
    result string bool :=
  validate_loaded_session_identity requested_id s ;!
  ensure (nonempty (s_permitted_directories s)) "session metadata has no permitted directories" ;!
  let! roots := view_roots [] (s_permitted_directories s) true in
  let '(seen, resolved) := roots in
  ensure (contains_path seen (s_cwd s)) "session cwd is missing from permitted directories" ;!
  let! here := session_path_resolves (s_cwd s) in
  Ok (resolved && here).
End Loaded.
