(* ===== verification/ConfigTheorems.v ===== *)
(** * What the grants of a session become

    Sorting and removing duplicates keep the elements; applying and revoking
    grants are set operations on what a session may do; and a grant that is
    refused for being one too many is in effect all the same. *)

From S2P Require Import Prelude Strings Config.

#[local] Open Scope Z_scope.
#[local] Open Scope rust_scope.

(** * Sorting *)

Section Inserting.
Context {A : Type} (leb : A -> A -> bool).

Lemma insert_by_elem a x l : x ∈ insert_by leb a l <-> x = a \/ x ∈ l.
Proof.
  induction l as [|b l IH]; simpl; [set_solver|]. destruct (leb a b); [set_solver|].
  rewrite elem_of_cons, IH. set_solver.
Qed.

Lemma sort_by_elem x l : x ∈ sort_by leb l <-> x ∈ l.
Proof.
  unfold sort_by. induction l as [|a l IH]; simpl; [done|].
  rewrite insert_by_elem, IH. set_solver.
Qed.

Hypothesis leb_total : forall a b, leb a b = true \/ leb b a = true.
Hypothesis leb_trans : forall a b c, leb a b = true -> leb b c = true -> leb a c = true.

#[local] Notation le := (fun a b => leb a b = true).

Lemma insert_by_sorted a l : StronglySorted le l -> StronglySorted le (insert_by leb a l).
Proof using leb_total leb_trans.
  induction l as [|b l IH]; intros Hs; simpl; [repeat constructor|].
  inversion Hs as [|? ? Hl Hb]; subst. destruct (leb a b) eqn:E.
  - constructor; [done|]. constructor; [done|].
    eapply Forall_impl; [exact Hb|]. intros x Hx. by eapply leb_trans.
  - constructor; [by apply IH|]. apply Forall_forall. intros x [->|Hx]%insert_by_elem.
    + destruct (leb_total b a) as [Hba|Hba]; [done|by rewrite Hba in E].
    + by apply (proj1 (Forall_forall _ _) Hb).
Qed.

Lemma sort_by_sorted l : StronglySorted le (sort_by leb l).
Proof using leb_total leb_trans.
  unfold sort_by. induction l as [|a l IH]; simpl; [constructor|]. by apply insert_by_sorted.
Qed.

End Inserting.

Section Deduplicating.
Context {A : Type} (leb eqb : A -> A -> bool).

Lemma dedup_after_sub last x l : x ∈ dedup_after eqb last l -> x ∈ l.
Proof.
  revert last. induction l as [|a l IH]; intros last; simpl; [done|].
  destruct (eqb a last); [set_solver|]. rewrite !elem_of_cons. intros [->|Hx]; [by left|right; eauto].
Qed.

Lemma dedup_by_sub x l : x ∈ dedup_by eqb l -> x ∈ l.
Proof.
  destruct l as [|a l]; simpl; [done|]. rewrite !elem_of_cons.
  intros [->|Hx]; [by left|right; by eapply dedup_after_sub].
Qed.

Lemma sort_dedup_sub x l : x ∈ sort_dedup leb eqb l -> x ∈ l.
Proof. unfold sort_dedup. intros Hx%dedup_by_sub. by rewrite sort_by_elem in Hx. Qed.

(** What is left out is equal to an element that stays. *)
Lemma dedup_after_keeps last x l :
  (forall a, eqb a a = true) ->
  x ∈ l -> exists y, eqb x y = true /\ (y = last \/ y ∈ dedup_after eqb last l).
Proof.
  intros Hrefl. revert last. induction l as [|a l IH]; intros last; simpl; [by intros ?%not_elem_of_nil|].
  intros [->|Hx]%elem_of_cons.
  - destruct (eqb a last) eqn:E; [exists last; split; [done|by left]|].
    exists a. split; [apply Hrefl|right; left].
  - destruct (eqb a last) eqn:E; [by apply IH|].
    destruct (IH a Hx) as (y & Hy & [-> |Hin]); [exists a|exists y]; (split; [done|right]).
    + left.
    + by right.
Qed.

Lemma sort_dedup_keeps x l :
  (forall a, eqb a a = true) ->
  x ∈ l -> exists y, eqb x y = true /\ y ∈ sort_dedup leb eqb l.
Proof.
  intros Hrefl Hx. rewrite <- (sort_by_elem leb) in Hx. unfold sort_dedup, dedup_by.
  destruct (sort_by leb l) as [|a s]; [by apply not_elem_of_nil in Hx|].
  apply elem_of_cons in Hx as [->|Hx]; [exists a; split; [apply Hrefl|left]|].
  destruct (dedup_after_keeps a x s Hrefl Hx) as (y & Hy & [-> |Hin]); [exists a|exists y];
    (split; [done|]); [left|by right].
Qed.

(** Sorting makes equal elements adjacent, so none is there twice. *)
Hypothesis leb_total : forall a b, leb a b = true \/ leb b a = true.
Hypothesis leb_trans : forall a b c, leb a b = true -> leb b c = true -> leb a c = true.
Hypothesis leb_antisym : forall a b, leb a b = true -> leb b a = true -> eqb a b = true.
Hypothesis eqb_leb : forall a b, eqb a b = true -> leb a b = true /\ leb b a = true.

#[local] Notation le := (fun a b => leb a b = true).

(** Strictly above the previous ones. *)
Definition above (a b : A) : Prop := leb a b = true /\ eqb b a = false.

Lemma dedup_after_above last l :
  StronglySorted le l -> Forall (le last) l ->
  StronglySorted above (dedup_after eqb last l) /\ Forall (above last) (dedup_after eqb last l).
Proof using leb_trans leb_antisym eqb_leb.
  revert last. induction l as [|a l IH]; intros last Hs Hl; simpl; [split; constructor|].
  inversion Hs as [|? ? Hs' Ha]; subst. inversion Hl as [|? ? Hla Hl']; subst.
  destruct (eqb a last) eqn:E; [by apply IH|].
  destruct (IH a Hs' Ha) as [Hss Hab]. split; [by constructor|].
  constructor; [done|]. eapply Forall_impl; [exact Hab|]. intros x [Hx Hne]. split.
  - by eapply leb_trans.
  - destruct (eqb x last) eqn:E2; [|done]. destruct (eqb_leb _ _ E2) as [Hxl _].
    assert (eqb a last = true) as Heq; [|by rewrite Heq in E]. apply leb_antisym; [|done]. by eapply leb_trans.
Qed.

Lemma sort_dedup_above l : StronglySorted above (sort_dedup leb eqb l).
Proof using leb_total leb_trans leb_antisym eqb_leb.
  unfold sort_dedup, dedup_by. pose proof (sort_by_sorted leb leb_total leb_trans l) as Hs.
  destruct (sort_by leb l) as [|a s]; [constructor|]. inversion Hs; subst.
  destruct (dedup_after_above a s) as [H3 H4]; [done..|]. by constructor.
Qed.
End Deduplicating.


(** * The three orders *)

Lemma sort_ports_elem x l : x ∈ sort_ports l <-> x ∈ l.
Proof.
  unfold sort_ports. split; [apply sort_dedup_sub|]. intros Hx.
  destruct (sort_dedup_keeps Z.leb Z.eqb x l Z.eqb_refl Hx) as (y & Hy & Hin).
  apply Z.eqb_eq in Hy. by subst.
Qed.

Lemma sort_prefixes_elem x l : x ∈ sort_prefixes l <-> x ∈ l.
Proof.
  unfold sort_prefixes. split; [apply sort_dedup_sub|]. intros Hx.
  destruct (sort_dedup_keeps String.leb String.eqb x l String.eqb_refl Hx) as (y & Hy & Hin).
  apply String.eqb_eq in Hy. by subst.
Qed.

Lemma path_eqb_refl a : path_eqb a a = true.
Proof. unfold path_eqb. by apply bool_decide_eq_true. Qed.

Lemma path_eqb_eq a b : path_eqb a b = true <-> components a = components b.
Proof. unfold path_eqb. by rewrite bool_decide_eq_true. Qed.

Lemma contains_path_true l d : contains_path l d = true <-> exists x, x ∈ l /\ path_eqb x d = true.
Proof.
  unfold contains_path. rewrite existsb_exists. setoid_rewrite list_elem_of_In. done.
Qed.

Lemma sort_paths_contains l d : contains_path (sort_paths l) d = contains_path l d.
Proof.
  apply eq_true_iff_eq. rewrite !contains_path_true. unfold sort_paths. split.
  - intros (x & Hx%sort_dedup_sub & He). by exists x.
  - intros (x & Hx & He). destruct (sort_dedup_keeps path_leb path_eqb x l path_eqb_refl Hx) as (y & Hy & Hin).
    exists y. split; [done|]. rewrite path_eqb_eq in *. congruence.
Qed.

Lemma contains_path_cons a l d : contains_path (a :: l) d = path_eqb a d || contains_path l d.
Proof. done. Qed.

Lemma contains_path_app l l' d : contains_path (l ++ l') d = contains_path l d || contains_path l' d.
Proof. apply existsb_app. Qed.

Lemma ports_above l : StronglySorted (above Z.leb Z.eqb) (sort_ports l).
Proof.
  apply sort_dedup_above.
  - intros a b. rewrite !Z.leb_le. lia.
  - intros a b c. rewrite !Z.leb_le. lia.
  - intros a b. rewrite !Z.leb_le, Z.eqb_eq. lia.
  - intros a b. rewrite Z.eqb_eq, !Z.leb_le. lia.
Qed.

Lemma prefixes_above l : StronglySorted (above String.leb String.eqb) (sort_prefixes l).
Proof.
  apply sort_dedup_above.
  - apply String.leb_total.
  - apply string_leb_trans.
  - intros a b Ha Hb. apply String.eqb_eq. by apply String.leb_antisym.
  - intros a b ->%String.eqb_eq. destruct (String.leb_total b b); done.
Qed.

Lemma component_leb_total a b : component_leb a b = true \/ component_leb b a = true.
Proof. destruct a, b; simpl; auto using String.leb_total. Qed.

Lemma component_leb_trans a b c :
  component_leb a b = true -> component_leb b c = true -> component_leb a c = true.
Proof. destruct a, b, c; simpl; try done. apply string_leb_trans. Qed.

Lemma component_leb_antisym a b :
  component_leb a b = true -> component_leb b a = true -> a = b.
Proof. destruct a, b; simpl; try done. intros. f_equal. by apply String.leb_antisym. Qed.

Lemma components_leb_total a b : components_leb a b = true \/ components_leb b a = true.
Proof.
  revert b. induction a as [|x a IH]; intros [|y b]; simpl; auto.
  case_bool_decide as E; case_bool_decide as E'; subst; try done; auto using component_leb_total.
Qed.

Lemma components_leb_antisym a b :
  components_leb a b = true -> components_leb b a = true -> a = b.
Proof.
  revert b. induction a as [|x a IH]; intros [|y b]; simpl; try done.
  case_bool_decide as E; case_bool_decide as E'; subst; try done.
  - intros Ha Hb. f_equal. by apply IH.
  - intros Ha Hb. exfalso. apply E. by apply component_leb_antisym.
Qed.

Lemma components_leb_trans a b c :
  components_leb a b = true -> components_leb b c = true -> components_leb a c = true.
Proof.
  revert b c. induction a as [|x a IH]; intros [|y b] [|z c]; simpl; try done.
  repeat case_bool_decide; subst; try done.
  - apply IH.
  - intros Ha Hb. exfalso. apply H. by apply component_leb_antisym.
  - apply component_leb_trans.
Qed.

Lemma paths_above l : StronglySorted (above path_leb path_eqb) (sort_paths l).
Proof.
  apply sort_dedup_above; unfold path_leb.
  - intros a b. apply components_leb_total.
  - intros a b c. apply components_leb_trans.
  - intros a b Ha Hb. apply path_eqb_eq. by apply components_leb_antisym.
  - intros a b ->%path_eqb_eq. destruct (components_leb_total (components b) (components b)); done.
Qed.

Lemma for_each_Ok {A : Type} (f : A -> result string unit) l :
  for_each f l = Ok tt -> forall a, a ∈ l -> f a = Ok tt.
Proof.
  induction l as [|x l IH]; cbn; intros H a; [by intros []%elem_of_nil|].
  apply bind_Ok in H as ([] & Hx & H). intros [->|Ha]%elem_of_cons; [done|by apply IH].
Qed.

(** * What a session may do *)

Inductive Capability :=
| CapPort (port : Z)
| CapPrefix (prefix : string)
| CapAmbient
| CapDirectory (path : string).

(** What a session holds; a directory counts by its components. *)
Definition holds (s : Session) (cap : Capability) : bool :=
  match cap with
  | CapPort p => contains_port (sg_listen_ports (s_grants s)) p
  | CapPrefix p => contains_prefix (sg_dev_tool_env_prefixes (s_grants s)) p
  | CapAmbient => sg_ambient_git_credentials (s_grants s)
  | CapDirectory d => contains_path (s_permitted_directories s) d
  end.

(** What a delta contains. *)
Definition grants (r : SessionGrantRequest) (cap : Capability) : bool :=
  match cap with
  | CapPort p => contains_port (gr_listen_ports r) p
  | CapPrefix p => contains_prefix (gr_dev_tool_env_prefixes r) p
  | CapAmbient => gr_ambient_git_credentials r
  | CapDirectory d => contains_path (gr_directories r) d
  end.

(** Without duplicates, in order, and within the limits. *)
Record grants_ok (s : Session) : Prop := mkGrantsOk {
  ok_ports : StronglySorted (above Z.leb Z.eqb) (sg_listen_ports (s_grants s));
  ok_ports_bound : zlen (sg_listen_ports (s_grants s)) <= MAX_GRANT_LISTEN_PORTS;
  ok_prefixes : StronglySorted (above String.leb String.eqb) (sg_dev_tool_env_prefixes (s_grants s));
  ok_prefixes_bound : zlen (sg_dev_tool_env_prefixes (s_grants s)) <= MAX_GRANT_ENV_PREFIXES;
  ok_directories : StronglySorted (above path_leb path_eqb) (s_permitted_directories s);
}.

Definition is_directory (cap : Capability) : bool :=
  match cap with
  | CapDirectory _ => true
  | _ => false
  end.

(** The session apart from its grants and its permitted directories. *)
Definition same_session (s s' : Session) : Prop :=
  s_id s' = s_id s /\ s_cwd s' = s_cwd s /\ s_started_at s' = s_started_at s
  /\ s_process_id s' = s_process_id s /\ s_permission_mode s' = s_permission_mode s.

Lemma same_session_refl s : same_session s s.
Proof. by repeat split. Qed.

(** ** Sets of booleans *)

#[global] Arguments contains_port : simpl never.
#[global] Arguments contains_prefix : simpl never.
#[global] Arguments contains_path : simpl never.

Lemma contains_port_true l p : contains_port l p = true <-> p ∈ l.
Proof.
  unfold contains_port. rewrite existsb_exists, list_elem_of_In. split.
  - by intros (x & Hx & ->%Z.eqb_eq).
  - intros Hp. exists p. by rewrite Z.eqb_refl.
Qed.

Lemma contains_prefix_true l p : contains_prefix l p = true <-> p ∈ l.
Proof.
  unfold contains_prefix. rewrite existsb_exists, list_elem_of_In. split.
  - by intros (x & Hx & ->%String.eqb_eq).
  - intros Hp. exists p. by rewrite String.eqb_refl.
Qed.

Lemma elem_of_filter_bool {A : Type} (f : A -> bool) l x :
  x ∈ List.filter f l <-> x ∈ l /\ f x = true.
Proof. rewrite !list_elem_of_In. apply filter_In. Qed.

Lemma sort_ports_contains l p : contains_port (sort_ports l) p = contains_port l p.
Proof. apply eq_true_iff_eq. rewrite !contains_port_true. apply sort_ports_elem. Qed.

Lemma sort_prefixes_contains l p : contains_prefix (sort_prefixes l) p = contains_prefix l p.
Proof. apply eq_true_iff_eq. rewrite !contains_prefix_true. apply sort_prefixes_elem. Qed.

Lemma contains_port_app l l' p : contains_port (l ++ l') p = contains_port l p || contains_port l' p.
Proof. apply existsb_app. Qed.

Lemma contains_prefix_app l l' p :
  contains_prefix (l ++ l') p = contains_prefix l p || contains_prefix l' p.
Proof. apply existsb_app. Qed.

Lemma filter_port f l p : contains_port (List.filter f l) p = contains_port l p && f p.
Proof.
  apply eq_true_iff_eq. rewrite andb_true_iff, !contains_port_true. apply elem_of_filter_bool.
Qed.

Lemma filter_prefix f l p : contains_prefix (List.filter f l) p = contains_prefix l p && f p.
Proof.
  apply eq_true_iff_eq. rewrite andb_true_iff, !contains_prefix_true. apply elem_of_filter_bool.
Qed.

Lemma filter_sorted {A : Type} (R : A -> A -> Prop) (f : A -> bool) l :
  StronglySorted R l -> StronglySorted R (List.filter f l).
Proof.
  induction 1 as [|a l Hl IH Ha]; simpl; [constructor|]. destruct (f a); [|done].
  constructor; [done|]. apply Forall_forall. intros x [Hx _]%elem_of_filter_bool.
  by apply (proj1 (Forall_forall _ _) Ha).
Qed.

Lemma filter_zlen {A : Type} (f : A -> bool) l : zlen (List.filter f l) <= zlen l.
Proof. unfold zlen. pose proof (filter_length_le f l). lia. Qed.

#[export] Hint Rewrite @sort_ports_contains @sort_prefixes_contains @sort_paths_contains
  contains_port_app contains_prefix_app contains_path_app filter_port filter_prefix : grants.

(** * Applying a grant *)

Section Applying.
Context (canonical_directory : string -> result string string).

#[local] Notation apply := (apply_session_grants canonical_directory).
#[local] Notation missing := (grants_missing_from canonical_directory).

(** What a request asks for: a directory is asked for by its canonical path. *)
Definition asks (r : SessionGrantRequest) (cap : Capability) : bool :=
  match cap with
  | CapDirectory d =>
      existsb (fun x => match canonical_directory x with
                        | Ok c => path_eqb c d
                        | Err _ => false
                        end) (gr_directories r)
  | _ => grants r cap
  end.

Lemma missing_directories_spec s l found d :
  missing_directories canonical_directory s l = Ok found ->
  contains_path found d
  = existsb (fun x => match canonical_directory x with
                      | Ok c => path_eqb c d
                      | Err _ => false
                      end) l && negb (contains_path (s_permitted_directories s) d).
Proof.
  revert found. induction l as [|x l IH]; intros found; simpl; [by intros [= <-]|].
  destruct (canonical_directory x) as [c|e] eqn:Ec; cbn [bind]; [|done].
  destruct (missing_directories _ s l) as [rest|e]; cbn [bind]; [|done].
  intros [= <-]. specialize (IH rest eq_refl).
  assert (path_eqb c d = true -> contains_path (s_permitted_directories s) c
          = contains_path (s_permitted_directories s) d) as Hsame.
  { intros He%path_eqb_eq. unfold contains_path, path_eqb. by rewrite He. }
  destruct (contains_path (s_permitted_directories s) c) eqn:Ep;
    rewrite ?(contains_path_cons c), IH;
    (destruct (path_eqb c d) eqn:E; [|done]); rewrite <- Hsame by done; cbn;
    by rewrite ?andb_false_r.
Qed.

(** The delta is exactly what is asked for and not held. *)
Lemma missing_spec r s applied cap :
  missing r s = Ok applied -> grants applied cap = asks r cap && negb (holds s cap).
Proof.
  unfold grants_missing_from. destruct (request_validate r); cbn [bind]; [|done].
  destruct (missing_directories _ s _) as [found|] eqn:E; cbn [bind]; [|done].
  intros [= <-]. destruct cap; cbn; autorewrite with grants; try done.
  by apply missing_directories_spec.
Qed.

Lemma missing_bounds r s applied :
  missing r s = Ok applied -> request_validate r = Ok tt.
Proof. unfold grants_missing_from. by destruct (request_validate r) as [[]|]. Qed.

Lemma effectively_empty_grants r cap : is_effectively_empty r = true -> grants r cap = false.
Proof.
  unfold is_effectively_empty. destruct r as [[] [] amb []]; cbn; try done.
  intros H. destruct cap; cbn; try done. by destruct amb.
Qed.

Lemma or_missing_true (h : bool) : h || (true && negb h) = true.
Proof. by destruct h. Qed.

#[local] Ltac tauto_or := rewrite ?orb_true_iff; tauto.

Lemma or_missing (a h : bool) : h || (a && negb h) = h || a.
Proof. by destruct a, h. Qed.

Lemma apply_ok s r s' applied :
  apply s r = (s', Ok applied) ->
  missing r s = Ok applied /\ same_session s s'
  /\ (forall cap, holds s' cap = holds s cap || grants applied cap)
  /\ (grants_ok s -> grants_ok s').
Proof.
  unfold apply_session_grants. destruct (missing r s) as [a|]; [|done].
  destruct (is_effectively_empty a) eqn:Ee.
  { intros [= <- <-]. split; [done|]. split; [apply same_session_refl|].
    split; [|done]. intros cap. by rewrite effectively_empty_grants, orb_false_r. }
  cbv zeta.
  destruct (_ <=? MAX_GRANT_LISTEN_PORTS) eqn:Ep; cbn [negb]; [|done].
  destruct (_ <=? MAX_GRANT_ENV_PREFIXES) eqn:Ef; cbn [negb]; [|done].
  intros [= <- <-]. split; [done|]. split; [by repeat split|]. split.
  - intros []; cbn; autorewrite with grants; done.
  - intros Hok. apply Z.leb_le in Ep, Ef. constructor; cbn; try done.
    + apply ports_above.
    + apply prefixes_above.
    + apply paths_above.
Qed.

Lemma apply_err s r s' e :
  apply s r = (s', Err e) ->
  same_session s s' /\ s_permitted_directories s' = s_permitted_directories s
  /\ ((s' = s /\ missing r s = Err e)
      \/ exists applied, missing r s = Ok applied
         /\ sg_listen_ports (s_grants s')
            = sort_ports (sg_listen_ports (s_grants s) ++ gr_listen_ports applied)
         /\ (forall cap, holds s' cap = true -> holds s cap || grants applied cap = true)
         /\ (MAX_GRANT_LISTEN_PORTS < zlen (sg_listen_ports (s_grants s'))
             \/ MAX_GRANT_ENV_PREFIXES < zlen (sg_dev_tool_env_prefixes (s_grants s')))).
Proof.
  unfold apply_session_grants. destruct (missing r s) as [a|e'].
  2: { intros [= <- <-]. split; [apply same_session_refl|]. split; [done|]. by left. }
  destruct (is_effectively_empty a) eqn:Ee; [done|].
  cbv zeta.
  destruct (_ <=? MAX_GRANT_LISTEN_PORTS) eqn:Ep; cbn [negb];
    [destruct (_ <=? MAX_GRANT_ENV_PREFIXES) eqn:Ef; cbn [negb]; [done|]|].
  all: intros [= <- _]; split; [by repeat split|]; split; [done|]; right; exists a;
    split; [done|]; split; [done|]; split;
    [intros []; cbn; autorewrite with grants; tauto_or
    |cbn in *; rewrite ?Z.leb_gt in *; tauto].
Qed.

Lemma asked_or_held s r applied s' cap :
  missing r s = Ok applied ->
  holds s' cap = holds s cap || grants applied cap ->
  holds s' cap = holds s cap || asks r cap.
Proof. intros Hm ->. rewrite (missing_spec _ _ _ _ Hm). apply or_missing. Qed.

Lemma apply_session_grants_grows r s s' answer :
  apply s r = (s', answer) ->
  same_session s s' /\ forall cap, holds s' cap = true -> holds s cap || asks r cap = true.
Proof.
  intros Ha. destruct answer as [applied|e].
  - destruct (apply_ok _ _ _ _ Ha) as (Hm & Hs & Hh & _). split; [done|]. intros cap.
    by rewrite (asked_or_held _ _ _ _ _ Hm (Hh cap)).
  - destruct (apply_err _ _ _ _ Ha) as (Hs & _ & [[-> _]|(applied & Hm & _ & Hh & _)]);
      (split; [done|]); intros cap Hc; [by rewrite Hc|].
    rewrite <- or_missing, <- (missing_spec _ _ _ _ Hm). by apply Hh.
Qed.

(** A grant that is applied adds exactly what was asked for, a directory by the path it
    resolves to: afterwards the session holds what it held and what the request asks, the
    delta that is reported is what was asked and not held before, the identity, the working
    directory and the permission mode stay, and lists that were sorted, free of duplicates
    and within the limits stay so. A request that is refused adds no directory and nothing
    that it did not ask for. *)
Theorem apply_grants_spec s r s' answer :
  apply s r = (s', answer) ->
  same_session s s'
  /\ match answer with
     | Ok applied =>
         (forall cap, holds s' cap = holds s cap || asks r cap)
         /\ (forall cap, grants applied cap = asks r cap && negb (holds s cap))
         /\ (grants_ok s -> grants_ok s')
     | Err _ =>
         s_permitted_directories s' = s_permitted_directories s
         /\ forall cap, holds s' cap = true -> holds s cap = true \/ asks r cap = true
     end.
Proof.
  intros Ha. destruct answer as [applied|e].
  - destruct (apply_ok _ _ _ _ Ha) as (Hm & Hs & Hh & Hok). split; [done|].
    split; [intros cap; by eapply asked_or_held|]. split; [|done].
    intros cap. by apply missing_spec.
  - destruct (apply_err _ _ _ _ Ha) as (Hs & Hd & [[-> _]|(applied & Hm & _ & Hh & _)]);
      (split; [done|]; split; [done|]); intros cap Hc; [by left|].
    apply Hh, orb_true_iff in Hc as [Hc|Hc]; [by left|right].
    rewrite (missing_spec _ _ _ _ Hm) in Hc. by apply andb_true_iff in Hc as [].
Qed.

(** A grant request that is refused for exceeding the limit of listen ports or of
    environment prefixes has been carried out in part: every listen port it asks for is held
    by the session all the same (and kept by the next save), and one of the two lists is over
    its limit. *)
Theorem refused_grant_in_effect s r s' e applied :
  missing r s = Ok applied ->
  apply s r = (s', Err e) ->
  (forall port, asks r (CapPort port) = true -> holds s' (CapPort port) = true)
  /\ ~ grants_ok s'.
Proof.
  intros Hm Ha. destruct (apply_err _ _ _ _ Ha) as (_ & _ & [[_ Hn]|(a & Hm' & Hp & _ & Hl)]);
    [by rewrite Hm in Hn|]. rewrite Hm in Hm'. injection Hm' as <-. split.
  - intros port Hask. cbn. rewrite Hp. autorewrite with grants.
    pose proof (missing_spec _ _ _ (CapPort port) Hm) as Hs. cbn in Hs, Hask. rewrite Hs, Hask.
    apply or_missing_true.
  - intros []. destruct Hl; lia.
Qed.
End Applying.

(** * Revoking *)

Lemma revoke_shrinks s r s' answer :
  revoke_session_grants s r = (s', answer) ->
  same_session s s' /\ forall cap, holds s' cap = true -> holds s cap = true.
Proof.
  unfold revoke_session_grants. destruct (bind _ _) as [[]|]; intros [= <- _];
    (split; [by repeat split|]); [|done].
  intros []; cbn; autorewrite with grants; rewrite ?andb_true_iff; try tauto.
  by destruct (gr_ambient_git_credentials r && _).
Qed.

(** Revoking takes from the session exactly what the request names, reports what was
    taken, never touches the permitted directories, and keeps the lists in order and within
    their limits; a request that names a directory, or is invalid, changes nothing. *)
Theorem revoke_grants_spec s r s' answer :
  revoke_session_grants s r = (s', answer) ->
  same_session s s' /\ s_permitted_directories s' = s_permitted_directories s
  /\ (grants_ok s -> grants_ok s')
  /\ match answer with
     | Ok removed =>
         gr_directories r = [] /\ request_validate r = Ok tt
         /\ (forall cap, holds s' cap = holds s cap && negb (grants r cap))
         /\ (forall cap, grants removed cap = grants r cap && holds s cap && negb (is_directory cap))
     | Err _ => s' = s /\ (gr_directories r <> [] \/ request_validate r <> Ok tt)
     end.
Proof.
  unfold revoke_session_grants.
  destruct (gr_directories r) eqn:Ed; cbn [ensure bind].
  2: { intros [= <- <-]. split; [apply same_session_refl|]. split; [done|]. split; [done|].
       split; [done|]. by left. }
  destruct (request_validate r) as [[]|] eqn:Ev.
  2: { intros [= <- <-]. split; [apply same_session_refl|]. split; [done|]. split; [done|].
       split; [done|]. by right. }
  intros [= <- <-]. split; [by repeat split|]. split; [done|]. split.
  { intros []. constructor; cbn; try apply filter_sorted; try done.
    - etransitivity; [apply filter_zlen|done].
    - etransitivity; [apply filter_zlen|done]. }
  split; [done|]. split; [done|]. split.
  - intros []; cbn; autorewrite with grants; rewrite ?Ed; cbn; rewrite ?andb_true_r; try done.
    by destruct (gr_ambient_git_credentials r), (sg_ambient_git_credentials _).
  - intros []; cbn; autorewrite with grants; rewrite ?Ed; cbn; rewrite ?andb_true_r; done.
Qed.

(** * Concrete sessions *)

Module ConfigWitness.
(** Absolute paths resolve to themselves but for [/link], which resolves to [/real]. *)
Definition resolve (p : string) : result string string :=
  if String.eqb p "/link" then Ok "/real"%string
  else if is_absolute p then Ok p else Err "cannot resolve path"%string.

Definition session_with (ports : list Z) : Session :=
  mkSession "s1" "/work" ["/work"] 5 100 Ask (mkGrants ports ["NODE_"] false).

Definition ports_upto (n : nat) : list Z := map Z.of_nat (seq 1 n).

Definition request : SessionGrantRequest :=
  mkRequest [443; 80; 443; 22] ["NPM_"; "NODE_"] true ["/link"; "/work"; "/tmp//x"].

(** Everything that is new is reported, in order. *)
Example applied :
  apply_session_grants resolve (session_with [22]) request
  = (mkSession "s1" "/work" ["/real"; "/tmp//x"; "/work"] 5 100 Ask
       (mkGrants [22; 80; 443] ["NODE_"; "NPM_"] true),
     Ok (mkRequest [80; 443] ["NPM_"] true ["/real"; "/tmp//x"])).
Proof. vm_compute. reflexivity. Qed.

Lemma apply_grants_spec_witness :
  holds (fst (apply_session_grants resolve (session_with [22]) request)) (CapDirectory "/real")
  = true
  /\ holds (fst (apply_session_grants resolve (session_with [22]) request)) (CapDirectory "/link")
     = false.
Proof.
  pose proof (apply_grants_spec resolve (session_with [22]) request _ _ applied) as [_ [Hh _]].
  rewrite applied. cbn [fst]. rewrite !Hh. split; vm_compute; reflexivity.
Defined.

(** The 65th port is refused, and open. *)
Definition refused_session : Session :=
  mkSession "s1" "/work" ["/work"] 5 100 Ask (mkGrants (ports_upto 64 ++ [9000]) ["NODE_"] false).

Definition one_port : SessionGrantRequest := mkRequest [9000] [] false [].

Example refused :
  apply_session_grants resolve (session_with (ports_upto 64)) one_port
  = (refused_session, Err "listen port grant exceeds 64 ports"%string).
Proof. vm_compute. reflexivity. Qed.

Example refused_missing :
  grants_missing_from resolve one_port (session_with (ports_upto 64)) = Ok one_port.
Proof. vm_compute. reflexivity. Qed.

Lemma refused_grant_in_effect_witness :
  holds (session_with (ports_upto 64)) (CapPort 9000) = false
  /\ holds refused_session (CapPort 9000) = true.
Proof.
  split; [vm_compute; reflexivity|].
  apply (refused_grant_in_effect resolve _ _ _ _ _ refused_missing refused).
  vm_compute. reflexivity.
Defined.

Definition taken : Session * result string SessionGrantRequest :=
  revoke_session_grants (session_with [22; 80; 443]) (mkRequest [80; 81] ["NODE_"] true []).

Lemma revoke_grants_spec_witness :
  holds (fst taken) (CapPort 80) = false /\ holds (fst taken) (CapPort 22) = true
  /\ snd taken = Ok (mkRequest [80] ["NODE_"] false []).
Proof.
  destruct (revoke_grants_spec (session_with [22; 80; 443]) (mkRequest [80; 81] ["NODE_"] true [])
              (fst taken) (Ok (mkRequest [80] ["NODE_"] false []))) as (_ & _ & _ & _ & _ & Hh & _).
  { vm_compute. reflexivity. }
  rewrite !Hh. repeat split; vm_compute; reflexivity.
Defined.
End ConfigWitness.
