(* ===== verification/NamedRoots.v ===== *)
(** * Named roots: src/src/named_roots.rs

    A host names the directories under which sessions may run.  A client names a
    session's directory by a logical path, [root/relative]; the physical path is
    what that resolves to, and it has to stay below the root.  What a path
    resolves to, what is a directory and what is a symbolic link are parameters. *)

From S2P Require Import Prelude Strings Json Config.

#[local] Open Scope Z_scope.
#[local] Open Scope rust_scope.

(** [BTreeMap::insert]: the entries in the order of their keys. *)
Fixpoint btree_insert {A : Type} (k : string) (v : A) (l : list (string * A)) : list (string * A) :=
  match l with
  | [] => [(k, v)]
  | (k', v') :: rest =>
      if String.eqb k k' then (k, v) :: rest
      else if String.leb k k' then (k, v) :: l
      else (k', v') :: btree_insert k v rest
  end.

Definition btree_get {A : Type} (k : string) (l : list (string * A)) : option A :=
  snd <$> find (fun kv => String.eqb kv.1 k) l.

Record NamedRoots := mkNamedRoots {
  nr_roots : list (string * string);
}.

(** * Paths *)

Fixpoint is_prefix_of (a b : list Component) : bool :=
  match a, b with
  | [], _ => true
  | x :: a, y :: b => bool_decide (x = y) && is_prefix_of a b
  | _ :: _, [] => false
  end.

(** [Path::starts_with]. *)
Definition path_starts_with (path base : string) : bool :=
  is_prefix_of (components base) (components path).

Definition component_text (c : Component) : string :=
  match c with
  | RootDir => "/"
  | CurDir => "."
  | ParentDir => ".."
  | Normal name => name
  end.

(** [Path::strip_prefix]. *)
Definition path_strip_prefix (base path : string) : result string string :=
  if path_starts_with path base
  then Ok (join_strings "/"
             (map component_text (drop (length (components base)) (components path))))
  else Err "prefix not found"%string.

(** [components().count()]. *)
Definition path_depth (path : string) : nat := length (components path).

(** [PathBuf::join]. *)
Definition path_join (base path : string) : string :=
  if is_absolute path then path
  else base +:+ (if str_is_empty base || ends_with "/" base then path else "/" +:+ path).

Definition root_name_byte (b : Z) : bool := is_ascii_alphanumeric b || (b =? 45) || (b =? 95).

Definition validate_root_name (name : string) : result string unit :=
  ensure (negb (str_is_empty name)) "root name must not be empty" ;!
  ensure (negb (String.eqb name ".") && negb (String.eqb name "..")) "invalid root name" ;!
  ensure (forallb root_name_byte (str_bytes name))
    "root name may contain only ASCII letters, numbers, '-', and '_'".

(** * Configuration *)

Section Configuration.
Context `{SerdeJson}.
Context (canonicalize : string -> result FsError string) (is_dir : string -> bool)
  (home_dir : option string).

(** The visitor of the JSON object: every name once. *)
Fixpoint visit_roots (entries : list (string * Json)) (roots : list (string * string)) :
    result string (list (string * string)) :=
  match entries with
  | [] => Ok roots
  | (name, value) :: rest =>
      let! path := ok_or (de_string value) "named root path must be a string"%string in
      ensure (negb (str_is_empty path)) "named root path must not be empty" ;!
      ensure (negb (is_some (btree_get name roots))) "duplicate named root in TEMOTE_ROOTS JSON" ;!
      visit_roots rest (btree_insert name path roots)
  end.

Definition parse_json_roots (value : string) : result string (list (string * string)) :=
  match from_slice value with
  | Some (JObj entries) =>
      let! roots := visit_roots entries [] in
      ensure (match roots with
              | [] => false
              | _ => true
              end) "TEMOTE_ROOTS JSON must not be empty" ;!
      Ok roots
  | _ => Err "invalid TEMOTE_ROOTS JSON"%string
  end.

Definition expand_home (path : string) : result string string :=
  if String.eqb path "~" then ok_or home_dir "cannot determine HOME for named root"%string
  else match str_strip_prefix "~/" path with
       | Some rest =>
           let! home := ok_or home_dir "cannot determine HOME for named root"%string in
           Ok (path_join home rest)
       | None => Ok path
       end.

(** The loop over the configured roots. *)
Fixpoint add_roots (configured roots : list (string * string)) :
    result string (list (string * string)) :=
  match configured with
  | [] => Ok roots
  | (name, configured_path) :: rest =>
      validate_root_name name ;!
      let! expanded := expand_home configured_path in
      let! canonical := map_err (fun _ => "cannot resolve configured named root"%string)
                          (canonicalize expanded) in
      ensure (is_dir canonical) "configured named root is not a directory" ;!
      ensure (negb (existsb (fun r => path_eqb r.2 canonical) roots))
        "named roots resolve to the same directory" ;!
      add_roots rest (btree_insert name canonical roots)
  end.

Definition parse (value : string) : result string NamedRoots :=
  let value := trim value in
  if str_is_empty value then Ok (mkNamedRoots [])
  else
    let! configured :=
      if starts_with "{" value then parse_json_roots value
      else
        let! mapping := ok_or (split_once "=" value)
          "TEMOTE_ROOTS must be either a single name=path mapping or a JSON object"%string in
        let '(name, path) := mapping in
        ensure (negb (str_is_empty path)) "TEMOTE_ROOTS path must not be empty" ;!
        Ok [(name, path)] in
    let! roots := add_roots configured [] in
    Ok (mkNamedRoots roots).

(** [from_env]: the variable's bytes, if it is set. *)
Definition from_env (variable : option string) : result string NamedRoots :=
  match variable with
  | None => Ok (mkNamedRoots [])
  | Some value =>
      ensure (utf8_valid (str_bytes value)) "TEMOTE_ROOTS must be valid UTF-8" ;!
      parse value
  end.
End Configuration.

Definition canonical_root (roots : NamedRoots) (name : string) : option string :=
  btree_get name (nr_roots roots).
Definition roots_empty (roots : NamedRoots) : bool :=
  match nr_roots roots with
  | [] => true
  | _ => false
  end.
Definition root_names (roots : NamedRoots) : list string := map fst (nr_roots roots).

(** * Resolving *)

Section Resolving.
Context (canonicalize : string -> result FsError string) (is_dir : string -> bool)
  (is_symlink : string -> result FsError bool).

Definition resolve (roots : NamedRoots) (logical_path : string) : result string string :=
  ensure (negb (trim_is_empty logical_path)) "session path must not be empty" ;!
  ensure (negb (is_absolute logical_path)) "absolute session paths are not allowed" ;!
  match components logical_path with
  | [] => Err "session path must name a root"%string
  | Normal root_name :: rest =>
      validate_root_name root_name ;!
      let! physical_root := ok_or (canonical_root roots root_name) "unknown named root"%string in
      let candidate := fold_left push_component rest physical_root in
      let! target := map_err (fun _ => "cannot resolve session path"%string)
                       (canonicalize candidate) in
      ensure (is_dir target) "session path is not a directory" ;!
      ensure (path_eqb target physical_root || path_starts_with target physical_root)
        "session path escapes named root" ;!
      Ok target
  | _ => Err "session path must begin with a valid root name"%string
  end.

(** The loop over the roots: the deepest one, and one it is tied with. *)
Fixpoint deepest_root (cwd : string) (roots : list (string * string))
    (best : option (string * string)) (tied_with : option string) :
    option (string * string) * option string :=
  match roots with
  | [] => (best, tied_with)
  | (name, root) :: rest =>
      if negb (path_eqb cwd root) && negb (path_starts_with cwd root)
      then deepest_root cwd rest best tied_with
      else match best with
      | Some (_, best_root) =>
          if (path_depth root =? path_depth best_root)%nat
          then deepest_root cwd rest best (Some name)
          else if (path_depth root <? path_depth best_root)%nat
          then deepest_root cwd rest best tied_with
          else deepest_root cwd rest (Some (name, root)) None
      | None => deepest_root cwd rest (Some (name, root)) None
      end
  end.

Definition reverse_resolve (roots : NamedRoots) (cwd : string) : result string (option string) :=
  let! cwd := canonical_directory canonicalize is_dir cwd in
  match deepest_root cwd (nr_roots roots) None None with
  | (None, _) => Ok None
  | (Some _, Some _) => Err "named roots ambiguously match"%string
  | (Some (name, root), None) =>
      let! relative := path_strip_prefix root cwd in
      if str_is_empty relative then Ok (Some name)
      else
        ensure (utf8_valid (str_bytes relative)) "session cwd must be valid UTF-8" ;!
        Ok (Some (name +:+ "/" +:+ relative))
  end.

(** The loop over the roots for a generated path: the deepest one, never a tie. *)
Fixpoint most_specific (candidate : string) (roots : list (string * string))
    (best : option (string * string)) : result string (option (string * string)) :=
  match roots with
  | [] => Ok best
  | (name, configured) :: rest =>
      if negb (path_eqb candidate configured) && negb (path_starts_with candidate configured)
      then most_specific candidate rest best
      else match best with
      | Some (_, best_root) =>
          if (path_depth best_root <? path_depth configured)%nat
          then most_specific candidate rest (Some (name, configured))
          else if (path_depth configured =? path_depth best_root)%nat
          then Err "generated mutation path matches ambiguous named roots"%string
          else most_specific candidate rest best
      | None => most_specific candidate rest (Some (name, configured))
      end
  end.

(** The loop over the components below the root. *)
Fixpoint check_mutation_components (roots : NamedRoots) (requested_root candidate : string)
    (rest : list Component) : result string unit :=
  match rest with
  | [] => Ok tt
  | Normal component :: rest =>
      let candidate := push_component candidate (Normal component) in
      let! best := most_specific candidate (nr_roots roots) None in
      ensure (is_some_and (fun b => String.eqb b.1 requested_root) best)
        "generated mutation path resolves through a different, more-specific named root" ;!
      match is_symlink candidate with
      | Ok symlink =>
          ensure (negb symlink) "generated mutation path contains a symbolic link" ;!
          check_mutation_components roots requested_root candidate rest
      | Err FsNotFound => check_mutation_components roots requested_root candidate rest
      | Err _ => Err "cannot inspect generated mutation path"%string
      end
  | _ :: _ => Err "generated mutation path has an unsafe component"%string
  end.

Definition validate_mutation_path_under_root (roots : NamedRoots) (requested_root path : string) :
    result string unit :=
  let! root := ok_or (canonical_root roots requested_root)
    "requested named root is unavailable"%string in
  ensure (is_absolute path && path_starts_with path root)
    "generated mutation path is outside its named root" ;!
  check_mutation_components roots requested_root root
    (drop (length (components root)) (components path)) ;!
  ensure (negb (existsb (fun r => negb (String.eqb r.1 requested_root) && path_starts_with r.2 path)
                  (nr_roots roots)))
    "generated mutation tree contains a nested named root".
End Resolving.
