(* ===== verification/NamedRootsTheorems.v ===== *)
(** * Logical paths

    A logical path resolves to a directory below its root, and nothing else; the
    path that a directory is given back is the one of the deepest root, and
    resolves to the directory again; a generated path that is accepted stays
    within its root at every step. *)

From S2P Require Import Prelude Strings Json Config ConfigTheorems NamedRoots.

#[local] Open Scope Z_scope.
#[local] Open Scope rust_scope.

(** * Paths *)

Lemma is_prefix_of_app a b : is_prefix_of a b = true <-> exists c, b = a ++ c.
Proof.
  revert b. induction a as [|x a IH]; intros b; cbn; [split; [by exists b|done]|].
  destruct b as [|y b]; cbn; [split; [done|by intros [c ?]]|].
  rewrite andb_true_iff, bool_decide_eq_true, IH. split.
  - intros [-> [c ->]]. by exists c.
  - intros [c [= -> ->]]. eauto.
Qed.

Lemma starts_with_app path base :
  path_starts_with path base = true <-> exists c, components path = components base ++ c.
Proof. apply is_prefix_of_app. Qed.

Lemma inside_app path base :
  path_eqb path base || path_starts_with path base = true
  <-> exists c, components path = components base ++ c.
Proof.
  rewrite orb_true_iff, path_eqb_eq, starts_with_app. split; [|auto].
  intros [E|]; [|done]. exists []. by rewrite app_nil_r.
Qed.

(** A name: what [Path::components] gives as one component. *)
Definition name_ok (name : string) : Prop :=
  "/"%char ∉ list_ascii_of_string name /\ name <> EmptyString /\ name <> "."%string
  /\ name <> ".."%string.

Lemma split_on_pieces sep s : forall p, p ∈ split_on sep s -> sep ∉ list_ascii_of_string p.
Proof.
  induction s as [|c s IH]; cbn.
  - intros p [->|[]%elem_of_nil]%elem_of_cons. by apply not_elem_of_nil.
  - destruct (Ascii.eqb_spec c sep) as [->|Hne].
    + intros p [->|Hp]%elem_of_cons; [by apply not_elem_of_nil|by apply IH].
    + destruct (split_on sep s) as [|q l] eqn:E; [by destruct (split_on_nonempty sep s)|].
      intros p [->|Hp]%elem_of_cons; [|by apply IH; right].
      cbn. apply not_elem_of_cons. split; [done|]. apply IH. by left.
Qed.

Lemma normal_name path name : Normal name ∈ components path -> name_ok name.
Proof.
  unfold components. intros [Hin|Hin]%elem_of_app.
  { destruct (starts_with "/" path); [by apply list_elem_of_singleton in Hin|].
    destruct (split_on "/" path) as [|p l]; [by apply elem_of_nil in Hin|].
    destruct (p =? ".")%string; [by apply list_elem_of_singleton in Hin|by apply elem_of_nil in Hin]. }
  apply elem_of_map_inv in Hin as (p & Hp & Hn). apply list_elem_of_In, filter_In in Hp as [Hp Hk].
  apply list_elem_of_In, split_on_pieces in Hp.
  apply andb_true_iff in Hk as [H1%negb_true_iff%String.eqb_neq H2%negb_true_iff%String.eqb_neq].
  unfold component_of in Hn. destruct (String.eqb_spec p ".."); [done|]. by injection Hn as ->.
Qed.

(** The components of an absolute path followed by a piece. *)
Definition keep (pieces : list string) : list Component :=
  map component_of
    (List.filter (fun p => negb (String.eqb p EmptyString) && negb (String.eqb p ".")) pieces).

Lemma keep_app a b : keep (a ++ b) = keep a ++ keep b.
Proof. unfold keep. by rewrite List.filter_app, map_app. Qed.

Lemma keep_name name : name_ok name -> keep [name] = [Normal name].
Proof.
  intros (_ & H1%String.eqb_neq & H2%String.eqb_neq & H3%String.eqb_neq). unfold keep. cbn.
  rewrite H1, H2. cbn. unfold component_of. by rewrite H3.
Qed.

Lemma keep_names names : Forall name_ok names -> keep names = map Normal names.
Proof.
  induction 1 as [|n l Hn _ IH]; [done|]. change (n :: l) with ([n] ++ l).
  by rewrite keep_app, keep_name, IH.
Qed.

Lemma components_absolute path :
  is_absolute path = true -> components path = RootDir :: keep (split_on "/" path).
Proof. unfold components, is_absolute. by intros ->. Qed.

Lemma starts_with_snoc a b : starts_with "/" a = true -> starts_with "/" (a +:+ b) = true.
Proof.
  unfold starts_with. destruct a as [|c a]; [done|]. rewrite string_app_cons. cbn [String.prefix].
  destruct (ascii_dec _ c); [|done]. by destruct a, b.
Qed.

Lemma push_absolute path c : is_absolute path = true -> is_absolute (push_component path c) = true.
Proof.
  unfold is_absolute. destruct c; cbn [push_component]; intros Ha; try apply starts_with_snoc; done.
Qed.

Lemma components_push path name :
  is_absolute path = true -> name_ok name ->
  components (push_component path (Normal name)) = components path ++ [Normal name].
Proof.
  intros Ha Hn. rewrite !components_absolute by (done || by apply push_absolute).
  cbn [push_component app]. f_equal. destruct (str_is_empty path) eqn:Ee.
  { by destruct path. }
  cbn [orb]. destruct (ends_with "/" path) eqn:Es.
  - unfold ends_with in Es. destruct (str_strip_suffix "/" path) as [stem|] eqn:Ep; [|done].
    apply str_strip_suffix_Some in Ep. subst path.
    change (stem +:+ "/") with (stem +:+ String "/" EmptyString) in *.
    rewrite string_app_assoc. change (String "/" EmptyString +:+ name) with (String "/" name).
    rewrite !split_on_app, !keep_app, (split_on_none _ name) by apply Hn. rewrite keep_name by done.
    cbn. by rewrite app_nil_r.
  - change ("/" +:+ name) with (String "/" name).
    by rewrite split_on_app, keep_app, (split_on_none _ name), keep_name by (apply Hn || done).
Qed.

Lemma components_pushes names path :
  is_absolute path = true -> Forall name_ok names ->
  components (fold_left push_component (map Normal names) path)
  = components path ++ map Normal names
  /\ is_absolute (fold_left push_component (map Normal names) path) = true.
Proof.
  intros Ha Hn. revert path Ha. induction Hn as [|n l Hn _ IH]; intros path Ha; cbn [map fold_left].
  { by rewrite app_nil_r. }
  destruct (IH _ (push_absolute path (Normal n) Ha)) as [-> ?]. rewrite components_push by done.
  by rewrite <- app_assoc.
Qed.

(** Names joined with slashes, and taken apart again. *)
Lemma split_join names :
  names <> [] -> Forall name_ok names -> split_on "/" (join_strings "/" names) = names.
Proof.
  unfold join_strings. intros Hne Hn. induction Hn as [|n l Hn Hl IH]; [done|].
  destruct l as [|m l]; [by apply split_on_none, Hn|].
  change (String.concat "/" (n :: m :: l)) with (n +:+ String "/" (String.concat "/" (m :: l))).
  rewrite split_on_app, (split_on_none _ n) by apply Hn. by rewrite IH.
Qed.

Lemma name_not_absolute name rest : name_ok name -> is_absolute (name +:+ rest) = false.
Proof.
  intros (Hs & He & _). destruct name as [|c s]; [done|]. 
  unfold is_absolute, starts_with. rewrite string_app_cons. cbn [String.prefix].
  destruct (ascii_dec _ c) as [<-|]; [|done]. destruct Hs. by left.
Qed.

Lemma components_logical names :
  names <> [] -> Forall name_ok names -> components (join_strings "/" names) = map Normal names.
Proof.
  intros Hne Hn. unfold components. rewrite split_join by done.
  destruct names as [|n l]; [done|]. inversion Hn as [|? ? Hnn _]; subst.
  assert (starts_with "/" (join_strings "/" (n :: l)) = false) as ->.
  { unfold join_strings. destruct l as [|m l].
    - rewrite <- (string_app_nil_r n). cbn [String.concat]. by apply (name_not_absolute n).
    - change (String.concat "/" (n :: m :: l)) with (n +:+ "/" +:+ String.concat "/" (m :: l)).
      by apply (name_not_absolute n). }
  destruct Hnn as (_ & _ & H2%String.eqb_neq & _). rewrite H2. cbn [app].
  exact (keep_names _ Hn).
Qed.

(** * Sorted entries *)

Definition key_lt (a b : string) : Prop := String.leb a b = true /\ a <> b.

Definition entries_sorted {A : Type} (l : list (string * A)) : Prop :=
  StronglySorted key_lt (map fst l).

Lemma key_lt_total a b : a <> b -> String.leb a b = false -> key_lt b a.
Proof.
  intros Hne Hf. destruct (String.leb_total a b) as [E|E]; [by rewrite E in Hf|]. by split.
Qed.

Lemma btree_insert_in {A : Type} k (v : A) l kv :
  kv ∈ btree_insert k v l -> kv = (k, v) \/ kv ∈ l.
Proof.
  induction l as [|[k' v'] l IH]; cbn.
  - intros [->|[]%elem_of_nil]%elem_of_cons. by left.
  - destruct (k =? k')%string; [|destruct (String.leb k k')].
    + intros [->|Hin]%elem_of_cons; [by left|right; by right].
    + intros [->|Hin]%elem_of_cons; [by left|by right].
    + intros [->|Hin]%elem_of_cons; [right; by left|].
      apply IH in Hin as [->|Hin]; [by left|right; by right].
Qed.

Lemma btree_insert_sorted {A : Type} k (v : A) l :
  entries_sorted l -> entries_sorted (btree_insert k v l).
Proof.
  unfold entries_sorted. induction l as [|[k' v'] l IH]; cbn [btree_insert map fst];
    intros Hs; [by repeat constructor|].
  apply StronglySorted_inv in Hs as [Hs Hall].
  destruct (String.eqb_spec k k') as [->|Hne]; [by constructor|].
  destruct (String.leb k k') eqn:El; cbn [map fst].
  - constructor; [by constructor|]. constructor; [by split|].
    eapply Forall_impl; [exact Hall|]. intros x [Hx Hkx]. split.
    + by apply (string_leb_trans k k' x).
    + intros ->. apply Hne. by apply String.leb_antisym.
  - constructor; [by apply IH|]. apply Forall_forall. intros x Hx.
    apply elem_of_map_inv in Hx as ([y w] & Hy & ->).
    apply btree_insert_in in Hy as [[= -> ->]|Hy]; [by apply key_lt_total|].
    rewrite Forall_forall in Hall. apply Hall.
    change y with (fst (y, w)). by apply elem_of_map.
Qed.

Lemma entries_sorted_unique {A : Type} (l : list (string * A)) k v1 v2 :
  entries_sorted l -> (k, v1) ∈ l -> (k, v2) ∈ l -> v1 = v2.
Proof.
  unfold entries_sorted. induction l as [|[k' v'] l IH]; cbn; intros Hs; [by intros []%elem_of_nil|].
  apply StronglySorted_inv in Hs as [Hs Hall]. rewrite Forall_forall in Hall.
  assert (forall v, (k, v) ∈ l -> k' <> k) as Hne.
  { intros v Hv ->. destruct (Hall k) as [_ Hk]; [|done].
    change k with (fst (k, v)). by apply elem_of_map. }
  intros [[= -> ->]|H1]%elem_of_cons [E2|H2]%elem_of_cons.
  - by injection E2.
  - by destruct (Hne _ H2).
  - injection E2 as -> ->. by destruct (Hne _ H1).
  - by apply IH.
Qed.

Lemma btree_get_in {A : Type} k (v : A) l : btree_get k l = Some v -> (k, v) ∈ l.
Proof.
  unfold btree_get. destruct (find _ l) as [[k' v']|] eqn:E; cbn; [|done].
  apply find_some in E as [Hin Hk%String.eqb_eq]. cbn in Hk. subst k'.
  intros [= <-]. by apply list_elem_of_In.
Qed.

Lemma btree_get_sorted {A : Type} k (v : A) l :
  entries_sorted l -> (k, v) ∈ l -> btree_get k l = Some v.
Proof.
  intros Hs Hin. unfold btree_get. destruct (find _ l) as [[k' v']|] eqn:E; cbn.
  - apply find_some in E as [Hin' Hk%String.eqb_eq]. cbn in Hk. subst k'.
    apply list_elem_of_In in Hin'.
    f_equal. by apply (entries_sorted_unique l k).
  - apply list_elem_of_In in Hin. apply (find_none _ _ E) in Hin. cbn in Hin.
    by rewrite String.eqb_refl in Hin.
Qed.

(** * Configured roots *)

(** What [canonicalize] documents: an absolute path without [..]; and that a directory is
    found again under every spelling of its path. *)
Class FsLaws (canonicalize : string -> result FsError string) (is_dir : string -> bool) : Prop := {
  canonical_normal : forall p t, canonicalize p = Ok t ->
    is_absolute t = true /\ ParentDir ∉ components t;
  canonical_again : forall p t q, canonicalize p = Ok t -> is_dir t = true ->
    is_absolute q = true -> components q = components t -> canonicalize q = Ok t;
}.

Section Roots.
Context (canonicalize : string -> result FsError string) (is_dir : string -> bool).

Record roots_ok (roots : NamedRoots) : Prop := mkRootsOk {
  ro_sorted : entries_sorted (nr_roots roots);
  ro_names : forall name root, (name, root) ∈ nr_roots roots -> validate_root_name name = Ok tt;
  ro_canonical : forall name root, (name, root) ∈ nr_roots roots ->
    is_dir root = true /\ exists p, canonicalize p = Ok root;
  ro_distinct : forall n1 r1 n2 r2, (n1, r1) ∈ nr_roots roots -> (n2, r2) ∈ nr_roots roots ->
    components r1 = components r2 -> n1 = n2;
}.

Lemma add_roots_ok home configured roots roots' :
  roots_ok (mkNamedRoots roots) ->
  add_roots canonicalize is_dir home configured roots = Ok roots' -> roots_ok (mkNamedRoots roots').
Proof.
  revert roots. induction configured as [|[name path] rest IH]; intros roots Hok; cbn [add_roots].
  { by intros [= <-]. }
  destruct (validate_root_name name) as [[]|] eqn:En; cbn [bind]; [|done].
  destruct (expand_home home path) as [expanded|]; cbn [bind]; [|done].
  destruct (canonicalize expanded) as [root|] eqn:Ec; cbn [map_err bind]; [|done].
  destruct (is_dir root) eqn:Ed; cbn [ensure bind]; [|done].
  destruct (existsb _ roots) eqn:Ee; cbn [negb ensure bind]; [done|].
  apply IH. destruct Hok as [Hs Hn Hc Hd]. cbn [nr_roots] in *. split; cbn [nr_roots].
  - by apply btree_insert_sorted.
  - intros n r [[= -> ->]|Hin]%btree_insert_in; [done|by eapply Hn].
  - intros n r [[= -> ->]|Hin]%btree_insert_in; [split; [done|by exists expanded]|by eapply Hc].
  - assert (forall n r, (n, r) ∈ roots -> components r = components root -> False) as Hfresh.
    { intros n r Hin Hr. apply not_true_iff_false in Ee. apply Ee. apply existsb_exists.
      exists (n, r). split; [by apply list_elem_of_In|]. by apply path_eqb_eq. }
    intros n1 r1 n2 r2 [[= -> ->]|H1]%btree_insert_in [[= -> ->]|H2]%btree_insert_in Hr; [done| | |].
    + by destruct (Hfresh n2 r2).
    + by destruct (Hfresh n1 r1).
    + by eapply Hd.
Qed.

(** Roots are only ever configured as named, existing, distinct directories. *)
Lemma parse_ok `{SerdeJson} home value roots :
  parse canonicalize is_dir home value = Ok roots -> roots_ok roots.
Proof.
  assert (roots_ok (mkNamedRoots [])) as Hnil.
  { split; cbn; [constructor|..]; intros ? ? []%elem_of_nil || intros ? ? ? ? []%elem_of_nil. }
  unfold parse. destruct (str_is_empty _); [by intros [= <-]|].
  match goal with |- bind ?x _ = _ -> _ => destruct x as [configured|]; cbn [bind]; [|done] end.
  destruct (add_roots _ _ _ _ _) as [l|] eqn:E; cbn [bind]; [|done]. intros [= <-].
  by eapply add_roots_ok in E.
Qed.

(** * Resolving *)

Lemma root_name_ok name : validate_root_name name = Ok tt -> name_ok name.
Proof.
  unfold validate_root_name. intros H. apply bind_Ok in H as ([] & H1%ensure_Ok & H).
  apply bind_Ok in H as ([] & H2%ensure_Ok & H3%ensure_Ok).
  apply andb_true_iff in H2 as [H2%negb_true_iff%String.eqb_neq H2'%negb_true_iff%String.eqb_neq].
  split; [|split; [|done]].
  - intros Hin. rewrite forallb_forall in H3.
    assert (root_name_byte (byte_of "/") = true); [|done]. apply H3.
    unfold str_bytes. apply in_map. by apply list_elem_of_In.
  - by intros ->.
Qed.

(** What a client can reach by a logical path. *)
Lemma resolve_spec roots logical target :
  resolve canonicalize is_dir roots logical = Ok target ->
  exists name root rest below,
    components logical = Normal name :: rest /\ (name, root) ∈ nr_roots roots
    /\ canonicalize (fold_left push_component rest root) = Ok target /\ is_dir target = true
    /\ components target = components root ++ below.
Proof.
  unfold resolve. intros H. apply bind_Ok in H as ([] & _ & H). apply bind_Ok in H as ([] & _ & H).
  destruct (components logical) as [|[| | |name] rest]; try done.
  apply bind_Ok in H as ([] & Hn & H). apply bind_Ok in H as (root & Hr & H).
  apply ok_or_Ok in Hr. unfold canonical_root in Hr. apply btree_get_in in Hr.
  apply bind_Ok in H as (t & Ht & H). apply map_err_Ok in Ht.
  apply bind_Ok in H as ([] & Hd%ensure_Ok & H). apply bind_Ok in H as ([] & Hi%ensure_Ok & [= <-]).
  apply inside_app in Hi as [below Hb]. by exists name, root, rest, below.
Qed.

Lemma resolve_root roots logical target :
  resolve canonicalize is_dir roots logical = Ok target ->
  exists name root, hd_error (components logical) = Some (Normal name)
    /\ canonical_root roots name = Some root /\ is_dir target = true
    /\ path_starts_with target root = true.
Proof.
  intros Hres. pose proof Hres as Hroot. unfold resolve in Hroot.
  apply resolve_spec in Hres as (name & root & rest & below & Hc & _ & _ & Hd & Hb).
  apply bind_Ok in Hroot as ([] & _ & H). apply bind_Ok in H as ([] & _ & H). rewrite Hc in H.
  apply bind_Ok in H as ([] & _ & H). apply bind_Ok in H as (root' & Hr%ok_or_Ok & H).
  apply bind_Ok in H as (t & _ & H). apply bind_Ok in H as ([] & _ & H).
  apply bind_Ok in H as ([] & Hi%ensure_Ok & [= ->]).
  exists name, root'. rewrite Hc. split; [done|]. split; [done|]. split; [done|].
  apply inside_app in Hi as [below' Hi]. apply starts_with_app. by exists below'.
Qed.

(** A logical path resolves to an existing directory below the configured root that it
    names, wherever the components after it lead. *)
Theorem resolve_inside roots logical target :
  resolve canonicalize is_dir roots logical = Ok target ->
  exists name root, hd_error (components logical) = Some (Normal name)
    /\ canonical_root roots name = Some root /\ is_dir target = true
    /\ path_starts_with target root = true.
Proof. apply resolve_root. Qed.

(** ** The deepest root *)

Definition inside (cwd root : string) : bool := path_eqb cwd root || path_starts_with cwd root.

Lemma inside_depth cwd r1 r2 :
  inside cwd r1 = true -> inside cwd r2 = true -> path_depth r1 = path_depth r2 ->
  components r1 = components r2.
Proof.
  intros [c1 H1]%inside_app [c2 H2]%inside_app Hd. rewrite H1 in H2.
  by apply app_inj_1 in H2 as [? _].
Qed.

(** The loop ends with a root that contains the directory and is deeper than the others
    that do; with none when none does; and never with a tie. *)
Lemma deepest_root_spec cwd all : forall before rest best tied,
  all = before ++ rest ->
  (forall n1 r1 n2 r2, (n1, r1) ∈ all -> (n2, r2) ∈ all -> components r1 = components r2 -> n1 = n2) ->
  NoDup (map fst all) ->
  tied = None ->
  match best with
  | Some (name, root) => (name, root) ∈ before /\ inside cwd root = true
      /\ forall n r, (n, r) ∈ before -> inside cwd r = true -> (path_depth r <= path_depth root)%nat
  | None => forall n r, (n, r) ∈ before -> inside cwd r = false
  end ->
  match deepest_root cwd rest best tied with
  | (Some (name, root), tied') => tied' = None /\ (name, root) ∈ all /\ inside cwd root = true
      /\ forall n r, (n, r) ∈ all -> inside cwd r = true -> (path_depth r <= path_depth root)%nat
  | (None, tied') => tied' = None /\ forall n r, (n, r) ∈ all -> inside cwd r = false
  end.
Proof.
  intros before rest. revert before.
  induction rest as [|[name root] rest IH]; intros before best tied Hall Hdist Hnd -> Hbest;
    cbn [deepest_root].
  { rewrite app_nil_r in Hall. subst all. by destruct best as [[name root]|]. }
  assert (all = (before ++ [(name, root)]) ++ rest) as Hall' by (by rewrite <- app_assoc).
  assert ((name, root) ∈ all) as Hin by (rewrite Hall; set_solver).
  rewrite <- negb_orb. fold (inside cwd root). destruct (inside cwd root) eqn:Ei; cbn [negb].
  2: { apply (IH (before ++ [(name, root)])); try done. destruct best as [[bn br]|].
       - destruct Hbest as (Hb & Hbi & Hmax). split; [set_solver|]. split; [done|].
         intros n r [Hn|[= -> ->]%list_elem_of_singleton]%elem_of_app Hr; [by eapply Hmax|congruence].
       - intros n r [Hn|[= -> ->]%list_elem_of_singleton]%elem_of_app; [by eapply Hbest|done]. }
  destruct best as [[bn br]|].
  - destruct Hbest as (Hb & Hbi & Hmax).
    destruct (Nat.eqb_spec (path_depth root) (path_depth br)) as [Heq|Hne].
    { exfalso. pose proof (inside_depth _ _ _ Ei Hbi Heq) as Hc.
      assert ((bn, br) ∈ all) as Hb' by (rewrite Hall; set_solver).
      pose proof (Hdist _ _ _ _ Hin Hb' Hc) as Hname. subst bn. rewrite Hall, map_app in Hnd.
      apply NoDup_app in Hnd as (_ & Hnd & _). apply (Hnd name); cbn; [|by left].
      change name with (fst (name, br)). by apply elem_of_map. }
    destruct (Nat.ltb_spec (path_depth root) (path_depth br)).
    + apply (IH (before ++ [(name, root)])); try done. split; [set_solver|]. split; [done|].
      intros n r [Hn|[= -> ->]%list_elem_of_singleton]%elem_of_app Hr; [by eapply Hmax|lia].
    + apply (IH (before ++ [(name, root)])); try done. split; [set_solver|]. split; [done|].
      intros n r [Hn|[= -> ->]%list_elem_of_singleton]%elem_of_app Hr; [|done].
      specialize (Hmax n r Hn Hr). lia.
  - apply (IH (before ++ [(name, root)])); try done. split; [set_solver|]. split; [done|].
    intros n r [Hn|[= -> ->]%list_elem_of_singleton]%elem_of_app Hr; [|done].
    by rewrite (Hbest n r Hn) in Hr.
Qed.

Lemma entries_sorted_nodup {A : Type} (l : list (string * A)) :
  entries_sorted l -> NoDup (map fst l).
Proof.
  unfold entries_sorted. induction (map fst l) as [|k ks IH]; intros Hs; [constructor|].
  apply StronglySorted_inv in Hs as [Hs Hall]. constructor; [|by apply IH].
  intros Hin. rewrite Forall_forall in Hall. by destruct (Hall k Hin) as [_ ?].
Qed.

(** ** Round trip *)

Lemma below_names path root cs :
  is_absolute path = true -> ParentDir ∉ components path -> is_absolute root = true ->
  components path = components root ++ cs ->
  exists names, cs = map Normal names /\ Forall name_ok names.
Proof.
  intros Hp Hnp Hr Hc.
  assert (forall c, c ∈ cs -> exists n, c = Normal n /\ name_ok n) as Hall.
  { intros c Hin. assert (c ∈ components path) as Hin' by (rewrite Hc; set_solver).
    pose proof Hc as Hk. rewrite (components_absolute _ Hp), (components_absolute _ Hr) in Hk.
    injection Hk as Hk. assert (c ∈ keep (split_on "/" path)) as Hin2 by (rewrite Hk; set_solver).
    unfold keep in Hin2. apply elem_of_map_inv in Hin2 as (piece & _ & ->).
    unfold component_of in *. destruct (piece =? "..")%string; [by destruct Hnp|].
    exists piece. split; [done|]. by apply (normal_name path). }
  clear Hc. induction cs as [|c cs IH]; [by exists []|].
  destruct (Hall c) as (n & -> & Hn); [by left|]. destruct IH as (names & -> & Hns).
  { intros x Hx. apply Hall. by right. }
  exists (n :: names). split; [done|]. by constructor.
Qed.

Lemma join_nonempty names :
  names <> [] -> Forall name_ok names -> str_is_empty (join_strings "/" names) = false.
Proof.
  intros Hne Hn. pose proof (components_logical names Hne Hn) as Hc.
  destruct (join_strings "/" names) as [|ch s] eqn:E; [|done]. by destruct names.
Qed.

Lemma nonblank name rest : validate_root_name name = Ok tt -> trim_is_empty (name +:+ rest) = false.
Proof.
  intros Hv. pose proof (root_name_ok _ Hv) as (_ & Hne & _).
  unfold validate_root_name in Hv. apply bind_Ok in Hv as ([] & _ & Hv).
  apply bind_Ok in Hv as ([] & _ & Hv%ensure_Ok).
  destruct name as [|ch s]; [done|]. cbn [str_bytes list_ascii_of_string map forallb] in Hv.
  apply andb_true_iff in Hv as [Hb _]. rewrite string_app_cons.
  unfold trim_is_empty, chars, str_bytes. cbn [list_ascii_of_string map utf8_decode].
  unfold root_name_byte, is_ascii_alphanumeric, is_ascii_digit in Hb.
  assert (byte_of ch < 128 /\ is_whitespace (byte_of ch) = false) as [Hlt Hw].
  { unfold is_whitespace. unfold in_range in *.
    repeat (apply orb_true_iff in Hb as [Hb|Hb]); try (apply andb_true_iff in Hb as [H1%Z.leb_le H2%Z.leb_le]);
      try (apply Z.eqb_eq in Hb); split; try lia;
      repeat (apply orb_false_iff; split); try (apply andb_false_iff); try (apply Z.eqb_neq); lia. }
  apply Z.ltb_lt in Hlt. rewrite Hlt. cbn [forallb]. by rewrite Hw.
Qed.

Lemma resolve_names `{FsLaws canonicalize is_dir} roots name root names c p :
  roots_ok roots -> (name, root) ∈ nr_roots roots -> Forall name_ok names ->
  canonicalize p = Ok c -> is_dir c = true -> components c = components root ++ map Normal names ->
  resolve canonicalize is_dir roots (join_strings "/" (name :: names)) = Ok c.
Proof.
  intros Hok Hin Hns Hc Hd Hcomp. pose proof (ro_names _ Hok _ _ Hin) as Hv.
  pose proof (root_name_ok _ Hv) as Hn. unfold resolve.
  assert (exists rest, join_strings "/" (name :: names) = name +:+ rest) as [rest Hj].
  { destruct names as [|n l]; [exists EmptyString; by rewrite string_app_nil_r|by eexists]. }
  rewrite components_logical by (done || by constructor). rewrite Hj, nonblank, name_not_absolute by done.
  cbn [negb ensure bind map]. rewrite Hv. cbn [bind]. unfold canonical_root.
  rewrite (btree_get_sorted name root) by (apply Hok || done). cbn [ok_or bind].
  destruct (ro_canonical _ Hok _ _ Hin) as (_ & q & Hq).
  destruct (canonical_normal _ _ Hq) as [Habs _].
  destruct (components_pushes names root Habs Hns) as [Hp Hpa]. rewrite <- Hcomp in Hp.
  rewrite (canonical_again p c _ Hc Hd Hpa Hp). cbn [map_err bind]. rewrite Hd. cbn [ensure bind].
  assert (path_eqb c root || path_starts_with c root = true) as ->.
  { apply inside_app. by eexists. }
  done.
Qed.

(** A directory is given back the logical path below the deepest root that contains it, and
    that path resolves to the directory; there is none exactly when no root contains it; two
    roots are never tied. *)
Theorem logical_path_round_trip `{FsLaws canonicalize is_dir} roots cwd c :
  roots_ok roots -> canonical_directory canonicalize is_dir cwd = Ok c ->
  match reverse_resolve canonicalize is_dir roots cwd with
  | Ok (Some logical) =>
      resolve canonicalize is_dir roots logical = Ok c
      /\ exists name root, hd_error (components logical) = Some (Normal name)
           /\ (name, root) ∈ nr_roots roots /\ inside c root = true
           /\ forall n r, (n, r) ∈ nr_roots roots -> inside c r = true ->
                (path_depth r <= path_depth root)%nat
  | Ok None => forall n r, (n, r) ∈ nr_roots roots -> inside c r = false
  | Err e => e = "session cwd must be valid UTF-8"%string
  end.
Proof.
  intros Hok Hcwd. unfold reverse_resolve. rewrite Hcwd. cbn [bind].
  pose proof (deepest_root_spec c (nr_roots roots) [] (nr_roots roots) None None eq_refl
    (ro_distinct _ Hok) (entries_sorted_nodup _ (ro_sorted _ Hok)) eq_refl) as Hdeep.
  destruct (deepest_root c (nr_roots roots) None None) as [[[name root]|] tied].
  2: { apply Hdeep. by intros n r []%elem_of_nil. }
  destruct Hdeep as (-> & Hin & Hi & Hmax); [by intros n r []%elem_of_nil|].
  apply inside_app in Hi as Hi'. destruct Hi' as [cs Hcs].
  unfold canonical_directory in Hcwd. apply bind_Ok in Hcwd as (x & Hx%map_err_Ok & Hcwd).
  apply bind_Ok in Hcwd as ([] & Hd%ensure_Ok & [= ->]).
  destruct (canonical_normal _ _ Hx) as [Habs Hpar].
  destruct (ro_canonical _ Hok _ _ Hin) as (_ & q & Hq).
  destruct (canonical_normal _ _ Hq) as [Habsr _].
  destruct (below_names c root cs Habs Hpar Habsr Hcs) as (names & -> & Hns).
  unfold path_strip_prefix. assert (path_starts_with c root = true) as ->
    by (apply starts_with_app; by eexists).
  cbn [bind]. rewrite Hcs, drop_app_length, map_map. cbn [component_text]. rewrite map_id.
  pose proof (resolve_names roots name root names c cwd Hok Hin Hns Hx Hd Hcs) as Hres.
  pose proof (components_logical (name :: names)) as Hcl.
  assert (hd_error (components (join_strings "/" (name :: names))) = Some (Normal name)) as Hhd.
  { rewrite Hcl; [done|done|]. constructor; [|done]. by apply root_name_ok, (ro_names _ Hok _ root). }
  destruct names as [|n l].
  - cbn [join_strings String.concat str_is_empty]. split; [exact Hres|]. by exists name, root.
  - rewrite join_nonempty by done. destruct (utf8_valid _); cbn [ensure bind]; [|done].
    change (name +:+ "/" +:+ join_strings "/" (n :: l)) with (join_strings "/" (name :: n :: l)).
    split; [exact Hres|]. by exists name, root.
Qed.
End Roots.

(** * Generated paths *)

Section Mutation.
Context (canonicalize : string -> result FsError string) (is_dir : string -> bool)
  (is_symlink : string -> result FsError bool).

Lemma most_specific_spec cand rest : forall best res,
  most_specific cand rest best = Ok res ->
  (forall b, best = Some b -> exists b', res = Some b' /\ (path_depth b.2 <= path_depth b'.2)%nat)
  /\ (forall n r, (n, r) ∈ rest -> inside cand r = true ->
        exists b', res = Some b' /\ (path_depth r <= path_depth b'.2)%nat)
  /\ (res = best \/ exists b', res = Some b' /\ b' ∈ rest).
Proof.
  induction rest as [|[name root] rest IH]; intros best res; cbn [most_specific].
  { intros [= <-]. split; [eauto|]. split; [by intros n r []%elem_of_nil|by left]. }
  rewrite <- negb_orb. fold (inside cand root). destruct (inside cand root) eqn:Ei; cbn [negb].
  2: { intros (H1 & H2 & H3)%IH. split; [done|]. split.
       - intros n r [[= -> ->]|Hin]%elem_of_cons Hr; [congruence|by apply (H2 n)].
       - destruct H3 as [->|(b' & -> & Hb)]; [by left|right; exists b'; split; [done|by right]]. }
  assert (forall x, most_specific cand rest x = Ok res ->
    x = Some (name, root) \/ (exists b, x = Some b /\ best = Some b /\ (path_depth root <= path_depth b.2)%nat) ->
    (forall b, best = Some b -> exists x', x = Some x' /\ (path_depth b.2 <= path_depth x'.2)%nat) ->
    (forall b, best = Some b -> exists b', res = Some b' /\ (path_depth b.2 <= path_depth b'.2)%nat)
    /\ (forall n r, (n, r) ∈ (name, root) :: rest -> inside cand r = true ->
          exists b', res = Some b' /\ (path_depth r <= path_depth b'.2)%nat)
    /\ (res = best \/ exists b', res = Some b' /\ b' ∈ (name, root) :: rest)) as Hstep.
  { intros x (H1 & H2 & H3)%IH Hx Hbest. split; [|split].
    - intros b Hb. destruct (Hbest b Hb) as (x' & -> & Hle). destruct (H1 x' eq_refl) as (b' & -> & Hle').
      exists b'. split; [done|lia].
    - intros n r [[= -> ->]|Hin]%elem_of_cons Hr; [|by apply (H2 n)].
      destruct Hx as [->|(b & -> & _ & Hle)]; [by apply (H1 (name, root))|].
      destruct (H1 b eq_refl) as (b' & -> & Hle'). exists b'. split; [done|lia].
    - destruct H3 as [->|(b' & -> & Hb)]; [|right; exists b'; split; [done|by right]].
      destruct Hx as [->|(b & -> & Hb & _)]; [right; exists (name, root); split; [done|by left]|by left]. }
  destruct best as [[bn br]|].
  - destruct (Nat.ltb_spec (path_depth br) (path_depth root)).
    + intros Hm. apply (Hstep (Some (name, root)) Hm); [by left|]. intros b [= <-]. exists (name, root).
      split; [done|cbn [snd]; lia].
    + destruct (path_depth root =? path_depth br)%nat; [done|]. intros Hm.
      apply (Hstep (Some (bn, br)) Hm); [right; by exists (bn, br)|]. intros b [= <-]. by exists (bn, br).
  - intros Hm. apply (Hstep (Some (name, root)) Hm); [by left|done].
Qed.

(** A prefix of the path that was checked. *)
Definition checked (roots : NamedRoots) (requested candidate : string) : Prop :=
  (is_symlink candidate = Ok false \/ is_symlink candidate = Err FsNotFound)
  /\ (exists root, (requested, root) ∈ nr_roots roots
       /\ forall n r, (n, r) ∈ nr_roots roots -> inside candidate r = true ->
            (path_depth r <= path_depth root)%nat).

Lemma check_mutation_spec roots requested rest : forall candidate,
  is_absolute candidate = true -> (forall n, Normal n ∈ rest -> name_ok n) ->
  check_mutation_components is_symlink roots requested candidate rest = Ok tt ->
  exists names, rest = map Normal names
    /\ forall k, (0 < k <= length names)%nat -> exists text,
         components text = components candidate ++ map Normal (take k names)
         /\ checked roots requested text.
Proof.
  induction rest as [|c rest IH]; intros candidate Habs Hnames; cbn [check_mutation_components].
  { intros _. exists []. split; [done|]. cbn. lia. }
  destruct c as [| | |n]; try done.
  assert (name_ok n) as Hn by (apply Hnames; by left).
  set (cand := push_component candidate (Normal n)).
  intros H. apply bind_Ok in H as (best & Hbest & H). apply bind_Ok in H as ([] & Heq%ensure_Ok & H).
  destruct best as [[bn br]|]; [|done]. cbn in Heq. apply String.eqb_eq in Heq. subst bn.
  apply most_specific_spec in Hbest as (_ & Hmax & Hin).
  destruct Hin as [?|([bn' br'] & [= <- <-] & Hin)]; [done|].
  assert ((is_symlink cand = Ok false \/ is_symlink cand = Err FsNotFound)
    /\ check_mutation_components is_symlink roots requested cand rest = Ok tt) as [Hlink Hrest].
  { destruct (is_symlink cand) as [link|[| |]] eqn:El; try done; [|by auto].
    destruct link; [done|]. by auto. }
  assert (checked roots requested cand) as Hcand.
  { split; [done|]. exists br. split; [done|]. intros m r Hm Hr.
    destruct (Hmax m r Hm Hr) as (b' & [= <-] & ?). done. }
  destruct (IH cand) as (names & -> & Hall); [by apply push_absolute| |done|].
  { intros m Hm. apply Hnames. by right. }
  exists (n :: names). split; [done|]. intros [|k] Hk; [lia|].
  assert (components cand = components candidate ++ [Normal n]) as Hc by (by apply components_push).
  destruct k as [|k]; [by exists cand|].
  destruct (Hall (S k)) as (text & Ht & Hchk); [cbn in Hk; lia|].
  exists text. split; [|done]. by rewrite Ht, Hc, <- app_assoc.
Qed.

(** A generated path that is accepted is its root and names below it; no prefix of it is a
    symbolic link or lies in a deeper root; and no other root lies below it. *)
Theorem mutation_path_confined `{FsLaws canonicalize is_dir} roots requested path root :
  roots_ok canonicalize is_dir roots -> canonical_root roots requested = Some root ->
  validate_mutation_path_under_root is_symlink roots requested path = Ok tt ->
  exists names, components path = components root ++ map Normal names
    /\ (forall k, (0 < k <= length names)%nat -> exists text,
          components text = components root ++ map Normal (take k names)
          /\ checked roots requested text)
    /\ forall n r, (n, r) ∈ nr_roots roots -> path_starts_with r path = true -> n = requested.
Proof.
  intros Hok Hroot Hv. unfold validate_mutation_path_under_root in Hv. rewrite Hroot in Hv.
  cbn [ok_or bind] in Hv. apply bind_Ok in Hv as ([] & Hin%ensure_Ok & Hv).
  apply bind_Ok in Hv as ([] & Hc & Hnest%ensure_Ok).
  apply andb_true_iff in Hin as [_ [cs Hcs]%starts_with_app].
  pose proof (btree_get_in _ _ _ Hroot) as Hmem.
  destruct (ro_canonical _ _ _ Hok _ _ Hmem) as (_ & q & Hq).
  destruct (canonical_normal _ _ Hq) as [Habs _].
  rewrite Hcs, drop_app_length in Hc.
  apply check_mutation_spec in Hc as (names & -> & Hall); [|done|].
  2: { intros n Hn. apply (normal_name path). rewrite Hcs. set_solver. }
  exists names. split; [done|]. split; [done|]. intros n r Hr Hp.
  destruct (String.eqb_spec n requested) as [|Hne%String.eqb_neq]; [done|].
  apply negb_true_iff, not_true_iff_false in Hnest. destruct Hnest. apply existsb_exists.
  exists (n, r). split; [by apply list_elem_of_In|]. cbn. by rewrite Hne, Hp.
Qed.
End Mutation.

(** * A host with nested roots *)

Module NamedRootsWitness.

Definition canon (path : string) : result FsError string :=
  match components path with
  | [RootDir] => Ok "/"%string
  | [RootDir; Normal "srv"] => Ok "/srv"%string
  | [RootDir; Normal "srv"; Normal "app"] => Ok "/srv/app"%string
  | [RootDir; Normal "srv"; Normal "app"; Normal "web"] => Ok "/srv/app/web"%string
  | _ => Err FsNotFound
  end.
Definition dirs (_ : string) : bool := true.
Definition links (path : string) : result FsError bool :=
  match canon path with
  | Ok _ => Ok false
  | Err e => Err e
  end.

Lemma canon_cases p t : canon p = Ok t -> components t = components p.
Proof. unfold canon. intros H. repeat (case_match; try done); by injection H as <-. Qed.

#[local] Instance canon_laws : FsLaws canon dirs.
Proof.
  split.
  - intros p t Hp. unfold canon in Hp.
    repeat (case_match; try done); injection Hp as <-; (split; [done|]);
      intros Hin; vm_compute in Hin;
      repeat (apply elem_of_cons in Hin as [?|Hin]; [done|]); by apply elem_of_nil in Hin.
  - intros p t q Hp _ _ Hq. rewrite (canon_cases p t Hp) in Hq. unfold canon in *. by rewrite Hq.
Qed.

Definition host_roots : NamedRoots :=
  mkNamedRoots [("app"%string, "/srv/app"%string); ("srv"%string, "/srv"%string)].

Lemma host_ok : roots_ok canon dirs host_roots.
Proof.
  split; unfold host_roots; cbn [nr_roots].
  - repeat constructor; done.
  - intros n r Hin. repeat (apply elem_of_cons in Hin as [[= -> ->]|Hin]; [by vm_compute|]).
    by apply elem_of_nil in Hin.
  - intros n r Hin. repeat (apply elem_of_cons in Hin as [[= -> ->]|Hin];
      [split; [done|first [by exists "/srv/app"%string|by exists "/srv"%string]]|]).
    by apply elem_of_nil in Hin.
  - intros n1 r1 n2 r2 H1 H2 Hc.
    repeat (apply elem_of_cons in H1 as [[= -> ->]|H1]; [|]); try by apply elem_of_nil in H1.
    all: repeat (apply elem_of_cons in H2 as [[= -> ->]|H2]; [|]); try by apply elem_of_nil in H2.
    all: done || (vm_compute in Hc; done).
Qed.

Lemma resolve_inside_witness : path_starts_with "/srv/app/web" "/srv/app" = true.
Proof.
  destruct (resolve_inside canon dirs host_roots "app/./web" "/srv/app/web") as (n & r & _ & Hr & _ & Hs);
    [by vm_compute|].
  by vm_compute.
Defined.

Lemma logical_path_round_trip_witness :
  reverse_resolve canon dirs host_roots "/srv//app/web" = Ok (Some "app/web"%string)
  /\ resolve canon dirs host_roots "app/web" = Ok "/srv/app/web"%string.
Proof.
  pose proof (logical_path_round_trip canon dirs host_roots "/srv//app/web" "/srv/app/web" host_ok
    eq_refl) as H.
  change (reverse_resolve canon dirs host_roots "/srv//app/web") with (Ok (E := string) (Some "app/web"%string)) in *.
  split; [done|]. exact (proj1 H).
Defined.

Lemma mutation_path_confined_witness :
  exists names, components "/srv/app/new/x" = components "/srv/app" ++ map Normal names.
Proof.
  destruct (mutation_path_confined canon dirs links host_roots "app" "/srv/app/new/x" "/srv/app" host_ok
    eq_refl) as (names & Hc & _); [by vm_compute|].
  by exists names.
Defined.
End NamedRootsWitness.
