(* ===== verification/SessionRuntime.v ===== *)
(** * The session runtime and its approvals: src/src/approvals.rs

    One session of a host runs one loop ([run_runtime]) that reads messages of
    clients and commands of the host, one at a time, and changes the session;
    what needs the operator becomes a task of its own that waits for the answer.
    Here the loop and its tasks are a transition system: [step] is executable,
    its label says what happens next (a message is read, the operator answers, a
    command is taken, the host sends one, the loop ends), and it yields what is
    written to the clients.

    The environment chooses the labels, whether saving the metadata fails, and
    whether the console's channel has room. *)

From S2P Require Import Prelude Strings Json Contract Broker Config.
From S2P Require Upgrade.

#[local] Open Scope Z_scope.
#[local] Open Scope rust_scope.

Definition MAX_SESSION_MESSAGE_BYTES : Z := 8 * 1024 * 1024.
Definition MAX_PENDING_APPROVALS : Z := 64.
Definition MAX_PENDING_RUNTIME_COMMANDS : Z := 64.
Definition MAX_APPROVAL_DETAIL_BYTES : Z := 64 * 1024.

(** * The environment captured at start *)

Definition MAX_CAPTURED_START_ENV_VALUE_BYTES : Z := 32 * 1024.
Definition MAX_CAPTURED_START_ENV_TOTAL_BYTES : Z := 56 * 1024.

Definition CAPTURED_START_ENV_NAMES : list string :=
  ["OP_SERVICE_ACCOUNT_TOKEN"; "KINTONE_BASE_URL"; "KINTONE_USERNAME"; "KINTONE_PASSWORD";
   "KINTONE_API_TOKEN"; "KINTONE_BASIC_AUTH_USERNAME"; "KINTONE_BASIC_AUTH_PASSWORD";
   "KINTONE_PFX_FILE_PATH"; "KINTONE_PFX_FILE_PASSWORD"; "KINTONE_ATTACHMENTS_DIR";
   "KINTONE_GUEST_SPACE_ID"; "HTTPS_PROXY"; "https_proxy"; "TEMOTE_MCP_KINTONE_MCP";
   "TEMOTE_MCP_KINTONE_CLI"; "PATH"; "HOME"; "CODEX_HOME"; "XDG_DATA_HOME"; "TMPDIR"; "LANG";
   "LC_ALL"].

(** A [BTreeMap] of the names and values. *)
Definition CapturedStartEnvironment : Type := gmap string string.

Definition name_captured (name : string) : bool :=
  existsb (String.eqb name) CAPTURED_START_ENV_NAMES.

(** [var] is [temote_mcp::environment::var]. *)
Definition capture (var : string -> option string) : CapturedStartEnvironment :=
  list_to_map (omap (fun name => match var name with
                                 | Some value => if str_is_empty value then None else Some (name, value)
                                 | None => None
                                 end) CAPTURED_START_ENV_NAMES).

Fixpoint environment_total (total : Z) (l : list (string * string)) : result string Z :=
  match l with
  | [] => Ok total
  | (name, value) :: rest =>
      ensure (name_captured name) "unsupported captured start environment variable" ;!
      ensure (str_len value <=? MAX_CAPTURED_START_ENV_VALUE_BYTES)
        "captured start environment variable exceeds 32768 bytes" ;!
      let! total := ok_or (total ← checked_add total (str_len name);
                           checked_add total (str_len value))
                      "captured start environment size overflow"%string in
      environment_total total rest
  end.

Definition environment_validate (e : CapturedStartEnvironment) : result string unit :=
  let! total := environment_total 0 (map_to_list e) in
  ensure (total <=? MAX_CAPTURED_START_ENV_TOTAL_BYTES)
    "captured start environment exceeds 57344 bytes".

Definition restart_context_mismatches (e available : CapturedStartEnvironment) : list string :=
  map fst (List.filter (fun kv => negb (bool_decide (available !! kv.1 = Some kv.2)))
             (map_to_list e)).

Fixpoint select_values (e : CapturedStartEnvironment) (keys : list string)
    (selected : CapturedStartEnvironment) : result string CapturedStartEnvironment :=
  match keys with
  | [] => Ok selected
  | name :: rest =>
      let! value := ok_or (e !! name) "restart context is missing a name"%string in
      select_values e rest (<[name := value]> selected)
  end.

Definition select_restart_context (e : CapturedStartEnvironment) (keys : list string) :
    result string CapturedStartEnvironment :=
  let! selected := select_values e keys ∅ in
  environment_validate selected ;!
  Ok selected.

(** What the child of [apply_to_command] inherits: of the captured names only the
    captured values. *)
Definition apply_to_command (e inherited : gmap string string) : gmap string string :=
  e ∪ fold_right (fun name env => delete name env) inherited CAPTURED_START_ENV_NAMES.

(** * Text for the console *)

Definition TRUNCATED : string := "… [truncated]".

Definition hex_digit (n : Z) : string :=
  String (ascii_of_N (Z.to_N (if n <? 10 then 48 + n else 87 + n))) EmptyString.
Definition hex2 (n : Z) : string := hex_digit (n / 16) +:+ hex_digit (n mod 16).

Definition is_preserved_layout (preserve_layout : bool) (c : Z) : bool :=
  preserve_layout && ((c =? 10) || (c =? 9)).

Definition console_safe (preserve_layout : bool) (c : Z) : bool :=
  negb (is_control c) || is_preserved_layout preserve_layout c.

(** A control character is below 256, so two digits are all. *)
Definition escape_control (c : Z) : string :=
  if c <? 128 then "\x" +:+ hex2 c else "\u{" +:+ hex2 c +:+ "}".

(** What a character is written as. *)
Definition render_char (preserve_layout : bool) (piece : string) : string :=
  match chars piece with
  | c :: _ => if console_safe preserve_layout c then piece else escape_control c
  | [] => piece
  end.

(** The loop over the characters: the text, and whether all were consumed. *)
Fixpoint render_bounded (preserve_layout : bool) (budget : Z) (bounded : string)
    (pieces : list string) : string * bool :=
  match pieces with
  | [] => (bounded, true)
  | piece :: rest =>
      let rendered := render_char preserve_layout piece in
      if budget <? saturating_add (str_len bounded) (str_len rendered) then (bounded, false)
      else render_bounded preserve_layout budget (bounded +:+ rendered) rest
  end.

Definition bounded_console_text_with_layout (value : string) (max_bytes : Z)
    (preserve_layout : bool) : string :=
  if forallb (console_safe preserve_layout) (chars value) && (str_len value <=? max_bytes)
  then value
  else
    let suffix := if str_len TRUNCATED <=? max_bytes then TRUNCATED else EmptyString in
    let budget := saturating_sub max_bytes (str_len suffix) in
    let '(bounded, complete) :=
      render_bounded preserve_layout budget EmptyString (char_pieces value) in
    if complete then bounded else bounded +:+ suffix.

Definition bounded_console_text (value : string) (max_bytes : Z) : string :=
  bounded_console_text_with_layout value max_bytes true.

(** * Approval policy *)

Inductive ApprovalClass :=
| CodexAppServer | OpenCodeServer | DevinAcp | DevinCloud | RemoteUpgrade | SessionGrant.

Inductive LocalApproval := ApSkip | ApRequest | ApRequestUser.

Definition local_approval (mode : PermissionMode) (class : ApprovalClass) : LocalApproval :=
  match class with
  | CodexAppServer | OpenCodeServer | DevinAcp | DevinCloud =>
      match mode with
      | Ask => ApRequest
      | _ => ApSkip
      end
  | RemoteUpgrade => ApRequestUser
  | SessionGrant =>
      match mode with
      | Yolo => ApSkip
      | _ => ApRequest
      end
  end.

(** * Instances *)

Record ExpectedSessionInstance := mkExpected {
  ex_id : string;
  ex_started_at : Z;
  ex_process_id : Z;
}.

#[global] Instance expected_eq : EqDecision ExpectedSessionInstance.
Proof. solve_decision. Defined.

Definition expected_from_session (s : Session) : ExpectedSessionInstance :=
  mkExpected (s_id s) (s_started_at s) (s_process_id s).

Definition expected_matches (e : ExpectedSessionInstance) (s : Session) : bool :=
  String.eqb (ex_id e) (s_id s) && (ex_started_at e =? s_started_at s)
  && (ex_process_id e =? s_process_id s).

(** [expected_session.as_ref().is_some_and(|expected| !expected.matches(session))]. *)
Definition stale (expected : option ExpectedSessionInstance) (s : Session) : bool :=
  is_some_and (fun e => negb (expected_matches e s)) expected.

Section Runtime.
Context `{UuidLib, !SerdeJson, !TokioSync}.

Record ActivityExpectedSession := mkActivityExpected {
  ae_id : string;
  ae_started_at : Z;
  ae_process_id : Z;
  ae_session_instance : option Uuid;
}.

Definition activity_expected_from_session (s : Session) (instance : Uuid) :
    ActivityExpectedSession :=
  mkActivityExpected (s_id s) (s_started_at s) (s_process_id s) (Some instance).

Definition activity_matches (a : ActivityExpectedSession) (expected : ExpectedSessionInstance)
    (instance : Uuid) : bool :=
  String.eqb (ae_id a) (ex_id expected) && (ae_started_at a =? ex_started_at expected)
  && (ae_process_id a =? ex_process_id expected)
  && bool_decide (ae_session_instance a = Some instance).

Record ActivityIngress := mkIngress {
  in_expected_session : ActivityExpectedSession;
  in_update : ActivityUpdate;
}.

Record ActivitySink := mkSink {
  sk_session_instance : Uuid;
  sk_retired : bool;
  sk_expected_session : ExpectedSessionInstance;
}.

Definition sink_new (s : Session) (instance : Uuid) : ActivitySink :=
  mkSink instance false (expected_from_session s).

Definition sink_retire (k : ActivitySink) : ActivitySink :=
  mkSink (sk_session_instance k) true (sk_expected_session k).

(** [ActivitySink::publish]: [lock] says whether the sink's mutex is free, [block]
    and [now] what the broker finds. *)
Definition sink_publish (k : ActivitySink) (lock : bool) (broker : ActivityBroker)
    (block : TryLock) (now : Z) (ingress : ActivityIngress) : ActivityBroker * bool :=
  if negb lock then (broker, false)
  else if sk_retired k
          || negb (activity_matches (in_expected_session ingress) (sk_expected_session k)
                     (sk_session_instance k))
  then (broker, false)
  else match publish broker block now (in_update ingress)
               (Some (ex_id (sk_expected_session k))) (Some (sk_session_instance k)) with
       | Ok (broker, _) => (broker, true)
       | Err _ => (broker, false)
       end.

(** * Messages, commands and answers *)

Record Request := mkApprovalRequest {
  rq_id : Uuid;
  rq_operation : string;
  rq_detail : string;
  rq_cwd : string;
  rq_metadata : list (string * string);
}.

Inductive Message :=
| MProbe
| MApproval (request : Request) (require_user : bool)
    (expected_session : option ExpectedSessionInstance)
| MActivity (title : string) (detail : option string)
| MActivityBind (expected_session : ExpectedSessionInstance)
| MActivityUpdate (ingress : ActivityIngress)
| MApplyGrants (request : SessionGrantRequest)
    (expected_session : option ExpectedSessionInstance).

(** Who waits for a command's response: the host, or the task of an operation. *)
Inductive CommandSender := FromHost | FromTask (op : Z).

Inductive RuntimeCommand :=
| CSetPermissionMode (mode : PermissionMode)
| CAllowDirectory (path : string)
| CApplyGrants (request : SessionGrantRequest)
| CRevokeGrants (request : SessionGrantRequest)
| CRevokeDirectory (path : string)
| CSnapshot
| CSetUpgradeQuiesced (value : bool)
| CCrash
| CShutdown.

(** [grant_response_value]. *)
Record GrantResponse := mkGrantResponse {
  gv_delta : SessionGrantRequest;
  gv_grants : SessionGrants;
  gv_permitted_directories : list string;
}.

Definition grant_response_value (s : Session) (delta : SessionGrantRequest) : GrantResponse :=
  mkGrantResponse delta (s_grants s) (s_permitted_directories s).

(** What is written: to the client [c] of a connection, or to the host. *)
Inductive Response :=
| RActive
| RAllow
| RDeny
| RBound (instance : Uuid)
| RAccepted
| RDiscarded
| RGrant (r : result string GrantResponse).

Inductive HostResponse :=
| HDone (r : result string unit)
| HGrant (r : result string GrantResponse)
| HSnapshot (s : Session).

Inductive Output :=
| OClient (c : Z) (r : Response)
| OHost (r : HostResponse)
| OConsole (op : Z) (request : Request).

(** * The state of a runtime *)

(** A spawned task: it waits for the operator with its prompt, has an approved
    grant to enqueue, or waits for the response to it. *)
Inductive Operation :=
| OpApproval (c : Z) (request : Request)
| OpGrant (c : Z) (request : SessionGrantRequest)
| OpApproved (c : Z) (request : SessionGrantRequest)
| OpEnqueued (c : Z) (request : SessionGrantRequest).

Record Runtime := mkRuntime {
  rt_session : Session;
  rt_sink : option ActivitySink;
  rt_broker : ActivityBroker;
  rt_upgrade_quiesced : bool;
  rt_operations : gmap Z Operation;     (* each holds an approval slot and counts as active *)
  rt_next : Z;
  rt_commands : list (RuntimeCommand * CommandSender);
  rt_alive : bool;
}.

Definition runtime_start (s : Session) (sink : option ActivitySink) (broker : ActivityBroker) :
    Runtime :=
  mkRuntime s sink broker false ∅ 0 [] true.

Definition set_session (r : Runtime) (s : Session) : Runtime :=
  mkRuntime s (rt_sink r) (rt_broker r) (rt_upgrade_quiesced r) (rt_operations r) (rt_next r)
    (rt_commands r) (rt_alive r).
Definition set_broker (r : Runtime) (b : ActivityBroker) : Runtime :=
  mkRuntime (rt_session r) (rt_sink r) b (rt_upgrade_quiesced r) (rt_operations r) (rt_next r)
    (rt_commands r) (rt_alive r).
Definition set_quiesced (r : Runtime) (q : bool) : Runtime :=
  mkRuntime (rt_session r) (rt_sink r) (rt_broker r) q (rt_operations r) (rt_next r)
    (rt_commands r) (rt_alive r).
Definition set_operations (r : Runtime) (ops : gmap Z Operation) : Runtime :=
  mkRuntime (rt_session r) (rt_sink r) (rt_broker r) (rt_upgrade_quiesced r) ops (rt_next r)
    (rt_commands r) (rt_alive r).
Definition set_commands (r : Runtime) (l : list (RuntimeCommand * CommandSender)) : Runtime :=
  mkRuntime (rt_session r) (rt_sink r) (rt_broker r) (rt_upgrade_quiesced r) (rt_operations r)
    (rt_next r) l (rt_alive r).

(** The loop has returned: what was queued is dropped. *)
Definition stop (r : Runtime) : Runtime :=
  mkRuntime (rt_session r) (rt_sink r) (rt_broker r) (rt_upgrade_quiesced r) (rt_operations r)
    (rt_next r) [] false.

Definition active_operations (r : Runtime) : Z := Z.of_nat (size (rt_operations r)).

(** [tokio::spawn] of a task with its permit and guard. *)
Definition spawn (r : Runtime) (op : Operation) : Runtime :=
  mkRuntime (rt_session r) (rt_sink r) (rt_broker r) (rt_upgrade_quiesced r)
    (<[rt_next r := op]> (rt_operations r)) (rt_next r + 1) (rt_commands r) (rt_alive r).

Definition finish (r : Runtime) (k : Z) : Runtime := set_operations r (delete k (rt_operations r)).

Section Loop.
Context (canonical_directory : string -> result string string).

(** [config::apply_session_grants] and [config::save_session]. *)
Definition apply_and_save (s : Session) (request : SessionGrantRequest) (save : option string) :
    Session * result string GrantResponse :=
  let '(s, applied) := apply_session_grants canonical_directory s request in
  (s, let! applied := applied in
      match save with
      | Some e => Err e
      | None => Ok (grant_response_value s applied)
      end).

Definition revoke_and_save (s : Session) (request : SessionGrantRequest) (save : option string) :
    Session * result string GrantResponse :=
  let '(s, removed) := revoke_session_grants s request in
  (s, let! removed := removed in
      match save with
      | Some e => Err e
      | None => Ok (grant_response_value s removed)
      end).

Definition saved (save : option string) : result string unit :=
  match save with
  | Some e => Err e
  | None => Ok tt
  end.

Definition allow_directory (s : Session) (path : string) (save : option string) :
    Session * result string unit :=
  match canonical_directory path with
  | Err e => (s, Err e)
  | Ok directory =>
      let s := if contains_path (s_permitted_directories s) directory then s
               else set_permitted_directories s
                      (sort_by path_leb (s_permitted_directories s ++ [directory])) in
      (s, saved save)
  end.

Definition revoke_directory (s : Session) (path : string) (save : option string) :
    Session * result string unit :=
  match canonical_directory path with
  | Err e => (s, Err e)
  | Ok directory =>
      if path_eqb directory (s_cwd s) then (s, Err "cannot revoke the session cwd"%string)
      else (set_permitted_directories s
              (List.filter (fun item => negb (path_eqb item directory))
                 (s_permitted_directories s)), saved save)
  end.

(** The messages that pass a quiesced runtime. *)
Definition passes_quiesce (m : Message) : bool :=
  match m with
  | MProbe | MActivity _ _ | MActivityBind _ | MActivityUpdate _ => true
  | _ => false
  end.

(** The prompt the console shows for a grant; its id is fresh. *)
Definition grant_prompt (s : Session) (request : SessionGrantRequest) (fresh : Uuid) : Request :=
  mkApprovalRequest fresh "session_permission_grant" (describe request) (s_cwd s)
    [("class"%string, "session_grant"%string)].

(** What a message finds: whether the sink's mutex is free, what the broker finds,
    the clock, a fresh id, whether the console's channel has room, and whether
    saving the session fails. *)
Record MessageEnvironment := mkMessageEnvironment {
  me_sink_free : bool;
  me_broker : TryLock;
  me_now : Z;
  me_fresh : Uuid;
  me_console : bool;
  me_save : option string;
}.

Definition refuse_quiesced (c : Z) (m : Message) : list Output :=
  match m with
  | MApproval _ _ _ => [OClient c RDeny]
  | MApplyGrants _ _ =>
      [OClient c (RGrant (Err "session is quiesced for supervisor upgrade"%string))]
  | _ => []
  end.

Definition slots_free (r : Runtime) : bool := active_operations r <? MAX_PENDING_APPROVALS.

Definition handle_grants (r : Runtime) (c : Z) (request : SessionGrantRequest)
    (expected : option ExpectedSessionInstance) (e : MessageEnvironment) : Runtime * list Output :=
  let s := rt_session r in
  if stale expected s then
    (r, [OClient c (RGrant (Err "grant request targets a stale session instance"%string))])
  else match local_approval (s_permission_mode s) SessionGrant with
  | ApSkip =>
      let '(s, answer) := apply_and_save s request (me_save e) in
      (set_session r s, [OClient c (RGrant answer)])
  | _ =>
      if negb (slots_free r) then
        (r, [OClient c (RGrant (Err "too many pending approvals; try again"%string))])
      else if negb (me_console e) then
        (r, [OClient c (RGrant (Err "approval console is unavailable"%string))])
      else (spawn r (OpGrant c request),
            [OConsole (rt_next r) (grant_prompt s request (me_fresh e))])
  end.

Definition handle_approval (r : Runtime) (c : Z) (request : Request) (require_user : bool)
    (expected : option ExpectedSessionInstance) (e : MessageEnvironment) : Runtime * list Output :=
  let s := rt_session r in
  if stale expected s then (r, [OClient c RDeny])
  else if negb require_user && is_yolo (s_permission_mode s) then (r, [OClient c RAllow])
  else if negb (slots_free r) then (r, [OClient c RDeny])
  else if negb (me_console e) then (r, [OClient c RDeny])
  else (spawn r (OpApproval c request), [OConsole (rt_next r) request]).

Definition handle_message (r : Runtime) (c : Z) (m : Message) (e : MessageEnvironment) :
    Runtime * list Output :=
  if rt_upgrade_quiesced r && negb (passes_quiesce m) then (r, refuse_quiesced c m)
  else match m with
  | MProbe => (r, [OClient c RActive])
  | MActivity _ _ => (r, [])
  | MActivityBind expected =>
      let bound := sink ← rt_sink r;
                   if me_sink_free e && negb (sk_retired sink)
                      && expected_matches expected (rt_session r)
                   then Some (sk_session_instance sink) else None in
      (r, [OClient c (match bound with
                      | Some instance => RBound instance
                      | None => RDiscarded
                      end)])
  | MActivityUpdate ingress =>
      match rt_sink r with
      | None => (r, [OClient c RDiscarded])
      | Some sink =>
          let '(broker, accepted) :=
            sink_publish sink (me_sink_free e) (rt_broker r) (me_broker e) (me_now e) ingress in
          (set_broker r broker, [OClient c (if accepted then RAccepted else RDiscarded)])
      end
  | MApplyGrants request expected => handle_grants r c request expected e
  | MApproval request require_user expected => handle_approval r c request require_user expected e
  end.

(** The response to a grant command, and the end of the task that waits for it. *)
Definition answer_grant (r : Runtime) (from : CommandSender) (answer : result string GrantResponse) :
    Runtime * list Output :=
  match from with
  | FromHost => (r, [OHost (HGrant answer)])
  | FromTask k =>
      match rt_operations r !! k with
      | Some (OpEnqueued c _) => (finish r k, [OClient c (RGrant answer)])
      | _ => (r, [])
      end
  end.

Definition handle_command (r : Runtime) (command : RuntimeCommand) (from : CommandSender)
    (save : option string) : Runtime * list Output :=
  let s := rt_session r in
  match command with
  | CSetPermissionMode mode =>
      (set_session r (set_permission_mode s mode), [OHost (HDone (saved save))])
  | CAllowDirectory path =>
      let '(s, answer) := allow_directory s path save in
      (set_session r s, [OHost (HDone answer)])
  | CRevokeDirectory path =>
      let '(s, answer) := revoke_directory s path save in
      (set_session r s, [OHost (HDone answer)])
  | CApplyGrants request =>
      let '(s, answer) := apply_and_save s request save in
      answer_grant (set_session r s) from answer
  | CRevokeGrants request =>
      let '(s, answer) := revoke_and_save s request save in
      answer_grant (set_session r s) from answer
  | CSnapshot => (r, [OHost (HSnapshot s)])
  | CSetUpgradeQuiesced value =>
      if value && negb (active_operations r =? 0) then
        (r, [OHost (HDone (Err "session has in-flight operation(s)"%string))])
      else (set_quiesced r value, [OHost (HDone (Ok tt))])
  | CCrash | CShutdown => (stop r, [])
  end.

(** The operator answers the prompt of a task, or the prompt is dropped unanswered
    ([unwrap_or(false)]). *)
Definition answer_prompt (r : Runtime) (k : Z) (allowed : bool) : option (Runtime * list Output) :=
  match rt_operations r !! k with
  | Some (OpApproval c _) => Some (finish r k, [OClient c (if allowed then RAllow else RDeny)])
  | Some (OpGrant c request) =>
      if allowed then Some (set_operations r (<[k := OpApproved c request]> (rt_operations r)), [])
      else Some (finish r k, [OClient c (RGrant (Err "grant denied by host"%string))])
  | _ => None
  end.

Definition grant_stopped : Response :=
  RGrant (Err "session runtime stopped before applying grants"%string).

(** An approved grant goes to the loop, or finds it gone. *)
Definition enqueue_grant (r : Runtime) (k : Z) : option (Runtime * list Output) :=
  match rt_operations r !! k with
  | Some (OpApproved c request) =>
      if negb (rt_alive r) then Some (finish r k, [OClient c grant_stopped])
      else if zlen (rt_commands r) <? MAX_PENDING_RUNTIME_COMMANDS then
        Some (set_commands (set_operations r (<[k := OpEnqueued c request]> (rt_operations r)))
                (rt_commands r ++ [(CApplyGrants request, FromTask k)]), [])
      else None
  | _ => None
  end.

(** The loop is gone: [runtime_alive.changed()], or the dropped response. *)
Definition notice_stop (r : Runtime) (k : Z) : option (Runtime * list Output) :=
  if rt_alive r then None
  else match rt_operations r !! k with
  | Some (OpApproval c _) => Some (finish r k, [OClient c RDeny])
  | Some (OpGrant c _) =>
      Some (finish r k, [OClient c (RGrant (Err "grant denied by host"%string))])
  | Some (OpEnqueued c _) => Some (finish r k, [OClient c grant_stopped])
  | _ => None
  end.

(** * Steps *)

Inductive Label :=
| LMessage (c : Z) (m : Message) (e : MessageEnvironment)
| LAnswer (k : Z) (allowed : bool)
| LEnqueue (k : Z)
| LStopped (k : Z)
| LHost (command : RuntimeCommand)
| LCommand (save : option string)
| LRetire
| LFail.

Definition step (r : Runtime) (l : Label) : option (Runtime * list Output) :=
  match l with
  | LMessage c m e => if rt_alive r then Some (handle_message r c m e) else None
  | LAnswer k allowed => answer_prompt r k allowed
  | LEnqueue k => enqueue_grant r k
  | LStopped k => notice_stop r k
  | LHost command =>
      if rt_alive r && (zlen (rt_commands r) <? MAX_PENDING_RUNTIME_COMMANDS)
      then Some (set_commands r (rt_commands r ++ [(command, FromHost)]), [])
      else None
  | LCommand save =>
      match rt_alive r, rt_commands r with
      | true, (command, from) :: rest => Some (handle_command (set_commands r rest) command from save)
      | _, _ => None
      end
  | LRetire =>
      Some (mkRuntime (rt_session r) (sink_retire <$> rt_sink r) (rt_broker r)
              (rt_upgrade_quiesced r) (rt_operations r) (rt_next r) (rt_commands r) (rt_alive r), [])
  | LFail => if rt_alive r then Some (stop r, []) else None
  end.

(** Runs, with what every step wrote. *)
Inductive run (start : Runtime) : list (Runtime * Label * list Output) -> Runtime -> Prop :=
| run_nil : run start [] start
| run_snoc (tr : list (Runtime * Label * list Output)) (r r' : Runtime) (l : Label)
    (out : list Output) :
    run start tr r -> step r l = Some (r', out) -> run start (tr ++ [(r, l, out)]) r'.

(** The same as a function: the final state and what was written. *)
Fixpoint run_labels (r : Runtime) (ls : list Label) : option (Runtime * list (list Output)) :=
  match ls with
  | [] => Some (r, [])
  | l :: ls =>
      match step r l with
      | None => None
      | Some (r, out) =>
          match run_labels r ls with
          | Some (r, outs) => Some (r, out :: outs)
          | None => None
          end
      end
  end.
End Loop.
End Runtime.
