(* ===== verification/ConsoleTextTheorems.v ===== *)
(** * What is shown on the console

    The text of a prompt or an activity comes from a client; on the host's console
    it is of bounded length and has no control character but, where the layout is
    kept, the newline and the tab. *)

From S2P Require Import Prelude Strings Utf8 SessionRuntime.

#[local] Open Scope Z_scope.
#[local] Open Scope rust_scope.

(** * Characters of a concatenation *)

(** No character of [p] goes on in what follows. *)
Definition whole (p : string) : Prop :=
  forall l, utf8_decode (str_bytes p ++ l) = chars p ++ utf8_decode l.

Lemma whole_app a b : whole a -> whole b -> whole (a +:+ b).
Proof.
  intros Ha Hb l. unfold chars. rewrite str_bytes_app, <- !app_assoc, Ha, Hb, Ha, <- app_assoc.
  done.
Qed.

Lemma chars_app a b : whole a -> chars (a +:+ b) = chars a ++ chars b.
Proof. intros Ha. unfold chars at 1. by rewrite str_bytes_app, Ha. Qed.

Lemma whole_nil : whole EmptyString.
Proof. by intros l. Qed.

Lemma whole_ascii p : Forall (fun b => b < 128) (str_bytes p) -> whole p.
Proof.
  intros Hp l. unfold chars. rewrite (utf8_decode_id (str_bytes p)) by done.
  induction Hp as [|b bs Hb _ IH]; [done|]. cbn [app utf8_decode].
  destruct (Z.ltb_spec b 128); [by rewrite IH|lia].
Qed.

(** Induction on a text by its length. *)
Lemma string_length_ind (P : string -> Prop) :
  (forall s, (forall s', (String.length s' < String.length s)%nat -> P s') -> P s) -> forall s, P s.
Proof. intros H. apply (well_founded_ind (well_founded_ltof _ String.length) P). exact H. Qed.

(** A piece is one whole character. *)
Lemma char_pieces_whole s : Forall (fun p => whole p /\ exists c, chars p = [c]) (char_pieces s).
Proof.
  induction s as [s IH] using string_length_ind.
  assert (forall s', (String.length s' < String.length s)%nat ->
            Forall (fun p => whole p /\ exists c, chars p = [c]) (char_pieces s')) as IH' by done.
  clear IH. destruct s as [|c0 s1]; cbn [char_pieces]; [constructor|].
  destruct (byte_of c0 <? 128) eqn:E0.
  { constructor; [|apply IH'; cbn; lia].
    split; [|exists (byte_of c0)]; [intros l|]; unfold chars, str_bytes; cbn; by rewrite E0. }
  destruct s1 as [|c1 s2]; [constructor|].
  destruct (byte_of c0 <? 224) eqn:E1.
  { constructor; [|apply IH'; cbn; lia].
    split; [|eexists]; [intros l|]; unfold chars, str_bytes; cbn; rewrite E0, E1; done. }
  destruct s2 as [|c2 s3]; [constructor|].
  destruct (byte_of c0 <? 240) eqn:E2.
  { constructor; [|apply IH'; cbn; lia].
    split; [|eexists]; [intros l|]; unfold chars, str_bytes; cbn; rewrite E0, E1, E2; done. }
  destruct s3 as [|c3 s4]; [constructor|].
  constructor; [|apply IH'; cbn; lia].
  split; [|eexists]; [intros l|]; unfold chars, str_bytes; cbn; rewrite E0, E1, E2; done.
Qed.

(** ** Putting the pieces together *)

Fixpoint concat_strings (l : list string) : string :=
  match l with
  | [] => EmptyString
  | p :: rest => p +:+ concat_strings rest
  end.

Lemma concat_strings_app a b : concat_strings (a ++ b) = concat_strings a +:+ concat_strings b.
Proof.
  induction a as [|x a IH]; [done|]. cbn [app concat_strings]. by rewrite IH, string_app_assoc.
Qed.

(** The pieces of a valid text make it up. *)
Lemma char_pieces_concat s :
  utf8_valid (str_bytes s) = true -> concat_strings (char_pieces s) = s.
Proof.
  induction s as [s IH] using string_length_ind. intros Hv.
  assert (forall s', (String.length s' < String.length s)%nat ->
            utf8_valid (str_bytes s') = true -> concat_strings (char_pieces s') = s') as IH' by done.
  clear IH. destruct s as [|c0 s1]; [done|]. rewrite str_bytes_cons in Hv. cbn [utf8_valid] in Hv.
  cbn [char_pieces].
  destruct (in_range 0 127 (byte_of c0)) eqn:R0; [|apply not_true_iff_false in R0; rewrite in_range_true in R0].
  { apply in_range_true in R0. destruct (Z.ltb_spec (byte_of c0) 128); [|lia].
    cbn [concat_strings]. by rewrite IH' by (cbn; auto; lia). }
  pose proof (byte_of_range c0). destruct (Z.ltb_spec (byte_of c0) 128); [lia|].
  destruct s1 as [|c1 s2]; [done|]. rewrite str_bytes_cons in Hv.
  destruct (in_range 194 223 (byte_of c0)) eqn:R1; [|apply not_true_iff_false in R1; rewrite in_range_true in R1].
  { apply in_range_true in R1. destruct (Z.ltb_spec (byte_of c0) 224); [|lia].
    apply andb_true_iff in Hv as [_ Hv]. cbn [concat_strings]. by rewrite IH' by (cbn; auto; lia). }
  destruct s2 as [|c2 s3]; [done|]. rewrite str_bytes_cons in Hv.
  destruct (in_range 224 239 (byte_of c0)) eqn:R2; [|apply not_true_iff_false in R2; rewrite in_range_true in R2].
  { apply in_range_true in R2. destruct (Z.ltb_spec (byte_of c0) 224); [lia|].
    destruct (Z.ltb_spec (byte_of c0) 240); [|lia].
    apply andb_true_iff in Hv as [_ Hv]. cbn [concat_strings]. by rewrite IH' by (cbn; auto; lia). }
  destruct s3 as [|c3 s4]; [done|]. rewrite str_bytes_cons in Hv.
  apply andb_true_iff in Hv as [Hv Hv']. rewrite !andb_true_iff, !in_range_true in Hv.
  destruct (Z.ltb_spec (byte_of c0) 224); [lia|]. destruct (Z.ltb_spec (byte_of c0) 240); [lia|].
  cbn [concat_strings]. by rewrite IH' by (cbn; auto; lia).
Qed.

Lemma chars_concat l :
  Forall whole l -> whole (concat_strings l) /\ chars (concat_strings l) = concat (map chars l).
Proof.
  induction 1 as [|p l Hp _ [IHw IHc]]; [split; [apply whole_nil|done]|].
  cbn [concat_strings map concat]. split; [by apply whole_app|]. by rewrite chars_app, IHc.
Qed.

(** * Rendering *)

(** An escaped control character is printable ASCII. *)
Definition printable_escape (c : Z) : bool :=
  forallb (in_range 32 126) (str_bytes (escape_control c)).

Lemma escapes_printable c : is_control c = true -> printable_escape c = true.
Proof.
  intros Hc. unfold is_control in Hc. rewrite orb_true_iff, !in_range_true in Hc.
  assert (forallb printable_escape (map Z.of_nat (seq 0 160)) = true) as Hall by (vm_compute; done).
  rewrite forallb_forall in Hall. apply Hall. apply in_map_iff. exists (Z.to_nat c).
  split; [lia|]. apply in_seq. lia.
Qed.

Definition shows (layout : bool) (p : string) : Prop :=
  whole p /\ forallb (console_safe layout) (chars p) = true.

Lemma ascii_shows layout p : forallb (in_range 32 126) (str_bytes p) = true -> shows layout p.
Proof.
  intros Hp. rewrite forallb_forall in Hp.
  assert (Forall (fun b => 32 <= b <= 126) (str_bytes p)) as Hf.
  { apply Forall_forall. intros b Hb. apply in_range_true, Hp. by apply list_elem_of_In. }
  assert (Forall (fun b => b < 128) (str_bytes p)) as Ha.
  { eapply Forall_impl; [exact Hf|]. intros b ?. cbn in *. lia. }
  split; [by apply whole_ascii|]. unfold chars. rewrite utf8_decode_id by done.
  apply forallb_forall. intros b Hb%list_elem_of_In.
  pose proof (proj1 (Forall_forall _ _) Hf b Hb) as Hr. cbn in Hr. unfold console_safe, is_control.
  apply orb_true_iff. left. apply negb_true_iff, orb_false_iff. unfold in_range.
  rewrite !andb_false_iff, !Z.leb_gt. lia.
Qed.

Lemma render_shows layout p c : whole p -> chars p = [c] -> shows layout (render_char layout p).
Proof.
  intros Hw Hc. unfold render_char. rewrite Hc. destruct (console_safe layout c) eqn:Es.
  - split; [done|]. rewrite Hc. cbn. by rewrite Es.
  - apply ascii_shows, escapes_printable. unfold console_safe in Es.
    by apply orb_false_iff in Es as [Es%negb_false_iff _].
Qed.

Lemma shows_app layout a b : shows layout a -> shows layout b -> shows layout (a +:+ b).
Proof.
  intros [Ha Ha'] [Hb Hb']. split; [by apply whole_app|].
  by rewrite chars_app, forallb_app, Ha', Hb'.
Qed.

Lemma truncated_shows layout : shows layout TRUNCATED.
Proof.
  split; [|by destruct layout; vm_compute].
  change TRUNCATED with ("…" +:+ " [truncated]"). apply whole_app.
  - intros l. reflexivity.
  - apply whole_ascii. repeat constructor.
Qed.

(** The loop stops at the first character that does not fit. *)
Lemma render_bounded_spec layout budget pieces bounded :
  0 <= budget < U64_MAX -> shows layout bounded -> str_len bounded <= budget ->
  Forall (fun p => whole p /\ exists c, chars p = [c]) pieces ->
  exists n, (n <= length pieces)%nat
    /\ render_bounded layout budget bounded pieces
       = (bounded +:+ concat_strings (map (render_char layout) (take n pieces)),
          bool_decide (n = length pieces))
    /\ shows layout (bounded +:+ concat_strings (map (render_char layout) (take n pieces)))
    /\ str_len (bounded +:+ concat_strings (map (render_char layout) (take n pieces))) <= budget.
Proof.
  intros Hbudget. revert bounded.
  induction pieces as [|p pieces IH]; intros bounded Hs Hl Hf.
  { exists O. cbn. rewrite string_app_nil_r. done. }
  inversion Hf as [|? ? [Hw [c Hc]] Hf']; subst. cbn [render_bounded].
  pose proof (render_shows layout p c Hw Hc) as Hr.
  destruct (budget <? _) eqn:E.
  - exists O. cbn. rewrite string_app_nil_r. split; [lia|]. split; [|done]. done.
  - apply Z.ltb_ge in E. unfold saturating_add in E.
    assert (str_len (bounded +:+ render_char layout p) <= budget) as Hl'.
    { rewrite str_len_append. pose proof (str_len_nonneg bounded). lia. }
    destruct (IH (bounded +:+ render_char layout p)) as (n & Hn & -> & Hs' & Hl''); [by apply shows_app|done..|].
    exists (S n). cbn [take map concat_strings length]. rewrite <- string_app_assoc.
    split; [lia|]. split; [|done]. f_equal. apply bool_decide_ext. lia.
Qed.

Lemma safe_pieces layout value :
  utf8_valid (str_bytes value) = true -> forallb (console_safe layout) (chars value) = true ->
  map (render_char layout) (char_pieces value) = char_pieces value.
Proof.
  intros Hv Hs. pose proof (char_pieces_whole value) as Hp.
  rewrite <- (char_pieces_concat value Hv) in Hs.
  rewrite (proj2 (chars_concat (char_pieces value) (Forall_impl _ _ _ Hp (fun p H => proj1 H)))) in Hs.
  induction Hp as [|p l [Hw [c Hc]] Hp IH]; [done|]. cbn [map concat] in *.
  rewrite forallb_app in Hs. apply andb_true_iff in Hs as [Hs Hs'].
  rewrite IH by done. f_equal. unfold render_char. rewrite Hc in *. cbn in Hs.
  by destruct (console_safe layout c).
Qed.

(** The text shown on the console is at most as long as allowed and free of control
    characters, but for newlines and tabs where the layout is kept; and it is faithful: it is
    the characters of the value up to some point, every control character written as its
    escape, and where that is not all of them the mark of truncation follows, if there is
    room for it. *)
Theorem console_text_safe value max_bytes layout :
  utf8_valid (str_bytes value) = true ->
  0 <= max_bytes < U64_MAX ->
  let text := bounded_console_text_with_layout value max_bytes layout in
  str_len text <= max_bytes
  /\ forallb (console_safe layout) (chars text) = true
  /\ exists n, (n <= length (char_pieces value))%nat
     /\ text = concat_strings (map (render_char layout) (take n (char_pieces value)))
               +:+ (if bool_decide (n = length (char_pieces value)) then EmptyString
                    else if str_len TRUNCATED <=? max_bytes then TRUNCATED else EmptyString).
Proof.
  intros Hv Hmax. cbn zeta. unfold bounded_console_text_with_layout.
  destruct (forallb _ (chars value) && _) eqn:E.
  { apply andb_true_iff in E as [Es El%Z.leb_le]. split; [done|]. split; [done|].
    exists (length (char_pieces value)). split; [done|].
    rewrite firstn_all, safe_pieces, char_pieces_concat, bool_decide_eq_true_2 by done.
    by rewrite string_app_nil_r. }
  set (suffix := if str_len TRUNCATED <=? max_bytes then TRUNCATED else EmptyString).
  assert (shows layout suffix /\ 0 <= str_len suffix <= max_bytes) as [Hsuf Hlen].
  { subst suffix. destruct (Z.leb_spec (str_len TRUNCATED) max_bytes).
    - split; [apply truncated_shows|]. split; [apply str_len_nonneg|done].
    - split; [by split; [apply whole_nil|]|]. unfold str_len. cbn. lia. }
  assert (saturating_sub max_bytes (str_len suffix) = max_bytes - str_len suffix) as Hsub.
  { unfold saturating_sub. lia. }
  rewrite Hsub.
  destruct (render_bounded_spec layout (max_bytes - str_len suffix) (char_pieces value) EmptyString)
    as (n & Hn & -> & Hs & Hl); [lia|by split; [apply whole_nil|]|change (str_len EmptyString) with 0; lia
    |apply char_pieces_whole|].
  cbn [String.append] in *. case_bool_decide as Hall.
  - split; [lia|]. split; [apply Hs|]. exists n. rewrite bool_decide_eq_true_2 by done.
    by rewrite string_app_nil_r.
  - split; [rewrite str_len_append; lia|]. split; [by apply shows_app|].
    exists n. by rewrite bool_decide_eq_false_2 by done.
Qed.

Module ConsoleWitness.
Definition esc : string := String "027" EmptyString.

Lemma console_text_safe_witness :
  bounded_console_text_with_layout ("é" +:+ esc +:+ "[31m") 40 false = "é\x1b[31m"%string
  /\ str_len (bounded_console_text_with_layout ("rm -rf " +:+ esc +:+ "[2K/ and more") 24 false) <= 24.
Proof.
  split; [vm_compute; reflexivity|].
  apply (console_text_safe ("rm -rf " +:+ esc +:+ "[2K/ and more") 24 false).
  - vm_compute. reflexivity.
  - unfold U64_MAX. lia.
Defined.
End ConsoleWitness.
