(* ===== verification/SessionRuntimeTheorems.v ===== *)
(** * What a session runtime lets through

    Of every run of the loop and its tasks: an operation is allowed, and a
    capability added, only with an authority that the trace shows; a runtime that
    is quiesced for an upgrade changes nothing but on the host's command; the
    tasks and the queue stay within their bounds; and what is shown on the
    console is short and without control characters. *)

From S2P Require Import Prelude Strings Utf8 Json Contract Broker Config ConfigTheorems.
From S2P Require Import SessionRuntime.

#[local] Open Scope Z_scope.
#[local] Open Scope rust_scope.

Section Runs.
Context `{UU : UuidLib, SJ : !SerdeJson, TK : !TokioSync}.
Context (canonical_directory : string -> result string string).

#[local] Notation step := (step canonical_directory).
#[local] Notation run := (run canonical_directory).
#[local] Notation Trace := (list (Runtime * Label * list Output)).

(** * What a step leaves alone *)

(** The capability a host's command adds. *)
Definition command_grants (command : RuntimeCommand) (cap : Capability) : bool :=
  match command with
  | CApplyGrants request => asks canonical_directory request cap
  | CAllowDirectory path =>
      match canonical_directory path, cap with
      | Ok directory, CapDirectory d => path_eqb directory d
      | _, _ => false
      end
  | _ => false
  end.

Definition command_mode (command : RuntimeCommand) (mode : PermissionMode) : PermissionMode :=
  match command with
  | CSetPermissionMode m => m
  | _ => mode
  end.

(** [s] became [s'] with the capabilities [more] at most, and in mode [mode]. *)
Definition grows (s s' : Session) (more : Capability -> Prop) (mode : PermissionMode) : Prop :=
  (forall cap, holds s' cap = true -> holds s cap = true \/ more cap)
  /\ s_permission_mode s' = mode
  /\ s_id s' = s_id s /\ s_cwd s' = s_cwd s
  /\ s_started_at s' = s_started_at s /\ s_process_id s' = s_process_id s.

Lemma grows_refl s more : grows s s more (s_permission_mode s).
Proof. split; [by left|]. done. Qed.

Lemma apply_and_save_grows s request save s' answer :
  apply_and_save canonical_directory s request save = (s', answer) ->
  grows s s' (fun cap => asks canonical_directory request cap = true) (s_permission_mode s).
Proof.
  unfold apply_and_save. destruct (apply_session_grants _ s request) as [s1 applied] eqn:Ea.
  intros [= <- _].
  destruct (apply_session_grants_grows canonical_directory _ _ _ _ Ea) as [Hs Hh].
  destruct Hs as (? & ? & ? & ? & ?). repeat split; try done. intros cap Hc.
  apply Hh in Hc. by apply orb_true_iff in Hc.
Qed.

Lemma revoke_and_save_grows s request save s' answer :
  revoke_and_save s request save = (s', answer) ->
  grows s s' (fun _ => False) (s_permission_mode s).
Proof.
  unfold revoke_and_save. destruct (revoke_session_grants s request) as [s1 removed] eqn:Ea.
  intros [= <- _]. destruct (revoke_shrinks _ _ _ _ Ea) as [(? & ? & ? & ? & ?) Hh].
  repeat split; try done. intros cap Hc. left. by apply Hh.
Qed.

Lemma allow_directory_grows s path save s' answer :
  allow_directory canonical_directory s path save = (s', answer) ->
  grows s s' (fun cap => command_grants (CAllowDirectory path) cap = true) (s_permission_mode s).
Proof.
  unfold allow_directory. cbn [command_grants].
  destruct (canonical_directory path) as [d|]; intros [= <- _]; [|apply grows_refl].
  destruct (contains_path (s_permitted_directories s) d); [apply grows_refl|].
  repeat split. intros []; cbn; try by left. intros Hc. apply contains_path_true in Hc as (x & Hx & He).
  apply sort_by_elem, elem_of_app in Hx as [Hx|Hx%list_elem_of_singleton]; [left|right].
  - apply contains_path_true. by exists x.
  - by subst.
Qed.

Lemma revoke_directory_grows s path save s' answer :
  revoke_directory canonical_directory s path save = (s', answer) ->
  grows s s' (fun _ => False) (s_permission_mode s).
Proof.
  unfold revoke_directory. destruct (canonical_directory path) as [d|]; [|by intros [= <- _]; apply grows_refl].
  destruct (path_eqb d (s_cwd s)); intros [= <- _]; [apply grows_refl|].
  repeat split. intros []; cbn; try by left. intros Hc. left.
  apply contains_path_true in Hc as (x & Hx & He). apply contains_path_true. exists x.
  by apply elem_of_filter_bool in Hx as [].
Qed.

(** [answer_grant] answers, and may end a task; nothing else. *)
Lemma answer_grant_session r from answer :
  rt_session (fst (answer_grant r from answer)) = rt_session r.
Proof. unfold answer_grant. repeat case_match; done. Qed.

Lemma handle_command_grows r command from save r' out :
  handle_command canonical_directory r command from save = (r', out) ->
  grows (rt_session r) (rt_session r') (fun cap => command_grants command cap = true)
    (command_mode command (s_permission_mode (rt_session r))).
Proof.
  assert (forall s s' mode more, grows s s' (fun _ => False) mode -> grows s s' more mode) as Hmono.
  { intros s s' mode more (Hc & Hrest). split; [|done]. intros cap Hx. destruct (Hc cap Hx); tauto. }
  destruct command; cbn [handle_command command_mode].
  - intros [= <- _]. repeat split. by left.
  - destruct (allow_directory _ _ _ _) as [s answer] eqn:E. intros [= <- _].
    by eapply allow_directory_grows.
  - destruct (apply_and_save _ _ _ _) as [s answer] eqn:E. intros Ha.
    apply (f_equal fst) in Ha. cbn in Ha. subst r'. rewrite answer_grant_session.
    by eapply apply_and_save_grows.
  - destruct (revoke_and_save _ _ _) as [s answer] eqn:E. intros Ha.
    apply (f_equal fst) in Ha. cbn in Ha. subst r'. rewrite answer_grant_session.
    apply Hmono. by eapply revoke_and_save_grows.
  - destruct (revoke_directory _ _ _ _) as [s answer] eqn:E. intros [= <- _].
    apply Hmono. by eapply revoke_directory_grows.
  - intros [= <- _]. apply grows_refl.
  - destruct (_ && _); intros [= <- _]; apply grows_refl.
  - intros [= <- _]. apply grows_refl.
  - intros [= <- _]. apply grows_refl.
Qed.

(** * Evidence in a trace *)

(** A request that names an instance names this one. *)
Definition for_instance (expected : option ExpectedSessionInstance) (s : Session) : Prop :=
  forall e, expected = Some e -> e = mkExpected (s_id s) (s_started_at s) (s_process_id s).

Lemma stale_false expected s : stale expected s = false -> for_instance expected s.
Proof.
  intros Hs e ->. cbn in Hs. unfold expected_matches in Hs.
  rewrite negb_false_iff, !andb_true_iff, String.eqb_eq, !Z.eqb_eq in Hs.
  destruct e, Hs as [[H1 H2] H3]. cbn in *. by subst.
Qed.

(** The loop was asked by the client [c] with a message [m] that was not for another
    instance, while it was not quiesced, and in reply wrote [out]. *)
Definition received (tr : Trace) (c : Z) (m : Message)
    (expected : option ExpectedSessionInstance) (mode : PermissionMode) (out : list Output) :
    Prop :=
  exists r e, (r, LMessage c m e, out) ∈ tr
              /\ rt_upgrade_quiesced r = false
              /\ for_instance expected (rt_session r)
              /\ s_permission_mode (rt_session r) = mode.

(** The prompt of the task [k] is on the console, for the request of an operation. *)
Definition prompted (tr : Trace) (k c : Z) (request : Request) : Prop :=
  exists require_user expected mode,
    received tr c (MApproval request require_user expected) expected mode [OConsole k request].

(** The same for a grant. *)
Definition prompted_grant (tr : Trace) (k c : Z) (request : SessionGrantRequest) : Prop :=
  exists expected mode prompt,
    received tr c (MApplyGrants request expected) expected mode [OConsole k prompt]
    /\ rq_operation prompt = "session_permission_grant"%string
    /\ rq_detail prompt = describe request.

(** The operator said yes to the prompt of [k]. *)
Definition answered_yes (tr : Trace) (k : Z) : Prop :=
  exists r out, (r, LAnswer k true, out) ∈ tr.

Definition approved_grant (tr : Trace) (k c : Z) (request : SessionGrantRequest) : Prop :=
  prompted_grant tr k c request /\ answered_yes tr k.

Definition commanded (tr : Trace) (command : RuntimeCommand) : Prop :=
  exists r out, (r, LHost command, out) ∈ tr.

Section Monotone.
Context (tr : Trace) (more : Trace).

Lemma received_mono c m expected mode out :
  received tr c m expected mode out -> received (tr ++ more) c m expected mode out.
Proof. intros (r & e & Hin & Hrest). exists r, e. split; [set_solver|done]. Qed.

Lemma prompted_mono k c request : prompted tr k c request -> prompted (tr ++ more) k c request.
Proof. intros (a & b & d & H). exists a, b, d. by apply received_mono. Qed.

Lemma prompted_grant_mono k c request :
  prompted_grant tr k c request -> prompted_grant (tr ++ more) k c request.
Proof. intros (a & b & p & H & Hp). exists a, b, p. split; [by apply received_mono|done]. Qed.

Lemma answered_yes_mono k : answered_yes tr k -> answered_yes (tr ++ more) k.
Proof. intros (r & out & H). exists r, out. set_solver. Qed.

Lemma approved_grant_mono k c request :
  approved_grant tr k c request -> approved_grant (tr ++ more) k c request.
Proof. intros [H1 H2]. split; [by apply prompted_grant_mono|by apply answered_yes_mono]. Qed.

Lemma commanded_mono command : commanded tr command -> commanded (tr ++ more) command.
Proof. intros (r & out & H). exists r, out. set_solver. Qed.
End Monotone.

(** * The invariant of the tasks and the queue *)

(** A task is there because its prompt is, and one that has an approved grant has the
    operator's yes. *)
Definition op_evidence (tr : Trace) (k : Z) (op : Operation) : Prop :=
  match op with
  | OpApproval c request => prompted tr k c request
  | OpGrant c request => prompted_grant tr k c request
  | OpApproved c request | OpEnqueued c request => approved_grant tr k c request
  end.

Lemma op_evidence_mono tr more k op : op_evidence tr k op -> op_evidence (tr ++ more) k op.
Proof.
  destruct op; [apply prompted_mono|apply prompted_grant_mono|apply approved_grant_mono
    |apply approved_grant_mono].
Qed.

(** A queued command is the host's, or the grant of the task that waits for it. *)
Definition queue_evidence (tr : Trace) (ops : gmap Z Operation)
    (item : RuntimeCommand * CommandSender) : Prop :=
  match item.2 with
  | FromHost => commanded tr item.1
  | FromTask k => exists c request, item.1 = CApplyGrants request
                  /\ ops !! k = Some (OpEnqueued c request)
                  /\ approved_grant tr k c request
  end.

Definition task_of (item : RuntimeCommand * CommandSender) : option Z :=
  match item.2 with
  | FromHost => None
  | FromTask k => Some k
  end.

Record runtime_ok (tr : Trace) (r : Runtime) : Prop := mkRuntimeOk {
  ok_ops : forall k op, rt_operations r !! k = Some op -> k < rt_next r /\ op_evidence tr k op;
  ok_queue : Forall (queue_evidence tr (rt_operations r)) (rt_commands r);
  ok_once : NoDup (omap task_of (rt_commands r));
  ok_slots : active_operations r <= MAX_PENDING_APPROVALS;
  ok_channel : zlen (rt_commands r) <= MAX_PENDING_RUNTIME_COMMANDS;
  ok_quiesced : rt_upgrade_quiesced r = true -> rt_operations r = ∅;
}.

Lemma active_finish r k : active_operations (finish r k) <= active_operations r.
Proof.
  unfold active_operations, finish. cbn. destruct (rt_operations r !! k) eqn:E.
  - rewrite map_size_delete, E. cbn. lia.
  - by rewrite delete_id.
Qed.

Lemma omap_task_elem (l : list (RuntimeCommand * CommandSender)) command k :
  (command, FromTask k) ∈ l -> k ∈ omap task_of l.
Proof. intros H. apply list_elem_of_omap. by exists (command, FromTask k). Qed.

Lemma queue_evidence_mono tr more ops ops' item :
  (forall k, task_of item = Some k -> ops' !! k = ops !! k) ->
  queue_evidence tr ops item -> queue_evidence (tr ++ more) ops' item.
Proof.
  unfold queue_evidence, task_of. destruct item as [command [|k]]; cbn; intros Hops.
  - intros Hc. by apply commanded_mono.
  - intros (c & request & -> & Hk & Ha). exists c, request. rewrite (Hops k eq_refl).
    split; [done|]. split; [done|]. by apply approved_grant_mono.
Qed.

Lemma queue_mono tr more ops ops' l :
  (forall k, k ∈ omap task_of l -> ops' !! k = ops !! k) ->
  Forall (queue_evidence tr ops) l -> Forall (queue_evidence (tr ++ more) ops') l.
Proof.
  intros Hops H. rewrite Forall_forall in *. intros item Hi. eapply queue_evidence_mono; [|by apply H].
  intros k Hk. apply Hops. apply list_elem_of_omap. by exists item.
Qed.

(** A task of the queue is enqueued. *)
Lemma queue_enqueued tr r k :
  runtime_ok tr r -> k ∈ omap task_of (rt_commands r) ->
  exists c request, rt_operations r !! k = Some (OpEnqueued c request).
Proof.
  intros [_ Hq _ _ _] Hk. apply list_elem_of_omap in Hk as ([command [|k']] & Hi & Ht); [done|].
  injection Ht as <-. rewrite Forall_forall in Hq. destruct (Hq _ Hi) as (c & request & _ & Hl & _).
  by exists c, request.
Qed.

(** ** The kinds of change *)

(** Tasks and queue are untouched, or the queue is gone. *)
Lemma ok_same tr more r r' :
  runtime_ok tr r ->
  rt_operations r' = rt_operations r -> rt_next r' = rt_next r ->
  rt_commands r' = rt_commands r \/ rt_commands r' = [] ->
  (rt_upgrade_quiesced r' = true -> rt_operations r = ∅) ->
  runtime_ok (tr ++ more) r'.
Proof.
  intros [Ho Hq Hn Hs Hc Hu] Eo En Ec Eu. constructor; unfold active_operations; rewrite ?Eo, ?En; try done.
  - intros k op Hk. destruct (Ho k op Hk). split; [done|]. by apply op_evidence_mono.
  - destruct Ec as [->| ->]; [|constructor]. by eapply queue_mono.
  - destruct Ec as [->| ->]; [done|constructor].
  - destruct Ec as [->| ->]; [done|by vm_compute].
Qed.

(** A task that no queued command waits for changes, or ends. *)
Lemma ok_alter tr more r k op :
  runtime_ok tr r ->
  k ∉ omap task_of (rt_commands r) ->
  is_Some (rt_operations r !! k) ->
  match op with
  | Some op => op_evidence (tr ++ more) k op
  | None => True
  end ->
  runtime_ok (tr ++ more)
    (set_operations r (match op with
                       | Some op => <[k := op]> (rt_operations r)
                       | None => delete k (rt_operations r)
                       end)).
Proof.
  intros [Ho Hq Hn Hs Hc Hu] Hk [old Hold] Hop. constructor; cbn; try done.
  - intros k' op' H'. destruct op as [op|].
    + apply lookup_insert_Some in H' as [[<- <-]|[_ H']].
      * split; [by eapply Ho|done].
      * destruct (Ho k' op' H'). split; [done|]. by apply op_evidence_mono.
    + apply lookup_delete_Some in H' as [_ H'].
      destruct (Ho k' op' H'). split; [done|]. by apply op_evidence_mono.
  - eapply queue_mono; [|exact Hq]. intros k' Hin. destruct (decide (k = k')) as [<-|Hne]; [done|].
    destruct op; [by rewrite lookup_insert_ne|by rewrite lookup_delete_ne].
  - unfold active_operations in *. cbn. etransitivity; [|exact Hs]. apply inj_le. destruct op.
    + rewrite map_size_insert, Hold. done.
    + rewrite map_size_delete, Hold. cbn. lia.
  - intros Hquiet. specialize (Hu Hquiet). by rewrite Hu in Hold.
Qed.

(** A task starts. *)
Lemma ok_spawn tr more r op :
  runtime_ok tr r -> slots_free r = true -> rt_upgrade_quiesced r = false ->
  op_evidence (tr ++ more) (rt_next r) op ->
  runtime_ok (tr ++ more) (spawn r op).
Proof.
  intros Hr Hslots Hquiet Hop. pose proof (queue_enqueued tr r) as Henq.
  destruct (Hr) as [Ho Hq Hn Hs Hc Hu].
  assert (rt_operations r !! rt_next r = None) as Hfresh.
  { destruct (rt_operations r !! rt_next r) eqn:E; [|done]. destruct (Ho _ _ E). lia. }
  constructor; cbn; try done.
  - intros k op' H'. apply lookup_insert_Some in H' as [[<- <-]|[_ H']]; [split; [lia|done]|].
    destruct (Ho k op' H'). split; [lia|]. by apply op_evidence_mono.
  - eapply queue_mono; [|exact Hq]. intros k Hin. rewrite lookup_insert_ne; [done|]. intros <-.
    destruct (Henq _ Hr Hin) as (c & request & Hl). by rewrite Hl in Hfresh.
  - unfold slots_free, active_operations in *. cbn. rewrite map_size_insert, Hfresh. apply Z.ltb_lt in Hslots.
    cbn. lia.
  - by rewrite Hquiet.
Qed.

(** The loop takes the next command. *)
Lemma ok_pop tr r command from rest :
  runtime_ok tr r -> rt_commands r = (command, from) :: rest ->
  runtime_ok tr (set_commands r rest)
  /\ (forall k, from = FromTask k -> k ∉ omap task_of rest).
Proof.
  intros [Ho Hq Hn Hs Hc Hu] E. rewrite E in *. inversion Hq; subst. split.
  - constructor; cbn; try done.
    + cbn in Hn. unfold task_of in Hn at 1. destruct from; cbn in Hn; [done|by inversion Hn].
    + rewrite zlen_cons in Hc. lia.
  - intros k ->. cbn in Hn. by inversion Hn.
Qed.

(** A command enters the queue. *)
Lemma ok_push tr more r command :
  runtime_ok tr r -> zlen (rt_commands r) < MAX_PENDING_RUNTIME_COMMANDS ->
  commanded (tr ++ more) command ->
  runtime_ok (tr ++ more) (set_commands r (rt_commands r ++ [(command, FromHost)])).
Proof.
  intros [Ho Hq Hn Hs Hc Hu] Hlen Hcmd. constructor; cbn; try done.
  - intros k op Hk. destruct (Ho k op Hk). split; [done|]. by apply op_evidence_mono.
  - apply Forall_app. split; [by eapply queue_mono|]. by constructor.
  - rewrite omap_app. cbn. by rewrite app_nil_r.
  - rewrite zlen_app. unfold zlen in *. cbn [length]. lia.
Qed.

Lemma ok_enqueue tr more r k c request :
  runtime_ok tr r -> zlen (rt_commands r) < MAX_PENDING_RUNTIME_COMMANDS ->
  rt_operations r !! k = Some (OpApproved c request) ->
  runtime_ok (tr ++ more)
    (set_commands (set_operations r (<[k := OpEnqueued c request]> (rt_operations r)))
       (rt_commands r ++ [(CApplyGrants request, FromTask k)])).
Proof.
  intros Hr Hlen Hk.
  assert (k ∉ omap task_of (rt_commands r)) as Hout.
  { intros Hin. destruct (queue_enqueued tr r k Hr Hin) as (? & ? & E). by rewrite E in Hk. }
  destruct (ok_ops tr r Hr k _ Hk) as [_ Hev]. cbn in Hev.
  destruct (ok_alter tr more r k (Some (OpEnqueued c request)) Hr Hout) as [Ho Hq Hn Hs Hc Hu];
    [by exists (OpApproved c request)|by apply (op_evidence_mono tr more k (OpApproved c request))|].
  constructor; cbn in *; try done.
  - apply Forall_app. split; [done|]. constructor; [|done]. exists c, request.
    rewrite lookup_insert_eq. split; [done|]. split; [done|]. by apply approved_grant_mono.
  - rewrite omap_app. cbn. apply NoDup_app. split; [done|]. split; [set_solver|].
    apply NoDup_singleton.
  - rewrite zlen_app. unfold zlen in *. cbn [length]. lia.
Qed.

#[local] Hint Resolve ok_same ok_spawn ok_push ok_enqueue : core.

Lemma ok_trivial tr more r : runtime_ok tr r -> runtime_ok (tr ++ more) r.
Proof. intros Hr. eapply ok_same; eauto. by destruct Hr. Qed.

(** ** Every step keeps it *)

Lemma in_last (tr : Trace) x : x ∈ tr ++ [x].
Proof. set_solver. Qed.

Lemma received_last tr r c m expected e out :
  rt_upgrade_quiesced r = false -> stale expected (rt_session r) = false ->
  received (tr ++ [(r, LMessage c m e, out)]) c m expected (s_permission_mode (rt_session r)) out.
Proof. intros Hq Hs%stale_false. exists r, e. split; [apply in_last|done]. Qed.

(** What the runtime does with a message: it keeps tasks and queue, or starts a task. *)
Lemma message_ok tr r c m e r' out :
  runtime_ok tr r -> handle_message canonical_directory r c m e = (r', out) ->
  runtime_ok (tr ++ [(r, LMessage c m e, out)]) r'.
Proof.
  intros Hr. pose proof (ok_quiesced tr r Hr) as Hu. unfold handle_message.
  destruct (rt_upgrade_quiesced r && negb (passes_quiesce m)) eqn:Eq.
  { intros [= <- <-]. by apply ok_trivial. }
  destruct m; cbn [passes_quiesce negb] in Eq; rewrite ?andb_true_r in Eq;
    try (intros [= <- <-]; by apply ok_trivial).
  - unfold handle_approval. destruct (stale _ _) eqn:Es; [intros [= <- <-]; by apply ok_trivial|].
    destruct (_ && _); [intros [= <- <-]; by apply ok_trivial|].
    destruct (slots_free r) eqn:Ef; cbn [negb]; [|intros [= <- <-]; by apply ok_trivial].
    destruct (me_console e); cbn [negb]; [|intros [= <- <-]; by apply ok_trivial].
    intros [= <- <-]. apply ok_spawn; try done. cbn [op_evidence].
    exists require_user, expected_session, (s_permission_mode (rt_session r)).
    by apply received_last.
  - destruct (rt_sink r); [|intros [= <- <-]; by apply ok_trivial].
    destruct (sink_publish _ _ _ _ _ _) as [b acc]. intros [= <- <-].
    eapply ok_same; eauto; done.
  - unfold handle_grants. destruct (stale _ _) eqn:Es; [intros [= <- <-]; by apply ok_trivial|].
    destruct (local_approval _ _) eqn:El.
    + destruct (apply_and_save _ _ _ _) as [s answer]. intros [= <- <-].
      eapply ok_same; eauto; done.
    + destruct (slots_free r) eqn:Ef; cbn [negb]; [|intros [= <- <-]; by apply ok_trivial].
      destruct (me_console e); cbn [negb]; [|intros [= <- <-]; by apply ok_trivial].
      intros [= <- <-]. apply ok_spawn; try done. cbn [op_evidence].
      eexists expected_session, (s_permission_mode (rt_session r)), _.
      split; [by apply received_last|done].
    + destruct (slots_free r) eqn:Ef; cbn [negb]; [|intros [= <- <-]; by apply ok_trivial].
      destruct (me_console e); cbn [negb]; [|intros [= <- <-]; by apply ok_trivial].
      intros [= <- <-]. apply ok_spawn; try done. cbn [op_evidence].
      eexists expected_session, (s_permission_mode (rt_session r)), _.
      split; [by apply received_last|done].
Qed.

Lemma answer_grant_ok tr more r from answer :
  runtime_ok tr r -> (forall k, from = FromTask k -> k ∉ omap task_of (rt_commands r)) ->
  runtime_ok (tr ++ more) (fst (answer_grant r from answer)).
Proof.
  intros Hr Hk. unfold answer_grant. destruct from as [|k]; [by apply ok_trivial|].
  destruct (rt_operations r !! k) as [[]|] eqn:E; try by apply ok_trivial.
  apply (ok_alter tr more r k None); eauto.
Qed.

Lemma set_session_ok tr r s : runtime_ok tr r -> runtime_ok tr (set_session r s).
Proof. intros Hr. rewrite <- (app_nil_r tr). eapply ok_same; eauto. by destruct Hr. Qed.

Lemma command_ok tr r x command from rest save r' out :
  runtime_ok tr r -> rt_commands r = (command, from) :: rest ->
  handle_command canonical_directory (set_commands r rest) command from save = (r', out) ->
  runtime_ok (tr ++ [x]) r'.
Proof.
  intros Hr E. destruct (ok_pop tr r command from rest Hr E) as [Hp Hk]. clear Hr E.
  change rest with (rt_commands (set_commands r rest)) in Hk.
  generalize dependent (set_commands r rest). clear r. intros r Hr Hk.
  pose proof (ok_quiesced tr r Hr) as Hu.
  destruct command; cbn [handle_command].
  - intros [= <- _]. apply ok_trivial. by apply set_session_ok.
  - destruct (allow_directory _ _ _ _). intros [= <- _]. apply ok_trivial. by apply set_session_ok.
  - destruct (apply_and_save _ _ _ _). intros Ha. apply (f_equal fst) in Ha. cbn in Ha. subst r'.
    apply answer_grant_ok; [by apply set_session_ok|done].
  - destruct (revoke_and_save _ _ _). intros Ha. apply (f_equal fst) in Ha. cbn in Ha. subst r'.
    apply answer_grant_ok; [by apply set_session_ok|done].
  - destruct (revoke_directory _ _ _ _). intros [= <- _]. apply ok_trivial. by apply set_session_ok.
  - intros [= <- _]. by apply ok_trivial.
  - destruct (value && _) eqn:Ev; intros [= <- _]; [by apply ok_trivial|].
    eapply ok_same; eauto; cbn. intros ->. cbn in Ev. apply negb_false_iff, Z.eqb_eq in Ev.
    apply map_size_empty_inv. unfold active_operations in Ev. lia.
  - intros [= <- _]. eapply ok_same; eauto; done.
  - intros [= <- _]. eapply ok_same; eauto; done.
Qed.

Lemma not_queued tr r k op :
  runtime_ok tr r -> rt_operations r !! k = Some op ->
  match op with
  | OpEnqueued _ _ => rt_commands r = []
  | _ => True
  end ->
  k ∉ omap task_of (rt_commands r).
Proof.
  intros Hr Hk Hop Hin. destruct (queue_enqueued tr r k Hr Hin) as (c & request & E).
  rewrite Hk in E. injection E as ->. rewrite Hop in Hin. cbn in Hin. by apply not_elem_of_nil in Hin.
Qed.

(** When the loop is gone its queue is empty. *)
Definition dead_drained (r : Runtime) : Prop := rt_alive r = false -> rt_commands r = [].

Lemma answer_ok tr r x k (allowed : bool) r' out :
  runtime_ok tr r -> answered_yes (tr ++ [x]) k \/ allowed = false ->
  answer_prompt r k allowed = Some (r', out) -> runtime_ok (tr ++ [x]) r'.
Proof.
  intros Hr Hyes. unfold answer_prompt.
  destruct (rt_operations r !! k) as [op|] eqn:E; [|done]. destruct op; try done.
  - intros [= <- <-]. apply (ok_alter tr [x] r k None); eauto. by eapply not_queued.
  - destruct allowed; intros [= <- <-].
    + destruct Hyes as [Hyes|]; [|done]. destruct (ok_ops tr r Hr k _ E) as [_ Hev].
      apply (ok_alter tr [x] r k (Some (OpApproved c request))); eauto; [by eapply not_queued|].
      split; [by apply prompted_grant_mono|done].
    + apply (ok_alter tr [x] r k None); eauto. by eapply not_queued.
Qed.

Lemma step_ok tr r l r' out :
  runtime_ok tr r -> dead_drained r -> step r l = Some (r', out) ->
  runtime_ok (tr ++ [(r, l, out)]) r'.
Proof.
  intros Hr Hd. destruct l; cbn [SessionRuntime.step].
  - destruct (rt_alive r); [|done]. intros [= Hm]. by eapply message_ok.
  - apply (answer_ok tr r (r, LAnswer k allowed, out) k allowed r' out Hr).
    destruct allowed; [left|by right]. exists r, out. apply in_last.
  - unfold enqueue_grant. destruct (rt_operations r !! k) as [[]|] eqn:E; try done.
    destruct (rt_alive r); cbn [negb].
    + destruct (_ <? _) eqn:Elen; [|done]. intros [= <- <-]. apply Z.ltb_lt in Elen. eauto.
    + intros [= <- <-]. apply (ok_alter tr _ r k None); eauto. by eapply not_queued.
  - unfold notice_stop. destruct (rt_alive r) eqn:Ea; [done|]. specialize (Hd Ea).
    destruct (rt_operations r !! k) as [op|] eqn:E; [|done]. destruct op; try done;
      intros [= <- <-]; apply (ok_alter tr _ r k None); eauto; by eapply not_queued.
  - destruct (rt_alive r && _) eqn:E; [|done]. intros [= <- <-].
    apply andb_true_iff in E as [_ E%Z.ltb_lt]. apply ok_push; try done.
    exists r, []. apply in_last.
  - destruct (rt_alive r); [|done]. destruct (rt_commands r) as [|[command from] rest] eqn:E; [done|].
    intros [= Hc]. by eapply command_ok.
  - intros [= <- <-]. eapply ok_same; eauto; [done..|]. by destruct Hr.
  - destruct (rt_alive r); [|done]. intros [= <- <-]. eapply ok_same; eauto; [done..|]. by destruct Hr.
Qed.

(** A step of a loop that is gone leaves the queue empty; one that ends it empties it. *)
Lemma handle_command_drained r command from save :
  dead_drained r -> dead_drained (fst (handle_command canonical_directory r command from save)).
Proof.
  intros Hd.
  assert (forall s answer, dead_drained (fst (answer_grant (set_session r s) from answer))) as Hans.
  { intros s answer. unfold answer_grant. repeat case_match; done. }
  destruct command; cbn [handle_command]; try done.
  - by destruct (allow_directory _ _ _ _).
  - destruct (apply_and_save _ _ _ _). apply Hans.
  - destruct (revoke_and_save _ _ _). apply Hans.
  - by destruct (revoke_directory _ _ _ _).
  - by destruct (_ && _).
Qed.

Lemma handle_message_drained r c m e :
  dead_drained r -> dead_drained (fst (handle_message canonical_directory r c m e)).
Proof.
  intros Hd. unfold handle_message, handle_approval, handle_grants.
  repeat (case_match; try done).
Qed.

Lemma step_drained r l r' out : dead_drained r -> step r l = Some (r', out) -> dead_drained r'.
Proof.
  intros Hd. destruct l; cbn [SessionRuntime.step].
  - destruct (rt_alive r); [|done]. intros [= Hm]. apply (f_equal fst) in Hm. cbn in Hm. subst r'.
    by apply handle_message_drained.
  - unfold answer_prompt. repeat case_match; try done; by intros [= <- <-].
  - unfold enqueue_grant. destruct (rt_operations r !! k) as [[]|]; try done.
    destruct (rt_alive r) eqn:Ea; cbn [negb]; [|by intros [= <- <-]].
    destruct (_ <? _); [|done]. intros [= <- <-] H. cbn in H. by rewrite Ea in H.
  - unfold notice_stop. repeat case_match; try done; by intros [= <- <-].
  - destruct (rt_alive r) eqn:Ea; [|done]. cbn [andb]. destruct (_ <? _); [|done].
    intros [= <- <-] H. cbn in H. by rewrite Ea in H.
  - destruct (rt_alive r) eqn:Ea; [|done]. destruct (rt_commands r) as [|[command from] rest]; [done|].
    intros [= Hm]. apply (f_equal fst) in Hm. cbn in Hm. subst r'. apply handle_command_drained.
    intros H. cbn in H. by rewrite Ea in H.
  - intros [= <- <-]. done.
  - destruct (rt_alive r); [|done]. by intros [= <- <-].
Qed.

Lemma run_ok s sink broker tr r :
  run (runtime_start s sink broker) tr r -> runtime_ok tr r /\ dead_drained r.
Proof.
  induction 1 as [|tr r r' l out _ [IH IHd] Hstep].
  - split; [|by intros H]. constructor; cbn; try done; try constructor; by vm_compute.
  - split; [by eapply step_ok|by eapply step_drained].
Qed.

Lemma run_labels_run start tr r ls r' outs :
  run start tr r -> run_labels canonical_directory r ls = Some (r', outs) ->
  exists tr', run start tr' r'.
Proof.
  revert tr r outs. induction ls as [|l ls IH]; intros tr r outs Hrun; cbn [run_labels].
  - intros [= <- _]. by exists tr.
  - destruct (step r l) as [[r1 out]|] eqn:E; [|done].
    destruct (run_labels _ r1 ls) as [[r2 outs']|] eqn:E'; [|done]. intros [= <- _].
    eapply IH; [|exact E']. by eapply run_snoc.
Qed.

(** * The operator's authority *)

(** What an answer that allows rests on. *)
Definition allow_evidence (tr : Trace) (r : Runtime) (l : Label) (c : Z) : Prop :=
  match l with
  | LMessage c' (MApproval _ require_user expected) _ =>
      c' = c /\ require_user = false /\ rt_upgrade_quiesced r = false
      /\ for_instance expected (rt_session r)
      /\ s_permission_mode (rt_session r) = Yolo
  | LAnswer k true => exists request, prompted tr k c request
  | _ => False
  end.

Lemma is_yolo_true mode : is_yolo mode = true -> mode = Yolo.
Proof. by destruct mode. Qed.

Lemma answer_grant_out r from answer o :
  o ∈ snd (answer_grant r from answer) ->
  o = OHost (HGrant answer) \/ exists c, o = OClient c (RGrant answer).
Proof.
  unfold answer_grant. destruct from as [|k]; cbn; [set_solver|].
  destruct (rt_operations r !! k) as [[]|]; cbn; set_solver.
Qed.

Lemma handle_command_no_allow r command from save c :
  OClient c RAllow ∉ snd (handle_command canonical_directory r command from save).
Proof.
  intros Hin. destruct command; cbn [handle_command] in Hin; repeat case_match; cbn in Hin;
    try set_solver; apply answer_grant_out in Hin as [|[]]; done.
Qed.

(** C10: an operation is allowed only with authority: in every run of a session runtime,
    whenever a client is answered allow, either the loop read that very request in yolo mode,
    with no user demanded, not quiesced, and not meant for another instance of the session;
    or the operator said yes to a prompt that had been put on the console for a request of
    that client, which was received while the runtime was not quiesced and was meant for this
    instance. *)
Theorem allow_authorised s sink broker tr r l r' out c :
  run (runtime_start s sink broker) tr r ->
  step r l = Some (r', out) ->
  OClient c RAllow ∈ out ->
  allow_evidence tr r l c.
Proof.
  intros Hrun Hstep Hout. destruct (run_ok _ _ _ _ _ Hrun) as [Hr _].
  destruct l; cbn [SessionRuntime.step] in Hstep.
  - destruct (rt_alive r); [|done]. injection Hstep as Hstep. revert Hstep. unfold handle_message.
    destruct (rt_upgrade_quiesced r && _) eqn:Eq.
    { intros [= _ <-]. destruct m; set_solver. }
    destruct m; try (intros [= _ <-]; set_solver).
    + cbn [passes_quiesce negb] in Eq. rewrite andb_true_r in Eq. unfold handle_approval.
      destruct (stale _ _) eqn:Es; [intros [= _ <-]; set_solver|].
      destruct (negb require_user && _) eqn:Ey; [|repeat case_match; intros [= _ <-]; set_solver].
      intros [= _ <-]. apply andb_true_iff in Ey as [->%negb_true_iff Ey%is_yolo_true].
      apply list_elem_of_singleton in Hout. apply stale_false in Es. by injection Hout as ->.
    + intros [= _ <-]. repeat case_match; set_solver.
    + repeat case_match; intros [= _ <-]; set_solver.
    + unfold handle_grants. repeat case_match; intros [= _ <-]; set_solver.
  - unfold answer_prompt in Hstep. destruct (rt_operations r !! k) as [op|] eqn:E; [|done].
    destruct op as [c' request|c' request|c' request|c' request]; try done.
    + injection Hstep as <- <-. destruct allowed; [|set_solver].
      apply list_elem_of_singleton in Hout. injection Hout as ->.
      exists request. apply (ok_ops tr r Hr k _ E).
    + destruct allowed; injection Hstep as <- <-; set_solver.
  - unfold enqueue_grant in Hstep. repeat case_match; try done; injection Hstep as <- <-; set_solver.
  - unfold notice_stop in Hstep. repeat case_match; try done; injection Hstep as <- <-; set_solver.
  - repeat case_match; try done; injection Hstep as <- <-; set_solver.
  - destruct (rt_alive r); [|done]. destruct (rt_commands r) as [|[command from] rest]; [done|].
    injection Hstep as Hstep. apply (f_equal snd) in Hstep. cbn in Hstep. subst out.
    by apply handle_command_no_allow in Hout.
  - injection Hstep as <- <-. set_solver.
  - repeat case_match; try done; injection Hstep as <- <-; set_solver.
Qed.

(** Who may have added a capability. *)
Definition authorised (tr : Trace) (cap : Capability) : Prop :=
  (exists c request expected mode out,
     received tr c (MApplyGrants request expected) expected mode out
     /\ mode = Yolo /\ asks canonical_directory request cap = true)
  \/ (exists k c request, approved_grant tr k c request
                          /\ asks canonical_directory request cap = true)
  \/ (exists command, commanded tr command /\ command_grants command cap = true).

Lemma authorised_mono tr more cap : authorised tr cap -> authorised (tr ++ more) cap.
Proof.
  intros [(c & rq & ex & m & out & H & Hrest)|[(k & c & rq & H & Hrest)|(cmd & H & Hrest)]].
  - left. exists c, rq, ex, m, out. split; [by apply received_mono|done].
  - right; left. exists k, c, rq. split; [by apply approved_grant_mono|done].
  - right; right. exists cmd. split; [by apply commanded_mono|done].
Qed.

(** The mode is the initial one, or one the host set. *)
Definition mode_by_host (s : Session) (tr : Trace) (mode : PermissionMode) : Prop :=
  mode = s_permission_mode s \/ commanded tr (CSetPermissionMode mode).

(** A message adds nothing but in yolo mode. *)
Lemma message_grows tr r c m e r' out :
  handle_message canonical_directory r c m e = (r', out) ->
  grows (rt_session r) (rt_session r') (authorised (tr ++ [(r, LMessage c m e, out)]))
    (s_permission_mode (rt_session r)).
Proof.
  unfold handle_message.
  destruct (rt_upgrade_quiesced r && _) eqn:Eq; [intros [= <- _]; apply grows_refl|].
  destruct m; try (intros [= <- _]; apply grows_refl).
  - unfold handle_approval. repeat case_match; intros [= <- _]; apply grows_refl.
  - repeat case_match; intros [= <- _]; apply grows_refl.
  - cbn [passes_quiesce negb] in Eq. rewrite andb_true_r in Eq. unfold handle_grants.
    destruct (stale _ _) eqn:Es; [intros [= <- _]; apply grows_refl|].
    destruct (local_approval _ _) eqn:El; [|repeat case_match; intros [= <- _]; apply grows_refl..].
    destruct (apply_and_save _ _ _ _) as [s answer] eqn:Ea. intros [= <- <-].
    destruct (apply_and_save_grows _ _ _ _ _ Ea) as [Hc Hrest]. split; [|done].
    intros cap Hcap. destruct (Hc cap Hcap) as [|Hask]; [by left|right; left].
    eexists c, request, expected_session, _, _. split; [by apply received_last|].
    split; [|done]. cbn in El. by destruct (s_permission_mode _).
Qed.

Lemma command_authorised tr ops command from more cap :
  queue_evidence tr ops (command, from) -> command_grants command cap = true ->
  authorised (tr ++ more) cap.
Proof.
  unfold queue_evidence. cbn. destruct from as [|k].
  - intros Hc Hg. apply authorised_mono. right; right. by exists command.
  - intros (c & request & -> & _ & Ha) Hg. apply authorised_mono. right; left. by exists k, c, request.
Qed.

Lemma step_grows tr r l r' out :
  runtime_ok tr r -> step r l = Some (r', out) ->
  exists mode, grows (rt_session r) (rt_session r') (authorised (tr ++ [(r, l, out)])) mode
               /\ (mode = s_permission_mode (rt_session r) \/ commanded tr (CSetPermissionMode mode)).
Proof.
  intros Hr Hstep.
  assert (forall more, exists mode, grows (rt_session r) (rt_session r) more mode
            /\ (mode = s_permission_mode (rt_session r) \/ commanded tr (CSetPermissionMode mode)))
    as Hsame.
  { intros more. eexists. split; [apply grows_refl|by left]. }
  destruct l; cbn [SessionRuntime.step] in Hstep.
  - destruct (rt_alive r); [|done]. injection Hstep as Hm.
    eexists. split; [by apply message_grows|by left].
  - unfold answer_prompt in Hstep. repeat case_match; try done; injection Hstep as <- <-; apply Hsame.
  - unfold enqueue_grant in Hstep. repeat case_match; try done; injection Hstep as <- <-; apply Hsame.
  - unfold notice_stop in Hstep. repeat case_match; try done; injection Hstep as <- <-; apply Hsame.
  - repeat case_match; try done; injection Hstep as <- <-; apply Hsame.
  - destruct (rt_alive r); [|done]. destruct (rt_commands r) as [|[command from] rest] eqn:E; [done|].
    injection Hstep as Hc. destruct Hr as [_ Hq _ _ _ _]. rewrite E in Hq. inversion Hq; subst.
    destruct (handle_command_grows _ _ _ _ _ _ Hc) as [Hcap Hrest]. cbn [rt_session set_commands] in *.
    eexists. split; [split; [|exact Hrest]|].
    + intros cap Hx. destruct (Hcap cap Hx); [by left|right]. by eapply command_authorised.
    + destruct command; try by left. right. destruct from; [by apply H1|].
      destruct H1 as (? & ? & ? & _). done.
  - injection Hstep as <- <-. apply Hsame.
  - repeat case_match; try done; injection Hstep as <- <-; apply Hsame.
Qed.

Lemma run_grows s sink broker tr r :
  run (runtime_start s sink broker) tr r ->
  (forall cap, holds (rt_session r) cap = true -> holds s cap = true \/ authorised tr cap)
  /\ mode_by_host s tr (s_permission_mode (rt_session r))
  /\ s_cwd (rt_session r) = s_cwd s
  /\ expected_from_session (rt_session r) = expected_from_session s.
Proof.
  intros Hrun. induction Hrun as [|tr r r' l out Hrun IH Hstep].
  { repeat split; [by left|by left]. }
  destruct IH as (Hcap & Hmode & Hcwd & Hid). destruct (run_ok _ _ _ _ _ Hrun) as [Hr _].
  destruct (step_grows _ _ _ _ _ Hr Hstep) as (mode & (Hg & Hm & Hi & Hw & Ht & Hp) & Hmode').
  split; [|split; [|split; [congruence|]]].
  - intros cap Hc. destruct (Hg cap Hc) as [Hc'|Ha]; [|by right].
    destruct (Hcap cap Hc'); [by left|right; by apply authorised_mono].
  - rewrite Hm. destruct Hmode' as [-> |Hc]; [|right; by apply commanded_mono].
    destruct Hmode as [-> |Hc]; [by left|right; by apply commanded_mono].
  - unfold expected_from_session in *. rewrite Hi, Ht, Hp. done.
Qed.

(** C11: whatever a session may do was given to it: in every run, a listen port, environment
    prefix, ambient credential or directory that the session holds was held at the start, or
    asked for by a request read in yolo mode for this instance while not quiesced, or by a
    request whose prompt the operator answered with yes, or it is what a command of the host
    grants. The permission mode is the initial one or was set by the host, and the session
    keeps its identity and working directory. *)
Theorem grants_authorised s sink broker tr r :
  run (runtime_start s sink broker) tr r ->
  (forall cap, holds (rt_session r) cap = true -> holds s cap = true \/ authorised tr cap)
  /\ mode_by_host s tr (s_permission_mode (rt_session r))
  /\ s_cwd (rt_session r) = s_cwd s
  /\ expected_from_session (rt_session r) = expected_from_session s.
Proof. apply run_grows. Qed.

(** * Quiescence *)

(** An answer that carries out something. *)
Definition carries_out (o : Output) : bool :=
  match o with
  | OClient _ RAllow => true
  | OClient _ (RGrant (Ok _)) => true
  | _ => false
  end.

Definition host_command (l : Label) : bool :=
  match l with
  | LCommand _ => true
  | _ => false
  end.

(** A runtime that is quiesced for an upgrade has no task in flight, and its queue holds
    nothing but the host's commands; until the host's command is carried out no step changes
    the session, starts a task, ends the quiescence, or answers a client with an allow or an
    applied grant. *)
Theorem quiesced_frozen s sink broker tr r :
  run (runtime_start s sink broker) tr r ->
  rt_upgrade_quiesced r = true ->
  rt_operations r = ∅
  /\ Forall (fun item => item.2 = FromHost /\ commanded tr item.1) (rt_commands r)
  /\ forall l r' out, step r l = Some (r', out) -> host_command l = false ->
       rt_session r' = rt_session r /\ rt_operations r' = ∅ /\ rt_upgrade_quiesced r' = true
       /\ forallb (fun o => negb (carries_out o)) out = true.
Proof.
  intros Hrun Hq. destruct (run_ok _ _ _ _ _ Hrun) as [Hr _].
  pose proof (ok_quiesced tr r Hr Hq) as Ho. split; [done|]. split.
  { eapply Forall_impl; [apply (ok_queue tr r Hr)|]. intros [command [|k]]; unfold queue_evidence; cbn; [done|].
    intros (c & request & _ & Hk & _). by rewrite Ho in Hk. }
  intros l r' out Hstep Hl. destruct l; cbn [SessionRuntime.step host_command] in *; try done.
  - destruct (rt_alive r); [|done]. injection Hstep as Hm. revert Hm. unfold handle_message.
    rewrite Hq. cbn [andb]. destruct m; cbn [passes_quiesce negb]; try (intros [= <- <-]; done).
    + intros [= <- <-]. by case_match.
    + destruct (rt_sink r); [|by intros [= <- <-]]. destruct (sink_publish _ _ _ _ _ _) as [b []];
        by intros [= <- <-].
  - unfold answer_prompt in Hstep. by rewrite Ho in Hstep.
  - unfold enqueue_grant in Hstep. by rewrite Ho in Hstep.
  - unfold notice_stop in Hstep. rewrite Ho in Hstep. by case_match.
  - case_match; [|done]. by injection Hstep as <- <-.
  - by injection Hstep as <- <-.
  - case_match; [|done]. by injection Hstep as <- <-.
Qed.

(** In every run at most 64 tasks are in flight and at most 64 commands wait in the
    queue; every task that waits for the answer to its grant has exactly one command in the
    queue. *)
Theorem runtime_bounded s sink broker tr r :
  run (runtime_start s sink broker) tr r ->
  active_operations r <= MAX_PENDING_APPROVALS
  /\ zlen (rt_commands r) <= MAX_PENDING_RUNTIME_COMMANDS
  /\ NoDup (omap task_of (rt_commands r)).
Proof. intros Hrun. destruct (run_ok _ _ _ _ _ Hrun) as [[] _]. done. Qed.

(** * Answers *)

Definition client_of (op : Operation) : Z :=
  match op with
  | OpApproval c _ | OpGrant c _ | OpApproved c _ | OpEnqueued c _ => c
  end.

Definition is_client (o : Output) : bool :=
  match o with
  | OClient _ _ => true
  | _ => false
  end.

(** No task starts or ends, and no client is answered. *)
Definition stays (r r' : Runtime) (out : list Output) : Prop :=
  client_of <$> rt_operations r' = client_of <$> rt_operations r
  /\ existsb is_client out = false.

(** A task ends with one answer, to its client. *)
Definition ends_one (r r' : Runtime) (out : list Output) : Prop :=
  exists k op answer, rt_operations r !! k = Some op
    /\ rt_operations r' = delete k (rt_operations r) /\ out = [OClient (client_of op) answer].

(** A task starts for the client [c], under a number that was never used. *)
Definition starts_one (r r' : Runtime) (c : Z) (out : list Output) : Prop :=
  exists op prompt, rt_operations r !! rt_next r = None
    /\ rt_operations r' = <[rt_next r := op]> (rt_operations r)
    /\ rt_next r' = rt_next r + 1
    /\ client_of op = c /\ out = [OConsole (rt_next r) prompt].

Definition answers_now (r r' : Runtime) (c : Z) (out : list Output) : Prop :=
  rt_operations r' = rt_operations r /\ rt_next r' = rt_next r
  /\ exists answer, out = [OClient c answer].

Definition is_activity (m : Message) : bool :=
  match m with
  | MActivity _ _ => true
  | _ => false
  end.

Lemma fresh_key tr r : runtime_ok tr r -> rt_operations r !! rt_next r = None.
Proof.
  intros Hr. destruct (rt_operations r !! rt_next r) eqn:E; [|done].
  destruct (ok_ops tr r Hr _ _ E). lia.
Qed.

Lemma message_answered tr r c m e r' out :
  runtime_ok tr r -> handle_message canonical_directory r c m e = (r', out) ->
  answers_now r r' c out \/ starts_one r r' c out
  \/ (is_activity m = true /\ r' = r /\ out = []).
Proof.
  intros Hr. pose proof (fresh_key tr r Hr) as Hf.
  unfold handle_message, handle_approval, handle_grants.
  destruct (rt_upgrade_quiesced r && _) eqn:Eq.
  { intros [= <- <-]. destruct m; cbn in Eq; rewrite ?andb_false_r in Eq; try done; left;
      (split; [done|]; split; [done|]; by eexists). }
  assert (forall r1 answer, rt_operations r1 = rt_operations r -> rt_next r1 = rt_next r ->
            answers_now r r1 c [OClient c answer]) as Hnow.
  { intros r1 answer H1 H2. split; [done|]. split; [done|]. by eexists. }
  assert (forall op prompt, client_of op = c ->
            starts_one r (spawn r op) c [OConsole (rt_next r) prompt]) as Hstart.
  { intros op prompt Hop. by exists op, prompt. }
  destruct m; try (intros [= <- <-]; auto; fail).
  - repeat case_match; intros [= <- <-]; auto.
  - destruct (rt_sink r); [|by intros [= <- <-]; auto].
    destruct (sink_publish _ _ _ _ _ _). intros [= <- <-]. by left; apply Hnow.
  - destruct (stale _ _); [by intros [= <- <-]; auto|].
    destruct (local_approval _ _).
    + destruct (apply_and_save _ _ _ _). intros [= <- <-]. by left; apply Hnow.
    + repeat case_match; intros [= <- <-]; auto.
    + repeat case_match; intros [= <- <-]; auto.
Qed.

Lemma answer_grant_answered r from answer r' out :
  answer_grant r from answer = (r', out) -> stays r r' out \/ ends_one r r' out.
Proof.
  unfold answer_grant. destruct from as [|k]; [intros [= <- <-]; by left|].
  destruct (rt_operations r !! k) as [op|] eqn:E; [|intros [= <- <-]; by left].
  destruct op; intros [= <- <-]; try by left. right. by eexists k, _, _.
Qed.

Lemma stays_alter r k op op' out :
  rt_operations r !! k = Some op -> client_of op' = client_of op -> existsb is_client out = false ->
  forall r', rt_operations r' = <[k := op']> (rt_operations r) -> stays r r' out.
Proof.
  intros Hk Hc Hout r' Hr'. split; [|done]. rewrite Hr', fmap_insert, Hc, insert_id; [done|].
  by rewrite lookup_fmap, Hk.
Qed.

(** Every client is answered once: when a message is read it is answered at once, or one
    task starts for its client with a prompt on the console (an activity note alone has no
    answer). No other step starts a task; it either answers no client, and every task goes on
    for its client, or it ends exactly one task with exactly one answer, to the client of
    that task. *)
Theorem answered_once s sink broker tr r l r' out :
  run (runtime_start s sink broker) tr r ->
  step r l = Some (r', out) ->
  match l with
  | LMessage c m _ => answers_now r r' c out \/ starts_one r r' c out
                      \/ (is_activity m = true /\ r' = r /\ out = [])
  | _ => stays r r' out \/ ends_one r r' out
  end.
Proof.
  intros Hrun Hstep. destruct (run_ok _ _ _ _ _ Hrun) as [Hr _].
  destruct l; cbn [SessionRuntime.step] in Hstep.
  - destruct (rt_alive r); [|done]. injection Hstep as Hm. by eapply message_answered.
  - unfold answer_prompt in Hstep. destruct (rt_operations r !! k) as [op|] eqn:E; [|done].
    destruct op; try done; [|destruct allowed]; injection Hstep as <- <-.
    + right. by eexists k, _, _.
    + left. by eapply (stays_alter r k _ (OpApproved c request)).
    + right. by eexists k, _, _.
  - unfold enqueue_grant in Hstep. destruct (rt_operations r !! k) as [op|] eqn:E; [|done].
    destruct op; try done. destruct (rt_alive r); cbn [negb] in Hstep.
    + destruct (_ <? _); [|done]. injection Hstep as <- <-. left. by eapply (stays_alter r k _ (OpEnqueued c request)).
    + injection Hstep as <- <-. right. by eexists k, _, _.
  - unfold notice_stop in Hstep. destruct (rt_alive r); [done|].
    destruct (rt_operations r !! k) as [op|] eqn:E; [|done].
    destruct op; try done; injection Hstep as <- <-; right; by eexists k, _, _.
  - case_match; [|done]. injection Hstep as <- <-. by left.
  - destruct (rt_alive r); [|done]. destruct (rt_commands r) as [|[command from] rest]; [done|].
    injection Hstep as Hc. destruct command; cbn [handle_command] in Hc.
    + injection Hc as <- <-. by left.
    + destruct (allow_directory _ _ _ _). injection Hc as <- <-. by left.
    + destruct (apply_and_save _ _ _ _). by apply answer_grant_answered in Hc.
    + destruct (revoke_and_save _ _ _). by apply answer_grant_answered in Hc.
    + destruct (revoke_directory _ _ _ _). injection Hc as <- <-. by left.
    + injection Hc as <- <-. by left.
    + destruct (_ && _); injection Hc as <- <-; by left.
    + injection Hc as <- <-. by left.
    + injection Hc as <- <-. by left.
  - injection Hstep as <- <-. by left.
  - case_match; [|done]. injection Hstep as <- <-. by left.
Qed.

(** When the loop has ended no task is left waiting: nothing but the tasks' own steps is
    possible (and the retirement of the sink), none starts a task, and every task that is
    left can end with an answer to its client that carries nothing out. *)
Theorem stopped_tasks_answered s sink broker tr r k op :
  run (runtime_start s sink broker) tr r ->
  rt_alive r = false ->
  rt_operations r !! k = Some op ->
  exists l out, (l = LEnqueue k \/ l = LStopped k)
    /\ step r l = Some (finish r k, out)
    /\ exists answer, out = [OClient (client_of op) answer]
    /\ carries_out (OClient (client_of op) answer) = false.
Proof.
  intros Hrun Hdead Hk. destruct op.
  1, 2, 4: eexists (LStopped k), _; cbn [SessionRuntime.step]; unfold notice_stop;
    rewrite Hdead, Hk; (split; [by right|]); (split; [done|]); by eexists.
  eexists (LEnqueue k), _; cbn [SessionRuntime.step]; unfold enqueue_grant;
    rewrite Hk, Hdead; (split; [by left|]); (split; [done|]); by eexists.
Qed.
End Runs.
