(* ===== verification/SessionStart.v ===== *)
(** * Starting and ending a session runtime: src/src/approvals.rs and src/src/config.rs

    What a start ([spawn_runtime_inner]) reads, decides and saves, what the task
    that outlives the loop saves at the end, and what forgetting a session
    removes. The files of one session are a store: its metadata, its life cycle
    record, and whether its socket is there. *)

From S2P Require Import Prelude Strings Json Contract Broker Config SessionRuntime.
From S2P Require Upgrade.

#[local] Open Scope Z_scope.
#[local] Open Scope rust_scope.

Record SessionStore := mkStore {
  st_session : option Session;
  st_lifecycle : option SessionLifecycle;
  st_socket : bool;
}.

Definition store_session (st : SessionStore) (s : Session) : SessionStore :=
  mkStore (Some s) (st_lifecycle st) (st_socket st).
Definition store_lifecycle (st : SessionStore) (l : SessionLifecycle) : SessionStore :=
  mkStore (st_session st) (Some l) (st_socket st).
Definition store_socket (st : SessionStore) (socket : bool) : SessionStore :=
  mkStore (st_session st) (st_lifecycle st) socket.

(** A save goes to a temporary file that is renamed: when it fails nothing changes. *)
Definition save_session (st : SessionStore) (s : Session) (failure : option string) :
    SessionStore * result string unit :=
  match failure with
  | Some e => (st, Err e)
  | None => (store_session st s, Ok tt)
  end.

Definition save_session_lifecycle (st : SessionStore) (l : SessionLifecycle)
    (failure : option string) : SessionStore * result string unit :=
  match failure with
  | Some e => (st, Err e)
  | None => (store_lifecycle st l, Ok tt)
  end.

(** * The fields a life cycle record changes *)

Definition ended (l : SessionLifecycle) (status : LifecycleStatus) (stopped_at : Z)
    (exit_reason : string) (last_error : option string) : SessionLifecycle :=
  mkLifecycle status (lc_started_at l) (Some stopped_at) (Some exit_reason) last_error
    (lc_logical_path l) (lc_root_name l) (lc_root_relative_path l) (lc_restart_policy l)
    (lc_restart_count l) (lc_last_restart_at l) (lc_next_restart_at l)
    (lc_restart_limit_reason l).

Definition activated (l : SessionLifecycle) : SessionLifecycle :=
  mkLifecycle LsActive (lc_started_at l) (lc_stopped_at l) (lc_exit_reason l) (lc_last_error l)
    (lc_logical_path l) (lc_root_name l) (lc_root_relative_path l) (lc_restart_policy l)
    (lc_restart_count l) (lc_last_restart_at l) (lc_next_restart_at l)
    (lc_restart_limit_reason l).

(** What the record of a new instance takes from the previous one. *)
Definition inherit_restarts (l : SessionLifecycle) (previous : option SessionLifecycle) :
    SessionLifecycle :=
  match previous with
  | None => l
  | Some p =>
      mkLifecycle (lc_status l) (lc_started_at l) (lc_stopped_at l) (lc_exit_reason l)
        (lc_last_error l) (lc_logical_path l) (lc_root_name l) (lc_root_relative_path l)
        (lc_restart_policy p) (lc_restart_count p) (lc_last_restart_at p) None
        (lc_restart_limit_reason p)
  end.

(** * The instance *)

(** [previous_session.chain(previous_lifecycle).max()]. *)
Definition previous_started_at (s : option Session) (l : option SessionLifecycle) : option Z :=
  match s_started_at <$> s, lc_started_at <$> l with
  | Some a, Some b => Some (Z.max a b)
  | Some a, None => Some a
  | None, b => b
  end.

(** The start is advanced past every recorded one. *)
Definition advance_started_at (s : Session) (previous : option Z) : result string Session :=
  match previous with
  | Some p =>
      if s_started_at s <=? p then
        let! next := ok_or (checked_add p 1) "session instance generation exhausted"%string in
        Ok (set_started_at s next)
      else Ok s
  | None => Ok s
  end.

(** What a new instance takes over from the metadata of the same working directory. *)
Definition carry_over (s : Session) (previous : option Session) : Session :=
  match previous with
  | Some p =>
      if path_eqb (s_cwd p) (s_cwd s) then
        let directories := s_permitted_directories p in
        let s := set_permitted_directories s
                   (if contains_path directories (s_cwd s) then directories
                    else sort_by path_leb (directories ++ [s_cwd s])) in
        set_grants s (s_grants p)
      else s
  | None => s
  end.

Section Start.
Context `{UuidLib, !SerdeJson, !TokioSync}.
Context (canonicalize : string -> result FsError string) (is_dir : string -> bool).

(** [read_session_metadata(&id).await.ok()]. *)
Definition read_session_metadata (st : SessionStore) (id : string) : option Session :=
  s ← st_session st;
  if is_ok (validate_loaded_session canonicalize is_dir id s) then Some s else None.

(** What a start finds: the text of a fresh uuid, the clock at the start and after a
    failure, the process, whether other owners allow a replacement, what the probe of
    the socket says, and whether the directory, the listener and the saves fail. *)
Record StartEnvironment := mkStartEnvironment {
  se_fresh : string;
  se_now : Z;
  se_later : Z;
  se_process_id : Z;
  se_replacement : result string unit;
  se_active : result string bool;
  se_listener : option string;
  se_save_starting : option string;
  se_save_session : option string;
  se_save_active : option string;
  se_save_rollback : option string;
  se_save_crashed : option string;
}.

Record RuntimeActivity := mkActivity {
  ra_broker : ActivityBroker;
  ra_session_instance : Uuid;
}.

(** The end of a start that failed after its record was saved. *)
Definition fail_start (st : SessionStore) (l : SessionLifecycle) (reason error : string)
    (e : StartEnvironment) : SessionStore :=
  store_socket (fst (save_session_lifecycle st
    (ended l LsCrashed (se_later e) reason (Some error)) (se_save_crashed e))) false.

(** From the bound socket on: the saves, and how a failure is undone. *)
Definition save_start (st : SessionStore) (s : Session) (l : SessionLifecycle)
    (e : StartEnvironment) : SessionStore * result string Session :=
  match save_session_lifecycle st l (se_save_starting e) with
  | (st, Err error) => (store_socket st false, Err error)
  | (st, Ok _) =>
      match save_session st s (se_save_session e) with
      | (st, Err error) =>
          (fail_start st l "failed to persist runtime metadata" error e, Err error)
      | (st, Ok _) =>
          let l := activated l in
          match save_session_lifecycle st l (se_save_active e) with
          | (st, Err error) =>
              let st := fst (save_session st (set_process_id s 0) (se_save_rollback e)) in
              (fail_start st l "failed to persist active lifecycle state" error e, Err error)
          | (st, Ok _) => (st, Ok s)
          end
      end
  end.

(** The checks of a start, and what it reads: the identifier, the metadata and the record. *)
Definition check_start (st : SessionStore) (session_id_text : option string)
    (environment : CapturedStartEnvironment) (e : StartEnvironment) :
    result string (string * option Session * option SessionLifecycle) :=
  environment_validate environment ;!
  let! id := session_id session_id_text (se_fresh e) in
  se_replacement e ;!
  let! active := se_active e in
  ensure (negb active) "session is already running" ;!
  Ok (id, read_session_metadata st id, st_lifecycle st).

(** The session a start is going to run. *)
Definition new_instance (cwd id : string) (mode : PermissionMode)
    (previous_session : option Session) (previous_lifecycle : option SessionLifecycle)
    (e : StartEnvironment) : result string Session :=
  let! session := new_session_with_mode canonicalize is_dir cwd (Some id) (se_fresh e) mode
                    (se_now e) in
  let! session := advance_started_at session
                    (previous_started_at previous_session previous_lifecycle) in
  Ok (carry_over session previous_session).

Definition spawn_runtime_inner (st : SessionStore) (cwd : string)
    (session_id_text : option string) (mode : PermissionMode) (logical_path : option string)
    (environment : CapturedStartEnvironment) (e : StartEnvironment) :
    SessionStore * result string Session :=
  match check_start st session_id_text environment e with
  | Err error => (st, Err error)
  | Ok (id, previous_session, previous_lifecycle) =>
      let st := store_socket st false in          (* [remove_inactive_socket_unlocked] *)
      match new_instance cwd id mode previous_session previous_lifecycle e with
      | Err error => (st, Err error)
      | Ok session =>
          match se_listener e with
          | Some error => (st, Err error)
          | None =>
              let session := set_process_id session (se_process_id e) in
              let lifecycle :=
                inherit_restarts (lifecycle_starting (s_started_at session) logical_path)
                  previous_lifecycle in
              save_start (store_socket st true) session lifecycle e
          end
      end
  end.

(** The runtime of a session that was started. *)
Definition started_runtime (s : Session) (activity : option RuntimeActivity)
    (broker : ActivityBroker) : Runtime :=
  runtime_start s ((fun a => sink_new s (ra_session_instance a)) <$> activity)
    (match activity with
     | Some a => ra_broker a
     | None => broker
     end).

(** * The end *)

Record EndEnvironment := mkEndEnvironment {
  ee_now : Z;
  ee_save_session : option string;
  ee_save_lifecycle : option string;
}.

(** The task that waits for the loop: [session] is what the loop made of it. *)
Definition complete_runtime (st : SessionStore) (session : Session) (outcome : result string unit)
    (e : EndEnvironment) : SessionStore :=
  let session := set_process_id session 0 in
  let st := fst (save_session st session (ee_save_session e)) in
  let lifecycle := match st_lifecycle st with
                   | Some l => l
                   | None => lifecycle_starting (s_started_at session) None
                   end in
  let lifecycle := match outcome with
                   | Ok _ => ended lifecycle LsStopped (ee_now e) "graceful shutdown" None
                   | Err error =>
                       ended lifecycle LsCrashed (ee_now e) "unexpected runtime termination"
                         (Some error)
                   end in
  store_socket (fst (save_session_lifecycle st lifecycle (ee_save_lifecycle e))) false.

Record ForgottenSessionArtifacts := mkForgotten {
  fg_session_id : string;
  fg_metadata_removed : bool;
  fg_lifecycle_removed : bool;
  fg_socket_removed : bool;
}.

(** [remove_owned_session_entry]: whether the entry was there; what is not a file of
    the session is refused. *)
Definition remove_owned_session_entry (present : bool) (refused : option string) :
    result string bool :=
  if present then match refused with
                  | Some e => Err e
                  | None => Ok true
                  end
  else Ok false.

(** [forget_session_artifacts]; [active] is what the probe says, the others whether the
    removals are refused. The entries are removed one after the other. *)
Definition forget_session_artifacts (st : SessionStore) (id : string) (active : result string bool)
    (refuse_socket refuse_metadata refuse_lifecycle : option string) :
    SessionStore * result string ForgottenSessionArtifacts :=
  let checked := Upgrade.validate_session_id id ;!
                 let! active := active in
                 ensure (negb active) "session is live; stop it before forgetting it"%string in
  match checked with
  | Err error => (st, Err error)
  | Ok _ =>
      match remove_owned_session_entry (st_socket st) refuse_socket with
      | Err error => (st, Err error)
      | Ok socket_removed =>
          let st := store_socket st false in
          match remove_owned_session_entry (is_some (st_session st)) refuse_metadata with
          | Err error => (st, Err error)
          | Ok metadata_removed =>
              let st := mkStore None (st_lifecycle st) (st_socket st) in
              match remove_owned_session_entry (is_some (st_lifecycle st)) refuse_lifecycle with
              | Err error => (st, Err error)
              | Ok lifecycle_removed =>
                  (mkStore None None false,
                   Ok (mkForgotten id metadata_removed lifecycle_removed socket_removed))
              end
          end
      end
  end.
End Start.
