(* ===== verification/SessionStartTheorems.v ===== *)
(** * Instances of a session never come again

    Every start of a session advances its starting time past every recorded one,
    so that two instances are never taken for each other and a request that is
    bound to one is refused by every other; and what a new instance may do is
    what the previous one in the same directory could. *)

From S2P Require Import Prelude Strings Json Contract Broker Config ConfigTheorems.
From S2P Require Import SessionRuntime SessionRuntimeTheorems SessionStart.

#[local] Open Scope Z_scope.
#[local] Open Scope rust_scope.

Section Instances.
Context (canonicalize : string -> result FsError string) (is_dir : string -> bool).

#[local] Notation spawn := (spawn_runtime_inner canonicalize is_dir).
#[local] Notation readable := (read_session_metadata canonicalize is_dir).

(** * One start *)

Lemma advance_past s previous s' :
  advance_started_at s previous = Ok s' ->
  s' = set_started_at s (s_started_at s') /\ s_started_at s <= s_started_at s'
  /\ forall p, previous = Some p -> p < s_started_at s'.
Proof.
  unfold advance_started_at. destruct previous as [p|]; [|intros [= <-]; by destruct s].
  destruct (Z.leb_spec (s_started_at s) p).
  - unfold checked_add. destruct (_ <=? _); cbn; [|done]. intros [= <-]. cbn.
    split; [done|]. split; [lia|]. intros ? [= <-]. lia.
  - intros [= <-]. split; [by destruct s|]. split; [done|]. by intros ? [= <-].
Qed.

(** What the new instance takes over. *)
Definition takes_over (s : Session) (previous : option Session) : Prop :=
  match previous with
  | Some p =>
      if path_eqb (s_cwd p) (s_cwd s) then
        s_grants s = s_grants p
        /\ forall d, contains_path (s_permitted_directories s) d
                     = contains_path (s_permitted_directories p) d || path_eqb (s_cwd s) d
      else s_grants s = no_grants /\ s_permitted_directories s = [s_cwd s]
  | None => s_grants s = no_grants /\ s_permitted_directories s = [s_cwd s]
  end.

Lemma sort_by_contains l d : contains_path (sort_by path_leb l) d = contains_path l d.
Proof.
  apply eq_true_iff_eq. rewrite !contains_path_true.
  split; intros (x & Hx & He); exists x; rewrite ?sort_by_elem in *; done.
Qed.

Lemma contains_same l c d :
  contains_path l c = true -> contains_path l d || path_eqb c d = contains_path l d.
Proof.
  intros Hc. destruct (path_eqb c d) eqn:E; [|by rewrite orb_false_r]. rewrite orb_true_r.
  apply path_eqb_eq in E. symmetry. rewrite <- Hc. unfold contains_path, path_eqb. by rewrite E.
Qed.

Lemma carry_over_takes s previous :
  s_grants s = no_grants -> s_permitted_directories s = [s_cwd s] ->
  takes_over (carry_over s previous) previous
  /\ s_id (carry_over s previous) = s_id s /\ s_cwd (carry_over s previous) = s_cwd s
  /\ s_started_at (carry_over s previous) = s_started_at s
  /\ s_permission_mode (carry_over s previous) = s_permission_mode s.
Proof.
  intros Hg Hd. unfold takes_over, carry_over. destruct previous as [p|]; [|done].
  destruct (path_eqb (s_cwd p) (s_cwd s)) eqn:E; cbn; rewrite E; [|done].
  split; [|done]. split; [done|]. intros d.
  destruct (contains_path (s_permitted_directories p) (s_cwd s)) eqn:Ec.
  - symmetry. by apply contains_same.
  - rewrite sort_by_contains, contains_path_app, contains_path_cons.
    by rewrite orb_false_r.
Qed.

(** The new instance: past every record, in the resolved directory, in the given mode. *)
Lemma new_instance_spec cwd id mode ps pl e s :
  new_instance canonicalize is_dir cwd id mode ps pl e = Ok s ->
  takes_over s ps /\ s_id s = id /\ s_permission_mode s = mode
  /\ canonical_directory canonicalize is_dir cwd = Ok (s_cwd s)
  /\ (forall p, ps = Some p -> s_started_at p < s_started_at s)
  /\ (forall l, pl = Some l -> lc_started_at l < s_started_at s).
Proof.
  unfold new_instance, new_session_with_mode.
  destruct (canonical_directory _ _ cwd) as [c|]; cbn [bind]; [|done].
  destruct (session_id (Some id) (se_fresh e)) as [id'|] eqn:Eid; cbn [bind]; [|done].
  destruct (advance_started_at _ _) as [s1|] eqn:Ea; cbn [bind]; [|done].
  intros [= <-]. destruct (advance_past _ _ _ Ea) as (Hs & _ & Hp).
  destruct (carry_over_takes s1 ps) as (Ht & Hi & Hc & Hst & Hm); [by rewrite Hs|by rewrite Hs|].
  rewrite Hi, Hc, Hm, Hst, Hs. cbn [s_id s_cwd s_permission_mode s_started_at set_started_at].
  split; [by rewrite <- Hs|].
  assert (id' = id) as ->.
  { unfold session_id in Eid. cbn in Eid. destruct (Upgrade.validate_session_id id); [|done].
    by injection Eid. }
  repeat split.
  - intros p ->. cbn in Hp. destruct pl as [l|]; cbn in Hp; specialize (Hp _ eq_refl); lia.
  - intros l ->. cbn in Hp. destruct ps as [p|]; cbn in Hp; specialize (Hp _ eq_refl); lia.
Qed.

Lemma inherit_restarts_started l previous :
  lc_started_at (inherit_restarts l previous) = lc_started_at l
  /\ lc_status (inherit_restarts l previous) = lc_status l.
Proof. by destruct previous. Qed.

(** The saves of a start. *)
Lemma save_start_spec st s l e st' answer :
  save_start st s l e = (st', answer) ->
  match answer with
  | Ok s' => s' = s /\ st' = mkStore (Some s) (Some (activated l)) (st_socket st)
  | Err _ => st_socket st' = false
             /\ (st_lifecycle st' = st_lifecycle st
                 \/ exists l', st_lifecycle st' = Some l' /\ lc_started_at l' = lc_started_at l
                               /\ (lc_status l' = LsCrashed \/ lc_status l' = lc_status l))
  end.
Proof.
  unfold save_start, save_session_lifecycle, save_session, fail_start, save_session_lifecycle.
  destruct (se_save_starting e); [intros [= <- <-]; cbn; auto|].
  destruct (se_save_session e); [intros [= <- <-]; split; [done|]; right; cbn; repeat case_match; cbn; eauto|].
  destruct (se_save_active e); intros [= <- <-]; [|done].
  split; [done|]. right. unfold save_session. repeat case_match; cbn; eauto.
Qed.

Lemma check_start_ok st id environment e id' ps pl :
  check_start canonicalize is_dir st (Some id) environment e = Ok (id', ps, pl) ->
  id' = id /\ ps = readable st id /\ pl = st_lifecycle st.
Proof.
  unfold check_start, session_id. cbn. destruct (environment_validate _); [|done].
  cbn. destruct (Upgrade.validate_session_id id); [|done]. cbn.
  destruct (se_replacement e); [|done]. cbn. destruct (se_active e) as [[]|]; [done| |done].
  cbn. by intros [= <- <- <-].
Qed.

(** Without a record the clock decides. *)
Lemma new_instance_first cwd id mode e s :
  new_instance canonicalize is_dir cwd id mode None None e = Ok s -> s_started_at s = se_now e.
Proof.
  unfold new_instance, new_session_with_mode.
  destruct (canonical_directory _ _ cwd); cbn [bind]; [|done].
  destruct (session_id (Some id) (se_fresh e)); cbn [bind]; [|done].
  cbn [previous_started_at fmap option_fmap option_map advance_started_at bind]. by intros [= <-].
Qed.

Lemma start_facts st cwd id mode logical environment e st' answer :
  spawn st cwd (Some id) mode logical environment e = (st', answer) ->
  match answer with
  | Ok s =>
      st_session st' = Some s /\ st_socket st' = true
      /\ (exists l, st_lifecycle st' = Some l /\ lc_status l = LsActive
                    /\ lc_started_at l = s_started_at s)
      /\ s_id s = id /\ s_permission_mode s = mode /\ s_process_id s = se_process_id e
      /\ canonical_directory canonicalize is_dir cwd = Ok (s_cwd s)
      /\ takes_over s (readable st id)
      /\ (forall p, readable st id = Some p -> s_started_at p < s_started_at s)
      /\ (forall l, st_lifecycle st = Some l -> lc_started_at l < s_started_at s)
  | Err _ =>
      st' = st
      \/ (st_socket st' = false
          /\ (st_lifecycle st' = st_lifecycle st
              \/ exists l, st_lifecycle st' = Some l /\ lc_status l <> LsActive
                 /\ forall p, st_lifecycle st = Some p -> lc_started_at p < lc_started_at l))
  end.
Proof.
  unfold spawn_runtime_inner. destruct (check_start _ _ _ _ _ _) as [[[id' ps] pl]|] eqn:Ec.
  2: { intros [= <- <-]. by left. }
  apply check_start_ok in Ec as (-> & -> & ->).
  destruct (new_instance _ _ _ _ _ _ _ _) as [s|] eqn:En; [|intros [= <- <-]; right; auto].
  destruct (new_instance_spec _ _ _ _ _ _ _ En) as (Ht & Hi & Hm & Hc & Hp & Hl).
  destruct (se_listener e); [intros [= <- <-]; right; auto|].
  intros Hsave. apply save_start_spec in Hsave.
  set (l := inherit_restarts _ _) in *.
  assert (lc_started_at l = s_started_at s /\ lc_status l = LsStarting) as [Hlt Hls].
  { unfold l. destruct (inherit_restarts_started (lifecycle_starting (s_started_at s) logical)
                          (st_lifecycle st)) as [H1 H2]. cbn in *. by rewrite H1, H2. }
  destruct answer as [s'|].
  - destruct Hsave as [-> ->]. cbn. split_and!; try done.
    exists (activated l). cbn. by rewrite Hlt.
  - destruct Hsave as [Hsock Hrest]. right. split; [done|]. destruct Hrest as [Hr|(l' & Hr & Hs' & Hst)].
    + left. by rewrite Hr.
    + right. exists l'. split; [done|]. split; [destruct Hst as [-> | ->]; [done|by rewrite Hls]|].
      intros p Hpl. rewrite Hs', Hlt. by apply Hl.
Qed.

(** A start that succeeds saves the new instance, its life cycle record as active, and
    leaves the socket; the instance is in the resolved directory, in the mode given, started
    later than every recorded one, and with the grants and directories of the previous
    instance when that had the same directory, or else with no grants and that directory
    alone. A start that fails saves no active record and leaves no socket, unless it changes
    nothing at all. *)
Theorem start_spec st cwd id mode logical environment e st' answer :
  spawn st cwd (Some id) mode logical environment e = (st', answer) ->
  match answer with
  | Ok s =>
      st_session st' = Some s /\ st_socket st' = true
      /\ (exists l, st_lifecycle st' = Some l /\ lc_status l = LsActive
                    /\ lc_started_at l = s_started_at s)
      /\ s_id s = id /\ s_permission_mode s = mode /\ s_process_id s = se_process_id e
      /\ canonical_directory canonicalize is_dir cwd = Ok (s_cwd s)
      /\ takes_over s (readable st id)
      /\ (forall p, readable st id = Some p -> s_started_at p < s_started_at s)
      /\ (forall l, st_lifecycle st = Some l -> lc_started_at l < s_started_at s)
  | Err _ =>
      st' = st
      \/ (st_socket st' = false
          /\ (st_lifecycle st' = st_lifecycle st
              \/ exists l, st_lifecycle st' = Some l /\ lc_status l <> LsActive
                 /\ forall p, st_lifecycle st = Some p -> lc_started_at p < lc_started_at l))
  end.
Proof. apply start_facts. Qed.

(** * The life of a session *)

(** What happens to the files of the session [id], with the instances that were started, the
    latest last: starts, the saves of an instance that runs, changes of the record that keep
    its starting time (the supervisor's restart bookkeeping), and ends. *)
Inductive history (id : string) : SessionStore -> list Session -> Prop :=
| history_none (st : SessionStore) : history id st []
| history_start st started cwd mode logical environment e st' answer :
    history id st started ->
    spawn st cwd (Some id) mode logical environment e = (st', answer) ->
    history id st' (started ++ match answer with
                               | Ok s => [s]
                               | Err _ => []
                               end)
| history_save st started s failure :
    history id st started ->
    s_id s = id -> s_started_at s ∈ map s_started_at started ->
    history id (fst (save_session st s failure)) started
| history_record st started l l' failure :
    history id st started ->
    st_lifecycle st = Some l -> lc_started_at l' = lc_started_at l ->
    history id (fst (save_session_lifecycle st l' failure)) started
| history_end st started s outcome e :
    history id st started ->
    s_id s = id -> s_started_at s ∈ map s_started_at started ->
    history id (complete_runtime st s outcome e) started.

(** Every instance is covered by the record. *)
Definition covered (st : SessionStore) (started : list Session) : Prop :=
  Forall (fun s => exists l, st_lifecycle st = Some l /\ s_started_at s <= lc_started_at l) started.

Lemma covered_record st started l l' st' :
  covered st started -> st_lifecycle st = Some l -> st_lifecycle st' = Some l' ->
  lc_started_at l <= lc_started_at l' -> covered st' started.
Proof.
  intros Hc Hl Hl' Hle. eapply Forall_impl; [exact Hc|]. intros s (l0 & Hl0 & Hs). cbn in *.
  rewrite Hl in Hl0. injection Hl0 as <-. exists l'. split; [done|lia].
Qed.

Lemma covered_same st started st' :
  covered st started -> st_lifecycle st' = st_lifecycle st -> covered st' started.
Proof.
  intros Hc Hl. eapply Forall_impl; [exact Hc|]. intros s (l & ? & ?). cbn. rewrite Hl. eauto.
Qed.

Lemma covered_nonempty st started :
  covered st started -> started = [] \/ exists l, st_lifecycle st = Some l.
Proof.
  intros Hc. destruct started as [|s started]; [by left|right].
  inversion Hc as [|? ? (l & Hl & _) _]; subst. by exists l.
Qed.

(** A step that only moves the record up keeps the cover. *)
Lemma covered_up st started st' :
  covered st started ->
  (forall l, st_lifecycle st = Some l ->
     exists l', st_lifecycle st' = Some l' /\ lc_started_at l <= lc_started_at l') ->
  covered st' started.
Proof.
  intros Hc Hup. destruct (covered_nonempty _ _ Hc) as [-> |(l & Hl)]; [constructor|].
  destruct (Hup l Hl) as (l' & Hl' & Hle). by eapply covered_record.
Qed.

Lemma complete_runtime_record st s outcome e l :
  st_lifecycle st = Some l ->
  exists l', st_lifecycle (complete_runtime st s outcome e) = Some l'
             /\ lc_started_at l' = lc_started_at l.
Proof.
  intros Hl. unfold complete_runtime, save_session, save_session_lifecycle.
  destruct (ee_save_session e), (ee_save_lifecycle e), outcome; cbn; rewrite ?Hl; cbn; eauto.
Qed.

Definition earlier (a b : Session) : Prop := s_started_at a < s_started_at b.

Lemma start_covered st cwd id mode logical environment e st' answer started :
  covered st started ->
  spawn st cwd (Some id) mode logical environment e = (st', answer) ->
  covered st' started
  /\ forall s, answer = Ok s -> Forall (fun a => earlier a s) started /\ s_id s = id
               /\ exists l, st_lifecycle st' = Some l /\ lc_started_at l = s_started_at s.
Proof.
  intros Hc Hspawn. pose proof (start_facts _ _ _ _ _ _ _ _ _ Hspawn) as H.
  destruct answer as [s|].
  - destruct H as (_ & _ & (l & Hl & _ & Hls) & Hi & _ & _ & _ & _ & _ & Hlt). split.
    + apply (covered_up st); [done|]. intros l0 Hl0. exists l. split; [done|].
      specialize (Hlt l0 Hl0). lia.
    + intros ? [= <-]. split; [|eauto]. eapply Forall_impl; [exact Hc|].
      intros a (l0 & Hl0 & Ha). specialize (Hlt l0 Hl0). unfold earlier. lia.
  - split; [|done]. destruct H as [-> |[_ [Hl|(l & Hl & _ & Hlt)]]]; [done|by eapply covered_same|].
    apply (covered_up st); [done|]. intros l0 Hl0. exists l. split; [done|].
    specialize (Hlt l0 Hl0). lia.
Qed.

Lemma sorted_snoc {A : Type} (R : A -> A -> Prop) (l : list A) x :
  StronglySorted R l -> Forall (fun a => R a x) l -> StronglySorted R (l ++ [x]).
Proof.
  induction 1 as [|a l Hl IH Ha]; intros Hx; cbn; [by repeat constructor|].
  inversion Hx; subst. constructor; [by apply IH|]. apply Forall_app. split; [done|]. by constructor.
Qed.

Lemma history_ok id st started :
  history id st started ->
  covered st started /\ StronglySorted earlier started /\ Forall (fun s => s_id s = id) started.
Proof.
  induction 1 as [st|st started cwd mode logical environment e st' answer _ IH Hspawn
                 |st started s failure _ IH Hid Hs|st started l l' failure _ IH Hl Hl'
                 |st started s outcome e _ IH Hid Hs].
  - repeat split; constructor.
  - destruct IH as (Hc & Hsort & Hids).
    destruct (start_covered _ _ _ _ _ _ _ _ _ _ Hc Hspawn) as [Hc' Hnew].
    destruct answer as [s|]; [|by rewrite app_nil_r].
    destruct (Hnew s eq_refl) as (He & Hi & l & Hl & Hle). split; [|split].
    + apply Forall_app. split; [done|]. constructor; [|done]. exists l. split; [done|lia].
    + by apply sorted_snoc.
    + apply Forall_app. split; [done|]. by constructor.
  - destruct IH as (Hc & Hrest). split; [|done]. eapply covered_same; [exact Hc|].
    unfold save_session. by destruct failure.
  - destruct IH as (Hc & Hrest). split; [|done]. apply (covered_up st); [done|].
    intros l0 Hl0. rewrite Hl in Hl0. injection Hl0 as <-. unfold save_session_lifecycle.
    destruct failure; cbn; [exists l|exists l']; split; try done; lia.
  - destruct IH as (Hc & Hrest). split; [|done]. apply (covered_up st); [done|].
    intros l Hl. destruct (complete_runtime_record st s outcome e l Hl) as (l' & -> & Hle).
    exists l'. split; [done|lia].
Qed.

Lemma different_instance a b :
  s_started_at a <> s_started_at b -> stale (Some (expected_from_session a)) b = true.
Proof.
  intros Hne. unfold stale, expected_matches. cbn.
  destruct (Z.eqb_spec (s_started_at a) (s_started_at b)); [done|]. by rewrite andb_false_r.
Qed.

Lemma sorted_lookup {A : Type} (R : A -> A -> Prop) (l : list A) i j a b :
  StronglySorted R l -> l !! i = Some a -> l !! j = Some b -> (i < j)%nat -> R a b.
Proof.
  intros Hs. revert i j. induction Hs as [|x l Hs IH Hx]; intros i j Hi Hj Hlt; [done|].
  destruct i as [|i], j as [|j]; try lia; cbn in *.
  - injection Hi as <-. apply (proj1 (Forall_forall _ _) Hx). by eapply list_elem_of_lookup_2.
  - eapply IH; eauto. lia.
Qed.

Lemma started_distinct id st started i j a b :
  history id st started ->
  started !! i = Some a -> started !! j = Some b -> i <> j -> s_started_at a <> s_started_at b.
Proof.
  intros Hh Ha Hb Hij. destruct (history_ok _ _ _ Hh) as (_ & Hs & _).
  assert (i < j \/ j < i)%nat as [Hlt|Hlt] by lia;
    [pose proof (sorted_lookup _ _ _ _ _ _ Hs Ha Hb Hlt) as He
    |pose proof (sorted_lookup _ _ _ _ _ _ Hs Hb Ha Hlt) as He]; unfold earlier in He; lia.
Qed.

(** Instances are never confused: whatever starts, saves, ends and failed saves happen to
    the files of a session, every instance started later than the one before, also within
    one second of the clock and across restarts, so that an expectation taken from one
    instance never matches another. *)
Theorem instances_distinct id st started i j a b :
  history id st started ->
  started !! i = Some a -> started !! j = Some b -> i <> j ->
  s_started_at a <> s_started_at b /\ stale (Some (expected_from_session a)) b = true.
Proof.
  intros Hh Ha Hb Hij. pose proof (started_distinct _ _ _ _ _ _ _ Hh Ha Hb Hij) as Hne.
  split; [done|]. by apply different_instance.
Qed.

(** Forgetting a session loses the record that keeps instances apart: after it a start is
    not advanced past the instances before, so that an instance that is started in the same
    second by the same process as one that was forgotten accepts what was bound to that. *)
Theorem forgotten_instance_returns st id active rs rm rl st1 forgotten cwd mode logical
    environment e st2 s a :
  forget_session_artifacts st id active rs rm rl = (st1, Ok forgotten) ->
  spawn st1 cwd (Some id) mode logical environment e = (st2, Ok s) ->
  s_id a = id -> s_started_at a = se_now e -> s_process_id a = se_process_id e ->
  s_started_at s = se_now e /\ stale (Some (expected_from_session a)) s = false.
Proof.
  intros Hf Hspawn Hi Ht Hp.
  assert (st_session st1 = None /\ st_lifecycle st1 = None) as [Hs1 Hl1].
  { unfold forget_session_artifacts in Hf. repeat (case_match; try done). by injection Hf as <- _. }
  pose proof (start_facts _ _ _ _ _ _ _ _ _ Hspawn) as (_ & _ & _ & Hid & _ & Hpid & _).
  assert (s_started_at s = se_now e) as Hst.
  { unfold spawn_runtime_inner in Hspawn.
    destruct (check_start _ _ _ _ _ _) as [[[id' ps] pl]|] eqn:Ec; [|done].
    apply check_start_ok in Ec as (-> & -> & ->). unfold read_session_metadata in Hspawn.
    rewrite Hs1, Hl1 in Hspawn. cbn in Hspawn.
    destruct (new_instance _ _ _ _ _ _ _ _) as [s0|] eqn:En; [|done].
    destruct (se_listener e); [done|]. apply save_start_spec in Hspawn as [-> _].
    by apply new_instance_first in En. }
  split; [done|]. unfold stale, expected_matches. cbn.
  by rewrite Hi, Ht, Hp, Hid, Hst, Hpid, String.eqb_refl, !Z.eqb_refl.
Qed.

Section Composed.
Context `{UU : UuidLib, SJ : !SerdeJson, TK : !TokioSync}.
Context (resolve : string -> result string string).

End Composed.
End Instances.

(** * A concrete session *)

Module StartWitness.
Definition canon (p : string) : result FsError string :=
  if is_absolute p then Ok p else Err FsNotFound.
Definition all_dirs (_ : string) : bool := true.

(** Every start in the same second, by the same process. *)
Definition environment0 : StartEnvironment :=
  mkStartEnvironment "fresh" 100 101 7 (Ok tt) (Ok false) None None None None None None.
Definition end0 : EndEnvironment := mkEndEnvironment 102 None None.

Definition start (st : SessionStore) : SessionStore * result string Session :=
  spawn_runtime_inner canon all_dirs st "/work" (Some "s1"%string) Ask None ∅ environment0.

Definition empty_store : SessionStore := mkStore None None false.

Definition instance_at (t : Z) : Session := mkSession "s1" "/work" ["/work"] t 7 Ask no_grants.

(** The host gave the first instance a port. *)
Definition granted : Session := set_grants (instance_at 100) (mkGrants [8080] [] false).

Definition st1 : SessionStore := fst (start empty_store).
Definition st2 : SessionStore := fst (save_session st1 granted None).
Definition st3 : SessionStore := complete_runtime st2 granted (Err "listener lost"%string) end0.
Definition st4 : SessionStore := fst (start st3).

Definition second : Session := set_grants (instance_at 101) (mkGrants [8080] [] false).

Lemma first_started : start empty_store = (st1, Ok (instance_at 100)).
Proof. vm_compute. reflexivity. Qed.

Lemma second_started : start st3 = (st4, Ok second).
Proof. vm_compute. reflexivity. Qed.

Lemma story : history canon all_dirs "s1" st4 [instance_at 100; second].
Proof.
  apply (history_start canon all_dirs "s1" st3 [instance_at 100] "/work" Ask None ∅ environment0 st4
           (Ok second)); [|apply second_started].
  apply history_end; [|reflexivity|left]. apply history_save; [|reflexivity|left].
  apply (history_start canon all_dirs "s1" empty_store [] "/work" Ask None ∅ environment0 st1
           (Ok (instance_at 100))); [constructor|apply first_started].
Qed.

Lemma start_spec_witness :
  s_grants second = mkGrants [8080] [] false
  /\ st_socket st4 = true.
Proof.
  destruct (start_spec canon all_dirs st3 "/work" "s1" Ask None ∅ environment0 st4 (Ok second)
              second_started) as (_ & Hsock & _ & _ & _ & _ & _ & Ht & _).
  split; [|exact Hsock]. vm_compute in Ht. destruct Ht as [Ht _]. vm_compute. exact Ht.
Defined.

Lemma instances_distinct_witness :
  stale (Some (expected_from_session (instance_at 100))) second = true.
Proof.
  apply (instances_distinct canon all_dirs "s1" st4 [instance_at 100; second] 0 1);
    [apply story|reflexivity|reflexivity|lia].
Defined.

Lemma forgotten :
  exists fg, forget_session_artifacts st4 "s1" (Ok false) None None None = (empty_store, Ok fg)
             /\ fg_metadata_removed fg = true.
Proof. eexists. split; [vm_compute|]; reflexivity. Qed.

Lemma forgotten_instance_returns_witness :
  stale (Some (expected_from_session (instance_at 100))) (instance_at 100) = false.
Proof.
  destruct forgotten as (fg & Hf & _).
  apply (forgotten_instance_returns canon all_dirs st4 "s1" (Ok false) None None None empty_store fg
           "/work" Ask None ∅ environment0 st1 (instance_at 100) (instance_at 100));
    [exact Hf|exact first_started|reflexivity..].
Defined.
End StartWitness.
