(* ===== verification/SessionWitness.v ===== *)
(** * A session at work

    Concrete runs of a session's runtime: an operation and a grant approved by the
    operator, a quiesced runtime, one that has stopped with a prompt open, and a
    request to an instance that was replaced. *)

From S2P Require Import Prelude Strings Json Contract Broker BrokerTheorems Config.
From S2P Require Import ConfigTheorems SessionRuntime SessionRuntimeTheorems SessionStart.
From S2P Require Import SessionStartTheorems.

#[local] Open Scope Z_scope.
#[local] Open Scope rust_scope.

Module SessionW.
Import JsonModel ConfigWitness StartWitness.
#[local] Existing Instance BrokerWitness.codec2.
#[local] Existing Instance BrokerWitness.tokio_model.

(** Equality of computed values. *)
#[local] Ltac by_value := match goal with |- _ = ?v => vm_cast_no_check (eq_refl v) end.

Definition at_hand : MessageEnvironment := mkMessageEnvironment true Locked 9 uuid0 true None.

Definition runtime0 : Runtime :=
  started_runtime (instance_at 100) None BrokerWitness.broker0.

Definition push : Request := mkApprovalRequest uuid1 "git_push" "push to main" "/work" [].
Definition ports : SessionGrantRequest := mkRequest [8080; 3000] [] false [].

Definition ask_push : Label :=
  LMessage 1 (MApproval push true (Some (expected_from_session (instance_at 100)))) at_hand.
Definition ask_ports : Label := LMessage 2 (MApplyGrants ports None) at_hand.

Definition after (ls : list Label) : Runtime :=
  match run_labels resolve runtime0 ls with
  | Some (r, _) => r
  | None => runtime0
  end.

Definition outputs (ls : list Label) : option (list (list Output)) :=
  snd <$> run_labels resolve runtime0 ls.

Lemma reaches ls : outputs ls <> None -> exists tr, run resolve runtime0 tr (after ls).
Proof.
  unfold outputs, after. destruct (run_labels resolve runtime0 ls) as [[r outs]|] eqn:E; [|done].
  intros _. eapply run_labels_run; [apply run_nil|exact E].
Qed.

(** ** The operator allows *)

Example approved :
  outputs [ask_push; LAnswer 0 true] = Some [[OConsole 0 push]; [OClient 1 RAllow]].
Proof. by_value. Qed.

Lemma asked_runs : outputs [ask_push] <> None.
Proof. vm_compute. discriminate. Qed.

Lemma asked_answered :
  step resolve (after [ask_push]) (LAnswer 0 true)
  = Some (after [ask_push; LAnswer 0 true], [OClient 1 RAllow]).
Proof. by_value. Qed.

Lemma allow_authorised_witness :
  exists tr request, run resolve runtime0 tr (after [ask_push]) /\ prompted tr 0 1 request.
Proof.
  destruct (reaches [ask_push] asked_runs) as [tr Hrun].
  destruct (allow_authorised resolve _ _ _ tr _ _ _ _ 1 Hrun asked_answered ltac:(left)) as [rq Hp].
  by exists tr, rq.
Defined.

Lemma answered_once_witness :
  stays (after [ask_push]) (after [ask_push; LAnswer 0 true]) [OClient 1 RAllow]
  \/ ends_one (after [ask_push]) (after [ask_push; LAnswer 0 true]) [OClient 1 RAllow].
Proof.
  destruct (reaches [ask_push] asked_runs) as [tr Hrun].
  exact (answered_once resolve _ _ _ tr _ _ _ _ Hrun asked_answered).
Defined.

(** ** A grant *)

Definition granting : list Label := [ask_ports; LAnswer 0 true; LEnqueue 0; LCommand None].

Example granted_ports :
  outputs granting
  = Some [[OConsole 0 (mkApprovalRequest uuid0 "session_permission_grant"
             "listen on TCP ports 8080, 3000 (any interface)" "/work"
             [("class"%string, "session_grant"%string)])];
          []; []; [OClient 2 (RGrant (Ok (mkGrantResponse (mkRequest [3000; 8080] [] false [])
                                         (mkGrants [3000; 8080] [] false) ["/work"%string])))]].
Proof. by_value. Qed.

Lemma granting_runs : outputs granting <> None.
Proof. vm_compute. discriminate. Qed.

Lemma grants_authorised_witness :
  exists tr, run resolve runtime0 tr (after granting)
             /\ authorised resolve tr (CapPort 3000).
Proof.
  destruct (reaches granting granting_runs) as [tr Hrun]. exists tr. split; [exact Hrun|].
  destruct (grants_authorised resolve _ _ _ tr _ Hrun) as [Hcap _].
  destruct (Hcap (CapPort 3000) eq_refl) as [Hold|Ha]; [discriminate Hold|exact Ha].
Defined.

Lemma runtime_bounded_witness :
  active_operations (after [ask_push; ask_ports]) <= MAX_PENDING_APPROVALS
  /\ active_operations (after [ask_push; ask_ports]) = 2.
Proof.
  destruct (reaches [ask_push; ask_ports]) as [tr Hrun]; [vm_compute; discriminate|].
  split; [apply (runtime_bounded resolve _ _ _ tr _ Hrun)|vm_compute; reflexivity].
Defined.

(** ** An upgrade *)

Definition quiescing : list Label := [LHost (CSetUpgradeQuiesced true); LCommand None].

Example quiesced_denies :
  outputs (quiescing ++ [ask_push; ask_ports])
  = Some [[]; [OHost (HDone (Ok tt))]; [OClient 1 RDeny];
          [OClient 2 (RGrant (Err "session is quiesced for supervisor upgrade"%string))]].
Proof. by_value. Qed.

Lemma quiesced_frozen_witness :
  rt_operations (after quiescing) = ∅
  /\ rt_session (fst (handle_message resolve (after quiescing) 2 (MApplyGrants ports None) at_hand))
     = rt_session (after quiescing).
Proof.
  destruct (reaches quiescing) as [tr Hrun]; [vm_compute; discriminate|].
  destruct (quiesced_frozen resolve _ _ _ tr _ Hrun eq_refl) as (Ho & _ & Hstep).
  split; [exact Ho|].
  destruct (handle_message resolve (after quiescing) 2 (MApplyGrants ports None) at_hand)
    as [r' out] eqn:E.
  apply (Hstep (LMessage 2 (MApplyGrants ports None) at_hand) r' out); [|reflexivity].
  unfold step. rewrite E. reflexivity.
Defined.

(** ** A stop with a prompt open *)

Definition stopping_run : list Label := [ask_push; LHost CShutdown; LCommand None].

Example stopped_denies :
  outputs (stopping_run ++ [LStopped 0]) = Some [[OConsole 0 push]; []; []; [OClient 1 RDeny]].
Proof. by_value. Qed.

Lemma stopped_tasks_answered_witness :
  exists l out, (l = LEnqueue 0 \/ l = LStopped 0)
                /\ step resolve (after stopping_run) l = Some (finish (after stopping_run) 0, out).
Proof.
  destruct (reaches stopping_run) as [tr Hrun]; [vm_compute; discriminate|].
  destruct (stopped_tasks_answered resolve _ _ _ tr _ 0 (OpApproval 1 push) Hrun eq_refl eq_refl)
    as (l & out & Hl & Hs & _).
  exists l, out. split; [exact Hl|exact Hs].
Defined.

(** ** An instance that was replaced *)

End SessionW.
