(* ===== verification/Supervisor.v ===== *)
(** * The session supervisor: src/src/supervisor.rs

    One process owns the sessions of a host: it starts their runtimes, stops and
    forgets them, restarts those that crash, and hands them over to a new binary.
    Its state are three tables and two flags; the files of the sessions are those
    of SessionStart.v, and a handle holds the runtime of SessionRuntime.v behind
    its command channel.

    A transition (a request of the host, or the maintenance of a request) holds
    the lock [transitions] and is one function here.  The maintenance task calls
    [reap_finished] without that lock, so its pieces are functions of their own.
    What the environment decides (probes, clocks, saves, the clean-up of the
    backends, the admission of a directory) are arguments.  The events for the
    activity broker and the observer of remote tasks are not modelled, nor are the
    starts on behalf of a browser. *)

From S2P Require Import Prelude Strings Json Contract Broker Config NamedRoots.
From S2P Require Import SessionRuntime SessionStart.
From S2P Require Upgrade.

#[local] Open Scope Z_scope.
#[local] Open Scope rust_scope.

Definition MAX_MANAGED_SESSIONS : Z := 64.
Definition MAX_AUTOMATIC_RESTARTS : Z := 5.
Definition MAX_RESTART_BACKOFF_SECONDS : Z := 30.

(** * The plan of an upgrade *)

Record UpgradeSessionPlan := mkSessionPlan {
  up_session_id : string;
  up_cwd : string;
  up_permitted_directories : list string;
  up_permission_mode : PermissionMode;
  up_logical_path : option string;
  up_restart_policy : string;
  up_public : bool;
  up_restart_context_keys : list string;
}.

Record UpgradeSessionPlanWire := mkSessionPlanWire {
  uw_session_id : string;
  uw_cwd : string;
  uw_permitted_directories : list string;
  uw_permission_mode : option PermissionMode;
  uw_yolo : bool;
  uw_logical_path : option string;
  uw_restart_policy : string;
  uw_public : bool;
  uw_restart_context_keys : list string;
}.

Definition plan_of_wire (w : UpgradeSessionPlanWire) : UpgradeSessionPlan :=
  mkSessionPlan (uw_session_id w) (uw_cwd w) (uw_permitted_directories w)
    (default (from_legacy_yolo (uw_yolo w)) (uw_permission_mode w)) (uw_logical_path w)
    (uw_restart_policy w) (uw_public w) (uw_restart_context_keys w).

Definition wire_of_plan (p : UpgradeSessionPlan) : UpgradeSessionPlanWire :=
  mkSessionPlanWire (up_session_id p) (up_cwd p) (up_permitted_directories p)
    (Some (up_permission_mode p)) (is_yolo (up_permission_mode p)) (up_logical_path p)
    (up_restart_policy p) (up_public p) (up_restart_context_keys p).

Record SupervisorUpgradePlan := mkUpgradePlan {
  pl_plan_schema : Z;
  pl_source_version : string;
  pl_target_version : string;
  pl_control_protocol : Z;
  pl_lifecycle_schema : Z;
  pl_supervisor_pid : Z;
  pl_created_at : Z;
  pl_handoff_required : bool;
  pl_sessions : list UpgradeSessionPlan;
}.

Record UpgradeSessionBlocker := mkBlocker {
  bl_id : string;
  bl_reason : string;
}.

Record SupervisorUpgradeSessionIdentity := mkIdentity {
  id_session_id : string;
  id_process_id : Z;
  id_started_at : Z;
}.

Record SupervisorUpgradePreview := mkPreview {
  pr_plan : SupervisorUpgradePlan;
  pr_blocked_sessions : list UpgradeSessionBlocker;
  pr_active_sessions : list SupervisorUpgradeSessionIdentity;
}.

Record UpgradePlanOptions := mkPlanOptions {
  po_fence : bool;
  po_force : bool;
  po_collect_blockers : bool;
  po_reap_finished : bool;
}.

Record RestartSpec := mkRestartSpec {
  rx_cwd : string;
  rx_permission_mode : PermissionMode;
  rx_logical_path : option string;
  rx_environment : CapturedStartEnvironment;
  rx_public : bool;
}.

Record ManagedSessionInfo := mkManagedInfo {
  mi_session_id : string;
  mi_cwd : string;
  mi_permission_mode : PermissionMode;
}.

(** [collect_agent_cleanup_results]: every backend is cleaned up; the names of those
    that failed. *)
Fixpoint collect_agent_cleanup_results (failures : list string)
    (cleanups : list (string * result string unit)) : result (list string) unit :=
  match cleanups with
  | [] => match failures with
          | [] => Ok tt
          | _ => Err failures
          end
  | (provider, Ok _) :: rest => collect_agent_cleanup_results failures rest
  | (provider, Err _) :: rest => collect_agent_cleanup_results (failures ++ [provider]) rest
  end.

(** [remove_agent_sessions], given what the backends say. *)
Definition remove_agent_sessions (codex opencode devin : result string unit) :
    result (list string) unit :=
  collect_agent_cleanup_results []
    [("Codex"%string, codex); ("OpenCode"%string, opencode); ("Devin ACP"%string, devin)].

(** * Restarts of a record *)

Definition set_restart (l : SessionLifecycle) (count : Z) (last next : option Z)
    (limit_reason exit_reason : option string) : SessionLifecycle :=
  mkLifecycle (lc_status l) (lc_started_at l) (lc_stopped_at l) exit_reason (lc_last_error l)
    (lc_logical_path l) (lc_root_name l) (lc_root_relative_path l) (lc_restart_policy l) count
    last next limit_reason.

Definition with_policy (l : SessionLifecycle) (policy : string) : SessionLifecycle :=
  mkLifecycle (lc_status l) (lc_started_at l) (lc_stopped_at l) (lc_exit_reason l)
    (lc_last_error l) (lc_logical_path l) (lc_root_name l) (lc_root_relative_path l) policy
    (lc_restart_count l) (lc_last_restart_at l) (lc_next_restart_at l)
    (lc_restart_limit_reason l).

(** What [schedule_restart] makes of a record; [None]: nothing is saved. *)
Definition scheduled (l : SessionLifecycle) (reason : string) (now : Z) : option SessionLifecycle :=
  if negb (String.eqb (lc_restart_policy l) "on-failure") then None
  else if MAX_AUTOMATIC_RESTARTS <=? lc_restart_count l then
    let limit := Some ("automatic restart limit reached after "
                       +:+ decimal (lc_restart_count l) +:+ " attempts") in
    Some (set_restart l (lc_restart_count l) (lc_last_restart_at l) None limit limit)
  else
    let shift := Z.min (lc_restart_count l) 5 in
    let backoff := Z.min (Z.shiftl 1 shift) MAX_RESTART_BACKOFF_SECONDS in
    let count := lc_restart_count l + 1 in
    Some (set_restart l count (lc_last_restart_at l) (Some (now + backoff)) None
            (Some (reason +:+ "; automatic restart " +:+ decimal count +:+ " scheduled in "
                   +:+ decimal backoff +:+ "s"))).

(** [read_session_lifecycle]; [failure]: the file cannot be read. *)
Definition read_lifecycle (st : SessionStore) (failure : option string) :
    result string (option SessionLifecycle) :=
  match failure with
  | Some e => Err e
  | None => Ok (st_lifecycle st)
  end.

Record RecordEnvironment := mkRecordEnvironment {
  re_read : option string;
  re_now : Z;
  re_save : option string;
}.

Definition schedule_restart (st : SessionStore) (reason : string) (e : RecordEnvironment) :
    SessionStore * result string unit :=
  match read_lifecycle st (re_read e) with
  | Err error => (st, Err error)
  | Ok None => (st, Err "session has no lifecycle metadata"%string)
  | Ok (Some l) =>
      match scheduled l reason (re_now e) with
      | None => (st, Ok tt)
      | Some l => save_session_lifecycle st l (re_save e)
      end
  end.

(** Whether a crashed session's restart has come. *)
Definition restart_due (l : SessionLifecycle) (now : Z) : bool :=
  String.eqb (lc_restart_policy l) "on-failure"
  && match lc_status l with
     | LsCrashed => true
     | _ => false
     end
  && negb (is_none_or (fun at_ => now <? at_) (lc_next_restart_at l)).

(** The record of an attempt. *)
Definition attempted (l : SessionLifecycle) (now : Z) : SessionLifecycle :=
  set_restart l (lc_restart_count l) (Some now) None (lc_restart_limit_reason l)
    (lc_exit_reason l).

(** What [set_restart_policy] makes of a record; [spec]: the session has a restart spec. *)
Definition policy_set (l : SessionLifecycle) (policy : string) (spec : bool) (now : Z) :
    SessionLifecycle :=
  let l := with_policy l policy in
  if String.eqb policy "never" then
    set_restart l (lc_restart_count l) (lc_last_restart_at l) None None (lc_exit_reason l)
  else if match lc_status l with
          | LsCrashed => true
          | _ => false
          end && spec && (lc_restart_count l <? MAX_AUTOMATIC_RESTARTS) then
    set_restart l (lc_restart_count l) (lc_last_restart_at l) (Some (now + 1)) None
      (lc_exit_reason l)
  else l.

Section Supervisor.
Context `{UuidLib, !SerdeJson, !TokioSync}.
Context (canonicalize : string -> result FsError string) (is_dir : string -> bool).

#[local] Notation canonical_directory := (canonical_directory canonicalize is_dir).
#[local] Notation resolve := (resolve canonicalize is_dir).
#[local] Notation reverse_resolve := (reverse_resolve canonicalize is_dir).

(** * Handles *)

(** [join] is the loop's result when it has ended. *)
Record RuntimeHandle := mkHandle {
  rh_session : Session;
  rh_runtime : Runtime;
  rh_join : option (result string unit);
}.

Definition is_finished (h : RuntimeHandle) : bool := is_some (rh_join h).

Definition retire_activity (h : RuntimeHandle) : RuntimeHandle :=
  match step canonical_directory (rh_runtime h) LRetire with
  | Some (r, _) => mkHandle (rh_session h) r (rh_join h)
  | None => h
  end.

(** One command: whether the runtime stops before it answers, and its save. *)
Record CommandEnvironment := mkCommandEnvironment {
  ce_stops : bool;
  ce_save : option string;
}.

Definition runtime_stopped : string := "session runtime stopped".

Definition command (h : RuntimeHandle) (c : RuntimeCommand) (e : CommandEnvironment) :
    RuntimeHandle * result string (list Output) :=
  if is_finished h || negb (rt_alive (rh_runtime h)) then (h, Err runtime_stopped)
  else if ce_stops e
  then (mkHandle (rh_session h) (stop (rh_runtime h)) (rh_join h), Err runtime_stopped)
  else
    let '(r, out) := handle_command canonical_directory (rh_runtime h) c FromHost (ce_save e) in
    (mkHandle (rh_session h) r (rh_join h), Ok out).

Definition done_of (answer : result string (list Output)) : result string unit :=
  match answer with
  | Ok [OHost (HDone r)] => r
  | Ok _ => Err runtime_stopped
  | Err e => Err e
  end.

Definition grant_of (answer : result string (list Output)) : result string GrantResponse :=
  match answer with
  | Ok [OHost (HGrant r)] => r
  | Ok _ => Err runtime_stopped
  | Err e => Err e
  end.

Definition set_upgrade_quiesced (h : RuntimeHandle) (value : bool) (e : CommandEnvironment) :
    RuntimeHandle * result string unit :=
  let '(h, answer) := command h (CSetUpgradeQuiesced value) e in (h, done_of answer).

Definition snapshot (h : RuntimeHandle) (e : CommandEnvironment) :
    RuntimeHandle * result string Session :=
  match command h CSnapshot e with
  | (h, Ok [OHost (HSnapshot s)]) => (h, Ok s)
  | (h, Ok _) => (h, Err runtime_stopped)
  | (h, Err e) => (h, Err e)
  end.

(** [shutdown]: what the loop returns when it is asked to, and what its end saves. *)
Record ShutdownEnvironment := mkShutdownEnvironment {
  he_read : option string;
  he_save_stopping : option string;
  he_outcome : result string unit;
  he_end : EndEnvironment;
}.

Definition stopping (l : SessionLifecycle) : SessionLifecycle :=
  mkLifecycle LsStopping (lc_started_at l) (lc_stopped_at l) (Some "graceful shutdown requested"%string)
    None (lc_logical_path l) (lc_root_name l) (lc_root_relative_path l) (lc_restart_policy l)
    (lc_restart_count l) (lc_last_restart_at l) (lc_next_restart_at l)
    (lc_restart_limit_reason l).

Definition is_crashed (l : option SessionLifecycle) : bool :=
  match l with
  | Some l => match lc_status l with
              | LsCrashed => true
              | _ => false
              end
  | None => false
  end.

Definition shutdown_handle (h : RuntimeHandle) (st : SessionStore) (e : ShutdownEnvironment) :
    SessionStore * result string unit :=
  let read := match read_lifecycle st (he_read e) with
              | Ok l => l
              | Err _ => None
              end in
  if is_crashed read then (st, Ok tt)
  else match rh_join h with
  | Some outcome => (st, outcome)
  | None =>
      let st := match read with
                | Some l => fst (save_session_lifecycle st (stopping l) (he_save_stopping e))
                | None => st
                end in
      (complete_runtime st (rt_session (rh_runtime h)) (he_outcome e) (he_end e), he_outcome e)
  end.

(** * The state *)

Record SessionSupervisor := mkSupervisor {
  sv_roots : NamedRoots;
  sv_broker : ActivityBroker;
  sv_sessions : gmap string RuntimeHandle;
  sv_restart_specs : gmap string RestartSpec;
  sv_public_sessions : gset string;
  sv_closed : bool;
  sv_upgrade_fenced : bool;
  sv_max_sessions : Z;
}.

(** The supervisor and the files of the sessions. *)
Record Host := mkHost {
  ho_supervisor : SessionSupervisor;
  ho_files : gmap string SessionStore;
}.

Definition no_files : SessionStore := mkStore None None false.
Definition files_of (w : Host) (id : string) : SessionStore := default no_files (ho_files w !! id).

Definition with_limit (roots : NamedRoots) (broker : ActivityBroker) (max_sessions : Z) :
    SessionSupervisor :=
  mkSupervisor roots broker ∅ ∅ ∅ false false max_sessions.
Definition supervisor_new (roots : NamedRoots) (broker : ActivityBroker) : SessionSupervisor :=
  with_limit roots broker MAX_MANAGED_SESSIONS.

Definition put_sessions (s : SessionSupervisor) (x : gmap string RuntimeHandle) :
    SessionSupervisor :=
  mkSupervisor (sv_roots s) (sv_broker s) x (sv_restart_specs s) (sv_public_sessions s)
    (sv_closed s) (sv_upgrade_fenced s) (sv_max_sessions s).
Definition put_specs (s : SessionSupervisor) (x : gmap string RestartSpec) : SessionSupervisor :=
  mkSupervisor (sv_roots s) (sv_broker s) (sv_sessions s) x (sv_public_sessions s)
    (sv_closed s) (sv_upgrade_fenced s) (sv_max_sessions s).
Definition put_public (s : SessionSupervisor) (x : gset string) : SessionSupervisor :=
  mkSupervisor (sv_roots s) (sv_broker s) (sv_sessions s) (sv_restart_specs s) x
    (sv_closed s) (sv_upgrade_fenced s) (sv_max_sessions s).
Definition put_fence (s : SessionSupervisor) (x : bool) : SessionSupervisor :=
  mkSupervisor (sv_roots s) (sv_broker s) (sv_sessions s) (sv_restart_specs s)
    (sv_public_sessions s) (sv_closed s) x (sv_max_sessions s).
Definition put_closed (s : SessionSupervisor) : SessionSupervisor :=
  mkSupervisor (sv_roots s) (sv_broker s) (sv_sessions s) (sv_restart_specs s)
    (sv_public_sessions s) true (sv_upgrade_fenced s) (sv_max_sessions s).

Definition on_supervisor (w : Host) (f : SessionSupervisor -> SessionSupervisor) : Host :=
  mkHost (f (ho_supervisor w)) (ho_files w).
Definition put_files (w : Host) (id : string) (st : SessionStore) : Host :=
  mkHost (ho_supervisor w) (<[id := st]> (ho_files w)).
Definition put_handle (w : Host) (id : string) (h : RuntimeHandle) : Host :=
  on_supervisor w (fun s => put_sessions s (<[id := h]> (sv_sessions s))).

(** The session leaves the tables. *)
Definition remove_session (w : Host) (id : string) : Host :=
  on_supervisor w (fun s => put_sessions s (delete id (sv_sessions s))).
Definition remove_spec (w : Host) (id : string) : Host :=
  on_supervisor w (fun s => put_specs s (delete id (sv_restart_specs s))).
Definition remove_public (w : Host) (id : string) : Host :=
  on_supervisor w (fun s => put_public s (sv_public_sessions s ∖ {[id]})).
Definition drop_spec (w : Host) (id : string) : Host := remove_public (remove_spec w id) id.

Definition ensure_mutations_allowed (s : SessionSupervisor) : result string unit :=
  ensure (negb (sv_upgrade_fenced s))
    "session lifecycle is temporarily fenced for supervisor upgrade"%string.

Definition clear_upgrade_fence (w : Host) : Host := on_supervisor w (fun s => put_fence s false).

Definition owned_session_ids (s : SessionSupervisor) : list string :=
  sort_strings (elements (dom (sv_sessions s))).

(** * Starting *)

(** What one start finds. [ad_admission] is the directory that
    [acquire_worktree_admission] admits. *)
Record AdmissionEnvironment := mkAdmissionEnvironment {
  ad_active : result string bool;
  ad_inspect : option string;
  ad_read : option string;
  ad_admission : result string string;
  ad_instance : Uuid;
  ad_start : StartEnvironment;
}.

(** Whether there is room for the session. *)
Definition check_capacity (s : SessionSupervisor) (id : string) : result string unit :=
  ensure (negb (sv_closed s)) "session supervisor is shutting down; new sessions are disabled" ;!
  ensure (negb (is_some (sv_sessions s !! id)))
    "session is already managed by this supervisor process" ;!
  ensure (Z.of_nat (size (sv_sessions s)) <? sv_max_sessions s) "managed session limit reached".

(** The metadata of a session of the same name, when there is any. *)
Definition existing_metadata (st : SessionStore) (id : string) (inspect : option string) :
    result string (option Session) :=
  match inspect with
  | Some e => Err e
  | None =>
      match st_session st with
      | None => Ok None
      | Some _ =>
          let! s := ok_or (read_session_metadata canonicalize is_dir st id)
                      "invalid session metadata"%string in
          Ok (Some s)
      end
  end.

(** The logical path a start is bound to. *)
Definition start_logical_path (roots : NamedRoots) (st : SessionStore) (id cwd : string)
    (mode : PermissionMode) (logical_path : option string) (e : AdmissionEnvironment) :
    result string (option string) :=
  let! existing := existing_metadata st id (ad_inspect e) in
  match existing with
  | Some existing =>
      let! stored_cwd :=
        (if path_eqb (s_cwd existing) cwd then canonical_directory (s_cwd existing)
         else Err "session stored cwd differs from the requested restart scope"%string) in
      ensure (path_eqb stored_cwd cwd)
        "session stored cwd differs from the requested restart scope" ;!
      let! lifecycle := read_lifecycle st (ad_read e) in
      match l ← lifecycle; lc_logical_path l with
      | Some path =>
          let! resolved :=
            (if bool_decide (logical_path = Some path) then resolve roots path
             else Err "session named root changed from its stored cwd"%string) in
          ensure (path_eqb resolved cwd) "session named root changed from its stored cwd" ;!
          Ok (Some path)
      | None => Ok None
      end
  | None =>
      if is_yolo mode then Ok logical_path
      else
        ensure (negb (roots_empty roots)) "named roots are not configured" ;!
        let! path := ok_or logical_path "normal session is outside configured named roots"%string in
        let! resolved := resolve roots path in
        ensure (path_eqb resolved cwd) "normal session named root no longer resolves to its cwd" ;!
        Ok (Some path)
  end.

(** The admitted directory still has the logical path. *)
Definition check_admitted (roots : NamedRoots) (logical_path : option string) (cwd : string) :
    result string unit :=
  match logical_path with
  | Some path =>
      let! resolved := resolve roots path in
      ensure (path_eqb resolved cwd) "session named root changed during admission"
  | None => Ok tt
  end.

(** The first half of [start_resolved_with_authority]: what is decided before the
    runtime is spawned. *)
Definition admission (w : Host) (id cwd : string) (mode : PermissionMode)
    (logical_path : option string) (e : AdmissionEnvironment) :
    result string (string * option string) :=
  let s := ho_supervisor w in
  check_capacity s id ;!
  let! active := ad_active e in
  ensure (negb active) "session is already running" ;!
  let! logical_path := start_logical_path (sv_roots s) (files_of w id) id cwd mode logical_path e in
  let! cwd := ad_admission e in
  check_admitted (sv_roots s) logical_path cwd ;!
  Ok (cwd, logical_path).

(** The second half: the runtime, and the entries in the tables. *)
Definition launch (w : Host) (id cwd : string) (mode : PermissionMode)
    (logical_path : option string) (environment : CapturedStartEnvironment) (public : bool)
    (e : AdmissionEnvironment) : Host * result string ManagedSessionInfo :=
  let spec := mkRestartSpec cwd mode logical_path environment public in
  match spawn_runtime_inner canonicalize is_dir (files_of w id) cwd (Some id) mode logical_path
          environment (ad_start e) with
  | (st, Err error) => (put_files w id st, Err error)
  | (st, Ok session) =>
      let broker := sv_broker (ho_supervisor w) in
      let handle := mkHandle session
                      (started_runtime session (Some (mkActivity broker (ad_instance e))) broker)
                      None in
      let w := put_handle (put_files w id st) id handle in
      let w := on_supervisor w (fun s => put_specs s (<[id := spec]> (sv_restart_specs s))) in
      let w := if public
               then on_supervisor w (fun s => put_public s ({[id]} ∪ sv_public_sessions s)) else w in
      (w, Ok (mkManagedInfo id (s_cwd session) mode))
  end.

Definition start_resolved (w : Host) (id cwd : string) (mode : PermissionMode)
    (logical_path : option string) (environment : CapturedStartEnvironment) (public : bool)
    (e : AdmissionEnvironment) : Host * result string ManagedSessionInfo :=
  match admission w id cwd mode logical_path e with
  | Err error => (w, Err error)
  | Ok (cwd, logical_path) => launch w id cwd mode logical_path environment public e
  end.

(** * The end of sessions *)

(** What the clean-up of an ended session finds. *)
Record ReapEnvironment := mkReapEnvironment {
  rp_cleanup : result (list string) unit;
  rp_policy_read : option string;
  rp_record : RecordEnvironment;
}.

Definition on_failure (st : SessionStore) (read : option string) : bool :=
  match read_lifecycle st read with
  | Ok (Some l) => String.eqb (lc_restart_policy l) "on-failure"
  | _ => false
  end.

(** After the handle left the table: what its end means. *)
Definition settle (w : Host) (id : string) (outcome : result string unit) (e : ReapEnvironment) : Host :=
  match outcome with
  | Ok _ => drop_spec w id
  | Err _ =>
      if on_failure (files_of w id) (rp_policy_read e)
         && is_some (sv_restart_specs (ho_supervisor w) !! id)
      then put_files w id
             (fst (schedule_restart (files_of w id)
                     (if is_ok (rp_cleanup e) then "unexpected runtime failure"
                      else "Codex task cleanup failed after unexpected runtime failure")
                     (rp_record e)))
      else drop_spec w id
  end.

(** One ended session of [reap_finished]. *)
Definition reap_one (w : Host) (id : string) (e : ReapEnvironment) : Host :=
  match sv_sessions (ho_supervisor w) !! id with
  | Some h =>
      match rh_join h with
      | Some outcome => settle (remove_session w id) id outcome e
      | None => w
      end
  | None => w
  end.

(** * Automatic restarts *)

(** What one due restart finds. *)
Record RestartEnvironment := mkRestartEnvironment {
  xe_read : option string;
  xe_save : option string;
  xe_cleanup : result (list string) unit;
  xe_admission : AdmissionEnvironment;
  xe_again : RecordEnvironment;
}.

(** The first part of an attempt: it is decided on the record, and recorded. *)
Definition claim_restart (w : Host) (id : string) (now : Z) (e : RestartEnvironment) :
    option Host :=
  if is_some (sv_sessions (ho_supervisor w) !! id) then None
  else match read_lifecycle (files_of w id) (xe_read e) with
  | Ok (Some l) =>
      if restart_due l now then
        match save_session_lifecycle (files_of w id) (attempted l now) (xe_save e) with
        | (st, Ok _) => Some (put_files w id st)
        | (_, Err _) => None
        end
      else None
  | _ => None
  end.

Definition again (w : Host) (id reason : string) (e : RestartEnvironment) : Host :=
  put_files w id (fst (schedule_restart (files_of w id) reason (xe_again e))).

(** The second part: the old instance is cleaned up and a new one started. *)
Definition finish_restart (w : Host) (id : string) (spec : RestartSpec) (e : RestartEnvironment) :
    Host :=
  match read_session_metadata canonicalize is_dir (files_of w id) id with
  | None => again w id "old session instance inspection failed" e
  | Some _ =>
      match xe_cleanup e with
      | Err _ => again w id "automatic restart cleanup failed" e
      | Ok _ =>
          match start_resolved w id (rx_cwd spec) (rx_permission_mode spec) (rx_logical_path spec)
                  (rx_environment spec) (rx_public spec) (xe_admission e) with
          | (w, Ok _) => w
          | (w, Err _) => again w id "automatic restart attempt failed" e
          end
      end
  end.

Definition restart_one (w : Host) (now : Z) (id : string) (spec : RestartSpec)
    (e : RestartEnvironment) : Host :=
  match claim_restart w id now e with
  | Some w => finish_restart w id spec e
  | None => w
  end.

(** [restart_due_sessions]; [order] is the order in which the copied table is visited. *)
Definition restart_due_sessions (w : Host) (now : Z) (order : list (string * RestartSpec))
    (e : string -> RestartEnvironment) : Host :=
  if sv_upgrade_fenced (ho_supervisor w) then w
  else fold_left (fun w kv => restart_one w now kv.1 kv.2 (e kv.1)) order w.

(** What one pass of the maintenance finds. The tables are visited in their order here;
    a hash table has another one. *)
Record MaintenanceEnvironment := mkMaintenance {
  me_now : Z;
  me_reap : string -> ReapEnvironment;
  me_restart : string -> RestartEnvironment;
}.

Definition finished_sessions (s : SessionSupervisor) : list string :=
  fst <$> List.filter (fun kv => is_finished kv.2) (map_to_list (sv_sessions s)).

Definition reap_finished (w : Host) (e : MaintenanceEnvironment) : Host :=
  let w := fold_left (fun w id => reap_one w id (me_reap e id))
             (finished_sessions (ho_supervisor w)) w in
  restart_due_sessions w (me_now e) (map_to_list (sv_restart_specs (ho_supervisor w)))
    (me_restart e).

(** * Transitions *)

(** The beginning of every one: the fence, and the maintenance. *)
Definition transition {A : Type} (w : Host) (e : MaintenanceEnvironment)
    (body : Host -> Host * result string A) : Host * result string A :=
  match ensure_mutations_allowed (ho_supervisor w) with
  | Err error => (w, Err error)
  | Ok _ => body (reap_finished w e)
  end.

Definition start_named (w : Host) (logical_path : string) (session_id_text : option string)
    (fresh : string) (mode : PermissionMode) (environment : CapturedStartEnvironment)
    (public : bool) (m : MaintenanceEnvironment) (e : AdmissionEnvironment) :
    Host * result string ManagedSessionInfo :=
  transition w m (fun w =>
    let roots := sv_roots (ho_supervisor w) in
    match
      let! id := session_id session_id_text fresh in
      ensure (negb (roots_empty roots)) "named roots are not configured" ;!
      let! cwd := resolve roots logical_path in
      let! logical := reverse_resolve roots cwd in
      let! logical := ok_or logical "session path is outside configured named roots"%string in
      Ok (id, cwd, logical)
    with
    | Err error => (w, Err error)
    | Ok (id, cwd, logical) => start_resolved w id cwd mode (Some logical) environment public e
    end).

Definition start_local (w : Host) (cwd : string) (session_id_text : option string)
    (fresh : string) (mode : PermissionMode) (environment : CapturedStartEnvironment)
    (m : MaintenanceEnvironment) (e : AdmissionEnvironment) :
    Host * result string ManagedSessionInfo :=
  transition w m (fun w =>
    let roots := sv_roots (ho_supervisor w) in
    match
      let! id := session_id session_id_text fresh in
      let! cwd := canonical_directory cwd in
      let! logical := reverse_resolve roots cwd in
      ensure (is_yolo mode || is_some logical) "session cwd is outside configured named roots" ;!
      Ok (id, cwd, logical)
    with
    | Err error => (w, Err error)
    | Ok (id, cwd, logical) => start_resolved w id cwd mode logical environment false e
    end).

(** Ending the runtime of a handle that left the table. *)
Record StopEnvironment := mkStopEnvironment {
  pe_active : result string bool;
  pe_release_before : result string unit;
  pe_shutdown : ShutdownEnvironment;
  pe_release_after : result string unit;
  pe_cleanup : result (list string) unit;
  pe_read : option string;
  pe_now : Z;
  pe_save : option string;
}.

Definition cleanup_text (r : result (list string) unit) : result string unit :=
  map_err (fun names => "agent session cleanup failed for "%string +:+ join_strings ", " names) r.

(** The shutdown and the clean-up are tried whatever fails; the first failure is the answer. *)
Definition end_handle (w : Host) (id : string) (h : RuntimeHandle) (e : StopEnvironment) :
    Host * result string unit :=
  let '(st, shutdown) := shutdown_handle h (files_of w id) (pe_shutdown e) in
  (put_files w id st,
   shutdown ;! pe_release_before e ;! pe_release_after e ;! cleanup_text (pe_cleanup e)).

Definition stopped (l : SessionLifecycle) (now : Z) : SessionLifecycle :=
  mkLifecycle LsStopped (lc_started_at l) (Some now)
    (Some "graceful stop cancelled pending automatic restart"%string) None (lc_logical_path l)
    (lc_root_name l) (lc_root_relative_path l) (lc_restart_policy l) (lc_restart_count l)
    (lc_last_restart_at l) None (lc_restart_limit_reason l).

(** A session that is not running but has a restart pending. *)
Definition cancel_restart (w : Host) (id : string) (e : StopEnvironment) : Host * result string unit :=
  let w := drop_spec w id in
  match read_session_metadata canonicalize is_dir (files_of w id) id with
  | None => (w, Err "invalid session metadata"%string)
  | Some _ =>
      match pe_release_before e with
      | Err error => (w, Err error)
      | Ok _ =>
          match read_lifecycle (files_of w id) (pe_read e) with
          | Err error => (w, Err error)
          | Ok None => (w, cleanup_text (pe_cleanup e))
          | Ok (Some l) =>
              match save_session_lifecycle (files_of w id) (stopped l (pe_now e)) (pe_save e) with
              | (_, Err error) => (w, Err error)
              | (st, Ok _) => (put_files w id st, cleanup_text (pe_cleanup e))
              end
          end
      end
  end.

Definition stop_owned_validated (w : Host) (id : string) (public_only : bool) (e : StopEnvironment) :
    Host * result string unit :=
  let s := ho_supervisor w in
  if public_only && negb (bool_decide (id ∈ sv_public_sessions s))
  then (w, Err "session was not created through the public HTTP supervisor"%string)
  else match sv_sessions s !! id with
  | Some h => end_handle (drop_spec (remove_session w id) id) id (retire_activity h) e
  | None =>
      match pe_active e with
      | Err error => (w, Err error)
      | Ok true => (w, Err "session is active but is not managed by this supervisor process"%string)
      | Ok false =>
          if is_some (sv_restart_specs s !! id) then cancel_restart w id e
          else (w, Err "session is not managed by this supervisor process"%string)
      end
  end.

Definition stop_owned (w : Host) (id : string) (public_only : bool) (m : MaintenanceEnvironment)
    (e : StopEnvironment) : Host * result string unit :=
  transition w m (fun w =>
    match Upgrade.validate_session_id id with
    | Err error => (w, Err error)
    | Ok _ => stop_owned_validated w id public_only e
    end).

(** The directory a restart goes to, and its logical path. *)
Definition restart_scope (w : Host) (id : string) (public : bool) (active : result string bool)
    (read : option string) : result string (Session * string * option string) :=
  let! session := ok_or (read_session_metadata canonicalize is_dir (files_of w id) id)
                    "invalid session metadata"%string in
  let! lifecycle := read_lifecycle (files_of w id) read in
  let logical_path := l ← lifecycle; lc_logical_path l in
  let! _ := (if public then
               let! active := active in
               ensure active "public session_restart requires an active managed session" ;!
               ensure (is_some logical_path) "public managed session has no named-root path"
             else Ok tt) in
  let! cwd := match logical_path with
              | Some path => resolve (sv_roots (ho_supervisor w)) path
              | None => canonical_directory (s_cwd session)
              end in
  ensure (path_eqb cwd (s_cwd session)) "session changed from its stored cwd" ;!
  Ok (session, cwd, logical_path).

Definition restart_with_environment (w : Host) (id : string) (environment : CapturedStartEnvironment)
    (public : bool) (active : result string bool) (read : option string)
    (m : MaintenanceEnvironment) (stop : StopEnvironment) (e : AdmissionEnvironment) :
    Host * result string unit :=
  transition w m (fun w =>
    match Upgrade.validate_session_id id ;! restart_scope w id public active read with
    | Err error => (w, Err error)
    | Ok (session, cwd, logical_path) =>
        let '(w, ended) := match pe_active stop with
                           | Err error => (w, Err error)
                           | Ok true => stop_owned_validated w id public stop
                           | Ok false => (w, cleanup_text (pe_cleanup stop))
                           end in
        match ended with
        | Err error => (w, Err error)
        | Ok _ =>
            let '(w, started) :=
              start_resolved w id cwd (s_permission_mode session) logical_path environment
                (public && is_some logical_path) e in
            (w, let! _ := started in Ok tt)
        end
    end).

Definition validate_public_upgrade_session (w : Host) (id : string) (active : result string bool)
    (read : option string) : result string Session :=
  let s := ho_supervisor w in
  Upgrade.validate_session_id id ;!
  ensure (bool_decide (id ∈ sv_public_sessions s))
    "upgrade_apply requires a session managed by this authenticated HTTP server" ;!
  ensure (is_some (sv_sessions s !! id)) "upgrade_apply requires an active managed session" ;!
  let! lifecycle := read_lifecycle (files_of w id) read in
  let! lifecycle := ok_or lifecycle "session has no lifecycle metadata"%string in
  let! _ := (match lc_status lifecycle with
             | LsActive => let! active := active in
                           ensure active "upgrade_apply requires an ACTIVE managed session"
             | _ => Err "upgrade_apply requires an ACTIVE managed session"%string
             end) in
  let! session := ok_or (read_session_metadata canonicalize is_dir (files_of w id) id)
                    "invalid session metadata"%string in
  ensure (negb (is_yolo (s_permission_mode session))) "upgrade_apply rejects public yolo sessions" ;!
  Ok session.

Definition forget_session (w : Host) (id : string) (active : result string bool)
    (refuse_socket refuse_metadata refuse_lifecycle : option string) (m : MaintenanceEnvironment) :
    Host * result string ForgottenSessionArtifacts :=
  transition w m (fun w =>
    let s := ho_supervisor w in
    match
      Upgrade.validate_session_id id ;!
      ensure (negb (is_some (sv_sessions s !! id)))
        "session is managed by this supervisor process; stop it before forgetting it" ;!
      ensure (negb (is_some (sv_restart_specs s !! id)))
        "session has a pending restart or upgrade context; stop it before forgetting it" ;!
      ensure (negb (bool_decide (id ∈ sv_public_sessions s)))
        "session is still registered as a public session; stop it before forgetting it"
    with
    | Err error => (w, Err error)
    | Ok _ =>
        let '(st, answer) := forget_session_artifacts (files_of w id) id active refuse_socket
                               refuse_metadata refuse_lifecycle in
        (put_files w id st, answer)
    end).

(** A command to the runtime of an owned session; what was saved is in the files. *)
Definition not_managed : string := "session is not managed by this supervisor process".

Definition owned_command {A : Type} (w : Host) (id : string) (c : RuntimeCommand)
    (e : CommandEnvironment) (read : result string (list Output) -> result string A) :
    Host * result string A :=
  match Upgrade.validate_session_id id with
  | Err error => (w, Err error)
  | Ok _ =>
      match sv_sessions (ho_supervisor w) !! id with
      | None => (w, Err not_managed)
      | Some h =>
          let '(h, answer) := command h c e in
          let answer := read answer in
          let w := put_handle w id h in
          let w := if is_ok answer
                   then put_files w id (store_session (files_of w id) (rt_session (rh_runtime h)))
                   else w in
          (w, answer)
      end
  end.

Definition spec_with_mode (mode : PermissionMode) (spec : RestartSpec) : RestartSpec :=
  mkRestartSpec (rx_cwd spec) mode (rx_logical_path spec) (rx_environment spec) (rx_public spec).

Definition set_permission_mode (w : Host) (id : string) (mode : PermissionMode)
    (m : MaintenanceEnvironment) (e : CommandEnvironment) : Host * result string unit :=
  transition w m (fun w =>
    let '(w, answer) := owned_command w id (CSetPermissionMode mode) e done_of in
    let w := if is_ok answer
             then on_supervisor w (fun s =>
                    put_specs s (alter (spec_with_mode mode) id (sv_restart_specs s)))
             else w in
    (w, answer)).

Definition allow_directory (w : Host) (id path : string) (m : MaintenanceEnvironment)
    (e : CommandEnvironment) : Host * result string unit :=
  transition w m (fun w => owned_command w id (CAllowDirectory path) e done_of).

Definition revoke_directory (w : Host) (id path : string) (m : MaintenanceEnvironment)
    (e : CommandEnvironment) : Host * result string unit :=
  transition w m (fun w => owned_command w id (CRevokeDirectory path) e done_of).

Definition apply_grants (w : Host) (id : string) (request : SessionGrantRequest)
    (m : MaintenanceEnvironment) (e : CommandEnvironment) : Host * result string GrantResponse :=
  transition w m (fun w => owned_command w id (CApplyGrants request) e grant_of).

Definition revoke_grants (w : Host) (id : string) (request : SessionGrantRequest)
    (m : MaintenanceEnvironment) (e : CommandEnvironment) : Host * result string GrantResponse :=
  transition w m (fun w => owned_command w id (CRevokeGrants request) e grant_of).

Definition set_restart_policy (w : Host) (id policy : string) (m : MaintenanceEnvironment)
    (e : RecordEnvironment) : Host * result string unit :=
  transition w m (fun w =>
    match
      Upgrade.validate_session_id id ;!
      ensure (String.eqb policy "never" || String.eqb policy "on-failure")
        "restart policy must be never or on-failure" ;!
      let! lifecycle := read_lifecycle (files_of w id) (re_read e) in
      ok_or lifecycle "session has no lifecycle metadata"%string
    with
    | Err error => (w, Err error)
    | Ok l =>
        let spec := is_some (sv_restart_specs (ho_supervisor w) !! id) in
        let '(st, answer) := save_session_lifecycle (files_of w id) (policy_set l policy spec (re_now e))
                               (re_save e) in
        (put_files w id st, answer)
    end).

(** * Upgrades *)

(** The identities of the sessions that are listed, in the order of their names. *)
Fixpoint identities (w : Host) (ids : list string) (e : string -> CommandEnvironment) :
    Host * result string (list SupervisorUpgradeSessionIdentity) :=
  match ids with
  | [] => (w, Ok [])
  | id :: rest =>
      match sv_sessions (ho_supervisor w) !! id with
      | None => identities w rest e
      | Some h =>
          let '(h, answer) := snapshot h (e id) in
          let w := put_handle w id h in
          match answer with
          | Err error => (w, Err error)
          | Ok s =>
              let '(w, rest) := identities w rest e in
              (w, let! rest := rest in Ok (mkIdentity id (s_process_id s) (s_started_at s) :: rest))
          end
      end
  end.

(** The sessions that were approved are those that run. *)
Definition expected_identity (active : list SupervisorUpgradeSessionIdentity)
    (x : Upgrade.UpgradePlannedSession) : result string unit :=
  match find (fun s => String.eqb (id_session_id s) (Upgrade.pl_session_id x)) active with
  | None => Err "approved session set changed before supervisor handoff"%string
  | Some s =>
      ensure ((id_process_id s =? Upgrade.pl_source_process_id x)
              && (id_started_at s =? Upgrade.pl_source_started_at x))
        "approved session instance changed before supervisor handoff"
  end.

Definition check_expected (active : list SupervisorUpgradeSessionIdentity)
    (expected : option (list Upgrade.UpgradePlannedSession)) : result string unit :=
  match expected with
  | None => Ok tt
  | Some expected =>
      ensure (zlen active =? zlen expected) "approved session set changed before supervisor handoff" ;!
      for_each (expected_identity active) expected
  end.

(** What the preparation of an upgrade finds. *)
Record PlanEnvironment := mkPlanEnvironment {
  ge_source_version : string;
  ge_pid : Z;
  ge_now : Z;
  ge_maintenance : MaintenanceEnvironment;
  ge_identity : string -> CommandEnvironment;
  ge_snapshot : string -> CommandEnvironment;
  ge_read : string -> option string;
}.

(** The plan of one session, from its snapshot. *)
Definition plan_session (w : Host) (id : string) (s : Session) (available : CapturedStartEnvironment)
    (read : option string) : result string UpgradeSessionPlan :=
  let sv := ho_supervisor w in
  let! spec := ok_or (sv_restart_specs sv !! id)
                 "session has no in-memory restart context"%string in
  let! cwd := match rx_logical_path spec with
              | Some path => resolve (sv_roots sv) path
              | None => canonical_directory (rx_cwd spec)
              end in
  ensure (path_eqb cwd (s_cwd s)) "session path no longer resolves to its current cwd" ;!
  ensure (match restart_context_mismatches (rx_environment spec) available with
          | [] => true
          | _ => false
          end) "session restart context is unavailable or changed" ;!
  let! lifecycle := read_lifecycle (files_of w id) read in
  let! lifecycle := ok_or lifecycle "session has no lifecycle metadata"%string in
  ensure (match lc_status lifecycle with
          | LsActive => true
          | _ => false
          end) "session is not in active lifecycle state during upgrade preflight" ;!
  Ok (mkSessionPlan id (s_cwd s) (s_permitted_directories s) (s_permission_mode s)
        (rx_logical_path spec) (lc_restart_policy lifecycle)
        (bool_decide (id ∈ sv_public_sessions sv))
        (sort_strings (map fst (map_to_list (rx_environment spec))))).

(** The loop over the owned sessions; [collect]: a failure blocks only its session. *)
Fixpoint plan_sessions (w : Host) (ids : list string) (available : CapturedStartEnvironment)
    (collect : bool) (e : PlanEnvironment) :
    Host * result string (list UpgradeSessionPlan * list UpgradeSessionBlocker) :=
  match ids with
  | [] => (w, Ok ([], []))
  | id :: rest =>
      let '(w, attempt) :=
        match sv_sessions (ho_supervisor w) !! id with
        | None => (w, Err "session disappeared during upgrade preflight"%string)
        | Some h =>
            let '(h, answer) := snapshot h (ge_snapshot e id) in
            let w := put_handle w id h in
            (w, let! s := answer in plan_session w id s available (ge_read e id))
        end in
      match attempt with
      | Err error =>
          if collect then
            let '(w, rest) := plan_sessions w rest available collect e in
            (w, let! rest := rest in Ok (rest.1, mkBlocker id error :: rest.2))
          else (w, Err error)
      | Ok plan =>
          let '(w, rest) := plan_sessions w rest available collect e in
          (w, let! rest := rest in Ok (plan :: rest.1, rest.2))
      end
  end.

Definition ended_reason : string :=
  "session runtime has ended; lifecycle maintenance is pending".

Definition prepare_upgrade_plan (w : Host) (target_version : string)
    (control_protocol lifecycle_schema : Z) (available : CapturedStartEnvironment)
    (options : UpgradePlanOptions) (expected : option (list Upgrade.UpgradePlannedSession))
    (e : PlanEnvironment) : Host * result string SupervisorUpgradePreview :=
  if sv_upgrade_fenced (ho_supervisor w)
  then (w, Err "another supervisor upgrade is already in progress"%string)
  else
    let w := if po_reap_finished options then reap_finished w (ge_maintenance e) else w in
    let handoff_required := po_force options || negb (String.eqb (ge_source_version e) target_version) in
    let finished := if po_reap_finished options then []
                    else sort_strings (finished_sessions (ho_supervisor w)) in
    let live := List.filter (fun id => negb (existsb (String.eqb id) finished))
                  (owned_session_ids (ho_supervisor w)) in
    match identities w live (ge_identity e) with
    | (w, Err error) => (w, Err error)
    | (w, Ok active) =>
        match check_expected active expected with
        | Err error => (w, Err error)
        | Ok _ =>
            match (if handoff_required
                   then plan_sessions w live available (po_collect_blockers options) e
                   else (w, Ok ([], []))) with
            | (w, Err error) => (w, Err error)
            | (w, Ok (plans, blockers)) =>
                let blocked := map (fun id => mkBlocker id ended_reason) finished ++ blockers in
                let w := if po_fence options && handoff_required
                            && match blocked with
                               | [] => true
                               | _ => false
                               end
                         then on_supervisor w (fun s => put_fence s true) else w in
                (w, Ok (mkPreview
                  (mkUpgradePlan 1 (ge_source_version e) target_version control_protocol
                     lifecycle_schema (ge_pid e) (ge_now e) handoff_required plans)
                  blocked active))
            end
        end
    end.

Definition build_upgrade_plan_with_expected (w : Host) (target_version : string)
    (control_protocol lifecycle_schema : Z) (available : CapturedStartEnvironment)
    (fence force : bool) (expected : option (list Upgrade.UpgradePlannedSession))
    (e : PlanEnvironment) : Host * result string SupervisorUpgradePlan :=
  let '(w, preview) := prepare_upgrade_plan w target_version control_protocol lifecycle_schema
                         available (mkPlanOptions fence force false true) expected e in
  (w, let! preview := preview in Ok (pr_plan preview)).

Definition preview_upgrade_plan (w : Host) (target_version : string)
    (control_protocol lifecycle_schema : Z) (available : CapturedStartEnvironment)
    (force reap : bool) (e : PlanEnvironment) : Host * result string SupervisorUpgradePreview :=
  prepare_upgrade_plan w target_version control_protocol lifecycle_schema available
    (mkPlanOptions false force true reap) None e.

(** *** Quiescing *)

(** The sessions are let go again, the last first. *)
Fixpoint release_quiesced (w : Host) (ids : list string) (e : string -> CommandEnvironment) : Host :=
  match ids with
  | [] => w
  | id :: rest =>
      let w := match sv_sessions (ho_supervisor w) !! id with
               | Some h => put_handle w id (fst (set_upgrade_quiesced h false (e id)))
               | None => w
               end in
      release_quiesced w rest e
  end.

(** The loop; [quiesced]: those already quiesced, the last first. A session that is not in
    the table ends the whole function. *)
Fixpoint quiesce_sessions (w : Host) (planned : list UpgradeSessionPlan) (quiesced : list string)
    (e release : string -> CommandEnvironment) : Host * result string unit :=
  match planned with
  | [] => (w, Ok tt)
  | p :: rest =>
      let id := up_session_id p in
      match sv_sessions (ho_supervisor w) !! id with
      | None => (w, Err "session disappeared before upgrade quiesce"%string)
      | Some h =>
          let '(h, answer) := set_upgrade_quiesced h true (e id) in
          let w := put_handle w id h in
          match answer with
          | Err _ =>
              (clear_upgrade_fence (release_quiesced w quiesced release),
               Err "session is busy; supervisor upgrade aborted"%string)
          | Ok _ => quiesce_sessions w rest (id :: quiesced) e release
          end
      end
  end.

Definition quiesce_for_upgrade (w : Host) (plan : SupervisorUpgradePlan)
    (e release : string -> CommandEnvironment) : Host * result string unit :=
  if sv_upgrade_fenced (ho_supervisor w) then quiesce_sessions w (pl_sessions plan) [] e release
  else (w, Err "supervisor upgrade is not fenced"%string).

(** *** Draining *)

Fixpoint drain_sessions (w : Host) (planned : list UpgradeSessionPlan)
    (e : string -> StopEnvironment) : Host * result string unit :=
  match planned with
  | [] => (w, Ok tt)
  | p :: rest =>
      let id := up_session_id p in
      match sv_sessions (ho_supervisor w) !! id with
      | None => (w, Err "session disappeared before upgrade drain"%string)
      | Some h =>
          match end_handle (remove_session w id) id h (e id) with
          | (w, Err error) => (w, Err error)
          | (w, Ok _) => drain_sessions w rest e
          end
      end
  end.

Definition drain_for_upgrade (w : Host) (plan : SupervisorUpgradePlan)
    (e : string -> StopEnvironment) : Host * result string unit :=
  if sv_upgrade_fenced (ho_supervisor w) then drain_sessions w (pl_sessions plan) e
  else (w, Err "supervisor upgrade is not fenced"%string).

(** *** Rolling back *)

Record RollbackEnvironment := mkRollbackEnvironment {
  be_active : result string bool;
  be_release : CommandEnvironment;
  be_admission : AdmissionEnvironment;
}.

(** One planned session: released when it runs, started again when that is wanted. *)
Definition rollback_one (w : Host) (p : UpgradeSessionPlan) (restart_removed : bool)
    (e : RollbackEnvironment) : Host * result string unit :=
  let id := up_session_id p in
  if match be_active e with
     | Ok active => active
     | Err _ => false
     end
  then (match sv_sessions (ho_supervisor w) !! id with
        | Some h => put_handle w id (fst (set_upgrade_quiesced h false (be_release e)))
        | None => w
        end, Ok tt)
  else if negb restart_removed then (w, Ok tt)
  else match sv_restart_specs (ho_supervisor w) !! id with
  | None => (w, Err "session restart context disappeared during rollback"%string)
  | Some spec =>
      let '(w, started) := start_resolved w id (rx_cwd spec) (rx_permission_mode spec)
                             (rx_logical_path spec) (rx_environment spec) (rx_public spec)
                             (be_admission e) in
      (w, let! _ := started in Ok tt)
  end.

Fixpoint rollback_sessions (w : Host) (planned : list UpgradeSessionPlan) (restart_removed : bool)
    (first_error : option string) (e : string -> RollbackEnvironment) : Host * option string :=
  match planned with
  | [] => (w, first_error)
  | p :: rest =>
      let '(w, r) := rollback_one w p restart_removed (e (up_session_id p)) in
      let first_error := match first_error, r with
                         | None, Err error => Some error
                         | _, _ => first_error
                         end in
      rollback_sessions w rest restart_removed first_error e
  end.

Definition rollback_upgrade (w : Host) (plan : SupervisorUpgradePlan) (restart_removed : bool)
    (e : string -> RollbackEnvironment) : Host * result string unit :=
  let '(w, first_error) := rollback_sessions w (pl_sessions plan) restart_removed None e in
  (clear_upgrade_fence w,
   match first_error with
   | Some _ => Err "supervisor upgrade rollback was incomplete"%string
   | None => Ok tt
   end).

(** *** Restoring *)

Record RestoreEnvironment := mkRestoreEnvironment {
  oe_admission : AdmissionEnvironment;
  oe_record : RecordEnvironment;
  oe_active : result string bool;
  oe_read : option string;
  oe_cleanup : StopEnvironment;
}.

(** The directory of a planned session, if it has not changed. *)
Definition restore_scope (w : Host) (p : UpgradeSessionPlan) : result string string :=
  let! cwd := match up_logical_path p with
              | Some path => resolve (sv_roots (ho_supervisor w)) path
              | None => canonical_directory (up_cwd p)
              end in
  ensure (path_eqb cwd (up_cwd p)) "session path changed during supervisor handoff" ;!
  Ok cwd.

(** The policy of a restored session. *)
Definition restore_policy (w : Host) (p : UpgradeSessionPlan) (e : RecordEnvironment) :
    Host * result string unit :=
  let id := up_session_id p in
  if String.eqb (up_restart_policy p) "never" then (w, Ok tt)
  else match read_lifecycle (files_of w id) (re_read e) with
  | Err error => (w, Err error)
  | Ok None => (w, Err "restored session has no lifecycle metadata"%string)
  | Ok (Some l) =>
      let '(st, answer) := save_session_lifecycle (files_of w id)
                             (with_policy l (up_restart_policy p)) (re_save e) in
      (put_files w id st, answer)
  end.

(** The loop that starts the sessions; [restored]: those that were started, the last first. *)
Fixpoint restore_sessions (w : Host) (planned : list UpgradeSessionPlan)
    (available : CapturedStartEnvironment) (restored : list string)
    (e : string -> RestoreEnvironment) : Host * result string unit * list string :=
  match planned with
  | [] => (w, Ok tt, restored)
  | p :: rest =>
      let id := up_session_id p in
      match
        let! environment := select_restart_context available (up_restart_context_keys p) in
        let! cwd := restore_scope w p in
        Ok (environment, cwd)
      with
      | Err error => (w, Err error, restored)
      | Ok (environment, cwd) =>
          match start_resolved w id cwd (up_permission_mode p) (up_logical_path p) environment
                  (up_public p) (oe_admission (e id)) with
          | (w, Err error) => (w, Err error, restored)
          | (w, Ok _) =>
              let restored := id :: restored in
              match restore_policy w p (oe_record (e id)) with
              | (w, Err error) => (w, Err error, restored)
              | (w, Ok _) => restore_sessions w rest available restored e
              end
          end
      end
  end.

Definition directories_eqb (a b : list string) : bool :=
  bool_decide (map components a = map components b).

(** The loop that compares what runs with the plan. *)
Definition verify_restored (w : Host) (p : UpgradeSessionPlan) (e : RestoreEnvironment) :
    result string unit :=
  let id := up_session_id p in
  let! active := oe_active e in
  ensure active "restored session did not pass its socket probe" ;!
  let! s := ok_or (read_session_metadata canonicalize is_dir (files_of w id) id)
              "invalid session metadata"%string in
  ensure (path_eqb (s_cwd s) (up_cwd p)
          && bool_decide (s_permission_mode s = up_permission_mode p)
          && directories_eqb (s_permitted_directories s) (up_permitted_directories p))
    "restored session metadata does not match the upgrade plan" ;!
  let! lifecycle := read_lifecycle (files_of w id) (oe_read e) in
  let! lifecycle := ok_or lifecycle "restored session has no lifecycle"%string in
  ensure (String.eqb (lc_restart_policy lifecycle) (up_restart_policy p))
    "restored session restart policy changed during handoff".

Definition restore_upgrade_plan_inner (w : Host) (version : string) (plan : SupervisorUpgradePlan)
    (available : CapturedStartEnvironment) (e : string -> RestoreEnvironment) :
    Host * result string unit * list string :=
  match
    ensure (pl_plan_schema plan =? 1) "unsupported supervisor restore plan schema" ;!
    ensure (String.eqb (pl_target_version plan) version) "restore plan targets another version"
  with
  | Err error => (w, Err error, [])
  | Ok _ =>
      let '(w, answer, restored) := restore_sessions w (pl_sessions plan) available [] e in
      (w, answer ;! for_each (fun p => verify_restored w p (e (up_session_id p))) (pl_sessions plan),
       restored)
  end.

(** [cleanup_restored_sessions]: every one is removed and ended, whatever fails. *)
Fixpoint cleanup_restored_sessions (w : Host) (ids : list string) (first_error : option string)
    (e : string -> StopEnvironment) : Host * option string :=
  match ids with
  | [] => (w, first_error)
  | id :: rest =>
      let handle := sv_sessions (ho_supervisor w) !! id in
      let w := remove_session (drop_spec w id) id in
      let '(w, answer) :=
        match handle with
        | Some h => end_handle w id (retire_activity h) (e id)
        | None =>
            (w, if is_some (read_session_metadata canonicalize is_dir (files_of w id) id)
                then cleanup_text (pe_cleanup (e id))
                else Err "cannot read session metadata for restored-session cleanup"%string)
        end in
      let first_error := match first_error, answer with
                         | None, Err error => Some error
                         | _, _ => first_error
                         end in
      cleanup_restored_sessions w rest first_error e
  end.

Definition restore_upgrade_plan (w : Host) (version : string) (plan : SupervisorUpgradePlan)
    (available : CapturedStartEnvironment) (e : string -> RestoreEnvironment) :
    Host * result string unit :=
  match restore_upgrade_plan_inner w version plan available e with
  | (w, Ok _, _) => (w, Ok tt)
  | (w, Err error, restored) =>
      let '(w, cleanup) := cleanup_restored_sessions w restored None (fun id => oe_cleanup (e id)) in
      (w, Err (match cleanup with
               | Some c => error +:+ "; restore cleanup also failed: " +:+ c
               | None => error
               end))
  end.

(** * Shutting down *)

Fixpoint end_handles (w : Host) (handles : list (string * RuntimeHandle))
    (first_error : option string) (e : string -> StopEnvironment) : Host * option string :=
  match handles with
  | [] => (w, first_error)
  | (id, h) :: rest =>
      let '(w, answer) := end_handle w id (retire_activity h) (e id) in
      let first_error := match first_error, answer with
                         | None, Err error => Some error
                         | _, _ => first_error
                         end in
      end_handles w rest first_error e
  end.

Definition shutdown (w : Host) (e : string -> StopEnvironment) : Host * result string unit :=
  let handles := map_to_list (sv_sessions (ho_supervisor w)) in
  let w := on_supervisor w (fun s =>
             put_public (put_specs (put_sessions (put_closed s) ∅) ∅) ∅) in
  let '(w, first_error) := end_handles w handles None e in
  (w, match first_error with
      | Some _ => Err "failed to stop all managed sessions"%string
      | None => Ok tt
      end).

(** A runtime ends by itself; its task has saved what [complete_runtime] saves. *)
Definition runtime_ends (w : Host) (id : string) (outcome : result string unit)
    (e : EndEnvironment) : Host :=
  match sv_sessions (ho_supervisor w) !! id with
  | Some h =>
      match rh_join h with
      | None =>
          put_handle (put_files w id (complete_runtime (files_of w id) (rt_session (rh_runtime h))
                                        outcome e)) id
            (mkHandle (rh_session h) (stop (rh_runtime h)) (Some outcome))
      | Some _ => w
      end
  | None => w
  end.
End Supervisor.
