(* ===== verification/SupervisorTheorems.v ===== *)
(** * What the supervisor guarantees

    Quiescing for an upgrade takes all sessions or lets them all go, except when
    one has vanished: then the fence stays; a restored plan is restored as a whole
    or not at all; a session confined to the named roots starts inside one; and a
    crash loop ends.  A restart that was claimed goes through although the session
    was stopped or an upgrade fenced in the meantime. *)

From S2P Require Import Prelude Strings Json Contract Broker Config ConfigTheorems NamedRoots NamedRootsTheorems.
From S2P Require Import SessionRuntime SessionStart SessionStartTheorems Supervisor.
From S2P Require Upgrade.

#[local] Open Scope Z_scope.
#[local] Open Scope rust_scope.

(** * Records *)

(** How many restarts a record still allows without a new setting. *)
Definition restarts_left (l : SessionLifecycle) : Z :=
  MAX_AUTOMATIC_RESTARTS - lc_restart_count l + (if is_some (lc_next_restart_at l) then 1 else 0).

Definition count_ok (l : SessionLifecycle) : Prop :=
  0 <= lc_restart_count l <= MAX_AUTOMATIC_RESTARTS.

Lemma scheduled_left l reason now l' :
  count_ok l -> scheduled l reason now = Some l' ->
  count_ok l' /\ restarts_left l' <= restarts_left l.
Proof.
  unfold scheduled, count_ok, restarts_left. destruct (negb _); [done|].
  destruct (Z.leb_spec MAX_AUTOMATIC_RESTARTS (lc_restart_count l)); intros Hc [= <-]; cbn;
    unfold MAX_AUTOMATIC_RESTARTS in *; destruct (lc_next_restart_at l); cbn; lia.
Qed.

Lemma attempted_left l now :
  restart_due l now = true -> restarts_left (attempted l now) = restarts_left l - 1.
Proof.
  unfold restart_due, restarts_left. intros [_ H]%andb_true_iff. apply negb_true_iff in H.
  destruct (lc_next_restart_at l); [cbn; lia|done].
Qed.

Lemma policy_set_left l policy spec now :
  count_ok l -> count_ok (policy_set l policy spec now)
  /\ restarts_left (policy_set l policy spec now) <= restarts_left l + 1.
Proof.
  unfold policy_set, count_ok, restarts_left. intros Hc.
  destruct (policy =? "never")%string; cbn; [destruct (lc_next_restart_at l); cbn; lia|].
  destruct (_ && _ && _); cbn; destruct (lc_next_restart_at l); cbn; lia.
Qed.

Lemma inherit_left s logical previous :
  (forall l, previous = Some l -> count_ok l) ->
  let l' := inherit_restarts (lifecycle_starting s logical) previous in
  count_ok l' /\ restarts_left l' <= match previous with
                                    | Some l => restarts_left l
                                    | None => MAX_AUTOMATIC_RESTARTS
                                    end.
Proof.
  intros Hp. unfold count_ok, restarts_left. destruct previous as [l|]; cbn.
  - specialize (Hp l eq_refl). unfold count_ok in Hp. split; [done|].
    destruct (lc_next_restart_at l); cbn; lia.
  - unfold MAX_AUTOMATIC_RESTARTS. lia.
Qed.

(** * The restarts of a session *)

Section Restarts.
Context `{UU : UuidLib, SJ : !SerdeJson, TS : !TokioSync}.
Context (canonicalize : string -> result FsError string) (is_dir : string -> bool).

(** What happens to the files of a session until it is forgotten, with the number of
    automatic restarts that were attempted and of times the policy was set. *)
Inductive restart_history (id : string) : SessionStore -> SessionStore -> Z -> Z -> Prop :=
| restarts_none (st : SessionStore) : restart_history id st st 0 0
| restarts_schedule (st0 st : SessionStore) (n k : Z) (reason : string) (e : RecordEnvironment) :
    restart_history id st0 st n k ->
    restart_history id st0 (fst (schedule_restart st reason e)) n k
| restarts_attempt (st0 st st' : SessionStore) (n k now : Z) (l : SessionLifecycle)
    (failure : option string) :
    restart_history id st0 st n k -> st_lifecycle st = Some l -> restart_due l now = true ->
    save_session_lifecycle st (attempted l now) failure = (st', Ok tt) ->
    restart_history id st0 st' (n + 1) k
| restarts_policy (st0 st : SessionStore) (n k now : Z) (l : SessionLifecycle) (policy : string)
    (spec : bool) (failure : option string) :
    restart_history id st0 st n k -> st_lifecycle st = Some l ->
    restart_history id st0
      (fst (save_session_lifecycle st (policy_set l policy spec now) failure)) n (k + 1)
| restarts_spawn (st0 st : SessionStore) (n k : Z) (cwd : string) (mode : PermissionMode)
    (logical : option string) (environment : CapturedStartEnvironment) (e : StartEnvironment) :
    restart_history id st0 st n k ->
    restart_history id st0
      (fst (spawn_runtime_inner canonicalize is_dir st cwd (Some id) mode logical environment e)) n k
| restarts_end (st0 st : SessionStore) (n k : Z) (s : Session) (outcome : result string unit)
    (e : EndEnvironment) :
    restart_history id st0 st n k ->
    restart_history id st0 (complete_runtime st s outcome e) n k
| restarts_shutdown (st0 st : SessionStore) (n k : Z) (h : RuntimeHandle) (e : ShutdownEnvironment) :
    restart_history id st0 st n k -> restart_history id st0 (fst (shutdown_handle h st e)) n k
| restarts_cancel (st0 st : SessionStore) (n k now : Z) (l : SessionLifecycle)
    (failure : option string) :
    restart_history id st0 st n k -> st_lifecycle st = Some l ->
    restart_history id st0 (fst (save_session_lifecycle st (stopped l now) failure)) n k
| restarts_restore (st0 st : SessionStore) (n k : Z) (l : SessionLifecycle) (policy : string)
    (failure : option string) :
    restart_history id st0 st n k -> st_lifecycle st = Some l ->
    restart_history id st0 (fst (save_session_lifecycle st (with_policy l policy) failure)) n k.

(** The record allows at most [bound] more restarts. *)
Definition left_ok (st : SessionStore) (bound : Z) : Prop :=
  match st_lifecycle st with
  | Some l => count_ok l /\ restarts_left l <= bound
  | None => MAX_AUTOMATIC_RESTARTS <= bound
  end.

Lemma left_ok_same st st' bound :
  st_lifecycle st' = st_lifecycle st -> left_ok st bound -> left_ok st' bound.
Proof. unfold left_ok. by intros ->. Qed.

Lemma left_ok_record st l bound :
  left_ok st bound -> st_lifecycle st = Some l -> count_ok l /\ restarts_left l <= bound.
Proof. unfold left_ok. intros H Hl. by rewrite Hl in H. Qed.

Lemma left_ok_save st l failure bound :
  left_ok st bound -> count_ok l -> restarts_left l <= bound ->
  left_ok (fst (save_session_lifecycle st l failure)) bound.
Proof. intros Hst Hl Hb. by destruct failure. Qed.

Lemma left_ok_fail st l reason error e bound :
  left_ok st bound -> count_ok l -> restarts_left l <= bound ->
  left_ok (fail_start st l reason error e) bound.
Proof.
  intros Hst Hl Hb. unfold fail_start.
  apply (left_ok_same (fst (save_session_lifecycle st
    (ended l LsCrashed (se_later e) reason (Some error)) (se_save_crashed e)))); [done|].
  by apply left_ok_save.
Qed.

Lemma left_ok_save_start st s l e bound :
  left_ok st bound -> count_ok l -> restarts_left l <= bound ->
  left_ok (fst (save_start st s l e)) bound.
Proof.
  intros Hst Hl Hb. unfold save_start.
  pose proof (left_ok_save st l (se_save_starting e) bound Hst Hl Hb) as H1.
  destruct (save_session_lifecycle st l (se_save_starting e)) as [st1 [[]|]]; cbn in H1 |- *; [|done].
  assert (left_ok (fst (save_session st1 s (se_save_session e))) bound) as H2
    by (destruct (se_save_session e); exact H1).
  destruct (save_session st1 s (se_save_session e)) as [st2 [[]|]]; cbn in H2 |- *; [|by apply left_ok_fail].
  pose proof (left_ok_save st2 (activated l) (se_save_active e) bound H2 Hl Hb) as H3.
  destruct (save_session_lifecycle st2 (activated l) (se_save_active e)) as [st3 [[]|]];
    cbn in H3 |- *; [done|].
  apply left_ok_fail; [|done|done]. destruct (se_save_rollback e); exact H3.
Qed.

Lemma left_ok_spawn st id cwd mode logical environment e bound :
  left_ok st bound ->
  left_ok (fst (spawn_runtime_inner canonicalize is_dir st cwd (Some id) mode logical environment e))
    bound.
Proof.
  intros Hst. unfold spawn_runtime_inner.
  destruct (check_start _ _ _ _ _ _) as [[[id' ps] pl]|] eqn:Ec; [|done].
  assert (pl = st_lifecycle st) as ->.
  { revert Ec. unfold check_start, session_id. destruct (environment_validate _); [|done]. cbn.
    destruct (Upgrade.validate_session_id id); [|done]. cbn. destruct (se_replacement e); [|done]. cbn.
    destruct (se_active e) as [[]|]; [done| |done]. cbn. by intros [= _ _ <-]. }
  destruct (new_instance _ _ _ _ _ _ _ _) as [s|]; [|done].
  destruct (se_listener e); [done|].
  assert (forall l, st_lifecycle st = Some l -> count_ok l) as Hc.
  { intros l Hl. unfold left_ok in Hst. rewrite Hl in Hst. apply Hst. }
  destruct (inherit_left (s_started_at (set_process_id s (se_process_id e))) logical
    (st_lifecycle st) Hc) as [Hl1 Hl2].
  apply left_ok_save_start; [exact Hst|exact Hl1|]. unfold left_ok in Hst.
  destruct (st_lifecycle st); lia.
Qed.

Lemma left_ok_complete st s outcome e bound :
  left_ok st bound -> left_ok (complete_runtime st s outcome e) bound.
Proof.
  intros Hst. unfold complete_runtime.
  set (st1 := fst (save_session st (set_process_id s 0) (ee_save_session e))).
  assert (st_lifecycle st1 = st_lifecycle st) as Hl1 by (unfold st1; by destruct (ee_save_session e)).
  assert (left_ok st1 bound) as H1 by (by apply (left_ok_same st)).
  match goal with |- left_ok (store_socket ?x false) _ => apply (left_ok_same x); [done|] end.
  assert (let l := match st_lifecycle st1 with
                   | Some l => l
                   | None => lifecycle_starting (s_started_at (set_process_id s 0)) None
                   end in count_ok l /\ restarts_left l <= bound) as [Hc Hb].
  { unfold left_ok in H1. destruct (st_lifecycle st1); [done|].
    unfold count_ok, restarts_left, MAX_AUTOMATIC_RESTARTS in *. cbn. lia. }
  apply left_ok_save; [done| |]; destruct outcome; done.
Qed.

Lemma restart_history_left id st0 st n k :
  restart_history id st0 st n k -> forall bound, left_ok st0 bound -> left_ok st (bound + k - n).
Proof.
  induction 1 as [st|st0 st n k reason e Hh IH|st0 st st' n k now l failure Hh IH Hl Hdue Hs
    |st0 st n k now l policy spec failure Hh IH Hl|st0 st n k cwd mode logical environment e Hh IH
    |st0 st n k s outcome e Hh IH|st0 st n k h e Hh IH|st0 st n k now l failure Hh IH Hl
    |st0 st n k l policy failure Hh IH Hl]; intros bound Hst;
    try specialize (IH bound Hst).
  - by replace (bound + 0 - 0) with bound by lia.
  - unfold schedule_restart, read_lifecycle. destruct (re_read e); [done|].
    destruct (st_lifecycle st) as [l|] eqn:Hl; [|done].
    destruct (scheduled l reason (re_now e)) as [l'|] eqn:Es; [|done].
    pose proof (left_ok_record _ _ _ IH Hl) as [Hc Hb].
    apply scheduled_left in Es as [? ?]; [|done]. apply left_ok_save; [done|done|lia].
  - pose proof (left_ok_record _ _ _ IH Hl) as [Hc Hb].
    destruct failure; cbn in Hs; [done|]. injection Hs as <-. unfold left_ok. cbn.
    split; [exact Hc|]. rewrite attempted_left by done. lia.
  - pose proof (left_ok_record _ _ _ IH Hl) as [Hc Hb].
    destruct (policy_set_left l policy spec now Hc) as [Hc' Hb'].
    apply left_ok_save; [|done|lia]. unfold left_ok. rewrite Hl. split; [done|lia].
  - by apply left_ok_spawn.
  - by apply left_ok_complete.
  - unfold shutdown_handle. cbv zeta. destruct (read_lifecycle st (he_read e)) as [r|] eqn:Er.
    2: { cbn. destruct (rh_join h); cbn; [done|by apply left_ok_complete]. }
    destruct (is_crashed r); [done|]. destruct (rh_join h); [done|]. cbn.
    apply left_ok_complete. destruct r as [l|]; [|done].
    unfold read_lifecycle in Er. destruct (he_read e); [done|]. injection Er as Er.
    pose proof (left_ok_record _ _ _ IH Er) as [Hc Hb]. by apply left_ok_save.
  - pose proof (left_ok_record _ _ _ IH Hl) as [Hc Hb]. apply left_ok_save; [done|done|].
    unfold restarts_left in *. cbn. destruct (is_some (lc_next_restart_at l)); lia.
  - pose proof (left_ok_record _ _ _ IH Hl) as [Hc Hb]. by apply left_ok_save.
Qed.

(** A crash loop ends: from a session without a record there are at most five automatic
    restarts, and one more for every time the operator sets the policy, until the session is
    forgotten; whatever starts, ends, failed saves and failed attempts lie in between. *)
Theorem automatic_restarts_bounded id st0 st n k :
  st_lifecycle st0 = None -> restart_history id st0 st n k -> n <= MAX_AUTOMATIC_RESTARTS + k.
Proof.
  intros H0 Hh. pose proof (restart_history_left _ _ _ _ _ Hh MAX_AUTOMATIC_RESTARTS) as H.
  unfold left_ok in H. rewrite H0 in H. specialize (H ltac:(lia)).
  destruct (st_lifecycle st) as [l|]; [|unfold MAX_AUTOMATIC_RESTARTS in *; lia].
  destruct H as [[_ Hc] Hb].
  unfold restarts_left in Hb. destruct (is_some (lc_next_restart_at l)); lia.
Qed.
End Restarts.

(** * Quiescing *)

Section Quiesce.
Context `{UU : UuidLib, SJ : !SerdeJson, TS : !TokioSync}.
Context (canonicalize : string -> result FsError string) (is_dir : string -> bool).

#[local] Notation quiesce_sessions := (quiesce_sessions canonicalize is_dir).
#[local] Notation quiesce_for_upgrade := (quiesce_for_upgrade canonicalize is_dir).
#[local] Notation release_quiesced := (release_quiesced canonicalize is_dir).

Definition owned (w : Host) (id : string) : option RuntimeHandle :=
  sv_sessions (ho_supervisor w) !! id.

(** A runtime of the table that takes no operation. *)
Definition held (w : Host) (id : string) : Prop :=
  exists h, owned w id = Some h /\ rt_upgrade_quiesced (rh_runtime h) = true
            /\ rt_operations (rh_runtime h) = ∅.

Lemma owned_put w id h id' :
  owned (put_handle w id h) id' = if String.eqb id id' then Some h else owned w id'.
Proof.
  unfold owned, put_handle, on_supervisor, put_sessions. cbn.
  destruct (String.eqb_spec id id') as [->|Hne]; [by rewrite lookup_insert_eq|by rewrite lookup_insert_ne].
Qed.

Lemma quiesce_command h e h' answer :
  set_upgrade_quiesced canonicalize is_dir h true e = (h', answer) ->
  (answer = Ok tt ->
     rt_upgrade_quiesced (rh_runtime h') = true /\ rt_operations (rh_runtime h') = ∅)
  /\ (rt_upgrade_quiesced (rh_runtime h) = true -> rt_operations (rh_runtime h) = ∅ ->
      rt_upgrade_quiesced (rh_runtime h') = true /\ rt_operations (rh_runtime h') = ∅).
Proof.
  unfold set_upgrade_quiesced, command. destruct (_ || _); [by intros [= <- <-]|].
  destruct (ce_stops e); [by intros [= <- <-]|]. cbn [handle_command].
  unfold active_operations. destruct (Z.eqb_spec (Z.of_nat (size (rt_operations (rh_runtime h)))) 0) as [Hz|Hz];
    cbn; intros [= <- <-]; cbn; [|done].
  assert (rt_operations (rh_runtime h) = ∅) by (apply map_size_empty_inv; lia). done.
Qed.

(** What is let go is let go; nothing else changes. *)
Lemma release_command h e h' answer :
  set_upgrade_quiesced canonicalize is_dir h false e = (h', answer) ->
  rt_alive (rh_runtime h) = true -> rh_join h = None -> ce_stops e = false ->
  rt_upgrade_quiesced (rh_runtime h') = false /\ answer = Ok tt.
Proof.
  unfold set_upgrade_quiesced, command, is_finished. intros Hc Ha Hj He. rewrite Ha, Hj, He in Hc.
  cbn in Hc. by injection Hc as <- <-.
Qed.

Lemma fence_put w id h :
  sv_upgrade_fenced (ho_supervisor (put_handle w id h)) = sv_upgrade_fenced (ho_supervisor w).
Proof. done. Qed.

Lemma quiesce_sessions_spec planned : forall w quiesced e release w' answer,
  quiesce_sessions w planned quiesced e release = (w', answer) ->
  (forall id, id ∈ quiesced -> held w id) ->
  match answer with
  | Ok _ =>
      (forall id, id ∈ quiesced -> held w' id)
      /\ (forall p, p ∈ planned -> held w' (up_session_id p))
      /\ sv_upgrade_fenced (ho_supervisor w') = sv_upgrade_fenced (ho_supervisor w)
  | Err _ =>
      (sv_upgrade_fenced (ho_supervisor w') = sv_upgrade_fenced (ho_supervisor w)
       /\ (forall id, id ∈ quiesced -> held w' id)
       /\ exists before p after, planned = before ++ p :: after /\ owned w (up_session_id p) = None
            /\ forall q, q ∈ before -> held w' (up_session_id q))
      \/ exists w1 ids before p after, planned = before ++ p :: after
           /\ (forall q, q ∈ before -> up_session_id q ∈ ids) /\ (forall id, id ∈ quiesced -> id ∈ ids)
           /\ w' = clear_upgrade_fence (release_quiesced w1 ids release)
  end.
Proof.
  induction planned as [|p rest IH]; intros w quiesced e release w' answer Hq Hheld;
    cbn [Supervisor.quiesce_sessions] in Hq.
  { injection Hq as <- <-. split; [done|]. split; [|done]. by intros p []%elem_of_nil. }
  fold (owned w (up_session_id p)) in Hq. destruct (owned w (up_session_id p)) as [h|] eqn:Eh.
  2: { injection Hq as <- <-. left. split; [done|]. split; [done|]. exists [], p, rest.
       split; [done|]. split; [done|]. by intros q []%elem_of_nil. }
  destruct (set_upgrade_quiesced _ _ h true _) as [h' answer1] eqn:Ec.
  apply quiesce_command in Ec as [Hok Hkeep].
  assert (forall id, id ∈ quiesced -> held (put_handle w (up_session_id p) h') id) as Hheld'.
  { intros id Hid. destruct (Hheld id Hid) as (h0 & Ho & H1 & H2). unfold held. rewrite owned_put.
    destruct (String.eqb_spec (up_session_id p) id) as [<-|]; [|by exists h0].
    rewrite Eh in Ho. injection Ho as <-. exists h'. split; [done|]. by apply Hkeep. }
  destruct answer1 as [[]|error].
  - destruct (Hok eq_refl) as [Hq1 Hq2].
    specialize (IH _ _ _ _ _ _ Hq). destruct answer as [[]|error]; cbn [fst snd] in IH.
    + destruct IH as (H1 & H2 & H3).
      { intros id [->|Hid]%elem_of_cons; [|by apply Hheld']. unfold held. rewrite owned_put, String.eqb_refl.
        by exists h'. }
      split; [intros id Hid; apply H1; by right|]. split; [|done].
      intros q [->|Hin]%elem_of_cons; [apply H1; by left|by apply H2].
    + destruct IH as [(H1 & H2 & before & q & after & -> & Hn & Hb)|
        (w1 & ids & before & q & after & -> & Hb & Hids & ->)].
      { intros id [->|Hid]%elem_of_cons; [|by apply Hheld']. unfold held. rewrite owned_put, String.eqb_refl.
        by exists h'. }
      * left. split; [done|]. split; [intros id Hid; apply H2; by right|].
        exists (p :: before), q, after. split; [done|]. split.
        { rewrite owned_put in Hn. by destruct (up_session_id p =? up_session_id q)%string. }
        intros x [->|Hx]%elem_of_cons; [apply H2; by left|by apply Hb].
      * right. exists w1, ids, (p :: before), q, after. split; [done|]. split; [|split; [|done]].
        { intros x [->|Hx]%elem_of_cons; [apply Hids; by left|by apply Hb]. }
        intros id Hid. apply Hids. by right.
  - injection Hq as <- <-. right. eexists _, quiesced, [], p, rest. split; [done|].
    split; [by intros q []%elem_of_nil|]. by split.
Qed.

(** A runtime that is let go takes operations again. *)
Definition let_go (w : Host) (id : string) : Prop :=
  forall h, owned w id = Some h -> rt_alive (rh_runtime h) = true -> rh_join h = None ->
    rt_upgrade_quiesced (rh_runtime h) = false.

Lemma release_one h e :
  ce_stops e = false ->
  let h' := fst (set_upgrade_quiesced canonicalize is_dir h false e) in
  rt_alive (rh_runtime h') = true -> rh_join h' = None -> rt_upgrade_quiesced (rh_runtime h') = false.
Proof.
  intros He h' Ha Hj. destruct (set_upgrade_quiesced _ _ h false e) as [h1 answer] eqn:Ec.
  subst h'. cbn in Ha, Hj |- *.
  assert (rt_alive (rh_runtime h) = true /\ rh_join h = None) as [Ha' Hj'].
  { revert Ec. unfold set_upgrade_quiesced, command, is_finished.
    destruct (rh_join h) as [o|] eqn:Ej; cbn; [by intros [= <- <-]; rewrite Ej in Hj|].
    destruct (rt_alive (rh_runtime h)) eqn:Ea; cbn; [done|]. intros [= <- <-]. by rewrite Ea in Ha. }
  by apply release_command in Ec as [? _].
Qed.

Lemma release_spec ids : forall w release,
  (forall id, ce_stops (release id) = false) ->
  (forall id, let_go w id \/ id ∈ ids -> let_go (release_quiesced w ids release) id).
Proof.
  induction ids as [|i rest IH]; intros w release Hr id Hid; cbn [Supervisor.release_quiesced].
  { destruct Hid as [|Hid]; [done|by apply elem_of_nil in Hid]. }
  fold (owned w i). destruct (owned w i) as [h|] eqn:Eh.
  - apply IH; [done|]. destruct (String.eqb_spec i id) as [->|Hne].
    + left. intros h' Ho Ha Hj. rewrite owned_put, String.eqb_refl in Ho. injection Ho as <-.
      by apply release_one.
    + destruct Hid as [Hid|[->|Hid]%elem_of_cons]; [left|done|by right].
      intros h' Ho. rewrite owned_put in Ho. apply String.eqb_neq in Hne. rewrite Hne in Ho.
      by apply Hid.
  - apply IH; [done|]. destruct Hid as [Hid|[->|Hid]%elem_of_cons]; [by left| |by right].
    left. intros h' Ho. congruence.
Qed.

(** Quiescing either holds every planned session, with none of its operations in flight and
    the fence up; or a session is busy, and then the fence is down and every one that was
    held is let go; or one has vanished, and then the fence stays up. *)
Theorem quiesce_outcome w plan e release w' answer :
  quiesce_for_upgrade w plan e release = (w', answer) ->
  match answer with
  | Ok _ =>
      sv_upgrade_fenced (ho_supervisor w') = true
      /\ forall p, p ∈ pl_sessions plan -> held w' (up_session_id p)
  | Err _ =>
      (sv_upgrade_fenced (ho_supervisor w) = false /\ w' = w)
      \/ (sv_upgrade_fenced (ho_supervisor w') = true
          /\ exists p, p ∈ pl_sessions plan /\ owned w (up_session_id p) = None)
      \/ (sv_upgrade_fenced (ho_supervisor w') = false
          /\ exists before p after, pl_sessions plan = before ++ p :: after
               /\ ((forall id, ce_stops (release id) = false) ->
                   forall q, q ∈ before -> let_go w' (up_session_id q)))
  end.
Proof.
  unfold Supervisor.quiesce_for_upgrade. destruct (sv_upgrade_fenced (ho_supervisor w)) eqn:Ef.
  2: { intros [= <- <-]. by left. }
  intros Hq. apply quiesce_sessions_spec in Hq; [|by intros id []%elem_of_nil].
  destruct answer as [[]|error].
  - destruct Hq as (_ & Hall & Hf). by rewrite Hf.
  - destruct Hq as [(Hf & _ & before & p & after & Hp & Hn & _)|
      (w1 & ids & before & p & after & Hp & Hb & _ & ->)].
    + right. left. rewrite Hf. split; [done|]. exists p. rewrite Hp. split; [set_solver|done].
    + right. right. split; [done|]. exists before, p, after. split; [done|]. intros Hr q Hin.
      change (let_go (release_quiesced w1 ids release) (up_session_id q)).
      apply release_spec; [done|]. right. by apply Hb.
Qed.

(** ** A session that vanished *)

Definition idle (h : RuntimeHandle) : Prop :=
  rh_join h = None /\ rt_alive (rh_runtime h) = true /\ rt_operations (rh_runtime h) = ∅.

Lemma quiesce_idle h e :
  idle h -> ce_stops e = false ->
  exists h', set_upgrade_quiesced canonicalize is_dir h true e = (h', Ok tt) /\ idle h'
             /\ rt_upgrade_quiesced (rh_runtime h') = true.
Proof.
  intros (Hj & Ha & Ho) He. unfold set_upgrade_quiesced, command, is_finished.
  rewrite Hj, Ha, He. cbn. unfold active_operations. rewrite Ho, map_size_empty. cbn.
  eexists. split; [done|]. done.
Qed.

Lemma quiesce_prefix before : forall w rest quiesced e release,
  (forall q, q ∈ before -> exists h, owned w (up_session_id q) = Some h /\ idle h) ->
  (forall id, ce_stops (e id) = false) ->
  exists w1 quiesced',
    quiesce_sessions w (before ++ rest) quiesced e release = quiesce_sessions w1 rest quiesced' e release
    /\ (forall id, owned w id = None -> owned w1 id = None)
    /\ (forall id h, owned w id = Some h -> idle h ->
          exists h', owned w1 id = Some h' /\ idle h'
            /\ (rt_upgrade_quiesced (rh_runtime h) = true -> rt_upgrade_quiesced (rh_runtime h') = true))
    /\ (forall q, q ∈ before -> held w1 (up_session_id q))
    /\ sv_upgrade_fenced (ho_supervisor w1) = sv_upgrade_fenced (ho_supervisor w).
Proof.
  induction before as [|p before IH]; intros w rest quiesced e release Hidle He.
  { exists w, quiesced. split; [done|]. split; [done|]. split; [by eauto|]. split; [|done].
    by intros q []%elem_of_nil. }
  cbn [app Supervisor.quiesce_sessions]. destruct (Hidle p) as (h & Ho & Hi); [by left|].
  fold (owned w (up_session_id p)). rewrite Ho.
  destruct (quiesce_idle h (e (up_session_id p)) Hi (He _)) as (h' & -> & Hi' & Hq').
  destruct (IH (put_handle w (up_session_id p) h') rest (up_session_id p :: quiesced) e release)
    as (w1 & q1 & -> & Hnone & Hsome & Hheld & Hf); [|done|].
  { intros q Hq. rewrite owned_put. destruct (up_session_id p =? up_session_id q)%string; [by exists h'|].
    apply Hidle. by right. }
  exists w1, q1. split; [done|]. split; [|split; [|split; [|done]]].
  - intros id Hid. apply Hnone. rewrite owned_put.
    destruct (String.eqb_spec (up_session_id p) id) as [<-|]; [congruence|done].
  - intros id h0 Hid Hi0. destruct (String.eqb_spec (up_session_id p) id) as [<-|Hne].
    + destruct (Hsome (up_session_id p) h') as (h1 & ? & ? & ?); [by rewrite owned_put, String.eqb_refl|done|].
      exists h1. eauto.
    + apply Hsome; [|done]. rewrite owned_put. by apply String.eqb_neq in Hne as ->.
  - intros q [->|Hq]%elem_of_cons; [|by apply Hheld].
    destruct (Hsome (up_session_id p) h') as (h1 & ? & (_ & _ & ?) & ?);
      [by rewrite owned_put, String.eqb_refl|done|]. exists h1. eauto.
Qed.

(** When a planned session has left the table since the plan was made, quiescing ends there:
    the fence stays up, the sessions before it stay held, every later transition and every
    other upgrade is refused. *)
Theorem vanished_session_keeps_fence w plan e release w' answer before p after :
  sv_upgrade_fenced (ho_supervisor w) = true ->
  pl_sessions plan = before ++ p :: after -> owned w (up_session_id p) = None ->
  (forall q, q ∈ before -> exists h, owned w (up_session_id q) = Some h /\ idle h) ->
  (forall id, ce_stops (e id) = false) ->
  quiesce_for_upgrade w plan e release = (w', answer) ->
  answer = Err "session disappeared before upgrade quiesce"%string
  /\ sv_upgrade_fenced (ho_supervisor w') = true
  /\ (forall q, q ∈ before -> held w' (up_session_id q))
  /\ (forall A m (body : Host -> Host * result string A), exists error,
        transition canonicalize is_dir w' m body = (w', Err error))
  /\ forall version protocol schema available options expected x,
       exists error, prepare_upgrade_plan canonicalize is_dir w' version protocol schema available
                       options expected x = (w', Err error).
Proof.
  intros Hf Hplan Hn Hidle He. unfold Supervisor.quiesce_for_upgrade. rewrite Hf, Hplan.
  destruct (quiesce_prefix before w (p :: after) [] e release Hidle He)
    as (w1 & q1 & -> & Hnone & _ & Hheld & Hf1).
  cbn [Supervisor.quiesce_sessions]. specialize (Hnone _ Hn). unfold owned in Hnone. rewrite Hnone.
  intros [= <- <-]. rewrite Hf in Hf1. split; [done|]. split; [done|]. split; [done|].
  split; [intros A m body|intros version protocol schema available options expected x].
  - unfold transition, ensure_mutations_allowed. rewrite Hf1. by eexists.
  - unfold prepare_upgrade_plan. rewrite Hf1. by eexists.
Qed.
End Quiesce.

(** * Starting *)

Section Starting.
Context `{UU : UuidLib, SJ : !SerdeJson, TS : !TokioSync}.
Context (canonicalize : string -> result FsError string) (is_dir : string -> bool).

#[local] Notation start_resolved := (start_resolved canonicalize is_dir).
#[local] Notation admission := (admission canonicalize is_dir).
#[local] Notation launch := (launch canonicalize is_dir).

(** What a start that was admitted has found. *)
Lemma admit_spec w id cwd mode logical e cwd' logical' :
  admission w id cwd mode logical e = Ok (cwd', logical') ->
  sv_closed (ho_supervisor w) = false /\ owned w id = None
  /\ Z.of_nat (size (sv_sessions (ho_supervisor w))) < sv_max_sessions (ho_supervisor w)
  /\ start_logical_path canonicalize is_dir (sv_roots (ho_supervisor w)) (files_of w id) id cwd mode
       logical e = Ok logical'
  /\ ad_admission e = Ok cwd'
  /\ forall path, logical' = Some path -> exists target,
       resolve canonicalize is_dir (sv_roots (ho_supervisor w)) path = Ok target
       /\ components target = components cwd'.
Proof.
  unfold Supervisor.admission, check_capacity. intros Ha.
  apply bind_Ok in Ha as ([] & Hcap & Ha). apply bind_Ok in Ha as (active & _ & Ha).
  apply bind_Ok in Ha as ([] & _ & Ha). apply bind_Ok in Ha as (l & Hl & Ha).
  apply bind_Ok in Ha as (c & Hc & Ha). apply bind_Ok in Ha as ([] & Hchk & [= <- <-]).
  apply bind_Ok in Hcap as ([] & H1%ensure_Ok%negb_true_iff & Hcap).
  apply bind_Ok in Hcap as ([] & H2%ensure_Ok & H3%ensure_Ok%Z.ltb_lt).
  assert (owned w id = None) as Ho.
  { unfold owned. by destruct (sv_sessions (ho_supervisor w) !! id). }
  do 5 (split; [done|]). intros path ->. unfold check_admitted in Hchk.
  apply bind_Ok in Hchk as (target & Ht & He%ensure_Ok). exists target. split; [done|].
  by apply path_eqb_eq in He.
Qed.

(** The entry a start adds to the tables, and what it leaves alone. *)
Lemma launch_spec w id cwd mode logical environment public e w' answer :
  launch w id cwd mode logical environment public e = (w', answer) ->
  (forall id', id' <> id -> files_of w' id' = files_of w id')
  /\ match answer with
     | Err _ => ho_supervisor w' = ho_supervisor w
     | Ok info => exists h s, rh_session h = s /\ rh_join h = None
         /\ spawn_runtime_inner canonicalize is_dir (files_of w id) cwd (Some id) mode logical
              environment (ad_start e) = (files_of w' id, Ok s)
         /\ info = mkManagedInfo id (s_cwd s) mode
         /\ ho_supervisor w' = mkSupervisor (sv_roots (ho_supervisor w)) (sv_broker (ho_supervisor w))
              (<[id := h]> (sv_sessions (ho_supervisor w)))
              (<[id := mkRestartSpec cwd mode logical environment public]>
                 (sv_restart_specs (ho_supervisor w)))
              (if public then {[id]} ∪ sv_public_sessions (ho_supervisor w)
               else sv_public_sessions (ho_supervisor w))
              (sv_closed (ho_supervisor w)) (sv_upgrade_fenced (ho_supervisor w))
              (sv_max_sessions (ho_supervisor w))
     end.
Proof.
  unfold Supervisor.launch. destruct (spawn_runtime_inner _ _ _ _ _ _ _ _ _) as [st [s|error]] eqn:Es.
  - intros [= <- <-]. split.
    + intros id' Hne. unfold files_of, put_handle, put_files, on_supervisor.
      destruct public; cbn; by rewrite lookup_insert_ne by done.
    + eexists (mkHandle s _ None), s. split; [done|]. split; [done|]. split.
      { f_equal. unfold files_of, put_handle, put_files, on_supervisor.
        destruct public; cbn; by rewrite lookup_insert_eq. }
      split; [done|]. destruct public; cbn; done.
  - intros [= <- <-]. split; [|done]. intros id' Hne. unfold files_of, put_files. cbn.
    by rewrite lookup_insert_ne by done.
Qed.

Lemma start_resolved_err w id cwd mode logical environment public e w' error :
  start_resolved w id cwd mode logical environment public e = (w', Err error) ->
  ho_supervisor w' = ho_supervisor w /\ (forall id', id' <> id -> files_of w' id' = files_of w id')
  /\ (owned w id <> None -> w' = w).
Proof.
  unfold Supervisor.start_resolved. destruct (admission _ _ _ _ _ _) as [[c l]|] eqn:Ha;
    [|by intros [= <- <-]].
  intros (Hf & Hs)%launch_spec. split; [done|]. split; [done|]. intros Ho.
  by apply admit_spec in Ha as (_ & Hn & _).
Qed.

Lemma start_resolved_ok w id cwd mode logical environment public e w' info :
  start_resolved w id cwd mode logical environment public e = (w', Ok info) ->
  exists cwd' logical', admission w id cwd mode logical e = Ok (cwd', logical')
    /\ launch w id cwd' mode logical' environment public e = (w', Ok info).
Proof.
  unfold Supervisor.start_resolved. destruct (admission _ _ _ _ _ _) as [[c l]|]; [|done].
  intros Hl. by exists c, l.
Qed.

(** The logical path of a start: the stored one, or the one that was asked for. *)
Lemma start_logical_path_spec roots st id cwd mode logical e logical' :
  start_logical_path canonicalize is_dir roots st id cwd mode logical e = Ok logical' ->
  match st_session st with
  | Some s => components (s_cwd s) = components cwd
      /\ (logical' = None \/ logical' = logical)
  | None => logical' = logical /\ (is_yolo mode = false -> logical <> None)
  end.
Proof.
  unfold start_logical_path. intros H. apply bind_Ok in H as (existing & He & H).
  unfold existing_metadata in He. destruct (ad_inspect e); [done|].
  destruct (st_session st) as [s|] eqn:Es.
  - apply bind_Ok in He as (s' & Hs'%ok_or_Ok & [= <-]).
    assert (s' = s) as ->.
    { unfold read_session_metadata in Hs'. rewrite Es in Hs'. cbn in Hs'.
      destruct (is_ok _); [|done]. by injection Hs' as <-. }
    apply bind_Ok in H as (stored & Hstored & H). apply bind_Ok in H as ([] & _ & H).
    destruct (path_eqb (s_cwd s) cwd) eqn:Ep; [|done]. apply path_eqb_eq in Ep. split; [done|].
    apply bind_Ok in H as (lifecycle & _ & H).
    destruct (l ← lifecycle; lc_logical_path l) as [path|]; [|injection H as <-; by left].
    apply bind_Ok in H as (resolved & Hr & H). apply bind_Ok in H as ([] & _ & [= <-]). right.
    destruct (bool_decide (logical = Some path)) eqn:Eb; [|done]. by apply bool_decide_eq_true in Eb.
  - injection He as <-. destruct (is_yolo mode) eqn:Ey; [injection H as <-; by split|].
    apply bind_Ok in H as ([] & _ & H). apply bind_Ok in H as (path & Hp%ok_or_Ok & H).
    apply bind_Ok in H as (resolved & _ & H). apply bind_Ok in H as ([] & _ & [= <-]).
    by rewrite Hp.
Qed.

Lemma absolute_components p q :
  components p = components q -> is_absolute p = true -> is_absolute q = true.
Proof.
  intros Hc Hp. rewrite (components_absolute _ Hp) in Hc. unfold is_absolute.
  destruct (starts_with "/" q) eqn:E; [done|]. exfalso. unfold components in Hc. rewrite E in Hc.
  assert (RootDir ∈ map component_of (List.filter
    (fun p => negb (String.eqb p EmptyString) && negb (String.eqb p ".")) (split_on "/" q))) as Hin.
  { destruct (split_on "/" q) as [|x l]; [done|]. destruct (x =? ".")%string; [done|].
    cbn [app] in Hc. rewrite <- Hc. by left. }
  apply elem_of_map_inv in Hin as (x & _ & Hx). unfold component_of in Hx. by destruct (x =? "..")%string.
Qed.

(** A directory with the components of a canonical one canonicalizes to that one. *)
Lemma canonical_same `{FL : !FsLaws canonicalize is_dir} p t cwd d :
  canonicalize p = Ok t -> is_dir t = true -> components t = components cwd ->
  canonical_directory canonicalize is_dir cwd = Ok d -> d = t.
Proof.
  intros Hp Hd Hc Hcd. destruct (canonical_normal _ _ Hp) as [Ha _].
  assert (canonicalize cwd = Ok t) as E.
  { apply (canonical_again p t cwd); [done|done| |done]. by apply (absolute_components t). }
  unfold canonical_directory in Hcd. rewrite E in Hcd. cbn in Hcd. rewrite Hd in Hcd. by injection Hcd.
Qed.

(** C14: a start that is let in: the supervisor is open, manages no session of that name and has
    room for it; the session runs in the mode that was asked for; and a session that is new
    and not in yolo mode runs in a directory below the configured root that its logical
    path names. *)
Theorem normal_start_confined `{FL : !FsLaws canonicalize is_dir}
    w id cwd mode logical environment public e w' info :
  start_resolved w id cwd mode logical environment public e = (w', Ok info) ->
  sv_closed (ho_supervisor w) = false /\ owned w id = None
  /\ Z.of_nat (size (sv_sessions (ho_supervisor w))) < sv_max_sessions (ho_supervisor w)
  /\ (exists h, owned w' id = Some h /\ s_id (rh_session h) = id
        /\ s_cwd (rh_session h) = mi_cwd info /\ s_permission_mode (rh_session h) = mode
        /\ st_session (files_of w' id) = Some (rh_session h))
  /\ (st_session (files_of w id) = None -> mode <> Yolo ->
        exists path name root, logical = Some path
          /\ hd_error (components path) = Some (Normal name)
          /\ canonical_root (sv_roots (ho_supervisor w)) name = Some root
          /\ path_starts_with (mi_cwd info) root = true).
Proof.
  intros (cwd' & logical' & Ha & Hl)%start_resolved_ok.
  apply admit_spec in Ha as (H1 & H2 & H3 & Hlog & _ & Hres).
  apply launch_spec in Hl as (_ & h & s & Hh & _ & Hspawn & -> & Hsv).
  pose proof (start_facts _ _ _ _ _ _ _ _ _ _ _ Hspawn) as (Hsess & _ & _ & Hid & Hm & _ & Hcd & _).
  split; [done|]. split; [done|]. split; [done|]. split.
  { exists h. unfold owned. rewrite Hsv, Hh. cbn. by rewrite lookup_insert_eq. }
  intros Hnew Hy. assert (is_yolo mode = false) as Hy' by (by destruct mode). apply start_logical_path_spec in Hlog. rewrite Hnew in Hlog.
  destruct Hlog as [-> Hsome]. specialize (Hsome Hy'). destruct logical as [path|]; [|done].
  destruct (Hres path eq_refl) as (target & Ht & Hcomp).
  pose proof (resolve_root _ _ _ _ _ Ht) as (name & root & Hn & Hr & Hd & Hp).
  apply resolve_spec in Ht as (n & r & rest & below & _ & _ & Hcan & _).
  apply (canonical_same _ _ _ _ Hcan Hd Hcomp) in Hcd.
  exists path, name, root. cbn. by rewrite Hcd.
Qed.

(** Starting a session for the local user leaves the set of public sessions as it was: when
    the name is still in it, from a public session that crashed, a request that is limited
    to public sessions is carried out on the new one as any other. *)
Lemma public_flag_survives w id cwd mode logical environment e w' info stop :
  start_resolved w id cwd mode logical environment false e = (w', Ok info) ->
  id ∈ sv_public_sessions (ho_supervisor w) ->
  (exists spec, sv_restart_specs (ho_supervisor w') !! id = Some spec /\ rx_public spec = false)
  /\ stop_owned_validated canonicalize is_dir w' id true stop
     = stop_owned_validated canonicalize is_dir w' id false stop.
Proof.
  intros (cwd' & logical' & _ & Hl)%start_resolved_ok Hin.
  apply launch_spec in Hl as (_ & h & s & _ & _ & _ & _ & Hsv). split.
  - eexists. rewrite Hsv. cbn. by rewrite lookup_insert_eq.
  - unfold stop_owned_validated. rewrite Hsv. cbn. by rewrite bool_decide_eq_true_2.
Qed.

(** * A restart that was claimed *)

(** The last part of an attempt reads the tables again only through what a start checks:
    when the session is neither managed nor out of room, it starts. *)
Lemma finish_restart_starts w id spec e s w' info :
  read_session_metadata canonicalize is_dir (files_of w id) id = Some s ->
  xe_cleanup e = Ok tt ->
  start_resolved w id (rx_cwd spec) (rx_permission_mode spec) (rx_logical_path spec)
    (rx_environment spec) (rx_public spec) (xe_admission e) = (w', Ok info) ->
  finish_restart canonicalize is_dir w id spec e = w'.
Proof. unfold finish_restart. by intros -> -> ->. Qed.

Lemma cancel_restart_ok w id e w' :
  cancel_restart canonicalize is_dir w id e = (w', Ok tt) ->
  sv_sessions (ho_supervisor w') = sv_sessions (ho_supervisor w)
  /\ sv_restart_specs (ho_supervisor w') !! id = None
  /\ id ∉ sv_public_sessions (ho_supervisor w')
  /\ st_session (files_of w' id) = st_session (files_of w id)
  /\ is_Some (read_session_metadata canonicalize is_dir (files_of w' id) id)
  /\ forall l, st_lifecycle (files_of w id) = Some l -> pe_read e = None ->
       exists l', st_lifecycle (files_of w' id) = Some l' /\ lc_status l' = LsStopped
                  /\ lc_next_restart_at l' = None.
Proof.
  unfold cancel_restart. set (wd := drop_spec w id).
  assert (files_of wd id = files_of w id) as Hfd by done.
  assert (sv_restart_specs (ho_supervisor wd) !! id = None) as Hspec
    by apply lookup_delete_eq.
  assert (id ∉ sv_public_sessions (ho_supervisor wd)) as Hpub by (cbn; set_solver).
  rewrite Hfd. destruct (read_session_metadata _ _ _ _) as [s|] eqn:Es; [|done].
  destruct (pe_release_before e); [|done].
  destruct (read_lifecycle _ _) as [[l|]|] eqn:El; [| |done].
  - unfold save_session_lifecycle. destruct (pe_save e); [done|]. intros [= <- _].
    unfold files_of, put_files in *. cbn. rewrite lookup_insert_eq. cbn.
    do 4 (split; [done|]). split; [by exists s|]. intros l0 Hl0 Hr. by eexists.
  - intros [= <- _]. rewrite Hfd. do 4 (split; [done|]). split; [by exists s|].
    intros l Hl Hr. unfold read_lifecycle in El. rewrite Hr, Hl in El. done.
Qed.

(** Stopping a session whose restart was claimed a moment ago cancels the pending restart:
    its entries leave the tables and its record says stopped.  The attempt goes on with what
    it copied, and starts the session. *)
Theorem stopped_session_restarts w id now spec e public stop w1 w2 w3 info :
  claim_restart w id now e = Some w1 ->
  stop_owned_validated canonicalize is_dir w1 id public stop = (w2, Ok tt) ->
  xe_cleanup e = Ok tt -> pe_read stop = None ->
  start_resolved w2 id (rx_cwd spec) (rx_permission_mode spec) (rx_logical_path spec)
    (rx_environment spec) (rx_public spec) (xe_admission e) = (w3, Ok info) ->
  owned w2 id = None /\ sv_restart_specs (ho_supervisor w2) !! id = None
  /\ (exists l, st_lifecycle (files_of w2 id) = Some l /\ lc_status l = LsStopped
                /\ lc_next_restart_at l = None)
  /\ finish_restart canonicalize is_dir w2 id spec e = w3
  /\ (exists h, owned w3 id = Some h) /\ is_Some (sv_restart_specs (ho_supervisor w3) !! id)
  /\ exists l, st_lifecycle (files_of w3 id) = Some l /\ lc_status l = LsActive.
Proof.
  intros Hclaim Hstop Hclean Hread Hstart.
  assert (sv_sessions (ho_supervisor w1) !! id = None
          /\ exists l, st_lifecycle (files_of w1 id) = Some l) as [Hnone [l1 Hl1]].
  { unfold claim_restart in Hclaim. destruct (sv_sessions (ho_supervisor w) !! id) eqn:E; [done|].
    cbn in Hclaim. destruct (read_lifecycle _ _) as [[l|]|]; try done. destruct (restart_due _ _); [|done].
    unfold save_session_lifecycle in Hclaim. destruct (xe_save e); [done|]. injection Hclaim as <-.
    split; [done|]. unfold files_of, put_files. cbn. rewrite lookup_insert_eq. by eexists. }
  unfold stop_owned_validated in Hstop. rewrite Hnone in Hstop.
  destruct (public && _); [done|]. destruct (pe_active stop) as [[]|]; [done| |done].
  destruct (is_some _); [|done].
  apply cancel_restart_ok in Hstop as (Hs & Hsp & _ & _ & [s Hmeta] & Hl).
  unfold owned at 1. rewrite Hs. split; [done|]. split; [done|]. split; [by apply (Hl l1)|].
  split; [by eapply finish_restart_starts|].
  apply start_resolved_ok in Hstart as (cwd' & logical' & _ & Hlaunch).
  apply launch_spec in Hlaunch as (_ & h & s3 & _ & _ & Hspawn & _ & Hsv).
  pose proof (start_facts _ _ _ _ _ _ _ _ _ _ _ Hspawn) as (_ & _ & (l & Hlc & Hact & _) & _).
  unfold owned. rewrite Hsv. cbn. rewrite !lookup_insert_eq. split; [by exists h|].
  split; [by eexists|]. by exists l.
Qed.
End Starting.

(** * Restoring a plan *)

Section Restoring.
Context `{UU : UuidLib, SJ : !SerdeJson, TS : !TokioSync}.
Context (canonicalize : string -> result FsError string) (is_dir : string -> bool).

#[local] Notation restore_sessions := (restore_sessions canonicalize is_dir).
#[local] Notation verify_restored := (verify_restored canonicalize is_dir).

(** What the tables hold for one session. *)
Definition entries (w : Host) (id : string) : option RuntimeHandle * option RestartSpec * bool :=
  (owned w id, sv_restart_specs (ho_supervisor w) !! id,
   bool_decide (id ∈ sv_public_sessions (ho_supervisor w))).

(** The sessions [ids] were started on top of [w0]; nothing else changed. *)
Record restored_on (w0 w : Host) (ids : list string) : Prop := mkRestoredOn {
  ro_nodup : NoDup ids;
  ro_fresh : forall id, id ∈ ids -> owned w0 id = None;
  ro_started : forall id, id ∈ ids -> exists h, owned w id = Some h
                 /\ st_session (files_of w id) = Some (rh_session h);
  ro_others : forall id, id ∉ ids -> entries w id = entries w0 id;
}.

Lemma restored_launch w0 w ids id cwd mode logical environment public e w' info :
  restored_on w0 w ids ->
  start_resolved canonicalize is_dir w id cwd mode logical environment public e = (w', Ok info) ->
  restored_on w0 w' (id :: ids).
Proof.
  intros [Hn Hf Hs Ho] (cwd' & logical' & Ha & Hl)%start_resolved_ok.
  apply admit_spec in Ha as (_ & Hnone & _).
  apply launch_spec in Hl as (Hfiles & h & s & Hh & _ & Hspawn & _ & Hsv).
  pose proof (start_facts _ _ _ _ _ _ _ _ _ _ _ Hspawn) as (Hsess & _).
  assert (id ∉ ids) as Hid. { intros Hin. destruct (Hs id Hin) as (h' & Hh' & _). congruence. }
  assert (forall k, k <> id -> entries w' k = entries w k) as Hother.
  { intros k Hk. unfold entries, owned. rewrite Hsv. cbn. rewrite !lookup_insert_ne by done.
    f_equal. destruct public; [|done]. apply bool_decide_ext. set_solver. }
  split.
  - by constructor.
  - intros k [->|Hk]%elem_of_cons; [|by apply Hf]. specialize (Ho id Hid).
    unfold entries in Ho. congruence.
  - intros k [->|Hk]%elem_of_cons.
    + exists h. unfold owned. rewrite Hsv, Hh. cbn. by rewrite lookup_insert_eq.
    + assert (k <> id) as Hne by (by intros ->). destruct (Hs k Hk) as (hk & Hok & Hsk). exists hk.
      specialize (Hother k Hne). rewrite Hfiles by done. split; [|done]. unfold entries in Hother. congruence.
  - intros k [Hne Hk]%not_elem_of_cons. by rewrite Hother, Ho.
Qed.

Lemma restored_policy w0 w ids p e w' answer :
  restored_on w0 w ids -> restore_policy w p e = (w', answer) -> restored_on w0 w' ids.
Proof.
  intros [Hn Hf Hs Ho]. unfold restore_policy. destruct (_ =? _)%string; [by intros [= <- _]|].
  destruct (read_lifecycle _ _) as [[l|]|]; [|by intros [= <- _]..].
  destruct (save_session_lifecycle _ _ _) as [st r] eqn:Ef. intros [= <- _]. split; [done|done| |done].
  intros id Hid. destruct (Hs id Hid) as (h & Hh & Hst). exists h. split; [done|]. rewrite <- Hst.
  unfold files_of, put_files. cbn. destruct (decide (up_session_id p = id)) as [<-|Hne];
    [|by rewrite lookup_insert_ne]. rewrite lookup_insert_eq. cbn.
  unfold save_session_lifecycle in Ef. by destruct (re_save e); injection Ef as <- _.
Qed.

(** The loop, whether it reaches the end or not. *)
Lemma restore_sessions_spec available e planned : forall w0 w ids w' answer ids',
  restored_on w0 w ids ->
  restore_sessions w planned available ids e = (w', answer, ids') ->
  restored_on w0 w' ids'
  /\ (answer = Ok tt -> ids' = reverse (up_session_id <$> planned) ++ ids).
Proof.
  induction planned as [|p rest IH]; intros w0 w ids w' answer ids' Hr; cbn [Supervisor.restore_sessions].
  { by intros [= <- <- <-]. }
  match goal with |- context [match ?x with Ok _ => _ | Err _ => _ end] => destruct x as [[environment cwd]|] end;
    [|by intros [= <- <- <-]].
  destruct (start_resolved _ _ _ _ _ _ _ _ _ _) as [w1 [info|error]] eqn:Es.
  - destruct (restore_policy _ _ _) as [w2 [[]|]] eqn:Ep.
    + intros Hrest. apply (IH w0) in Hrest as [H1 H2];
        [|by eapply restored_policy; [eapply restored_launch|]].
      split; [done|]. intros Ha. rewrite H2, fmap_cons, reverse_cons by done. by rewrite <- app_assoc.
    + intros [= <- <- <-]. split; [|done]. by eapply restored_policy; [eapply restored_launch|].
  - intros [= <- <- <-]. split; [|done]. apply start_resolved_err in Es as (Hsv & Hfiles & Hsame).
    destruct Hr as [Hn Hf Hs Ho]. split; [done|done| |].
    + intros id Hid. destruct (Hs id Hid) as (h & Hh & Hst).
      destruct (decide (id = up_session_id p)) as [->|Hne].
      * rewrite Hsame by congruence. by exists h.
      * exists h. unfold owned. rewrite Hsv, Hfiles by done. done.
    + unfold entries, owned. rewrite Hsv. done.
Qed.

(** Cleaning up empties the entries of what was restored, whatever fails. *)
Lemma cleanup_restored_spec e ids : forall w first w' r,
  cleanup_restored_sessions canonicalize is_dir w ids first e = (w', r) ->
  forall id, entries w' id = if decide (id ∈ ids) then (None, None, false) else entries w id.
Proof.
  induction ids as [|x ids IH]; intros w first w' r; cbn [Supervisor.cleanup_restored_sessions].
  { intros [= <- _] id. by rewrite decide_False by apply not_elem_of_nil. }
  match goal with |- (let '(_, _) := ?b in _) = _ -> _ => destruct b as [w1 answer] eqn:E end.
  intros Hc id. rewrite (IH _ _ _ _ Hc).
  assert (ho_supervisor w1 = ho_supervisor (remove_session (drop_spec w x) x)) as Hsv.
  { destruct (sv_sessions (ho_supervisor w) !! x) as [h|].
    - unfold end_handle in E. destruct (shutdown_handle _ _ _). by injection E as <- _.
    - by injection E as <- _. }
  destruct (decide (id ∈ ids)); [by rewrite decide_True by (by right)|].
  destruct (decide (id = x)) as [->|Hne].
  - rewrite decide_True by (by left). unfold entries, owned. rewrite Hsv. cbn.
    rewrite !lookup_delete_eq. f_equal. apply bool_decide_eq_false. set_solver.
  - rewrite decide_False by (by apply not_elem_of_cons). unfold entries, owned. rewrite Hsv. cbn.
    rewrite !lookup_delete_ne by done. f_equal. apply bool_decide_ext. set_solver.
Qed.

(** What the comparison with the plan has found. *)
Lemma verify_restored_ok w p e h :
  st_session (files_of w (up_session_id p)) = Some (rh_session h) ->
  verify_restored w p e = Ok tt ->
  components (s_cwd (rh_session h)) = components (up_cwd p)
  /\ s_permission_mode (rh_session h) = up_permission_mode p
  /\ map components (s_permitted_directories (rh_session h))
     = map components (up_permitted_directories p)
  /\ exists l, st_lifecycle (files_of w (up_session_id p)) = Some l
               /\ lc_restart_policy l = up_restart_policy p.
Proof.
  intros Hst H. unfold Supervisor.verify_restored in H. apply bind_Ok in H as (active & _ & H).
  apply bind_Ok in H as ([] & _ & H). apply bind_Ok in H as (s & Hs%ok_or_Ok & H).
  assert (s = rh_session h) as ->.
  { unfold read_session_metadata in Hs. rewrite Hst in Hs. cbn in Hs. destruct (is_ok _); [|done].
    by injection Hs as <-. }
  apply bind_Ok in H as ([] & Hm%ensure_Ok & H). apply bind_Ok in H as (r & Hr & H).
  apply bind_Ok in H as (l & Hl%ok_or_Ok & He%ensure_Ok%String.eqb_eq).
  apply andb_true_iff in Hm as [[Hc%path_eqb_eq Hp%bool_decide_eq_true]%andb_true_iff Hd].
  unfold directories_eqb in Hd. apply bool_decide_eq_true in Hd.
  split; [done|]. split; [done|]. split; [done|]. exists l. split; [|done].
  unfold read_lifecycle in Hr. destruct (oe_read e); [done|]. injection Hr as <-. by rewrite Hl.
Qed.

(** C13: the new supervisor restores the sessions of a plan as a whole: either every planned
    session runs, with the directory, the mode, the granted directories and the policy of
    the plan, and no other entry of the tables has changed; or no session that was not
    there before runs, and the tables hold no more than they did. *)
Theorem restore_all_or_nothing w version plan available e w' answer :
  restore_upgrade_plan canonicalize is_dir w version plan available e = (w', answer) ->
  match answer with
  | Ok _ =>
      NoDup (up_session_id <$> pl_sessions plan)
      /\ (forall p, p ∈ pl_sessions plan -> exists h l,
            owned w' (up_session_id p) = Some h /\ owned w (up_session_id p) = None
            /\ components (s_cwd (rh_session h)) = components (up_cwd p)
            /\ s_permission_mode (rh_session h) = up_permission_mode p
            /\ map components (s_permitted_directories (rh_session h))
               = map components (up_permitted_directories p)
            /\ st_lifecycle (files_of w' (up_session_id p)) = Some l
            /\ lc_restart_policy l = up_restart_policy p)
      /\ forall id, id ∉ up_session_id <$> pl_sessions plan -> entries w' id = entries w id
  | Err _ =>
      sv_sessions (ho_supervisor w') = sv_sessions (ho_supervisor w)
      /\ forall id, entries w' id = entries w id \/ entries w' id = (None, None, false)
  end.
Proof.
  unfold restore_upgrade_plan, restore_upgrade_plan_inner.
  destruct (ensure _ _ ;! ensure _ _) as [[]|error].
  2: { cbn. intros [= <- <-]. split; [done|]. by left. }
  destruct (restore_sessions _ _ _ _ _) as [[w1 r] ids] eqn:Er.
  apply (restore_sessions_spec _ _ _ w) in Er as [Hr Hids];
    [|by split; [constructor|intros ? []%elem_of_nil|intros ? []%elem_of_nil|]].
  destruct (r ;! _) as [[]|error] eqn:Ev.
  - intros [= <- <-]. apply bind_Ok in Ev as ([] & -> & Hall). specialize (Hids eq_refl).
    rewrite app_nil_r in Hids. destruct Hr as [Hn Hf Hs Ho]. subst ids.
    split; [by rewrite reverse_Permutation in Hn|].
    split.
    + intros p Hp. assert (up_session_id p ∈ reverse (up_session_id <$> pl_sessions plan)) as Hin.
      { apply elem_of_reverse. by apply list_elem_of_fmap_2. }
      destruct (Hs _ Hin) as (h & Hh & Hst).
      pose proof (for_each_Ok _ _ Hall p Hp) as Hv. cbn in Hv.
      destruct (verify_restored_ok _ _ _ _ Hst Hv) as (H1 & H2 & H3 & l & H4 & H5).
      exists h, l. auto 8.
    + intros id Hid. apply Ho. by rewrite elem_of_reverse.
  - destruct (cleanup_restored_sessions _ _ _ _ _ _) as [w2 c] eqn:Ec. intros [= <- <-].
    pose proof (cleanup_restored_spec _ _ _ _ _ _ Ec) as Hc. destruct Hr as [Hn Hf Hs Ho].
    assert (forall id, entries w2 id = entries w id \/ entries w2 id = (None, None, false)) as Hent.
    { intros id. rewrite Hc. destruct (decide (id ∈ ids)); [by right|left; by apply Ho]. }
    split; [|done]. apply map_eq. intros id. specialize (Hc id).
    destruct (decide (id ∈ ids)) as [Hin|Hin].
    + specialize (Hf id Hin). unfold entries, owned in *. congruence.
    + rewrite (Ho id Hin) in Hc. unfold entries, owned in *. congruence.
Qed.
End Restoring.
