(* ===== verification/SupervisorWitness.v ===== *)
(** * A supervisor at work

    Concrete runs of the supervisor: a public session that starts below a configured
    root, is quiesced, crashes, and is stopped while its automatic restart is under way;
    a plan with a session that has left the table; and a plan that is restored. *)

From S2P Require Import Prelude Strings Json Contract Broker BrokerTheorems Config ConfigTheorems.
From S2P Require Import NamedRoots NamedRootsTheorems SessionRuntime SessionRuntimeTheorems SessionStart.
From S2P Require Import SessionStartTheorems Supervisor SupervisorTheorems.

#[local] Open Scope Z_scope.
#[local] Open Scope rust_scope.

Module SupervisorW.
Import JsonModel NamedRootsWitness.
#[local] Existing Instance BrokerWitness.codec2.
#[local] Existing Instance BrokerWitness.tokio_model.
#[local] Existing Instance canon_laws.

(** Equality of computed values. *)
#[local] Ltac by_value := match goal with |- _ = ?v => vm_cast_no_check (eq_refl v) end.

Definition id1 : string := "s1".
Definition web : string := "/srv/app/web".
Definition start0 : StartEnvironment :=
  mkStartEnvironment "fresh" 100 101 7 (Ok tt) (Ok false) None None None None None None.
Definition admitted : AdmissionEnvironment :=
  mkAdmissionEnvironment (Ok false) None None (Ok web) uuid1 start0.
Definition end0 : EndEnvironment := mkEndEnvironment 102 None None.
Definition stop0 : StopEnvironment :=
  mkStopEnvironment (Ok false) (Ok tt) (mkShutdownEnvironment None None (Ok tt) end0) (Ok tt) (Ok tt)
    None 200 None.

Definition started (w : Host) (public : bool) : Host * result string ManagedSessionInfo :=
  start_resolved canon dirs w id1 web Ask (Some "app/web"%string) ∅ public admitted.

Definition w0 : Host := mkHost (supervisor_new host_roots BrokerWitness.broker0) ∅.
Definition w1 : Host := fst (started w0 true).
Definition info : ManagedSessionInfo := mkManagedInfo id1 web Ask.

Lemma first_start : started w0 true = (w1, Ok info).
Proof. by_value. Qed.

Lemma normal_start_confined_witness :
  (exists h, owned w1 id1 = Some h)
  /\ exists root, canonical_root (sv_roots (ho_supervisor w0)) "app" = Some root
       /\ path_starts_with web root = true.
Proof.
  destruct (normal_start_confined canon dirs w0 id1 web Ask (Some "app/web"%string) ∅ true admitted w1
              info first_start) as (_ & _ & _ & (h & Hh & _) & Hin).
  split; [by exists h|].
  destruct Hin as (path & name & root & Hp & Hn & Hr & Hs); [reflexivity|discriminate|].
  injection Hp as <-. vm_compute in Hn. injection Hn as <-. by exists root.
Defined.

(** ** Quiescing *)

Definition plan1 : UpgradeSessionPlan :=
  mkSessionPlan id1 web [web] Ask (Some "app/web"%string) "on-failure" true [].
Definition gone : UpgradeSessionPlan :=
  mkSessionPlan "s2" web [web] Ask (Some "app/web"%string) "never" false [].
Definition plan_of (sessions : list UpgradeSessionPlan) : SupervisorUpgradePlan :=
  mkUpgradePlan 1 "1.0.0" "1.1.0" 1 1 7 150 false sessions.

Definition calm : string -> CommandEnvironment := fun _ => mkCommandEnvironment false None.
Definition fenced : Host := on_supervisor w1 (fun s => put_fence s true).

Definition quiesced (sessions : list UpgradeSessionPlan) : Host * result string unit :=
  quiesce_for_upgrade canon dirs fenced (plan_of sessions) calm calm.

Lemma all_quiesced : quiesced [plan1] = (fst (quiesced [plan1]), Ok tt).
Proof. by_value. Qed.

Lemma quiesce_outcome_witness : held (fst (quiesced [plan1])) id1.
Proof.
  destruct (quiesce_outcome canon dirs fenced (plan_of [plan1]) calm calm _ _ all_quiesced) as [_ H].
  apply (H plan1). by left.
Defined.

Lemma one_gone :
  quiesced [plan1; gone] = (fst (quiesced [plan1; gone]), Err "session disappeared before upgrade quiesce"%string).
Proof. by_value. Qed.

Definition handle1 : RuntimeHandle := default (mkHandle (SessionStartTheorems.StartWitness.instance_at 0)
  (started_runtime (SessionStartTheorems.StartWitness.instance_at 0) None BrokerWitness.broker0) None)
  (owned fenced id1).

Lemma handle1_owned : owned fenced id1 = Some handle1.
Proof. by_value. Qed.
Lemma handle1_idle : idle handle1.
Proof. split; [|split]; by_value. Qed.

Lemma vanished_session_keeps_fence_witness :
  sv_upgrade_fenced (ho_supervisor (fst (quiesced [plan1; gone]))) = true
  /\ held (fst (quiesced [plan1; gone])) id1.
Proof.
  destruct (vanished_session_keeps_fence canon dirs fenced (plan_of [plan1; gone]) calm calm
              (fst (quiesced [plan1; gone])) (Err "session disappeared before upgrade quiesce"%string)
              [plan1] gone [] eq_refl eq_refl eq_refl) as (_ & Hf & Hh & _).
  - intros q Hq. apply list_elem_of_singleton in Hq. subst q. exists handle1.
    split; [exact handle1_owned|exact handle1_idle].
  - intros id. reflexivity.
  - exact one_gone.
  - split; [exact Hf|]. apply (Hh plan1). by left.
Defined.

(** ** A crash, a stop, and the restart *)

Definition on_record (w : Host) (f : SessionLifecycle -> SessionLifecycle) : Host :=
  match st_lifecycle (files_of w id1) with
  | Some l => put_files w id1 (store_lifecycle (files_of w id1) (f l))
  | None => w
  end.
Definition w2 : Host := on_record w1 (fun l => policy_set l "on-failure" true 101).
Definition w3 : Host := runtime_ends w2 id1 (Err "listener lost"%string) end0.
Definition w4 : Host := reap_one w3 id1 (mkReapEnvironment (Ok tt) None (mkRecordEnvironment None 103 None)).
Definition restart0 : RestartEnvironment :=
  mkRestartEnvironment None None (Ok tt) admitted (mkRecordEnvironment None 500 None).
Definition spec1 : RestartSpec := mkRestartSpec web Ask (Some "app/web"%string) ∅ true.

Definition w5 : Host := default w4 (claim_restart w4 id1 500 restart0).
Definition w6 : Host := fst (stop_owned_validated canon dirs w5 id1 true stop0).
Definition w7 : Host := fst (started w6 true).

Lemma claimed : claim_restart w4 id1 500 restart0 = Some w5.
Proof. by_value. Qed.
Lemma was_stopped : stop_owned_validated canon dirs w5 id1 true stop0 = (w6, Ok tt).
Proof. by_value. Qed.
Lemma starts_again : started w6 true = (w7, Ok info).
Proof. by_value. Qed.

Lemma stopped_session_restarts_witness :
  sv_restart_specs (ho_supervisor w6) !! id1 = None /\ exists h, owned w7 id1 = Some h.
Proof.
  destruct (stopped_session_restarts canon dirs w4 id1 500 spec1 restart0 true stop0 w5 w6 w7 info
              claimed was_stopped eq_refl eq_refl starts_again) as (_ & Hs & _ & _ & Hh & _).
  split; [exact Hs|exact Hh].
Defined.

(** A public session crashed; its name is started for the local user. *)
Definition w4_local : Host := fst (started w4 false).
Example local_is_public :
  bool_decide (id1 ∈ sv_public_sessions (ho_supervisor w4_local)) = true
  /\ (rx_public <$> (sv_restart_specs (ho_supervisor w4_local) !! id1)) = Some false.
Proof. split; by_value. Qed.

(** ** Restarts are counted *)

Definition run1 : Session := mkSession id1 web [web] 100 7 Ask no_grants.
Definition fa : SessionStore :=
  fst (spawn_runtime_inner canon dirs no_files web (Some id1) Ask (Some "app/web"%string) ∅ start0).
Definition record_of (st : SessionStore) : SessionLifecycle :=
  default (lifecycle_starting 0 None) (st_lifecycle st).
Definition fb : SessionStore :=
  fst (save_session_lifecycle fa (policy_set (record_of fa) "on-failure" true 101) None).
Definition fc : SessionStore := complete_runtime fb run1 (Err "listener lost"%string) end0.
Definition fd : SessionStore :=
  fst (schedule_restart fc "unexpected runtime failure" (mkRecordEnvironment None 103 None)).
Definition fe : SessionStore := fst (save_session_lifecycle fd (attempted (record_of fd) 500) None).

Lemma restarted_once : restart_history canon dirs id1 no_files fe 1 1.
Proof.
  apply (restarts_attempt canon dirs id1 no_files fd fe 0 1 500 (record_of fd) None); [|by_value..].
  apply restarts_schedule, restarts_end.
  apply (restarts_policy canon dirs id1 no_files fa 0 0 101 (record_of fa)); [|by_value].
  apply restarts_spawn, restarts_none.
Qed.

Lemma automatic_restarts_bounded_witness : lc_restart_count (record_of fe) = 1 /\ 1 <= 6.
Proof.
  split; [reflexivity|].
  exact (automatic_restarts_bounded canon dirs id1 no_files fe 1 1 eq_refl restarted_once).
Defined.

(** ** A plan that is restored *)

Definition host2 : Host :=
  mkHost (supervisor_new host_roots BrokerWitness.broker0)
    {[id1 := complete_runtime (files_of w2 id1) run1 (Ok tt) end0]}.
Definition restore0 (_ : string) : RestoreEnvironment :=
  mkRestoreEnvironment admitted (mkRecordEnvironment None 300 None) (Ok true) None stop0.

Definition restored : Host := fst (restore_upgrade_plan canon dirs host2 "1.1.0" (plan_of [plan1]) ∅ restore0).

Lemma plan_restored :
  restore_upgrade_plan canon dirs host2 "1.1.0" (plan_of [plan1]) ∅ restore0 = (restored, Ok tt).
Proof. by_value. Qed.

(** The second planned session cannot start: the first one does not run either. *)
Definition half : Host := fst (restore_upgrade_plan canon dirs host2 "1.1.0" (plan_of [plan1; plan1]) ∅ restore0).
Lemma half_restored :
  restore_upgrade_plan canon dirs host2 "1.1.0" (plan_of [plan1; plan1]) ∅ restore0
  = (half, Err "session is already managed by this supervisor process"%string).
Proof. by_value. Qed.

Lemma restore_all_or_nothing_witness :
  (exists h, owned restored id1 = Some h) /\ sv_sessions (ho_supervisor half) = ∅.
Proof.
  split.
  - pose proof (restore_all_or_nothing canon dirs host2 "1.1.0" (plan_of [plan1]) ∅ restore0 restored (Ok tt)
                  plan_restored) as (_ & H & _).
    destruct (H plan1) as (h & _ & Hh & _); [by left|]. exists h. exact Hh.
  - exact (proj1 (restore_all_or_nothing canon dirs host2 "1.1.0" (plan_of [plan1; plan1]) ∅ restore0 half
                    (Err _) half_restored)).
Defined.
End SupervisorW.
