(* ===== verification/LinuxPolicy.v ===== *)
(** * The policy of the Linux sandbox (sandbox/linux/policy.rs)

    The closed set of paths that the parent process hands to the sandbox helper: how it
    is computed for a command, for adding a worktree and for a developer tool, and the
    check that both sides make.  What a path resolves to, what is there, and the
    variable [TMPDIR] are arguments. *)

From S2P Require Import Prelude Strings Config NamedRoots.

#[local] Open Scope Z_scope.
#[local] Open Scope rust_scope.

Definition LINUX_SANDBOX_POLICY_VERSION : Z := 1.
Definition MAX_ROOTS : Z := 128.
Definition MAX_READ_ONLY_PATHS : Z := 1024.
Definition PROTECTED_METADATA_NAMES : list string := [".git"; ".agents"; ".codex"]%string.

Inductive LinuxNetworkPolicy := Restricted | LocalAgent.

Record LinuxReadOnlySymlink := mkSymlink {
  sl_link : string;
  sl_target : string;
}.

Record LinuxPinnedWorkspace := mkPinned {
  pw_path : string;
  pw_writable : bool;
  pw_worktree_root : string;
  pw_metadata_roots : list string;
  pw_common_dir : string;
  pw_primary_checkout : string;
}.

Record LinuxSandboxPolicy := mkPolicy {
  lp_version : Z;
  lp_cwd : string;
  lp_writable_roots : list string;
  lp_temporary_roots : list string;
  lp_read_only_paths : list string;
  lp_read_only_roots : list string;
  lp_read_only_symlinks : list LinuxReadOnlySymlink;
  lp_read_only_scaffold_directories : list string;
  lp_read_only_files : list string;
  lp_hidden_roots : list string;
  lp_pinned_workspace : option LinuxPinnedWorkspace;
  lp_network : LinuxNetworkPolicy;
}.

Definition set_network (p : LinuxSandboxPolicy) (network : LinuxNetworkPolicy) : LinuxSandboxPolicy :=
  mkPolicy (lp_version p) (lp_cwd p) (lp_writable_roots p) (lp_temporary_roots p)
    (lp_read_only_paths p) (lp_read_only_roots p) (lp_read_only_symlinks p)
    (lp_read_only_scaffold_directories p) (lp_read_only_files p) (lp_hidden_roots p)
    (lp_pinned_workspace p) network.

(** * Paths *)

Fixpoint drop_trailing (pieces : list string) : list string :=
  match pieces with
  | [] => []
  | p :: rest =>
      match drop_trailing rest with
      | [] => if String.eqb p "" || String.eqb p "." then [] else [p]
      | rest => p :: rest
      end
  end.

(** [Path::parent]: the text before the last component. *)
Definition path_parent (path : string) : option string :=
  match last (components path) with
  | None | Some RootDir => None
  | Some _ =>
      match split_on "/" path with
      | "" :: rest => Some ("/" +:+ join_strings "/" (drop_trailing (removelast (drop_trailing rest))))
      | pieces => Some (join_strings "/" (drop_trailing (removelast (drop_trailing pieces))))
      end
  end%string.

(** [Path::file_name]. *)
Definition path_file_name (path : string) : option string :=
  match last (components path) with
  | Some (Normal name) => Some name
  | _ => None
  end.

Definition is_clean_component (c : Component) : bool :=
  match c with
  | RootDir | Normal _ => true
  | _ => false
  end.

Definition validate_absolute_clean_path (path label : string) : result string unit :=
  ensure (is_absolute path) (label +:+ " is not absolute") ;!
  ensure (negb (existsb (Z.eqb 0) (str_bytes path))) (label +:+ " contains a NUL byte") ;!
  ensure (forallb is_clean_component (components path)) (label +:+ " is not normalized").

Definition is_protected_metadata_location (path : string) : bool :=
  existsb (fun c => match c with
                    | Normal name => existsb (String.eqb name) PROTECTED_METADATA_NAMES
                    | _ => false
                    end) (components path).

(** What [symlink_metadata] says is at a path. *)
Inductive FileKind := KDirectory | KFile | KSymlink | KOther.

Definition is_symlink_kind (k : FileKind) : bool :=
  match k with
  | KSymlink => true
  | _ => false
  end.

Definition is_file_kind (k : FileKind) : bool :=
  match k with
  | KFile => true
  | _ => false
  end.

Section Policy.
Context (canonicalize : string -> result FsError string) (is_dir is_file : string -> bool)
  (kind : string -> result FsError FileKind) (tmpdir : option string).

(** * Checks of single paths *)

Definition canonical_existing_directory (path label : string) : result string string :=
  let! canonical := map_err (fun _ => "cannot resolve "%string +:+ label) (canonicalize path) in
  ensure (is_absolute canonical && is_dir canonical) (label +:+ " is not an absolute directory") ;!
  validate_absolute_clean_path canonical label ;!
  Ok canonical.

Definition validate_existing_directory (path label : string) : result string unit :=
  let! canonical := map_err (fun _ => "cannot resolve "%string +:+ label) (canonicalize path) in
  ensure (path_eqb canonical path && is_dir canonical) (label +:+ " is not canonical and existing") ;!
  validate_absolute_clean_path path label.

(** [seen]: the paths before. *)
Fixpoint unique_existing_directories (seen paths : list string) (label : string) :
    result string unit :=
  match paths with
  | [] => Ok tt
  | path :: rest =>
      validate_existing_directory path label ;!
      ensure (negb (contains_path seen path)) ("duplicate "%string +:+ label) ;!
      unique_existing_directories (path :: seen) rest label
  end.

Definition validate_unique_existing_directories (paths : list string) (label : string) :
    result string unit := unique_existing_directories [] paths label.

Fixpoint no_symlink_components (current : string) (cs : list Component) : result string unit :=
  match cs with
  | [] => Ok tt
  | Normal name :: rest =>
      let current := push_component current (Normal name) in
      match kind current with
      | Ok k => ensure (negb (is_symlink_kind k)) "read-only path crosses a symlink" ;!
                no_symlink_components current rest
      | Err FsNotFound => Ok tt
      | Err _ => Err "cannot inspect read-only path component"%string
      end
  | _ :: rest => no_symlink_components current rest
  end.

Definition validate_no_symlink_components (path : string) : result string unit :=
  no_symlink_components "/" (components path).

Definition is_linked_worktree_metadata_root (path : string) : bool :=
  is_some_and (String.eqb "worktrees") (parent ← path_parent path; path_file_name parent)
  && is_file (path_join path "gitdir") && is_file (path_join path "commondir").

(** * The check of a policy *)

(** [writable_roots.chain(temporary_roots).chain(read_only_roots)]. *)
Definition visible_roots (p : LinuxSandboxPolicy) : list string :=
  lp_writable_roots p ++ lp_temporary_roots p ++ lp_read_only_roots p.

Definition validate_pinned (p : LinuxSandboxPolicy) (pinned : LinuxPinnedWorkspace) :
    result string unit :=
  ensure (path_eqb (pw_path pinned) (lp_cwd p)) "pinned workspace path must equal the sandbox cwd" ;!
  ensure (path_eqb (pw_worktree_root pinned) (pw_path pinned))
    "pinned workspace root must be the sandbox cwd" ;!
  ensure (nonempty (pw_metadata_roots pinned)) "pinned workspace metadata roots must not be empty" ;!
  ensure (is_absolute (pw_common_dir pinned) && is_absolute (pw_primary_checkout pinned)
          && forallb is_absolute (pw_metadata_roots pinned))
    "pinned workspace identity paths must be absolute" ;!
  let writable := contains_path (lp_writable_roots p) (pw_path pinned) in
  let read_only := contains_path (lp_read_only_roots p) (pw_path pinned) in
  ensure ((pw_writable pinned && writable) || (negb (pw_writable pinned) && read_only))
    "pinned workspace path must appear as its matching sandbox root".

Definition validate_counts (p : LinuxSandboxPolicy) : result string unit :=
  ensure (zlen (lp_writable_roots p) <=? MAX_ROOTS) "too many writable roots" ;!
  ensure (zlen (lp_temporary_roots p) <=? MAX_ROOTS) "too many temporary roots" ;!
  ensure (zlen (lp_read_only_paths p) <=? MAX_READ_ONLY_PATHS) "too many read-only paths" ;!
  ensure (zlen (lp_read_only_roots p) <=? MAX_ROOTS) "too many read-only roots" ;!
  ensure (zlen (lp_read_only_symlinks p) <=? MAX_ROOTS) "too many read-only symlinks" ;!
  ensure (zlen (lp_read_only_scaffold_directories p) <=? MAX_ROOTS)
    "too many read-only scaffold directories" ;!
  ensure (zlen (lp_read_only_files p) <=? MAX_ROOTS) "too many read-only files" ;!
  ensure (zlen (lp_hidden_roots p) <=? MAX_ROOTS) "too many hidden roots".

Definition validate_hidden_root (p : LinuxSandboxPolicy) (hidden : string) : result string unit :=
  ensure (negb (path_eqb hidden "/")) "hidden root cannot be the filesystem root" ;!
  for_each (fun visible => ensure (negb (path_eqb hidden visible) && negb (path_starts_with hidden visible))
                             "hidden root is inside a visible root") (visible_roots p).

Definition validate_read_only_path (p : LinuxSandboxPolicy) (path : string) : result string unit :=
  validate_absolute_clean_path path "read-only path" ;!
  ensure (existsb (fun root => path_starts_with path root && negb (path_eqb path root))
            (lp_writable_roots p)) "read-only path is outside writable roots" ;!
  ensure (negb (contains_path (lp_writable_roots p) path)) "read-only path cannot be a writable root" ;!
  validate_no_symlink_components path.

Definition inside_visible (p : LinuxSandboxPolicy) (path : string) : bool :=
  existsb (path_starts_with path) (visible_roots p).

(** [links]: those before. *)
Fixpoint validate_symlinks (p : LinuxSandboxPolicy) (links : list string)
    (l : list LinuxReadOnlySymlink) : result string unit :=
  match l with
  | [] => Ok tt
  | s :: rest =>
      validate_absolute_clean_path (sl_link s) "read-only symlink link" ;!
      validate_absolute_clean_path (sl_target s) "read-only symlink target" ;!
      ensure (negb (path_eqb (sl_target s) "/"))
        "read-only symlink target cannot be the filesystem root" ;!
      ensure (negb (is_protected_metadata_location (sl_link s))
              && negb (is_protected_metadata_location (sl_target s)))
        "read-only symlink crosses protected metadata" ;!
      ensure (negb (inside_visible p (sl_link s))) "read-only symlink is inside a visible root" ;!
      let! parent := ok_or (path_parent (sl_link s)) "read-only symlink has no parent"%string in
      ensure (is_dir parent) "read-only symlink parent is not a directory" ;!
      validate_no_symlink_components parent ;!
      let! k := map_err (fun _ => "cannot inspect read-only symlink"%string) (kind (sl_link s)) in
      ensure (is_symlink_kind k) "read-only path is no longer a symlink" ;!
      let! canonical := map_err (fun _ => "cannot resolve read-only symlink"%string)
                          (canonicalize (sl_link s)) in
      ensure (path_eqb canonical (sl_target s)) "read-only symlink target changed" ;!
      ensure (negb (contains_path links (sl_link s))) "duplicate read-only symlink link" ;!
      validate_symlinks p (sl_link s :: links) rest
  end.

Definition validate_scaffold_directory (p : LinuxSandboxPolicy) (directory : string) :
    result string unit :=
  validate_absolute_clean_path directory "read-only scaffold directory" ;!
  ensure (negb (is_protected_metadata_location directory))
    "read-only scaffold directory is inside protected metadata" ;!
  ensure (negb (path_eqb directory "/")) "read-only scaffold directory cannot be the filesystem root" ;!
  validate_no_symlink_components directory ;!
  validate_existing_directory directory "read-only scaffold directory" ;!
  ensure (negb (inside_visible p directory)) "read-only scaffold directory is inside a visible root".

Definition validate_read_only_file (p : LinuxSandboxPolicy) (file : string) : result string unit :=
  validate_absolute_clean_path file "read-only file" ;!
  ensure (negb (is_protected_metadata_location file)) "read-only file is inside protected metadata" ;!
  let! k := map_err (fun _ => "cannot inspect read-only file"%string) (kind file) in
  ensure (is_file_kind k) "read-only path is not a regular file" ;!
  let! canonical := map_err (fun _ => "cannot resolve read-only file"%string) (canonicalize file) in
  ensure (path_eqb canonical file) "read-only file is not canonical" ;!
  let! parent := ok_or (path_parent file) "read-only file has no parent"%string in
  validate_existing_directory parent "read-only file parent" ;!
  validate_no_symlink_components parent ;!
  ensure (negb (inside_visible p file)) "read-only file is inside a visible root".

Definition validate (p : LinuxSandboxPolicy) : result string unit :=
  ensure (lp_version p =? LINUX_SANDBOX_POLICY_VERSION) "unsupported Linux sandbox policy version" ;!
  match lp_pinned_workspace p with
  | Some pinned => validate_pinned p pinned
  | None => Ok tt
  end ;!
  validate_counts p ;!
  match lp_network p with
  | Restricted => ensure (contains_path (lp_writable_roots p) (lp_cwd p))
                    "sandbox cwd must be a writable root"
  | LocalAgent => Ok tt
  end ;!
  validate_existing_directory (lp_cwd p) "sandbox cwd" ;!
  validate_unique_existing_directories (lp_writable_roots p) "writable root" ;!
  validate_unique_existing_directories (lp_temporary_roots p) "temporary root" ;!
  validate_unique_existing_directories (lp_read_only_roots p) "read-only root" ;!
  validate_unique_existing_directories (lp_hidden_roots p) "hidden root" ;!
  for_each (fun root => ensure (negb (contains_path (lp_writable_roots p) root))
                          "read-only root cannot be a writable root") (lp_read_only_roots p) ;!
  for_each (validate_hidden_root p) (lp_hidden_roots p) ;!
  for_each (validate_read_only_path p) (lp_read_only_paths p) ;!
  validate_symlinks p [] (lp_read_only_symlinks p) ;!
  for_each (validate_scaffold_directory p) (lp_read_only_scaffold_directories p) ;!
  for_each (validate_read_only_file p) (lp_read_only_files p).

(** * The policy of a command *)

Fixpoint canonical_directories (paths : list string) (label : string) :
    result string (list string) :=
  match paths with
  | [] => Ok []
  | path :: rest =>
      let! canonical := canonical_existing_directory path label in
      let! rest := canonical_directories rest label in
      Ok (canonical :: rest)
  end.

Definition temporary_directories : result string (list string) :=
  let! tmp := canonical_existing_directory "/tmp" "temporary root /tmp" in
  let! variable := match tmpdir with
                   | Some dir => let! dir := canonical_existing_directory dir "TMPDIR" in Ok [dir]
                   | None => Ok []
                   end in
  Ok (sort_paths (tmp :: variable)).

(** The protected names below the writable roots, but for the Git directories. *)
Definition protected_below (writable git_roots : list string) : list string :=
  flat_map (fun root =>
    List.filter (fun path => negb (contains_path git_roots path))
      (map (path_join root) PROTECTED_METADATA_NAMES)) writable.

(** What one Git directory adds: writable paths, read-only roots, read-only paths. *)
Definition git_root_paths (worktree_add : bool) (git_root : string) :
    list string * list string * list string :=
  if is_linked_worktree_metadata_root git_root
  then ([git_root], [], [path_join git_root "gitdir"; path_join git_root "commondir"])
  else
    (List.filter is_dir (map (path_join git_root) ["refs/heads"; "objects"; "logs"]%string)
     ++ (if worktree_add && is_dir (path_join git_root "worktrees")
         then [path_join git_root "worktrees"] else []),
     [git_root],
     [path_join git_root "objects/info"; path_join git_root "objects/pack"]).

Fixpoint git_paths (worktree_add : bool) (git_roots : list string) :
    list string * list string * list string :=
  match git_roots with
  | [] => ([], [], [])
  | root :: rest =>
      let '(w1, r1, p1) := git_root_paths worktree_add root in
      let '(w2, r2, p2) := git_paths worktree_add rest in
      (w1 ++ w2, r1 ++ r2, p1 ++ p2)
  end.

(** The protected metadata of other worktrees. *)
Fixpoint protected_worktrees (git_roots roots : list string) : result string (list string) :=
  match roots with
  | [] => Ok []
  | root :: rest =>
      let! protected := canonical_existing_directory root "protected worktree metadata root" in
      ensure (existsb (fun common =>
                is_some_and (fun parent => path_eqb parent (path_join common "worktrees"))
                  (path_parent protected)) git_roots)
        "protected worktree metadata root is not a direct child of a validated common Git worktrees directory" ;!
      let! rest := protected_worktrees git_roots rest in
      Ok (protected :: rest)
  end.

Definition for_scoped_command (cwd : string) (writable_roots git_metadata_roots : list string)
    (protected_worktree_roots : option (list string)) : result string LinuxSandboxPolicy :=
  let! cwd := canonical_existing_directory cwd "sandbox cwd" in
  let! roots := canonical_directories writable_roots "writable root" in
  let writable := cwd :: roots in
  let! git_roots := canonical_directories git_metadata_roots "Git metadata root" in
  let! temporary_roots := temporary_directories in
  let '(writable_metadata, read_only_roots, git_read_only) :=
    git_paths (is_some protected_worktree_roots) git_roots in
  let read_only_paths := protected_below writable git_roots ++ git_read_only in
  let! protected := match protected_worktree_roots with
                    | Some roots => protected_worktrees git_roots roots
                    | None => Ok []
                    end in
  let policy := mkPolicy LINUX_SANDBOX_POLICY_VERSION cwd (sort_paths (writable ++ writable_metadata))
                  temporary_roots (sort_paths (read_only_paths ++ protected))
                  (sort_paths read_only_roots) [] [] [] [] None Restricted in
  validate policy ;!
  Ok policy.

Definition for_command_with_network (cwd : string) (writable_roots git_metadata_roots : list string)
    (network : LinuxNetworkPolicy) : result string LinuxSandboxPolicy :=
  let! policy := for_scoped_command cwd writable_roots git_metadata_roots None in
  let policy := set_network policy network in
  validate policy ;!
  Ok policy.

Definition for_command (cwd : string) (writable_roots git_metadata_roots : list string) :
    result string LinuxSandboxPolicy :=
  for_command_with_network cwd writable_roots git_metadata_roots Restricted.

Definition for_git_worktree_add (cwd : string)
    (writable_roots git_metadata_roots protected_worktree_roots : list string) :
    result string LinuxSandboxPolicy :=
  for_scoped_command cwd writable_roots git_metadata_roots (Some protected_worktree_roots).

Definition for_developer_tool (cwd : string) (writable_roots : list string) (network_access : bool) :
    result string LinuxSandboxPolicy :=
  let! policy := for_scoped_command cwd writable_roots [] None in
  Ok (if network_access then set_network policy LocalAgent else policy).
End Policy.
