(* ===== verification/Seccomp.v ===== *)
(** * The system call filter of the Linux sandbox (sandbox/linux/helper.rs)

    The table of rules that [build_seccomp_filter] hands to the seccompiler crate, and what
    the filter lets through under the crate's documented reading of such a table: a call
    that has no entry is allowed, one with an empty entry is refused, and another is
    refused when one of its rules has only conditions that hold. *)

From S2P Require Import Prelude LinuxPolicy.

#[local] Open Scope Z_scope.

(** The calls the filter names. *)
Inductive Syscall :=
| SYS_ptrace | SYS_process_vm_readv | SYS_process_vm_writev
| SYS_io_uring_setup | SYS_io_uring_enter | SYS_io_uring_register
| SYS_connect | SYS_accept | SYS_accept4 | SYS_bind | SYS_listen | SYS_getpeername
| SYS_getsockname | SYS_shutdown | SYS_sendto | SYS_sendmmsg | SYS_recvmmsg
| SYS_getsockopt | SYS_setsockopt
| SYS_socket | SYS_socketpair
| SYS_other (number : Z).

#[export] Instance syscall_eq_dec : EqDecision Syscall.
Proof. solve_decision. Defined.

(** Constants of the C library on Linux. *)
Definition AF_UNIX : Z := 1.
Definition SOCK_STREAM : Z := 1.
Definition SOCK_CLOEXEC : Z := 524288.
Definition SOCK_NONBLOCK : Z := 2048.

Definition LOCAL_AGENT_BLOCKING_STREAM_SOCKETPAIR_TYPE : Z := Z.lor SOCK_STREAM SOCK_CLOEXEC.
Definition LOCAL_AGENT_NONBLOCKING_STREAM_SOCKETPAIR_TYPE : Z :=
  Z.lor (Z.lor SOCK_STREAM SOCK_CLOEXEC) SOCK_NONBLOCK.

Definition local_agent_stream_socketpair_type_allowed (socket_type : Z) : bool :=
  (socket_type =? LOCAL_AGENT_BLOCKING_STREAM_SOCKETPAIR_TYPE)
  || (socket_type =? LOCAL_AGENT_NONBLOCKING_STREAM_SOCKETPAIR_TYPE).

(** * The table *)

Inductive SeccompCmpOp := Eq | Ne.

(** All conditions of the source compare an argument as a [Dword]. *)
Record SeccompCondition := mkCondition {
  arg_index : nat;
  operator : SeccompCmpOp;
  value : Z;
}.

Definition SeccompRule : Type := list SeccompCondition.
Definition Rules : Type := list (Syscall * list SeccompRule).

(** [BTreeMap::insert] replaces. *)
Definition rules_insert (syscall : Syscall) (l : list SeccompRule) (rules : Rules) : Rules :=
  (syscall, l) :: List.filter (fun r => negb (bool_decide (r.1 = syscall))) rules.

Definition rules_get (rules : Rules) (syscall : Syscall) : option (list SeccompRule) :=
  snd <$> find (fun r => bool_decide (r.1 = syscall)) rules.

Definition deny_syscall (rules : Rules) (syscall : Syscall) : Rules := rules_insert syscall [] rules.

Definition always_denied : list Syscall :=
  [SYS_ptrace; SYS_process_vm_readv; SYS_process_vm_writev; SYS_io_uring_setup; SYS_io_uring_enter;
   SYS_io_uring_register].

Definition restricted_denied : list Syscall :=
  [SYS_connect; SYS_accept; SYS_accept4; SYS_bind; SYS_listen; SYS_getpeername; SYS_getsockname;
   SYS_shutdown; SYS_sendto; SYS_sendmmsg; SYS_recvmmsg; SYS_getsockopt; SYS_setsockopt].

Definition seccomp_rules (network : LinuxNetworkPolicy) : Rules :=
  let rules := fold_left deny_syscall always_denied [] in
  match network with
  | Restricted =>
      let rules := fold_left deny_syscall restricted_denied rules in
      let unix_only_rule := [mkCondition 0 Ne AF_UNIX] in
      rules_insert SYS_socketpair [unix_only_rule] (rules_insert SYS_socket [unix_only_rule] rules)
  | LocalAgent =>
      let unix_rule := [mkCondition 0 Eq AF_UNIX] in
      let invalid_domain_rule := [mkCondition 0 Ne AF_UNIX] in
      let invalid_type_rule := [mkCondition 1 Ne LOCAL_AGENT_BLOCKING_STREAM_SOCKETPAIR_TYPE;
                                mkCondition 1 Ne LOCAL_AGENT_NONBLOCKING_STREAM_SOCKETPAIR_TYPE] in
      let invalid_protocol_rule := [mkCondition 2 Ne 0] in
      rules_insert SYS_socketpair [invalid_domain_rule; invalid_type_rule; invalid_protocol_rule]
        (rules_insert SYS_socket [unix_rule] rules)
  end.

(** * The filter *)

Inductive SeccompAction := Allow | Errno (code : Z).
Definition EPERM : Z := 1.

(** The low 32 bits of an argument. *)
Definition dword (v : Z) : Z := v mod 2 ^ 32.

Definition condition_holds (args : nat -> Z) (c : SeccompCondition) : bool :=
  match operator c with
  | Eq => dword (args (arg_index c)) =? dword (value c)
  | Ne => negb (dword (args (arg_index c)) =? dword (value c))
  end.

(** [SeccompFilter::new] and the program it is compiled to. *)
Definition Compiler : Type :=
  Rules -> SeccompAction -> SeccompAction -> Syscall -> (nat -> Z) -> SeccompAction.

Class Seccompiler (filter : Compiler) : Prop := {
  filter_documented : forall rules mismatch matched syscall args,
    filter rules mismatch matched syscall args =
      match rules_get rules syscall with
      | None => mismatch
      | Some [] => matched
      | Some l => if existsb (forallb (condition_holds args)) l then matched else mismatch
      end;
}.

Definition build_seccomp_filter (filter : Compiler) (network : LinuxNetworkPolicy) :
    Syscall -> (nat -> Z) -> SeccompAction :=
  filter (seccomp_rules network) Allow (Errno EPERM).

Section Filter.
Context (filter : Compiler) `{SC : !Seccompiler filter}.

(** ** What is let through *)

(** What a command may call, for the first three arguments of the call: [1] is the Unix
    domain, [524289] and [526337] are stream sockets that are closed on execution, the second
    of them also non-blocking. *)
Definition permits (network : LinuxNetworkPolicy) (syscall : Syscall) (domain type protocol : Z) :
    Prop :=
  match syscall with
  | SYS_ptrace | SYS_process_vm_readv | SYS_process_vm_writev
  | SYS_io_uring_setup | SYS_io_uring_enter | SYS_io_uring_register => False
  | SYS_socket => match network with Restricted => domain = 1 | LocalAgent => domain <> 1 end
  | SYS_socketpair =>
      domain = 1 /\ (network = LocalAgent -> (type = 524289 \/ type = 526337) /\ protocol = 0)
  | SYS_other _ => True
  | _ => network = LocalAgent
  end.

Lemma socketpair_rules args :
  existsb (forallb (condition_holds args))
    [[mkCondition 0 Ne 1]; [mkCondition 1 Ne 524289; mkCondition 1 Ne 526337]; [mkCondition 2 Ne 0]]
    = false <->
  dword (args 0%nat) = 1
  /\ (dword (args 1%nat) = 524289 \/ dword (args 1%nat) = 526337) /\ dword (args 2%nat) = 0.
Proof.
  cbn [existsb forallb]. unfold condition_holds. cbn [operator arg_index value].
  rewrite !andb_true_r, !orb_false_iff, andb_false_iff, !negb_false_iff, !Z.eqb_eq.
  tauto.
Qed.

Lemma domain_rules args :
  existsb (forallb (condition_holds args)) [[mkCondition 0 Ne 1]] = false <-> dword (args 0%nat) = 1.
Proof.
  cbn [existsb forallb]. unfold condition_holds. cbn [operator arg_index value].
  by rewrite andb_true_r, orb_false_r, negb_false_iff, Z.eqb_eq.
Qed.

Lemma other_domain_rules args :
  existsb (forallb (condition_holds args)) [[mkCondition 0 Eq 1]] = false <-> dword (args 0%nat) <> 1.
Proof.
  cbn [existsb forallb]. unfold condition_holds. cbn [operator arg_index value].
  by rewrite andb_true_r, orb_false_r, Z.eqb_neq.
Qed.

(** The entry of every call in the table. *)
Definition entry_of (network : LinuxNetworkPolicy) (syscall : Syscall) : option (list SeccompRule) :=
  match syscall, network with
  | (SYS_ptrace | SYS_process_vm_readv | SYS_process_vm_writev
     | SYS_io_uring_setup | SYS_io_uring_enter | SYS_io_uring_register), _ => Some []
  | (SYS_socket | SYS_socketpair), Restricted => Some [[mkCondition 0 Ne 1]]
  | SYS_socket, LocalAgent => Some [[mkCondition 0 Eq 1]]
  | SYS_socketpair, LocalAgent =>
      Some [[mkCondition 0 Ne 1]; [mkCondition 1 Ne 524289; mkCondition 1 Ne 526337]; [mkCondition 2 Ne 0]]
  | SYS_other _, _ => None
  | _, Restricted => Some []
  | _, LocalAgent => None
  end.

Lemma table_entries network syscall : rules_get (seccomp_rules network) syscall = entry_of network syscall.
Proof. destruct network, syscall; reflexivity. Qed.

End Filter.
