(* ===== verification/Bwrap.v ===== *)
(** * The arguments of bubblewrap (sandbox/linux/helper.rs)

    How the helper turns a policy it has checked into the mounts of the sandbox, in
    their order, and how it pins a workspace whose repository was validated.  The
    arguments are first built as a list of [BwrapArg]s, one for each option with its
    operands, which [render] writes as the strings of the command line.  What is at a
    path, what a directory descriptor gives and the contents of files are arguments. *)

From S2P Require Import Prelude Strings Config NamedRoots LinuxPolicy.

#[local] Open Scope Z_scope.
#[local] Open Scope rust_scope.

(** * The command line *)

Inductive BwrapArg :=
| NewSession
| DieWithParent
| UnshareUser
| UnsharePid
| UnshareNet
| Seccomp (fd : Z)
| Dev (target : string)
| Proc (target : string)
| RoBind (source target : string)
| Bind (source target : string)
| DevBind (source target : string)
| RoBindFd (fd : Z) (target : string)
| BindFd (fd : Z) (target : string)
| Tmpfs (target : string)
| RemountRo (target : string)
| Dir (target : string)
| Symlink (target link : string)
| Chdir (path : string).

Definition render (a : BwrapArg) : list string :=
  match a with
  | NewSession => ["--new-session"]
  | DieWithParent => ["--die-with-parent"]
  | UnshareUser => ["--unshare-user"]
  | UnsharePid => ["--unshare-pid"]
  | UnshareNet => ["--unshare-net"]
  | Seccomp fd => ["--seccomp"; decimal fd]
  | Dev target => ["--dev"; target]
  | Proc target => ["--proc"; target]
  | RoBind source target => ["--ro-bind"; source; target]
  | Bind source target => ["--bind"; source; target]
  | DevBind source target => ["--dev-bind"; source; target]
  | RoBindFd fd target => ["--ro-bind-fd"; decimal fd; target]
  | BindFd fd target => ["--bind-fd"; decimal fd; target]
  | Tmpfs target => ["--tmpfs"; target]
  | RemountRo target => ["--remount-ro"; target]
  | Dir target => ["--dir"; target]
  | Symlink target link => ["--symlink"; target; link]
  | Chdir path => ["--chdir"; path]
  end%string.

Definition validate_command (command : list string) : result string unit :=
  ensure (nonempty command) "command must not be empty" ;!
  ensure (forallb (fun a => negb (existsb (Z.eqb 0) (str_bytes a))) command)
    "command contains a NUL byte".

(** [path_to_string]: a path that is not UTF-8 has no string. *)
Definition path_to_string (path : string) : result string string :=
  ensure (utf8_valid (str_bytes path)) "sandbox path is not valid UTF-8" ;! Ok path.

(** [append_pair] and the other pushes of an option with paths. *)
Definition append_pair (op : string -> string -> BwrapArg) (source target : string) :
    result string (list BwrapArg) :=
  let! source := path_to_string source in
  let! target := path_to_string target in
  Ok [op source target].

Definition append_one (op : string -> BwrapArg) (target : string) : result string (list BwrapArg) :=
  let! target := path_to_string target in
  Ok [op target].

(** [append_read_only_fd]. *)
Definition append_read_only_fd (fd : Z) (target : string) : result string (list BwrapArg) :=
  append_one (RoBindFd fd) target.

Fixpoint append_all {A : Type} (f : A -> result string (list BwrapArg)) (l : list A) :
    result string (list BwrapArg) :=
  match l with
  | [] => Ok []
  | a :: rest =>
      let! args := f a in
      let! rest := append_all f rest in
      Ok (args ++ rest)
  end.

(** * Order *)

Definition depth_leb (a b : string) : bool := (path_depth a <=? path_depth b)%nat.

(** [sort_by_key(path_depth)] and [dedup]. *)
Definition by_depth (paths : list string) : list string := sort_dedup depth_leb path_eqb paths.

Definition bind_leb (a b : string * bool) : bool :=
  if (path_depth a.1 =? path_depth b.1)%nat then implb a.2 b.2
  else (path_depth a.1 <? path_depth b.1)%nat.

Definition writable_binds (p : LinuxSandboxPolicy) : list string :=
  by_depth (lp_writable_roots p ++ lp_temporary_roots p).

Definition ordered_binds (p : LinuxSandboxPolicy) : list (string * bool) :=
  sort_by bind_leb (map (fun root => (root, true)) (writable_binds p)
                    ++ map (fun root => (root, false)) (lp_read_only_roots p)).

(** The loop of [effective_mount_is_read_only]; [effective]: a depth and whether that
    mount is writable. *)
Definition effective_read_only (path : string) (effective : option (nat * bool)) (root : string) :
    option (nat * bool) :=
  if path_starts_with path root
     && is_none_or (fun e => (e.1 <? path_depth root)%nat || ((path_depth root =? e.1)%nat && e.2))
          effective
  then Some (path_depth root, false) else effective.

Definition effective_writable (path : string) (effective : option (nat * bool)) (root : string) :
    option (nat * bool) :=
  if path_starts_with path root && is_none_or (fun e => (e.1 <=? path_depth root)%nat) effective
  then Some (path_depth root, true) else effective.

Definition effective_mount (p : LinuxSandboxPolicy) (path : string) : option (nat * bool) :=
  let effective := fold_left (effective_read_only path) (lp_read_only_roots p) None in
  fold_left (effective_writable path) (lp_writable_roots p ++ lp_temporary_roots p) effective.

Definition effective_mount_is_read_only (p : LinuxSandboxPolicy) (path : string) : bool :=
  match effective_mount p path with
  | Some (_, false) => true
  | _ => false
  end.

(** [max_by_key]: the last of the deepest. *)
Definition deepest (paths : list string) : option string :=
  fold_left (fun best path =>
    match best with
    | Some b => if depth_leb b path then Some path else best
    | None => Some path
    end) paths None.

(** The directories from a hidden root down to a path. *)
Fixpoint directories_below (current : string) (cs : list Component) : list string :=
  match cs with
  | [] => []
  | c :: rest => let current := push_component current c in current :: directories_below current rest
  end.

(** [append_namespace_directory_scaffolding]. *)
Definition namespace_directories (hidden_roots visible_roots extra_paths : list string) : list string :=
  by_depth (flat_map (fun visible =>
    match deepest (List.filter (path_starts_with visible) hidden_roots) with
    | Some hidden => directories_below hidden (drop (path_depth hidden) (components visible))
    | None => []
    end) (visible_roots ++ extra_paths)).

Definition append_namespace_directory_scaffolding (hidden_roots visible_roots extra_paths : list string) :
    result string (list BwrapArg) :=
  append_all (append_one Dir) (namespace_directories hidden_roots visible_roots extra_paths).

(** * Protected paths *)

Inductive PinnedReadOnlySource :=
| Existing (fd : Z)
| Missing (path : string).

Record PinnedReadOnlyPath := mkPinnedPath {
  pp_target : string;
  pp_source : PinnedReadOnlySource;
}.

Definition missing_path_is_directory (path : string) : bool :=
  match path_file_name path with
  | Some name =>
      existsb (String.eqb name)
        [".git"; ".agents"; ".codex"; "hooks"; "info"; "objects"; "refs"; "worktrees"; "tags";
         "remotes"; "pack"]
  | None => false
  end%string.

Definition append_verified_missing_mask (path : string) : result string (list BwrapArg) :=
  if missing_path_is_directory path
  then let! path := path_to_string path in Ok [Tmpfs path; RemountRo path]
  else append_pair DevBind "/dev/null" path.

Section Helper.
Context (canonicalize : string -> result FsError string) (is_dir is_file exists_ : string -> bool)
  (kind : string -> result FsError FileKind).

Fixpoint first_missing (current : string) (cs : list Component) : option string :=
  match cs with
  | [] => None
  | Normal name :: rest =>
      let current := push_component current (Normal name) in
      if exists_ current then first_missing current rest else Some current
  | _ :: rest => first_missing current rest
  end.

Definition first_missing_component (path : string) : option string :=
  first_missing "/" (components path).

Definition append_read_only_mask (path : string) : result string (list BwrapArg) :=
  ensure (exists_ path) "read-only mask target must exist" ;!
  append_pair RoBind path path.

Definition append_missing_mask (path : string) : result string (list BwrapArg) :=
  let! parent := ok_or (path_parent path) "missing read-only path has no parent"%string in
  ensure (is_dir parent) "missing read-only path parent is not a directory" ;!
  append_verified_missing_mask path.

(** What is done for one protected path: the arguments, and the path that is masked. *)
Definition mask_path (p : LinuxSandboxPolicy) (pinned_paths : list PinnedReadOnlyPath) (path : string) :
    result string (list BwrapArg * list string) :=
  match find (fun q => path_eqb (pp_target q) path) pinned_paths with
  | Some q =>
      match pp_source q with
      | Existing fd => let! args := append_read_only_fd fd path in Ok (args, [path])
      | Missing mask =>
          if effective_mount_is_read_only p mask then Ok ([], [])
          else let! args := append_verified_missing_mask mask in Ok (args, [mask])
      end
  | None =>
      if exists_ path then let! args := append_read_only_mask path in Ok (args, [path])
      else
        let mask := default path (first_missing_component path) in
        if effective_mount_is_read_only p mask then Ok ([], [])
        else let! args := append_missing_mask mask in Ok (args, [mask])
  end.

(** The loop over the protected paths; [masked]: what is masked so far. *)
Fixpoint mask_paths (p : LinuxSandboxPolicy) (pinned_paths : list PinnedReadOnlyPath)
    (masked paths : list string) : result string (list BwrapArg) :=
  match paths with
  | [] => Ok []
  | path :: rest =>
      if existsb (path_starts_with path) masked then mask_paths p pinned_paths masked rest
      else
        let! done := mask_path p pinned_paths path in
        let '(args, covered) := done in
        let! rest := mask_paths p pinned_paths (masked ++ covered) rest in
        Ok (args ++ rest)
  end.

(** * The arguments *)

Definition hidden_symlinks (p : LinuxSandboxPolicy) : list LinuxReadOnlySymlink :=
  List.filter (fun s => existsb (path_starts_with (sl_link s)) (by_depth (lp_hidden_roots p)))
    (lp_read_only_symlinks p).

Fixpoint symlink_targets (l : list LinuxReadOnlySymlink) : result string (list string) :=
  match l with
  | [] => Ok []
  | s :: rest =>
      let! target := (if is_dir (sl_target s) then Ok (sl_target s)
                      else ok_or (path_parent (sl_target s)) "read-only symlink target has no parent"%string) in
      let! rest := symlink_targets rest in
      Ok (target :: rest)
  end.

Definition parents (paths : list string) : list string := omap path_parent paths.

Definition symlink_scaffold_paths (p : LinuxSandboxPolicy) : result string (list string) :=
  let! targets := symlink_targets (hidden_symlinks p) in
  Ok (lp_read_only_scaffold_directories p ++ parents (map sl_link (hidden_symlinks p))
      ++ parents (lp_read_only_files p) ++ targets).

Definition base_args (p : LinuxSandboxPolicy) (seccomp_fd : Z) : list BwrapArg :=
  [NewSession; DieWithParent; RoBind "/" "/"; Dev "/dev"; Proc "/proc"; UnshareUser; UnsharePid]%string
  ++ match lp_network p with
     | Restricted => [UnshareNet]
     | LocalAgent => []
     end ++ [Seccomp seccomp_fd].

Definition is_pinned (p : LinuxSandboxPolicy) (root : string) : bool :=
  is_some_and (fun pinned => path_eqb (pw_path pinned) root) (lp_pinned_workspace p).

Definition bind_args (p : LinuxSandboxPolicy) : result string (list BwrapArg) :=
  append_all (fun '(root, writable) =>
    if is_pinned p root then Ok []
    else append_pair (if writable : bool then Bind else RoBind) root root) (ordered_binds p).

Definition pinned_args (p : LinuxSandboxPolicy) (fd : option Z) : result string (list BwrapArg) :=
  match fd, lp_pinned_workspace p with
  | Some fd, Some pinned =>
      append_one (if pw_writable pinned then BindFd fd else RoBindFd fd) (pw_path pinned)
  | _, _ => Ok []
  end.

Definition mount_args (p : LinuxSandboxPolicy) (seccomp_fd : Z) (pinned_workspace_fd : option Z)
    (pinned_paths : list PinnedReadOnlyPath) : result string (list BwrapArg) :=
  let hidden_roots := by_depth (lp_hidden_roots p) in
  let! hidden := append_all (append_one Tmpfs) hidden_roots in
  let visible := by_depth (writable_binds p ++ lp_read_only_roots p) in
  let! scaffold := symlink_scaffold_paths p in
  let! directories := append_namespace_directory_scaffolding hidden_roots visible scaffold in
  let! binds := bind_args p in
  let! pinned := pinned_args p pinned_workspace_fd in
  let! files := append_all (fun file => append_pair RoBind file file) (lp_read_only_files p) in
  let! masks := mask_paths p pinned_paths [] (sort_by depth_leb (lp_read_only_paths p)) in
  let! links := append_all (fun s => append_pair Symlink (sl_target s) (sl_link s)) (hidden_symlinks p) in
  let! chdir := append_one Chdir (lp_cwd p) in
  Ok (base_args p seccomp_fd ++ hidden ++ directories ++ binds ++ pinned ++ files ++ masks ++ links
      ++ chdir).

Definition build_bwrap_args (p : LinuxSandboxPolicy) (command : list string) (seccomp_fd : Z)
    (pinned_workspace_fd : option Z) (pinned_paths : list PinnedReadOnlyPath) :
    result string (list string) :=
  validate canonicalize is_dir kind p ;!
  match lp_pinned_workspace p with
  | Some _ => ensure (is_some pinned_workspace_fd)
                "pinned workspace policy requires a verified directory descriptor"
  | None => ensure (negb (is_some pinned_workspace_fd))
              "a pinned workspace descriptor requires a pinned workspace policy"
  end ;!
  let! args := mount_args p seccomp_fd pinned_workspace_fd pinned_paths in
  Ok (flat_map render args ++ "--"%string :: command).

(** * Policies on the wire *)

Definition MAX_POLICY_BYTES : Z := 1024 * 1024.

(** [of_json]: the derived [Deserialize]. *)
Definition parse_policy (of_json : string -> option LinuxSandboxPolicy) (value : string) :
    result string LinuxSandboxPolicy :=
  ensure (str_len value <=? MAX_POLICY_BYTES) "Linux sandbox policy is too large" ;!
  let! policy := ok_or (of_json value) "invalid Linux sandbox policy JSON"%string in
  validate canonicalize is_dir kind policy ;!
  Ok policy.

Definition command_args (to_json : LinuxSandboxPolicy -> string) (policy : LinuxSandboxPolicy)
    (command : list string) : result string (list string) :=
  validate_command command ;!
  Ok (["--policy"; to_json policy; "--"]%string ++ command).

(** The arguments before the separator and the command after it. *)
Fixpoint split_command (raw : list string) : option (list string * list string) :=
  match raw with
  | [] => None
  | arg :: rest =>
      if String.eqb arg "--" then Some ([], rest)
      else '(before, command) ← split_command rest; Some (arg :: before, command)
  end.

(** [take_policy]: what the argument parser gives for [--policy] and what it leaves;
    [no_arguments]: whether it finds nothing else there. *)
Definition parse_helper_args (take_policy : list string -> result string (string * list string))
    (no_arguments : list string -> result string unit) (of_json : string -> option LinuxSandboxPolicy)
    (raw : list string) : result string (LinuxSandboxPolicy * list string) :=
  let! split := ok_or (split_command raw)
    "Linux sandbox helper requires '--' before the command"%string in
  let '(before, command) := split in
  validate_command command ;!
  let! taken := take_policy before in
  let '(value, rest) := taken in
  let! policy := parse_policy of_json value in
  no_arguments rest ;!
  Ok (policy, command).

(** * Pinning *)

(** [openat fd name directory]: [None] when nothing is there. *)
Context (openat : Z -> string -> bool -> result string (option Z))
  (fd_kind : Z -> result string FileKind) (descriptor_link contents : Z -> result string string)
  (read_file : string -> result string string) (open_workspace : string -> result string Z).

Fixpoint pin_components (fd : Z) (absolute : string) (names : list Component) :
    result string PinnedReadOnlySource :=
  match names with
  | [] => Err "protected workspace path must name a descendant"%string
  | c :: rest =>
      let absolute := push_component absolute c in
      let! next := openat fd (component_text c) (nonempty rest) in
      match next with
      | None => Ok (Missing absolute)
      | Some next =>
          if nonempty rest then pin_components next absolute rest
          else
            let! k := fd_kind next in
            ensure (negb (is_symlink_kind k)) "protected workspace path became a symbolic link" ;!
            Ok (Existing next)
      end
  end.

Definition is_normal (c : Component) : bool :=
  match c with
  | Normal _ => true
  | _ => false
  end.

Definition pin_relative_workspace_path (fd : Z) (workspace : string) (relative : list Component) :
    result string PinnedReadOnlySource :=
  ensure (forallb is_normal relative) "protected workspace path is not relative and normalized" ;!
  pin_components fd workspace relative.

Fixpoint pin_paths (fd : Z) (workspace : string) (targets : list string) :
    result string (list PinnedReadOnlyPath) :=
  match targets with
  | [] => Ok []
  | target :: rest =>
      if negb (path_starts_with target workspace) || path_eqb target workspace
      then pin_paths fd workspace rest
      else
        let! source := pin_relative_workspace_path fd workspace
                         (drop (path_depth workspace) (components target)) in
        let! rest := pin_paths fd workspace rest in
        Ok (mkPinnedPath target source :: rest)
  end.

Definition pin_workspace_read_only_paths (p : LinuxSandboxPolicy) (fd : Z) :
    result string (list PinnedReadOnlyPath) :=
  let! pinned := ok_or (lp_pinned_workspace p)
    "protected path pinning requires a pinned workspace policy"%string in
  pin_paths fd (pw_path pinned) (lp_read_only_paths p).

Definition MAX_PINNED_GIT_POINTER_BYTES : Z := 8192.

Definition read_descriptor (fd maximum : Z) : result string string :=
  let! bytes := contents fd in
  ensure (str_len bytes <=? maximum) "workspace metadata is too large" ;!
  Ok bytes.

Definition read_descriptor_path (fd : Z) : result string string :=
  let! text := descriptor_link fd in
  Ok (default text (str_strip_suffix " (deleted)" text)).

(** The first line, if it is not blank. *)
Definition first_word (text : string) : option string :=
  line ← head (lines text);
  if str_is_empty (trim line) then None else Some (trim line).

Definition parse_gitdir_pointer (text : string) : result string string :=
  let! pointer := ok_or (line ← head (lines text);
                         value ← str_strip_prefix "gitdir:" line;
                         if str_is_empty (trim value) then None else Some (trim value))
                    "pinned workspace .git pointer has no gitdir path"%string in
  ensure (forallb (fun line => str_is_empty (trim line)) (drop 1 (lines text)))
    "pinned workspace .git pointer has unexpected extra content" ;!
  Ok pointer.

Definition canonical_pointer_target (pointer_file value : string) : result string string :=
  let! target := (if is_absolute value then Ok value
                  else let! parent := ok_or (path_parent pointer_file)
                                        "pinned workspace .git pointer has no parent"%string in
                       Ok (path_join parent value)) in
  map_err (fun _ => "cannot resolve Git directory"%string) (canonicalize target).

Definition in_worktrees (root : string) : bool :=
  is_some_and (String.eqb "worktrees") (parent ← path_parent root; path_file_name parent).

Definition no_follow (fd : Z) (name : string) : result string Z :=
  let! next := openat fd name false in
  ok_or next "cannot open workspace metadata"%string.

Definition verify_pinned_workspace (fd : Z) (pinned : LinuxPinnedWorkspace) : result string unit :=
  let! k := fd_kind fd in
  ensure (match k with
          | KDirectory => true
          | _ => false
          end) "pinned workspace is not a directory" ;!
  let! dot_git := no_follow fd ".git" in
  let! k := fd_kind dot_git in
  match k with
  | KDirectory =>
      ensure (path_eqb (pw_worktree_root pinned) (pw_primary_checkout pinned))
        "pinned workspace is not the validated primary checkout" ;!
      let! dot_git_path := read_descriptor_path dot_git in
      let! canonical := map_err (fun _ => "cannot resolve"%string) (canonicalize dot_git_path) in
      ensure (path_eqb canonical (pw_common_dir pinned))
        "pinned workspace common Git directory changed"
  | KFile =>
      ensure (negb (path_eqb (pw_worktree_root pinned) (pw_primary_checkout pinned)))
        "pinned workspace is not the validated linked worktree" ;!
      let! file := no_follow fd ".git" in
      let! text := read_descriptor file MAX_PINNED_GIT_POINTER_BYTES in
      ensure (utf8_valid (str_bytes text)) "pinned workspace .git pointer is not valid UTF-8" ;!
      let! pointer := parse_gitdir_pointer text in
      let! workspace_dir := read_descriptor_path fd in
      let! private := canonical_pointer_target (path_join workspace_dir ".git") pointer in
      let! expected := ok_or (find in_worktrees (pw_metadata_roots pinned))
                         "pinned workspace has no validated private metadata root"%string in
      ensure (path_eqb private expected) "pinned workspace belongs to a different repository identity" ;!
      let commondir_file := path_join private "commondir" in
      let! text := read_file commondir_file in
      let! pointer := ok_or (first_word text) "Git common directory pointer is empty"%string in
      let! commondir := canonical_pointer_target commondir_file pointer in
      ensure (path_eqb commondir (pw_common_dir pinned))
        "pinned workspace common Git directory changed"
  | _ => Err "pinned workspace .git metadata is neither a directory nor a file"%string
  end.

Definition pin_policy_workspace (pinned : LinuxPinnedWorkspace) : result string Z :=
  ensure (utf8_valid (str_bytes (pw_path pinned))) "pinned workspace path is not valid UTF-8" ;!
  ensure (negb (existsb (Z.eqb 0) (str_bytes (pw_path pinned))))
    "pinned workspace path contains a NUL byte" ;!
  let! fd := open_workspace (pw_path pinned) in
  verify_pinned_workspace fd pinned ;!
  Ok fd.

(** [run_main] up to the execution of bubblewrap. *)
Definition helper_args (p : LinuxSandboxPolicy) (command : list string) (seccomp_fd : Z) :
    result string (list string) :=
  let! pinned := match lp_pinned_workspace p with
                 | Some pinned => let! fd := pin_policy_workspace pinned in Ok (Some fd)
                 | None => Ok None
                 end in
  let! paths := match pinned with
                | Some fd => pin_workspace_read_only_paths p fd
                | None => Ok []
                end in
  build_bwrap_args p command seccomp_fd pinned paths.
End Helper.
