(* ===== verification/BwrapTheorems.v ===== *)
(** * What a sandboxed command may write

    The mounts that the helper asks bubblewrap for, read the way bubblewrap documents
    them (they are made in the order of the arguments, and one covers its target and all
    that is below), leave exactly the intended paths writable: what the loop over the
    roots computes is what is mounted, protected paths are never writable, and the
    metadata of a repository stays protected.  A pinned workspace is the exception. *)

From S2P Require Import Prelude Strings Config ConfigTheorems NamedRoots NamedRootsTheorems LinuxPolicy Bwrap.

#[local] Open Scope Z_scope.
#[local] Open Scope rust_scope.

(** * Mounts *)

(** What a command finds at a path: a directory of the host it may write, one it may only
    read, or something that is not of the host. *)
Inductive Access := HostWritable | HostReadOnly | Elsewhere.

(** The mount an option asks for, per the manual of bubblewrap. *)
Definition mount_of (a : BwrapArg) : option (string * Access) :=
  match a with
  | Bind _ target | BindFd _ target => Some (target, HostWritable)
  | RoBind _ target | RoBindFd _ target => Some (target, HostReadOnly)
  | DevBind _ target | Tmpfs target | RemountRo target | Dev target | Proc target =>
      Some (target, Elsewhere)
  | _ => None
  end.

Definition mounted (path : string) (a : Access) (arg : BwrapArg) : Access :=
  match mount_of arg with
  | Some (target, a') => if path_starts_with path target then a' else a
  | None => a
  end.

(** The last mount that covers the path decides. *)
Definition access_after (a : Access) (args : list BwrapArg) (path : string) : Access :=
  fold_left (mounted path) args a.
Definition access (args : list BwrapArg) (path : string) : Access := access_after Elsewhere args path.

Lemma access_app a l1 l2 path :
  access_after a (l1 ++ l2) path = access_after (access_after a l1 path) l2 path.
Proof. apply fold_left_app. Qed.

(** Options that cover the path with nothing. *)
Definition uncovering (path : string) (arg : BwrapArg) : Prop :=
  forall target a, mount_of arg = Some (target, a) -> path_starts_with path target = false.

Lemma access_uncovered a l path :
  (forall arg, arg ∈ l -> uncovering path arg) -> access_after a l path = a.
Proof.
  revert a. induction l as [|x l IH]; intros a Hl; [done|]. cbn. unfold mounted at 2.
  destruct (mount_of x) as [[t a']|] eqn:E; [rewrite (Hl x (list_elem_of_here _ _) _ _ E)|];
    apply IH; intros arg Harg; apply Hl; by right.
Qed.

(** Options that make nothing of the host writable. *)
Definition withholding (arg : BwrapArg) : Prop :=
  forall target, mount_of arg <> Some (target, HostWritable).

Lemma access_withheld a l path :
  (forall arg, arg ∈ l -> withholding arg) ->
  access_after a l path = HostWritable ->
  a = HostWritable /\ forall arg, arg ∈ l -> uncovering path arg.
Proof.
  revert a. induction l as [|x l IH]; intros a Hl Ha; [by split; [|intros ? []%elem_of_nil]|].
  cbn in Ha. apply IH in Ha as [Ha Hu]; [|intros arg Harg; apply Hl; by right].
  unfold mounted in Ha. assert (uncovering path x /\ a = HostWritable) as [Hx ->].
  { unfold uncovering. destruct (mount_of x) as [[t a']|] eqn:E; [|by split].
    destruct (path_starts_with path t) eqn:Ep.
    - subst a'. destruct (Hl x (list_elem_of_here _ _) _ E).
    - split; [|done]. by intros ? ? [= <- <-]. }
  split; [done|]. by intros arg [->|Harg]%elem_of_cons; [|apply Hu].
Qed.

(** * Prefixes *)

Lemma starts_with_refl p : path_starts_with p p = true.
Proof. apply starts_with_app. exists []. by rewrite app_nil_r. Qed.

Lemma starts_with_trans a b c :
  path_starts_with a b = true -> path_starts_with b c = true -> path_starts_with a c = true.
Proof.
  intros [x Hx]%starts_with_app [y Hy]%starts_with_app. apply starts_with_app. exists (y ++ x).
  by rewrite Hx, Hy, app_assoc.
Qed.

Lemma starts_with_eqb q a b : path_eqb a b = true -> path_starts_with q a = path_starts_with q b.
Proof. intros E%path_eqb_eq. unfold path_starts_with. by rewrite E. Qed.

(** Of two paths that lead to the same place the shorter is above the other. *)
Lemma starts_with_depth q a b :
  path_starts_with q a = true -> path_starts_with q b = true ->
  (path_depth a <= path_depth b)%nat -> path_starts_with b a = true.
Proof.
  intros [x Hx]%starts_with_app [y Hy]%starts_with_app Hd. unfold path_depth in Hd.
  apply starts_with_app. exists (take (length (components b) - length (components a)) x).
  rewrite Hx in Hy. apply (f_equal (take (length (components b)))) in Hy.
  rewrite (take_app_length (components b)), (take_app_ge (components a)) in Hy by done. by symmetry.
Qed.

Lemma starts_with_le a b : path_starts_with a b = true -> (path_depth b <= path_depth a)%nat.
Proof. intros [x Hx]%starts_with_app. unfold path_depth. rewrite Hx, length_app. lia. Qed.

Lemma starts_with_same_depth a b :
  path_starts_with a b = true -> (path_depth a <= path_depth b)%nat -> path_eqb a b = true.
Proof.
  intros [x Hx]%starts_with_app Hd. unfold path_depth in Hd. rewrite Hx, length_app in Hd.
  apply path_eqb_eq. destruct x; [by rewrite Hx, app_nil_r|cbn in Hd; lia].
Qed.

(** * The roots *)

Lemma depth_leb_total a b : depth_leb a b = true \/ depth_leb b a = true.
Proof. unfold depth_leb. rewrite !Nat.leb_le. lia. Qed.
Lemma depth_leb_trans a b c : depth_leb a b = true -> depth_leb b c = true -> depth_leb a c = true.
Proof. unfold depth_leb. rewrite !Nat.leb_le. lia. Qed.

Lemma bind_leb_spec a b :
  bind_leb a b = true <->
  (path_depth a.1 < path_depth b.1)%nat \/ (path_depth a.1 = path_depth b.1 /\ implb a.2 b.2 = true).
Proof.
  unfold bind_leb. destruct (Nat.eqb_spec (path_depth a.1) (path_depth b.1)); [|rewrite Nat.ltb_lt]; intuition lia.
Qed.
Lemma bind_leb_total a b : bind_leb a b = true \/ bind_leb b a = true.
Proof. rewrite !bind_leb_spec. destruct a.2, b.2; cbn; lia. Qed.
Lemma bind_leb_trans a b c : bind_leb a b = true -> bind_leb b c = true -> bind_leb a c = true.
Proof. rewrite !bind_leb_spec. destruct a.2, b.2, c.2; cbn; lia. Qed.

(** By the depth of the paths, up to equal ones. *)
Lemma by_depth_sub x l : x ∈ by_depth l -> x ∈ l.
Proof. apply sort_dedup_sub. Qed.
Lemma by_depth_keeps x l : x ∈ l -> exists y, path_eqb x y = true /\ y ∈ by_depth l.
Proof. apply sort_dedup_keeps, path_eqb_refl. Qed.

(** The binds of the policy: the roots with whether they are writable. *)
Definition has_bind (p : LinuxSandboxPolicy) (root : string) (writable : bool) : Prop :=
  root ∈ if writable then lp_writable_roots p ++ lp_temporary_roots p else lp_read_only_roots p.

Lemma ordered_binds_sub p b : b ∈ ordered_binds p -> has_bind p b.1 b.2.
Proof.
  unfold ordered_binds, has_bind. rewrite sort_by_elem, elem_of_app.
  intros [(x & Hx & ->)%elem_of_map_inv|(x & Hx & ->)%elem_of_map_inv]; cbn; [|done].
  by apply by_depth_sub in Hx.
Qed.

Lemma ordered_binds_keeps p root w :
  has_bind p root w -> exists root', path_eqb root root' = true /\ (root', w) ∈ ordered_binds p.
Proof.
  unfold ordered_binds, has_bind. destruct w; intros Hr.
  - apply by_depth_keeps in Hr as (y & Hy & Hin). exists y. split; [done|].
    rewrite sort_by_elem, elem_of_app. left. change (y, true) with ((fun r => (r, true)) y).
    by apply elem_of_map.
  - exists root. split; [apply path_eqb_refl|]. rewrite sort_by_elem, elem_of_app. right.
    change (root, false) with ((fun r => (r, false)) root). by apply elem_of_map.
Qed.

Definition covers (path : string) (b : string * bool) : Prop := path_starts_with path b.1 = true.

(** The deepest root above a path, writable ones after the others. *)
Definition decides (p : LinuxSandboxPolicy) (path : string) (b : string * bool) : Prop :=
  has_bind p b.1 b.2 /\ covers path b
  /\ forall b', has_bind p b'.1 b'.2 -> covers path b' -> bind_leb b' b = true.

Lemma decides_unique p path b1 b2 : decides p path b1 -> decides p path b2 -> b1.2 = b2.2.
Proof.
  intros (H1 & C1 & L1) (H2 & C2 & L2). specialize (L1 b2 H2 C2). specialize (L2 b1 H1 C1).
  rewrite bind_leb_spec in L1, L2. destruct b1.2, b2.2; cbn in *; lia || done.
Qed.

(** ** The loop over the roots *)

Lemma read_only_loop path roots : forall e,
  (forall d w, e = Some (d, w) -> w = false) ->
  let e' := fold_left (effective_read_only path) roots e in
  (forall d w, e' = Some (d, w) -> w = false
      /\ (e = Some (d, w) \/ exists r, r ∈ roots /\ path_starts_with path r = true /\ path_depth r = d))
  /\ (forall r, r ∈ roots -> path_starts_with path r = true ->
        exists d w, e' = Some (d, w) /\ (path_depth r <= d)%nat)
  /\ (forall d w, e = Some (d, w) -> exists d' w', e' = Some (d', w') /\ (d <= d')%nat).
Proof.
  induction roots as [|x roots IH]; intros e He; cbn [fold_left].
  { split; [eauto|]. split; [by intros r []%elem_of_nil|eauto]. }
  set (e1 := effective_read_only path e x). cbn zeta.
  assert (forall d w, e1 = Some (d, w) -> w = false
    /\ (e = Some (d, w) \/ path_starts_with path x = true /\ path_depth x = d)) as H1.
  { intros d w. subst e1. unfold effective_read_only. case_match eqn:E; [|eauto].
    intros [= <- <-]. apply andb_true_iff in E as [E _]. eauto. }
  assert (path_starts_with path x = true -> exists d w, e1 = Some (d, w) /\ (path_depth x <= d)%nat) as H2.
  { intros Hx. subst e1. unfold effective_read_only. rewrite Hx. cbn -[Nat.ltb Nat.leb].
    destruct e as [[d w]|]; cbn -[Nat.ltb Nat.leb]; [|eauto]. rewrite (He d w eq_refl), andb_false_r, orb_false_r.
    destruct (Nat.ltb_spec d (path_depth x)); eauto. }
  assert (forall d w, e = Some (d, w) -> exists d' w', e1 = Some (d', w') /\ (d <= d')%nat) as H3.
  { intros d w ->. subst e1. unfold effective_read_only. cbn -[Nat.ltb Nat.leb].
    rewrite (He d w eq_refl), andb_false_r, orb_false_r.
    destruct (path_starts_with path x); cbn -[Nat.ltb Nat.leb]; [|eauto]. destruct (Nat.ltb_spec d (path_depth x)); eauto with lia. }
  destruct (IH e1) as (A & B & C); [by intros d w Hd; apply H1 in Hd as [? _]|].
  split; [|split].
  - intros d w Hd. apply A in Hd as [-> [Hd|(r & Hr & Hp & Hd)]].
    + apply H1 in Hd as [_ [Hd|[Hp Hd]]]; (split; [done|]); [by left|right]. exists x. split; [left|done].
    + split; [done|]. right. exists r. split; [by right|done].
  - intros r [->|Hr]%elem_of_cons Hp; [|by apply B]. destruct (H2 Hp) as (d & w & He1 & Hd).
    destruct (C d w He1) as (d' & w' & ? & ?). eauto with lia.
  - intros d w Hd. destruct (H3 d w Hd) as (d1 & w1 & He1 & ?). destruct (C d1 w1 He1) as (d' & w' & ? & ?).
    eauto with lia.
Qed.

Lemma writable_loop path roots : forall e,
  let e' := fold_left (effective_writable path) roots e in
  (forall d w, e' = Some (d, w) -> e = Some (d, w)
      \/ (w = true /\ exists r, r ∈ roots /\ path_starts_with path r = true /\ path_depth r = d))
  /\ (forall r, r ∈ roots -> path_starts_with path r = true ->
        exists d w, e' = Some (d, w) /\ ((path_depth r < d)%nat \/ (path_depth r <= d)%nat /\ w = true))
  /\ (forall d w, e = Some (d, w) ->
        exists d' w', e' = Some (d', w') /\ (d <= d')%nat /\ (w = true -> w' = true)).
Proof.
  induction roots as [|x roots IH]; intros e; cbn [fold_left].
  { split; [eauto|]. split; [by intros r []%elem_of_nil|eauto 6]. }
  set (e1 := effective_writable path e x). cbn zeta.
  assert (forall d w, e1 = Some (d, w) -> e = Some (d, w)
    \/ (w = true /\ path_starts_with path x = true /\ path_depth x = d)) as H1.
  { intros d w. subst e1. unfold effective_writable. case_match eqn:E; [|eauto].
    intros [= <- <-]. apply andb_true_iff in E as [E _]. eauto. }
  assert (path_starts_with path x = true ->
    exists d w, e1 = Some (d, w) /\ ((path_depth x < d)%nat \/ (path_depth x <= d)%nat /\ w = true)) as H2.
  { intros Hx. subst e1. unfold effective_writable. rewrite Hx. cbn -[Nat.ltb Nat.leb].
    destruct e as [[d w]|]; cbn -[Nat.ltb Nat.leb]; [|eauto 6]. destruct (Nat.leb_spec d (path_depth x)); eauto 6. }
  assert (forall d w, e = Some (d, w) ->
    exists d' w', e1 = Some (d', w') /\ (d <= d')%nat /\ (w = true -> w' = true)) as H3.
  { intros d w ->. subst e1. unfold effective_writable. cbn -[Nat.ltb Nat.leb].
    destruct (path_starts_with path x); cbn -[Nat.ltb Nat.leb]; [|eauto 6]. destruct (Nat.leb_spec d (path_depth x)); eauto 6. }
  destruct (IH e1) as (A & B & C). split; [|split].
  - intros d w Hd. apply A in Hd as [Hd|(Hw & r & Hr & Hp & Hd)].
    + apply H1 in Hd as [Hd|(Hw & Hp & Hd)]; [by left|right]. split; [done|]. exists x. split; [left|done].
    + right. split; [done|]. exists r. split; [by right|done].
  - intros r [->|Hr]%elem_of_cons Hp; [|by apply B]. destruct (H2 Hp) as (d & w & He1 & Hd).
    destruct (C d w He1) as (d' & w' & ? & ? & Hw). exists d', w'. split; [done|].
    destruct Hd as [|[? ->]]; [left; lia|right]. split; [lia|by apply Hw].
  - intros d w Hd. destruct (H3 d w Hd) as (d1 & w1 & He1 & ? & ?).
    destruct (C d1 w1 He1) as (d' & w' & ? & ? & ?). eauto 7 with lia.
Qed.

(** The loop finds the root that decides. *)
Lemma effective_mount_spec p path :
  match effective_mount p path with
  | Some (d, w) => exists b, decides p path b /\ b.2 = w
  | None => forall b, has_bind p b.1 b.2 -> ~ covers path b
  end.
Proof.
  unfold effective_mount.
  destruct (read_only_loop path (lp_read_only_roots p) None) as (A & B & _); [done|].
  set (e := fold_left (effective_read_only path) (lp_read_only_roots p) None) in *.
  destruct (writable_loop path (lp_writable_roots p ++ lp_temporary_roots p) e) as (A' & B' & C').
  set (e' := fold_left (effective_writable path) _ e) in *. cbn zeta in *.
  assert (forall b, has_bind p b.1 b.2 -> covers path b -> exists d w, e' = Some (d, w)
    /\ ((path_depth b.1 < d)%nat \/ (path_depth b.1 = d /\ implb b.2 w = true))) as Hle.
  { intros [r w] Hb Hc. unfold has_bind, covers in *. cbn [fst snd] in *. destruct w.
    - destruct (B' r Hb Hc) as (d & w & -> & Hd). exists d, w. split; [done|]. cbn [fst snd].
      destruct Hd as [|[? ->]]; [by left|]. destruct (Nat.eq_dec (path_depth r) d); [right; by split|left; lia].
    - destruct (B r Hb Hc) as (d & w & He & Hd). destruct (C' d w He) as (d' & w' & -> & ? & _).
      exists d', w'. split; [done|]. destruct (Nat.eq_dec (path_depth r) d'); [right; by split|left; cbn [fst]; lia]. }
  destruct e' as [[d w]|] eqn:E'.
  - assert (exists r, has_bind p r w /\ path_starts_with path r = true /\ path_depth r = d) as (r & Hr & Hp & Hd).
    { destruct (A' d w eq_refl) as [He|(-> & r & Hr & Hp & Hd)]; [|by exists r].
      destruct (A d w He) as [-> [?|(r & Hr & Hp & Hd)]]; [done|]. by exists r. }
    exists (r, w). split; [|done]. split; [done|]. split; [done|]. intros b' Hb' Hc'.
    destruct (Hle b' Hb' Hc') as (d' & w' & [= <- <-] & Hb). rewrite bind_leb_spec. cbn [fst snd]. by rewrite Hd.
  - intros b Hb Hc. by destruct (Hle b Hb Hc) as (? & ? & ? & _).
Qed.

(** ** The binds *)

Definition bind_access (w : bool) : Access := if w then HostWritable else HostReadOnly.

Lemma append_all_Ok {A : Type} (f : A -> result string (list BwrapArg)) l args :
  append_all f l = Ok args -> forall arg, arg ∈ args -> exists a one, a ∈ l /\ f a = Ok one /\ arg ∈ one.
Proof.
  revert args. induction l as [|a l IH]; cbn; intros args.
  { intros [= <-] arg []%elem_of_nil. }
  intros (one & H1 & H)%bind_Ok. apply bind_Ok in H as (rest & H2 & [= <-]).
  intros arg [Ha|Ha]%elem_of_app; [exists a, one; split; [left|done]|].
  destruct (IH rest H2 arg Ha) as (b & o & ? & ? & ?). exists b, o. split; [by right|done].
Qed.

Lemma append_pair_Ok op s t args : append_pair op s t = Ok args -> args = [op s t].
Proof.
  unfold append_pair, path_to_string. intros (x & Hx & H)%bind_Ok. apply bind_Ok in H as (y & Hy & [= <-]).
  apply bind_Ok in Hx as ([] & _ & [= <-]). by apply bind_Ok in Hy as ([] & _ & [= <-]).
Qed.

Lemma append_one_Ok op t args : append_one op t = Ok args -> args = [op t].
Proof.
  unfold append_one, path_to_string. intros (x & Hx & [= <-])%bind_Ok.
  by apply bind_Ok in Hx as ([] & _ & [= <-]).
Qed.

Lemma sorted_binds_access path l : forall a args,
  StronglySorted (fun x y => bind_leb x y = true) l ->
  append_all (fun '(root, writable) => append_pair (if writable : bool then Bind else RoBind) root root) l
    = Ok args ->
  (access_after a args path = a /\ forall b, b ∈ l -> ~ covers path b)
  \/ exists b, b ∈ l /\ covers path b /\ access_after a args path = bind_access b.2
       /\ forall b', b' ∈ l -> covers path b' -> bind_leb b' b = true.
Proof.
  induction l as [|[r w] l IH]; cbn [append_all]; intros a args Hs.
  { intros [= <-]. left. split; [done|]. by intros b []%elem_of_nil. }
  apply StronglySorted_inv in Hs as [Hs Hall]. rewrite Forall_forall in Hall.
  intros (one & ->%append_pair_Ok & H)%bind_Ok. apply bind_Ok in H as (rest & H & [= <-]).
  set (one := (if w then Bind else RoBind) r r). set (a1 := mounted path a one).
  change (access_after a (one :: rest) path) with (access_after a1 rest path).
  assert (a1 = if path_starts_with path r then bind_access w else a) as Ha1 by (subst a1 one; by destruct w).
  destruct (IH a1 rest Hs H) as [[Heq Hno]|(b & Hb & Hc & Heq & Hmax)].
  - rewrite Heq, Ha1. destruct (path_starts_with path r) eqn:Ep.
    + right. exists (r, w). split; [left|]. split; [done|]. split; [done|].
      intros b' [->|Hb']%elem_of_cons Hc'; [|by destruct (Hno b' Hb')].
      destruct (bind_leb_total (r, w) (r, w)); done.
    + left. split; [done|]. intros b [->|Hb]%elem_of_cons; [|by apply Hno]. unfold covers. cbn [fst]. by rewrite Ep.
  - right. exists b. split; [by right|]. split; [done|]. split; [done|].
    intros b' [->|Hb']%elem_of_cons Hc'; [by apply Hall|by apply Hmax].
Qed.

Lemma append_all_ext {A : Type} (f g : A -> result string (list BwrapArg)) l :
  (forall a, a ∈ l -> f a = g a) -> append_all f l = append_all g l.
Proof.
  induction l as [|a l IH]; intros H; cbn; [done|]. rewrite (H a) by left. f_equal.
  rewrite IH; [done|]. intros b Hb. apply H. by right.
Qed.

(** What the binds make of a path, when the workspace is not pinned. *)
Lemma bind_args_access p path a args :
  lp_pinned_workspace p = None -> bind_args p = Ok args ->
  match effective_mount p path with
  | Some (_, w) => access_after a args path = bind_access w
  | None => access_after a args path = a
  end.
Proof.
  intros Hn H. unfold bind_args in H.
  rewrite (append_all_ext _ (fun '(root, writable) => append_pair (if writable : bool then Bind else RoBind) root root))
    in H by (intros [r w] _; unfold is_pinned; by rewrite Hn).
  apply (sorted_binds_access path _ a) in H;
    [|apply sort_by_sorted; [apply bind_leb_total|apply bind_leb_trans]].
  pose proof (effective_mount_spec p path) as He. destruct H as [[Ha Hno]|(b & Hb & Hc & Ha & Hmax)].
  - destruct (effective_mount p path) as [[d w]|]; [|done]. destruct He as ([r w'] & (Hb & Hc & _) & _).
    exfalso. apply ordered_binds_keeps in Hb as (r' & Hr & Hin). apply (Hno _ Hin). unfold covers in *. cbn [fst snd] in *.
    by rewrite <- (starts_with_eqb path r r' Hr).
  - assert (decides p path b) as Hd.
    { split; [by apply ordered_binds_sub|]. split; [done|]. intros [r w] Hb' Hc'.
      destruct (ordered_binds_keeps p r w Hb') as (r' & Hr & Hin).
      assert (covers path (r', w)) as Hc'' by (unfold covers in *; cbn [fst snd] in *; by rewrite <- (starts_with_eqb _ _ _ Hr)).
      specialize (Hmax _ Hin Hc''). rewrite bind_leb_spec in *. cbn [fst snd] in *. unfold path_depth in *.
      apply path_eqb_eq in Hr. by rewrite Hr. }
    destruct (effective_mount p path) as [[d w]|].
    + destruct He as (b' & Hd' & <-). by rewrite (decides_unique p path _ _ Hd' Hd).
    + destruct (He b); [apply Hd|done].
Qed.

(** The reading of the policy that decides whether a missing protected path needs a mask
    is what the mounts do: it says read-only exactly when the last bind above the path is. *)
Theorem effective_mount_exact p path args :
  lp_pinned_workspace p = None -> bind_args p = Ok args ->
  effective_mount_is_read_only p path = true <-> access args path = HostReadOnly.
Proof.
  intros Hn H. pose proof (bind_args_access p path Elsewhere args Hn H) as Ha.
  unfold access, effective_mount_is_read_only.
  destruct (effective_mount p path) as [[d []]|]; rewrite Ha; cbn; done.
Qed.

(** * Protected paths *)

(** What is relied on of the file system while the arguments are built: a path is only
    reached through what is above it, a directory is there, and nothing is a directory at
    or below a regular file. *)
Class SandboxFs (canonicalize : string -> result FsError string) (is_dir exists_ : string -> bool)
    (kind : string -> result FsError FileKind) : Prop := {
  exists_above : forall path above, exists_ path = true -> is_absolute path = true ->
    is_absolute above = true -> path_starts_with path above = true -> exists_ above = true;
  directory_exists : forall path canonical, canonicalize path = Ok canonical -> exists_ path = true;
  file_is_leaf : forall file path canonical, kind file = Ok KFile ->
    canonicalize path = Ok canonical -> is_dir canonical = true -> path_starts_with path file = false;
}.

Section Masks.
Context (canonicalize : string -> result FsError string) (is_dir exists_ : string -> bool)
  (kind : string -> result FsError FileKind).
Context `{FS : !SandboxFs canonicalize is_dir exists_ kind}.

#[local] Notation validate := (validate canonicalize is_dir kind).
#[local] Notation mask_paths := (mask_paths is_dir exists_).
#[local] Notation mask_path := (mask_path is_dir exists_).
#[local] Notation first_missing := (first_missing exists_).
#[local] Notation first_missing_component := (first_missing_component exists_).

(** ** The first missing component *)

Lemma clean_components path :
  is_absolute path = true -> forallb is_clean_component (components path) = true ->
  exists names, components path = RootDir :: map Normal names /\ Forall name_ok names.
Proof.
  intros Ha Hc. pose proof (components_absolute path Ha) as Hk.
  assert (forall c, c ∈ keep (split_on "/" path) -> exists n, c = Normal n /\ name_ok n) as Hall.
  { intros c Hin. assert (c ∈ components path) as Hin' by (rewrite Hk; by right).
    rewrite forallb_forall in Hc. specialize (Hc c (proj1 (list_elem_of_In _ _) Hin')).
    unfold keep in Hin. apply elem_of_map_inv in Hin as (x & _ & Hx). unfold component_of in Hx.
    destruct (x =? "..")%string; subst c; [done|]. exists x. split; [done|]. by apply (normal_name path). }
  rewrite Hk. clear Hk. induction (keep (split_on "/" path)) as [|c cs IH]; [by exists []|].
  destruct IH as (names & [= ->] & Hn); [intros d Hd; apply Hall; by right|].
  destruct (Hall c) as (n & -> & Hok); [by left|]. exists (n :: names). split; [done|]. by constructor.
Qed.

Lemma first_missing_spec names : forall current,
  is_absolute current = true -> Forall name_ok names ->
  match first_missing current (map Normal names) with
  | Some m => is_absolute m = true /\ exists_ m = false
      /\ exists above n below, names = above ++ n :: below
         /\ components m = components current ++ map Normal (above ++ [n])
         /\ forall q, is_absolute q = true -> above <> [] ->
              components q = components current ++ map Normal above -> exists_ q = true
  | None => names <> [] -> exists q, is_absolute q = true /\ exists_ q = true
      /\ components q = components current ++ map Normal names
  end.
Proof.
  induction names as [|n names IH]; intros current Ha Hn; cbn [map Bwrap.first_missing]; [done|].
  inversion Hn as [|? ? Hn1 Hn2]; subst.
  set (next := push_component current (Normal n)).
  assert (is_absolute next = true) as Ha' by (by apply push_absolute).
  assert (components next = components current ++ [Normal n]) as Hc by (by apply components_push).
  destruct (exists_ next) eqn:Ee.
  - specialize (IH next Ha' Hn2). destruct (first_missing next (map Normal names)) as [m|].
    + destruct IH as (H1 & H2 & above & x & below & -> & H3 & H4). split; [done|]. split; [done|].
      exists (n :: above), x, below. split; [done|]. split; [by rewrite H3, Hc, <- app_assoc|].
      intros q Hq _ Hcq. destruct above as [|y above].
      * eapply (exists_above next q); [done|done|done|]. apply starts_with_app. exists [].
        by rewrite app_nil_r, Hc, Hcq.
      * apply (H4 q); [done|done|]. by rewrite Hcq, Hc, <- app_assoc.
    + intros _. destruct names as [|y names]; [by exists next|].
      destruct IH as (q & ? & ? & Hq); [done|]. exists q. split; [done|]. split; [done|].
      by rewrite Hq, Hc, <- app_assoc.
  - split; [done|]. split; [done|]. exists [], n, names. split; [done|]. by split.
Qed.

(** Where a protected path is masked. *)
Definition masked_at (path : string) : string :=
  if exists_ path then path else default path (first_missing_component path).

(** A clean path that is missing is masked at a path above it that is missing too, but
    what is above that exists. *)
Lemma masked_at_missing path :
  is_absolute path = true -> forallb is_clean_component (components path) = true ->
  exists_ path = false -> path_eqb path "/" = false ->
  let m := masked_at path in
  is_absolute m = true /\ exists_ m = false /\ path_starts_with path m = true
  /\ forall q, is_absolute q = true -> path_eqb q "/" = false -> path_starts_with m q = true ->
       exists_ q = false -> path_eqb q m = true.
Proof.
  intros Ha Hcl He Hr. cbn zeta. unfold masked_at. rewrite He. unfold Bwrap.first_missing_component.
  destruct (clean_components path Ha Hcl) as (names & Hc & Hn). rewrite Hc. cbn [Bwrap.first_missing].
  assert (components "/" = [RootDir]) as Hroot by done.
  assert (names <> []) as Hne. { intros ->. apply not_true_iff_false in Hr. by destruct Hr; apply path_eqb_eq. }
  pose proof (first_missing_spec names "/" eq_refl Hn) as H.
  destruct (first_missing "/" (map Normal names)) as [m|].
  - destruct H as (H1 & H2 & above & n & below & -> & H3 & H4). change (default path (Some m)) with m. split; [done|].
    split; [done|]. split.
    { apply starts_with_app. exists (map Normal below). rewrite Hc, H3, Hroot.
      cbn [app]. by rewrite <- map_app, <- app_assoc. }
    intros q Hq Hqr Hpre Hqe. apply path_eqb_eq. apply starts_with_app in Hpre as [tail Ht].
    destruct tail as [|c tail]; [by rewrite app_nil_r in Ht|]. exfalso.
    rewrite H3, Hroot, map_app in Ht.
    assert (exists t, RootDir :: map Normal above = components q ++ t) as [t Hpre].
    { destruct (exists_last (l := c :: tail)) as (t & y & Ey); [done|]. exists t.
      rewrite Ey in Ht. change (map Normal [n]) with [Normal n] in Ht.
      rewrite !app_assoc in Ht. by apply app_inj_tail in Ht as [<- _]. }
    assert (above <> []) as Hab.
    { intros ->. cbn in Hpre. pose proof (components_absolute q Hq) as Hcq. rewrite Hcq in Hpre.
      injection Hpre as Hnil. symmetry in Hnil. apply app_eq_nil in Hnil as [Hk _].
      apply not_true_iff_false in Hqr. destruct Hqr. apply path_eqb_eq. by rewrite Hcq, Hk. }
    set (a := fold_left push_component (map Normal above) "/"%string).
    destruct (components_pushes above "/") as [Hca Haa];
      [done|by apply Forall_app in Hn as [? _]|]. fold a in Hca, Haa.
    assert (exists_ a = true) as Hea by (by apply H4).
    assert (exists_ q = true) as Hq'; [|congruence].
    apply (exists_above a q); [done|done|done|]. apply starts_with_app. exists t. by rewrite Hca, Hroot.
  - destruct (H Hne) as (q & Hq & Hqe & Hqc). exfalso. assert (exists_ path = true); [|congruence].
    apply (exists_above q path); [done|done|done|]. apply starts_with_app. exists [].
    by rewrite app_nil_r, Hqc, Hc, Hroot.
Qed.
(** ** The loop over the protected paths *)

(** The options that mask at a path. *)
Definition masks (t : string) (args : list BwrapArg) : Prop :=
  (forall arg, arg ∈ args -> withholding arg /\ forall t' a, mount_of arg = Some (t', a) -> t' = t)
  /\ exists arg a, arg ∈ args /\ mount_of arg = Some (t, a).

Lemma masks_one t arg a : mount_of arg = Some (t, a) -> a <> HostWritable -> masks t [arg].
Proof.
  intros Hm Ha. split; [|exists arg, a; by split; [left|]].
  intros x ->%list_elem_of_singleton. split; [intros t' Ht'; congruence|intros t' a' Ht'; congruence].
Qed.

Lemma missing_mask_masks m args : append_verified_missing_mask m = Ok args -> masks m args.
Proof.
  unfold append_verified_missing_mask. destruct (missing_path_is_directory m).
  - unfold path_to_string. intros (x & Hx & [= <-])%bind_Ok. apply bind_Ok in Hx as ([] & _ & [= <-]).
    split; [|exists (Tmpfs m), Elsewhere; by split; [left|]].
    intros arg [->|[->|[]%elem_of_nil]%elem_of_cons]%elem_of_cons; (split; [done|]); by intros ? ? [= <- _].
  - intros ->%append_pair_Ok. by apply (masks_one _ _ Elsewhere).
Qed.

Lemma mask_path_spec p path args covered :
  mask_path p [] path = Ok (args, covered) ->
  (exists_ path = false /\ effective_mount_is_read_only p (masked_at path) = true /\ args = [] /\ covered = [])
  \/ (covered = [masked_at path] /\ masks (masked_at path) args).
Proof.
  unfold Bwrap.mask_path, masked_at. cbn [find]. destruct (exists_ path) eqn:Ee.
  - unfold append_read_only_mask. rewrite Ee. cbn [ensure bind].
    intros (a & ->%append_pair_Ok & [= <- <-])%bind_Ok. right. split; [done|].
    by apply (masks_one _ _ HostReadOnly).
  - destruct (effective_mount_is_read_only p _) eqn:Er.
    + intros [= <- <-]. by left.
    + intros (a & Ha & [= <- <-])%bind_Ok. right. split; [done|].
      unfold append_missing_mask in Ha. apply bind_Ok in Ha as (parent & _ & Ha).
      apply bind_Ok in Ha as ([] & _ & Ha). by apply missing_mask_masks.
Qed.

Lemma mask_paths_spec p paths : forall masked args,
  mask_paths p [] masked paths = Ok args ->
  (forall arg, arg ∈ args -> withholding arg
     /\ forall t a, mount_of arg = Some (t, a) -> exists path, path ∈ paths /\ t = masked_at path)
  /\ forall path, path ∈ paths ->
       (exists_ path = false /\ effective_mount_is_read_only p (masked_at path) = true)
       \/ (exists arg a, arg ∈ args /\ mount_of arg = Some (masked_at path, a))
       \/ exists t, path_starts_with path t = true
            /\ (t ∈ masked \/ exists arg a, arg ∈ args /\ mount_of arg = Some (t, a)).
Proof.
  induction paths as [|x paths IH]; intros masked args; cbn [Bwrap.mask_paths].
  { intros [= <-]. split; [by intros arg []%elem_of_nil|by intros path []%elem_of_nil]. }
  destruct (existsb (path_starts_with x) masked) eqn:Em.
  - intros H. apply IH in H as [H1 H2]. split.
    + intros arg Harg. destruct (H1 arg Harg) as [Hw Ht]. split; [done|]. intros t a Hm.
      destruct (Ht t a Hm) as (path & ? & ?). exists path. split; [by right|done].
    + intros path [->|Hp]%elem_of_cons; [|by apply H2]. right. right.
      apply existsb_exists in Em as (t & Ht & Hs). exists t. split; [done|left]. by apply list_elem_of_In.
  - intros (done & Hd & H)%bind_Ok. destruct done as [a covered]. apply bind_Ok in H as (rest & H & [= <-]).
    apply IH in H as [H1 H2]. apply mask_path_spec in Hd.
    split.
    + intros arg [Harg|Harg]%elem_of_app.
      * destruct Hd as [(_ & _ & -> & _)|[_ [Hm _]]]; [by apply elem_of_nil in Harg|].
        destruct (Hm arg Harg) as [Hw Ht]. split; [done|]. intros t a' Ha. exists x. split; [left|by eapply Ht].
      * destruct (H1 arg Harg) as [Hw Ht]. split; [done|]. intros t a' Hm.
        destruct (Ht t a' Hm) as (path & ? & ?). exists path. split; [by right|done].
    + assert (forall t, (exists arg a', arg ∈ rest /\ mount_of arg = Some (t, a')) ->
        exists arg a', arg ∈ a ++ rest /\ mount_of arg = Some (t, a')) as Hup.
      { intros t (arg & a' & Harg & Hm). exists arg, a'. split; [|done]. apply elem_of_app. by right. }
      intros path [->|Hp]%elem_of_cons.
      * destruct Hd as [(? & ? & _)|[_ [_ (arg & a' & Harg & Hm)]]]; [by left|]. right. left.
        exists arg, a'. split; [|done]. apply elem_of_app. by left.
      * destruct (H2 path Hp) as [?|[?|(t & Ht & Hin)]]; [by left|right; left; by apply Hup|].
        right. right. exists t. split; [done|]. destruct Hin as [Hin|Hin]; [|right; by apply Hup].
        apply elem_of_app in Hin as [Hin|Hin]; [by left|right].
        destruct Hd as [(_ & _ & _ & ->)|[-> [_ (arg & a' & Harg & Hm)]]]; [by apply elem_of_nil in Hin|].
        apply list_elem_of_singleton in Hin as ->. exists arg, a'. split; [|done]. apply elem_of_app. by left.
Qed.

(** ** Policies that pass the check *)

Definition directory (path : string) : Prop :=
  is_absolute path = true
  /\ exists canonical, canonicalize path = Ok canonical /\ is_dir canonical = true.

Record checked_policy (p : LinuxSandboxPolicy) : Prop := mkChecked {
  cp_roots : forall root, root ∈ visible_roots p -> directory root;
  cp_disjoint : forall root, root ∈ lp_read_only_roots p -> contains_path (lp_writable_roots p) root = false;
  cp_paths : forall path, path ∈ lp_read_only_paths p -> is_absolute path = true
    /\ forallb is_clean_component (components path) = true
    /\ exists root, root ∈ lp_writable_roots p /\ path_starts_with path root = true
                    /\ path_eqb path root = false;
  cp_files : forall file, file ∈ lp_read_only_files p -> kind file = Ok KFile
    /\ forall root, root ∈ visible_roots p -> path_starts_with file root = false;
}.

Lemma existing_directory path label :
  validate_existing_directory canonicalize is_dir path label = Ok tt -> directory path.
Proof.
  unfold validate_existing_directory, validate_absolute_clean_path.
  intros (c & Hc & H)%bind_Ok. apply bind_Ok in H as ([] & H1%ensure_Ok & H).
  apply bind_Ok in H as ([] & H2%ensure_Ok & _). apply andb_true_iff in H1 as [_ H1]. split; [done|].
  exists c. by apply map_err_Ok in Hc.
Qed.

Lemma unique_directories label paths : forall seen,
  unique_existing_directories canonicalize is_dir seen paths label = Ok tt ->
  forall path, path ∈ paths -> directory path.
Proof.
  induction paths as [|x paths IH]; intros seen; cbn; [by intros _ path []%elem_of_nil|].
  intros ([] & Hx & H)%bind_Ok. apply bind_Ok in H as ([] & _ & H).
  intros path [->|Hp]%elem_of_cons; [by eapply existing_directory|by eapply IH].
Qed.

Lemma validate_checked p : validate p = Ok tt -> checked_policy p.
Proof.
  unfold LinuxPolicy.validate. intros H.
  do 5 (apply bind_Ok in H as ([] & _ & H)).
  apply bind_Ok in H as ([] & Hw & H). apply bind_Ok in H as ([] & Ht & H).
  apply bind_Ok in H as ([] & Hr & H). apply bind_Ok in H as ([] & _ & H).
  apply bind_Ok in H as ([] & Hd & H). apply bind_Ok in H as ([] & _ & H).
  apply bind_Ok in H as ([] & Hp & H). apply bind_Ok in H as ([] & _ & H).
  apply bind_Ok in H as ([] & _ & Hf).
  unfold validate_unique_existing_directories in *. split.
  - unfold visible_roots. intros root [Hin|[Hin|Hin]%elem_of_app]%elem_of_app;
      by (eapply unique_directories; [|exact Hin]).
  - intros root Hin. pose proof (for_each_Ok _ _ Hd root Hin) as E. cbn in E.
    by apply ensure_Ok, negb_true_iff in E.
  - intros path Hin. pose proof (for_each_Ok _ _ Hp path Hin) as E.
    unfold validate_read_only_path, validate_absolute_clean_path in E.
    apply bind_Ok in E as ([] & E1 & E). apply bind_Ok in E1 as ([] & A1%ensure_Ok & E1).
    apply bind_Ok in E1 as ([] & _ & A2%ensure_Ok). apply bind_Ok in E as ([] & E2%ensure_Ok & _).
    split; [done|]. split; [done|]. apply existsb_exists in E2 as (root & Hroot & E2).
    apply andb_true_iff in E2 as [? ?%negb_true_iff]. exists root. split; [by apply list_elem_of_In|done].
  - intros file Hin. pose proof (for_each_Ok _ _ Hf file Hin) as E. unfold validate_read_only_file in E.
    apply bind_Ok in E as ([] & _ & E). apply bind_Ok in E as ([] & _ & E).
    apply bind_Ok in E as (k & Hk & E). apply bind_Ok in E as ([] & Hkf%ensure_Ok & E).
    do 4 (apply bind_Ok in E as (? & _ & E)). apply bind_Ok in E as ([] & _ & E).
    apply ensure_Ok in E. apply negb_true_iff in E. split.
    + apply map_err_Ok in Hk. rewrite Hk. by destruct k.
    + intros root Hroot. unfold inside_visible in E. destruct (path_starts_with file root) eqn:Es; [|done].
      apply not_true_iff_false in E. destruct E. apply existsb_exists. exists root.
      split; [by apply list_elem_of_In|done].
Qed.

(** ** The mounts *)

Lemma mount_args_Ok p seccomp fd pins args :
  mount_args is_dir exists_ p seccomp fd pins = Ok args ->
  exists before binds pinned files masked after,
    args = before ++ binds ++ pinned ++ files ++ masked ++ after
    /\ (forall arg, arg ∈ before -> withholding arg)
    /\ bind_args p = Ok binds /\ pinned_args p fd = Ok pinned
    /\ (forall arg, arg ∈ files -> exists file, file ∈ lp_read_only_files p /\ arg = RoBind file file)
    /\ Bwrap.mask_paths is_dir exists_ p pins [] (sort_by depth_leb (lp_read_only_paths p)) = Ok masked
    /\ (forall arg, arg ∈ after -> mount_of arg = None).
Proof.
  unfold mount_args. intros (hidden & Hhidden & H)%bind_Ok. apply bind_Ok in H as (scaffold & _ & H).
  apply bind_Ok in H as (dirs & Hdirs & H). apply bind_Ok in H as (binds & Hbinds & H).
  apply bind_Ok in H as (pinned & Hpinned & H). apply bind_Ok in H as (files & Hfiles & H).
  apply bind_Ok in H as (masked & Hmasked & H). apply bind_Ok in H as (links & Hlinks & H).
  apply bind_Ok in H as (chdir & Hchdir & [= <-]).
  exists (base_args p seccomp ++ hidden ++ dirs), binds, pinned, files, masked, (links ++ chdir).
  split; [unfold base_args; cbn [app]; by rewrite <- !app_assoc|]. split; [|split; [done|split; [done|split; [|split; [done|]]]]].
  - intros arg [Harg|[Harg|Harg]%elem_of_app]%elem_of_app.
    + intros t. unfold base_args in Harg. destruct (lp_network p); cbn [app] in Harg;
        repeat (apply elem_of_cons in Harg as [->|Harg]; [done|]); by apply elem_of_nil in Harg.
    + destruct (append_all_Ok _ _ _ Hhidden arg Harg) as (r & one & _ & ->%append_one_Ok & ->%list_elem_of_singleton).
      by intros t.
    + destruct (append_all_Ok _ _ _ Hdirs arg Harg) as (r & one & _ & ->%append_one_Ok & ->%list_elem_of_singleton).
      by intros t.
  - intros arg Harg.
    destruct (append_all_Ok _ _ _ Hfiles arg Harg) as (f & one & Hf & ->%append_pair_Ok & ->%list_elem_of_singleton).
    by exists f.
  - intros arg [Harg|Harg]%elem_of_app.
    + destruct (append_all_Ok _ _ _ Hlinks arg Harg) as (l & one & _ & ->%append_pair_Ok & ->%list_elem_of_singleton).
      done.
    + apply append_one_Ok in Hchdir as ->. by apply list_elem_of_singleton in Harg as ->.
Qed.

Lemma after_access a path l : (forall arg, arg ∈ l -> mount_of arg = None) -> access_after a l path = a.
Proof. intros H. apply access_uncovered. intros arg Harg t x Hm. rewrite (H arg Harg) in Hm. done. Qed.

(** Nothing that is masked is below a directory that a root names. *)
Lemma mask_above_root p m root :
  checked_policy p -> is_absolute m = true -> exists_ m = false ->
  root ∈ visible_roots p -> path_starts_with root m = false.
Proof.
  intros Hp Ha Hm Hr. destruct (cp_roots p Hp root Hr) as (Hra & c & Hc & _).
  destruct (path_starts_with root m) eqn:E; [|done]. exfalso.
  rewrite (exists_above root m) in Hm; [done|by eapply directory_exists|done|done|done].
Qed.

(** The same root decides for a missing mask and for all that is below it. *)
Lemma decides_below p m path b :
  checked_policy p -> is_absolute m = true -> exists_ m = false ->
  path_starts_with path m = true -> decides p m b -> decides p path b.
Proof.
  intros Hp Ha Hm Hpm (Hb & Hc & Hmax). unfold covers in *.
  assert (forall r w, has_bind p r w -> r ∈ visible_roots p) as Hvis.
  { unfold has_bind, visible_roots. intros r [] Hr; set_solver. }
  split; [done|]. split; [by eapply starts_with_trans|]. intros [r w] Hr Hcr. apply Hmax; [done|].
  unfold covers in *. cbn [fst] in *. apply (starts_with_depth path); [done|done|].
  destruct (Nat.le_gt_cases (path_depth r) (path_depth m)) as [|Hlt]; [done|]. exfalso.
  assert (path_starts_with r m = true) as Hrm by (apply (starts_with_depth path); [done|done|lia]).
  rewrite (mask_above_root p m r Hp Ha Hm (Hvis r w Hr)) in Hrm. done.
Qed.

(** The path below a writable root that no read-only root is nearer to. *)
Definition below_writable (p : LinuxSandboxPolicy) (path : string) : Prop :=
  exists root, root ∈ lp_writable_roots p ++ lp_temporary_roots p /\ path_starts_with path root = true
    /\ forall other, other ∈ lp_read_only_roots p -> path_starts_with path other = true ->
         (path_depth other <= path_depth root)%nat.

Lemma below_writable_effective p path :
  below_writable p path <-> exists d, effective_mount p path = Some (d, true).
Proof.
  pose proof (effective_mount_spec p path) as He. split.
  - intros (root & Hr & Hp & Ho). destruct (effective_mount p path) as [[d []]|]; [by exists d| |].
    + destruct He as ([r w] & (Hb & Hc & Hmax) & Hw). cbn [snd] in Hw. subst w. exfalso.
      specialize (Hmax (root, true) Hr Hp). specialize (Ho r Hb Hc). rewrite bind_leb_spec in Hmax.
      cbn [fst snd implb] in Hmax. destruct Hmax as [|[_ ?]]; [lia|done].
    + by destruct (He (root, true)).
  - intros [d Hd]. rewrite Hd in He. destruct He as ([r w] & (Hb & Hc & Hmax) & Hw). cbn [snd] in Hw. subst w.
    exists r. split; [done|]. split; [done|]. intros o Ho Hpo. specialize (Hmax (o, false) Ho Hpo).
    rewrite bind_leb_spec in Hmax. cbn [fst] in Hmax. lia.
Qed.

(** A read-only file covers nothing below the roots. *)
Lemma file_not_above p file root path :
  checked_policy p -> file ∈ lp_read_only_files p -> root ∈ visible_roots p ->
  path_starts_with path root = true -> path_starts_with path file = false.
Proof.
  intros Hp Hf Hr Hpr. destruct (path_starts_with path file) eqn:Es; [|done]. exfalso.
  destruct (cp_files p Hp file Hf) as [Hk Hvis]. destruct (cp_roots p Hp root Hr) as (_ & c & Hc & Hd).
  destruct (Nat.le_gt_cases (path_depth root) (path_depth file)) as [Hle|Hlt].
  - specialize (Hvis root Hr). by rewrite (starts_with_depth path root file Hpr Es Hle) in Hvis.
  - pose proof (file_is_leaf file root c Hk Hc Hd) as Hleaf.
    rewrite (starts_with_depth path file root Es Hpr) in Hleaf; [done|lia].
Qed.

(** A protected path that is not masked because nothing there is writable. *)
Lemma unmasked_read_only p path protected :
  checked_policy p -> protected ∈ lp_read_only_paths p -> exists_ protected = false ->
  path_starts_with path (masked_at protected) = true ->
  effective_mount_is_read_only p (masked_at protected) = true -> ~ below_writable p path.
Proof.
  intros Hp Hin Hex Hpm Heff (d & Hd)%below_writable_effective.
  destruct (cp_paths p Hp protected Hin) as (Ha & Hcl & root & Hroot & Hpr & Hne).
  assert (path_eqb protected "/" = false) as Hslash.
  { destruct (path_eqb protected "/") eqn:E; [|done]. apply path_eqb_eq in E. exfalso.
    apply not_true_iff_false in Hne. destruct Hne. apply starts_with_same_depth; [done|].
    unfold path_depth. rewrite E. cbn. destruct (cp_roots p Hp root) as (Hra & _);
      [unfold visible_roots; set_solver|]. rewrite (components_absolute root Hra). cbn. lia. }
  destruct (masked_at_missing protected Ha Hcl Hex Hslash) as (Hma & Hme & _).
  unfold effective_mount_is_read_only in Heff.
  pose proof (effective_mount_spec p (masked_at protected)) as He1.
  pose proof (effective_mount_spec p path) as He2. rewrite Hd in He2.
  destruct (effective_mount p (masked_at protected)) as [[d' []]|]; [done| |done].
  destruct He1 as (b1 & Hb1 & Hw1). destruct He2 as (b2 & Hb2 & Hw2).
  apply (decides_below p _ path) in Hb1; [|done..]. pose proof (decides_unique _ _ _ _ Hb1 Hb2). congruence.
Qed.

Lemma protected_facts p path :
  checked_policy p -> path ∈ lp_read_only_paths p ->
  is_absolute path = true /\ forallb is_clean_component (components path) = true
  /\ path_eqb path "/" = false /\ exists_ "/" = true.
Proof.
  intros Hp Hin. destruct (cp_paths p Hp path Hin) as (Ha & Hcl & root & Hroot & Hpr & Hne).
  destruct (cp_roots p Hp root) as (Hra & c & Hc & _); [unfold visible_roots; set_solver|].
  assert (path_starts_with root "/" = true) as Hslash.
  { apply starts_with_app. exists (keep (split_on "/" root)). by rewrite (components_absolute root Hra). }
  split; [done|]. split; [done|]. split.
  - destruct (path_eqb path "/") eqn:E; [|done]. apply path_eqb_eq in E. exfalso.
    apply not_true_iff_false in Hne. destruct Hne. apply starts_with_same_depth; [done|].
    apply starts_with_le in Hslash. unfold path_depth in *. by rewrite E.
  - eapply (exists_above root "/"); [by eapply directory_exists|done..].
Qed.

(** Two masks above one protected path: the one that is there covers the other. *)
Lemma mask_covers p path other :
  checked_policy p -> path ∈ lp_read_only_paths p -> other ∈ lp_read_only_paths p ->
  path_starts_with path (masked_at other) = true ->
  path_starts_with (masked_at path) (masked_at other) = true.
Proof.
  intros Hp H1 H2 Hs. destruct (protected_facts p path Hp H1) as (Ha & Hcl & Hr & Hroot).
  destruct (protected_facts p other Hp H2) as (Ha2 & Hcl2 & Hr2 & _).
  destruct (exists_ path) eqn:Ep; [unfold masked_at at 1; by rewrite Ep|].
  destruct (masked_at_missing path Ha Hcl Ep Hr) as (Hma & Hme & Hpm & _). set (m := masked_at path) in *.
  destruct (Nat.le_gt_cases (path_depth (masked_at other)) (path_depth m)) as [Hle|Hlt];
    [by apply (starts_with_depth path)|].
  assert (path_starts_with (masked_at other) m = true) as Hom by (apply (starts_with_depth path); [done|done|lia]).
  destruct (exists_ other) eqn:Eo.
  - exfalso. unfold masked_at in Hom. rewrite Eo in Hom. rewrite (exists_above other m) in Hme; done.
  - destruct (masked_at_missing other Ha2 Hcl2 Eo Hr2) as (Hma2 & Hme2 & _ & Hmin).
    rewrite (starts_with_eqb (masked_at path) _ m); [apply starts_with_refl|].
    apply path_eqb_eq. symmetry. apply path_eqb_eq. apply Hmin; [done| |done|done].
    destruct (path_eqb m "/") eqn:E; [|done]. exfalso. apply path_eqb_eq in E.
    rewrite (exists_above "/" m) in Hme; [done|done|done|done|].
    apply starts_with_app. exists []. by rewrite app_nil_r, E.
Qed.

(** What a command may write is what is below a writable root that no read-only root is
    nearer to, and not at or below a place where a protected path is masked. *)
Lemma writes_exact p seccomp args path :
  validate p = Ok tt -> lp_pinned_workspace p = None ->
  mount_args is_dir exists_ p seccomp None [] = Ok args ->
  access args path = HostWritable <->
    below_writable p path
    /\ forall protected, protected ∈ lp_read_only_paths p ->
         path_starts_with path (masked_at protected) = false.
Proof.
  intros Hp%validate_checked Hn Hargs.
  apply mount_args_Ok in Hargs as (before & binds & pinned & files & masked & after & -> & Hbefore & Hbinds
    & Hpinned & Hfiles & Hmasked & Hafter).
  unfold pinned_args in Hpinned. injection Hpinned as <-. cbn [app]. unfold access. rewrite !access_app.
  rewrite (after_access _ path after Hafter). set (a0 := access_after Elsewhere before path).
  pose proof (bind_args_access p path a0 binds Hn Hbinds) as Hb.
  destruct (mask_paths_spec p _ _ _ Hmasked) as [Hm1 Hm2].
  assert (forall x, x ∈ sort_by depth_leb (lp_read_only_paths p) <-> x ∈ lp_read_only_paths p) as Hsort
    by (intros x; apply sort_by_elem).
  assert (forall arg, arg ∈ files -> withholding arg) as Hfw.
  { intros arg (f & _ & ->)%Hfiles. by intros t. }
  split.
  - intros Ha. apply access_withheld in Ha as [Ha Hcov]; [|intros arg Harg; by apply Hm1].
    apply access_withheld in Ha as [Ha _]; [|done].
    assert (below_writable p path) as Hbw.
    { apply below_writable_effective. destruct (effective_mount p path) as [[d []]|]; [by exists d| |].
      - rewrite Hb in Ha. done.
      - exfalso. rewrite Hb in Ha. subst a0. by apply access_withheld in Ha as [? _]. }
    split; [done|]. intros protected Hin. destruct (path_starts_with path (masked_at protected)) eqn:Es; [|done].
    exfalso. destruct (Hm2 protected (proj2 (Hsort _) Hin)) as [[Hex Heff]|[(arg & a & Harg & Hma)|(t & Ht & Hin2)]].
    + by eapply (unmasked_read_only p path protected).
    + by rewrite (Hcov arg Harg _ _ Hma) in Es.
    + destruct Hin2 as [Hin2|(arg & a & Harg & Hma)]; [by apply elem_of_nil in Hin2|].
      destruct (Hm1 arg Harg) as [_ Hsrc]. destruct (Hsrc t a Hma) as (other & Hother%Hsort & ->).
      pose proof (mask_covers p protected other Hp Hin Hother Ht) as Hmc.
      pose proof (starts_with_trans _ _ _ Es Hmc) as Hf.
      by rewrite (Hcov arg Harg _ _ Hma) in Hf.
  - intros [Hbw Hno]. rewrite (access_uncovered _ masked), (access_uncovered _ files).
    + apply below_writable_effective in Hbw as [d Hd]. by rewrite Hd in Hb.
    + intros arg (f & Hf & ->)%Hfiles t a [= <- <-]. destruct (path_starts_with path f) eqn:Es; [|done].
      exfalso. destruct Hbw as (root & Hr & Hpr & _).
      assert (root ∈ visible_roots p) as Hrv by (unfold visible_roots; set_solver).
      by rewrite (file_not_above p f root path Hp Hf Hrv Hpr) in Es.
    + intros arg Harg t a Hma. destruct (Hm1 arg Harg) as [_ Hsrc].
      destruct (Hsrc t a Hma) as (other & Hother%Hsort & ->). by apply Hno.
Qed.

(** Below a protected path is below where it is masked. *)
Lemma protected_masked p protected path :
  checked_policy p -> protected ∈ lp_read_only_paths p -> path_starts_with path protected = true ->
  path_starts_with path (masked_at protected) = true.
Proof.
  intros Hp Hin Hs. destruct (protected_facts p protected Hp Hin) as (Ha & Hcl & Hr & _).
  destruct (exists_ protected) eqn:Ee; [unfold masked_at; by rewrite Ee|].
  destruct (masked_at_missing protected Ha Hcl Ee Hr) as (_ & _ & Hm & _). by eapply starts_with_trans.
Qed.

(** Where a protected path is masked, whatever the code: at the path itself, or at the
    place on the way to it where the first component is missing. *)
Definition masks_at (path m : string) : Prop :=
  is_absolute m = true /\ path_starts_with path m = true
  /\ (exists_ m = false \/ path_eqb m path = true)
  /\ forall q, is_absolute q = true -> path_starts_with m q = true -> path_eqb q m = false ->
       exists_ q = true.

Lemma masks_at_masked p path :
  checked_policy p -> path ∈ lp_read_only_paths p -> masks_at path (masked_at path).
Proof.
  intros Hp Hin. destruct (protected_facts p path Hp Hin) as (Ha & Hcl & Hr & Hroot).
  destruct (exists_ path) eqn:Ep.
  - unfold masked_at. rewrite Ep. split; [done|]. split; [apply starts_with_refl|].
    split; [right; by apply path_eqb_eq|]. intros q Hq Hs _. by apply (exists_above path q).
  - destruct (masked_at_missing path Ha Hcl Ep Hr) as (Hma & Hme & Hpm & Hmin).
    split; [done|]. split; [done|]. split; [by left|]. intros q Hq Hs Hne.
    destruct (exists_ q) eqn:Eq; [done|]. exfalso. destruct (path_eqb q "/") eqn:Es.
    + rewrite (exists_above "/" q) in Eq; [done|done|done|done|]. apply path_eqb_eq in Es.
      apply starts_with_app. exists []. by rewrite app_nil_r, Es.
    + by rewrite (Hmin q) in Hne.
Qed.

Lemma masks_at_unique path m m' :
  masks_at path m -> masks_at path m' -> is_absolute path = true -> path_eqb m m' = true.
Proof.
  assert (forall a b, masks_at path a -> masks_at path b -> is_absolute path = true ->
    (path_depth a <= path_depth b)%nat -> path_eqb a b = true) as Hwlog.
  { intros a b (Ha & Has & Haw & _) (Hb & Hbs & Hbw & Habove) Hpa Hd.
    pose proof (starts_with_depth path a b Has Hbs Hd) as Hba.
    destruct (path_eqb a b) eqn:E; [done|]. specialize (Habove a Ha Hba E).
    destruct Haw as [Haw|Haw]; [congruence|]. exfalso. apply not_true_iff_false in E. destruct E.
    apply path_eqb_eq in Haw. apply path_eqb_eq. symmetry. apply path_eqb_eq.
    apply starts_with_same_depth; [done|]. apply starts_with_le in Hbs. unfold path_depth in *.
    by rewrite Haw. }
  intros H1 H2 Hpa. destruct (Nat.le_ge_cases (path_depth m) (path_depth m')); [by apply Hwlog|].
  apply path_eqb_eq. symmetry. apply path_eqb_eq. by apply Hwlog.
Qed.

(** C17: a command may write exactly the paths below a writable or temporary root that no
    read-only root is nearer to, except at and below the places where the protected paths are
    masked: the paths themselves, or the first component of them that is missing. *)
Theorem sandbox_writes_exact p seccomp args path :
  validate p = Ok tt -> lp_pinned_workspace p = None ->
  mount_args is_dir exists_ p seccomp None [] = Ok args ->
  (access args path = HostWritable <->
    below_writable p path
    /\ forall protected m, protected ∈ lp_read_only_paths p -> masks_at protected m ->
         path_starts_with path m = false)
  /\ forall protected, protected ∈ lp_read_only_paths p -> path_starts_with path protected = true ->
       access args path <> HostWritable.
Proof.
  intros Hv Hn Hargs. pose proof (writes_exact p seccomp args path Hv Hn Hargs) as He.
  apply validate_checked in Hv. split.
  - rewrite He. split; (intros [Hw Hno]; split; [exact Hw|]).
    + intros protected m Hin Hm. destruct (protected_facts p protected Hv Hin) as (Ha & _).
      rewrite (starts_with_eqb path m (masked_at protected)); [by apply Hno|].
      apply (masks_at_unique protected); [done|by eapply masks_at_masked|done].
    + intros protected Hin. apply (Hno protected); [done|]. by eapply masks_at_masked.
  - intros protected Hin Hs Ha. apply He in Ha as [_ Hno]. specialize (Hno protected Hin).
    by rewrite (protected_masked p protected path Hv Hin Hs) in Hno.
Qed.
End Masks.
