(* ===== verification/BwrapCommands.v ===== *)
(** * The metadata a sandboxed command may not change

    The policy made for a command, followed through the check and the mounts: below a
    directory the command may write, the protected names stay unwritable, and so does
    the configuration of the Git directories that were named for it.  A pinned
    workspace is the exception. *)

From S2P Require Import Prelude Strings Config ConfigTheorems NamedRoots NamedRootsTheorems LinuxPolicy Bwrap BwrapTheorems.

#[local] Open Scope Z_scope.
#[local] Open Scope rust_scope.

(** * The policy of a command *)

Lemma components_join base names :
  is_absolute base = true -> names <> [] -> Forall name_ok names ->
  components (path_join base (join_strings "/" names)) = components base ++ map Normal names.
Proof.
  intros Ha Hne Hn.
  assert (is_absolute (join_strings "/" names) = false) as Hr.
  { destruct names as [|n [|m l]]; [done|..]; inversion Hn; subst; unfold join_strings.
    - rewrite <- (string_app_nil_r n). cbn [String.concat]. by apply (name_not_absolute n).
    - change (String.concat "/" (n :: m :: l)) with (n +:+ "/" +:+ String.concat "/" (m :: l)).
      by apply (name_not_absolute n). }
  unfold path_join. rewrite Hr.
  rewrite !components_absolute by (done || by apply starts_with_snoc). cbn [app]. f_equal.
  rewrite <- keep_names by done.
  destruct (str_is_empty base) eqn:Ee; [by destruct base|]. cbn [orb]. destruct (ends_with "/" base) eqn:Es.
  - unfold ends_with in Es. destruct (str_strip_suffix "/" base) as [stem|] eqn:Ep; [|done].
    apply str_strip_suffix_Some in Ep. subst base.
    change (stem +:+ "/") with (stem +:+ String "/" EmptyString) in *.
    rewrite string_app_assoc. change (String "/" EmptyString +:+ join_strings "/" names) with
      (String "/" (join_strings "/" names)). rewrite !split_on_app, !keep_app, split_join by done.
    cbn. by rewrite app_nil_r.
  - change ("/" +:+ join_strings "/" names) with (String "/" (join_strings "/" names)).
    by rewrite split_on_app, keep_app, split_join by done.
Qed.

Section Commands.
Context (canonicalize : string -> result FsError string) (is_dir is_file exists_ : string -> bool)
  (kind : string -> result FsError FileKind) (tmpdir : option string).
Context `{FS : !SandboxFs canonicalize is_dir exists_ kind}.

#[local] Notation validate := (validate canonicalize is_dir kind).
#[local] Notation is_linked := (is_linked_worktree_metadata_root is_file).
#[local] Notation git_paths := (git_paths is_dir is_file).
#[local] Notation git_root_paths := (git_root_paths is_dir is_file).

Lemma canonical_directory_Ok path label c :
  canonical_existing_directory canonicalize is_dir path label = Ok c ->
  canonicalize path = Ok c /\ is_absolute c = true.
Proof.
  unfold canonical_existing_directory. intros (x & Hx%map_err_Ok & H)%bind_Ok.
  apply bind_Ok in H as ([] & Ha%ensure_Ok & H). apply bind_Ok in H as ([] & _ & [= <-]).
  by apply andb_true_iff in Ha as [? _].
Qed.

Lemma canonical_directories_Ok label paths : forall l,
  canonical_directories canonicalize is_dir paths label = Ok l ->
  (forall c, c ∈ l -> is_absolute c = true /\ exists q, q ∈ paths /\ canonicalize q = Ok c)
  /\ forall q c, q ∈ paths -> canonicalize q = Ok c -> c ∈ l.
Proof.
  induction paths as [|x paths IH]; intros l; cbn.
  { intros [= <-]. split; [by intros c []%elem_of_nil|by intros q c []%elem_of_nil]. }
  intros (c0 & [Hc0 Ha]%canonical_directory_Ok & H)%bind_Ok. apply bind_Ok in H as (rest & H & [= <-]).
  destruct (IH rest H) as [H1 H2]. split.
  - intros c [->|Hc]%elem_of_cons; [split; [done|]; exists x; split; [left|done]|].
    destruct (H1 c Hc) as (? & q & ? & ?). split; [done|]. exists q. split; [by right|done].
  - intros q c [->|Hq]%elem_of_cons Hc; [rewrite Hc in Hc0; injection Hc0 as ->; left|right; by apply (H2 q)].
Qed.

Lemma git_paths_spec add roots ws rs ps :
  git_paths add roots = (ws, rs, ps) ->
  (forall w, w ∈ ws -> exists g, g ∈ roots /\ w ∈ (git_root_paths add g).1.1)
  /\ (forall r, r ∈ rs <-> r ∈ roots /\ is_linked r = false).
Proof.
  revert ws rs ps. induction roots as [|g roots IH]; intros ws rs ps; cbn [LinuxPolicy.git_paths].
  { intros [= <- <- <-]. split; [by intros w []%elem_of_nil|]. intros r. split; [by intros []%elem_of_nil|].
    by intros [[]%elem_of_nil _]. }
  destruct (git_root_paths add g) as [[w1 r1] p1] eqn:Eg. destruct (git_paths add roots) as [[w2 r2] p2].
  intros [= <- <- <-]. destruct (IH w2 r2 p2 eq_refl) as [H1 H2]. split.
  - intros w [Hw|Hw]%elem_of_app; [exists g; split; [left|by rewrite Eg]|].
    destruct (H1 w Hw) as (g' & ? & ?). exists g'. split; [by right|done].
  - intros r. rewrite elem_of_app, H2, elem_of_cons.
    assert (r ∈ r1 <-> r = g /\ is_linked g = false) as Hr1.
    { unfold LinuxPolicy.git_root_paths in Eg. destruct (is_linked g); injection Eg as <- <- <-.
      - split; [by intros []%elem_of_nil|by intros []].
      - rewrite list_elem_of_singleton. split; [by split|by intros []]. }
    rewrite Hr1. split; [intros [[-> ?]|[? ?]]; auto|intros [[->|?] ?]; auto].
Qed.

Lemma sorted_contains paths x :
  x ∈ paths -> exists y, y ∈ sort_paths paths /\ path_eqb x y = true.
Proof. intros Hx. destruct (sort_dedup_keeps path_leb path_eqb x paths path_eqb_refl Hx) as (y & ? & ?). eauto. Qed.

(** The parts of a policy of a command. *)
Lemma scoped_command_Ok cwd roots git_roots p :
  for_scoped_command canonicalize is_dir is_file kind tmpdir cwd roots git_roots None = Ok p ->
  exists named gits ws rs ps,
    validate p = Ok tt /\ lp_pinned_workspace p = None
    /\ (forall q c, q ∈ cwd :: roots -> canonicalize q = Ok c -> c ∈ named)
    /\ (forall c, c ∈ named -> is_absolute c = true /\ exists q, q ∈ cwd :: roots /\ canonicalize q = Ok c)
    /\ (forall q c, q ∈ git_roots -> canonicalize q = Ok c -> c ∈ gits)
    /\ (forall c, c ∈ gits -> is_absolute c = true /\ exists q, q ∈ git_roots /\ canonicalize q = Ok c)
    /\ git_paths false gits = (ws, rs, ps)
    /\ lp_writable_roots p = sort_paths (named ++ ws)
    /\ lp_read_only_roots p = sort_paths rs
    /\ lp_read_only_paths p = sort_paths ((protected_below named gits ++ ps) ++ []).
Proof.
  unfold for_scoped_command. intros (c0 & [Hc0 Ha]%canonical_directory_Ok & H)%bind_Ok.
  apply bind_Ok in H as (l & Hl & H). apply bind_Ok in H as (gits & Hg & H).
  apply bind_Ok in H as (temps & Ht & H). cbn [is_some] in H.
  change (is_some (@None (list string))) with false in H.
  destruct (git_paths false gits) as [[ws rs] ps] eqn:Eg. cbn [bind] in H.
  apply bind_Ok in H as ([] & Hv & [= <-]).
  apply canonical_directories_Ok in Hl as [L1 L2]. apply canonical_directories_Ok in Hg as [G1 G2].
  exists (c0 :: l), gits, ws, rs, ps. split; [done|]. split; [done|]. split; [|split; [|by split_and!]].
  - intros q c [->|Hq]%elem_of_cons Hc; [rewrite Hc in Hc0; injection Hc0 as ->; left|right; by apply (L2 q)].
  - intros c [->|Hc]%elem_of_cons; [split; [done|]; exists cwd; split; [left|done]|].
    destruct (L1 c Hc) as (? & q & ? & ?). split; [done|]. exists q. split; [by right|done].
Qed.

Lemma network_command_Ok cwd roots git_roots network p :
  for_command_with_network canonicalize is_dir is_file kind tmpdir cwd roots git_roots network = Ok p ->
  exists p0, for_scoped_command canonicalize is_dir is_file kind tmpdir cwd roots git_roots None = Ok p0
             /\ p = set_network p0 network /\ validate p = Ok tt.
Proof.
  unfold for_command_with_network. intros (p0 & H0 & H)%bind_Ok. apply bind_Ok in H as ([] & Hv & [= <-]).
  by exists p0.
Qed.

(** The writable part of a Git directory is below three names. *)
Lemma git_writable g w :
  is_absolute g = true -> w ∈ (git_root_paths false g).1.1 ->
  w = g \/ exists names, components w = components g ++ map Normal names
            /\ forall n, n ∈ names -> n ∈ ["refs"; "heads"; "objects"; "logs"]%string.
Proof.
  intros Ha. unfold LinuxPolicy.git_root_paths. destruct (is_linked g); cbn [fst].
  { intros ->%list_elem_of_singleton. by left. }
  cbn [andb]. rewrite app_nil_r. intros Hw. right.
  assert (w ∈ map (path_join g) ["refs/heads"; "objects"; "logs"]%string) as Hin.
  { apply list_elem_of_In in Hw. apply filter_In in Hw as [Hw _]. by apply list_elem_of_In. }
  assert (Forall name_ok ["refs"; "heads"; "objects"; "logs"]%string) as Hok.
  { repeat constructor; try done; intros Hin'; vm_compute in Hin';
      repeat (apply elem_of_cons in Hin' as [?|Hin']; [done|]); by apply elem_of_nil in Hin'. }
  rewrite Forall_forall in Hok.
  repeat (apply elem_of_cons in Hin as [->|Hin]; [|]).
  - exists ["refs"; "heads"]%string. split; [|set_solver].
    change "refs/heads"%string with (join_strings "/" ["refs"; "heads"]%string).
    apply components_join; [done|done|]. repeat constructor; apply Hok; set_solver.
  - exists ["objects"]%string. split; [|set_solver].
    change "objects"%string with (join_strings "/" ["objects"]%string) at 1.
    apply components_join; [done|done|]. repeat constructor; apply Hok; set_solver.
  - exists ["logs"]%string. split; [|set_solver].
    change "logs"%string with (join_strings "/" ["logs"]%string) at 1.
    apply components_join; [done|done|]. repeat constructor; apply Hok; set_solver.
  - by apply elem_of_nil in Hin.
Qed.

Lemma components_below base name :
  is_absolute base = true -> name_ok name ->
  components (path_join base name) = components base ++ [Normal name].
Proof. intros Ha Hn. apply (components_join base [name]); [done|done|by constructor]. Qed.

(** A path that is below [c] and, if it is not too near, below an entry of it. *)
Lemma within_entry path c name root :
  is_absolute c = true -> name_ok name ->
  path_starts_with path (path_join c name) = true -> path_starts_with path root = true ->
  (path_depth c < path_depth root)%nat -> path_starts_with root (path_join c name) = true.
Proof.
  intros Ha Hn H1 H2 Hd. apply (starts_with_depth path); [done|done|].
  unfold path_depth in *. rewrite components_below, length_app by done. cbn. lia.
Qed.

(** A writable part of one Git directory is not in another entry of a Git directory above. *)
Lemma git_part_elsewhere g w c name :
  is_absolute g = true -> is_absolute c = true -> name_ok name ->
  name ∉ ["refs"; "heads"; "objects"; "logs"]%string ->
  w ∈ (git_root_paths false g).1.1 -> path_starts_with w (path_join c name) = true ->
  path_starts_with g (path_join c name) = true.
Proof.
  intros Ha Hc Hn Hno Hw Hs. destruct (git_writable g w Ha Hw) as [->|(names & Hcw & Hall)]; [done|].
  destruct (Nat.le_gt_cases (path_depth g) (path_depth c)) as [Hle|Hgt].
  - exfalso. apply Hno, Hall. apply starts_with_app in Hs as [t Ht].
    rewrite Hcw, components_below in Ht by done. unfold path_depth in Hle.
    apply (f_equal (fun l => l !! length (components c))) in Ht.
    rewrite <- app_assoc, (lookup_app_r (components g)) in Ht by done. cbn [app] in Ht.
    rewrite list_lookup_middle in Ht by done.
    apply list_elem_of_lookup_2 in Ht. apply elem_of_map_inv in Ht as (x & Hx & [= <-]). done.
  - apply (within_entry w); [done|done|done| |done]. apply starts_with_app. by exists (map Normal names).
Qed.

(** The private Git directory of a linked worktree. *)
Definition worktree_metadata (path : string) : Prop :=
  exists parent, path_parent path = Some parent /\ path_file_name parent = Some "worktrees"%string
    /\ is_file (path_join path "gitdir") = true /\ is_file (path_join path "commondir") = true.

Lemma not_worktree_metadata path : ~ worktree_metadata path -> is_linked path = false.
Proof.
  intros Hno. apply not_true_iff_false. unfold is_linked_worktree_metadata_root.
  rewrite !andb_true_iff. intros [[Hw Hg] Hc]. apply Hno.
  destruct (path_parent path) as [parent|] eqn:Ep; [|done]. exists parent. cbn [mbind option_bind] in Hw.
  destruct (path_file_name parent) as [name|]; [|done]. cbn [is_some_and] in Hw.
  apply String.eqb_eq in Hw as <-. by split_and!.
Qed.


(** ** A pinned workspace *)

(** The mount of a pinned workspace comes after those of the roots, whatever their depth: the
    read-only roots in a writable pinned workspace, such as the Git directory of the primary
    checkout, are covered by it and can be written, although the policy is read as making
    them read-only. *)
Theorem pinned_workspace_reexposes p pinned seccomp fd pins args path :
  validate p = Ok tt -> lp_pinned_workspace p = Some pinned -> pw_writable pinned = true ->
  mount_args is_dir exists_ p seccomp (Some fd) pins = Ok args ->
  path_starts_with path (pw_path pinned) = true ->
  effective_mount_is_read_only p path = true ->
  (forall masks, mask_paths is_dir exists_ p pins [] (sort_by depth_leb (lp_read_only_paths p)) = Ok masks ->
    forall arg, arg ∈ masks -> uncovering path arg) ->
  access args path = HostWritable.
Proof.
  intros Hck%validate_checked Hpin Hw Hargs Hs Heff Hmask.
  apply mount_args_Ok in Hargs as (before & binds & bound & files & masked & after & -> & _ & _
    & Hpinned & Hfiles & Hmasked & Hafter).
  unfold pinned_args in Hpinned. rewrite Hpin, Hw in Hpinned. apply append_one_Ok in Hpinned as ->.
  unfold access. rewrite !access_app, (after_access _ path after Hafter).
  rewrite (access_uncovered _ masked) by (by apply Hmask).
  rewrite (access_uncovered _ files); [cbn; unfold mounted; cbn; by rewrite Hs|].
  intros arg (f & Hf & ->)%Hfiles t a [= <- <-]. destruct (path_starts_with path f) eqn:Es; [|done]. exfalso.
  unfold effective_mount_is_read_only in Heff. pose proof (effective_mount_spec p path) as He.
  destruct (effective_mount p path) as [[d []]|]; [done| |done].
  destruct He as ([r w] & (Hb & Hc & _) & Hrw). cbn [snd] in Hrw. subst w. unfold has_bind, covers in *. cbn [fst snd] in *.
  assert (r ∈ visible_roots p) as Hv by (unfold visible_roots; set_solver).
  by rewrite (file_not_above canonicalize is_dir exists_ kind p f r path Hck Hf Hv Hc) in Es.
Qed.
End Commands.
