(* ===== verification/BwrapWitness.v ===== *)
(** * Inputs at which the theorems on the Linux sandbox apply

    A checkout with its Git directory, the policy of a command that may use both, and a
    policy that pins the checkout. *)

From S2P Require Import Prelude Strings Config ConfigTheorems NamedRoots NamedRootsTheorems LinuxPolicy Seccomp Bwrap BwrapTheorems BwrapCommands.

#[local] Open Scope Z_scope.
#[local] Open Scope rust_scope.

#[local] Ltac by_value := match goal with |- _ = ?v => vm_cast_no_check (eq_refl v) end.

Module BwrapW.

Definition dirs : list string :=
  ["/"; "/tmp"; "/w"; "/w/src"; "/w/.git"; "/w/.git/refs"; "/w/.git/refs/heads"; "/w/.git/objects"]%string.
Definition files : list string := ["/w/.git/config"; "/w/src/main.rs"]%string.

Definition canonicalize (path : string) : result FsError string :=
  match find (fun q => path_eqb q path) (dirs ++ files) with
  | Some q => Ok q
  | None => Err FsNotFound
  end.
Definition is_dir : string -> bool := contains_path dirs.
Definition is_file : string -> bool := contains_path files.
Definition exists_ : string -> bool := contains_path (dirs ++ files).
Definition kind (path : string) : result FsError FileKind :=
  if is_dir path then Ok KDirectory else if is_file path then Ok KFile else Err FsNotFound.

Lemma contains_elem l path :
  contains_path l path = true <-> exists q, q ∈ l /\ components q = components path.
Proof.
  unfold contains_path. rewrite existsb_exists. split; intros (q & Hq & E); exists q;
    (split; [by apply list_elem_of_In|by apply path_eqb_eq]).
Qed.

Definition closed_above : bool :=
  forallb (fun q => forallb (fun n => existsb (fun r =>
      bool_decide (length (components r) = length (take n (components q)))
      && path_starts_with q r) (dirs ++ files))
    (seq 1 (length (components q)))) (dirs ++ files).
Lemma closed_above_value : closed_above = true.
Proof. by_value. Qed.

Definition leaves : bool :=
  forallb (fun f => forallb (fun d => negb (path_starts_with d f)) dirs) files.
Lemma leaves_value : leaves = true.
Proof. by_value. Qed.

#[export] Instance sandbox_fs : SandboxFs canonicalize is_dir exists_ kind.
Proof.
  split.
  - unfold exists_. intros path above (q & Hq & Ec)%contains_elem _ Ha [t Ht]%starts_with_app.
    rewrite <- Ec in Ht. pose proof closed_above_value as Hv. unfold closed_above in Hv.
    rewrite forallb_forall in Hv. specialize (Hv q (proj1 (list_elem_of_In _ _) Hq)).
    rewrite forallb_forall in Hv. specialize (Hv (length (components above))).
    rewrite existsb_exists in Hv. destruct Hv as (r & Hr & Hv).
    { apply in_seq. rewrite Ht, length_app. pose proof (components_absolute above Ha) as Hc. rewrite Hc. cbn. lia. }
    apply contains_elem. exists r. split; [by apply list_elem_of_In|].
    apply andb_true_iff in Hv as [Hl%bool_decide_eq_true [s Hs]%starts_with_app].
    rewrite Ht, take_app_length in Hl. rewrite Ht in Hs. by apply app_inj_1 in Hs as [? _].
  - unfold canonicalize, exists_. intros path c. destruct (find _ _) as [q|] eqn:E; [|done]. intros _.
    apply find_some in E as [Hq He]. apply contains_elem. exists q.
    split; [by apply list_elem_of_In|by apply path_eqb_eq].
  - unfold kind, canonicalize. intros f path c Hf Hc Hd.
    destruct (is_dir f); [done|]. destruct (is_file f) eqn:Ef; [|done].
    destruct (find _ _) as [q|] eqn:E; [|done]. injection Hc as <-. apply find_some in E as [_ He%path_eqb_eq].
    apply contains_elem in Ef as (g & Hg & Eg). apply contains_elem in Hd as (d & Hd & Ed).
    pose proof leaves_value as Hv. unfold leaves in Hv. rewrite forallb_forall in Hv.
    specialize (Hv g (proj1 (list_elem_of_In _ _) Hg)). rewrite forallb_forall in Hv.
    specialize (Hv d (proj1 (list_elem_of_In _ _) Hd)). apply negb_true_iff in Hv.
    unfold path_starts_with in *. by rewrite <- He, <- Ed, <- Eg.
Qed.

(** ** A command *)

Definition nothing : LinuxSandboxPolicy := mkPolicy 0 "" [] [] [] [] [] [] [] [] None Restricted.

Definition made : result string LinuxSandboxPolicy :=
  for_command_with_network canonicalize is_dir is_file kind None "/w" [] ["/w/.git"%string] LocalAgent.
Definition policy : LinuxSandboxPolicy :=
  match made with
  | Ok p => p
  | Err _ => nothing
  end.
Lemma made_value : made = Ok policy.
Proof. by_value. Qed.
Lemma policy_checked : validate canonicalize is_dir kind policy = Ok tt.
Proof. by_value. Qed.
Lemma policy_unpinned : lp_pinned_workspace policy = None.
Proof. by_value. Qed.

Definition args : list BwrapArg :=
  match mount_args is_dir exists_ policy 9 None [] with
  | Ok args => args
  | Err _ => []
  end.
Lemma args_value : mount_args is_dir exists_ policy 9 None [] = Ok args.
Proof. by_value. Qed.

Definition binds : list BwrapArg :=
  match bind_args policy with
  | Ok args => args
  | Err _ => []
  end.
Lemma binds_value : bind_args policy = Ok binds.
Proof. by_value. Qed.
Lemma object_written : access args "/w/.git/objects/ab/cd" = HostWritable.
Proof. by_value. Qed.
Lemma config_read_only : effective_mount_is_read_only policy "/w/.git/config" = true.
Proof. by_value. Qed.

Lemma effective_mount_exact_witness :
  access binds "/w/.git/config" = HostReadOnly.
Proof.
  apply (effective_mount_exact policy "/w/.git/config" binds policy_unpinned binds_value). exact config_read_only.
Defined.

Lemma sandbox_writes_exact_witness :
  below_writable policy "/w/.git/objects/ab/cd" /\ access args "/w/.git/config" <> HostWritable
  /\ access args "/w/.agents/x" <> HostWritable.
Proof.
  split; [|split].
  - apply (sandbox_writes_exact canonicalize is_dir exists_ kind policy 9 args "/w/.git/objects/ab/cd"
      policy_checked policy_unpinned args_value). exact object_written.
  - intros H. apply (sandbox_writes_exact canonicalize is_dir exists_ kind policy 9 args "/w/.git/config"
      policy_checked policy_unpinned args_value) in H as [(root & Hr & Hs & Hnear) _].
    assert (forallb (fun r => negb (path_starts_with "/w/.git/config" r)
              || negb (Nat.leb (path_depth "/w/.git") (path_depth r)))
              (lp_writable_roots policy ++ lp_temporary_roots policy) = true) as Hall by by vm_compute.
    rewrite forallb_forall in Hall. specialize (Hall root (proj1 (list_elem_of_In _ _) Hr)).
    rewrite Hs in Hall. apply negb_true_iff, Nat.leb_gt in Hall.
    assert (path_depth "/w/.git" <= path_depth root)%nat as Hle
      by (apply Hnear; [apply (bool_decide_unpack _); by vm_compute|by vm_compute]).
    exact (Nat.lt_irrefl _ (Nat.lt_le_trans _ _ _ Hall Hle)).
  - apply (proj2 (sandbox_writes_exact canonicalize is_dir exists_ kind policy 9 args "/w/.agents/x"
      policy_checked policy_unpinned args_value) "/w/.agents"%string); [|by vm_compute].
    apply (bool_decide_unpack _). by vm_compute.
Defined.


(** ** The filter *)

Definition documented : Compiler := fun rules mismatch matched syscall args =>
  match rules_get rules syscall with
  | None => mismatch
  | Some [] => matched
  | Some l => if existsb (forallb (condition_holds args)) l then matched else mismatch
  end.
#[export] Instance seccompiler : Seccompiler documented.
Proof. by split. Qed.

(** A pair of stream sockets as libuv asks for it, and the other type. *)
Definition pair_args (socket_type : Z) (i : nat) : Z :=
  match i with
  | 0%nat => AF_UNIX
  | 1%nat => socket_type
  | _ => 0
  end.


(** ** A pinned workspace *)

Definition pinned : LinuxPinnedWorkspace := mkPinned "/w" true "/w" ["/w/.git"%string] "/w/.git" "/w".
Definition pinned_policy : LinuxSandboxPolicy :=
  mkPolicy 1 "/w" ["/w"%string] ["/tmp"%string] ["/w/.agents"%string] ["/w/.git"%string] [] [] [] []
    (Some pinned) Restricted.
Definition pinned_mounts : list BwrapArg :=
  match mount_args is_dir exists_ pinned_policy 9 (Some 5) [] with
  | Ok args => args
  | Err _ => []
  end.
Lemma pinned_checked : validate canonicalize is_dir kind pinned_policy = Ok tt.
Proof. by_value. Qed.
Lemma pinned_mounts_value : mount_args is_dir exists_ pinned_policy 9 (Some 5) [] = Ok pinned_mounts.
Proof. by_value. Qed.
Lemma pinned_masks :
  mask_paths is_dir exists_ pinned_policy [] [] (sort_by depth_leb (lp_read_only_paths pinned_policy))
    = Ok [Tmpfs "/w/.agents"; RemountRo "/w/.agents"].
Proof. by_value. Qed.
Lemma pinned_read_only : effective_mount_is_read_only pinned_policy "/w/.git/config" = true.
Proof. by_value. Qed.

Lemma pinned_workspace_reexposes_witness :
  effective_mount_is_read_only pinned_policy "/w/.git/config" = true
  /\ access pinned_mounts "/w/.git/config" = HostWritable.
Proof.
  split; [exact pinned_read_only|].
  apply (pinned_workspace_reexposes canonicalize is_dir is_file exists_ kind pinned_policy pinned 9 5 []
    pinned_mounts "/w/.git/config" pinned_checked eq_refl eq_refl pinned_mounts_value);
    [vm_compute; reflexivity|exact pinned_read_only|].
  intros masks Hm. rewrite pinned_masks in Hm. injection Hm as <-. intros arg Harg target a Hma.
  apply elem_of_cons in Harg as [->|Harg]; [injection Hma as <- _; vm_compute; reflexivity|].
  apply elem_of_cons in Harg as [->|Harg]; [injection Hma as <- _; vm_compute; reflexivity|].
  apply elem_of_nil in Harg. destruct Harg.
Defined.
End BwrapW.
