(* ===== verification/Access.v ===== *)
(** * Authentication by Cloudflare Access (access.rs)

    How a signed assertion becomes an identity, and how the signing keys are fetched,
    cached and looked up.  Requests run concurrently over the cache of keys, so an
    authentication is two steps of a transition system: before and after it waits for the
    keys.  Base64, the verification of an RSA signature, the parser of JSON and of decimal
    fractions, the url crate and the environment's variables are arguments. *)

From S2P Require Import Prelude Strings Json Value Config OAuth.

#[local] Open Scope Z_scope.
#[local] Open Scope rust_scope.

Definition JWKS_PATH : string := "/cdn-cgi/access/certs".
Definition MAX_JWKS_BYTES : Z := 1024 * 1024.
Definition MAX_ACCESS_ASSERTION_BYTES : Z := 64 * 1024.
Definition MAX_ACCESS_HEADER_SEGMENT_BYTES : Z := 8 * 1024.
Definition MAX_ACCESS_CLAIMS_SEGMENT_BYTES : Z := 32 * 1024.
Definition MAX_ACCESS_SIGNATURE_SEGMENT_BYTES : Z := 8 * 1024.
Definition MAX_ACCESS_KID_BYTES : Z := 256.

Record AccessConfig := mkAccessConfig {
  ac_team_domain : string;
  ac_audience : string;
  ac_allowed_emails : list string;
  ac_jwks_url : string;
}.

Record AccessIdentity := mkAccessIdentity {
  ai_email : string;
  ai_subject : string;
}.

Record JsonWebKey := mkJsonWebKey {
  jwk_kid : option string;
  jwk_kty : option string;
  jwk_alg : option string;
  jwk_n : string;
  jwk_e : string;
}.

Record JwkSet := mkJwkSet {
  jwks_keys : list JsonWebKey;
}.

Record JwtHeader := mkJwtHeader {
  jwt_alg : string;
  jwt_kid : option string;
}.

(** * Derived deserialization *)

Definition jwt_header_of_json (j : Json) : option JwtHeader :=
  match j with
  | JObj entries =>
      alg ← string_field "alg" entries;
      kid ← default_string "kid" entries;
      Some (mkJwtHeader alg kid)
  | JArr [a] => alg ← de_string a; Some (mkJwtHeader alg None)
  | JArr [a; k] => alg ← de_string a; kid ← de_option de_string k; Some (mkJwtHeader alg kid)
  | _ => None
  end.

Definition web_key_of_json (j : Json) : option JsonWebKey :=
  match j with
  | JObj entries =>
      kid ← default_string "kid" entries;
      kty ← default_string "kty" entries;
      alg ← default_string "alg" entries;
      n ← string_field "n" entries;
      e ← string_field "e" entries;
      Some (mkJsonWebKey kid kty alg n e)
  | JArr [kid; kty; alg; n; e] =>
      kid ← de_option de_string kid;
      kty ← de_option de_string kty;
      alg ← de_option de_string alg;
      n ← de_string n;
      e ← de_string e;
      Some (mkJsonWebKey kid kty alg n e)
  | _ => None
  end.

Definition keys_of_json (j : Json) : option JwkSet :=
  items ← as_array j; keys ← mapM web_key_of_json items; Some (mkJwkSet keys).

Definition jwk_set_of_json (j : Json) : option JwkSet :=
  match j with
  | JObj entries => field ← struct_field "keys" entries; j ← field; keys_of_json j
  | JArr [j] => keys_of_json j
  | _ => None
  end.

(** [Value::get] on a parsed object: the last of duplicate keys is kept. *)
Definition claim (claims : Json) (name : string) : option Json :=
  match claims with
  | JObj entries => assoc name (reverse entries)
  | _ => None
  end.

Definition is_object (v : Json) : bool := is_some (as_object v).

(** * The shape of a token *)

(** [parts.next().unwrap_or_default()]: a split is never empty. *)
Definition next_part (parts : list string) : string * list string :=
  match parts with
  | [] => (EmptyString, [])
  | p :: rest => (p, rest)
  end.

Definition access_jwt_parts (token : string) : result string (string * string * string) :=
  let '(header, parts) := next_part (split_on "." token) in
  let '(claims, parts) := next_part parts in
  let '(signature, parts) := next_part parts in
  ensure (negb (nonempty parts)) "Cloudflare Access JWT is malformed" ;!
  Ok (header, claims, signature).

Definition valid_access_kid (value : string) : bool :=
  negb (str_is_empty value) && (str_len value <=? MAX_ACCESS_KID_BYTES)
  && forallb (fun c => negb (is_control c)) (chars value).

Definition jwt_segment_byte (b : Z) : bool := is_ascii_alphanumeric b || (b =? 45) || (b =? 95).

Definition valid_access_jwt_segment (value : string) (max_bytes : Z) : bool :=
  negb (str_is_empty value) && (str_len value <=? max_bytes) && forallb jwt_segment_byte (str_bytes value).

Definition validate_access_assertion_shape (token : string) : result string unit :=
  ensure (str_len token <=? MAX_ACCESS_ASSERTION_BYTES) "Cloudflare Access JWT is too large" ;!
  let! parts := access_jwt_parts token in
  let '(header, claims, signature) := parts in
  ensure (valid_access_jwt_segment header MAX_ACCESS_HEADER_SEGMENT_BYTES
          && valid_access_jwt_segment claims MAX_ACCESS_CLAIMS_SEGMENT_BYTES
          && valid_access_jwt_segment signature MAX_ACCESS_SIGNATURE_SEGMENT_BYTES)
    "Cloudflare Access JWT is malformed".

(** * Times and audiences *)

(** A finite [f64]: mantissa and exponent of two. *)
Record F64 := mkF64 {
  f_mantissa : Z;
  f_exponent : Z;
}.

(** [f >= 0.0 && f < u64::MAX as f64], where the bound is 2^64. *)
Definition in_u64_range (f : F64) : bool :=
  (0 <=? f_mantissa f)
  && (if 0 <=? f_exponent f then f_mantissa f * 2 ^ f_exponent f <? 2 ^ 64
      else f_mantissa f <? 2 ^ 64 * 2 ^ (- f_exponent f)).

(** [f.round() as u64], of a number that is not negative: halves go up. *)
Definition round_f64 (f : F64) : Z :=
  Z.min U64_MAX
    (if 0 <=? f_exponent f then f_mantissa f * 2 ^ f_exponent f
     else (2 * f_mantissa f + 2 ^ (- f_exponent f)) / (2 * 2 ^ (- f_exponent f))).

Section Access.
Context (parse_f64 : string -> F64) `{SJ : SerdeJson}
  (base64_decode : string -> option string)
  (rsa_verify : string -> string -> string -> string -> bool).

Definition as_f64 (v : Json) : option F64 :=
  match v with
  | JInt n => Some (mkF64 n 0)
  | JFloat text => Some (parse_f64 text)
  | _ => None
  end.

Definition numeric_date (value : option Json) : option Z :=
  value ← value;
  match as_u64 value with
  | Some integer => Some integer
  | None => number ← as_f64 value; if in_u64_range number then Some (round_f64 number) else None
  end.

Definition validate_access_times (claims : Json) (now : Z) : result string unit :=
  let! expires := ok_or (numeric_date (claim claims "exp"))
                    "Cloudflare Access JWT has no valid expiry"%string in
  ensure (now <=? expires) "Cloudflare Access JWT is expired" ;!
  match numeric_date (claim claims "nbf") with
  | Some not_before => ensure (not_before <=? now) "Cloudflare Access JWT is not valid yet"
  | None => Ok tt
  end.

Definition audience_matches (value : option Json) (expected : string) : bool :=
  is_some_and (fun value =>
    bool_decide (as_str value = Some expected)
    || is_some_and (existsb (fun aud => bool_decide (as_str aud = Some expected))) (as_array value)) value.

(** * Signatures *)

Definition verify_rs256 (key : JsonWebKey) (signing_input signature_segment : string) : result string unit :=
  ensure (bool_decide (jwk_kty key = Some "RSA"%string)) "Access signing key is not RSA" ;!
  ensure (is_none_or (String.eqb "RS256") (jwk_alg key)) "Access signing key algorithm is not RS256" ;!
  let! modulus := ok_or (base64_decode (jwk_n key)) "invalid Cloudflare Access RSA modulus"%string in
  let! exponent := ok_or (base64_decode (jwk_e key)) "invalid Cloudflare Access RSA exponent"%string in
  let! signature := ok_or (base64_decode signature_segment)
                      "invalid Cloudflare Access JWT signature encoding"%string in
  ensure (negb (str_is_empty modulus) && negb (str_is_empty exponent))
    "invalid Cloudflare Access RSA signing key" ;!
  ensure (rsa_verify modulus exponent signing_input signature) "Cloudflare Access JWT signature is invalid".

(** * The keys *)

Definition append_bounded_jwks_chunk (bytes chunk : string) : result string string :=
  let! next := ok_or (checked_add (str_len bytes) (str_len chunk))
                 "Cloudflare Access signing-key response size overflow"%string in
  ensure (next <=? MAX_JWKS_BYTES) "Cloudflare Access signing-key response is too large" ;!
  Ok (bytes +:+ chunk).

(** The chunks of a response: each one, or that reading it failed. *)
Fixpoint read_jwks_chunks (bytes : string) (chunks : list (result string string)) : result string string :=
  match chunks with
  | [] => Ok bytes
  | chunk :: rest =>
      let! chunk := chunk in
      let! bytes := append_bounded_jwks_chunk bytes chunk in
      read_jwks_chunks bytes rest
  end.

Record KeyResponse := mkKeyResponse {
  kr_content_length : option Z;
  kr_chunks : list (result string string);
}.

Definition read_bounded_jwks_response (response : KeyResponse) : result string string :=
  match kr_content_length response with
  | Some length => ensure (length <=? MAX_JWKS_BYTES) "Cloudflare Access signing-key response is too large"
  | None => Ok tt
  end ;!
  read_jwks_chunks EmptyString (kr_chunks response).

(** What a refresh makes of a response, or of the failure to get one. *)
Definition fetched_keys (response : result string KeyResponse) : result string JwkSet :=
  let! response := response in
  let! bytes := read_bounded_jwks_response response in
  let! set := ok_or (j ← from_slice bytes; jwk_set_of_json j)
                "invalid Cloudflare Access signing-key response"%string in
  ensure (nonempty (jwks_keys set)) "Cloudflare Access signing-key response contained no keys" ;!
  Ok set.

Definition find_key (keys : option JwkSet) (kid : string) : option JsonWebKey :=
  set ← keys; find (fun key => bool_decide (jwk_kid key = Some kid)) (jwks_keys set).

(** * Authentication *)

(** A token that was taken apart and waits for its key. *)
Record Assertion := mkAssertion {
  a_token : string;
  a_header : string;
  a_claims : string;
  a_signature : string;
  a_kid : string;
}.

(** [authenticate] up to the lookup of the key; [value]: the header of the request, if it is
    visible ASCII. *)
Definition read_assertion (value : option string) : result string Assertion :=
  let! token := ok_or (value ← value;
                       if str_is_empty (trim value) then None else Some (trim value))
                  "missing Cf-Access-Jwt-Assertion header"%string in
  validate_access_assertion_shape token ;!
  let! parts := access_jwt_parts token in
  let '(header_segment, claims_segment, signature_segment) := parts in
  let! header_bytes := ok_or (base64_decode header_segment)
                         "invalid Cloudflare Access JWT header encoding"%string in
  let! header := ok_or (j ← from_slice header_bytes; jwt_header_of_json j)
                   "invalid Cloudflare Access JWT header"%string in
  ensure (String.eqb (jwt_alg header) "RS256") "Cloudflare Access JWT must use RS256" ;!
  let! kid := ok_or (jwt_kid header) "Cloudflare Access JWT has no key ID"%string in
  ensure (valid_access_kid kid) "Cloudflare Access JWT key ID is invalid" ;!
  Ok (mkAssertion token header_segment claims_segment signature_segment kid).

(** A claim that is a string and not blank. *)
Definition text_claim (claims : Json) (name : string) : option string :=
  j ← claim claims name; value ← as_str j;
  if str_is_empty (trim value) then None else Some (trim value).

(** The first [n] bytes. *)
Definition byte_prefix (n : Z) (s : string) : string := String.substring 0 (Z.to_nat n) s.

(** [authenticate] once the key is there. *)
Definition check_assertion (config : AccessConfig) (a : Assertion) (key : JsonWebKey) (now : Z) :
    result string AccessIdentity :=
  let signing_input_len := str_len (a_header a) + 1 + str_len (a_claims a) in
  verify_rs256 key (byte_prefix signing_input_len (a_token a)) (a_signature a) ;!
  let! claims_bytes := ok_or (base64_decode (a_claims a))
                         "invalid Cloudflare Access JWT claims encoding"%string in
  let! claims := ok_or (from_slice claims_bytes) "invalid Cloudflare Access JWT claims"%string in
  ensure (is_object claims) "Cloudflare Access JWT claims must be an object" ;!
  validate_access_times claims now ;!
  ensure (bool_decide ((j ← claim claims "iss"; as_str j) = Some (ac_team_domain config)))
    "Cloudflare Access JWT issuer is invalid" ;!
  ensure (audience_matches (claim claims "aud") (ac_audience config))
    "Cloudflare Access JWT audience is invalid" ;!
  let! subject := ok_or (text_claim claims "sub") "Cloudflare Access JWT has no subject"%string in
  let! email := ok_or (text_claim claims "email") "Cloudflare Access JWT has no email"%string in
  let email := to_ascii_lowercase email in
  ensure (existsb (String.eqb email) (ac_allowed_emails config)) "Cloudflare Access email is not allowed" ;!
  Ok (mkAccessIdentity email subject).

(** The cache of keys and the requests that wait for their key, with whether the refresh
    they asked for is done. *)
Record Authenticator := mkAuthenticator {
  au_config : AccessConfig;
  au_keys : option JwkSet;
  au_waiting : list (nat * (Assertion * bool));
}.

Definition set_keys (s : Authenticator) (keys : option JwkSet) : Authenticator :=
  mkAuthenticator (au_config s) keys (au_waiting s).
Definition set_waiting (s : Authenticator) (waiting : list (nat * (Assertion * bool))) : Authenticator :=
  mkAuthenticator (au_config s) (au_keys s) waiting.

(** What a request was answered. *)
Definition Answer : Type := nat * result string AccessIdentity.

(** The steps of requests, by their number: the first look at the keys; the response to the
    refresh of one that did not find its key, which [refresh_keys] stores or reports; and the
    second look.  Other requests may step in between. *)
Inductive AccessLabel :=
| Begin (id : nat) (value : option string) (now : Z)
| Refreshed (id : nat) (response : result string KeyResponse)
| LookAgain (id : nat) (now : Z).

Definition waiting_for (s : Authenticator) (id : nat) : option (Assertion * bool) :=
  snd <$> find (fun w => (w.1 =? id)%nat) (au_waiting s).
Definition leave (s : Authenticator) (id : nat) : Authenticator :=
  set_waiting s (List.filter (fun w => negb (w.1 =? id)%nat) (au_waiting s)).

Definition authenticate_step (s : Authenticator) (l : AccessLabel) : option (Authenticator * list Answer) :=
  match l with
  | Begin id value now =>
      if is_some (waiting_for s id) then None
      else match read_assertion value with
           | Err e => Some (s, [(id, Err e)])
           | Ok a =>
               match find_key (au_keys s) (a_kid a) with
               | Some key => Some (s, [(id, check_assertion (au_config s) a key now)])
               | None => Some (set_waiting s ((id, (a, false)) :: au_waiting s), [])
               end
           end
  | Refreshed id response =>
      match waiting_for s id with
      | Some (a, false) =>
          match fetched_keys response with
          | Ok set => Some (set_waiting (set_keys s (Some set)) ((id, (a, true)) :: au_waiting (leave s id)), [])
          | Err e => Some (leave s id, [(id, Err e)])
          end
      | _ => None
      end
  | LookAgain id now =>
      match waiting_for s id with
      | Some (a, true) =>
          match find_key (au_keys s) (a_kid a) with
          | Some key => Some (leave s id, [(id, check_assertion (au_config s) a key now)])
          | None => Some (leave s id, [(id, Err "Cloudflare Access key was not found"%string)])
          end
      | _ => None
      end
  end.

(** * Configuration *)

Context `{UL : UrlLib} (url_path : Url -> string) (url_query : Url -> option string)
  (url_origin : Url -> string) (var : string -> option string).

Fixpoint trim_start_matches (c : ascii) (s : string) : string :=
  match s with
  | String d rest => if Ascii.eqb d c then trim_start_matches c rest else s
  | EmptyString => EmptyString
  end.

Fixpoint trim_end_matches (c : ascii) (s : string) : string :=
  match s with
  | String d rest =>
      match trim_end_matches c rest with
      | EmptyString => if Ascii.eqb d c then EmptyString else String d EmptyString
      | rest => String d rest
      end
  | EmptyString => EmptyString
  end.

Definition required_env (name : string) : result string string :=
  let! value := ok_or (var name) (name +:+ " is required") in
  ensure (negb (str_is_empty (trim value))) (name +:+ " must not be empty") ;!
  Ok value.

Definition normalize_team_domain (value : string) : result string string :=
  let candidate := if contains_str "://" value then value else "https://" +:+ value in
  let! parsed := ok_or (url_parse candidate) "TEMOTE_MCP_ACCESS_TEAM_DOMAIN is invalid"%string in
  ensure (String.eqb (url_scheme parsed) "https" && str_is_empty (url_username parsed)
          && is_none (url_password parsed) && is_none (url_query parsed) && is_none (url_fragment parsed)
          && str_is_empty (trim_end_matches "/" (trim_start_matches "/" (url_path parsed))))
    "TEMOTE_MCP_ACCESS_TEAM_DOMAIN must be an HTTPS host without a path" ;!
  ensure (is_some (url_host_str parsed)) "Access team domain has no host" ;!
  Ok (trim_end_matches "/" (url_origin parsed)).

Definition parse_allowed_emails (value : string) : list string :=
  List.filter (fun email => negb (str_is_empty email))
    (map (fun email => to_ascii_lowercase (trim email)) (split_on "," value)).

Definition config_from_env : result string AccessConfig :=
  let! team_domain := required_env "TEMOTE_MCP_ACCESS_TEAM_DOMAIN" in
  let! audience := required_env "TEMOTE_MCP_ACCESS_AUDIENCE" in
  let audience := trim audience in
  ensure (negb (str_is_empty audience)) "TEMOTE_MCP_ACCESS_AUDIENCE must not be empty" ;!
  let! emails := required_env "TEMOTE_MCP_ACCESS_ALLOWED_EMAILS" in
  let allowed_emails := parse_allowed_emails emails in
  ensure (nonempty allowed_emails) "TEMOTE_MCP_ACCESS_ALLOWED_EMAILS must contain at least one email" ;!
  let! team_domain := normalize_team_domain team_domain in
  Ok (mkAccessConfig team_domain (trim audience) allowed_emails (team_domain +:+ JWKS_PATH)).

(** [AccessAuthenticator::from_env]: the keys are fetched before the first request. *)
Definition authenticator_from_env (response : result string KeyResponse) : result string Authenticator :=
  let! config := config_from_env in
  let! set := fetched_keys response in
  Ok (mkAuthenticator config (Some set) []).
End Access.
