(* ===== verification/AccessTheorems.v ===== *)
(** * Who is let in by Cloudflare Access

    An identity is only ever answered for a token that is signed by a key the issuer
    served, over exactly the header and claims that were read, with claims that name the
    configured issuer and audience, hold at the time of the check, and carry an allowed
    address; and every such token is accepted. *)

From S2P Require Import Prelude Strings Json Value Config ConfigTheorems OAuth Access.

#[local] Open Scope Z_scope.
#[local] Open Scope rust_scope.

(** * Tokens *)

Lemma jwt_join_split sep s : String.concat (String sep EmptyString) (split_on sep s) = s.
Proof.
  induction s as [|c s IH]; [done|]. cbn [split_on].
  pose proof (split_on_nonempty sep s) as Hne. destruct (split_on sep s) as [|p ps]; [done|].
  destruct (Ascii.eqb_spec c sep) as [->|].
  - cbn. cbn in IH. by rewrite IH.
  - destruct ps as [|q ps]; cbn in IH |- *; by rewrite <- IH.
Qed.

Lemma substring_app a b : String.substring 0 (String.length a) (a +:+ b) = a.
Proof. induction a as [|c a IH]; [by destruct b|]. rewrite string_app_cons. cbn. by rewrite IH. Qed.

(** What a token of the accepted shape is, and that the signed bytes are its first two
    segments with the dot. *)
Lemma jwt_parts_spec token h c g :
  access_jwt_parts token = Ok (h, c, g) -> str_is_empty c = false -> str_is_empty g = false ->
  token = h +:+ "." +:+ c +:+ "." +:+ g
  /\ byte_prefix (str_len h + 1 + str_len c) token = h +:+ "." +:+ c.
Proof.
  unfold access_jwt_parts. intros H Hc Hg.
  assert (token = h +:+ "." +:+ c +:+ "." +:+ g) as ->.
  { pose proof (jwt_join_split "." token) as Hj. pose proof (split_on_nonempty "." token) as Hne.
    destruct (split_on "." token) as [|p1 [|p2 [|p3 [|p4 l]]]]; [done|..];
      cbn [next_part nonempty negb ensure bind] in H; try done; injection H as <- <- <-; try done. }
  split; [done|]. unfold byte_prefix.
  replace (Z.to_nat (str_len h + 1 + str_len c)) with (String.length (h +:+ "." +:+ c)).
  - rewrite <- (string_app_assoc "." c), <- (string_app_assoc h ("." +:+ c)). apply substring_app.
  - assert (str_len (h +:+ "." +:+ c) = str_len h + 1 + str_len c) as E.
    { rewrite !str_len_append. change (str_len ".") with 1. lia. }
    unfold str_len in E at 1. lia.
Qed.

Section Access.
Context (parse_f64 : string -> F64) `{SJ : SerdeJson}
  (base64_decode : string -> option string)
  (rsa_verify : string -> string -> string -> string -> bool).

#[local] Notation check_assertion := (check_assertion parse_f64 base64_decode rsa_verify).
#[local] Notation authenticate_step := (authenticate_step parse_f64 base64_decode rsa_verify).
#[local] Notation read_assertion := (read_assertion base64_decode).
#[local] Notation numeric_date := (numeric_date parse_f64).

(** * One token *)

(** A key verifies a text. *)
Definition signed_by (key : JsonWebKey) (text signature_segment : string) : Prop :=
  jwk_kty key = Some "RSA"%string /\ (jwk_alg key = None \/ jwk_alg key = Some "RS256"%string)
  /\ exists modulus exponent signature,
       base64_decode (jwk_n key) = Some modulus /\ base64_decode (jwk_e key) = Some exponent
       /\ base64_decode signature_segment = Some signature
       /\ modulus <> EmptyString /\ exponent <> EmptyString
       /\ rsa_verify modulus exponent text signature = true.

Record authentic (config : AccessConfig) (a : Assertion) (key : JsonWebKey) (now : Z)
    (who : AccessIdentity) : Prop := mkAuthentic {
  au_signed : signed_by key (byte_prefix (str_len (a_header a) + 1 + str_len (a_claims a)) (a_token a))
                (a_signature a);
  au_claims : exists bytes claims entries,
    base64_decode (a_claims a) = Some bytes /\ from_slice bytes = Some claims
    /\ claims = JObj entries
    /\ claim claims "iss" = Some (JStr (ac_team_domain config))
    /\ (claim claims "aud" = Some (JStr (ac_audience config))
        \/ exists items, claim claims "aud" = Some (JArr items) /\ JStr (ac_audience config) ∈ items)
    /\ (exists expires, numeric_date (claim claims "exp") = Some expires /\ now <= expires)
    /\ (forall not_before, numeric_date (claim claims "nbf") = Some not_before -> not_before <= now)
    /\ text_claim claims "sub" = Some (ai_subject who)
    /\ exists email, text_claim claims "email" = Some email /\ ai_email who = to_ascii_lowercase email;
  au_allowed : ai_email who ∈ ac_allowed_emails config;
}.

Lemma empty_iff s : negb (str_is_empty s) = true <-> s <> EmptyString.
Proof.
  unfold str_is_empty, str_len. destruct s; cbn; [split; [done|by intros []]|].
  split; [by intros _|intros _; apply negb_true_iff, Z.eqb_neq; lia].
Qed.

Lemma verify_rs256_spec key text signature :
  verify_rs256 base64_decode rsa_verify key text signature = Ok tt <-> signed_by key text signature.
Proof.
  assert (is_none_or (String.eqb "RS256") (jwk_alg key) = true
    <-> jwk_alg key = None \/ jwk_alg key = Some "RS256"%string) as Halg.
  { destruct (jwk_alg key) as [alg|]; cbn [is_none_or]; [rewrite String.eqb_eq|]; naive_solver. }
  unfold verify_rs256, signed_by. split.
  - intros ([] & Hkty%ensure_Ok & H)%bind_Ok. apply bind_Ok in H as ([] & Ha%ensure_Ok & H).
    apply bind_Ok in H as (n & Hn%ok_or_Ok & H). apply bind_Ok in H as (e & He%ok_or_Ok & H).
    apply bind_Ok in H as (sig & Hs%ok_or_Ok & H). apply bind_Ok in H as ([] & Hne%ensure_Ok & H%ensure_Ok).
    apply andb_true_iff in Hne as [Hne1%empty_iff Hne2%empty_iff].
    split; [by apply bool_decide_eq_true in Hkty|]. split; [by apply Halg|]. by exists n, e, sig.
  - intros (Hkty & Ha%Halg & n & e & sig & Hn & He & Hs & Hne1%empty_iff & Hne2%empty_iff & H).
    rewrite bool_decide_true, Ha, Hn, He, Hs by done. cbn [ensure ok_or bind].
    by rewrite Hne1, Hne2, H.
Qed.

Lemma audience_spec value expected :
  audience_matches value expected = true <->
  value = Some (JStr expected) \/ exists items, value = Some (JArr items) /\ JStr expected ∈ items.
Proof.
  assert (forall j, as_str j = Some expected <-> j = JStr expected) as Hs.
  { intros []; cbn; naive_solver. }
  destruct value as [v|]; cbn; [|naive_solver]. rewrite orb_true_iff, bool_decide_eq_true, Hs.
  split; intros [H|H].
  - left. by rewrite H.
  - right. destruct v as [| | | | |items|]; try done. exists items. split; [done|]. cbn in H.
    apply existsb_exists in H as (j & Hj & Ej). apply bool_decide_eq_true, Hs in Ej. subst j.
    by apply list_elem_of_In.
  - left. by injection H.
  - right. destruct H as (items & [= ->] & Hin). cbn. apply existsb_exists. exists (JStr expected).
    split; [by apply list_elem_of_In|]. by apply bool_decide_eq_true.
Qed.

Lemma times_spec claims now :
  validate_access_times parse_f64 claims now = Ok tt <->
  (exists expires, numeric_date (claim claims "exp") = Some expires /\ now <= expires)
  /\ forall not_before, numeric_date (claim claims "nbf") = Some not_before -> not_before <= now.
Proof.
  unfold validate_access_times. destruct (numeric_date (claim claims "exp")) as [exp|]; cbn [ok_or bind];
    [|split; [done|by intros [(? & ? & _) _]]].
  rewrite bind_Ok. split.
  - intros ([] & He%ensure_Ok & H). apply Z.leb_le in He. split; [by exists exp|]. intros nbf Hn.
    rewrite Hn in H. by apply ensure_Ok, Z.leb_le in H.
  - intros [(e & [= <-] & He%Z.leb_le) Hn]. exists tt. rewrite He. split; [done|].
    destruct (numeric_date (claim claims "nbf")) as [nbf|]; [|done]. apply ensure_Ok, Z.leb_le. by apply Hn.
Qed.

(** The check of a token with a key accepts exactly what is authentic. *)
Lemma check_assertion_spec config a key now who :
  check_assertion config a key now = Ok who <-> authentic config a key now who.
Proof.
  unfold Access.check_assertion. split.
  - intros ([] & Hs%verify_rs256_spec & H)%bind_Ok. apply bind_Ok in H as (bytes & Hb%ok_or_Ok & H).
    apply bind_Ok in H as (claims & Hc%ok_or_Ok & H). apply bind_Ok in H as ([] & Ho%ensure_Ok & H).
    apply bind_Ok in H as ([] & [Hx Hn]%times_spec & H). apply bind_Ok in H as ([] & Hi%ensure_Ok & H).
    apply bind_Ok in H as ([] & Ha%ensure_Ok%audience_spec & H). apply bind_Ok in H as (sub & Hsub%ok_or_Ok & H).
    apply bind_Ok in H as (email & He%ok_or_Ok & H). apply bind_Ok in H as ([] & Hal%ensure_Ok & [= <-]).
    split; [done| |].
    + exists bytes, claims. destruct claims as [| | | | | |entries]; try done. exists entries. split_and!; try done.
      * apply bool_decide_eq_true in Hi. destruct (claim _ "iss") as [[]|]; try done. by injection Hi as ->.
      * by exists email.
    + apply existsb_exists in Hal as (x & Hx' & ->%String.eqb_eq). by apply list_elem_of_In.
  - intros [Hs%verify_rs256_spec (bytes & claims & entries & Hb & Hc & He & Hi & Ha%audience_spec & Hx & Hn & Hsub
      & email & Hem & Hwho) Hal].
    rewrite Hs, Hb. cbn [bind ok_or]. rewrite Hc. cbn [bind ok_or].
    assert (is_object claims = true) as -> by (by subst claims). cbn [bind ensure].
    rewrite (proj2 (times_spec claims now) (conj Hx Hn)). cbn [bind].
    rewrite Hi. cbn [mbind option_bind as_str]. rewrite bool_decide_true by done. cbn [bind ensure].
    rewrite Ha, Hsub. cbn [bind ensure ok_or]. rewrite Hem. cbn [bind ok_or].
    rewrite <- Hwho. assert (existsb (String.eqb (ai_email who)) (ac_allowed_emails config) = true) as ->.
    { apply existsb_exists. exists (ai_email who). split; [by apply list_elem_of_In|by apply String.eqb_eq]. }
    cbn [bind ensure]. by destruct who.
Qed.

(** A token that is let through to the keys: three segments, and a header for RS256 that
    names the key. *)
Lemma read_assertion_spec value a :
  read_assertion value = Ok a ->
  (exists v, value = Some v /\ a_token a = trim v)
  /\ a_token a = a_header a +:+ "." +:+ a_claims a +:+ "." +:+ a_signature a
  /\ byte_prefix (str_len (a_header a) + 1 + str_len (a_claims a)) (a_token a)
       = a_header a +:+ "." +:+ a_claims a
  /\ exists bytes j, base64_decode (a_header a) = Some bytes /\ from_slice bytes = Some j
       /\ jwt_header_of_json j = Some (mkJwtHeader "RS256" (Some (a_kid a))).
Proof.
  unfold Access.read_assertion. intros (token & Ht%ok_or_Ok & H)%bind_Ok.
  apply bind_Ok in H as ([] & Hshape & H). apply bind_Ok in H as ([[h c] g] & Hp & H).
  apply bind_Ok in H as (bytes & Hb%ok_or_Ok & H). apply bind_Ok in H as (header & Hh%ok_or_Ok & H).
  apply bind_Ok in H as ([] & Halg%ensure_Ok%String.eqb_eq & H). apply bind_Ok in H as (kid & Hk%ok_or_Ok & H).
  apply bind_Ok in H as ([] & _ & [= <-]). cbn [a_token a_header a_claims a_signature a_kid].
  unfold validate_access_assertion_shape in Hshape. apply bind_Ok in Hshape as ([] & _ & Hshape).
  rewrite Hp in Hshape. cbn [bind] in Hshape. apply ensure_Ok in Hshape.
  rewrite !andb_true_iff in Hshape. unfold valid_access_jwt_segment in Hshape.
  rewrite !andb_true_iff, !negb_true_iff in Hshape. destruct Hshape as [[_ [[Hc _] _]] [[Hg _] _]].
  destruct (jwt_parts_spec token h c g Hp Hc Hg) as [Htok Hpre]. split; [|split; [done|split; [done|]]].
  - destruct value as [v|]; [|done]. exists v. split; [done|]. cbn in Ht. by destruct (str_is_empty (trim v)); [|injection Ht as <-].
  - exists bytes. destruct (from_slice bytes) as [j|]; [|done]. exists j. split; [done|]. split; [done|].
    cbn in Hh. rewrite Hh. destruct header. cbn in *. by subst.
Qed.

(** * Runs *)

Fixpoint access_run (s : Authenticator) (ls : list AccessLabel) : option (Authenticator * list Answer) :=
  match ls with
  | [] => Some (s, [])
  | l :: rest =>
      '(s, answers) ← authenticate_step s l;
      '(s, more) ← access_run s rest;
      Some (s, answers ++ more)
  end.

(** A response of the issuer that is part of a run, the first one included. *)
Definition served (first : result string KeyResponse) (ls : list AccessLabel)
    (response : result string KeyResponse) : Prop :=
  response = first \/ exists id, Refreshed id response ∈ ls.

Record access_inv (config : AccessConfig) (first : result string KeyResponse) (past : list AccessLabel)
    (s : Authenticator) : Prop := mkAccessInv {
  ai_config : au_config s = config;
  ai_keys : forall set, au_keys s = Some set ->
    exists response, served first past response /\ fetched_keys response = Ok set;
  ai_waiting : forall id a b, (id, (a, b)) ∈ au_waiting s ->
    exists value now, Begin id value now ∈ past /\ read_assertion value = Ok a;
}.

(** Why a request was answered with an identity. *)
Definition justified (config : AccessConfig) (first : result string KeyResponse) (ls : list AccessLabel)
    (id : nat) (who : AccessIdentity) : Prop :=
  exists value started now a key set response,
    Begin id value started ∈ ls /\ (now = started \/ LookAgain id now ∈ ls)
    /\ read_assertion value = Ok a
    /\ served first ls response /\ fetched_keys response = Ok set
    /\ key ∈ jwks_keys set /\ jwk_kid key = Some (a_kid a)
    /\ authentic config a key now who.

Lemma served_more first ls ls' response : ls ⊆ ls' -> served first ls response -> served first ls' response.
Proof. intros Hs [?|[id Hid]]; [by left|right]. exists id. by apply Hs. Qed.

Lemma find_key_spec keys kid key :
  find_key keys kid = Some key ->
  exists set, keys = Some set /\ key ∈ jwks_keys set /\ jwk_kid key = Some kid.
Proof.
  unfold find_key. destruct keys as [set|]; [|done]. cbn. intros [Hin Hk]%find_some. exists set.
  split; [done|]. apply bool_decide_eq_true in Hk. split; [by apply list_elem_of_In|done].
Qed.

Lemma waiting_spec s id a b : waiting_for s id = Some (a, b) -> (id, (a, b)) ∈ au_waiting s.
Proof.
  unfold waiting_for. destruct (find _ _) as [[i w]|] eqn:E; [|done]. intros [= ->].
  apply find_some in E as [Hin Hi%Nat.eqb_eq]. cbn in Hi. subst i. by apply list_elem_of_In.
Qed.

Lemma leave_sub s id w : w ∈ au_waiting (leave s id) -> w ∈ au_waiting s.
Proof. cbn. intros Hw. apply list_elem_of_In in Hw. apply filter_In in Hw as [? _]. by apply list_elem_of_In. Qed.

Lemma access_step_inv config first past s l s' answers :
  access_inv config first past s -> authenticate_step s l = Some (s', answers) ->
  access_inv config first (past ++ [l]) s'
  /\ forall id who, (id, Ok who) ∈ answers -> justified config first (past ++ [l]) id who.
Proof.
  intros [Hc Hk Hw] Hstep.
  assert (past ⊆ past ++ [l]) as Hsub by (intros x Hx; apply elem_of_app; by left).
  assert (access_inv config first (past ++ [l]) s) as Hsame.
  { split; [done| |].
    - intros set Hs. destruct (Hk set Hs) as (r & Hr & ?). exists r. split; [by eapply served_more|done].
    - intros id a b Hin. destruct (Hw id a b Hin) as (v & n & ? & ?). exists v, n. split; [by apply Hsub|done]. }
  assert (forall id, access_inv config first (past ++ [l]) (leave s id)) as Hleave.
  { intros id. destruct Hsame as [H1 H2 H3]. split; [done|done|]. intros i a b Hin%leave_sub. by eapply H3. }
  assert (forall key a, find_key (au_keys s) (a_kid a) = Some key -> exists set response,
    served first (past ++ [l]) response /\ fetched_keys response = Ok set /\ key ∈ jwks_keys set
    /\ jwk_kid key = Some (a_kid a)) as Hkey.
  { intros key a (set & Hs & Hin & Hkid)%find_key_spec. destruct (Hk set Hs) as (r & Hr & ?).
    exists set, r. split; [by eapply served_more|done]. }
  destruct l as [id value now|id response|id now]; cbn [Access.authenticate_step] in Hstep.
  - destruct (is_some (waiting_for s id)); [done|].
    destruct (read_assertion value) as [a|e] eqn:Ea.
    + destruct (find_key (au_keys s) (a_kid a)) as [key|] eqn:Ef.
      * injection Hstep as <- <-. split; [done|]. intros i who [= -> Hwho]%list_elem_of_singleton.
        destruct (Hkey key a Ef) as (set & r & ? & ? & ? & ?). exists value, now, now, a, key, set, r.
        split_and!; try done; [apply elem_of_app; right; left|by left|].
        rewrite Hc in Hwho. by apply check_assertion_spec.
      * injection Hstep as <- <-. split; [|by intros i who []%elem_of_nil].
        destruct Hsame as [H1 H2 H3]. split; [done|done|]. cbn. intros i a' b [[= -> -> ->]|Hin]%elem_of_cons.
        -- exists value, now. split; [apply elem_of_app; right; left|done].
        -- by eapply H3.
    + injection Hstep as <- <-. split; [done|]. by intros i who [= ? ?]%list_elem_of_singleton.
  - destruct (waiting_for s id) as [[a []]|] eqn:Ew; try done. apply waiting_spec in Ew.
    destruct (fetched_keys response) as [set|e] eqn:Er; injection Hstep as <- <-.
    + split; [|by intros i who []%elem_of_nil]. destruct (Hleave id) as [H1 H2 H3]. split; [done| |].
      * cbn. intros set' [= <-]. exists response. split; [|done]. right. exists id. apply elem_of_app. right. left.
      * cbn. intros i a' b [[= -> -> ->]|Hin]%elem_of_cons; [|by eapply H3].
        destruct (Hw id a false Ew) as (v & n & ? & ?). exists v, n. split; [by apply Hsub|done].
    + split; [done|]. by intros i who [= ? ?]%list_elem_of_singleton.
  - destruct (waiting_for s id) as [[a []]|] eqn:Ew; try done. apply waiting_spec in Ew.
    destruct (find_key (au_keys s) (a_kid a)) as [key|] eqn:Ef; injection Hstep as <- <-; (split; [done|]);
      intros i who Hin%list_elem_of_singleton; [|done]. injection Hin as -> Hwho.
    destruct (Hkey key a Ef) as (set & r & ? & ? & ? & ?). destruct (Hw id a true Ew) as (v & n & ? & ?).
    exists v, n, now, a, key, set, r. split_and!; try done; [by apply Hsub|right; apply elem_of_app; right; left|].
    rewrite Hc in Hwho. by apply check_assertion_spec.
Qed.

Lemma access_run_justified config first ls : forall past s s' answers,
  access_inv config first past s -> access_run s ls = Some (s', answers) ->
  forall id who, (id, Ok who) ∈ answers -> justified config first (past ++ ls) id who.
Proof.
  induction ls as [|l ls IH]; intros past s s' answers Hinv; cbn [access_run].
  { intros [= <- <-] id who []%elem_of_nil. }
  destruct (authenticate_step s l) as [[s1 a1]|] eqn:Es; [|done]. cbn [mbind option_bind].
  destruct (access_run s1 ls) as [[s2 a2]|] eqn:Er; [|done]. intros [= <- <-] id who.
  destruct (access_step_inv _ _ _ _ _ _ _ Hinv Es) as [Hinv1 Hj].
  assert (past ++ l :: ls = (past ++ [l]) ++ ls) as E by (by rewrite <- app_assoc).
  intros [Hin|Hin]%elem_of_app; rewrite E; [|by eapply IH].
  destruct (Hj id who Hin) as (v & n & now & a & key & set & r & ? & Hnow & ? & ? & ? & ? & ? & ?).
  assert ((past ++ [l]) ⊆ (past ++ [l]) ++ ls) as Hsub by (intros x Hx; apply elem_of_app; by left).
  exists v, n, now, a, key, set, r. split_and!; try done; [by apply Hsub| |by eapply served_more].
  destruct Hnow; [by left|right; by apply Hsub].
Qed.

Context `{UL : UrlLib} (url_path : Url -> string) (url_query : Url -> option string)
  (url_origin : Url -> string) (var : string -> option string).
#[local] Notation config_from_env := (config_from_env url_path url_query url_origin var).
#[local] Notation authenticator_from_env := (authenticator_from_env url_path url_query url_origin var).

Lemma config_emails config :
  config_from_env = Ok config ->
  exists emails, var "TEMOTE_MCP_ACCESS_ALLOWED_EMAILS" = Some emails
    /\ forall email, email ∈ ac_allowed_emails config ->
         exists entry, entry ∈ split_on "," emails /\ email = to_ascii_lowercase (trim entry).
Proof.
  unfold Access.config_from_env. intros (d & _ & H)%bind_Ok. apply bind_Ok in H as (au & _ & H).
  apply bind_Ok in H as ([] & _ & H). apply bind_Ok in H as (emails & He & H).
  apply bind_Ok in H as ([] & _ & H). apply bind_Ok in H as (dom & _ & [= <-]).
  exists emails. split.
  - unfold required_env in He. apply bind_Ok in He as (v & Hv%ok_or_Ok & He).
    by apply bind_Ok in He as ([] & _ & [= <-]).
  - cbn [ac_allowed_emails]. unfold parse_allowed_emails. intros email Hin.
    apply list_elem_of_In, filter_In in Hin as [Hin _]. apply in_map_iff in Hin as (entry & <- & Hin).
    exists entry. split; [by apply list_elem_of_In|done].
Qed.

(** C19: in every interleaving of requests, an identity is only answered to a request whose token is
    three segments with a header for RS256, signed over the first two by a key of that name
    which the issuer served, with claims that name the configured issuer and audience, have
    not expired and have begun when they are checked, and carry the subject and the address
    of the identity; and the address is one of those the configuration lists, whatever its
    case. *)
Theorem identity_authenticated first ls s0 s answers id who :
  authenticator_from_env first = Ok s0 ->
  access_run s0 ls = Some (s, answers) -> (id, Ok who) ∈ answers ->
  exists config v started now a key set response,
    config_from_env = Ok config
    /\ Begin id (Some v) started ∈ ls /\ (now = started \/ LookAgain id now ∈ ls)
    /\ trim v = a_header a +:+ "." +:+ a_claims a +:+ "." +:+ a_signature a
    /\ (exists bytes j, base64_decode (a_header a) = Some bytes /\ from_slice bytes = Some j
          /\ jwt_header_of_json j = Some (mkJwtHeader "RS256" (Some (a_kid a))))
    /\ served first ls response /\ fetched_keys response = Ok set
    /\ key ∈ jwks_keys set /\ jwk_kid key = Some (a_kid a)
    /\ signed_by key (a_header a +:+ "." +:+ a_claims a) (a_signature a)
    /\ authentic config a key now who
    /\ exists emails entry, var "TEMOTE_MCP_ACCESS_ALLOWED_EMAILS" = Some emails
         /\ entry ∈ split_on "," emails /\ ai_email who = to_ascii_lowercase (trim entry).
Proof.
  unfold Access.authenticator_from_env. intros (config & Hc & H)%bind_Ok.
  apply bind_Ok in H as (set0 & Hf & [= <-]). intros Hrun Hin.
  assert (access_inv config first [] (mkAuthenticator config (Some set0) [])) as Hinv.
  { split; [done| |by intros i a b []%elem_of_nil]. cbn. intros set [= <-]. exists first. split; [by left|done]. }
  destruct (access_run_justified config first ls [] _ s answers Hinv Hrun id who Hin)
    as (value & started & now & a & key & set & response & Hb & Hn & Ha & Hs & Hset & Hk & Hkid & Hau).
  destruct (read_assertion_spec value a Ha) as ((v & -> & Hv) & Htok & Hpre & Hhead).
  destruct (config_emails config Hc) as (emails & Hvar & Hem).
  destruct (Hem (ai_email who) (au_allowed _ _ _ _ _ Hau)) as (entry & ? & ?).
  exists config, v, started, now, a, key, set, response. split_and!; try done.
  - by rewrite <- Hv.
  - rewrite <- Hpre. apply Hau.
  - by exists emails, entry.
Qed.

(** A request with an authentic token is let in: at once when its key is in the cache, and
    otherwise as soon as the refresh it asks for brings the key. *)
Theorem authentic_let_in s id value a key now who started response set s1 :
  waiting_for s id = None -> read_assertion value = Ok a ->
  authentic (au_config s) a key now who ->
  (find_key (au_keys s) (a_kid a) = Some key ->
    authenticate_step s (Begin id value now) = Some (s, [(id, Ok who)]))
  /\ (find_key (au_keys s) (a_kid a) = None ->
      fetched_keys response = Ok set -> find_key (Some set) (a_kid a) = Some key ->
      authenticate_step s (Begin id value started) = Some (s1, []) ->
      exists s2 s3, authenticate_step s1 (Refreshed id response) = Some (s2, [])
        /\ au_keys s2 = Some set
        /\ authenticate_step s2 (LookAgain id now) = Some (s3, [(id, Ok who)])
        /\ waiting_for s3 id = None).
Proof.
  intros Hw Ha Hau%check_assertion_spec. unfold Access.authenticate_step. rewrite Hw, Ha. cbn [is_some is_some_and]. split.
  - intros ->. by rewrite Hau.
  - intros -> Hf Hk [= <-]. unfold waiting_for at 1. cbn [set_waiting au_waiting find fst snd].
    rewrite Nat.eqb_refl. cbn [fmap option_fmap option_map snd]. rewrite Hf. eexists _, _.
    split; [done|]. split; [done|]. unfold waiting_for at 1. cbn [set_waiting set_keys au_waiting find fst snd].
    rewrite Nat.eqb_refl. cbn [fmap option_fmap option_map snd set_keys set_waiting au_keys au_config].
    rewrite Hk, Hau. split; [done|]. unfold waiting_for, leave. cbn [set_waiting au_waiting].
    destruct (find _ _) as [w|] eqn:E; [|done]. apply find_some in E as [Hin Hi].
    apply filter_In in Hin as [_ Hne]. by rewrite Hi in Hne.
Qed.
End Access.
