(* ===== verification/AccessWitness.v ===== *)
(** * Inputs at which the theorems on authentication apply

    A token whose key is not among the first keys of the issuer, so that its request
    refreshes them. *)

From S2P Require Import Prelude Strings Json Value Config OAuth Access AccessTheorems.
Import JsonModel.

#[local] Open Scope Z_scope.
#[local] Open Scope rust_scope.

#[local] Ltac by_value := match goal with |- _ = ?v => vm_cast_no_check (eq_refl v) end.

Module AccessW.

Definition header : Json := JObj [("alg", JStr "RS256"); ("kid", JStr "k2")]%string.
Definition claims : Json :=
  JObj [("iss", JStr "https://team.example"); ("aud", JArr [JInt 1; JStr "app"]); ("exp", JFloat "100.5");
        ("nbf", JInt 50); ("sub", JStr "user-1"); ("email", JStr "Ada@Example.com ")]%string.
Definition web_key (kid : string) : Json :=
  JObj [("kid", JStr kid); ("kty", JStr "RSA"); ("n", JStr "bg"); ("e", JStr "AQAB")]%string.
Definition key_document (kid : string) : Json := JObj [("keys", JArr [web_key kid])]%string.

#[local] Instance serde : SerdeJson := codec [header; claims; key_document "k1"; key_document "k2"].

(** 100.5. *)
Definition parse_f64 (text : string) : F64 := mkF64 201 (-1).

Definition base64_decode (s : string) : option string :=
  match_str s [("hdr", str_of (print header)); ("clm", str_of (print claims)); ("sig", "S");
               ("bg", "N"); ("AQAB", "E")]%string.
Definition rsa_verify (modulus exponent text signature : string) : bool :=
  String.eqb modulus "N" && String.eqb exponent "E" && String.eqb text "hdr.clm" && String.eqb signature "S".

#[local] Instance url : UrlLib := {|
  Url := string;
  url_parse s := Some s;
  url_scheme _ := "https"%string;
  url_username _ := EmptyString;
  url_password _ := None;
  url_fragment _ := None;
  url_host_str _ := Some "team.example"%string;
  url_port_or_known_default _ := Some 443;
  url_append_pairs s _ := s;
|}.

Definition url_path (u : Url) : string := "/".
Definition url_query (u : Url) : option string := None.
Definition url_origin (u : Url) : string := "https://team.example".

Definition var (name : string) : option string :=
  match_str name [("TEMOTE_MCP_ACCESS_TEAM_DOMAIN", "team.example/"); ("TEMOTE_MCP_ACCESS_AUDIENCE", " app ");
                  ("TEMOTE_MCP_ACCESS_ALLOWED_EMAILS", "bob@example.com, ADA@example.com")]%string.

Definition response (kid : string) : result string KeyResponse :=
  Ok (mkKeyResponse None [Ok (str_of (print (key_document kid)))]).

Definition nobody : Authenticator := mkAuthenticator (mkAccessConfig "" "" [] "") None [].

Definition start : Authenticator :=
  match authenticator_from_env url_path url_query url_origin var (response "k1") with
  | Ok s => s
  | Err _ => nobody
  end.
Lemma start_value : authenticator_from_env url_path url_query url_origin var (response "k1") = Ok start.
Proof. by_value. Qed.

Definition labels : list AccessLabel :=
  [Begin 1 (Some " hdr.clm.sig") 90; Begin 2 (Some "hdr.clm") 90; Refreshed 1 (response "k2"); LookAgain 1 101]%string.
Definition ada : AccessIdentity := mkAccessIdentity "ada@example.com" "user-1".
Definition answered : list Answer :=
  [(2%nat, Err "Cloudflare Access JWT is malformed"%string); (1%nat, Ok ada)].
Definition final : Authenticator :=
  match access_run parse_f64 base64_decode rsa_verify start labels with
  | Some (s, _) => s
  | None => nobody
  end.
Lemma run_value : access_run parse_f64 base64_decode rsa_verify start labels = Some (final, answered).
Proof. by_value. Qed.

Lemma identity_authenticated_witness :
  exists v started, Begin 1 (Some v) started ∈ labels
    /\ exists a key, trim v = a_header a +:+ "." +:+ a_claims a +:+ "." +:+ a_signature a
         /\ signed_by base64_decode rsa_verify key (a_header a +:+ "." +:+ a_claims a) (a_signature a).
Proof.
  destruct (identity_authenticated parse_f64 base64_decode rsa_verify url_path url_query url_origin var
    (response "k1") labels start final answered 1 ada start_value run_value)
    as (config & v & started & now & a & key & set & r & _ & Hb & _ & Hv & _ & _ & _ & _ & _ & Hs & _).
  { right. left. }
  exists v, started. split; [exact Hb|]. exists a, key. split; [exact Hv|exact Hs].
Defined.

Definition assertion : Assertion := mkAssertion "hdr.clm.sig" "hdr" "clm" "sig" "k2".
Definition key : JsonWebKey := mkJsonWebKey (Some "k2"%string) (Some "RSA"%string) None "bg" "AQAB".
Definition waiting : Authenticator := set_waiting start [(1%nat, (assertion, false))].

Lemma assertion_value : read_assertion base64_decode (Some "hdr.clm.sig"%string) = Ok assertion.
Proof. by_value. Qed.
Lemma checked_value :
  check_assertion parse_f64 base64_decode rsa_verify (au_config start) assertion key 101 = Ok ada.
Proof. by_value. Qed.
Lemma begun_value :
  authenticate_step parse_f64 base64_decode rsa_verify start (Begin 1 (Some "hdr.clm.sig"%string) 90)
    = Some (waiting, []).
Proof. by_value. Qed.
Lemma fetched_value : fetched_keys (response "k2") = Ok (mkJwkSet [key]).
Proof. by_value. Qed.

Lemma authentic_let_in_witness :
  exists s2 s3,
    authenticate_step parse_f64 base64_decode rsa_verify waiting (Refreshed 1 (response "k2")) = Some (s2, [])
    /\ authenticate_step parse_f64 base64_decode rsa_verify s2 (LookAgain 1 101) = Some (s3, [(1%nat, Ok ada)]).
Proof.
  destruct (authentic_let_in parse_f64 base64_decode rsa_verify start 1 (Some "hdr.clm.sig"%string) assertion key
    101 ada 90 (response "k2") (mkJwkSet [key]) waiting) as [_ H].
  - vm_compute. reflexivity.
  - exact assertion_value.
  - apply check_assertion_spec. exact checked_value.
  - destruct H as (s2 & s3 & H1 & _ & H2 & _).
    + vm_compute. reflexivity.
    + exact fetched_value.
    + vm_compute. reflexivity.
    + exact begun_value.
    + exists s2, s3. split; [exact H1|exact H2].
Defined.
End AccessW.
