(* ===== verification/EventsSender.v ===== *)
(** * Sending events to subscribers (events_sender.rs)

    The service that delivers signed events over HTTPS for the hosted service: who may ask
    it, which envelopes, events and addresses it accepts, what it signs, and when an
    endpoint counts as verified.  Base64, HMAC, uuids, the url crate, the parser of JSON,
    name resolution, the clock and the HTTP client are arguments. *)

From S2P Require Import Prelude Strings Json Value Config OAuth.

#[local] Open Scope Z_scope.
#[local] Open Scope rust_scope.

Definition MAX_BODY : Z := 262144.
Definition MAX_RESPONSE : Z := 4096.

Record SendEnvelope := mkEnvelope {
  se_kind : string;
  se_url : string;
  se_subscription_id : string;
  se_secret : string;
  se_previous_secret : option string;
  se_challenge : option string;
  se_event_body : option string;
}.

Record SendResult := mkSendResult {
  sr_status : Z;
  sr_verified : bool;
}.

(** A status code and the code in the body. *)
Definition SendError : Type := Z * string.

Definition envelope_fields : list string :=
  ["kind"; "url"; "subscriptionId"; "secret"; "previousSecret"; "challenge"; "eventBody"]%string.

(** The derived [Deserialize], with [deny_unknown_fields]. *)
Definition envelope_of_json (j : Json) : option SendEnvelope :=
  match j with
  | JObj entries =>
      if forallb (fun kv => existsb (String.eqb kv.1) envelope_fields) entries then
        kind ← string_field "kind" entries;
        url ← string_field "url" entries;
        subscription_id ← string_field "subscriptionId" entries;
        secret ← string_field "secret" entries;
        previous_secret ← default_string "previousSecret" entries;
        challenge ← default_string "challenge" entries;
        event_body ← default_string "eventBody" entries;
        Some (mkEnvelope kind url subscription_id secret previous_secret challenge event_body)
      else None
  | JArr [kind; url; subscription_id; secret; previous_secret; challenge; event_body] =>
      kind ← de_string kind;
      url ← de_string url;
      subscription_id ← de_string subscription_id;
      secret ← de_string secret;
      previous_secret ← de_option de_string previous_secret;
      challenge ← de_option de_string challenge;
      event_body ← de_option de_string event_body;
      Some (mkEnvelope kind url subscription_id secret previous_secret challenge event_body)
  | _ => None
  end.

(** * Comparison in constant time *)

Definition COMPARISON_BOUND : Z := 4096.

Definition byte_at (bytes : list Z) (index : nat) : Z := default 0 (bytes !! index).

Definition constant_time_equal (left right : list Z) : bool :=
  let difference := Z.lxor (zlen left) (zlen right) in
  let difference := Z.lor difference
    (Z.b2z ((COMPARISON_BOUND <? zlen left) || (COMPARISON_BOUND <? zlen right))) in
  let difference := fold_left (fun difference index =>
      Z.lor difference (Z.lxor (byte_at left index) (byte_at right index)))
    (seq 0 (Z.to_nat COMPARISON_BOUND)) difference in
  difference =? 0.

(** [headers]: the headers that are visible ASCII. *)
Definition authenticated (headers : string -> option string) (bearer : string) : bool :=
  let supplied := default EmptyString (headers "authorization"%string) in
  let expected := "Bearer " +:+ bearer in
  (32 <=? str_len bearer) && constant_time_equal (str_bytes supplied) (str_bytes expected).

(** * Identifiers *)

Definition is_ascii_hexdigit (b : Z) : bool :=
  is_ascii_digit b || in_range 97 102 b || in_range 65 70 b.

Definition valid_digest_identifier (value prefix : string) : bool :=
  is_some_and (fun suffix => (str_len suffix =? 64) && forallb is_ascii_hexdigit (str_bytes suffix))
    (str_strip_prefix prefix value).

Definition name_char (b : Z) : bool :=
  is_ascii_alphanumeric b || (b =? 46) || (b =? 95) || (b =? 45).

Definition valid_host_id (value : string) : bool :=
  negb (str_is_empty value) && (str_len value <=? 128)
  && existsb is_ascii_alphanumeric (str_bytes value) && forallb name_char (str_bytes value).

Definition valid_session_id (value : string) : bool :=
  negb (str_is_empty value) && (str_len value <=? 64)
  && negb (String.eqb value ".") && negb (String.eqb value "..") && forallb name_char (str_bytes value).

Definition valid_job_id (value : string) : bool :=
  negb (str_is_empty value) && (str_len value <=? 128)
  && forallb (fun b => name_char b || (b =? 58)) (str_bytes value).

Definition JOB_EVENT : string := "job.state.changed".
Definition SESSION_EVENT : string := "session.state.changed".

Definition valid_state (name value : string) : bool :=
  if String.eqb name JOB_EVENT
  then existsb (String.eqb value) ["running"; "completed"; "failed"; "stopped"; "unknown"]%string
  else existsb (String.eqb value) ["starting"; "active"; "stopping"; "stopped"; "crashed"; "failed"]%string.

(** * Times *)

Definition digit_positions : list nat := [0; 1; 2; 3; 5; 6; 8; 9; 11; 12; 14; 15; 17; 18]%nat.

(** The closure [number]: of a part that is digits. *)
Definition number (bytes : list Z) (first last : nat) : Z :=
  fold_left (fun n b => n * 10 + (b - 48)) (take (last - first) (drop first bytes)) 0.

Definition is_leap (year : Z) : bool :=
  (year mod 4 =? 0) && (negb (year mod 100 =? 0) || (year mod 400 =? 0)).

Definition days_in_month (year month : Z) : Z :=
  if existsb (Z.eqb month) [1; 3; 5; 7; 8; 10; 12] then 31
  else if existsb (Z.eqb month) [4; 6; 9; 11] then 30
  else if month =? 2 then (if is_leap year then 29 else 28)
  else 0.

Definition valid_utc_timestamp (value : string) : bool :=
  let bytes := str_bytes value in
  let n := length bytes in
  if (n <? 20)%nat || (35 <? n)%nat || negb (byte_at bytes 4 =? 45) || negb (byte_at bytes 7 =? 45)
     || negb (byte_at bytes 10 =? 84) || negb (byte_at bytes 13 =? 58) || negb (byte_at bytes 16 =? 58)
     || negb (byte_at bytes (n - 1) =? 90)
  then false
  else if negb (forallb (fun index => is_ascii_digit (byte_at bytes index)) digit_positions) then false
  else if (20 <? n)%nat
          && ((n <? 22)%nat || negb (byte_at bytes 19 =? 46)
              || negb (forallb is_ascii_digit (take (n - 1 - 20) (drop 20 bytes))))
  then false
  else
    let year := number bytes 0 4 in
    let month := number bytes 5 7 in
    let day := number bytes 8 10 in
    (0 <? year) && (0 <? day) && (day <=? days_in_month year month)
    && (number bytes 11 13 <=? 23) && (number bytes 14 16 <=? 59) && (number bytes 17 19 <=? 59).

(** * Events *)

Definition str_or_empty (v : option Json) : string := default EmptyString (v ← v; as_str v).

Definition event_keys (name : string) : list string :=
  if String.eqb name JOB_EVENT
  then ["host_id"; "session_id"; "job_id"; "previous_state"; "state"; "timestamp"]%string
  else ["host_id"; "session_id"; "previous_state"; "state"; "timestamp"]%string.

Definition valid_event_data (name : string) (value : option Json) : bool :=
  match (v ← value; as_object v) with
  | None => false
  | Some object =>
      let expected := event_keys name in
      if negb (length object =? length expected)%nat
         || existsb (fun kv => negb (existsb (String.eqb kv.1) expected)) object
      then false
      else
        valid_host_id (str_or_empty (assoc "host_id" object))
        && valid_session_id (str_or_empty (assoc "session_id" object))
        && valid_state name (str_or_empty (assoc "state" object))
        && valid_utc_timestamp (str_or_empty (assoc "timestamp" object))
        && is_some_and (fun value => is_null value || is_some_and (valid_state name) (as_str value))
             (assoc "previous_state" object)
        && (negb (String.eqb name JOB_EVENT)
            || is_some_and valid_job_id (v ← assoc "job_id" object; as_str v))
  end.

(** * Addresses *)

Definition public_v4 (a b c : Z) : bool :=
  negb ((a =? 0) || (a =? 10) || ((a =? 100) && in_range 64 127 b) || (a =? 127)
        || ((a =? 169) && (b =? 254)) || ((a =? 172) && in_range 16 31 b)
        || ((a =? 192) && ((b =? 0) || (b =? 168) || ((b =? 88) && (c =? 99))))
        || ((a =? 198) && ((b =? 18) || (b =? 19) || ((b =? 51) && (c =? 100))))
        || ((a =? 203) && (b =? 0) && (c =? 113)) || (224 <=? a)).

(** [Ipv6Addr::to_ipv4_mapped]. *)
Definition is_mapped (s0 s1 s2 s3 s4 s5 : Z) : bool :=
  (s0 =? 0) && (s1 =? 0) && (s2 =? 0) && (s3 =? 0) && (s4 =? 0) && (s5 =? 65535).

Definition public_v6 (s0 s1 s2 s3 s4 s5 s6 s7 : Z) : bool :=
  if is_mapped s0 s1 s2 s3 s4 s5 then public_v4 (octet_hi s6) (octet_lo s6) (octet_hi s7)
  else
    (Z.land s0 57344 =? 8192)
    && negb ((s0 =? 8193) && (Z.land s1 65024 =? 0))
    && negb ((s0 =? 8193) && (s1 =? 3512))
    && negb (s0 =? 8194)
    && negb ((s0 =? 16383) && (Z.land s1 61440 =? 0)).

Definition public_ip (address : IpAddr) : bool :=
  match address with
  | V4 a b c _ => public_v4 a b c
  | V6 s0 s1 s2 s3 s4 s5 s6 s7 => public_v6 s0 s1 s2 s3 s4 s5 s6 s7
  end.

Section Sender.
Context `{SJ : SerdeJson} `{UU : UuidLib} `{UL : UrlLib}
  (url_port : Url -> option Z) (url_domain : Url -> option (string + IpAddr))
  (base64_decode : string -> option string) (base64_encode : string -> string)
  (hmac_sha256 : string -> string -> string).

Definition safe_url (value : string) : option Url :=
  if 2048 <? str_len value then None
  else
    url ← url_parse value;
    host ← url_host_str url;
    if negb (String.eqb (url_scheme url) "https")
       || is_some_and (fun port => negb (port =? 443)) (url_port url)
       || negb (str_is_empty (url_username url)) || is_some (url_password url) || is_some (url_fragment url)
       || ends_with ".local" host || ends_with ".localhost" host || ends_with ".internal" host
       || String.eqb host "localhost"
    then None else Some url.

Definition signing_key (value : string) : option string :=
  encoded ← str_strip_prefix "whsec_" value;
  bytes ← base64_decode encoded;
  if (24 <=? str_len bytes) && (str_len bytes <=? 64) && String.eqb (base64_encode bytes) encoded
  then Some bytes else None.

(** [previous_secret.map(signing_key).transpose_option()]. *)
Definition previous_key (value : option string) : option (option string) :=
  match value with
  | None => Some None
  | Some value => Some <$> signing_key value
  end.

Definition signature (key id timestamp body : string) : string :=
  "v1," +:+ base64_encode (hmac_sha256 key (id +:+ "." +:+ timestamp +:+ "." +:+ body)).

(** What is sent, and the challenge that must come back. *)
Definition SendMessage : Type := string * string * option string.

Definition verification_message (uuid : Uuid) (input : SendEnvelope) : result SendError SendMessage :=
  let! challenge := ok_or (challenge ← se_challenge input;
                           if is_some (uuid_parse_str challenge) then Some challenge else None)
                      (400, "invalid_challenge"%string) in
  let! body := ok_or (to_vec (JObj [("challenge", JStr challenge); ("type", JStr "verification")]%string))
                 (500, "serialization"%string) in
  Ok ("msg_verification_" +:+ uuid_to_string uuid, body, Some challenge).

Definition delivery_message (input : SendEnvelope) : result SendError SendMessage :=
  let! body := ok_or (se_event_body input) (400, "invalid_event"%string) in
  ensure (str_len body <=? MAX_BODY) (413, "event_too_large"%string) ;!
  let! event := ok_or (value_of <$> from_slice body) (400, "invalid_event"%string) in
  let! event_id := ok_or (v ← get event "eventId"; id ← as_str v;
                          if valid_digest_identifier id "evt_" then Some id else None)
                     (400, "invalid_event"%string) in
  let name := str_or_empty (get event "name") in
  if negb (existsb (String.eqb name) [JOB_EVENT; SESSION_EVENT])
     || negb (valid_event_data name (get event "data"))
     || negb (is_some_and valid_utc_timestamp (v ← get event "timestamp"; as_str v))
     || negb (bool_decide (get event "timestamp" = (data ← get event "data"; get data "timestamp")))
     || negb (bool_decide (get event "cursor" = Some JNull))
     || is_none_or (fun object => negb (length object =? 5)%nat) (as_object event)
  then Err (400, "invalid_event"%string)
  else Ok (event_id, body, None).

Definition message (uuid : Uuid) (input : SendEnvelope) : result SendError SendMessage :=
  if String.eqb (se_kind input) "verification" && is_none (se_previous_secret input)
     && is_none (se_event_body input)
  then verification_message uuid input
  else if String.eqb (se_kind input) "delivery" && is_none (se_challenge input)
  then delivery_message input
  else Err (400, "invalid_envelope"%string).

(** [lookup]: the addresses of a name, unless resolving it fails or takes too long. *)
Definition resolve_public (lookup : string -> Z -> option (list IpAddr)) (host : string) (port : Z) :
    option (list IpAddr) :=
  addresses ← lookup host port;
  if negb (nonempty addresses) || (64 <? zlen addresses) || existsb (fun a => negb (public_ip a)) addresses
  then None else Some addresses.

Record Outgoing := mkOutgoing {
  og_url : Url;
  og_host : string;
  og_port : Z;
  og_sockets : list IpAddr;
  og_webhook_id : string;
  og_timestamp : string;
  og_signatures : list string;
  og_subscription_id : string;
  og_body : string;
  og_challenge : option string;
}.

(** A response: its status, its chunks, and whether they were read in time. *)
Record EndpointResponse := mkEndpointResponse {
  hp_status : Z;
  hp_chunks : list (result string string);
  hp_in_time : bool;
}.

Record SendWorld := mkSendWorld {
  sw_uuid : Uuid;
  sw_lookup : string -> Z -> option (list IpAddr);
  sw_client : bool;
  sw_clock : option Z;
  sw_post : Outgoing -> option EndpointResponse;
}.

(** [send_checked] up to the request. *)
Definition outgoing (bearer : string) (headers : string -> option string) (input : SendEnvelope)
    (w : SendWorld) : result SendError Outgoing :=
  ensure (authenticated headers bearer) (401, "unauthorized"%string) ;!
  ensure (bool_decide (headers "content-type"%string = Some "application/json"%string))
    (415, "invalid_content_type"%string) ;!
  let! parsed := ok_or (safe_url (se_url input)) (400, "invalid_url"%string) in
  ensure (valid_digest_identifier (se_subscription_id input) "sub_") (400, "invalid_subscription"%string) ;!
  let! secret := ok_or (signing_key (se_secret input)) (400, "invalid_secret"%string) in
  let! old := ok_or (previous_key (se_previous_secret input)) (400, "invalid_secret"%string) in
  let! m := message (sw_uuid w) input in
  let '(webhook_id, body, challenge) := m in
  ensure (str_len body <=? MAX_BODY) (413, "event_too_large"%string) ;!
  let! host := ok_or (url_host_str parsed) (400, "invalid_url"%string) in
  let! port := ok_or (url_port_or_known_default parsed) (400, "invalid_url"%string) in
  let! domain := ok_or (url_domain parsed) (400, "invalid_url"%string) in
  let! sockets := match domain with
                  | inr ip => Ok [ip]
                  | inl name => ok_or (resolve_public (sw_lookup w) name port) (400, "invalid_address"%string)
                  end in
  ensure (negb (existsb (fun socket => negb (public_ip socket)) sockets)) (400, "invalid_address"%string) ;!
  ensure (sw_client w) (502, "transport_unavailable"%string) ;!
  let! now := ok_or (sw_clock w) (500, "clock_unavailable"%string) in
  let timestamp := decimal now in
  let signatures := signature secret webhook_id timestamp body
    :: match old with
       | Some old => [signature old webhook_id timestamp body]
       | None => []
       end in
  Ok (mkOutgoing parsed host port sockets webhook_id timestamp signatures (se_subscription_id input)
        body challenge).

(** The loop over the chunks of a response. *)
Fixpoint receive (received : string) (chunks : list (result string string)) : result SendError string :=
  match chunks with
  | [] => Ok received
  | chunk :: rest =>
      let! chunk := map_err (fun _ => (502, "response_failed"%string)) chunk in
      ensure (str_len chunk <=? MAX_RESPONSE - str_len received) (502, "response_too_large"%string) ;!
      receive (received +:+ chunk) rest
  end.

Definition finish_response (response : EndpointResponse) (challenge : option string) :
    result SendError SendResult :=
  let status := hp_status response in
  match challenge with
  | None => Ok (mkSendResult status false)
  | Some challenge =>
      let! received := receive EmptyString (hp_chunks response) in
      let echoed := j ← from_slice received; v ← get (value_of j) "challenge"; as_str v in
      let verified := in_range 200 299 status
        && is_some_and (fun value => constant_time_equal (str_bytes value) (str_bytes challenge)) echoed in
      Ok (mkSendResult status verified)
  end.

Definition send_checked (bearer : string) (headers : string -> option string) (input : SendEnvelope)
    (w : SendWorld) : result SendError SendResult :=
  let! out := outgoing bearer headers input w in
  let! response := ok_or (sw_post w out) (502, "delivery_failed"%string) in
  ensure (is_none (og_challenge out) || hp_in_time response) (504, "response_timeout"%string) ;!
  finish_response response (og_challenge out).

Definition send (bearer : string) (headers : string -> option string) (body : string) (w : SendWorld) :
    result SendError SendResult :=
  let! input := ok_or (j ← from_slice body; envelope_of_json j) (400, "invalid_envelope"%string) in
  send_checked bearer headers input w.

Definition health (bearer : string) (headers : string -> option string) : Z :=
  if authenticated headers bearer then 204 else 401.
End Sender.
