(* ===== verification/EventsSenderTheorems.v ===== *)
(** * What the event sender sends, and to whom

    The comparison of secrets is equality; the accepted times are the times of the calendar;
    no request goes to an address that is not public, by either of the program's two guards;
    and what is sent is a signed event or challenge of the accepted shape. *)

From S2P Require Import Prelude Strings Utf8 Json Value Config OAuth OAuthTheorems EventsSender.

#[local] Open Scope Z_scope.
#[local] Open Scope rust_scope.

(** * Comparison *)

Lemma lor_fold_zero (f : nat -> Z) l : forall d,
  fold_left (fun d i => Z.lor d (f i)) l d = 0 <-> d = 0 /\ forall i, i ∈ l -> f i = 0.
Proof.
  induction l as [|i l IH]; intros d; cbn [fold_left].
  { split; [intros ->; split; [done|by intros i []%elem_of_nil]|by intros [? _]]. }
  rewrite IH, Z.lor_eq_0_iff. split.
  - intros [[-> Hi] Hl]. split; [done|]. by intros j [->|Hj]%elem_of_cons; [|apply Hl].
  - intros [-> Hl]. split; [split; [done|apply Hl; left]|]. intros j Hj. apply Hl. by right.
Qed.

(** The comparison in constant time is equality, for what it does not cut off. *)
Lemma constant_time_spec left right :
  constant_time_equal left right = true <-> left = right /\ zlen left <= COMPARISON_BOUND.
Proof.
  unfold constant_time_equal. rewrite Z.eqb_eq, lor_fold_zero, Z.lor_eq_0_iff, Z.lxor_eq_0_iff.
  assert (Z.b2z ((COMPARISON_BOUND <? zlen left) || (COMPARISON_BOUND <? zlen right)) = 0
    <-> zlen left <= COMPARISON_BOUND /\ zlen right <= COMPARISON_BOUND) as ->.
  { destruct (Z.ltb_spec COMPARISON_BOUND (zlen left)), (Z.ltb_spec COMPARISON_BOUND (zlen right)); cbn; lia. }
  split.
  - intros [[Hlen [Hl Hr]] Heq]. split; [|done]. unfold zlen in *. apply list_eq. intros i.
    destruct (Nat.lt_ge_cases i (length left)) as [Hi|Hi]; [|rewrite !lookup_ge_None_2 by lia; done].
    assert (i ∈ seq 0 (Z.to_nat COMPARISON_BOUND)) as Hin by (apply elem_of_seq; lia).
    specialize (Heq i Hin). rewrite Z.lxor_eq_0_iff in Heq. unfold byte_at in Heq.
    destruct (lookup_lt_is_Some_2 left i) as [x Hx]; [done|].
    destruct (lookup_lt_is_Some_2 right i) as [y Hy]; [lia|]. rewrite Hx, Hy in *. cbn in Heq. by subst.
  - intros [-> Hb]. split; [split; [done|by split]|]. intros i _. by rewrite Z.lxor_nilpotent.
Qed.

(** * Addresses *)

(** The low bits of a segment are masked out. *)
Lemma mask_low s n : 0 <= s < 65536 -> 0 <= n <= 16 -> Z.land s (65536 - 2 ^ n) = s / 2 ^ n * 2 ^ n.
Proof.
  intros Hs Hn. assert (65536 - 2 ^ n = Z.land (Z.ones 16) (Z.lnot (Z.ones n))) as ->.
  { assert (forallb (fun m => 65536 - 2 ^ m =? Z.land (Z.ones 16) (Z.lnot (Z.ones m))) (seqZ 0 17) = true)
      as Hall by done.
    rewrite forallb_forall in Hall. apply Z.eqb_eq, Hall, list_elem_of_In, elem_of_seqZ. lia. }
  rewrite Z.land_assoc, Z.land_ones by lia. rewrite Z.mod_small by (change (2 ^ 16) with 65536; lia).
  rewrite <- Z.ldiff_land, Z.ldiff_ones_r, Z.shiftl_mul_pow2, Z.shiftr_div_pow2 by lia. done.
Qed.

Definition address_ok (ip : IpAddr) : Prop :=
  match ip with
  | V4 a b c d => Forall (fun n => 0 <= n < 256) [a; b; c; d]
  | V6 s0 s1 s2 s3 s4 s5 s6 s7 => Forall (fun n => 0 <= n < 65536) [s0; s1; s2; s3; s4; s5; s6; s7]
  end.

Lemma public_v4_exact a b c :
  public_v4 a b c = true <-> is_public_ipv4 a b c = true /\ ~ (a = 192 /\ b = 0).
Proof.
  unfold public_v4, is_public_ipv4.
  rewrite !negb_true_iff, <- !not_true_iff_false, !orb_true_iff, !andb_true_iff, !orb_true_iff, !andb_true_iff.
  rewrite !Z.eqb_eq. tauto.
Qed.

Lemma octets_of s : 0 <= s < 65536 -> octet_hi s = s / 256 /\ octet_lo s = s mod 256.
Proof.
  intros Hs. unfold octet_hi, octet_lo. change 255 with (Z.ones 8).
  rewrite !Z.land_ones, Z.shiftr_div_pow2 by lia. change (2 ^ 8) with 256. split; [|done].
  apply Z.mod_small. split; [apply Z.div_pos; lia|apply Z.div_lt_upper_bound; lia].
Qed.

(** In the global unicast space both guards exclude the same prefixes. *)
Lemma unicast_exact s0 s1 s2 s3 s4 s5 s6 s7 :
  Forall (fun n => 0 <= n < 65536) [s0; s1; s2; s3; s4; s5; s6; s7] -> 8192 <= s0 < 16384 ->
  public_v6 s0 s1 s2 s3 s4 s5 s6 s7 = is_public_ipv6 s0 s1 s2 s3 s4 s5 s6 s7.
Proof.
  intros Hall H0. apply Forall_cons in Hall as [_ [H1 _]%Forall_cons].
  unfold public_v6, is_public_ipv6, is_mapped, has_ipv4.
  assert (forall k, k < 8192 -> (s0 =? k) = false) as Hlow by (intros k Hk; apply Z.eqb_neq; lia).
  rewrite (Hlow 0), (Hlow 100), (Hlow 256) by lia. cbn [andb forallb].
  assert ((0 =? s0) = false) as -> by (apply Z.eqb_neq; lia). cbn [andb orb].
  assert (forall m k n, m = 65536 - 2 ^ n -> 0 <= n <= 13 -> 16384 <= k -> (Z.land s0 m =? k) = false) as Hm.
  { intros m k n -> Hn Hk. apply Z.eqb_neq. rewrite mask_low by lia.
    pose proof (Z.mul_div_le s0 (2 ^ n) ltac:(apply Z.pow_pos_nonneg; lia)). lia. }
  rewrite (Hm 65280 65280 8), (Hm 65024 64512 9), (Hm 65472 65152 6), (Hm 65472 65216 6) by (done || lia).
  assert ((s0 =? 24320) = false) as -> by (apply Z.eqb_neq; lia).
  assert ((Z.land s0 57344 =? 8192) = true) as ->.
  { apply Z.eqb_eq. change 57344 with (65536 - 2 ^ 13). rewrite mask_low by lia. change (2 ^ 13) with 8192.
    pose proof (Z.div_mod s0 8192 ltac:(lia)). pose proof (Z.mod_pos_bound s0 8192 ltac:(lia)). lia. }
  cbn [andb orb]. rewrite orb_false_r.
  by destruct ((s0 =? 8193) && (Z.land s1 65024 =? 0)), ((s0 =? 8193) && (s1 =? 3512)), (s0 =? 8194),
    ((s0 =? 16383) && (Z.land s1 61440 =? 0)).
Qed.

Lemma unicast_only s0 s1 s2 s3 s4 s5 s6 s7 :
  0 <= s0 < 65536 -> is_mapped s0 s1 s2 s3 s4 s5 = false ->
  public_v6 s0 s1 s2 s3 s4 s5 s6 s7 = true -> 8192 <= s0 < 16384.
Proof.
  intros H0 Hm. unfold public_v6. rewrite Hm. intros H. rewrite !andb_true_iff in H.
  destruct H as [[[[H _] _] _] _]. apply Z.eqb_eq in H.
  change 57344 with (65536 - 2 ^ 13) in H. rewrite mask_low in H by lia. change (2 ^ 13) with 8192 in H.
  pose proof (Z.div_mod s0 8192 ltac:(lia)). pose proof (Z.mod_pos_bound s0 8192 ltac:(lia)). lia.
Qed.

(** The two guards of the program against addresses that are not public, compared: the one
    of the event sender accepts exactly what the one of the authorization server accepts,
    but nothing of 192.0.0.0/16, mapped or not, and of the addresses of version 6 that are not
    mapped only those in 2000::/3. *)
Theorem public_ip_stricter ip :
  address_ok ip ->
  public_ip ip = true <->
  is_public_ip ip = true
  /\ match ip with
     | V4 a b _ _ => ~ (a = 192 /\ b = 0)
     | V6 s0 s1 s2 s3 s4 s5 s6 _ =>
         if is_mapped s0 s1 s2 s3 s4 s5 then s6 <> 192 * 256 else 8192 <= s0 < 16384
     end.
Proof.
  destruct ip as [a b c d|s0 s1 s2 s3 s4 s5 s6 s7]; cbn [public_ip is_public_ip address_ok]; intros Hok.
  { apply public_v4_exact. }
  destruct (is_mapped s0 s1 s2 s3 s4 s5) eqn:Em.
  - unfold public_v6. rewrite Em, public_v4_exact.
    assert (has_ipv4 s0 s1 s2 s3 s4 s5 = true) as Hh.
    { unfold is_mapped in Em. unfold has_ipv4. rewrite !andb_true_iff in *. rewrite orb_true_iff. tauto. }
    unfold is_public_ipv6. rewrite Hh.
    assert (0 <= s6 < 65536) as H6 by (by repeat (apply Forall_cons in Hok as [? Hok])).
    destruct (octets_of s6 H6) as [-> ->].
    pose proof (Z.div_mod s6 256 ltac:(lia)). pose proof (Z.mod_pos_bound s6 256 ltac:(lia)).
    split; (intros [H1 H2]; split; [exact H1|lia]).
  - assert (0 <= s0 < 65536) as H0 by (by apply Forall_cons in Hok as [? _]). split.
    + intros H. pose proof (unicast_only _ _ _ _ _ _ _ _ H0 Em H) as Hr. split; [|done].
      by rewrite <- (unicast_exact s0 s1 s2 s3 s4 s5 s6 s7 Hok Hr).
    + intros [H Hr]. by rewrite (unicast_exact s0 s1 s2 s3 s4 s5 s6 s7 Hok Hr).
Qed.

(** The blocks of special addresses of version 4, each from its first address to its last. *)
Definition ip4 (a b c d : Z) : Z := a * 16777216 + b * 65536 + c * 256 + d.
Definition special_v4 : list (Z * Z) :=
  [(ip4 0 0 0 0, ip4 0 255 255 255); (ip4 10 0 0 0, ip4 10 255 255 255);
   (ip4 100 64 0 0, ip4 100 127 255 255); (ip4 127 0 0 0, ip4 127 255 255 255);
   (ip4 169 254 0 0, ip4 169 254 255 255); (ip4 172 16 0 0, ip4 172 31 255 255);
   (ip4 192 0 0 0, ip4 192 0 255 255); (ip4 192 88 99 0, ip4 192 88 99 255);
   (ip4 192 168 0 0, ip4 192 168 255 255); (ip4 198 18 0 0, ip4 198 19 255 255);
   (ip4 198 51 100 0, ip4 198 51 100 255); (ip4 203 0 113 0, ip4 203 0 113 255);
   (ip4 224 0 0 0, ip4 255 255 255 255)].

(** Of version 6, by their first two segments: 2001::/23, 2001:db8::/32, 2002::/16 and
    3fff::/20, within the unicast space 2000::/3. *)
Definition special_v6 : list (Z * Z) :=
  [(536936448, 536936959); (536939960, 536939960); (537001984, 537067519); (1073676288, 1073680383)].

Definition outside (n : Z) (block : Z * Z) : Prop := n < block.1 \/ block.2 < n.

Definition public_address (ip : IpAddr) : Prop :=
  match ip with
  | V4 a b c d => Forall (outside (ip4 a b c d)) special_v4
  | V6 s0 s1 s2 s3 s4 s5 s6 s7 =>
      (Forall (eq 0) [s0; s1; s2; s3; s4] /\ s5 = 65535 /\ Forall (outside (s6 * 65536 + s7)) special_v4)
      \/ (8192 <= s0 < 16384 /\ Forall (outside (s0 * 65536 + s1)) special_v6)
  end.

Lemma public_v4_outside a b c d :
  Forall (fun n => 0 <= n < 256) [a; b; c; d] -> public_v4 a b c = true ->
  Forall (outside (ip4 a b c d)) special_v4.
Proof.
  rewrite !Forall_cons. intros (Ha & Hb & Hc & Hd & _). unfold public_v4, in_range.
  rewrite negb_true_iff, !orb_false_iff, !andb_false_iff, !orb_false_iff, !andb_false_iff,
    !Z.eqb_neq, !Z.leb_gt.
  intros [[[[[[[[[C1 C2] C3] C4] C5] C6] C7] C8] C9] C10].
  unfold special_v4, outside, ip4. rewrite !Forall_cons. cbn [fst snd].
  split_and!; [..|constructor];
    match goal with
    | C : ?t |- _ => lazymatch t with (0 <= _ < 256) => fail | _ => clear - Ha Hb Hc Hd C; lia end
    end.
Qed.

Lemma public_ip_address ip : address_ok ip -> public_ip ip = true -> public_address ip.
Proof.
  destruct ip as [a b c d|s0 s1 s2 s3 s4 s5 s6 s7]; cbn [address_ok public_ip public_address].
  { apply public_v4_outside. }
  intros Hok. destruct (is_mapped s0 s1 s2 s3 s4 s5) eqn:Em.
  - unfold public_v6. rewrite Em. intros Hp. left. rewrite !Forall_cons in Hok.
    destruct Hok as (_ & _ & _ & _ & _ & _ & H6 & H7 & _).
    unfold is_mapped in Em. rewrite !andb_true_iff, !Z.eqb_eq in Em.
    destruct (octets_of s6 H6) as [E6 E6'], (octets_of s7 H7) as [E7 E7'].
    rewrite E6, E6', E7 in Hp.
    pose proof (Z.div_mod s6 256 ltac:(lia)). pose proof (Z.mod_pos_bound s6 256 ltac:(lia)).
    pose proof (Z.div_mod s7 256 ltac:(lia)). pose proof (Z.mod_pos_bound s7 256 ltac:(lia)).
    apply (public_v4_outside _ _ _ (s7 mod 256)) in Hp; [|repeat constructor; lia].
    replace (s6 * 65536 + s7) with (ip4 (s6 / 256) (s6 mod 256) (s7 / 256) (s7 mod 256)) by (unfold ip4; lia).
    split; [repeat constructor; lia|]. split; [lia|done].
  - intros Hp. right. assert (0 <= s0 < 65536) as H0 by (by apply Forall_cons in Hok as [? _]).
    assert (0 <= s1 < 65536) as H1 by (by apply Forall_cons in Hok as [_ [? _]%Forall_cons]).
    split; [by eapply unicast_only|]. unfold public_v6 in Hp. rewrite Em in Hp.
    change 65024 with (65536 - 2 ^ 9) in Hp. change 61440 with (65536 - 2 ^ 12) in Hp.
    rewrite !mask_low in Hp by lia. change (2 ^ 9) with 512 in Hp. change (2 ^ 12) with 4096 in Hp.
    rewrite !andb_true_iff, !negb_true_iff, !andb_false_iff, !Z.eqb_neq in Hp.
    destruct Hp as ((((_ & Ha) & Hb) & Hc) & Hd).
    unfold special_v6, outside. rewrite !Forall_cons. cbn [fst snd]. split_and!; [..|constructor].
    + clear - H0 H1 Ha. pose proof (Z.div_small s1 512). lia.
    + clear - H0 H1 Hb. lia.
    + clear - H0 H1 Hc. lia.
    + clear - H0 H1 Hd. pose proof (Z.div_small s1 4096). lia.
Qed.

(** * Times *)

Definition two (n : Z) : list Z := [48 + n / 10; 48 + n mod 10].
Definition four (n : Z) : list Z := two (n / 100) ++ two (n mod 100).

(** A time of the calendar as it is written, with the digits of its fraction. *)
Definition date_bytes (year month day hour minute second : Z) : list Z :=
  four year ++ 45 :: two month ++ 45 :: two day ++ 84 :: two hour ++ 58 :: two minute ++ 58 :: two second.
Definition fraction_bytes (fraction : list Z) : list Z :=
  match fraction with
  | [] => [90]
  | _ => 46 :: fraction ++ [90]
  end.

Definition calendar_time (year month day hour minute second : Z) : Prop :=
  1 <= year <= 9999 /\ 1 <= month <= 12 /\ 1 <= day <= days_in_month year month
  /\ 0 <= hour <= 23 /\ 0 <= minute <= 59 /\ 0 <= second <= 59.

Lemma digit_bounds b : is_ascii_digit b = true <-> 48 <= b <= 57.
Proof. unfold is_ascii_digit, in_range. rewrite andb_true_iff, !Z.leb_le. done. Qed.

Lemma days_positive year month : 0 < days_in_month year month -> 1 <= month <= 12.
Proof.
  unfold days_in_month. destruct (existsb _ [1; _; _; _; _; _; _]) eqn:E1.
  { apply existsb_exists in E1 as (x & Hx & ->%Z.eqb_eq). cbn in Hx. lia. }
  destruct (existsb _ [4; _; _; _]) eqn:E2.
  { apply existsb_exists in E2 as (x & Hx & ->%Z.eqb_eq). cbn in Hx. lia. }
  destruct (Z.eqb_spec month 2); lia.
Qed.

(** The parts of the check, of bytes that are split at the end of the seconds. *)
Lemma timestamp_split pre tail z :
  length pre = 19%nat ->
  byte_at (pre ++ tail ++ [z]) (length (pre ++ tail ++ [z]) - 1) = z
  /\ (forall i, (i < 19)%nat -> byte_at (pre ++ tail ++ [z]) i = byte_at pre i)
  /\ (forall first last, (last <= 19)%nat -> (first <= last)%nat ->
        number (pre ++ tail ++ [z]) first last = number pre first last)
  /\ (tail <> [] -> byte_at (pre ++ tail ++ [z]) 19 = byte_at tail 0)
  /\ take (length (pre ++ tail ++ [z]) - 1 - 20) (drop 20 (pre ++ tail ++ [z])) = drop 1 tail.
Proof.
  intros Hl. unfold byte_at. split; [|split; [|split; [|split]]].
  - rewrite app_assoc, lookup_app_r by (rewrite !length_app; cbn; lia).
    rewrite !length_app. cbn [length].
    replace (length pre + length tail + 1 - 1 - (length pre + length tail))%nat with 0%nat by lia. done.
  - intros i Hi. by rewrite lookup_app_l by lia.
  - intros f l Hll Hf. unfold number. f_equal. rewrite drop_app_le, take_app_le by (rewrite ?length_drop; lia). done.
  - intros Hne. rewrite lookup_app_r by lia. rewrite Hl. by destruct tail.
  - rewrite drop_app_ge by lia. rewrite Hl. change (20 - 19)%nat with 1%nat. rewrite !length_app. cbn [length].
    destruct tail as [|x tail]; [by rewrite Hl|]. cbn [length app].
    change (drop 1 (x :: tail ++ [z])) with (tail ++ [z]). change (drop 1 (x :: tail)) with tail.
    replace (length pre + (S (length tail) + 1) - 1 - 20)%nat with (length tail) by lia. apply take_app_length.
Qed.

Definition fraction_ok (tail : list Z) : Prop :=
  tail = [] \/ exists fraction, tail = 46 :: fraction /\ fraction <> []
                /\ Forall (fun b => 48 <= b <= 57) fraction.

Lemma fraction_spec pre tail z :
  length pre = 19%nat ->
  (20 <? length (pre ++ tail ++ [z]))%nat
  && ((length (pre ++ tail ++ [z]) <? 22)%nat || negb (byte_at (pre ++ tail ++ [z]) 19 =? 46)
      || negb (forallb is_ascii_digit (drop 1 tail))) = false <-> fraction_ok tail.
Proof.
  intros Hpre. destruct (timestamp_split pre tail z Hpre) as (_ & _ & _ & H19 & _).
  rewrite !length_app, Hpre. cbn [length]. destruct tail as [|x fraction].
  { cbn. split; [by left|done]. }
  rewrite H19 by done. unfold byte_at. cbn [lookup list_lookup default drop length].
  replace (20 <? 19 + (S (length fraction) + 1))%nat with true by (symmetry; apply Nat.ltb_lt; lia).
  change (id x) with x. rewrite andb_true_l, drop_0, !orb_false_iff, !negb_false_iff, Nat.ltb_ge, Z.eqb_eq, forallb_forall.
  split.
  - intros [[Hl ->] Hd]. right. exists fraction. split; [done|]. split; [by destruct fraction; [cbn in Hl; lia|]|].
    apply Forall_forall. intros b Hb. apply digit_bounds, Hd. by apply list_elem_of_In.
  - intros [|(fr & [= -> <-] & Hne & Hd)]; [done|]. rewrite Forall_forall in Hd.
    split; [split; [destruct fraction; [done|cbn; lia]|done]|].
    intros b Hb. apply digit_bounds, Hd. by apply list_elem_of_In.
Qed.

(** The check, of bytes that are split at the end of the seconds. *)
Lemma timestamp_parts value pre tail z :
  str_bytes value = pre ++ tail ++ [z] -> length pre = 19%nat ->
  valid_utc_timestamp value = true <->
  (length tail <= 15)%nat /\ z = 90 /\ fraction_ok tail
  /\ byte_at pre 4 = 45 /\ byte_at pre 7 = 45 /\ byte_at pre 10 = 84 /\ byte_at pre 13 = 58
  /\ byte_at pre 16 = 58 /\ Forall (fun i => 48 <= byte_at pre i <= 57) digit_positions
  /\ 0 < number pre 0 4 /\ 0 < number pre 8 10
  /\ number pre 8 10 <= days_in_month (number pre 0 4) (number pre 5 7)
  /\ number pre 11 13 <= 23 /\ number pre 14 16 <= 59 /\ number pre 17 19 <= 59.
Proof.
  intros E Hpre. unfold valid_utc_timestamp. rewrite E.
  destruct (timestamp_split pre tail z Hpre) as (Hz & Hb & Hn & H19 & Hfrac).
  rewrite Hz, Hfrac, !Hb, !Hn by lia.
  assert (forallb (fun i => is_ascii_digit (byte_at (pre ++ tail ++ [z]) i)) digit_positions = true
    <-> Forall (fun i => 48 <= byte_at pre i <= 57) digit_positions) as Hd.
  { rewrite forallb_forall, Forall_forall. split; intros H i Hi.
    - rewrite <- digit_bounds, <- Hb; [apply H; by apply list_elem_of_In|].
      unfold digit_positions in Hi. set_unfold in Hi. lia.
    - rewrite Hb, digit_bounds; [apply H; by apply list_elem_of_In|].
      unfold digit_positions in Hi. cbn in Hi. lia. }
  pose proof (fraction_spec pre tail z Hpre) as Hf.
  assert (length (pre ++ tail ++ [z]) = (20 + length tail)%nat) as Hl by (rewrite !length_app, Hpre; cbn; lia).
  rewrite Hl in *. destruct (Nat.ltb_spec (20 + length tail) 20); [lia|]. cbn [orb].
  destruct (Nat.ltb_spec 35 (20 + length tail)); cbn [orb]; [split; [done|lia]|].
  destruct (Z.eqb_spec (byte_at pre 4) 45), (Z.eqb_spec (byte_at pre 7) 45), (Z.eqb_spec (byte_at pre 10) 84),
    (Z.eqb_spec (byte_at pre 13) 58), (Z.eqb_spec (byte_at pre 16) 58), (Z.eqb_spec z 90); cbn [negb orb];
    try (split; [done|tauto]).
  destruct (forallb _ digit_positions); cbn [negb]; [|split; [done|intuition discriminate]].
  destruct ((20 <? 20 + length tail)%nat && _); [split; [done|intuition discriminate]|].
  rewrite !andb_true_iff, !Z.ltb_lt, !Z.leb_le. intuition lia.
Qed.

Definition digits_value (bytes : list Z) : Z := fold_left (fun n b => n * 10 + (b - 48)) bytes 0.

Lemma two_digits b c : 48 <= b <= 57 -> 48 <= c <= 57 -> two (digits_value [b; c]) = [b; c].
Proof.
  intros Hb Hc. unfold two, digits_value. cbn [fold_left].
  replace ((0 * 10 + (b - 48)) * 10 + (c - 48)) with ((b - 48) * 10 + (c - 48)) by lia.
  rewrite Z.div_add_l, Z.div_small by lia. rewrite Z.add_comm at 1. f_equal; [lia|]. f_equal.
  rewrite (Z.add_comm ((b - 48) * 10)), Z.mod_add, Z.mod_small by lia. lia.
Qed.

Lemma four_digits a b c d :
  48 <= a <= 57 -> 48 <= b <= 57 -> 48 <= c <= 57 -> 48 <= d <= 57 ->
  four (digits_value [a; b; c; d]) = [a; b; c; d].
Proof.
  intros Ha Hb Hc Hd. unfold four.
  assert (digits_value [a; b; c; d] = digits_value [a; b] * 100 + digits_value [c; d]) as ->
    by (unfold digits_value; cbn [fold_left]; lia).
  assert (0 <= digits_value [c; d] < 100) as Hr by (unfold digits_value; cbn [fold_left]; lia).
  rewrite Z.div_add_l, Z.div_small by lia.
  rewrite (Z.add_comm (digits_value [a; b] * 100)), Z.mod_add, Z.mod_small by lia.
  rewrite Z.add_0_r, !two_digits by done. done.
Qed.

Lemma digits_two n : 0 <= n <= 99 -> digits_value (two n) = n /\ Forall (fun b => 48 <= b <= 57) (two n).
Proof.
  intros Hn. unfold two, digits_value. cbn [fold_left]. pose proof (Z.div_mod n 10 ltac:(lia)).
  pose proof (Z.mod_pos_bound n 10 ltac:(lia)). split; [lia|]. repeat constructor; lia.
Qed.

Lemma digits_four n : 0 <= n <= 9999 -> digits_value (four n) = n /\ Forall (fun b => 48 <= b <= 57) (four n).
Proof.
  intros Hn. pose proof (Z.div_mod n 100 ltac:(lia)). pose proof (Z.mod_pos_bound n 100 ltac:(lia)).
  destruct (digits_two (n / 100)) as [H1 H2]; [lia|]. destruct (digits_two (n mod 100)) as [H3 H4]; [lia|].
  split; [|by apply Forall_app]. unfold four. unfold digits_value in *. rewrite fold_left_app, H1.
  revert H3. unfold two. cbn [fold_left]. lia.
Qed.

Lemma date_digits pre :
  length pre = 19%nat -> byte_at pre 4 = 45 -> byte_at pre 7 = 45 -> byte_at pre 10 = 84 ->
  byte_at pre 13 = 58 -> byte_at pre 16 = 58 ->
  Forall (fun i => 48 <= byte_at pre i <= 57) digit_positions ->
  pre = date_bytes (number pre 0 4) (number pre 5 7) (number pre 8 10) (number pre 11 13) (number pre 14 16)
          (number pre 17 19)
  /\ number pre 0 4 <= 9999 /\ 0 <= number pre 11 13 /\ 0 <= number pre 14 16 /\ 0 <= number pre 17 19.
Proof.
  intros Hpre H4 H7 H10 H13 H16 Hd. do 19 (destruct pre as [|? pre]; [done|]). destruct pre; [|done]. clear Hpre.
  unfold digit_positions, byte_at in *. repeat (apply Forall_cons in Hd as [? Hd]).
  assert (forall l f t, number l f t = digits_value (take (t - f) (drop f l))) as Hn by done.
  rewrite !Hn. cbn [take drop Nat.sub]. split.
  - cbn in H4, H7, H10, H13, H16. subst. unfold date_bytes.
    rewrite four_digits, !two_digits by assumption. done.
  - unfold digits_value. cbn [fold_left].
    repeat match goal with H : 48 <= default 0 _ <= 57 |- _ => cbn in H; unfold id in H end. lia.
Qed.

(** The accepted times are the times of the calendar, from the year 1 to 9999, to the second or
    with a fraction of at most fourteen digits. *)
Theorem timestamp_exact value :
  valid_utc_timestamp value = true <->
  exists year month day hour minute second fraction,
    str_bytes value = date_bytes year month day hour minute second ++ fraction_bytes fraction
    /\ calendar_time year month day hour minute second
    /\ Forall (fun b => 48 <= b <= 57) fraction /\ (length fraction <= 14)%nat.
Proof.
  split.
  - intros Hv. assert (exists pre tail z, str_bytes value = pre ++ tail ++ [z] /\ length pre = 19%nat)
      as (pre & tail & z & E & Hpre).
    { assert (20 <= length (str_bytes value))%nat as Hlen.
      { unfold valid_utc_timestamp in Hv. destruct (Nat.ltb_spec (length (str_bytes value)) 20); [done|lia]. }
      destruct (exists_last (l := drop 19 (str_bytes value))) as (tail & z & E).
      { intros E. apply (f_equal length) in E. rewrite length_drop in E. cbn in E. lia. }
      exists (take 19 (str_bytes value)), tail, z. rewrite <- E, take_drop, length_take. split; [done|lia]. }
    apply (timestamp_parts value pre tail z E Hpre) in Hv.
    destruct Hv as (Hl & -> & Hf & H4 & H7 & H10 & H13 & H16 & Hd & Hy & Hday & Hdim & Hh & Hmi & Hs).
    exists (number pre 0 4), (number pre 5 7), (number pre 8 10), (number pre 11 13), (number pre 14 16),
      (number pre 17 19), (drop 1 tail).
    destruct (date_digits pre Hpre H4 H7 H10 H13 H16 Hd) as (Hp & Hy9 & Hh0 & Hmi0 & Hs0).
    rewrite <- Hp. split_and!; try lia.
    + rewrite E. f_equal. destruct Hf as [->|(fr & -> & Hne & _)]; [done|]. by destruct fr.
    + pose proof (days_positive (number pre 0 4) (number pre 5 7)). unfold calendar_time. lia.
    + destruct Hf as [->|(fr & -> & _ & Hfr)]; [done|]. by rewrite skipn_cons, drop_0.
    + destruct Hf as [->|(fr & -> & _ & Hfr)]; [cbn; lia|]. rewrite skipn_cons, drop_0. cbn in Hl. lia.
  - intros (y & mo & d & h & mi & s & fr & E & (Hy & Hmo & Hd & Hh & Hmi & Hs) & Hfr & Hl).
    assert (fraction_bytes fr = removelast (fraction_bytes fr) ++ [90]) as Efr.
    { destruct fr as [|x fr]; [done|]. unfold fraction_bytes.
      change (46 :: (x :: fr) ++ [90]) with ((46 :: x :: fr) ++ [90]). by rewrite removelast_last. }
    assert (d <= 99) as Hd99 by (unfold days_in_month in Hd; repeat case_match; lia).
    rewrite Efr in E. apply (timestamp_parts value (date_bytes y mo d h mi s) (removelast (fraction_bytes fr)) 90 E); [done|].
    destruct (digits_four y) as [Ny Fy], (digits_two mo) as [Nmo Fmo], (digits_two d) as [Nd Fd],
      (digits_two h) as [Nh Fh], (digits_two mi) as [Nmi Fmi], (digits_two s) as [Ns Fs]; try lia.
    change (number (date_bytes y mo d h mi s) 0 4) with (digits_value (four y)).
    change (number (date_bytes y mo d h mi s) 5 7) with (digits_value (two mo)).
    change (number (date_bytes y mo d h mi s) 8 10) with (digits_value (two d)).
    change (number (date_bytes y mo d h mi s) 11 13) with (digits_value (two h)).
    change (number (date_bytes y mo d h mi s) 14 16) with (digits_value (two mi)).
    change (number (date_bytes y mo d h mi s) 17 19) with (digits_value (two s)).
    rewrite Ny, Nmo, Nd, Nh, Nmi, Ns. split_and!; try done; try lia.
    + destruct fr as [|x fr]; [cbn; lia|]. unfold fraction_bytes.
      change (46 :: (x :: fr) ++ [90]) with ((46 :: x :: fr) ++ [90]). rewrite removelast_last. cbn in *. lia.
    + destruct fr as [|x fr]; [by left|right]. exists (x :: fr). unfold fraction_bytes.
      change (46 :: (x :: fr) ++ [90]) with ((46 :: x :: fr) ++ [90]). by rewrite removelast_last.
    + unfold four, two in *. cbn [app] in *. repeat match goal with H : Forall _ (_ :: _) |- _ => apply Forall_cons in H as [? H] end.
      unfold digit_positions. repeat (apply Forall_cons; split; [assumption|]). apply Forall_nil.
      exact I.
Qed.

(** * Requests *)

Section Sender.
Context `{SJ : SerdeJson} `{UU : UuidLib} `{UL : UrlLib}
  (url_port : Url -> option Z) (url_domain : Url -> option (string + IpAddr))
  (base64_decode : string -> option string) (base64_encode : string -> string)
  (hmac_sha256 : string -> string -> string).

#[local] Notation outgoing := (outgoing url_port url_domain base64_decode base64_encode hmac_sha256).
#[local] Notation send_checked := (send_checked url_port url_domain base64_decode base64_encode hmac_sha256).
#[local] Notation signing_key := (signing_key base64_decode base64_encode).
#[local] Notation signature := (signature base64_encode hmac_sha256).
#[local] Notation message := (@message SJ UU).

Lemma authenticated_spec headers bearer :
  authenticated headers bearer = true <->
  32 <= str_len bearer /\ str_len bearer <= COMPARISON_BOUND - 7
  /\ headers "authorization"%string = Some ("Bearer " +:+ bearer).
Proof.
  unfold authenticated. rewrite andb_true_iff, Z.leb_le, constant_time_spec.
  assert (zlen (str_bytes ("Bearer " +:+ bearer)) = 7 + str_len bearer) as Hlen.
  { unfold zlen. rewrite str_bytes_length, str_len_append. done. }
  split.
  - intros (Hb & Heq & Hl). apply str_bytes_inj in Heq.
    destruct (headers "authorization"%string) as [v|] eqn:E; [|done].
    change (default EmptyString (Some v)) with v in Heq, Hl. subst v. split; [done|]. split; [lia|done].
  - intros (Hb & Hl & ->). change (default EmptyString (Some ("Bearer " +:+ bearer))) with ("Bearer " +:+ bearer).
    rewrite Hlen. split; [done|]. split; [done|lia].
Qed.

(** What a URL is that passes the check. *)
Definition url_ok (url : Url) : Prop :=
  url_scheme url = "https"%string /\ (url_port url = None \/ url_port url = Some 443)
  /\ str_is_empty (url_username url) = true /\ url_password url = None /\ url_fragment url = None
  /\ exists host, url_host_str url = Some host /\ host <> "localhost"%string
       /\ ends_with ".local" host = false /\ ends_with ".localhost" host = false
       /\ ends_with ".internal" host = false.

Lemma safe_url_spec value url :
  safe_url url_port value = Some url -> url_parse value = Some url /\ str_len value <= 2048 /\ url_ok url.
Proof.
  unfold safe_url. destruct (Z.ltb_spec 2048 (str_len value)) as [|Hl]; [done|].
  destruct (url_parse value) as [u|]; [|done]. cbn [mbind option_bind].
  destruct (url_host_str u) as [host|] eqn:Eh; [|done]. cbn [mbind option_bind].
  match goal with |- (if ?b then _ else _) = _ -> _ => destruct b eqn:E; [done|] end. intros [= <-].
  rewrite !orb_false_iff, negb_false_iff in E.
  destruct E as [[[[[[[[E1 E2] E3] E4] E5] E6] E7] E8] E9]. split; [done|]. split; [done|].
  apply String.eqb_eq in E1. apply negb_false_iff in E3. split_and!; try done.
  - destruct (url_port u) as [p|]; [|by left]. right. cbn in E2. apply negb_false_iff, Z.eqb_eq in E2. by subst.
  - by destruct (url_password u).
  - by destruct (url_fragment u).
  - exists host. split_and!; try done. intros ->. done.
Qed.

(** A body to be delivered: an event of the accepted shape, or a challenge. *)
Definition event_ok (body webhook_id : string) : Prop :=
  exists event object name data time,
    value_of <$> from_slice body = Some event /\ as_object event = Some object /\ length object = 5%nat
    /\ get event "eventId" = Some (JStr webhook_id) /\ valid_digest_identifier webhook_id "evt_" = true
    /\ get event "name" = Some (JStr name) /\ (name = JOB_EVENT \/ name = SESSION_EVENT)
    /\ get event "data" = Some data /\ valid_event_data name (Some data) = true
    /\ get event "timestamp" = Some (JStr time) /\ get data "timestamp" = Some (JStr time)
    /\ valid_utc_timestamp time = true /\ get event "cursor" = Some JNull.

Definition body_ok (body webhook_id : string) (challenge : option string) : Prop :=
  match challenge with
  | Some c => is_some (uuid_parse_str c) = true
      /\ to_vec (JObj [("challenge", JStr c); ("type", JStr "verification")]%string) = Some body
  | None => event_ok body webhook_id
  end.

Lemma str_or_empty_Some v s : str_or_empty v = s -> s <> EmptyString -> v = Some (JStr s).
Proof. unfold str_or_empty. intros <-. destruct v as [[]|]; cbn; try done. Qed.

Lemma delivery_message_spec input id body challenge :
  delivery_message input = Ok (id, body, challenge) ->
  challenge = None /\ se_event_body input = Some body /\ str_len body <= MAX_BODY /\ event_ok body id.
Proof.
  unfold delivery_message. intros (b & Hb%ok_or_Ok & H)%bind_Ok.
  apply bind_Ok in H as ([] & Hl%ensure_Ok & H). apply bind_Ok in H as (event & He%ok_or_Ok & H).
  apply bind_Ok in H as (eid & Hid%ok_or_Ok & H).
  match type of H with (if ?c then _ else _) = _ => destruct c eqn:E; [done|] end. injection H as <- <- <-.
  rewrite !orb_false_iff, !negb_false_iff in E. destruct E as [[[[[E1 E2] E3] E4] E5] E6].
  split; [done|]. split; [done|]. split; [by apply Z.leb_le|].
  assert (exists name, str_or_empty (get event "name") = name /\ (name = JOB_EVENT \/ name = SESSION_EVENT))
    as (name & Hname & Hn).
  { eexists. split; [done|]. cbn [existsb] in E1. rewrite !orb_true_iff, !String.eqb_eq in E1.
    destruct E1 as [|[|]]; [by left|by right|done]. }
  rewrite Hname in *. apply bool_decide_eq_true in E4, E5.
  destruct (get event "data") as [data|] eqn:Ed; [|by rewrite andb_false_r in E2 || done].
  destruct (get event "timestamp") as [[| | | |time| |]|] eqn:Et; cbn in E3; try done.
  destruct (as_object event) as [object|] eqn:Eo; [|done]. cbn in E6. apply negb_false_iff, Nat.eqb_eq in E6.
  exists event, object, name, data, time. split_and!; try done.
  - destruct (get event "eventId") as [[| | | |i| |]|]; cbn in Hid; try done.
    destruct (valid_digest_identifier i "evt_"); [|done]. by injection Hid as ->.
  - destruct (get event "eventId") as [[| | | |i| |]|]; cbn in Hid; try done.
    destruct (valid_digest_identifier i "evt_") eqn:Ev; [|done]. by injection Hid as <-.
  - apply str_or_empty_Some; [done|]. by destruct Hn as [-> | ->].
Qed.

Lemma message_spec uuid input id body challenge :
  message uuid input = Ok (id, body, challenge) -> body_ok body id challenge.
Proof.
  unfold message. destruct (_ && _ && _).
  - unfold verification_message. intros (c & Hc%ok_or_Ok & H)%bind_Ok.
    apply bind_Ok in H as (b & Hb%ok_or_Ok & H). injection H as <- <- <-. split; [|done].
    destruct (se_challenge input) as [c'|]; [|done]. cbn [mbind option_bind] in Hc.
    destruct (is_some (uuid_parse_str c')) eqn:E; [by injection Hc as <-|done].
  - destruct (_ && _); [|done]. by intros (-> & _ & _ & He)%delivery_message_spec.
Qed.

(** The keys that may sign. *)
Definition key_ok (value key : string) : Prop :=
  exists encoded, value = "whsec_" +:+ encoded /\ base64_decode encoded = Some key
    /\ base64_encode key = encoded /\ 24 <= str_len key <= 64.

Lemma signing_key_spec value key : signing_key value = Some key -> key_ok value key.
Proof.
  unfold signing_key. destruct (str_strip_prefix "whsec_" value) as [encoded|] eqn:E; [|done].
  cbn [mbind option_bind]. destruct (base64_decode encoded) as [bytes|] eqn:Ed; [|done]. cbn [mbind option_bind].
  destruct (_ && _) eqn:Eb; [|done]. intros [= <-]. rewrite !andb_true_iff, !Z.leb_le, String.eqb_eq in Eb.
  exists encoded. split; [by apply str_strip_prefix_Some|]. tauto.
Qed.

Lemma all_public l : existsb (fun a => negb (public_ip a)) l = false <-> Forall (fun a => public_ip a = true) l.
Proof.
  induction l as [|a l IH]; cbn [existsb]; [by split; [constructor|]|].
  by rewrite orb_false_iff, negb_false_iff, Forall_cons, IH.
Qed.

Lemma resolve_public_spec lookup host port sockets :
  resolve_public lookup host port = Some sockets ->
  lookup host port = Some sockets /\ sockets <> [] /\ zlen sockets <= 64
  /\ Forall (fun a => public_ip a = true) sockets.
Proof.
  unfold resolve_public. destruct (lookup host port) as [l|]; [|done]. cbn [mbind option_bind].
  destruct (_ || _) eqn:E; [done|]. intros [= <-]. rewrite !orb_false_iff, negb_false_iff, Z.ltb_ge in E.
  destruct E as [[En El] Ep]. split; [done|]. split; [by destruct l|]. split; [done|].
  by apply all_public.
Qed.

Lemma previous_key_spec value old :
  previous_key base64_decode base64_encode value = Some old ->
  option_Forall2 key_ok value old.
Proof.
  destruct value as [v|]; cbn [previous_key]; [|intros [= <-]; constructor].
  destruct (signing_key v) as [k|] eqn:E; [|done]. intros [= <-]. constructor. by apply signing_key_spec.
Qed.

(** Where a request goes: to the address the URL names, or to the addresses of its name. *)
Definition destination (lookup : string -> Z -> option (list IpAddr)) (out : Outgoing) : Prop :=
  (exists ip, url_domain (og_url out) = Some (inr ip) /\ og_sockets out = [ip])
  \/ (exists name, url_domain (og_url out) = Some (inl name)
        /\ lookup name (og_port out) = Some (og_sockets out) /\ zlen (og_sockets out) <= 64).

(** C20: a request leaves the sender only for a caller that holds the bearer token, only to
    an HTTPS URL without credentials or a foreign port and only to public addresses, the whole
    answer of the resolver being checked; its body is an event of the accepted shape or a
    challenge, of a bounded size, signed with the subscription's keys. *)
Theorem outgoing_confined bearer headers input w out :
  outgoing bearer headers input w = Ok out ->
  (32 <= str_len bearer /\ headers "authorization"%string = Some ("Bearer " +:+ bearer))
  /\ (url_parse (se_url input) = Some (og_url out) /\ url_ok (og_url out))
  /\ (og_sockets out <> [] /\ Forall (fun a => address_ok a -> public_address a) (og_sockets out)
      /\ destination (sw_lookup w) out)
  /\ (str_len (og_body out) <= 262144 /\ body_ok (og_body out) (og_webhook_id out) (og_challenge out))
  /\ exists key old, key_ok (se_secret input) key /\ option_Forall2 key_ok (se_previous_secret input) old
      /\ og_signatures out
         = (fun k => "v1," +:+ base64_encode (hmac_sha256 k
                       (og_webhook_id out +:+ "." +:+ og_timestamp out +:+ "." +:+ og_body out)))
           <$> key :: option_list old.
Proof.
  unfold EventsSender.outgoing.
  intros ([] & Ha%ensure_Ok & ([] & Hc%ensure_Ok & (url & Hu%ok_or_Ok & ([] & Hs%ensure_Ok & H)%bind_Ok)%bind_Ok)%bind_Ok)%bind_Ok.
  apply bind_Ok in H as (key & Hkey%ok_or_Ok & (old & Hold%ok_or_Ok & ([[id body] challenge] & Hm & H)%bind_Ok)%bind_Ok).
  apply bind_Ok in H as ([] & Hb%ensure_Ok & (host & Hh%ok_or_Ok & (port & Hp%ok_or_Ok & (dom & Hd%ok_or_Ok & H)%bind_Ok)%bind_Ok)%bind_Ok).
  apply bind_Ok in H as (sockets & Hsock & ([] & Hpub%ensure_Ok & ([] & Hcl%ensure_Ok & (now & Hnow%ok_or_Ok & H)%bind_Ok)%bind_Ok)%bind_Ok).
  injection H as <-. cbn [og_url og_sockets og_body og_webhook_id og_challenge og_signatures og_timestamp].
  apply negb_true_iff, all_public in Hpub.
  assert (Forall (fun a => address_ok a -> public_address a) sockets) as Hadr
    by (eapply Forall_impl; [exact Hpub|]; intros a Ht Hok; by apply public_ip_address). apply authenticated_spec in Ha as (? & _ & ?).
  apply safe_url_spec in Hu as (? & _ & ?). split; [done|]. split; [done|]. split; [|split].
  - split; [|split; [done|]]; destruct dom as [name|ip].
    + apply ok_or_Ok, resolve_public_spec in Hsock. tauto.
    + by injection Hsock as <-.
    + right. exists name. apply ok_or_Ok, resolve_public_spec in Hsock. tauto.
    + left. injection Hsock as <-. by exists ip.
  - split; [by apply Z.leb_le|by eapply message_spec].
  - exists key, old. split; [by apply signing_key_spec|]. split; [by apply previous_key_spec|].
    by destruct old.
Qed.

(** ** Verification *)

(** A response that proves the endpoint's consent. *)
Definition echoes (received challenge : string) : Prop :=
  exists j, from_slice received = Some j /\ get (value_of j) "challenge" = Some (JStr challenge)
    /\ str_len challenge <= COMPARISON_BOUND.

Definition chunk_bytes (chunks : list (result string string)) : option string :=
  foldr (fun c acc => match c, acc with Ok c, Some rest => Some (c +:+ rest) | _, _ => None end)
    (Some EmptyString) chunks.

Lemma receive_spec chunks : forall received whole,
  receive received chunks = Ok whole <->
  exists rest, chunk_bytes chunks = Some rest /\ whole = received +:+ rest
    /\ (chunks = [] \/ str_len whole <= MAX_RESPONSE).
Proof.
  induction chunks as [|[c|e] chunks IH]; intros received whole; cbn [receive chunk_bytes foldr].
  - split; [intros [= <-]; exists EmptyString; rewrite string_app_nil_r; auto|].
    intros (? & [= <-] & -> & _). by rewrite string_app_nil_r.
  - cbn [map_err bind]. split.
    + intros ([] & Hl%ensure_Ok & (rest & Hr & -> & Hw)%IH)%bind_Ok. fold (chunk_bytes chunks). rewrite Hr.
      exists (c +:+ rest). split; [done|]. rewrite string_app_assoc in Hw |- *. split; [done|]. right.
      apply Z.leb_le in Hl. destruct Hw as [-> | Hw]; [|done]. injection Hr as <-.
      rewrite string_app_nil_r, str_len_append. lia.
    + intros (rest & Hr & -> & [|Hw]); [done|]. fold (chunk_bytes chunks) in Hr.
      destruct (chunk_bytes chunks) as [r|] eqn:Er; [|done]. injection Hr as <-.
      rewrite <- string_app_assoc in Hw |- *. apply bind_Ok. exists tt. split.
      * apply ensure_Ok, Z.leb_le. rewrite !str_len_append in Hw. pose proof (str_len_nonneg r). lia.
      * apply IH. exists r. auto.
  - split; [done|]. by intros (? & ? & _).
Qed.

#[local] Opaque constant_time_equal.

Lemma echoed_spec received challenge :
  is_some_and (fun value => constant_time_equal (str_bytes value) (str_bytes challenge))
    (j ← from_slice received; v ← get (value_of j) "challenge"; as_str v) = true
  <-> echoes received challenge.
Proof.
  unfold echoes. destruct (from_slice received) as [j|]; cbn [mbind option_bind].
  2: { split; [intros [=]|intros (? & [=] & _)]. }
  assert ((v ← get (value_of j) "challenge"; as_str v) = Some challenge
    <-> get (value_of j) "challenge" = Some (JStr challenge)) as Hg.
  { destruct (get (value_of j) "challenge") as [[]|]; cbn [mbind option_bind as_str]; split; congruence. }
  destruct (v ← get (value_of j) "challenge"; as_str v) as [s|]; cbn [is_some_and].
  - rewrite constant_time_spec. unfold zlen. rewrite str_bytes_length. fold (str_len s). split.
    + intros [->%str_bytes_inj Hl]. exists j. split; [reflexivity|]. split; [by apply Hg|exact Hl].
    + intros (? & [= <-] & Hc%Hg & Hl). injection Hc as ->. split; [reflexivity|exact Hl].
  - split; [intros [=]|]. intros (? & [= <-] & Hc%Hg & _). discriminate Hc.
Qed.

(** A reported status is the status of the endpoint the request went to, and the
    endpoint counts as verified exactly when it answered a challenge in time, with a status of
    success and a bounded document that echoes the challenge. *)
Theorem send_verified bearer headers input w r :
  send_checked bearer headers input w = Ok r ->
  exists out response, outgoing bearer headers input w = Ok out /\ sw_post w out = Some response
    /\ sr_status r = hp_status response
    /\ (sr_verified r = true <->
         exists challenge received, og_challenge out = Some challenge /\ hp_in_time response = true
           /\ chunk_bytes (hp_chunks response) = Some received /\ str_len received <= MAX_RESPONSE
           /\ 200 <= hp_status response <= 299 /\ echoes received challenge).
Proof.
  unfold EventsSender.send_checked.
  intros (out & Hout & (response & Hp%ok_or_Ok & ([] & Ht%ensure_Ok & H)%bind_Ok)%bind_Ok)%bind_Ok.
  exists out, response. split; [done|]. split; [done|]. unfold finish_response in H.
  destruct (og_challenge out) as [challenge|].
  - apply bind_Ok in H as (received & Hr & H). injection H as <-. cbn [sr_status sr_verified]. split; [done|].
    apply receive_spec in Hr as (rest & Hr & -> & Hl). change (EmptyString +:+ rest) with rest in *. cbn [is_none orb] in Ht.
    rewrite andb_true_iff, in_range_true, echoed_spec. split.
    + intros [Hs He]. exists challenge, rest. split_and!; [done..| |lia|lia|exact He].
      destruct Hl as [Hn|Hl]; [|done]. rewrite Hn in Hr. by injection Hr as <-.
    + intros (? & ? & [= <-] & _ & Hr' & _ & Hs & He). rewrite Hr in Hr'. injection Hr' as <-. split; [exact Hs|exact He].
  - injection H as <-. split; [done|]. cbn [sr_verified]. split; [done|]. by intros (? & ? & ? & _).
Qed.
End Sender.
