(* ===== verification/EventsSenderWitness.v ===== *)
(** * Inputs at which the theorems on sent events apply

    An event delivered to a name that resolves to two addresses, signed with two keys, and an
    endpoint verified by the challenge it echoes in two chunks. *)

From S2P Require Import Prelude Strings Json Value Config OAuth EventsSender EventsSenderTheorems.
Import JsonModel.

#[local] Open Scope Z_scope.
#[local] Open Scope rust_scope.

#[local] Ltac by_value := match goal with |- _ = ?v => vm_cast_no_check (eq_refl v) end.

Module SenderW.

Definition digest : string := "0123456789abcdef0123456789abcdef0123456789abcdef0123456789abcdef".
Definition time : string := "2024-02-29T23:59:59.5Z".
Definition data : Json :=
  JObj [("host_id", JStr "host-1"); ("session_id", JStr "work"); ("job_id", JStr "job:1");
        ("previous_state", JNull); ("state", JStr "running"); ("timestamp", JStr time)]%string.
Definition event : Json :=
  JObj [("eventId", JStr ("evt_" +:+ digest)); ("name", JStr "job.state.changed"); ("data", data);
        ("timestamp", JStr time); ("cursor", JNull)]%string.
Definition challenge_body : Json := JObj [("challenge", JStr one_uuid); ("type", JStr "verification")]%string.
Definition echo : Json := JObj [("challenge", JStr one_uuid)]%string.

#[local] Instance serde : SerdeJson := codec [event; challenge_body; echo].

#[local] Instance url : UrlLib := {|
  Url := string;
  url_parse s := Some s;
  url_scheme _ := "https"%string;
  url_username _ := EmptyString;
  url_password _ := None;
  url_fragment _ := None;
  url_host_str _ := Some "hooks.example"%string;
  url_port_or_known_default _ := Some 443;
  url_append_pairs s _ := s;
|}.
Definition url_port (u : Url) : option Z := None.
Definition url_domain (u : Url) : option (string + IpAddr) := Some (inl "hooks.example"%string).

(** The keys are their own encodings. *)
Definition base64_decode (s : string) : option string := Some s.
Definition base64_encode (s : string) : string := s.
Definition hmac_sha256 (key body : string) : string := key +:+ "/" +:+ body.

Definition bearer : string := "0123456789abcdef0123456789abcdef".
Definition headers (name : string) : option string :=
  match_str name [("authorization", "Bearer " +:+ bearer); ("content-type", "application/json")]%string.

Definition key : string := "whsec_abcdefghijklmnopqrstuvwx".
Definition old_key : string := "whsec_ABCDEFGHIJKLMNOPQRSTUVWXYZ".
Definition delivery : SendEnvelope :=
  mkEnvelope "delivery" "https://hooks.example/in" ("sub_" +:+ digest) key (Some old_key) None
    (Some (str_of (print event))).
Definition verification : SendEnvelope :=
  mkEnvelope "verification" "https://hooks.example/in" ("sub_" +:+ digest) key None (Some one_uuid) None.

Definition echo_chunks : list (result string string) :=
  let text := str_of (print echo) in
  [Ok (substring 0 10 text); Ok (substring 10 (String.length text - 10) text)].
Definition world : SendWorld := {|
  sw_uuid := uuid0;
  sw_lookup name port := if String.eqb name "hooks.example" then Some [V4 93 184 216 34; V6 9734 18176 0 0 0 0 0 1] else None;
  sw_client := true;
  sw_clock := Some 1709251199;
  sw_post out := Some (mkEndpointResponse 200 echo_chunks true);
|}.

#[local] Notation outgoing := (outgoing url_port url_domain base64_decode base64_encode hmac_sha256).
#[local] Notation send_checked := (send_checked url_port url_domain base64_decode base64_encode hmac_sha256).

Definition no_request : Outgoing := mkOutgoing EmptyString "" 0 [] "" "" [] "" "" None.
Definition delivered : Outgoing :=
  match outgoing bearer headers delivery world with Ok out => out | Err _ => no_request end.
Lemma delivered_value : outgoing bearer headers delivery world = Ok delivered.
Proof. by_value. Qed.

Lemma outgoing_confined_witness :
  Forall public_address (og_sockets delivered) /\ length (og_signatures delivered) = 2%nat
  /\ body_ok (og_body delivered) (og_webhook_id delivered) (og_challenge delivered).
Proof.
  destruct (outgoing_confined url_port url_domain base64_decode base64_encode hmac_sha256 bearer headers delivery
    world delivered delivered_value) as (_ & _ & (_ & Hp & _) & (_ & Hb) & _).
  split; [|split; [vm_compute; reflexivity|exact Hb]].
  assert (Forall address_ok (og_sockets delivered)) as Hok
    by (vm_compute; repeat constructor; discriminate).
  rewrite !Forall_forall in Hp |- *. rewrite Forall_forall in Hok. intros a Ha. by apply Hp, Hok.
Defined.

Lemma verified_value : send_checked bearer headers verification world = Ok (mkSendResult 200 true).
Proof. by_value. Qed.

Definition asked : Outgoing :=
  match outgoing bearer headers verification world with Ok out => out | Err _ => no_request end.
Lemma asked_value : outgoing bearer headers verification world = Ok asked.
Proof. by_value. Qed.
Lemma asked_challenge : og_challenge asked = Some one_uuid.
Proof. by_value. Qed.

Lemma asked_only out : outgoing bearer headers verification world = Ok out -> out = asked.
Proof.
  intros Hout.
  exact (f_equal (fun r => match r with Ok o => o | Err _ => no_request end) (eq_trans (eq_sym Hout) asked_value)).
Qed.

Lemma send_verified_witness :
  exists out response, sw_post world out = Some response /\ hp_status response = 200
    /\ exists received, chunk_bytes (hp_chunks response) = Some received /\ echoes received one_uuid.
Proof.
  destruct (send_verified url_port url_domain base64_decode base64_encode hmac_sha256 bearer headers verification
    world (mkSendResult 200 true) verified_value) as (out & response & Hout & Hr & Hs & Hv).
  exists out, response. split; [exact Hr|]. split; [symmetry; exact Hs|].
  destruct (proj1 Hv eq_refl) as (challenge & received & Hc & _ & Hch & _ & _ & He).
  exists received. split; [exact Hch|].
  rewrite (asked_only out Hout) in Hc. rewrite asked_challenge in Hc.
  rewrite (Some_inj _ _ Hc). exact He.
Defined.

Lemma public_ip_stricter_witness :
  is_public_ip (V4 192 0 66 1) = true /\ public_ip (V4 192 0 66 1) = false.
Proof.
  split; [vm_compute; reflexivity|].
  destruct (public_ip (V4 192 0 66 1)) eqn:E; [|reflexivity].
  apply (public_ip_stricter (V4 192 0 66 1)) in E.
  - destruct E as [_ E]. contradict E. split; reflexivity.
  - repeat (apply Forall_cons; split; [split; [discriminate|reflexivity]|]). apply Forall_nil. exact I.
Defined.
End SenderW.
