(* ===== verification/EventsHost.v ===== *)
(** * The queue of transitions for the hosted service (events_host.rs)

    Facts about sessions and jobs are recorded in a directory of the host and delivered from
    there by whichever link is connected: which facts, how they are queued, how a link goes
    through the queue, and when a record leaves it.  Several processes use the queue, so
    delivery is a transition system: every section under the queue's lock is a step.  The file
    system, the clock, [gmtime_r], uuids, the parser of JSON, the supervisor and the gateway
    are arguments or part of a label. *)

From S2P Require Import Prelude Strings Json Value Upgrade Config Contract.

#[local] Open Scope Z_scope.
#[local] Open Scope rust_scope.

Definition MAX_PENDING : Z := 256.
Definition MAX_RECORD_BYTES : Z := 16384.
Definition PENDING_LIFETIME_MS : Z := 43200000.
Definition MAX_DELIVERY_BATCH : nat := 2.
(** The modulus of a [usize]. *)
Definition USIZE : Z := 18446744073709551616.

(** The fields of a session's view that are read here. *)
Record SessionView := mkSessionView {
  sv_host_id : string;
  sv_session_id : string;
  sv_status : string;
  sv_process_id : Z;
  sv_cwd : string;
  sv_permitted_directories : list string;
  sv_started_at : Z;
  sv_permission_mode : PermissionMode;
  sv_yolo : bool;
  sv_restart_count : Z;
}.

Record Pending := mkPending {
  pn_created_ms : Z;
  pn_body : Json;
}.

(** The derived [Serialize] and [Deserialize]. *)
Definition pending_json (p : Pending) : Json :=
  JObj [("created_ms", JInt (pn_created_ms p)); ("body", pn_body p)]%string.

Definition pending_of_json (j : Json) : option Pending :=
  match j with
  | JObj entries =>
      created ← struct_field "created_ms" entries; created ← created; created ← de_u64 created;
      body ← struct_field "body" entries; body ← body;
      Some (mkPending created (value_of body))
  | JArr [created; body] => created ← de_u64 created; Some (mkPending created (value_of body))
  | _ => None
  end.

(** * Times *)

(** What is read of a [libc::tm]. *)
Record Tm := mkTm {
  tm_year : Z;
  tm_mon : Z;
  tm_mday : Z;
  tm_hour : Z;
  tm_min : Z;
  tm_sec : Z;
}.

(** [{:0width}], of a number that is not negative. *)
Definition padded (width : nat) (n : Z) : string :=
  string_of_list_ascii (repeat "0"%char (width - String.length (decimal n))) +:+ decimal n.

Definition timestamp (gmtime : Z -> option Tm) (ms : Z) : result string string :=
  let! tm := ok_or (gmtime (ms / 1000)) "invalid event time"%string in
  Ok (padded 4 (tm_year tm + 1900) +:+ "-" +:+ padded 2 (tm_mon tm + 1) +:+ "-" +:+ padded 2 (tm_mday tm)
      +:+ "T" +:+ padded 2 (tm_hour tm) +:+ ":" +:+ padded 2 (tm_min tm) +:+ ":" +:+ padded 2 (tm_sec tm)
      +:+ "." +:+ padded 3 (ms mod 1000) +:+ "Z").

(** * The directory of a host's queue *)

(** The contents of its files. *)
Notation QueueDir := (gmap string string) (only parsing).

Definition lock_file : string := ".lock".

(** [access]: whether the directories are private and the lock is taken.  A lock file that is
    left behind without being taken is not shown: every use of the directory adds it first. *)
Definition with_queue_lock {T : Type} (access : result string unit) (operation : QueueDir -> QueueDir * result string T)
    (dir : QueueDir) : QueueDir * result string T :=
  match access with
  | Err e => (dir, Err e)
  | Ok _ => operation (if is_some (dir !! lock_file) then dir else <[lock_file := EmptyString]> dir)
  end.

(** [path.extension() == Some("json")]. *)
Definition is_record (name : string) : bool :=
  ends_with ".json" name && negb (String.eqb name ".json").

Definition pending_paths (dir : QueueDir) : result string (list string) :=
  ensure (Z.of_nat (size dir) <=? MAX_PENDING + 1) "Fabric event queue directory exceeds entry limit"%string ;!
  Ok (sort_strings (List.filter is_record (elements (dom dir)))).

(** What becomes of creating a file and writing to it. *)
Inductive Creation :=
| NotCreated
| Torn (written : nat)
| NotSynced
| Created.

(** [create_new], [write_all] and the two [sync_all]. *)
Definition create_file (name bytes : string) (outcome : Creation) (dir : QueueDir) :
    QueueDir * result string unit :=
  match outcome, dir !! name with
  | NotCreated, _ => (dir, Err "open"%string)
  | _, Some _ => (dir, Err "exists"%string)
  | Torn n, None => (<[name := substring 0 n bytes]> dir, Err "write"%string)
  | NotSynced, None => (<[name := bytes]> dir, Err "sync"%string)
  | Created, None => (<[name := bytes]> dir, Ok tt)
  end.

Definition remove_file (name : string) (dir : QueueDir) : QueueDir * result string unit :=
  match dir !! name with
  | None => (dir, Err "not found"%string)
  | Some _ => (delete name dir, Ok tt)
  end.

Section EventsHost.
Context `{UU : UuidLib} `{SJ : SerdeJson} (gmtime : Z -> option Tm) (host_id : string).

(** What a step is given by its environment. *)
Record Access := mkAccess {
  ac_lock : result string unit;
  ac_now : option Z;
  ac_uuid : Uuid;
  ac_creation : Creation;
}.

(** [host_dir] and the lock. *)
Definition queue_access (access : result string unit) : result string unit :=
  let! _ := host_id_validate host_id in access.

Definition record_name (created_ms : Z) (uuid : Uuid) : string :=
  padded 20 created_ms +:+ "-" +:+ uuid_to_string uuid +:+ ".json".

Definition enqueue_in (a : Access) (body : Json) (dir : QueueDir) : QueueDir * result string unit :=
  match ac_now a with
  | None => (dir, Err "clock"%string)
  | Some now =>
      match to_vec (pending_json (mkPending now body)) with
      | None => (dir, Err "serialization"%string)
      | Some bytes =>
          if MAX_RECORD_BYTES <? str_len bytes
          then (dir, Err "Fabric transition exceeds queue record limit"%string)
          else
            with_queue_lock (queue_access (ac_lock a)) (fun dir =>
              match pending_paths dir with
              | Err e => (dir, Err e)
              | Ok paths =>
                  if MAX_PENDING <=? zlen paths then (dir, Err "Fabric transition queue is full"%string)
                  else create_file (record_name now (ac_uuid a)) bytes (ac_creation a) dir
              end) dir
      end
  end.

(** * Which facts are recorded *)

(** [json!] of an object. *)
Definition json_object (entries : list (string * Json)) : Json :=
  JObj (fold_left (fun m kv => map_put kv.1 kv.2 m) entries []).

Definition utf8_path (path e : string) : result string string :=
  if utf8_valid (str_bytes path) then Ok path else Err e.

Fixpoint utf8_paths (paths : list string) (e : string) : result string (list string) :=
  match paths with
  | [] => Ok []
  | path :: rest =>
      let! path := utf8_path path e in
      let! rest := utf8_paths rest e in
      Ok (path :: rest)
  end.

Definition transition_body (view : SessionView) (name state : string) (job_id : option string) (at_ms : Z) :
    result string (option Json) :=
  if sv_yolo view || is_yolo (sv_permission_mode view) || (sv_started_at view =? 0) || (sv_process_id view =? 0)
     || negb (bool_decide (sv_permission_mode view = Ask) || bool_decide (sv_permission_mode view = Agent))
     || negb (nonempty (sv_permitted_directories view)) || (32 <? zlen (sv_permitted_directories view))
  then Ok None
  else
    let! cwd := utf8_path (sv_cwd view) "non-UTF8 event session cwd" in
    let! directories := utf8_paths (sv_permitted_directories view) "non-UTF8 event session scope" in
    if (4096 <? str_len cwd) || existsb (fun path => 4096 <? str_len path) directories then Ok None
    else
      let! time := timestamp gmtime at_ms in
      let body := json_object
        ([("name", JStr name); ("session_id", JStr (sv_session_id view)); ("state", JStr state);
          ("timestamp", JStr time); ("session_started_at", JInt (sv_started_at view));
          ("session_process_id", JInt (sv_process_id view));
          ("session_restart_count", JInt (sv_restart_count view));
          ("session_permission_mode", JStr (mode_as_str (sv_permission_mode view)));
          ("session_cwd", JStr cwd);
          ("session_permitted_directories", JArr (map JStr directories))]%string
         ++ match job_id with
            | Some job_id => [("job_id"%string, JStr job_id)]
            | None => []
            end) in
      let! bytes := ok_or (to_vec body) "serialization"%string in
      Ok (if str_len bytes <=? 3500 then Some body else None).

(** The state a session has to be in for an event about it. *)
Definition expected_status (event : ActivityEvent) : option string :=
  match ev_operation event, ev_state event with
  | (SessionStart | SessionRestart | SessionAutoRestart), Completed => Some "active"%string
  | SessionStop, Completed => Some "stopped"%string
  | SessionCrash, Failed => Some "crashed"%string
  | _, _ => None
  end.

(** [info]: what the supervisor answers about a session. *)
Definition lifecycle_body (info : string -> result string SessionView) (event : ActivityEvent) :
    result string (option Json) :=
  match expected_status event, ev_session_id event with
  | Some expected, Some session_id =>
      let! view := info session_id in
      if negb (String.eqb (sv_host_id view) host_id) || negb (String.eqb (sv_status view) expected) then Ok None
      else transition_body view "session.state.changed" (sv_status view) None (ev_timestamp_ms event)
  | _, _ => Ok None
  end.

Definition stopped_job_body (info : string -> result string SessionView) (session_id : string) (job_id : Uuid)
    (now : option Z) : result string (option Json) :=
  let! view := info session_id in
  if negb (String.eqb (sv_status view) "active") then Ok None
  else
    let! now := ok_or now "clock"%string in
    let! body := transition_body view "job.state.changed" "stopped" (Some (uuid_to_string job_id)) now in
    (* [enqueue(&view.host_id, body)]: the queue of another host is not this one *)
    Ok (if String.eqb (sv_host_id view) host_id then body else None).

Definition enqueue_body (a : Access) (body : result string (option Json)) (dir : QueueDir) :
    QueueDir * result string unit :=
  match body with
  | Err e => (dir, Err e)
  | Ok None => (dir, Ok tt)
  | Ok (Some body) => enqueue_in a body dir
  end.

Definition record_lifecycle (a : Access) (info : string -> result string SessionView) (event : ActivityEvent)
    (dir : QueueDir) : QueueDir * result string unit :=
  enqueue_body a (lifecycle_body info event) dir.

Definition record_stopped_job (a : Access) (now : option Z) (info : string -> result string SessionView)
    (session_id : string) (job_id : Uuid) (dir : QueueDir) : QueueDir * result string unit :=
  enqueue_body a (stopped_job_body info session_id job_id now) dir.

(** * Delivery *)

(** [same_scope]: whether a record is about the session as it is now; unknown otherwise. *)
Definition same_scope (view : SessionView) (body : Json) : option bool :=
  if sv_yolo view
     || negb (existsb (String.eqb (sv_status view))
                ["starting"; "active"; "stopping"; "stopped"; "crashed"; "failed"]%string)
  then None
  else
    started ← get body "session_started_at"; started ← as_u64 started;
    process ← get body "session_process_id"; process ← as_u64 process;
    restart ← get body "session_restart_count"; restart ← as_u64 restart;
    mode ← get body "session_permission_mode"; mode ← as_str mode;
    cwd ← get body "session_cwd"; cwd ← as_str cwd;
    dirs ← get body "session_permitted_directories"; dirs ← as_array dirs;
    if negb (nonempty dirs) || existsb (fun path => is_none (as_str path)) dirs then None
    else if negb ((started =? sv_started_at view) && (process =? sv_process_id view)
                  && (restart =? sv_restart_count view) && String.eqb mode (mode_as_str (sv_permission_mode view))
                  && bool_decide (utf8_path (sv_cwd view) EmptyString = Ok cwd))
    then Some false
    else match utf8_paths (sv_permitted_directories view) EmptyString with
         | Ok paths => Some (bool_decide (JArr dirs = JArr (map JStr paths)))
         | Err _ => None
         end.

(** [body[key] = value]: [None] is a panic. *)
Definition set_key (key : string) (value body : Json) : option Json :=
  match body with
  | JObj entries => Some (JObj (map_put key value entries))
  | JNull => Some (JObj [(key, value)])
  | _ => None
  end.

(** What is posted: the record's body and who delivers it. *)
Definition stamped (generation : Z) (instance : string) (body : Json) : option Json :=
  body ← set_key "generation" (JInt generation) body;
  set_key "host_instance_id" (JStr instance) body.

(** A response: its status and its body, when that is bounded and can be read. *)
Record GatewayResponse := mkGatewayResponse {
  gr_status : Z;
  gr_body : option string;
}.

(** Whether the record that was posted leaves the queue. *)
Definition settled (info : string -> result string SessionView) (body : Json)
    (response : option GatewayResponse) : bool :=
  match response with
  | None => false
  | Some r =>
      if gr_status r =? 409 then
        match (v ← get body "session_id"; as_str v) with
        | None => false
        | Some session_id =>
            match info session_id with
            | Err _ => false
            | Ok view =>
                String.eqb (sv_host_id view) host_id && String.eqb (sv_session_id view) session_id
                && bool_decide (same_scope view body = Some false)
            end
        end
      else if in_range 200 299 (gr_status r) then
        is_some_and (fun value => bool_decide (get value "accepted" = Some (JBool true)))
          (bytes ← gr_body r; j ← from_slice bytes; Some (value_of j))
      else gr_status r =? 400
  end.

(** The records of a batch: [cycle().skip(offset).take(MAX_DELIVERY_BATCH)]. *)
Definition batch (offset : Z) (paths : list string) : list string :=
  take (Nat.min MAX_DELIVERY_BATCH (length paths))
    (drop (Z.to_nat (offset mod zlen paths)) (paths ++ paths)).

Definition read_record (path : string) (dir : QueueDir) : result string Pending :=
  let! bytes := ok_or (dir !! path) "open"%string in
  ensure (str_len bytes <=? MAX_RECORD_BYTES) "Fabric event record is oversized"%string ;!
  ok_or (j ← from_slice bytes; pending_of_json j) "invalid record"%string.

Definition expired (now created_ms : Z) : bool := PENDING_LIFETIME_MS <=? Z.max 0 (now - created_ms).

(** Where a link is in [deliver_pending_in]. *)
Inductive Delivery :=
| Idle
| Next (paths : list string)
| Dropping (path : string) (rest : list string)
| Posted (path : string) (body : Json) (rest : list string).

(** A process with a link: the identity it delivers with, and its static counter. *)
Record Link := mkLink {
  ln_instance : string;
  ln_generation : Z;
  ln_offset : Z;
  ln_delivery : Delivery;
}.

Definition with_delivery (l : Link) (d : Delivery) : Link :=
  mkLink (ln_instance l) (ln_generation l) (ln_offset l) d.

Record EventsState := mkEventsState {
  es_dir : QueueDir;
  es_links : gmap nat Link;
}.

(** What can be seen of a step. *)
Inductive EventsObs :=
| OPosted (link : nat) (path : string) (body : Json)
| OSettled (link : nat) (path : string) (body : Json) (response : option GatewayResponse)
    (info : string -> result string SessionView)
| OExpired (link : nat) (path : string) (created_ms now : Z).

Inductive EventsLabel :=
| LLifecycle (a : Access) (info : string -> result string SessionView) (event : ActivityEvent)
| LStoppedJob (a : Access) (now : option Z) (info : string -> result string SessionView) (session_id : string)
    (job_id : Uuid)
| LConnect (link : nat) (instance : string) (generation : Z)
| LDeliver (link : nat) (access : result string unit)
| LRead (link : nat) (access : result string unit) (file : result string unit) (now : option Z)
| LAnswer (link : nat) (response : option GatewayResponse) (info : string -> result string SessionView)
| LRemove (link : nat) (access : result string unit).

Definition with_link (s : EventsState) (i : nat) (l : Link) (d : Delivery) : EventsState :=
  mkEventsState (es_dir s) (<[i := with_delivery l d]> (es_links s)).

Definition record_step (s : EventsState) (out : QueueDir * result string unit) : EventsState * list EventsObs :=
  (mkEventsState out.1 (es_links s), []).

(** The start of [deliver_pending_in]: the batch of this call. *)
Definition deliver_begin (s : EventsState) (i : nat) (l : Link) (access : result string unit) : EventsState :=
  let '(dir, paths) := with_queue_lock (queue_access access) (fun dir => (dir, pending_paths dir)) (es_dir s) in
  let s := mkEventsState dir (es_links s) in
  match paths with
  | Err _ | Ok [] => s
  | Ok paths =>
      mkEventsState dir
        (<[i := mkLink (ln_instance l) (ln_generation l) ((ln_offset l + Z.of_nat MAX_DELIVERY_BATCH) mod USIZE)
                  (Next (batch (ln_offset l) paths))]> (es_links s))
  end.

(** The first record of the batch is read, and posted unless it expired. *)
Definition deliver_read (s : EventsState) (i : nat) (l : Link) (path : string) (rest : list string)
    (access file : result string unit) (now : option Z) : EventsState * list EventsObs :=
  let '(dir, pending) := with_queue_lock (queue_access access)
                           (fun dir => (dir, let! _ := file in read_record path dir)) (es_dir s) in
  let s := mkEventsState dir (es_links s) in
  match pending, now with
  | Err _, _ | _, None => (with_link s i l Idle, [])
  | Ok pending, Some now =>
      if expired now (pn_created_ms pending) then (with_link s i l (Dropping path rest), [OExpired i path (pn_created_ms pending) now])
      else
        match stamped (ln_generation l) (ln_instance l) (pn_body pending) with
        | None => (with_link s i l Idle, [])
        | Some body => (with_link s i l (Posted path body rest), [OPosted i path body])
        end
  end.

Definition deliver_remove (s : EventsState) (i : nat) (l : Link) (path : string) (rest : list string)
    (access : result string unit) : EventsState :=
  let '(dir, removed) := with_queue_lock (queue_access access) (remove_file path) (es_dir s) in
  let s := mkEventsState dir (es_links s) in
  match removed with
  | Err _ => with_link s i l Idle
  | Ok _ => with_link s i l (Next rest)
  end.

Definition events_step (s : EventsState) (label : EventsLabel) : option (EventsState * list EventsObs) :=
  match label with
  | LLifecycle a info event => Some (record_step s (record_lifecycle a info event (es_dir s)))
  | LStoppedJob a now info session_id job_id =>
      Some (record_step s (record_stopped_job a now info session_id job_id (es_dir s)))
  | LConnect i instance generation =>
      Some (mkEventsState (es_dir s) (<[i := mkLink instance generation 0 Idle]> (es_links s)), [])
  | LDeliver i access =>
      l ← es_links s !! i;
      match ln_delivery l with
      | Idle | Next [] => Some (deliver_begin s i (with_delivery l Idle) access, [])
      | _ => None
      end
  | LRead i access file now =>
      l ← es_links s !! i;
      match ln_delivery l with
      | Next (path :: rest) => Some (deliver_read s i l path rest access file now)
      | _ => None
      end
  | LAnswer i response info =>
      l ← es_links s !! i;
      match ln_delivery l with
      | Posted path body rest =>
          Some (if settled info body response
                then (with_link s i l (Dropping path rest), [OSettled i path body response info])
                else (with_link s i l (Next rest), []))
      | _ => None
      end
  | LRemove i access =>
      l ← es_links s !! i;
      match ln_delivery l with
      | Dropping path rest => Some (deliver_remove s i l path rest access, [])
      | _ => None
      end
  end.

Fixpoint events_run (s : EventsState) (labels : list EventsLabel) : option (EventsState * list EventsObs) :=
  match labels with
  | [] => Some (s, [])
  | label :: rest =>
      out ← events_step s label;
      out' ← events_run out.1 rest;
      Some (out'.1, out.2 ++ out'.2)
  end.
End EventsHost.
