(* ===== verification/EventsHostTheorems.v ===== *)
(** * What becomes of a recorded transition

    A record leaves the queue only when the gateway settled it or when it expired; what is
    posted was recorded for a session that is not yolo; and the queue is bounded. *)

From S2P Require Import Prelude Strings Utf8 Json Value Observation Journal JournalTheorems Upgrade Config Contract EventsHost.

#[local] Open Scope Z_scope.
#[local] Open Scope rust_scope.

(** * Files *)

Lemma lock_not_record : is_record lock_file = false.
Proof. done. Qed.

Lemma record_not_lock path : is_record path = true -> path <> lock_file.
Proof. intros H ->. by rewrite lock_not_record in H. Qed.

(** The directory once the lock was taken. *)
Definition with_lock (dir : QueueDir) : QueueDir :=
  if is_some (dir !! lock_file) then dir else <[lock_file := EmptyString]> dir.

Lemma with_lock_record dir path : is_record path = true -> with_lock dir !! path = dir !! path.
Proof.
  intros H%record_not_lock. unfold with_lock. destruct (is_some _); [done|]. by rewrite lookup_insert_ne.
Qed.

Lemma with_lock_idem dir : with_lock (with_lock dir) = with_lock dir.
Proof.
  unfold with_lock at 1. replace (is_some (with_lock dir !! lock_file)) with true; [done|].
  unfold with_lock. destruct (is_some (dir !! lock_file)) eqn:E; [done|]. by rewrite lookup_insert_eq.
Qed.

Lemma with_queue_lock_cases {T : Type} access (operation : QueueDir -> QueueDir * result string T) dir :
  (exists e, with_queue_lock access operation dir = (dir, Err e))
  \/ with_queue_lock access operation dir = operation (with_lock dir).
Proof. unfold with_queue_lock. destruct access as [u|e]; [by right|left; by exists e]. Qed.

Lemma create_file_cases name bytes outcome dir dir' r :
  create_file name bytes outcome dir = (dir', r) ->
  (dir' = dir /\ exists e, r = Err e)
  \/ (dir !! name = None /\ exists written, dir' = <[name := written]> dir
      /\ (written = bytes \/ r <> Ok tt /\ exists n, written = substring 0 n bytes)).
Proof.
  unfold create_file. destruct (dir !! name) eqn:E, outcome; intros [= <- <-]; eauto 10.
Qed.

Lemma remove_file_cases name dir dir' r :
  remove_file name dir = (dir', r) -> dir' = dir \/ dir' = delete name dir /\ r = Ok tt.
Proof. unfold remove_file. destruct (dir !! name); intros [= <- <-]; auto. Qed.

(** The steps that begin with the lock. *)
Ltac under_lock :=
  match goal with |- context [with_queue_lock ?x ?f ?dir] =>
    destruct (with_queue_lock_cases x f dir) as [[? ->]| ->]; cbn [fst snd] in *
  end.

(** * The records of a directory *)

Lemma sort_strings_perm l : sort_strings l ≡ₚ l.
Proof.
  unfold sort_strings. induction l as [|x l IH]; cbn [fold_right]; [done|].
  rewrite <- IH at 2. generalize (fold_right insert_string [] l). intros m.
  induction m as [|y m IHm]; cbn [insert_string]; [done|].
  destruct (String.leb x y); [done|]. rewrite IHm. apply Permutation_swap.
Qed.

Lemma sort_strings_elem l path : path ∈ sort_strings l <-> path ∈ l.
Proof. by rewrite sort_strings_perm. Qed.

Lemma pending_paths_elem dir paths path :
  pending_paths dir = Ok paths -> path ∈ paths <-> is_record path = true /\ is_some (dir !! path) = true.
Proof.
  unfold pending_paths. intros ([] & _ & H)%bind_Ok. injection H as <-.
  rewrite sort_strings_elem, list_elem_of_In, filter_In, <- list_elem_of_In, elem_of_elements, elem_of_dom.
  unfold Is_true, is_Some. destruct (dir !! path); naive_solver.
Qed.

Lemma batch_elem offset paths path : path ∈ batch offset paths -> path ∈ paths.
Proof.
  unfold batch. intros H%elem_of_take. destruct H as (k & H & _).
  apply list_elem_of_lookup_2 in H. assert (path ∈ paths ++ paths) as Hp.
  { rewrite <- (take_drop (Z.to_nat (offset mod zlen paths)) (paths ++ paths)). set_solver. }
  set_solver.
Qed.

Section Queue.
Context `{UU : UuidLib} `{SJ : SerdeJson} (gmtime : Z -> option Tm) (host_id : string).

#[local] Notation events_step := (events_step gmtime host_id).
#[local] Notation events_run := (events_run gmtime host_id).
#[local] Notation settled := (settled host_id).
#[local] Notation enqueue_in := (enqueue_in host_id).


(** What enqueuing does to the directory: nothing but the lock, or one new record of a bounded
    size where there was room. *)
Lemma enqueue_in_cases a body dir dir' r :
  enqueue_in a body dir = (dir', r) ->
  (dir' = dir /\ exists e, r = Err e)
  \/ (dir' = with_lock dir /\ exists e, r = Err e)
  \/ exists now bytes written paths, ac_now a = Some now
      /\ to_vec (pending_json (mkPending now body)) = Some bytes /\ str_len bytes <= MAX_RECORD_BYTES
      /\ pending_paths (with_lock dir) = Ok paths /\ zlen paths < MAX_PENDING
      /\ with_lock dir !! record_name now (ac_uuid a) = None
      /\ dir' = <[record_name now (ac_uuid a) := written]> (with_lock dir)
      /\ (written = bytes \/ r <> Ok tt /\ exists n, written = substring 0 n bytes).
Proof.
  unfold EventsHost.enqueue_in. destruct (ac_now a) as [now|]; [|intros [= <- <-]; eauto].
  destruct (to_vec _) as [bytes|] eqn:Eb; [|intros [= <- <-]; eauto].
  destruct (Z.ltb_spec MAX_RECORD_BYTES (str_len bytes)); [intros [= <- <-]; eauto|].
  match goal with |- with_queue_lock ?x ?f dir = _ -> _ =>
    destruct (with_queue_lock_cases x f dir) as [[e ->]| ->] end; [intros [= <- <-]; eauto|].
  destruct (pending_paths (with_lock dir)) as [paths|e] eqn:Ep; [|intros [= <- <-]; eauto].
  destruct (Z.leb_spec MAX_PENDING (zlen paths)); [intros [= <- <-]; eauto|].
  intros [[-> He]|(Hn & written & -> & Hw)]%create_file_cases; [eauto|].
  right. right. exists now, bytes, written, paths. tauto.
Qed.

(** * Steps and runs *)

Lemma enqueue_body_cases a body dir dir' r :
  enqueue_body host_id a body dir = (dir', r) ->
  dir' = dir \/ exists b, body = Ok (Some b) /\ enqueue_in a b dir = (dir', r).
Proof.
  unfold enqueue_body. destruct body as [[b|]|e]; [|intros [= <- <-]; by left..].
  intros H. right. by exists b.
Qed.

(** What a step can do to the directory. *)
Inductive dir_change (s : EventsState) : EventsLabel -> QueueDir -> Prop :=
| dir_same label : dir_change s label (es_dir s)
| dir_locked label : dir_change s label (with_lock (es_dir s))
| dir_recorded label a now b bytes written paths :
    (exists info event, label = LLifecycle a info event /\ lifecycle_body gmtime host_id info event = Ok (Some b))
    \/ (exists at_ms info id job, label = LStoppedJob a at_ms info id job
          /\ stopped_job_body gmtime host_id info id job at_ms = Ok (Some b)) ->
    to_vec (pending_json (mkPending now b)) = Some bytes -> str_len bytes <= MAX_RECORD_BYTES ->
    pending_paths (with_lock (es_dir s)) = Ok paths -> zlen paths < MAX_PENDING ->
    with_lock (es_dir s) !! record_name now (ac_uuid a) = None ->
    written = bytes \/ (exists n, written = substring 0 n bytes) ->
    dir_change s label (<[record_name now (ac_uuid a) := written]> (with_lock (es_dir s)))
| dir_removed i access l path rest :
    es_links s !! i = Some l -> ln_delivery l = Dropping path rest ->
    dir_change s (LRemove i access) (delete path (with_lock (es_dir s))).

Lemma recorded_change s label a body :
  (forall b, body = Ok (Some b) ->
    (exists info event, label = LLifecycle a info event /\ lifecycle_body gmtime host_id info event = Ok (Some b))
    \/ (exists at_ms info id job, label = LStoppedJob a at_ms info id job
          /\ stopped_job_body gmtime host_id info id job at_ms = Ok (Some b))) ->
  dir_change s label (enqueue_body host_id a body (es_dir s)).1.
Proof.
  intros Hb. destruct (enqueue_body host_id a body (es_dir s)) as [dir' r] eqn:E. cbn [fst].
  apply enqueue_body_cases in E as [->|(b & -> & E)]; [constructor|].
  apply enqueue_in_cases in E as [[-> _]|[[-> _]|(now & bytes & written & paths & _ & Hv & Hl & Hp & Hr & Hn & -> & Hw)]];
    [constructor..|].
  eapply dir_recorded; eauto. destruct Hw as [|[_ ?]]; auto.
Qed.

Ltac same_dir := unfold with_link; cbn [es_dir fst]; first [apply dir_same | apply dir_locked].

Lemma deliver_begin_dir s i l access label :
  dir_change s label (es_dir (deliver_begin host_id s i l access)).
Proof.
  unfold deliver_begin. under_lock; [same_dir|].
  destruct (pending_paths _) as [[|]|]; same_dir.
Qed.

Lemma deliver_read_dir s i l path rest access file now label :
  dir_change s label (es_dir (deliver_read host_id s i l path rest access file now).1).
Proof.
  unfold deliver_read. under_lock; [same_dir|].
  destruct (let! _ := file in _) as [p|]; [|same_dir]. destruct now as [now|]; [|same_dir].
  destruct (expired _ _); [same_dir|]. destruct (stamped _ _ _); same_dir.
Qed.

Lemma deliver_remove_dir s i l path rest access :
  es_links s !! i = Some l -> ln_delivery l = Dropping path rest ->
  dir_change s (LRemove i access) (es_dir (deliver_remove host_id s i l path rest access)).
Proof.
  intros Hl Hd. unfold deliver_remove. under_lock; [same_dir|].
  destruct (remove_file path _) as [dir' r] eqn:E. apply remove_file_cases in E as [->|[-> ->]].
  - destruct r; same_dir.
  - by eapply dir_removed.
Qed.

Lemma step_dir s label s' o : events_step s label = Some (s', o) -> dir_change s label (es_dir s').
Proof.
  destruct label as [a info event|a at_ms info id job|i inst gen|i acc|i acc file now|i resp info|i acc]; cbn [EventsHost.events_step].
  - intros [= <- <-]. apply recorded_change. intros b Hb. left. eauto.
  - intros [= <- <-]. apply recorded_change. intros b Hb. right. by exists at_ms, info, id, job.
  - intros [= <- <-]. same_dir.
  - destruct (es_links s !! i) as [l|]; [|done]. cbn [mbind option_bind].
    destruct (ln_delivery l) as [|[]| |]; try done; intros [= <- <-]; apply deliver_begin_dir.
  - destruct (es_links s !! i) as [l|]; [|done]. cbn [mbind option_bind].
    destruct (ln_delivery l) as [|[|path rest]| |]; try done. intros [= H].
    pose proof (deliver_read_dir s i l path rest acc file now (LRead i acc file now)) as Hd. by rewrite H in Hd.
  - destruct (es_links s !! i) as [l|]; [|done]. cbn [mbind option_bind].
    destruct (ln_delivery l) as [| | |path body rest]; try done. destruct (settled _ _ _); intros [= <- <-]; same_dir.
  - destruct (es_links s !! i) as [l|] eqn:El; [|done]. cbn [mbind option_bind].
    destruct (ln_delivery l) as [| |path rest|] eqn:Ed; try done. intros [= <- <-]. by apply deliver_remove_dir.
Qed.

Lemma events_run_ind (I : list EventsLabel -> list EventsObs -> EventsState -> Prop) :
  (forall ls obs s label s' o, I ls obs s -> events_step s label = Some (s', o) -> I (ls ++ [label]) (obs ++ o) s') ->
  forall labels ls obs s s' o, I ls obs s -> events_run s labels = Some (s', o) -> I (ls ++ labels) (obs ++ o) s'.
Proof.
  intros Hstep. induction labels as [|label labels IH]; intros ls obs s s' o HI; cbn [EventsHost.events_run].
  - intros [= <- <-]. by rewrite !app_nil_r.
  - destruct (events_step s label) as [[s1 o1]|] eqn:E; [|done]. cbn [mbind option_bind fst snd].
    destruct (events_run s1 labels) as [[s2 o2]|] eqn:Er; [|done]. intros [= <- <-]. cbn [fst snd].
    rewrite (app_assoc obs), (cons_middle label ls labels), app_assoc. by eapply IH; [eapply Hstep|].
Qed.

(** * Leaving the queue *)

Definition start : EventsState := mkEventsState ∅ ∅.

(** The record tells of an instance, a mode or directories that are not those of the session
    as it is now. *)
Definition of_another_scope (view : SessionView) (body : Json) : Prop :=
  sv_yolo view = false
  /\ (get body "session_started_at" <> Some (JInt (sv_started_at view))
      \/ get body "session_process_id" <> Some (JInt (sv_process_id view))
      \/ get body "session_restart_count" <> Some (JInt (sv_restart_count view))
      \/ get body "session_permission_mode" <> Some (JStr (mode_as_str (sv_permission_mode view)))
      \/ (forall cwd, utf8_path (sv_cwd view) EmptyString = Ok cwd ->
            get body "session_cwd" <> Some (JStr cwd))
      \/ (forall paths, utf8_paths (sv_permitted_directories view) EmptyString = Ok paths ->
            get body "session_permitted_directories" <> Some (JArr (map JStr paths)))).

Lemma as_u64_Some v n : as_u64 v = Some n -> v = JInt n.
Proof. destruct v; try done. cbn. destruct (_ && _); [by intros [= ->]|done]. Qed.

Lemma same_scope_false view body : same_scope view body = Some false -> of_another_scope view body.
Proof.
  unfold same_scope. destruct (sv_yolo view) eqn:Ey; [done|]. cbn [orb]. destruct (negb _); [done|].
  intros (v1 & H1 & (started & E1%as_u64_Some & H)%bind_Some)%bind_Some.
  apply bind_Some in H as (v2 & H2 & (process & E2%as_u64_Some & H)%bind_Some).
  apply bind_Some in H as (v3 & H3 & (restart & E3%as_u64_Some & H)%bind_Some).
  apply bind_Some in H as (v4 & H4 & (mode & E4 & H)%bind_Some).
  apply bind_Some in H as (v5 & H5 & (cwd & E5 & H)%bind_Some).
  apply bind_Some in H as (v6 & H6 & (dirs & E6 & H)%bind_Some).
  destruct v4, v5, v6; try done. injection E4 as ->. injection E5 as ->. injection E6 as ->.
  destruct (_ || _); [done|]. split; [done|]. rewrite H1, H2, H3, H4, H5, H6. subst.
  destruct (_ && _) eqn:Ea; cbn [negb] in H.
  - right. right. right. right. right. intros paths Hp. rewrite Hp in H. injection H as H.
    apply bool_decide_eq_false in H. by intros [= ->].
  - rewrite !andb_false_iff, !Z.eqb_neq, String.eqb_neq, bool_decide_eq_false in Ea.
    destruct Ea as [[[[Ea|Ea]|Ea]|Ea]|Ea].
    + left. congruence.
    + right; left. congruence.
    + right; right; left. congruence.
    + right; right; right; left. congruence.
    + right; right; right; right; left. intros c Hc. congruence.
Qed.

(** The gateway took the record, refused it for good, or does not know the session it was
    about any more. *)
Definition answered (info : string -> result string SessionView) (body : Json) (r : GatewayResponse) : Prop :=
  (200 <= gr_status r <= 299 /\ exists bytes j, gr_body r = Some bytes /\ from_slice bytes = Some j
     /\ get (value_of j) "accepted" = Some (JBool true))
  \/ gr_status r = 400
  \/ (gr_status r = 409 /\ exists id view, get body "session_id" = Some (JStr id) /\ info id = Ok view
        /\ sv_host_id view = host_id /\ sv_session_id view = id /\ of_another_scope view body).

Lemma settled_spec info body response :
  settled info body response = true -> exists r, response = Some r /\ answered info body r.
Proof.
  unfold EventsHost.settled. destruct response as [r|]; [|done]. intros H. exists r. split; [done|].
  destruct (Z.eqb_spec (gr_status r) 409) as [E|E].
  - right. right. split; [done|].
    destruct (get body "session_id") as [[| | | |id| |]|]; try done. cbn [mbind option_bind as_str] in H.
    destruct (info id) as [view|] eqn:Ei; [|done]. rewrite !andb_true_iff, !String.eqb_eq, bool_decide_eq_true in H.
    exists id, view. pose proof (same_scope_false view body). tauto.
  - destruct (in_range 200 299 (gr_status r)) eqn:Er.
    + left. split; [by apply in_range_true|]. destruct (gr_body r) as [bytes|]; [|done]. cbn [mbind option_bind] in H.
      destruct (from_slice bytes) as [j|] eqn:Ej; [|done]. cbn [mbind option_bind is_some_and] in H.
      apply bool_decide_eq_true in H. eauto.
    + right. left. by apply Z.eqb_eq.
Qed.

(** Why the record may be removed. *)
Definition justified (obs : list EventsObs) (path : string) : Prop :=
  (exists i body r info, OSettled i path body (Some r) info ∈ obs /\ answered info body r)
  \/ (exists i created now, OExpired i path created now ∈ obs /\ 43200000 <= now - created).

Lemma justified_app obs o path : justified obs path -> justified (obs ++ o) path.
Proof.
  intros [(i & body & r & info & H & Ha)|(i & c & n & H & He)]; [left|right].
  - exists i, body, r, info. split; [set_solver|done].
  - exists i, c, n. split; [set_solver|done].
Qed.

Definition deliveries_ok (obs : list EventsObs) (s : EventsState) : Prop :=
  forall i l path rest, es_links s !! i = Some l -> ln_delivery l = Dropping path rest -> justified obs path.

Lemma deliveries_app obs o s s' :
  deliveries_ok obs s ->
  (forall i l path rest, es_links s' !! i = Some l -> ln_delivery l = Dropping path rest ->
     (exists l', es_links s !! i = Some l' /\ ln_delivery l' = Dropping path rest) \/ justified (obs ++ o) path) ->
  deliveries_ok (obs ++ o) s'.
Proof.
  intros Hok Hs i l path rest Hl Hd. destruct (Hs i l path rest Hl Hd) as [(l' & Hl' & Hd')|Hj]; [|done].
  by eapply justified_app, Hok.
Qed.

(** Only the link of a step changes, to a delivery that is not about to drop or may do so. *)
Lemma deliveries_link obs o s s' i l' :
  deliveries_ok obs s -> es_links s' = <[i := l']> (es_links s) ->
  (forall path rest, ln_delivery l' = Dropping path rest -> justified (obs ++ o) path) ->
  deliveries_ok (obs ++ o) s'.
Proof.
  intros Hok Hl Hj. apply deliveries_app with s; [done|]. intros j l path rest. rewrite Hl.
  intros [[-> ->]|[Hne Hlj]]%lookup_insert_Some Hd; [by right; eapply Hj|left; eauto].
Qed.

Lemma deliveries_same obs o s s' : deliveries_ok obs s -> es_links s' = es_links s -> deliveries_ok (obs ++ o) s'.
Proof. intros Hok Hl. apply deliveries_app with s; [done|]. intros j l path rest. rewrite Hl. left. eauto. Qed.

Lemma expired_spec now created : expired now created = true -> PENDING_LIFETIME_MS <= now - created.
Proof. unfold expired, PENDING_LIFETIME_MS. rewrite Z.leb_le. lia. Qed.

Lemma read_deliveries obs s i l path rest access file now :
  deliveries_ok obs s ->
  let out := deliver_read host_id s i l path rest access file now in deliveries_ok (obs ++ out.2) out.1.
Proof.
  intros Hok out. subst out. unfold deliver_read, with_link. under_lock.
  { by eapply deliveries_link with (s := s). }
  destruct (let! _ := file in _) as [p|]; cbn [fst snd].
  2: by eapply deliveries_link with (s := s).
  destruct now as [now|]; [|by eapply deliveries_link with (s := s)].
  destruct (expired now (pn_created_ms p)) eqn:Ee; cbn [fst snd].
  - eapply deliveries_link with (s := s); [done..|]. intros path' rest' [= <- <-]. right.
    exists i, (pn_created_ms p), now. split; [set_solver|by apply expired_spec].
  - destruct (stamped _ _ _); cbn [fst snd]; by eapply deliveries_link with (s := s).
Qed.

Lemma step_deliveries obs s label s' o :
  deliveries_ok obs s -> events_step s label = Some (s', o) -> deliveries_ok (obs ++ o) s'.
Proof.
  intros Hok.
  destruct label as [a info event|a at_ms info id job|i inst gen|i acc|i acc file now|i resp info|i acc]; cbn [EventsHost.events_step].
  - intros [= <- <-]. by eapply deliveries_same.
  - intros [= <- <-]. by eapply deliveries_same.
  - intros [= <- <-]. by eapply deliveries_link with (s := s).
  - destruct (es_links s !! i) as [l|]; [|done]. cbn [mbind option_bind]. intros H.
    assert (s' = deliver_begin host_id s i (with_delivery l Idle) acc) as ->
      by (destruct (ln_delivery l) as [|[]| |]; try done; by injection H as <-).
    unfold deliver_begin. under_lock; [by eapply deliveries_same|].
    destruct (pending_paths _) as [[|p ps]|]; [by eapply deliveries_same| |by eapply deliveries_same].
    by eapply deliveries_link with (s := s).
  - destruct (es_links s !! i) as [l|]; [|done]. cbn [mbind option_bind].
    destruct (ln_delivery l) as [|[|path rest]| |]; try done. intros [= H].
    pose proof (read_deliveries obs s i l path rest acc file now Hok) as Hd. by rewrite H in Hd.
  - destruct (es_links s !! i) as [l|]; [|done]. cbn [mbind option_bind].
    destruct (ln_delivery l) as [| | |path body rest]; try done.
    destruct (settled info body resp) eqn:Es; intros [= <- <-]; [|by eapply deliveries_link with (s := s)].
    eapply deliveries_link with (s := s); [done..|]. intros path' rest' [= <- <-]. left.
    apply settled_spec in Es as (r & -> & Ha). exists i, body, r, info. split; [set_solver|done].
  - destruct (es_links s !! i) as [l|]; [|done]. cbn [mbind option_bind].
    destruct (ln_delivery l) as [| |path rest|]; try done. intros [= <- <-].
    unfold deliver_remove, with_link. under_lock; [by eapply deliveries_link with (s := s)|].
    destruct (remove_file _ _) as [dir [u|e]]; by eapply deliveries_link with (s := s).
Qed.

(** C21: a record of the queue is still there, unchanged, or the gateway answered for it (it
    was accepted, refused as a bad request, or its session is another one by now), or it was
    half a day old: whatever is recorded and delivered in between, by how many processes, with
    whatever failures. *)
Theorem record_leaves_settled labels labels' s1 s2 o1 o2 path bytes :
  events_run start labels = Some (s1, o1) -> events_run s1 labels' = Some (s2, o2) ->
  is_record path = true -> es_dir s1 !! path = Some bytes ->
  es_dir s2 !! path = Some bytes \/ justified (o1 ++ o2) path.
Proof.
  intros H1 H2 Hp Hb.
  assert (deliveries_ok o1 s1) as Hok.
  { apply (events_run_ind (fun _ obs s => deliveries_ok obs s)) with (ls := []) (obs := []) (o := o1) in H1; [done| |].
    - intros ??????. apply step_deliveries.
    - intros i l q rest Hl. cbn in Hl. by rewrite lookup_empty in Hl. }
  apply (events_run_ind (fun _ obs s => deliveries_ok obs s
      /\ (es_dir s !! path = Some bytes \/ justified obs path))) with (ls := []) (obs := o1) (o := o2) in H2; [tauto| |auto].
  intros _ obs s label s' o [Hd Hs] Hstep. split; [by eapply step_deliveries|].
  destruct Hs as [Hs|Hj]; [|right; by apply justified_app]. apply step_dir in Hstep.
  inversion Hstep as [| |? a now b bs written paths _ _ _ _ _ Hnew _|i acc l q rest Hl Hq]; subst.
  - auto.
  - left. by rewrite with_lock_record.
  - left. rewrite lookup_insert_ne; [by rewrite with_lock_record|]. intros <-. by rewrite with_lock_record, Hs in Hnew.
  - destruct (decide (path = q)) as [<-|Hne].
    + right. apply justified_app. by eapply Hd.
    + left. by rewrite lookup_delete_ne, with_lock_record.
Qed.

(** * What is posted *)

Definition shown (view : SessionView) : Prop :=
  sv_yolo view = false /\ sv_permission_mode view <> Yolo /\ sv_started_at view <> 0 /\ sv_process_id view <> 0
  /\ sv_permitted_directories view <> [] /\ zlen (sv_permitted_directories view) <= 32.

Lemma transition_body_shown view name state job at_ms b :
  transition_body gmtime view name state job at_ms = Ok (Some b) ->
  shown view /\ exists bytes, to_vec b = Some bytes /\ str_len bytes <= 3500.
Proof.
  unfold transition_body. match goal with |- (if ?c then _ else _) = _ -> _ => destruct c eqn:E; [done|] end.
  rewrite !orb_false_iff, !negb_false_iff, !Z.eqb_neq, Z.ltb_ge in E.
  destruct E as [[[[[[Hy Hm] Hs] Hp] _] Hd] Hl].
  intros (cwd & _ & (dirs & _ & H)%bind_Ok)%bind_Ok. destruct (_ || _); [done|].
  apply bind_Ok in H as (time & _ & H). apply bind_Ok in H as (bytes & Hb%ok_or_Ok & H).
  destruct (Z.leb_spec (str_len bytes) 3500); [|done]. injection H as <-. split; [|by exists bytes].
  unfold shown. split_and!; try done; [by destruct (sv_permission_mode view)|by destruct (sv_permitted_directories view)].
Qed.

(** The facts a run recorded: about a session of this host in the state the event left it in,
    or about a stopped job of an active session. *)
Definition authentic (labels : list EventsLabel) (b : Json) : Prop :=
  exists view name state job at_ms, shown view /\ sv_host_id view = host_id
    /\ transition_body gmtime view name state job at_ms = Ok (Some b)
    /\ ((exists a info event id, LLifecycle a info event ∈ labels /\ ev_session_id event = Some id
           /\ info id = Ok view /\ expected_status event = Some (sv_status view)
           /\ name = "session.state.changed"%string /\ state = sv_status view /\ job = None
           /\ at_ms = ev_timestamp_ms event)
        \/ (exists a info id job_id, LStoppedJob a (Some at_ms) info id job_id ∈ labels /\ info id = Ok view
           /\ sv_status view = "active"%string /\ name = "job.state.changed"%string
           /\ state = "stopped"%string /\ job = Some (uuid_to_string job_id))).

Lemma authentic_lifecycle labels a info event b :
  LLifecycle a info event ∈ labels -> lifecycle_body gmtime host_id info event = Ok (Some b) -> authentic labels b.
Proof.
  intros Hl. unfold lifecycle_body. destruct (expected_status event) as [expected|] eqn:Ee; [|done].
  destruct (ev_session_id event) as [id|] eqn:Ei; [|done]. intros (view & Hv & H)%bind_Ok.
  destruct (negb _ || negb _) eqn:E; [done|]. rewrite orb_false_iff, !negb_false_iff, !String.eqb_eq in E.
  destruct E as [Hh Hs]. exists view, "session.state.changed"%string, (sv_status view), None, (ev_timestamp_ms event).
  split; [by eapply transition_body_shown|]. split; [done|]. split; [done|]. left. exists a, info, event, id.
  by rewrite Hs.
Qed.

Lemma authentic_job labels a at_ms info id job_id b :
  LStoppedJob a at_ms info id job_id ∈ labels ->
  stopped_job_body gmtime host_id info id job_id at_ms = Ok (Some b) -> authentic labels b.
Proof.
  intros Hl. unfold stopped_job_body. intros (view & Hv & H)%bind_Ok.
  destruct (negb _) eqn:E; [done|]. rewrite negb_false_iff, String.eqb_eq in E.
  apply bind_Ok in H as (now & ->%ok_or_Ok & (body & Hb & H)%bind_Ok).
  destruct (String.eqb_spec (sv_host_id view) host_id) as [Hh|]; [|done]. injection H as ->.
  exists view, "job.state.changed"%string, "stopped"%string, (Some (uuid_to_string job_id)), now.
  split; [by eapply transition_body_shown|]. split; [done|]. split; [done|]. right. by exists a, info, id, job_id.
Qed.

Lemma authentic_app labels labels' b : authentic labels b -> authentic (labels ++ labels') b.
Proof.
  intros (view & name & state & job & at_ms & Hs & Hh & Ht & [(a & info & event & id & Hl & H)|(a & info & id & j & Hl & H)]);
    exists view, name, state, job, at_ms; (split_and!; [done..|]); [left|right].
  - exists a, info, event, id. split; [set_solver|done].
  - exists a, info, id, j. split; [set_solver|done].
Qed.

(** serde_json reads what it wrote, and no document is a strict prefix of an object's text. *)
Class QueueCodec := {
  queue_round_trip : forall p bytes,
    to_vec (pending_json p) = Some bytes -> from_slice bytes = Some (pending_json p);
  queue_torn : forall p bytes n,
    to_vec (pending_json p) = Some bytes -> (n < String.length bytes)%nat -> from_slice (substring 0 n bytes) = None;
}.
Context `{QC : !QueueCodec}.

(** A file that was written for a fact, whole or torn. *)
Definition written_for (labels : list EventsLabel) (bytes : string) : Prop :=
  exists b now full, authentic labels b /\ to_vec (pending_json (mkPending now b)) = Some full
    /\ (bytes = full \/ exists n, bytes = substring 0 n full).

Lemma read_written labels bytes j p :
  written_for labels bytes -> from_slice bytes = Some j -> pending_of_json j = Some p ->
  exists b, authentic labels b /\ pn_body p = value_of b.
Proof.
  intros (b & now & full & Ha & Hfull & Hb) Hj Hp.
  assert (bytes = full) as ->.
  { destruct Hb as [|[n ->]]; [done|]. destruct (Nat.lt_ge_cases n (String.length full)) as [Hn|Hn].
    - by rewrite (queue_torn _ _ _ Hfull Hn) in Hj.
    - by apply substring_long. }
  rewrite (queue_round_trip _ _ Hfull) in Hj. injection Hj as <-. exists b. split; [done|].
  cbn in Hp. destruct ((0 <=? now) && (now <=? U64_MAX)); [|done]. by injection Hp as <-.
Qed.

Lemma written_app labels labels' bytes : written_for labels bytes -> written_for (labels ++ labels') bytes.
Proof. intros (b & now & full & Ha & H). exists b, now, full. split; [by apply authentic_app|done]. Qed.

Definition upcoming (d : Delivery) : list string :=
  match d with
  | Next paths => paths
  | Posted _ _ rest | Dropping _ rest => rest
  | Idle => []
  end.

Definition connected (labels : list EventsLabel) (i : nat) (l : Link) : Prop :=
  LConnect i (ln_instance l) (ln_generation l) ∈ labels
  /\ Forall (fun path => is_record path = true) (upcoming (ln_delivery l)).

Definition posted_ok (labels : list EventsLabel) (obs : list EventsObs) : Prop :=
  forall i path body, OPosted i path body ∈ obs ->
    exists inst gen b, LConnect i inst gen ∈ labels /\ authentic labels b
      /\ stamped gen inst (value_of b) = Some body.

Definition queue_inv (labels : list EventsLabel) (obs : list EventsObs) (s : EventsState) : Prop :=
  (forall name bytes, es_dir s !! name = Some bytes -> name = lock_file \/ written_for labels bytes)
  /\ (forall i l, es_links s !! i = Some l -> connected labels i l)
  /\ posted_ok labels obs.

Lemma connected_app labels labels' i l : connected labels i l -> connected (labels ++ labels') i l.
Proof. intros [H1 H2]. split; [set_solver|done]. Qed.

Lemma connected_set labels i l d :
  connected labels i l -> (forall path, path ∈ upcoming d -> path ∈ upcoming (ln_delivery l)) ->
  connected labels i (with_delivery l d).
Proof. intros [H1 H2] Hd. split; [done|]. rewrite Forall_forall in *. cbn [with_delivery ln_delivery]. auto. Qed.

Lemma posted_app labels obs labels' o :
  posted_ok labels obs -> posted_ok (labels ++ labels') o -> posted_ok (labels ++ labels') (obs ++ o).
Proof.
  intros H1 H2 i path body [Ho|Ho]%elem_of_app; [|by apply (H2 i path body)].
  destruct (H1 i path body Ho) as (inst & gen & b & Hc & Ha & Hs). exists inst, gen, b.
  split; [set_solver|]. split; [by apply authentic_app|done].
Qed.

Lemma posted_none labels o : (forall i path body, OPosted i path body ∉ o) -> posted_ok labels o.
Proof. intros H i path body Ho. by destruct (H i path body). Qed.

Lemma change_written labels obs s label dir :
  queue_inv labels obs s -> dir_change s label dir ->
  forall name bytes, dir !! name = Some bytes -> name = lock_file \/ written_for (labels ++ [label]) bytes.
Proof.
  intros (Hd & _ & _) Hc name bytes.
  assert (forall name bytes, with_lock (es_dir s) !! name = Some bytes ->
            name = lock_file \/ written_for (labels ++ [label]) bytes) as Hlock.
  { intros n b. unfold with_lock. destruct (is_some _).
    - intros [H|H]%Hd; [by left|right; by apply written_app].
    - intros [[<- _]|[_ [H|H]%Hd]]%lookup_insert_Some; [by left|by left|right; by apply written_app]. }
  destruct Hc as [label|label|label a now b full written paths Hb Hfull _ _ _ _ Hw|i acc l path rest _ _].
  - intros [H|H]%Hd; [by left|right; by apply written_app].
  - apply Hlock.
  - intros [[_ <-]|[_ H]]%lookup_insert_Some; [right|by eapply Hlock]. exists b, now, full. split_and!; try done.
    destruct Hb as [(info & event & -> & Hb)|(at_ms & info & id & job & -> & Hb)];
      [eapply authentic_lifecycle|eapply authentic_job]; try exact Hb; apply elem_of_app; right; left.
  - intros [_ H]%lookup_delete_Some. by eapply Hlock.
Qed.

(** The links and the posts after a step that changes at most one link. *)
Definition links_ok (labels : list EventsLabel) (s : EventsState) (o : list EventsObs) : Prop :=
  (forall i l, es_links s !! i = Some l -> connected labels i l) /\ posted_ok labels o.

Lemma links_set labels s i l s' :
  links_ok labels s [] -> es_links s' = <[i := l]> (es_links s) -> connected labels i l -> links_ok labels s' [].
Proof.
  intros [Hl Hp] E Hc. split; [|done]. intros j m. rewrite E.
  intros [[<- <-]|[_ H]]%lookup_insert_Some; [done|by apply Hl].
Qed.

Lemma links_posted labels s o i path body :
  links_ok labels s [] ->
  (exists inst gen b, LConnect i inst gen ∈ labels /\ authentic labels b /\ stamped gen inst (value_of b) = Some body) ->
  o = [OPosted i path body] -> links_ok labels s o.
Proof.
  intros [Hl _] Hb ->. split; [done|]. by intros i' path' body' [= -> -> ->]%list_elem_of_singleton.
Qed.

Lemma links_quiet labels s o :
  links_ok labels s [] -> (forall i path body, OPosted i path body ∉ o) -> links_ok labels s o.
Proof. intros [Hl _] Ho. split; [done|]. by apply posted_none. Qed.

Lemma read_authentic labels s dir path p :
  (forall name bytes, es_dir s !! name = Some bytes -> name = lock_file \/ written_for labels bytes) ->
  is_record path = true -> dir = with_lock (es_dir s) -> read_record path dir = Ok p ->
  exists b, authentic labels b /\ pn_body p = value_of b.
Proof.
  intros Hd Hpath -> Er. unfold read_record in Er.
  apply bind_Ok in Er as (bytes & Hbytes%ok_or_Ok & ([] & _ & Hj%ok_or_Ok)%bind_Ok).
  destruct (from_slice bytes) as [j|] eqn:Ej; [|done]. cbn [mbind option_bind] in Hj.
  rewrite with_lock_record in Hbytes by done.
  destruct (Hd _ _ Hbytes) as [->|Hwr]; [done|]. by eapply read_written.
Qed.

Lemma read_links labels s i l path rest access file now :
  (forall name bytes, es_dir s !! name = Some bytes -> name = lock_file \/ written_for labels bytes) ->
  links_ok labels s [] -> es_links s !! i = Some l -> ln_delivery l = Next (path :: rest) ->
  let out := deliver_read host_id s i l path rest access file now in links_ok labels out.1 out.2.
Proof.
  intros Hd Hok El Ed out. subst out. pose proof (proj1 Hok _ _ El) as Hc.
  pose proof (proj2 Hc) as Hrec. rewrite Ed in Hrec. apply Forall_cons in Hrec as [Hpath _].
  assert (forall d dir, (forall q, q ∈ upcoming d -> q ∈ rest) ->
    links_ok labels (with_link (mkEventsState dir (es_links s)) i l d) []) as Hset.
  { intros d dir Hq. eapply links_set; [exact Hok|done|]. eapply connected_set; [exact Hc|].
    rewrite Ed. intros q Hin%Hq. by right. }
  unfold deliver_read. under_lock; [apply Hset; set_solver|].
  destruct (let! _ := file in read_record path (with_lock (es_dir s))) as [p|] eqn:Er; cbn [fst snd];
    [|apply Hset; set_solver].
  destruct now as [now|]; [|apply Hset; set_solver].
  destruct (expired _ _); cbn [fst snd]; [apply links_quiet; [apply Hset|]; set_solver|].
  destruct (stamped _ _ _) as [body|] eqn:Es; cbn [fst snd]; [|apply Hset; set_solver].
  eapply links_posted; [apply Hset; set_solver| |done].
  apply bind_Ok in Er as (u & _ & Er).
  destruct (read_authentic _ _ _ _ _ Hd Hpath eq_refl Er) as (b & Hb & Hpb). rewrite Hpb in Es.
  exists (ln_instance l), (ln_generation l), b. split; [apply Hc|done].
Qed.

Lemma begin_links labels s i l access :
  links_ok labels s [] -> connected labels i l -> links_ok labels (deliver_begin host_id s i l access) [].
Proof.
  intros Hok Hc. unfold deliver_begin. under_lock; [exact Hok|].
  destruct (pending_paths _) as [[|p ps]|] eqn:Ep; [exact Hok| |exact Hok].
  eapply links_set; [exact Hok|done|]. split; [apply Hc|].
  apply Forall_forall. intros path Hpath%batch_elem. by apply (pending_paths_elem _ _ path Ep) in Hpath as [? _].
Qed.

Lemma remove_links labels s i l path rest access :
  links_ok labels s [] -> connected labels i l -> ln_delivery l = Dropping path rest ->
  links_ok labels (deliver_remove host_id s i l path rest access) [].
Proof.
  intros Hok Hc Ed. unfold deliver_remove, with_link.
  under_lock; [|destruct (remove_file _ _) as [dir [u|e]]]; (eapply links_set; [exact Hok|done|]);
    (eapply connected_set; [exact Hc|rewrite Ed; set_solver]).
Qed.

Lemma step_links labels obs s label s' o :
  queue_inv labels obs s -> events_step s label = Some (s', o) -> links_ok (labels ++ [label]) s' o.
Proof.
  intros (Hd & Hl & _).
  assert (links_ok (labels ++ [label]) s []) as Hok.
  { split; [intros; by apply connected_app, Hl|apply posted_none; set_solver]. }
  assert (forall name bytes, es_dir s !! name = Some bytes -> name = lock_file \/ written_for (labels ++ [label]) bytes)
    as Hd' by (intros n b [|]%Hd; [by left|right; by apply written_app]).
  destruct label as [a info event|a at_ms info id job|i inst gen|i acc|i acc file now|i resp info|i acc];
    cbn [EventsHost.events_step].
  - intros [= <- <-]. exact Hok.
  - intros [= <- <-]. exact Hok.
  - intros [= <- <-]. eapply links_set; [exact Hok|done|]. split; [apply elem_of_app; right; left|constructor].
  - destruct (es_links s !! i) as [l|] eqn:El; [|done]. cbn [mbind option_bind]. intros Hstep.
    assert (s' = deliver_begin host_id s i (with_delivery l Idle) acc /\ o = []) as [-> ->]
      by (destruct (ln_delivery l) as [|[]| |]; try done; by injection Hstep as <- <-).
    apply begin_links; [exact Hok|]. split; [apply (proj1 Hok _ _ El)|constructor].
  - destruct (es_links s !! i) as [l|] eqn:El; [|done]. cbn [mbind option_bind].
    destruct (ln_delivery l) as [|[|path rest]| |] eqn:Ed; try done. intros [= Hstep].
    pose proof (read_links _ s i l path rest acc file now Hd' Hok El Ed) as Hr. by rewrite Hstep in Hr.
  - destruct (es_links s !! i) as [l|] eqn:El; [|done]. cbn [mbind option_bind].
    destruct (ln_delivery l) as [| | |path body rest] eqn:Ed; try done.
    destruct (settled info body resp); intros [= <- <-]; (apply links_quiet; [|set_solver]);
      (eapply links_set; [exact Hok|done|]); (eapply connected_set; [by apply (proj1 Hok)|by rewrite Ed]).
  - destruct (es_links s !! i) as [l|] eqn:El; [|done]. cbn [mbind option_bind].
    destruct (ln_delivery l) as [| |path rest|] eqn:Ed; try done. intros [= <- <-].
    apply remove_links; [exact Hok|by apply (proj1 Hok)|done].
Qed.

(** Whatever is posted, in any run from an empty queue, is a fact of the run about a
    session of this host that is not yolo, in the state the event left it in, or about a stopped
    job of an active session, with the identity of a link that was connected and nothing else
    added; torn writes post nothing. *)
Theorem posted_authentic labels s o i path body :
  events_run start labels = Some (s, o) -> OPosted i path body ∈ o ->
  exists inst gen b, LConnect i inst gen ∈ labels /\ authentic labels b
    /\ stamped gen inst (value_of b) = Some body.
Proof.
  intros Hrun. apply (events_run_ind queue_inv) with (ls := []) (obs := []) in Hrun.
  - cbn [app] in Hrun. apply (proj2 (proj2 Hrun)).
  - intros ls obs s0 label s' o' Hinv Hstep. pose proof (step_links _ _ _ _ _ _ Hinv Hstep) as [Hl Hp].
    split; [by eapply change_written, step_dir|]. split; [exact Hl|]. apply posted_app; [apply Hinv|exact Hp].
  - split_and!; [intros ? ? H; cbn in H; by rewrite lookup_empty in H..|].
    apply posted_none. set_solver.
Qed.
End Queue.

(** * Bounds *)

Definition queue_files (dir : QueueDir) : Prop :=
  forall name bytes, dir !! name = Some bytes ->
    name = lock_file \/ (is_record name = true /\ str_len bytes <= MAX_RECORD_BYTES).

(** The records of a directory. *)
Definition records (dir : QueueDir) : nat := size (delete lock_file dir).

Lemma records_with_lock dir : records (with_lock dir) = records dir.
Proof. unfold records, with_lock. destruct (is_some _); [done|]. by rewrite delete_insert_eq. Qed.

Lemma pending_count dir paths :
  queue_files dir -> pending_paths dir = Ok paths -> length paths = records dir.
Proof.
  intros Hf Hp. pose proof Hp as Hp'. unfold pending_paths in Hp. apply bind_Ok in Hp as ([] & _ & Hp). injection Hp as Hp.
  assert (NoDup paths) as Hnd.
  { rewrite <- Hp, sort_strings_perm. apply NoDup_ListNoDup, List.NoDup_filter, NoDup_ListNoDup, NoDup_elements. }
  rewrite <- (size_list_to_set (C := gset string) paths Hnd). unfold records. rewrite <- size_dom. f_equal.
  apply set_eq. intros path. rewrite elem_of_list_to_set, (pending_paths_elem _ _ path Hp'), elem_of_dom, lookup_delete_is_Some.
  split.
  - intros [Hr Hs]. split; [intros <-; by rewrite lock_not_record in Hr|]. destruct (dir !! path); [by eexists|done].
  - intros [Hne [bytes Hb]]. rewrite Hb. split; [|done]. destruct (Hf _ _ Hb) as [->|[? _]]; done.
Qed.

Lemma files_with_lock dir : queue_files dir -> queue_files (with_lock dir).
Proof.
  intros Hf name bytes. unfold with_lock. destruct (is_some _); [apply Hf|].
  intros [[<- _]|[_ H]]%lookup_insert_Some; [by left|by apply Hf].
Qed.

Section Bounds.
Context `{UU : UuidLib} `{SJ : SerdeJson} (gmtime : Z -> option Tm) (host_id : string).

Lemma record_name_is_record ms uuid : is_record (record_name ms uuid) = true.
Proof.
  unfold is_record, record_name. apply andb_true_iff. split.
  - unfold ends_with. rewrite <- !string_app_assoc. by rewrite str_strip_suffix_app.
  - apply negb_true_iff, String.eqb_neq. intros H%(f_equal str_len).
    rewrite !str_len_append in H. pose proof (str_len_nonneg (padded 20 ms)).
    pose proof (str_len_nonneg (uuid_to_string uuid)). change (str_len "-") with 1 in H.
    change (str_len ".json") with 5 in H. lia.
Qed.

Definition bounded (s : EventsState) : Prop :=
  queue_files (es_dir s) /\ Z.of_nat (records (es_dir s)) <= MAX_PENDING.

Lemma change_bounded s label dir :
  bounded s -> dir_change gmtime host_id s label dir -> queue_files dir /\ Z.of_nat (records dir) <= MAX_PENDING.
Proof.
  intros [Hf Hn] Hc. pose proof (files_with_lock _ Hf) as Hf'. pose proof (records_with_lock (es_dir s)) as Hr.
  destruct Hc as [label|label|label a now b full written paths Hb Hfull Hlen Hp Hroom Hnew Hw|i acc l path rest _ _].
  - done.
  - by rewrite Hr.
  - pose proof (pending_count _ _ Hf' Hp) as Hcount. pose proof (record_name_is_record now (ac_uuid a)) as Hrec. split.
    + intros name bytes [[<- <-]|[_ H]]%lookup_insert_Some; [right|by eapply Hf']. split; [done|].
      destruct Hw as [->|[n ->]]; [done|]. pose proof (substring_len n full). lia.
    + unfold records. rewrite delete_insert_ne by (intros E; by rewrite <- E in Hrec).
      rewrite map_size_insert_None by (rewrite lookup_delete_ne; [done|intros E; by rewrite <- E in Hrec]).
      fold (records (with_lock (es_dir s))). rewrite <- Hcount. unfold zlen in Hroom. lia.
  - split; [intros name bytes [_ H]%lookup_delete_Some; by eapply Hf'|].
    unfold records. rewrite delete_delete, map_size_delete. fold (records (with_lock (es_dir s))).
    rewrite Hr. destruct (delete lock_file _ !! path); unfold id; lia.
Qed.

(** The queue of a host holds at most 256 records of at most 16 KiB each, and so never
    more entries than a delivery reads, whatever was recorded, torn and delivered. *)
Theorem queue_bounded labels s o :
  events_run gmtime host_id start labels = Some (s, o) ->
  queue_files (es_dir s) /\ Z.of_nat (records (es_dir s)) <= MAX_PENDING
  /\ exists paths, pending_paths (es_dir s) = Ok paths /\ zlen paths = Z.of_nat (records (es_dir s)).
Proof.
  intros Hrun. assert (bounded s) as [Hf Hn].
  { apply (events_run_ind gmtime host_id (fun _ _ s => bounded s)) with (ls := []) (obs := []) in Hrun; [done| |].
    - intros ls obs s0 label s' o' Hb Hstep. by eapply change_bounded, step_dir.
    - split; [intros ? ? H; cbn in H; by rewrite lookup_empty in H|done]. }
  split; [done|]. split; [done|].
  assert (Z.of_nat (size (es_dir s)) <= MAX_PENDING + 1) as Hsize.
  { unfold records in Hn. rewrite map_size_delete in Hn. destruct (es_dir s !! lock_file); unfold id in Hn; lia. }
  destruct (pending_paths (es_dir s)) as [paths|e] eqn:E.
  - exists paths. split; [done|]. unfold zlen. by rewrite (pending_count _ _ Hf E).
  - unfold pending_paths in E. apply Z.leb_le in Hsize. by rewrite Hsize in E.
Qed.
End Bounds.
