(* ===== verification/EventsHostTurns.v ===== *)
(** * The turns of the records of a queue

    Two records are tried at each call, and the next call goes on after them: every record is
    tried in turn.  A record that cannot be read ends the call, and so the record after it
    waits for ever where the calls begin with the first one. *)

From S2P Require Import Prelude Strings Json Value Upgrade Config Contract EventsHost EventsHostTheorems.

#[local] Open Scope Z_scope.
#[local] Open Scope rust_scope.

(** * Turns *)

Lemma batch_covers (paths : list string) offset i path :
  0 <= offset -> paths !! i = Some path ->
  exists k, (k < length paths)%nat /\ path ∈ batch (offset + 2 * Z.of_nat k) paths.
Proof.
  intros Ho Hi. pose proof (lookup_lt_Some _ _ _ Hi) as Hlt. set (n := zlen paths).
  assert (0 < n) as Hn by (unfold n, zlen; lia). set (d := (Z.of_nat i - offset) mod n).
  pose proof (Z.mod_pos_bound (Z.of_nat i - offset) n Hn) as Hd. fold d in Hd.
  assert ((offset + d) mod n = Z.of_nat i) as Hpos.
  { unfold d. rewrite Z.add_mod_idemp_r by lia. replace (offset + (Z.of_nat i - offset)) with (Z.of_nat i) by lia.
    apply Z.mod_small. unfold n, zlen. lia. }
  exists (Z.to_nat (d / 2)). pose proof (Z.div_mod d 2 ltac:(lia)) as Hdm.
  pose proof (Z.mod_pos_bound d 2 ltac:(lia)) as Hr. rewrite Z2Nat.id by lia.
  split; [unfold n, zlen in *; lia|]. unfold batch. fold n.
  assert (d mod 2 = 0 \/ d mod 2 = 1) as [E|E] by lia.
  - replace (offset + 2 * (d / 2)) with (offset + d) by lia. rewrite Hpos, Nat2Z.id.
    apply elem_of_take. exists 0%nat. rewrite lookup_drop, Nat.add_0_r, lookup_app_l by done.
    split; [done|]. unfold MAX_DELIVERY_BATCH. lia.
  - replace (offset + 2 * (d / 2)) with (offset + d - 1) by lia.
    assert (1 <= d) by lia. assert (2 <= n) by lia.
    apply elem_of_take. exists 1%nat. split; [|unfold MAX_DELIVERY_BATCH, n, zlen in *; lia].
    rewrite lookup_drop. destruct (Z.eq_dec (Z.of_nat i) 0) as [Hz|Hz].
    + assert ((offset + d - 1) mod n = n - 1) as ->.
      { rewrite <- Zminus_mod_idemp_l, Hpos, Hz. symmetry. apply Z.mod_unique with (q := -1); lia. }
      rewrite lookup_app_r by (unfold n, zlen; lia). rewrite <- Hi. f_equal. unfold n, zlen. lia.
    + assert ((offset + d - 1) mod n = Z.of_nat i - 1) as ->.
      { rewrite <- Zminus_mod_idemp_l, Hpos. apply Z.mod_small. unfold n, zlen. lia. }
      rewrite lookup_app_l by lia. rewrite <- Hi. f_equal. lia.
Qed.

Section Turns.
Context `{UU : UuidLib} `{SJ : SerdeJson} (gmtime : Z -> option Tm) (host_id : string).
#[local] Notation events_run := (events_run gmtime host_id).

Lemma events_run_app labels1 labels2 s s1 s2 o1 o2 :
  events_run s labels1 = Some (s1, o1) -> events_run s1 labels2 = Some (s2, o2) ->
  events_run s (labels1 ++ labels2) = Some (s2, o1 ++ o2).
Proof.
  revert s o1. induction labels1 as [|label labels IH]; intros s o1; cbn [EventsHost.events_run app].
  - by intros [= -> <-].
  - destruct (events_step gmtime host_id s label) as [[s' o]|]; [|done]. cbn [mbind option_bind fst snd].
    destruct (events_run s' labels) as [[s'' o'']|] eqn:E; [|done]. intros [= -> <-] H2.
    rewrite (IH s' o'' E H2). cbn. by rewrite app_assoc.
Qed.

Lemma run_step s label s1 s2 o1 o2 labels :
  events_step gmtime host_id s label = Some (s1, o1) -> events_run s1 labels = Some (s2, o2) ->
  events_run s (label :: labels) = Some (s2, o1 ++ o2).
Proof. intros H1 H2. cbn [EventsHost.events_run]. rewrite H1. cbn [mbind option_bind fst snd]. by rewrite H2. Qed.

(** A delivery of [n] records that the gateway does not settle. *)
Definition unanswered (i n : nat) (now : Z) (response : option GatewayResponse)
    (info : string -> result string SessionView) : list EventsLabel :=
  LDeliver i (Ok tt) :: concat (replicate n [LRead i (Ok tt) (Ok tt) (Some now); LAnswer i response info]).

Context (i : nat) (now : Z) (response : option GatewayResponse) (info : string -> result string SessionView)
  (Hhost : exists h, host_id_validate host_id = Ok h)
  (Hunsettled : forall body, settled host_id info body response = false).

(** A record that can be posted by this link. *)
Definition deliverable (dir : QueueDir) (l : Link) (path : string) : Prop :=
  exists p body, read_record path dir = Ok p /\ expired now (pn_created_ms p) = false
    /\ stamped (ln_generation l) (ln_instance l) (pn_body p) = Some body.

Lemma queue_open {T : Type} (operation : QueueDir -> QueueDir * result string T) dir :
  with_queue_lock (queue_access host_id (Ok tt)) operation dir = operation (with_lock dir).
Proof. destruct Hhost as [h Hh]. unfold queue_access, with_queue_lock. by rewrite Hh. Qed.

Lemma read_posts s l path rest p body :
  es_dir s = with_lock (es_dir s) -> es_links s !! i = Some l -> ln_delivery l = Next (path :: rest) ->
  read_record path (es_dir s) = Ok p -> expired now (pn_created_ms p) = false ->
  stamped (ln_generation l) (ln_instance l) (pn_body p) = Some body ->
  events_step gmtime host_id s (LRead i (Ok tt) (Ok tt) (Some now))
    = Some (with_link s i l (Posted path body rest), [OPosted i path body]).
Proof.
  intros Hdir Hl Hd Hr He Hs. cbn [events_step]. rewrite Hl. cbn [mbind option_bind]. rewrite Hd.
  unfold deliver_read. rewrite queue_open, <- Hdir. cbn [bind]. by rewrite Hr, He, Hs.
Qed.

Lemma answer_next s l path body rest :
  es_links s !! i = Some l -> ln_delivery l = Posted path body rest ->
  events_step gmtime host_id s (LAnswer i response info) = Some (with_link s i l (Next rest), []).
Proof. intros Hl Hd. cbn [events_step]. rewrite Hl. cbn [mbind option_bind]. by rewrite Hd, Hunsettled. Qed.

Lemma batch_posted paths : forall s l,
  es_dir s = with_lock (es_dir s) -> es_links s !! i = Some l -> ln_delivery l = Next paths ->
  Forall (deliverable (es_dir s) l) paths ->
  exists s' o l', events_run s (concat (replicate (length paths)
                    [LRead i (Ok tt) (Ok tt) (Some now); LAnswer i response info])) = Some (s', o)
    /\ es_dir s' = es_dir s /\ es_links s' !! i = Some l' /\ ln_delivery l' = Next []
    /\ ln_offset l' = ln_offset l /\ ln_generation l' = ln_generation l /\ ln_instance l' = ln_instance l
    /\ forall path, path ∈ paths -> exists body, OPosted i path body ∈ o.
Proof.
  induction paths as [|path paths IH]; intros s l Hdir Hl Hd Hall; cbn [length replicate concat].
  - exists s, [], l. split_and!; try done. set_solver.
  - apply Forall_cons in Hall as [(p & body & Hr & He & Hs) Hall].
    set (l1 := with_delivery l (Posted path body paths)).
    set (s1 := with_link s i l (Posted path body paths)). set (s2 := with_link s1 i l1 (Next paths)).
    assert (events_run s [LRead i (Ok tt) (Ok tt) (Some now); LAnswer i response info] = Some (s2, [OPosted i path body]))
      as Hone.
    { apply (run_step s _ s1 s2 [OPosted i path body] []); [by apply (read_posts s l path paths p body)|].
      apply (run_step s1 _ s2 s2 [] [] []); [|done]. apply (answer_next s1 l1 path body paths); [apply lookup_insert_eq|done]. }
    destruct (IH s2 (with_delivery l1 (Next paths))) as (s' & o & l' & Hrun & Hdir' & Hl' & Hd' & Ho & Hg & Hi & Hp);
      [done|apply lookup_insert_eq|done|exact Hall|].
    exists s', ([OPosted i path body] ++ o), l'. split; [by eapply events_run_app|]. split_and!; try done.
    intros q [->|Hq]%elem_of_cons; [exists body; set_solver|]. destruct (Hp q Hq) as [b Hb]. exists b. set_solver.
Qed.

Lemma batch_length offset paths : length (batch offset paths) = Nat.min MAX_DELIVERY_BATCH (length paths).
Proof.
  unfold batch. rewrite length_take, length_drop, length_app. destruct paths as [|p ps]; [done|].
  pose proof (Z.mod_pos_bound offset (zlen (p :: ps)) ltac:(unfold zlen; cbn; lia)) as H.
  unfold zlen in *. lia.
Qed.

(** One call: the batch at the counter is posted, and the counter moves on. *)
Lemma call_posted paths s l :
  es_links s !! i = Some l -> upcoming (ln_delivery l) = [] -> (forall p b r, ln_delivery l <> Posted p b r) ->
  (forall p r, ln_delivery l <> Dropping p r) ->
  pending_paths (with_lock (es_dir s)) = Ok paths -> paths <> [] ->
  Forall (deliverable (with_lock (es_dir s)) l) paths ->
  exists s' o l', events_run s (unanswered i (Nat.min MAX_DELIVERY_BATCH (length paths)) now response info) = Some (s', o)
    /\ es_dir s' = with_lock (es_dir s) /\ es_links s' !! i = Some l' /\ ln_delivery l' = Next []
    /\ ln_offset l' = (ln_offset l + 2) mod USIZE /\ ln_generation l' = ln_generation l /\ ln_instance l' = ln_instance l
    /\ forall path, path ∈ batch (ln_offset l) paths -> exists body, OPosted i path body ∈ o.
Proof.
  intros Hl Hd Hnp Hnd Hp Hne Hall.
  set (l1 := mkLink (ln_instance l) (ln_generation l) ((ln_offset l + 2) mod USIZE) (Next (batch (ln_offset l) paths))).
  set (s1 := mkEventsState (with_lock (es_dir s)) (<[i := l1]> (es_links s))).
  assert (events_step gmtime host_id s (LDeliver i (Ok tt)) = Some (s1, [])) as Hstep.
  { cbn [events_step]. rewrite Hl. cbn [mbind option_bind].
    assert (deliver_begin host_id s i (with_delivery l Idle) (Ok tt) = s1) as <-.
    { unfold deliver_begin. rewrite queue_open, Hp. by destruct paths. }
    destruct (ln_delivery l) as [|[]|p r|p b r] eqn:E; try done; [by destruct (Hnd p r)|by destruct (Hnp p b r)]. }
  destruct (batch_posted (batch (ln_offset l) paths) s1 l1) as (s' & o & l' & Hrun & Hdir & Hl' & Hd' & Ho & Hg & Hi & Hpost).
  - symmetry. apply with_lock_idem.
  - apply lookup_insert_eq.
  - done.
  - apply Forall_forall. intros path Hpath%batch_elem. rewrite Forall_forall in Hall. exact (Hall path Hpath).
  - exists s', o, l'. rewrite batch_length in Hrun. split_and!; try done.
    by apply (run_step s _ s1 s' [] o).
Qed.

Lemma calls_posted paths n : forall s l,
  es_links s !! i = Some l -> ln_delivery l = Idle \/ ln_delivery l = Next [] ->
  pending_paths (with_lock (es_dir s)) = Ok paths -> paths <> [] ->
  Forall (deliverable (with_lock (es_dir s)) l) paths ->
  0 <= ln_offset l -> ln_offset l + 2 * Z.of_nat n < USIZE ->
  exists s' o, events_run s (concat (replicate n (unanswered i (Nat.min MAX_DELIVERY_BATCH (length paths)) now response info)))
                 = Some (s', o)
    /\ (n <> 0%nat -> es_dir s' = with_lock (es_dir s))
    /\ forall k path, (k < n)%nat -> path ∈ batch (ln_offset l + 2 * Z.of_nat k) paths -> exists body, OPosted i path body ∈ o.
Proof.
  induction n as [|n IH]; intros s l Hl Hd Hp Hne Hall Ho Hlim; cbn [replicate concat].
  { exists s, []. split; [done|]. split; [done|]. intros k path Hk. lia. }
  destruct (call_posted paths s l) as (s1 & o1 & l1 & Hrun & Hdir & Hl1 & Hd1 & Ho1 & Hg & Hi & Hpost);
    [done|by destruct Hd as [->| ->]|by destruct Hd as [->| ->]|by destruct Hd as [->| ->]|done..|].
  rewrite Z.mod_small in Ho1 by lia.
  destruct (IH s1 l1) as (s2 & o2 & Hrun2 & Hdir2 & Hpost2);
    [done|by right|by rewrite Hdir, with_lock_idem|done| |lia|lia|].
  { rewrite Hdir, with_lock_idem. unfold deliverable in *. by rewrite Hg, Hi. }
  exists s2, (o1 ++ o2). split; [by eapply events_run_app|]. split.
  - intros _. destruct n as [|n]; [cbn in Hrun2; by injection Hrun2 as <- _|].
    rewrite Hdir2 by done. by rewrite Hdir, with_lock_idem.
  - intros [|k] path Hk Hin.
    + rewrite Z.add_0_r in Hin. destruct (Hpost path Hin) as [b Hb]. exists b. set_solver.
    + destruct (Hpost2 k path) as [b Hb]; [lia| |exists b; set_solver].
      by replace (ln_offset l1 + 2 * Z.of_nat k) with (ln_offset l + 2 * Z.of_nat (S k)) by lia.
Qed.

(** No record waits forever behind others: while the gateway settles nothing, a link
    posts every record of the queue within as many calls as there are records. *)
Theorem every_record_tried paths s l :
  es_links s !! i = Some l -> ln_delivery l = Idle \/ ln_delivery l = Next [] ->
  pending_paths (with_lock (es_dir s)) = Ok paths -> paths <> [] ->
  Forall (deliverable (with_lock (es_dir s)) l) paths ->
  0 <= ln_offset l -> ln_offset l + 2 * zlen paths < USIZE ->
  exists s' o, events_run s (concat (replicate (length paths)
                 (unanswered i (Nat.min MAX_DELIVERY_BATCH (length paths)) now response info))) = Some (s', o)
    /\ es_dir s' = with_lock (es_dir s)
    /\ forall path, path ∈ paths -> exists body, OPosted i path body ∈ o.
Proof.
  intros Hl Hd Hp Hne Hall Ho Hlim.
  destruct (calls_posted paths (length paths) s l) as (s' & o & Hrun & Hdir & Hpost); [done..|].
  exists s', o. split; [exact Hrun|]. split; [apply Hdir; by destruct paths|].
  intros path [k Hk]%list_elem_of_lookup. destruct (batch_covers paths (ln_offset l) k path Ho Hk) as (j & Hj & Hin).
  by eapply Hpost.
Qed.
End Turns.

(** * What a torn record does to the next one *)

Section TornRecord.
Context `{UU : UuidLib} `{SJ : SerdeJson} (gmtime : Z -> option Tm) (host_id : string).

Definition records_fact (label : EventsLabel) : bool :=
  match label with
  | LLifecycle _ _ _ | LStoppedJob _ _ _ _ _ => true
  | _ => false
  end.

Context (torn whole : string) (dir : QueueDir)
  (Hpaths : pending_paths (with_lock dir) = Ok [torn; whole])
  (Htorn : exists e, read_record torn (with_lock dir) = Err e).

(** A link that is at the beginning of the two records, or at neither. *)
Definition blocked_link (l : Link) : Prop :=
  ln_offset l mod 2 = 0 /\ (upcoming (ln_delivery l) = [] \/ ln_delivery l = Next [torn; whole])
  /\ (forall p b r, ln_delivery l <> Posted p b r) /\ (forall p r, ln_delivery l <> Dropping p r).

Definition blocked (obs : list EventsObs) (s : EventsState) : Prop :=
  obs = [] /\ with_lock (es_dir s) = with_lock dir /\ map_Forall (fun _ => blocked_link) (es_links s).

Lemma blocked_set s d i l :
  with_lock d = with_lock dir -> map_Forall (fun _ => blocked_link) (es_links s) -> blocked_link l ->
  blocked [] (mkEventsState d (<[i := l]> (es_links s))).
Proof. intros Hd Hl Hb. split; [done|]. split; [done|]. by apply map_Forall_insert_2. Qed.

Lemma blocked_idle l : blocked_link l -> blocked_link (with_delivery l Idle).
Proof. intros (Ho & _). split; [done|]. split; [by left|done]. Qed.

Lemma even_batch offset : offset mod 2 = 0 -> batch offset [torn; whole] = [torn; whole].
Proof. intros H. unfold batch. change (zlen [torn; whole]) with 2. by rewrite H. Qed.

Lemma blocked_begin s i l access :
  blocked [] s -> es_links s !! i = Some l ->
  blocked [] (deliver_begin host_id s i (with_delivery l Idle) access).
Proof.
  intros (_ & Hd & Hl) El. pose proof (map_Forall_lookup_1 _ _ _ _ Hl El) as (Ho & _).
  unfold deliver_begin. under_lock; [done|]. rewrite Hd, Hpaths.
  assert (with_lock (with_lock dir) = with_lock dir) as Hidem by apply with_lock_idem.
  apply (blocked_set s); [exact Hidem|exact Hl|]. cbn [with_delivery ln_offset ln_instance ln_generation].
  split; [cbn [ln_offset]|].
  - rewrite Z.mod_mod_divide by (by exists 9223372036854775808).
    rewrite <- Z.add_mod_idemp_l, Ho by done. done.
  - split; [right; cbn [ln_delivery]; by rewrite even_batch|done].
Qed.

Lemma blocked_read s i l access file now path rest :
  blocked [] s -> es_links s !! i = Some l -> ln_delivery l = Next (path :: rest) ->
  exists s', deliver_read host_id s i l path rest access file now = (s', []) /\ blocked [] s'.
Proof.
  intros (_ & Hd & Hl) El Ed. pose proof (map_Forall_lookup_1 _ _ _ _ Hl El) as Hb.
  assert (path = torn) as ->.
  { destruct Hb as (_ & [H|H] & _); rewrite Ed in H; [done|by injection H]. }
  unfold deliver_read, with_link. under_lock.
  { eexists. split; [done|]. apply (blocked_set s); [done..|by apply blocked_idle]. }
  rewrite Hd. destruct Htorn as [e He]. destruct file as [u|e']; cbn [bind]; [rewrite He|];
    (eexists; split; [done|]; apply (blocked_set s); [apply with_lock_idem|done|by apply blocked_idle]).
Qed.

Lemma blocked_step s label s' o :
  blocked [] s -> records_fact label = false -> events_step gmtime host_id s label = Some (s', o) ->
  o = [] /\ blocked [] s'.
Proof.
  intros Hb Hlab. pose proof Hb as (_ & Hd & Hl).
  destruct label as [a info event|a at_ms info id job|i inst gen|i acc|i acc file now|i resp info|i acc]; try done;
    cbn [events_step].
  - intros [= <- <-]. split; [done|]. apply (blocked_set s); [done..|]. split; [done|]. split; [by left|done].
  - destruct (es_links s !! i) as [l|] eqn:El; [|done]. cbn [mbind option_bind].
    destruct (ln_delivery l) as [|[]| |]; try done; intros [= <- <-]; (split; [done|by apply blocked_begin]).
  - destruct (es_links s !! i) as [l|] eqn:El; [|done]. cbn [mbind option_bind].
    destruct (ln_delivery l) as [|[|path rest]| |] eqn:Ed; try done. intros [= H].
    destruct (blocked_read s i l acc file now path rest Hb El Ed) as (s1 & E & Hb1). rewrite E in H.
    by injection H as <- <-.
  - destruct (es_links s !! i) as [l|] eqn:El; [|done]. cbn [mbind option_bind].
    pose proof (map_Forall_lookup_1 _ _ _ _ Hl El) as (_ & _ & Hnp & _).
    destruct (ln_delivery l) as [| | |path body rest] eqn:Ed; try done. by destruct (Hnp path body rest).
  - destruct (es_links s !! i) as [l|] eqn:El; [|done]. cbn [mbind option_bind].
    pose proof (map_Forall_lookup_1 _ _ _ _ Hl El) as (_ & _ & _ & Hnd).
    destruct (ln_delivery l) as [| |path rest|] eqn:Ed; try done. by destruct (Hnd path rest).
Qed.

(** A queue of two records of which the first was torn: however many links connect, however
    often they deliver and whatever the gateway answers, neither record is ever posted or
    removed, also when they are older than half a day, as long as no new one comes. *)
Theorem torn_record_blocks labels s o :
  events_run gmtime host_id (mkEventsState dir ∅) labels = Some (s, o) ->
  forallb (fun label => negb (records_fact label)) labels = true ->
  o = [] /\ with_lock (es_dir s) = with_lock dir.
Proof.
  assert (blocked [] (mkEventsState dir ∅)) as Hb by (split; [done|]; split; [done|apply map_Forall_empty]).
  revert Hb. generalize (mkEventsState dir ∅) as s0. revert o.
  induction labels as [|label labels IH]; intros o s0 Hb; cbn [events_run forallb].
  - intros [= <- <-] _. split; [done|apply Hb].
  - destruct (events_step gmtime host_id s0 label) as [[s1 o1]|] eqn:E; [|done]. cbn [mbind option_bind fst snd].
    destruct (events_run gmtime host_id s1 labels) as [[s2 o2]|] eqn:Er; [|done]. intros [= <- <-].
    rewrite andb_true_iff, negb_true_iff. intros [Hlab Hlabs].
    destruct (blocked_step s0 label s1 o1 Hb Hlab E) as [-> Hb1].
    destruct (IH o2 s1 Hb1 Er Hlabs) as [-> Hd]. done.
Qed.
End TornRecord.
