(* ===== verification/EventsHostWitness.v ===== *)
(** * Inputs at which the theorems on the event queue apply

    A session that starts and a job that is stopped: the first fact is recorded, the second
    one torn; a link posts the first, which the gateway accepts. *)

From S2P Require Import Prelude Strings Json Value Upgrade Config Contract EventsHost EventsHostTheorems EventsHostTurns.
Import JsonModel.

#[local] Open Scope Z_scope.
#[local] Open Scope rust_scope.

#[local] Ltac by_value := match goal with |- _ = ?v => vm_cast_no_check (eq_refl v) end.

Module QueueW.

Definition gmtime (seconds : Z) : option Tm := Some (mkTm 126 10 19 10 47 (seconds mod 60)).
Definition host : string := "host-1".

Definition view : SessionView :=
  mkSessionView host "work" "active" 77 "/home/ada/work" ["/home/ada/work"]%string 1700000000 Ask false 0.
Definition info (id : string) : result string SessionView :=
  if String.eqb id "work" then Ok view else Err "unknown"%string.
Definition event : ActivityEvent :=
  mkEvent 1 1 uuid0 1700000001000 (Some "work"%string) (Some uuid0) SessionStart Completed (Some 5) "session started".

Definition body (name state : string) (job : list (string * Json)) : Json :=
  json_object
    ([("name", JStr name); ("session_id", JStr "work"); ("state", JStr state);
      ("timestamp", JStr "2026-11-19T10:47:21.000Z"); ("session_started_at", JInt 1700000000);
      ("session_process_id", JInt 77); ("session_restart_count", JInt 0); ("session_permission_mode", JStr "ask");
      ("session_cwd", JStr "/home/ada/work"); ("session_permitted_directories", JArr [JStr "/home/ada/work"])]%string
     ++ job).
Definition started : Json := body "session.state.changed" "active" [].
Definition stopped : Json := body "job.state.changed" "stopped" [("job_id", JStr nil_uuid)]%string.
Definition accepted : Json := JObj [("accepted", JBool true)]%string.

Definition recorded_at : Z := 1700000001000.
Definition known : list Json :=
  [started; stopped; pending_json (mkPending recorded_at started); pending_json (mkPending recorded_at stopped)].

(** Writes the known documents only, and reads them and the acknowledgement. *)
#[local] Instance serde : SerdeJson := {|
  to_vec j := if bool_decide (j ∈ known) then Some (str_of (print j)) else None;
  from_slice b := find (fun j => bool_decide (str_of (print j) = b)) (accepted :: known);
|}.

Lemma known_read : forallb (fun j => bool_decide (from_slice (str_of (print j)) = Some j)) known = true.
Proof. by_value. Qed.

Lemma known_torn :
  forallb (fun j => let text := str_of (print j) in
    forallb (fun n => is_none (from_slice (substring 0 n text))) (seq 0 (String.length text))) known = true.
Proof. by_value. Qed.

#[local] Instance queue_codec : QueueCodec.
Proof.
  split; intros p bytes; generalize (pending_json p); intros j; cbn [to_vec serde].
  - case_bool_decide as Hk; [|done]. intros [= <-].
    pose proof (proj1 (forallb_forall _ _) known_read _ (proj1 (list_elem_of_In _ _) Hk)) as H.
    by apply bool_decide_eq_true in H.
  - intros n. case_bool_decide as Hk; [|done]. intros [= <-] Hn.
    pose proof (proj1 (forallb_forall _ _) known_torn _ (proj1 (list_elem_of_In _ _) Hk)) as H.
    cbv beta zeta in H. rewrite forallb_forall in H. specialize (H n ltac:(apply in_seq; lia)).
    by destruct (from_slice _).
Qed.

Definition access (creation : Creation) (uuid : Uuid) : Access := mkAccess (Ok tt) (Some recorded_at) uuid creation.
Definition recording : list EventsLabel :=
  [LLifecycle (access Created uuid0) info event; LStoppedJob (access (Torn 20) uuid1) (Some recorded_at) info "work" uuid0]%string.
Definition response : GatewayResponse := mkGatewayResponse 200 (Some (str_of (print accepted))).
Definition delivering : list EventsLabel :=
  [LConnect 0 "link-1" 3; LDeliver 0 (Ok tt); LRead 0 (Ok tt) (Ok tt) (Some 1700000002000);
   LAnswer 0 (Some response) info; LRemove 0 (Ok tt); LRead 0 (Ok tt) (Ok tt) (Some 1700000002000)]%string.

Definition run (s : EventsState) (labels : list EventsLabel) : EventsState * list EventsObs :=
  default (s, []) (events_run gmtime host s labels).
Definition s1 : EventsState := (run start recording).1.
Definition s2 : EventsState := (run s1 delivering).1.
Definition obs2 : list EventsObs := (run s1 delivering).2.
Lemma recording_value : events_run gmtime host start recording = Some (s1, []).
Proof. by_value. Qed.
Lemma delivering_value : events_run gmtime host s1 delivering = Some (s2, obs2).
Proof. by_value. Qed.
Lemma all_value : events_run gmtime host start (recording ++ delivering) = Some (s2, obs2).
Proof. by_value. Qed.

Definition path0 : string := record_name recorded_at uuid0.
Definition text0 : string := str_of (print (pending_json (mkPending recorded_at started))).
Lemma path0_value : es_dir s1 !! path0 = Some text0.
Proof. by_value. Qed.
Lemma path0_gone : es_dir s2 !! path0 = None.
Proof. by_value. Qed.

Lemma record_leaves_settled_witness : justified host obs2 path0.
Proof.
  destruct (record_leaves_settled gmtime host recording delivering s1 s2 [] obs2 path0 text0
    recording_value delivering_value) as [H|H].
  - vm_compute. reflexivity.
  - exact path0_value.
  - rewrite path0_gone in H. discriminate H.
  - exact H.
Defined.

Definition posted : Json := default JNull (stamped 3 "link-1" (value_of started)).
Lemma posted_value : take 1 obs2 = [OPosted 0 path0 posted].
Proof. by_value. Qed.

Lemma posted_authentic_witness :
  exists b, authentic gmtime host (recording ++ delivering) b /\ exists inst gen, stamped gen inst (value_of b) = Some posted.
Proof.
  destruct (posted_authentic gmtime host (recording ++ delivering) s2 obs2 0 path0 posted all_value)
    as (inst & gen & b & _ & Ha & Hs).
  - rewrite <- (take_drop 1 obs2), posted_value. left.
  - exists b. split; [exact Ha|]. exists inst, gen. exact Hs.
Defined.

Lemma queue_bounded_witness : exists paths, pending_paths (es_dir s2) = Ok paths /\ zlen paths = 1.
Proof.
  destruct (queue_bounded gmtime host (recording ++ delivering) s2 obs2 all_value) as (_ & _ & paths & Hp & Hl).
  exists paths. split; [exact Hp|]. rewrite Hl. vm_compute. reflexivity.
Defined.

(** Three records, a gateway that does not answer. *)
Definition three : QueueDir := list_to_map [("1.json", text0); ("2.json", text0); ("3.json", text0)]%string.
Definition link : Link := mkLink "link-1" 3 4 Idle.
Definition waiting : EventsState := mkEventsState three {[ 0%nat := link ]}.
Definition paths : list string := ["1.json"; "2.json"; "3.json"]%string.
Lemma paths_value : pending_paths (with_lock three) = Ok paths.
Proof. by_value. Qed.
Lemma record_value path : path ∈ paths ->
  read_record path (with_lock three) = Ok (mkPending recorded_at (value_of started)).
Proof. intros Hp. unfold paths in Hp. rewrite !elem_of_cons in Hp. destruct Hp as [->|[->|[->|[]%elem_of_nil]]]; by_value. Qed.

Lemma every_record_tried_witness :
  exists s' o, events_run gmtime host waiting (concat (replicate 3 (unanswered 0 2 1700000002000 None info))) = Some (s', o)
    /\ forall path, path ∈ paths -> exists body, OPosted 0 path body ∈ o.
Proof.
  destruct (every_record_tried gmtime host 0 1700000002000 None info) with (paths := paths) (s := waiting) (l := link)
    as (s' & o & Hrun & _ & Hp).
  - eexists. vm_compute. reflexivity.
  - reflexivity.
  - reflexivity.
  - left. reflexivity.
  - exact paths_value.
  - discriminate.
  - apply Forall_forall. intros path Hpath. eexists _, posted. split; [exact (record_value path Hpath)|].
    split; vm_compute; reflexivity.
  - discriminate.
  - reflexivity.
  - exists s', o. split; [exact Hrun|exact Hp].
Defined.

(** A torn record before a whole one. *)
Definition torn_dir : QueueDir := list_to_map [("1.json", substring 0 20 text0); ("2.json", text0)]%string.
Lemma torn_paths : pending_paths (with_lock torn_dir) = Ok ["1.json"; "2.json"]%string.
Proof. by_value. Qed.

Definition later : list EventsLabel :=
  [LConnect 0 "link-1" 3; LDeliver 0 (Ok tt); LRead 0 (Ok tt) (Ok tt) (Some 1800000000000);
   LDeliver 0 (Ok tt); LRead 0 (Ok tt) (Ok tt) (Some 1900000000000)]%string.
Definition s3 : EventsState := (run (mkEventsState torn_dir ∅) later).1.
Definition obs3 : list EventsObs := (run (mkEventsState torn_dir ∅) later).2.
Lemma later_value : events_run gmtime host (mkEventsState torn_dir ∅) later = Some (s3, obs3).
Proof. by_value. Qed.

Lemma torn_record_blocks_witness : obs3 = [] /\ with_lock (es_dir s3) = with_lock torn_dir.
Proof.
  apply (torn_record_blocks gmtime host "1.json" "2.json" torn_dir torn_paths) with (labels := later).
  - eexists. vm_compute. reflexivity.
  - exact later_value.
  - vm_compute. reflexivity.
Defined.
End QueueW.
