(* ===== verification/PromptIngress.v ===== *)
(** * Prompts observed on this host (prompt_ingress.rs)

    The owner's store of accepted prompts: what an observation must look like, how it is
    appended once per source, how it is linked to a task, which prompts a session sees and
    which a worker may see, and the wire of the local socket.  The file system's failures, the
    order in which a directory is listed, SHA-256, uuids, the clock, the sessions on disk and the
    derived serde code are arguments. *)

From S2P Require Import Prelude Strings Json Value Upgrade Config EventsHost.

#[local] Open Scope Z_scope.
#[local] Open Scope rust_scope.

Definition SCHEMA : Z := 1.
Definition MAX_BODY : Z := 65536.
Definition MAX_RECORD : Z := 4096.
Definition MAX_FILES : Z := 8192.
Definition MAX_REQUEST : Z := MAX_BODY + 4096.

Inductive Agent := Codex | OpenCode | DevinAcp | DevinCloud.
Inductive Kind :=
  UserPromptAccepted | UserSteerAccepted | ConversationBound | ConversationUnbound | PromptObservationGap.
Inductive GapReason := HookUnavailable | DeliveryFailed | UnsupportedContent | SourceSequenceGap.

#[global] Instance agent_eq_dec : EqDecision Agent.
Proof. solve_decision. Defined.
#[global] Instance kind_eq_dec : EqDecision Kind.
Proof. solve_decision. Defined.
#[global] Instance gap_reason_eq_dec : EqDecision GapReason.
Proof. solve_decision. Defined.

(** [rename_all = snake_case]. *)
Definition agent_wire (agent : Agent) : string :=
  match agent with
  | Codex => "codex"
  | OpenCode => "open_code"
  | DevinAcp => "devin_acp"
  | DevinCloud => "devin_cloud"
  end.

Definition kind_wire (kind : Kind) : string :=
  match kind with
  | UserPromptAccepted => "user_prompt_accepted"
  | UserSteerAccepted => "user_steer_accepted"
  | ConversationBound => "conversation_bound"
  | ConversationUnbound => "conversation_unbound"
  | PromptObservationGap => "prompt_observation_gap"
  end.

Record SessionFence := mkFence {
  sf_session_id : string;
  sf_started_at : Z;
  sf_process_id : Z;
  sf_scope_cwd : string;
}.

(** [PartialEq] of a path compares its components. *)
Definition fence_eqb (a b : SessionFence) : bool :=
  String.eqb (sf_session_id a) (sf_session_id b) && (sf_started_at a =? sf_started_at b)
  && (sf_process_id a =? sf_process_id b) && path_eqb (sf_scope_cwd a) (sf_scope_cwd b).

Definition matches (fence : SessionFence) (session : Session) : bool :=
  String.eqb (sf_session_id fence) (s_id session) && (sf_started_at fence =? s_started_at session)
  && (sf_process_id fence =? s_process_id session) && path_eqb (sf_scope_cwd fence) (s_cwd session).

Record Envelope := mkPromptEnvelope {
  en_schema_version : Z;
  en_host_id : string;
  en_session : option SessionFence;
  en_agent : Agent;
  en_conversation_id : string;
  en_source_event_id : string;
  en_kind : Kind;
  en_gap_reason : option GapReason;
  en_repository_key : option string;
  en_workspace_id : option string;
  en_task_id : option string;
  en_execution_id : option string;
  en_agent_turn_id : option string;
}.

Definition option_eqb {A : Type} (eqb : A -> A -> bool) (a b : option A) : bool :=
  match a, b with
  | Some a, Some b => eqb a b
  | None, None => true
  | _, _ => false
  end.

Definition envelope_eqb (a b : Envelope) : bool :=
  (en_schema_version a =? en_schema_version b) && String.eqb (en_host_id a) (en_host_id b)
  && option_eqb fence_eqb (en_session a) (en_session b) && bool_decide (en_agent a = en_agent b)
  && String.eqb (en_conversation_id a) (en_conversation_id b)
  && String.eqb (en_source_event_id a) (en_source_event_id b) && bool_decide (en_kind a = en_kind b)
  && bool_decide (en_gap_reason a = en_gap_reason b) && bool_decide (en_repository_key a = en_repository_key b)
  && bool_decide (en_workspace_id a = en_workspace_id b) && bool_decide (en_task_id a = en_task_id b)
  && bool_decide (en_execution_id a = en_execution_id b) && bool_decide (en_agent_turn_id a = en_agent_turn_id b).

Record WireRequest := mkWireRequest {
  wr_schema_version : Z;
  wr_envelope : Envelope;
  wr_body : option string;
}.

Section PromptIngress.
Context `{UU : UuidLib} `{SJ : SerdeJson}.

Record CanonicalLink := mkLinkRecord {
  cl_schema_version : Z;
  cl_prompt_id : Uuid;
  cl_host_id : string;
  cl_session : SessionFence;
  cl_agent : Agent;
  cl_conversation_id : string;
  cl_task_id : string;
  cl_execution_id : string;
  cl_agent_turn_id : option string;
}.

Definition link_eqb (a b : CanonicalLink) : bool :=
  (cl_schema_version a =? cl_schema_version b) && bool_decide (cl_prompt_id a = cl_prompt_id b)
  && String.eqb (cl_host_id a) (cl_host_id b) && fence_eqb (cl_session a) (cl_session b)
  && bool_decide (cl_agent a = cl_agent b) && String.eqb (cl_conversation_id a) (cl_conversation_id b)
  && String.eqb (cl_task_id a) (cl_task_id b) && String.eqb (cl_execution_id a) (cl_execution_id b)
  && bool_decide (cl_agent_turn_id a = cl_agent_turn_id b).

(** [correlations] is not stored. *)
Record PromptRecord := mkPromptRecord {
  pr_id : Uuid;
  pr_envelope : Envelope;
  pr_observed_at : Z;
  pr_body_sha256 : option string;
  pr_body_bytes : Z;
  pr_content_ref : option string;
  pr_correlations : list CanonicalLink;
}.

Inductive Append :=
| Accepted (id : Uuid)
| Duplicate (id : Uuid).

(** The derived serde code of what is stored. *)
Class PromptCodec := {
  record_to_vec : PromptRecord -> option string;
  record_from_slice : string -> option PromptRecord;
  link_to_vec : CanonicalLink -> option string;
  link_from_slice : string -> option CanonicalLink;
  request_from_slice : string -> option WireRequest;
}.
Context `{PC : !PromptCodec} (sha256_hex : string -> string).

(** * What an observation must look like *)

Definition ident_byte (b : Z) : bool :=
  is_ascii_alphanumeric b || (b =? 95) || (b =? 45) || (b =? 46) || (b =? 58) || (b =? 47) || (b =? 64).

Definition ident (value : string) (max : Z) : result string unit :=
  ensure (negb (str_is_empty value) && (str_len value <=? max) && forallb ident_byte (str_bytes value))
    "invalid prompt identifier".

Fixpoint idents (values : list (option string)) : result string unit :=
  match values with
  | [] => Ok tt
  | None :: rest => idents rest
  | Some value :: rest => ident value 256 ;! idents rest
  end.

Definition is_prompt (kind : Kind) : bool :=
  match kind with
  | UserPromptAccepted | UserSteerAccepted => true
  | _ => false
  end.

Definition validate (e : Envelope) (body : option string) : result string unit :=
  ensure (en_schema_version e =? SCHEMA) "unsupported prompt schema" ;!
  let! _ := host_id_validate (en_host_id e) in
  ident (en_conversation_id e) 256 ;!
  ident (en_source_event_id e) 256 ;!
  idents [en_repository_key e; en_workspace_id e; en_task_id e; en_execution_id e; en_agent_turn_id e] ;!
  match en_session e with
  | None => Ok tt
  | Some fence =>
      validate_session_id (sf_session_id fence) ;!
      ensure ((0 <? sf_started_at fence) && (0 <? sf_process_id fence)) "incomplete session fence"
  end ;!
  ensure (is_none_or (fun b => str_len b <=? MAX_BODY) body) "prompt body exceeds limit" ;!
  ensure (is_none_or (fun b => negb (str_is_empty b)) body) "empty user instruction" ;!
  ensure (Bool.eqb (is_prompt (en_kind e)) (is_some body))
    "body is required only for accepted user instructions" ;!
  ensure (Bool.eqb (bool_decide (en_kind e = PromptObservationGap)) (is_some (en_gap_reason e)))
    "gap reason is required only for observation gaps".

(** * The store *)

(** The files of its three directories. *)
Record PromptStore := mkPromptStore {
  ps_records : gmap string string;
  ps_content : gmap string string;
  ps_links : gmap string string;
}.

Definition set_records (d : gmap string string) (st : PromptStore) : PromptStore :=
  mkPromptStore d (ps_content st) (ps_links st).
Definition set_content (d : gmap string string) (st : PromptStore) : PromptStore :=
  mkPromptStore (ps_records st) d (ps_links st).
Definition set_links (d : gmap string string) (st : PromptStore) : PromptStore :=
  mkPromptStore (ps_records st) (ps_content st) d.

(** [read_private_bytes], of a file that is there. *)
Definition read_bounded (bytes : string) (limit : Z) : result string string :=
  ensure (str_len bytes <=? limit) "prompt record is not a bounded owner-only file" ;! Ok bytes.

Definition read_prompt (bytes : string) : result string PromptRecord :=
  let! bytes := read_bounded bytes MAX_RECORD in
  ok_or (record_from_slice bytes) "invalid prompt record"%string.

Definition read_link (bytes : string) : result string CanonicalLink :=
  let! bytes := read_bounded bytes MAX_RECORD in
  ok_or (link_from_slice bytes) "invalid prompt record"%string.

(** What an append or a link is given: the directories and the lock, the outcomes of creating a
    file, a fresh uuid and the clock. *)
Record Effects := mkEffects {
  ef_access : result string unit;
  ef_content : Creation;
  ef_record : Creation;
  ef_uuid : Uuid;
  ef_now : Z;
}.

Definition identity (e : Envelope) : option string :=
  to_vec (JArr [JStr (en_host_id e); JStr (agent_wire (en_agent e)); JStr (en_conversation_id e);
                JStr (en_source_event_id e)]).

Definition record_file (key : string) : string := key +:+ ".json".
Definition content_file (key : string) : string := key +:+ ".txt".

(** The body of a prompt, unless the file is there: then it has to be the same. *)
Definition store_content (key text e : string) (outcome : Creation) (st : PromptStore) :
    PromptStore * result string unit :=
  match ps_content st !! content_file key with
  | Some existing =>
      (st, let! existing := read_bounded existing MAX_BODY in
           ensure (String.eqb (sha256_hex existing) (sha256_hex text)) e)
  | None =>
      let '(d, r) := create_file (content_file key) text outcome (ps_content st) in
      (set_content d st, r)
  end.

(** The record of the source is there. *)
Definition append_existing (ef : Effects) (key bytes : string) (envelope : Envelope) (body : option string)
    (st : PromptStore) : PromptStore * result string Append :=
  match read_prompt bytes with
  | Err e => (st, Err e)
  | Ok existing =>
      if negb (envelope_eqb (pr_envelope existing) envelope
               && bool_decide (pr_body_sha256 existing = (sha256_hex <$> body)))
      then (st, Err "conflicting prompt source identity"%string)
      else
        match pr_content_ref existing, body with
        | Some name, Some text =>
            if negb (String.eqb name (content_file key)) then (st, Err "invalid prompt content reference"%string)
            else
              let '(st, r) := store_content key text "prompt content integrity mismatch" (ef_content ef) st in
              (st, let! _ := r in Ok (Duplicate (pr_id existing)))
        | _, _ => (st, Ok (Duplicate (pr_id existing)))
        end
  end.

Definition new_record (ef : Effects) (key : string) (envelope : Envelope) (body : option string) : PromptRecord :=
  mkPromptRecord (ef_uuid ef) envelope (ef_now ef) (sha256_hex <$> body)
    (default 0 (str_len <$> body)) ((fun _ => content_file key) <$> body) [].

Definition append_new (ef : Effects) (key : string) (envelope : Envelope) (body : option string)
    (st : PromptStore) : PromptStore * result string Append :=
  if negb (Z.of_nat (size (ps_records st)) <? MAX_FILES)
  then (st, Err "prompt store retention limit reached"%string)
  else
    let '(st, r) := match body with
                    | Some text => store_content key text "conflicting orphan prompt content" (ef_content ef) st
                    | None => (st, Ok tt)
                    end in
    match r, record_to_vec (new_record ef key envelope body) with
    | Err e, _ => (st, Err e)
    | _, None => (st, Err "serialization"%string)
    | Ok _, Some bytes =>
        let '(d, r) := create_file (record_file key) bytes (ef_record ef) (ps_records st) in
        (set_records d st, let! _ := r in Ok (Accepted (ef_uuid ef)))
    end.

Definition append (ef : Effects) (envelope : Envelope) (body : option string) (st : PromptStore) :
    PromptStore * result string Append :=
  match (validate envelope body ;! ef_access ef ;! ok_or (identity envelope) "serialization"%string) with
  | Err e => (st, Err e)
  | Ok bytes =>
      let key := sha256_hex bytes in
      match ps_records st !! record_file key with
      | Some bytes => append_existing ef key bytes envelope body st
      | None => append_new ef key envelope body st
      end
  end.

(** [load]: a session as it is on disk. *)
Definition observe (ef : Effects) (euid uid : Z) (host_id : string) (load : string -> result string Session)
    (envelope : Envelope) (body : option string) (st : PromptStore) : PromptStore * result string Append :=
  match (ensure (uid =? euid) "local peer changed" ;!
         ensure (String.eqb (en_host_id envelope) host_id) "prompt host identity mismatch" ;!
         match en_session envelope with
         | None => Ok tt
         | Some fence =>
             let! current := load (sf_session_id fence) in
             ensure (matches fence current) "session instance changed"
         end) with
  | Err e => (st, Err e)
  | Ok _ => append ef envelope body st
  end.

Definition observe_owned (ef : Effects) (host_id : string) (load : string -> result string Session)
    (envelope : Envelope) (body : option string) (st : PromptStore) : PromptStore * result string Append :=
  match (ensure (bool_decide (en_agent envelope = Codex)) "owned prompt agent mismatch" ;!
         let! fence := ok_or (en_session envelope) "owned prompt has no session fence"%string in
         ensure (is_some (en_task_id envelope) && is_some (en_execution_id envelope)
                 && is_some (en_agent_turn_id envelope)) "owned prompt lacks canonical task binding" ;!
         ensure (String.eqb (en_host_id envelope) host_id) "prompt host identity mismatch" ;!
         let! current := load (sf_session_id fence) in
         ensure (matches fence current) "session instance changed") with
  | Err e => (st, Err e)
  | Ok _ => append ef envelope body st
  end.

(** * Links *)

(** [read_dir], which lists a directory in some order. *)
Context (read_dir : gmap string string -> list (string * string)).

(** A fact the record states of its own has to be the one of the link. *)
Definition agrees (link : CanonicalLink) (record : PromptRecord) : result string unit :=
  ensure (String.eqb (en_host_id (pr_envelope record)) (cl_host_id link)
          && bool_decide (en_agent (pr_envelope record) = cl_agent link)
          && String.eqb (en_conversation_id (pr_envelope record)) (cl_conversation_id link))
    "prompt link source identity mismatch" ;!
  ensure (is_none_or (fun id => String.eqb id (cl_task_id link)) (en_task_id (pr_envelope record))
          && is_none_or (fun id => String.eqb id (cl_execution_id link)) (en_execution_id (pr_envelope record))
          && is_none_or (fun id => bool_decide (cl_agent_turn_id link = Some id)) (en_agent_turn_id (pr_envelope record)))
    "prompt link conflicts with explicit source identity".

(** The loop over the records: [found]. *)
Fixpoint find_prompt (link : CanonicalLink) (files : list (string * string)) : result string bool :=
  match files with
  | [] => Ok false
  | (_, bytes) :: rest =>
      let! record := read_prompt bytes in
      if bool_decide (pr_id record = cl_prompt_id link)
      then agrees link record ;! Ok true
      else find_prompt link rest
  end.

Definition scanned (d : gmap string string) : list (string * string) := take (Z.to_nat MAX_FILES + 1) (read_dir d).

Definition link_key (fence_json : SessionFence -> Json) (link : CanonicalLink) : option string :=
  to_vec (JArr [JStr (uuid_to_string (cl_prompt_id link)); fence_json (cl_session link); JStr (cl_task_id link)]).

Definition fence_json (fence : SessionFence) : Json :=
  JObj [("session_id", JStr (sf_session_id fence)); ("started_at", JInt (sf_started_at fence));
        ("process_id", JInt (sf_process_id fence)); ("scope_cwd", JStr (sf_scope_cwd fence))]%string.

Definition validate_link (ef : Effects) (host_id : string) (load : string -> result string Session)
    (link : CanonicalLink) : result string unit :=
  ensure (cl_schema_version link =? SCHEMA) "unsupported prompt link schema" ;!
  ensure (String.eqb (cl_host_id link) host_id) "prompt link host identity mismatch" ;!
  ident (cl_conversation_id link) 256 ;!
  ident (cl_task_id link) 256 ;!
  ident (cl_execution_id link) 256 ;!
  idents [cl_agent_turn_id link] ;!
  let! current := load (sf_session_id (cl_session link)) in
  ensure (matches (cl_session link) current) "prompt link session instance changed" ;!
  ef_access ef.

Definition store_link (ef : Effects) (link : CanonicalLink) (st : PromptStore) : PromptStore * result string unit :=
  match link_key fence_json link with
  | None => (st, Err "serialization"%string)
  | Some key =>
      let name := record_file (sha256_hex key) in
      match ps_links st !! name with
      | Some bytes =>
          (st, let! existing := read_link bytes in ensure (link_eqb existing link) "conflicting prompt correlation")
      | None =>
          if negb (Z.of_nat (size (ps_links st)) <? MAX_FILES)
          then (st, Err "prompt link retention limit reached"%string)
          else match link_to_vec link with
               | None => (st, Err "serialization"%string)
               | Some bytes =>
                   let '(d, r) := create_file name bytes (ef_record ef) (ps_links st) in
                   (set_links d st, r)
               end
      end
  end.

Definition link_exact (ef : Effects) (host_id : string) (load : string -> result string Session)
    (link : CanonicalLink) (st : PromptStore) : PromptStore * result string unit :=
  match (validate_link ef host_id load link ;!
         let! found := find_prompt link (scanned (ps_records st)) in
         ensure found "prompt observation not found") with
  | Err e => (st, Err e)
  | Ok _ => store_link ef link st
  end.

(** * The prompts of a session *)

(** At most eight links per prompt. *)
Fixpoint session_links (host_id : string) (session : Session) (files : list (string * string))
    (linked : list CanonicalLink) : result string (list CanonicalLink) :=
  match files with
  | [] => Ok linked
  | (_, bytes) :: rest =>
      let! link := read_link bytes in
      let here := List.filter (fun other => bool_decide (cl_prompt_id other = cl_prompt_id link)) linked in
      let linked :=
        if String.eqb (cl_host_id link) host_id && matches (cl_session link) session && (zlen here <? 8)
        then linked ++ [link] else linked in
      session_links host_id session rest linked
  end.

Definition correlations_of (linked : list CanonicalLink) (record : PromptRecord) : list CanonicalLink :=
  List.filter (fun link =>
      String.eqb (cl_host_id link) (en_host_id (pr_envelope record))
      && bool_decide (cl_agent link = en_agent (pr_envelope record))
      && String.eqb (cl_conversation_id link) (en_conversation_id (pr_envelope record)))
    (List.filter (fun link => bool_decide (cl_prompt_id link = pr_id record)) linked).

Definition task_leb (a b : CanonicalLink) : bool := String.leb (cl_task_id a) (cl_task_id b).

Definition with_correlations (links : list CanonicalLink) (record : PromptRecord) : PromptRecord :=
  mkPromptRecord (pr_id record) (pr_envelope record) (pr_observed_at record) (pr_body_sha256 record)
    (pr_body_bytes record) (pr_content_ref record) (sort_by task_leb links).

Definition projected (host_id : string) (session : Session) (linked : list CanonicalLink) (record : PromptRecord) :
    option PromptRecord :=
  let correlations := correlations_of linked record in
  if String.eqb (en_host_id (pr_envelope record)) host_id
     && (is_some_and (fun fence => matches fence session) (en_session (pr_envelope record))
         || nonempty correlations)
  then Some (with_correlations correlations record) else None.

(** The loop over the records; [linked.remove] takes the links of the first record with an id. *)
Fixpoint session_records (host_id : string) (session : Session) (linked : list CanonicalLink)
    (files : list (string * string)) (records : list PromptRecord) : result string (list PromptRecord) :=
  match files with
  | [] => Ok records
  | (name, bytes) :: rest =>
      ensure (zlen records <? MAX_FILES) "prompt store exceeds scan limit" ;!
      if negb (is_record name) then session_records host_id session linked rest records
      else
        let! record := read_prompt bytes in
        let records := records ++ option_list (projected host_id session linked record) in
        let linked := List.filter (fun link => negb (bool_decide (cl_prompt_id link = pr_id record))) linked in
        session_records host_id session linked rest records
  end.

(** The order of [(observed_at, id)]. *)
Definition record_leb (a b : PromptRecord) : bool :=
  (pr_observed_at a <? pr_observed_at b)
  || ((pr_observed_at a =? pr_observed_at b) && String.leb (uuid_to_string (pr_id a)) (uuid_to_string (pr_id b))).

Definition last_64 {A : Type} (l : list A) : list A := drop (length l - 64) l.

(** The store without its links: [None] is the directory that is not there. *)
Definition for_session (host_id : string) (session : Session) (st : PromptStore) : result string (list PromptRecord) :=
  let! linked := session_links host_id session (scanned (ps_links st)) [] in
  let! records := session_records host_id session linked (scanned (ps_records st)) [] in
  Ok (last_64 (sort_by record_leb records)).

(** * What a worker may see *)

Definition worker_value (record : PromptRecord) : Json :=
  json_object
    [("observation_id", JStr (uuid_to_string (pr_id record)));
     ("agent", JStr (agent_wire (en_agent (pr_envelope record))));
     ("kind", JStr (kind_wire (en_kind (pr_envelope record))));
     ("observed_at", JInt (pr_observed_at record));
     ("body_sha256", match pr_body_sha256 record with Some digest => JStr digest | None => JNull end);
     ("provenance", JStr "owner_local_source_asserted"); ("content_policy", JStr "structural_only")]%string.

Definition eligible (now max_age_seconds : Z) (record : PromptRecord) : bool :=
  is_prompt (en_kind (pr_envelope record)) && (pr_observed_at record <=? now)
  && (now - pr_observed_at record <=? max_age_seconds).

Definition worker_eligible (records : list PromptRecord) (now max_age_seconds max_items : Z) :
    result string (list Json) :=
  ensure ((max_age_seconds <=? 86400) && (max_items <=? 16)) "prompt worker policy exceeds local budget" ;!
  Ok (map worker_value
        (take (Z.to_nat max_items) (List.filter (eligible now max_age_seconds) (rev records)))).

(** The surfaces an agent has, and what is seen of them. *)
Inductive Coverage := Supported | Partial | Unavailable.

Record Capability := mkCapability {
  ca_agent : Agent;
  ca_surface : string;
  ca_native_capability : Coverage;
  ca_coverage : Coverage;
  ca_reason : string;
}.

Definition installed_capabilities : list Capability :=
  [mkCapability Codex "direct_ui" Partial Unavailable
     "Codex 0.157.1 UserPromptSubmit is pre-acceptance; no direct accepted-turn adapter is installed.";
   mkCapability Codex "temote_owned_app_server" Supported Supported
     "The Codex 0.157.1 v2 item/started userMessage adapter observes this client's owned conversations; external direct UI coverage is separate.";
   mkCapability OpenCode "direct_ui" Unavailable Unavailable
     "No installed authenticated accepted-user-turn adapter for unrelated OpenCode direct conversations has been verified.";
   mkCapability DevinAcp "direct_ui" Unavailable Unavailable
     "Devin ACP session/prompt is client initiated; no verified hook for unrelated direct user turns is installed.";
   mkCapability DevinCloud "direct_ui" Unavailable Unavailable
     "No verified Devin Cloud direct user-turn webhook or stable message event is installed."]%string.

(** * The local socket *)

(** [u32::from_be_bytes] and [to_be_bytes]. *)
Definition from_be (bytes : list Z) : Z := fold_left (fun n b => n * 256 + b) bytes 0.
Definition to_be (n : Z) : list Z :=
  [n / 16777216 mod 256; n / 65536 mod 256; n / 256 mod 256; n mod 256].

Definition string_of_bytes (bytes : list Z) : string :=
  string_of_list_ascii (map (fun b => ascii_of_N (Z.to_N b)) bytes).

(** [read_exact]: the bytes, and what is left. *)
Definition read_exact (n : nat) (stream : list Z) : result string (list Z * list Z) :=
  if (length stream <? n)%nat then Err "unexpected end of file"%string else Ok (take n stream, drop n stream).

Definition response_json (r : result string Append) : Json :=
  let '(status, id) := match r with
                       | Ok (Accepted id) => ("accepted"%string, Some id)
                       | Ok (Duplicate id) => ("duplicate"%string, Some id)
                       | Err _ => ("rejected"%string, None)
                       end in
  JObj [("schema_version", JInt SCHEMA); ("status", JStr status);
        ("observation_id", match id with Some id => JStr (uuid_to_string id) | None => JNull end)]%string.

Definition handle_request (ef : Effects) (euid uid : Z) (host_id : string) (load : string -> result string Session)
    (bytes : list Z) (st : PromptStore) : PromptStore * result string Append :=
  match (let! request := ok_or (request_from_slice (string_of_bytes bytes)) "invalid request"%string in
         ensure (wr_schema_version request =? SCHEMA) "unsupported prompt wire version" ;! Ok request) with
  | Err e => (st, Err e)
  | Ok request => observe ef euid uid host_id load (wr_envelope request) (wr_body request) st
  end.

(** The store, and what is written to the stream. *)
Definition handle_connection (ef : Effects) (euid uid : Z) (host_id : string) (load : string -> result string Session)
    (stream : list Z) (st : PromptStore) : PromptStore * result string (list Z) :=
  match (ensure (uid =? euid) "local peer is not the Temote owner" ;!
         let! header := read_exact 4 stream in
         let length := from_be header.1 in
         ensure ((0 <? length) && (length <=? MAX_REQUEST)) "prompt request exceeds limit" ;!
         let! body := read_exact (Z.to_nat length) header.2 in
         Ok body.1) with
  | Err e => (st, Err e)
  | Ok bytes =>
      let '(st, r) := handle_request ef euid uid host_id load bytes st in
      (st, let! response := ok_or (to_vec (response_json r)) "serialization"%string in
           let response := str_bytes response in
           Ok (to_be (zlen response) ++ response))
  end.

(** * Runs *)

Inductive PromptLabel :=
| PConnection (ef : Effects) (euid uid : Z) (host_id : string) (load : string -> result string Session)
    (stream : list Z)
| PObserve (ef : Effects) (euid uid : Z) (host_id : string) (load : string -> result string Session)
    (envelope : Envelope) (body : option string)
| POwned (ef : Effects) (host_id : string) (load : string -> result string Session) (envelope : Envelope)
    (body : option string)
| PLink (ef : Effects) (host_id : string) (load : string -> result string Session) (link : CanonicalLink).

(** Every operation takes the lock of the store from its first read to its last write. *)
Definition prompt_step (st : PromptStore) (label : PromptLabel) : PromptStore :=
  match label with
  | PConnection ef euid uid host_id load stream => (handle_connection ef euid uid host_id load stream st).1
  | PObserve ef euid uid host_id load envelope body => (observe ef euid uid host_id load envelope body st).1
  | POwned ef host_id load envelope body => (observe_owned ef host_id load envelope body st).1
  | PLink ef host_id load link => (link_exact ef host_id load link st).1
  end.

Definition prompt_run (st : PromptStore) (labels : list PromptLabel) : PromptStore :=
  fold_left prompt_step labels st.
End PromptIngress.
