(* ===== verification/PromptTheorems.v ===== *)
(** * What becomes of an observed prompt

    A source is accepted once and keeps its content; a session sees its own prompts only; and a
    record that is too large to be read again hides the prompts of every session. *)

From S2P Require Import Prelude Strings Utf8 Json Value Upgrade Config ConfigTheorems EventsHost EventsHostTheorems PromptIngress.

#[local] Open Scope Z_scope.
#[local] Open Scope rust_scope.

Section Prompts.
Context `{UU : UuidLib} `{SJ : SerdeJson} `{PC : !PromptCodec} (sha256_hex : string -> string)
  (read_dir : gmap string string -> list (string * string)).

#[local] Notation append := (append sha256_hex).
#[local] Notation prompt_run := (prompt_run sha256_hex read_dir).
#[local] Notation prompt_step := (prompt_step sha256_hex read_dir).
#[local] Notation for_session := (for_session read_dir).

(** * Files are only added *)

Definition kept (d d' : gmap string string) : Prop := forall k v, d !! k = Some v -> d' !! k = Some v.

Lemma kept_refl d : kept d d.
Proof. by intros k v. Qed.

Lemma kept_trans d1 d2 d3 : kept d1 d2 -> kept d2 d3 -> kept d1 d3.
Proof. intros H1 H2 k v H. by apply H2, H1. Qed.

Lemma create_kept name bytes outcome d d' r : create_file name bytes outcome d = (d', r) -> kept d d'.
Proof.
  intros [[-> _]|(Hn & written & -> & _)]%create_file_cases; [apply kept_refl|].
  intros k v H. rewrite lookup_insert_ne; [done|]. intros ->. congruence.
Qed.

Lemma create_Ok name bytes outcome d d' : create_file name bytes outcome d = (d', Ok tt) -> d' !! name = Some bytes.
Proof.
  intros H. apply create_file_cases in H as [[_ [e [=]]]|(_ & written & -> & [->|[H _]])]; [|done].
  apply lookup_insert_eq.
Qed.

Definition store_kept (st st' : PromptStore) : Prop :=
  kept (ps_records st) (ps_records st') /\ kept (ps_content st) (ps_content st') /\ kept (ps_links st) (ps_links st').

Lemma store_kept_refl st : store_kept st st.
Proof. split_and!; apply kept_refl. Qed.

(** What is stored of a body has its digest. *)
Definition content_of (st : PromptStore) (key : string) (body : option string) : Prop :=
  forall text, body = Some text -> exists stored,
    ps_content st !! content_file key = Some stored /\ sha256_hex stored = sha256_hex text.

Lemma content_kept st st' key body : kept (ps_content st) (ps_content st') -> content_of st key body -> content_of st' key body.
Proof. intros Hk H text Hb. destruct (H text Hb) as (stored & Hs & Hd). exists stored. split; [by apply Hk|done]. Qed.

Lemma store_content_cases key text e outcome st st' r :
  store_content sha256_hex key text e outcome st = (st', r) ->
  ps_records st' = ps_records st /\ ps_links st' = ps_links st /\ kept (ps_content st) (ps_content st')
  /\ (r = Ok tt -> content_of st' key (Some text)).
Proof.
  unfold store_content. destruct (ps_content st !! content_file key) as [existing|] eqn:E.
  - intros [= <- <-]. split_and!; try done; [apply kept_refl|]. unfold read_bounded. intros H.
    apply bind_Ok in H as (b & ([] & _ & [= <-])%bind_Ok & Hd%ensure_Ok).
    intros t [= <-]. exists existing. split; [done|by apply String.eqb_eq].
  - destruct (create_file _ _ _ _) as [d r'] eqn:Ec. intros [= <- <-]. split_and!; try done.
    + by eapply create_kept.
    + intros -> t [= <-]. exists text. split; [by eapply create_Ok|done].
Qed.

(** * Appending *)

(** The key of a source. *)
Definition source_key (e : Envelope) (key : string) : Prop :=
  exists bytes, identity e = Some bytes /\ key = sha256_hex bytes.

Lemma source_key_unique e e' key key' :
  identity e = identity e' -> source_key e key -> source_key e' key' -> key' = key.
Proof. intros He (b & Hb & ->) (b' & Hb' & ->). congruence. Qed.

Definition appended (st st' : PromptStore) (ef : Effects) (envelope : Envelope) (body : option string)
    (key written : string) : Prop :=
  ps_records st !! record_file key = None /\ ps_records st' = <[record_file key := written]> (ps_records st)
  /\ Z.of_nat (size (ps_records st)) < MAX_FILES
  /\ (exists bytes, record_to_vec (new_record sha256_hex ef key envelope body) = Some bytes
       /\ (written = bytes \/ exists n, written = substring 0 n bytes))
  /\ content_of st' key body.

Lemma append_new_cases ef key envelope body st st' r :
  ps_records st !! record_file key = None ->
  append_new sha256_hex ef key envelope body st = (st', r) ->
  ps_links st' = ps_links st /\ kept (ps_content st) (ps_content st')
  /\ ((ps_records st' = ps_records st /\ exists e, r = Err e)
      \/ exists written, appended st st' ef envelope body key written
           /\ (forall a, r = Ok a -> a = Accepted (ef_uuid ef)
                 /\ record_to_vec (new_record sha256_hex ef key envelope body) = Some written)).
Proof.
  intros Hn. unfold append_new.
  destruct (Z.ltb_spec (Z.of_nat (size (ps_records st))) MAX_FILES) as [Hsize|]; cbn [negb].
  2: { intros [= <- <-]. split; [done|]. split; [apply kept_refl|]. left. eauto. }
  destruct (match body with Some _ => _ | None => _ end) as [st1 r1] eqn:Ec.
  assert (ps_records st1 = ps_records st /\ ps_links st1 = ps_links st /\ kept (ps_content st) (ps_content st1)
          /\ (r1 = Ok tt -> content_of st1 key body)) as (Hr1 & Hl1 & Hk1 & Hc1).
  { destruct body as [text|]; [by eapply store_content_cases|]. injection Ec as <- <-.
    split_and!; try done. apply kept_refl. }
  destruct r1 as [[]|e]; [|intros [= <- <-]; split_and!; eauto].
  destruct (record_to_vec _) as [bytes|] eqn:Eb; [|intros [= <- <-]; split_and!; eauto].
  destruct (create_file _ _ _ _) as [d r2] eqn:Ef. intros [= <- <-]. cbn [set_records ps_links ps_content ps_records].
  split; [done|]. split; [done|]. rewrite Hr1 in Ef. apply create_file_cases in Ef as [[-> [e ->]]|(_ & written & -> & Hw)].
  - left. split; [done|]. by exists e.
  - right. exists written. split.
    + split_and!; try done; [|by apply Hc1]. exists bytes. split; [done|]. destruct Hw as [|[_ ?]]; auto.
    + intros a. destruct r2 as [[]|]; cbn [bind]; [|done]. intros [= <-]. split; [done|].
      destruct Hw as [->|[H _]]; [done|congruence].
Qed.

Lemma append_existing_cases ef key bytes envelope body st st' r :
  append_existing sha256_hex ef key bytes envelope body st = (st', r) ->
  ps_records st' = ps_records st /\ ps_links st' = ps_links st /\ kept (ps_content st) (ps_content st')
  /\ (forall a, r = Ok a -> exists existing, read_prompt bytes = Ok existing /\ a = Duplicate (pr_id existing)
        /\ envelope_eqb (pr_envelope existing) envelope = true /\ pr_body_sha256 existing = (sha256_hex <$> body)).
Proof.
  unfold append_existing. destruct (read_prompt bytes) as [existing|e] eqn:Er.
  2: { intros [= <- <-]. split_and!; try done. apply kept_refl. }
  destruct (negb _) eqn:E.
  { intros [= <- <-]. split_and!; try done. apply kept_refl. }
  rewrite negb_false_iff, andb_true_iff, bool_decide_eq_true in E. destruct E as [Ee Es].
  assert (forall a : Append, Ok (Duplicate (pr_id existing)) = Ok (E := string) a -> exists existing0, Ok existing = Ok (E := string) existing0
     /\ a = Duplicate (pr_id existing0) /\ envelope_eqb (pr_envelope existing0) envelope = true
     /\ pr_body_sha256 existing0 = (sha256_hex <$> body)) as Hdup.
  { intros a [= <-]. by exists existing. }
  destruct (pr_content_ref existing) as [name|], body as [text|];
    try (intros [= <- <-]; split_and!; try done; apply kept_refl).
  destruct (negb _); [intros [= <- <-]; split_and!; try done; apply kept_refl|].
  destruct (store_content _ _ _ _ _ _) as [st1 r1] eqn:Ec. intros [= <- <-].
  apply store_content_cases in Ec as (Hr & Hl & Hk & _). split_and!; try done.
  destruct r1 as [[]|]; cbn [bind]; [exact Hdup|done].
Qed.

Lemma append_cases ef envelope body st st' r :
  append ef envelope body st = (st', r) ->
  ps_links st' = ps_links st /\ kept (ps_content st) (ps_content st')
  /\ ((ps_records st' = ps_records st /\ exists e, r = Err e)
      \/ validate envelope body = Ok tt /\ exists key, source_key envelope key
         /\ ((ps_records st' = ps_records st /\ exists bytes, ps_records st !! record_file key = Some bytes
                /\ forall a, r = Ok a -> exists existing, read_prompt bytes = Ok existing /\ a = Duplicate (pr_id existing)
                     /\ envelope_eqb (pr_envelope existing) envelope = true
                     /\ pr_body_sha256 existing = (sha256_hex <$> body))
             \/ exists written, appended st st' ef envelope body key written
                  /\ forall a, r = Ok a -> a = Accepted (ef_uuid ef)
                       /\ record_to_vec (new_record sha256_hex ef key envelope body) = Some written)).
Proof.
  unfold PromptIngress.append.
  destruct (validate envelope body ;! _) as [bytes|e] eqn:Ev.
  2: { intros [= <- <-]. split; [done|]. split; [apply kept_refl|]. left. eauto. }
  apply bind_Ok in Ev as ([] & Hv & ([] & _ & Hi%ok_or_Ok)%bind_Ok). set (key := sha256_hex bytes).
  assert (source_key envelope key) as Hkey by (by exists bytes).
  destruct (ps_records st !! record_file key) as [stored|] eqn:E.
  - intros (Hr & Hl & Hk & Ha)%append_existing_cases. split; [done|]. split; [done|]. right. split; [done|].
    exists key. split; [done|]. left. split; [done|]. exists stored. done.
  - intros (Hl & Hk & [[Hr He]|(written & Hw & Ha)])%append_new_cases; [| |done];
      (split; [done|]; split; [done|]); [by left|]. right. split; [done|]. exists key. split; [done|]. right. eauto.
Qed.

(** * Steps *)

Lemma appended_kept st st' ef envelope body key written :
  appended st st' ef envelope body key written -> kept (ps_records st) (ps_records st').
Proof.
  intros (Hn & -> & _) k v H. rewrite lookup_insert_ne; [done|]. intros <-. congruence.
Qed.

Lemma append_kept ef envelope body st : store_kept st (append ef envelope body st).1.
Proof.
  destruct (append ef envelope body st) as [st' r] eqn:E. cbn [fst].
  apply append_cases in E as (Hl & Hk & H). split_and!; [|done|rewrite Hl; apply kept_refl].
  destruct H as [[-> _]|(_ & key & _ & [[-> _]|(written & Ha & _)])]; [apply kept_refl..|by eapply appended_kept].
Qed.

Lemma store_link_cases ef link st st' r :
  store_link sha256_hex ef link st = (st', r) ->
  ps_records st' = ps_records st /\ ps_content st' = ps_content st /\ kept (ps_links st) (ps_links st').
Proof.
  unfold store_link. destruct (link_key fence_json link) as [key|]; [|intros [= <- <-]; split_and!; try done; apply kept_refl].
  destruct (ps_links st !! _) as [bytes|]; [intros [= <- <-]; split_and!; try done; apply kept_refl|].
  destruct (negb _); [intros [= <- <-]; split_and!; try done; apply kept_refl|].
  destruct (link_to_vec link) as [bytes|]; [|intros [= <- <-]; split_and!; try done; apply kept_refl].
  destruct (create_file _ _ _ _) as [d r1] eqn:E. intros [= <- <-]. split_and!; try done. by eapply create_kept.
Qed.

(** A step appends one observation, adds a link, or changes nothing. *)
Inductive step_kind (st : PromptStore) : PromptStore -> Prop :=
| step_same : step_kind st st
| step_append ef envelope body : step_kind st (append ef envelope body st).1
| step_link st' : ps_records st' = ps_records st -> ps_content st' = ps_content st ->
    kept (ps_links st) (ps_links st') -> step_kind st st'.

Lemma observe_kind ef euid uid host load envelope body st :
  step_kind st (observe sha256_hex ef euid uid host load envelope body st).1.
Proof. unfold observe. destruct (ensure _ _ ;! _); [apply step_append|apply step_same]. Qed.

Lemma step_kinds st label : step_kind st (prompt_step st label).
Proof.
  destruct label as [ef euid uid host load stream|ef euid uid host load e b|ef host load e b|ef host load link]; cbn [PromptIngress.prompt_step].
  - unfold handle_connection. destruct (ensure _ _ ;! _) as [bytes|]; [|apply step_same].
    destruct (handle_request _ _ _ _ _ _ _ _) as [st' r] eqn:E. cbn [fst].
    change st' with (st', r).1. rewrite <- E. unfold handle_request.
    destruct (let! _ := _ in _); [apply observe_kind|apply step_same].
  - apply observe_kind.
  - unfold observe_owned. destruct (ensure _ _ ;! _); [apply step_append|apply step_same].
  - unfold link_exact. destruct (validate_link _ _ _ _ ;! _); [|apply step_same].
    destruct (store_link _ _ _ _) as [st' r] eqn:E. apply store_link_cases in E as (? & ? & ?). by apply step_link.
Qed.

Lemma step_kept st label : store_kept st (prompt_step st label).
Proof.
  destruct (step_kinds st label) as [|ef e b|st' Hr Hc Hl]; [apply store_kept_refl|apply append_kept|].
  split_and!; [rewrite Hr; apply kept_refl|rewrite Hc; apply kept_refl|done].
Qed.

Lemma run_kept labels : forall st, store_kept st (prompt_run st labels).
Proof.
  induction labels as [|label labels IH]; intros st; [apply store_kept_refl|].
  destruct (step_kept st label) as (H1 & H2 & H3), (IH (prompt_step st label)) as (H4 & H5 & H6).
  split_and!; by eapply kept_trans.
Qed.

(** * Once per source *)

(** serde_json reads what it wrote, and no document is a strict prefix of an object's text. *)
Class PromptLaws := {
  record_round_trip : forall r bytes,
    record_to_vec r = Some bytes -> pr_correlations r = [] -> record_from_slice bytes = Some r;
  record_torn : forall r bytes n,
    record_to_vec r = Some bytes -> (n < String.length bytes)%nat -> record_from_slice (substring 0 n bytes) = None;
}.
Context `{PL : !PromptLaws}.

Lemma read_prompt_Ok bytes r :
  read_prompt bytes = Ok r <-> str_len bytes <= MAX_RECORD /\ record_from_slice bytes = Some r.
Proof.
  unfold read_prompt, read_bounded. split.
  - intros (b & ([] & Hl%ensure_Ok & [= <-])%bind_Ok & Hr%ok_or_Ok)%bind_Ok. split; [by apply Z.leb_le|done].
  - intros [Hl%Z.leb_le Hr]. rewrite Hl. cbn [ensure bind]. by rewrite Hr.
Qed.

Lemma read_new ef key envelope body bytes written r :
  record_to_vec (new_record sha256_hex ef key envelope body) = Some bytes ->
  written = bytes \/ (exists n, written = substring 0 n bytes) ->
  read_prompt written = Ok r -> r = new_record sha256_hex ef key envelope body.
Proof.
  intros Hb Hw [_ Hr]%read_prompt_Ok. assert (written = bytes) as ->.
  { destruct Hw as [|[n ->]]; [done|]. destruct (Nat.lt_ge_cases n (String.length bytes)) as [Hn|Hn].
    - by rewrite (record_torn _ _ _ Hb Hn) in Hr.
    - by apply substring_long. }
  rewrite (record_round_trip _ _ Hb) in Hr by done. by injection Hr as <-.
Qed.

Lemma path_eqb_refl' p : path_eqb p p = true.
Proof. by apply bool_decide_eq_true. Qed.

Lemma envelope_eqb_refl e : envelope_eqb e e = true.
Proof.
  unfold envelope_eqb. rewrite !Z.eqb_refl, !String.eqb_refl, !bool_decide_eq_true_2 by done.
  destruct (en_session e) as [f|]; cbn [option_eqb]; [|done].
  unfold fence_eqb. by rewrite String.eqb_refl, !Z.eqb_refl, path_eqb_refl'.
Qed.

Lemma fence_eqb_join a b c : fence_eqb a b = true -> fence_eqb a c = true -> fence_eqb b c = true.
Proof.
  unfold fence_eqb, path_eqb. rewrite !andb_true_iff, !Z.eqb_eq, !String.eqb_eq, !bool_decide_eq_true.
  intros [[[-> ->] ->] ->] [[[-> ->] ->] ->]. done.
Qed.

Lemma envelope_eqb_join a b c : envelope_eqb a b = true -> envelope_eqb a c = true -> envelope_eqb b c = true.
Proof.
  unfold envelope_eqb. rewrite !andb_true_iff, !Z.eqb_eq, !String.eqb_eq, !bool_decide_eq_true.
  intros H1 H2. repeat match goal with H : _ /\ _ |- _ => destruct H end. split_and!; try congruence.
  destruct (en_session a), (en_session b), (en_session c); cbn [option_eqb] in *; try done.
  by eapply fence_eqb_join.
Qed.

(** The record of the source of [e] holds [e] and the digest of its body. *)
Definition recorded_as (st : PromptStore) (e : Envelope) (body : option string) (id : Uuid) : Prop :=
  exists key bytes, source_key e key /\ ps_records st !! record_file key = Some bytes
    /\ forall r, read_prompt bytes = Ok r ->
         pr_id r = id /\ envelope_eqb (pr_envelope r) e = true /\ pr_body_sha256 r = (sha256_hex <$> body).

Lemma append_Ok ef e body st st' a :
  append ef e body st = (st', Ok a) ->
  exists id, (a = Accepted id \/ a = Duplicate id) /\ recorded_as st' e body id.
Proof.
  intros (_ & _ & [[_ [? [=]]]|(_ & key & Hkey & [(Hr & bytes & Hb & Ha)|(written & Hw & Ha)])])%append_cases.
  - destruct (Ha a eq_refl) as (existing & He & -> & Hee & Hes). exists (pr_id existing). split; [by right|].
    exists key, bytes. rewrite Hr. split; [done|]. split; [done|]. intros r Hread.
    rewrite Hread in He. by injection He as ->.
  - destruct (Ha a eq_refl) as [-> Hv]. exists (ef_uuid ef). split; [by left|]. exists key, written.
    destruct Hw as (_ & Hst & _). rewrite Hst, lookup_insert_eq. split; [done|]. split; [done|].
    intros r Hread. rewrite (read_new _ _ _ _ _ _ _ Hv (or_introl eq_refl) Hread). cbn.
    by rewrite envelope_eqb_refl.
Qed.

(** The same observation: equal in every field, with the directories of the fences compared
    as paths. *)
Definition same_fence (f f' : SessionFence) : Prop :=
  sf_session_id f = sf_session_id f' /\ sf_started_at f = sf_started_at f'
  /\ sf_process_id f = sf_process_id f' /\ components (sf_scope_cwd f) = components (sf_scope_cwd f').
Definition same_prompt (e e' : Envelope) : Prop :=
  option_Forall2 same_fence (en_session e) (en_session e')
  /\ e' = mkPromptEnvelope (en_schema_version e) (en_host_id e) (en_session e') (en_agent e)
            (en_conversation_id e) (en_source_event_id e) (en_kind e) (en_gap_reason e)
            (en_repository_key e) (en_workspace_id e) (en_task_id e) (en_execution_id e)
            (en_agent_turn_id e).

Lemma envelope_eqb_same e e' : envelope_eqb e e' = true -> same_prompt e e'.
Proof.
  unfold envelope_eqb. rewrite !andb_true_iff, !bool_decide_eq_true, !String.eqb_eq, Z.eqb_eq.
  intros [[[[[[[[[[[[H1 H2] Hs] H3] H4] H5] H6] H7] H8] H9] H10] H11] H12]. split.
  - destruct (en_session e) as [f|], (en_session e') as [f'|]; try done; [|constructor].
    constructor. cbn in Hs. unfold fence_eqb in Hs.
    rewrite !andb_true_iff, String.eqb_eq, !Z.eqb_eq, path_eqb_eq in Hs. unfold same_fence. tauto.
  - destruct e, e'. cbn in *. congruence.
Qed.

(** C22: a source is accepted once: whatever happens in between, a later observation of the
    same source is answered only as a duplicate of the first, with its id, and only when it says
    the same with the same body. *)
Theorem accepted_once ef e body st st1 a labels ef' e' body' st2 a' :
  append ef e body st = (st1, Ok a) ->
  append ef' e' body' (prompt_run st1 labels) = (st2, Ok a') ->
  en_host_id e = en_host_id e' -> en_agent e = en_agent e' ->
  en_conversation_id e = en_conversation_id e' -> en_source_event_id e = en_source_event_id e' ->
  exists id, (a = Accepted id \/ a = Duplicate id) /\ a' = Duplicate id
    /\ ps_records st2 = ps_records (prompt_run st1 labels)
    /\ same_prompt e e' /\ (sha256_hex <$> body) = (sha256_hex <$> body').
Proof.
  intros H1 H2 E1 E2 E3 E4.
  assert (identity e = identity e') as Hid by (unfold identity; by rewrite E1, E2, E3, E4).
  apply append_Ok in H1 as (id & Ha & key & bytes & Hkey & Hb & Hr).
  pose proof (run_kept labels st1) as (Hk & _ & _). pose proof (Hk _ _ Hb) as Hb'.
  apply append_cases in H2 as (_ & _ & [[_ [? [=]]]|(_ & key' & Hkey' & H)]).
  rewrite <- (source_key_unique _ _ _ _ Hid Hkey Hkey') in Hb'.
  destruct H as [(Hst & bytes' & Hbytes & Ha')|(written & (Hn & _) & _)]; [|congruence].
  rewrite Hb' in Hbytes. injection Hbytes as <-. destruct (Ha' a' eq_refl) as (r & Hread & -> & He & Hs).
  destruct (Hr r Hread) as (<- & Hee & Hss). exists (pr_id r). split; [done|]. split; [done|]. split; [done|].
  split; [by eapply envelope_eqb_same, envelope_eqb_join|congruence].
Qed.

(** * What the store holds *)

Definition intact (st : PromptStore) : Prop :=
  Z.of_nat (size (ps_records st)) <= MAX_FILES
  /\ forall name bytes r, ps_records st !! name = Some bytes -> read_prompt bytes = Ok r ->
       exists key ef body, name = record_file key /\ source_key (pr_envelope r) key
         /\ r = new_record sha256_hex ef key (pr_envelope r) body /\ validate (pr_envelope r) body = Ok tt
         /\ content_of st key body.

Definition empty_store : PromptStore := mkPromptStore ∅ ∅ ∅.

Lemma prompt_store_starts : intact empty_store.
Proof. split; [done|]. intros n b r Hn. cbn in Hn. by rewrite lookup_empty in Hn. Qed.

Lemma append_intact ef e body st : intact st -> intact (append ef e body st).1.
Proof.
  intros [Hsize Hst]. destruct (append ef e body st) as [st' r] eqn:E. cbn [fst].
  apply append_cases in E as (_ & Hk & H).
  assert (forall name bytes p, ps_records st !! name = Some bytes -> read_prompt bytes = Ok p ->
    exists key ef body, name = record_file key /\ source_key (pr_envelope p) key
      /\ p = new_record sha256_hex ef key (pr_envelope p) body /\ validate (pr_envelope p) body = Ok tt
      /\ content_of st' key body) as Hold.
  { intros name bytes p Hn Hp. destruct (Hst name bytes p Hn Hp) as (key & ef0 & b0 & H1 & H2 & H3 & H4 & H5).
    exists key, ef0, b0. split_and!; try done. by eapply content_kept. }
  destruct H as [[Hr _]|(Hv & key & Hkey & [[Hr _]|(written & (Hn & Hr & Hlim & (bytes & Hb & Hw) & Hc) & _)])].
  - split; rewrite Hr; done.
  - split; rewrite Hr; done.
  - split; rewrite Hr.
    + rewrite map_size_insert_None by done. lia.
    + intros name stored p [[<- <-]|[_ Hin]]%lookup_insert_Some Hp; [|by eapply Hold].
      pose proof (read_new _ _ _ _ _ _ _ Hb Hw Hp) as ->. exists key, ef, body. done.
Qed.

Lemma step_intact st label : intact st -> intact (prompt_step st label).
Proof.
  intros Hst. destruct (step_kinds st label) as [|ef e b|st' Hr Hc Hl]; [done|by apply append_intact|].
  destruct Hst as [Hsize Hst]. split; rewrite Hr; [done|]. intros name bytes r Hn Hp.
  destruct (Hst name bytes r Hn Hp) as (key & ef & body & H1 & H2 & H3 & H4 & H5). exists key, ef, body.
  split_and!; try done. eapply content_kept; [|done]. rewrite Hc. apply kept_refl.
Qed.

(** In any run from an empty store there are at most 8192 records, and every record that
    can be read is under the key of its source, was checked when it was observed, and its body
    is stored with the digest the record states; torn writes leave no wrong record. *)
Theorem prompts_intact labels : intact (prompt_run empty_store labels).
Proof.
  pose proof prompt_store_starts as H. revert H. generalize empty_store. induction labels as [|label labels IH]; intros st Hst; [done|].
  by apply IH, step_intact.
Qed.

(** * What a session sees *)

(** Every entry of a directory is listed once. *)
Class ReadDir := read_dir_lists : forall d, read_dir d ≡ₚ map_to_list d.
Context `{RD : !ReadDir}.

Lemma scanned_in d name bytes : (name, bytes) ∈ scanned read_dir d -> d !! name = Some bytes.
Proof.
  unfold scanned. intros (k & H & _)%elem_of_take. apply list_elem_of_lookup_2 in H.
  rewrite (read_dir_lists d) in H. by apply elem_of_map_to_list in H.
Qed.

Lemma scanned_all d name bytes :
  Z.of_nat (size d) <= MAX_FILES -> d !! name = Some bytes -> (name, bytes) ∈ scanned read_dir d.
Proof.
  intros Hsize Hd. unfold scanned. rewrite take_ge.
  - rewrite (read_dir_lists d). by apply elem_of_map_to_list.
  - rewrite (read_dir_lists d), length_map_to_list. lia.
Qed.

(** A link that ties a prompt to the session. *)
Definition tied (host_id : string) (session : Session) (d : gmap string string) (link : CanonicalLink) : Prop :=
  cl_host_id link = host_id /\ matches (cl_session link) session = true
  /\ exists name bytes, d !! name = Some bytes /\ read_link bytes = Ok link.

Lemma session_links_spec host_id session d files : forall linked out,
  (forall name bytes, (name, bytes) ∈ files -> d !! name = Some bytes) ->
  session_links host_id session files linked = Ok out ->
  Forall (tied host_id session d) linked -> Forall (tied host_id session d) out.
Proof.
  induction files as [|[name bytes] files IH]; intros linked out Hf; cbn [session_links].
  { by intros [= <-]. }
  intros (link & Hl & H)%bind_Ok Hall. apply IH in H; [done|intros; apply Hf; by right|].
  destruct (String.eqb_spec (cl_host_id link) host_id) as [Hh|]; [|done]. cbn [andb].
  destruct (matches (cl_session link) session) eqn:Em; [|done]. destruct (_ <? 8); [|done].
  apply Forall_app. split; [done|]. constructor; [|constructor]. split; [done|]. split; [done|].
  exists name, bytes. split; [apply Hf; left|done].
Qed.

(** What a session may see of a record. *)
Definition visible (host_id : string) (session : Session) (st : PromptStore) (r : PromptRecord) : Prop :=
  en_host_id (pr_envelope r) = host_id
  /\ (exists name bytes stored, ps_records st !! name = Some bytes /\ read_prompt bytes = Ok stored
        /\ exists links, r = with_correlations links stored)
  /\ (is_some_and (fun fence => matches fence session) (en_session (pr_envelope r)) = true \/ pr_correlations r <> [])
  /\ Forall (fun link => tied host_id session (ps_links st) link /\ cl_prompt_id link = pr_id r
        /\ cl_agent link = en_agent (pr_envelope r)
        /\ cl_conversation_id link = en_conversation_id (pr_envelope r)) (pr_correlations r).

Lemma correlations_of_in linked record link :
  link ∈ correlations_of linked record <->
  link ∈ linked /\ cl_prompt_id link = pr_id record /\ cl_host_id link = en_host_id (pr_envelope record)
  /\ cl_agent link = en_agent (pr_envelope record)
  /\ cl_conversation_id link = en_conversation_id (pr_envelope record).
Proof.
  unfold correlations_of. rewrite list_elem_of_In, !filter_In, <- list_elem_of_In, !andb_true_iff, !bool_decide_eq_true,
    !String.eqb_eq. tauto.
Qed.

Lemma projected_visible host_id session st linked name bytes stored r :
  ps_records st !! name = Some bytes -> read_prompt bytes = Ok stored ->
  Forall (tied host_id session (ps_links st)) linked ->
  projected host_id session linked stored = Some r -> visible host_id session st r.
Proof.
  intros Hn Hr Hlinked. unfold projected.
  destruct (String.eqb_spec (en_host_id (pr_envelope stored)) host_id) as [Hh|]; [|done]. cbn [andb].
  set (links := correlations_of linked stored). destruct (_ || _) eqn:E; [|done]. intros [= <-].
  assert (forall link, link ∈ sort_by task_leb links <-> link ∈ links) as Hin by (intros; apply sort_by_elem).
  split; [done|]. split; [exists name, bytes, stored; split_and!; [done..|by exists links]|].
  cbn [with_correlations pr_envelope pr_correlations pr_id]. split.
  - apply orb_true_iff in E as [E|E]; [by left|right]. destruct links as [|l ls]; [done|].
    intros Hnil. assert (l ∈ sort_by task_leb (l :: ls)) as Hl by (apply Hin; left). rewrite Hnil in Hl. by apply elem_of_nil in Hl.
  - apply Forall_forall. intros link (Hl & Hp & _ & Ha & Hc)%Hin%correlations_of_in.
    rewrite Forall_forall in Hlinked. split; [by apply Hlinked|done].
Qed.

Lemma session_records_spec host_id session st files : forall linked records out,
  (forall name bytes, (name, bytes) ∈ files -> ps_records st !! name = Some bytes) ->
  Forall (tied host_id session (ps_links st)) linked ->
  session_records host_id session linked files records = Ok out ->
  Forall (visible host_id session st) records ->
  Forall (visible host_id session st) out /\ (forall r, r ∈ records -> r ∈ out)
  /\ (forall name bytes stored, (name, bytes) ∈ files -> is_record name = true -> read_prompt bytes = Ok stored ->
        en_host_id (pr_envelope stored) = host_id ->
        is_some_and (fun fence => matches fence session) (en_session (pr_envelope stored)) = true ->
        exists links, with_correlations links stored ∈ out).
Proof.
  induction files as [|[name bytes] files IH]; intros linked records out Hf Hl; cbn [session_records].
  { intros [= <-] Hr. split; [done|]. split; [done|]. intros ? ? ? []%elem_of_nil. }
  intros ([] & _ & H)%bind_Ok Hr. assert (forall n b, (n, b) ∈ files -> ps_records st !! n = Some b) as Hf'
    by (intros; apply Hf; by right).
  destruct (is_record name) eqn:En; cbn [negb] in H.
  - apply bind_Ok in H as (stored & Hstored & H).
    assert (Forall (visible host_id session st) (option_list (projected host_id session linked stored))) as Hp.
    { destruct (projected host_id session linked stored) as [r|] eqn:Ep; [|constructor].
      constructor; [|constructor]. eapply projected_visible; [apply Hf; left|done..]. }
    apply IH in H as (H1 & H2 & H3); [|done|by apply Forall_forall; intros link [Hin%list_elem_of_In _]%list_elem_of_In%filter_In;
      rewrite Forall_forall in Hl; apply Hl|by apply Forall_app].
    split; [done|]. split; [intros r Hin; apply H2, elem_of_app; by left|].
    intros n b s [[= -> ->]|Hin]%elem_of_cons Hn Hs Hh Hfence; [|by eapply H3].
    rewrite Hstored in Hs. injection Hs as ->. exists (correlations_of linked s). apply H2, elem_of_app. right.
    unfold projected. rewrite Hh, String.eqb_refl, Hfence. cbn [andb orb option_list]. left.
  - apply IH in H as (H1 & H2 & H3); [|done..]. split; [done|]. split; [done|].
    intros n b s [[= -> ->]|Hin]%elem_of_cons Hn; [congruence|by eapply H3].
Qed.

Lemma record_leb_total a b : record_leb a b = true \/ record_leb b a = true.
Proof.
  unfold record_leb. destruct (Z.lt_total (pr_observed_at a) (pr_observed_at b)) as [H|[->|H]].
  - left. apply Z.ltb_lt in H. by rewrite H.
  - rewrite Z.eqb_refl. destruct (String.leb_total (uuid_to_string (pr_id a)) (uuid_to_string (pr_id b))) as [->| ->];
      [left|right]; by rewrite orb_true_r.
  - right. apply Z.ltb_lt in H. by rewrite H.
Qed.

Lemma record_leb_trans a b c : record_leb a b = true -> record_leb b c = true -> record_leb a c = true.
Proof.
  unfold record_leb. rewrite !orb_true_iff, !andb_true_iff, !Z.ltb_lt, !Z.eqb_eq.
  intros [H1|[H1 H1']] [H2|[H2 H2']]; [left; lia..|right]. split; [lia|by eapply string_leb_trans].
Qed.

Lemma last_64_spec {A : Type} (R : A -> A -> Prop) (l : list A) :
  StronglySorted R l ->
  (length (last_64 l) <= 64)%nat /\ StronglySorted R (last_64 l)
  /\ forall x, x ∈ l -> x ∈ last_64 l \/ (length (last_64 l) = 64%nat /\ Forall (R x) (last_64 l)).
Proof.
  intros Hs. unfold last_64. rewrite <- (take_drop (length l - 64) l) in Hs.
  apply StronglySorted_app in Hs as (Hle & _ & Hd). split; [rewrite length_drop; lia|]. split; [done|].
  intros x Hx. rewrite <- (take_drop (length l - 64) l) in Hx. apply elem_of_app in Hx as [Hx|Hx]; [|by left].
  right. split.
  - destruct (decide (length l - 64 = 0)%nat) as [Hz|]; [rewrite Hz in Hx; by apply elem_of_nil in Hx|].
    rewrite length_drop. lia.
  - apply Forall_forall. intros y Hy. by apply Hle.
Qed.

(** A session sees only prompts of its host that were fenced to this very instance of it,
    or that a link for this instance names, with those links; it sees the newest 64 in their
    order, and all when there are no more. *)
Theorem session_sees_its_own host_id session st rs :
  Z.of_nat (size (ps_records st)) <= MAX_FILES -> for_session host_id session st = Ok rs ->
  Forall (visible host_id session st) rs /\ (length rs <= 64)%nat
  /\ StronglySorted (fun a b => record_leb a b = true) rs
  /\ forall name bytes stored, ps_records st !! name = Some bytes -> is_record name = true ->
       read_prompt bytes = Ok stored -> en_host_id (pr_envelope stored) = host_id ->
       is_some_and (fun fence => matches fence session) (en_session (pr_envelope stored)) = true ->
       (exists links, with_correlations links stored ∈ rs)
       \/ (length rs = 64%nat /\ Forall (fun r => record_leb stored r = true) rs).
Proof.
  intros Hsize. unfold PromptIngress.for_session. intros (linked & Hlinked & (records & Hrec & [= <-])%bind_Ok)%bind_Ok.
  apply (session_links_spec _ _ (ps_links st)) in Hlinked; [|intros; by apply scanned_in|constructor].
  apply (session_records_spec host_id session st) in Hrec as (Hvis & _ & Hall); [|intros; by apply scanned_in|done|constructor].
  pose proof (last_64_spec _ _ (sort_by_sorted record_leb record_leb_total record_leb_trans records)) as (Hlen & Hsorted & Hin).
  split; [|split; [done|split; [done|]]].
  - apply Forall_forall. intros r Hr. rewrite Forall_forall in Hvis. apply Hvis.
    apply (sort_by_elem record_leb). unfold last_64 in Hr.
    rewrite <- (take_drop (length (sort_by record_leb records) - 64) (sort_by record_leb records)).
    apply elem_of_app. by right.
  - intros name bytes stored Hn Hrecord Hread Hh Hfence.
    destruct (Hall name bytes stored (scanned_all _ _ _ Hsize Hn) Hrecord Hread Hh Hfence) as [links Hl].
    apply (sort_by_elem record_leb) in Hl. destruct (Hin _ Hl) as [Hl'|[H64 Hle]]; [left; by exists links|by right].
Qed.

(** * A record that cannot be read *)

Lemma session_records_fail host_id session files name bytes : forall linked records,
  (name, bytes) ∈ files -> is_record name = true -> (forall r, read_prompt bytes <> Ok r) ->
  forall out, session_records host_id session linked files records <> Ok out.
Proof.
  induction files as [|[n b] files IH]; intros linked records Hin Hn Hr out; [by apply elem_of_nil in Hin|].
  cbn [session_records]. intros ([] & _ & H)%bind_Ok. apply elem_of_cons in Hin as [[= <- <-]|Hin].
  - rewrite Hn in H. cbn [negb] in H. apply bind_Ok in H as (r & Hread & _). by apply (Hr r).
  - destruct (is_record n); cbn [negb] in H; [apply bind_Ok in H as (r & _ & H)|]; by eapply IH.
Qed.

Lemma record_file_is_record key : key <> EmptyString -> is_record (record_file key) = true.
Proof.
  intros Hne. unfold is_record, record_file. apply andb_true_iff. split.
  - unfold ends_with. by rewrite str_strip_suffix_app.
  - apply negb_true_iff, String.eqb_neq. intros H%(f_equal str_len). rewrite str_len_append in H.
    change (str_len ".json") with 5 in H. apply Hne. destruct key as [|c key]; [done|]. cbn in H. pose proof (str_len_nonneg key).
    unfold str_len in *. cbn [String.length] in H. lia.
Qed.

(** An observation whose record is larger than what is read back is answered as
    accepted, and from then on no session of the host sees any prompt, whatever else is
    observed and linked. *)
Theorem oversized_record_hides_prompts ef e body st st1 id key bytes labels host_id session :
  intact st -> (forall s, sha256_hex s <> EmptyString) ->
  append ef e body st = (st1, Ok (Accepted id)) -> source_key e key ->
  record_to_vec (new_record sha256_hex ef key e body) = Some bytes -> MAX_RECORD < str_len bytes ->
  forall out, for_session host_id session (prompt_run st1 labels) <> Ok out.
Proof.
  intros Hintact Hsha Happ Hkey Hbytes Hlarge out.
  assert (ps_records st1 !! record_file key = Some bytes) as Hrec.
  { apply append_cases in Happ as (_ & _ & [[_ [? [=]]]|(_ & key' & Hkey' & H)]).
    rewrite (source_key_unique e e key key' eq_refl Hkey Hkey') in H.
    destruct H as [(_ & b & _ & Ha)|(written & (_ & Hst & _) & Ha)].
    - by destruct (Ha _ eq_refl) as (? & _ & [=] & _).
    - destruct (Ha _ eq_refl) as [_ Hw]. rewrite Hbytes in Hw. injection Hw as ->. rewrite Hst. apply lookup_insert_eq. }
  assert (intact (prompt_run st1 labels)) as [Hsize _].
  { assert (intact st1) as H1 by (pose proof (append_intact ef e body st Hintact) as H; by rewrite Happ in H).
    clear -H1 PL. revert st1 H1. induction labels as [|label labels IH]; intros st1 H1; [done|]. by apply IH, step_intact. }
  destruct (run_kept labels st1) as (Hk & _ & _). apply Hk in Hrec.
  unfold PromptIngress.for_session. intros (linked & _ & (records & H & _)%bind_Ok)%bind_Ok.
  eapply session_records_fail; [by apply scanned_all| | |exact H].
  - destruct Hkey as (b & _ & ->). by apply record_file_is_record.
  - intros r [Hlen _]%read_prompt_Ok. lia.
Qed.

(** * What a worker sees, and the frames of the socket *)

(** A worker sees at most sixteen prompts, recent ones, and of each only its structure. *)
Lemma worker_sees_structure records now max_age max_items values :
  worker_eligible records now max_age max_items = Ok values ->
  (length values <= 16)%nat
  /\ Forall (fun v => exists r, r ∈ records /\ v = worker_value r /\ is_prompt (en_kind (pr_envelope r)) = true
               /\ 0 <= now - pr_observed_at r <= 86400) values.
Proof.
  unfold worker_eligible. intros ([] & Hb%ensure_Ok & [= <-])%bind_Ok.
  apply andb_true_iff in Hb as [Ha%Z.leb_le Hi%Z.leb_le]. split; [rewrite length_map, length_take; lia|].
  apply Forall_forall. intros v (r & -> & Hr)%list_elem_of_fmap. exists r.
  apply elem_of_take in Hr as (k & Hr & _). apply list_elem_of_lookup_2, list_elem_of_In, filter_In in Hr as [Hin He].
  apply in_rev, list_elem_of_In in Hin. unfold eligible in He. rewrite !andb_true_iff, !Z.leb_le in He.
  split; [done|]. split; [done|]. split; [tauto|lia].
Qed.

Lemma be_round_trip n : 0 <= n < 4294967296 -> from_be (to_be n) = n.
Proof.
  intros Hn. unfold from_be, to_be. cbn [fold_left].
  pose proof (Z.div_mod n 256 ltac:(lia)). pose proof (Z.mod_pos_bound n 256 ltac:(lia)).
  replace (n / 65536) with (n / 256 / 256) by (rewrite Z.div_div by lia; done).
  replace (n / 16777216) with (n / 256 / 256 / 256) by (rewrite !Z.div_div by lia; done).
  pose proof (Z.div_mod (n / 256) 256 ltac:(lia)). pose proof (Z.div_mod (n / 256 / 256) 256 ltac:(lia)).
  rewrite (Z.mod_small (n / 256 / 256 / 256) 256); [lia|].
  split; [repeat apply Z.div_pos; lia|]. repeat apply Z.div_lt_upper_bound; lia.
Qed.

(** Only the owner's connection is read; what it writes is one frame. *)
Lemma connection_frame ef euid uid host_id load stream st st' out :
  handle_connection sha256_hex ef euid uid host_id load stream st = (st', Ok out) ->
  uid = euid /\ exists response, out = to_be (zlen response) ++ response
    /\ exists r, (str_bytes <$> to_vec (response_json r)) = Some response.
Proof.
  unfold handle_connection. destruct (ensure (uid =? euid) _ ;! _) as [bytes|] eqn:E; [|by intros [= _ ?]].
  apply bind_Ok in E as ([] & Hu%ensure_Ok%Z.eqb_eq & _).
  destruct (handle_request _ _ _ _ _ _ _ _) as [st1 r]. intros [= <- H]. split; [done|].
  apply bind_Ok in H as (response & Hr%ok_or_Ok & [= <-]). exists (str_bytes response). split; [done|].
  exists r. by rewrite Hr.
Qed.
End Prompts.
