(* ===== verification/PromptWitness.v ===== *)
(** * Inputs at which the theorems on prompts apply

    A prompt of a session, observed twice; and one of a session in a directory with a long
    name, whose record cannot be read again. *)

From S2P Require Import Prelude Strings Json Value Upgrade Config EventsHost PromptIngress PromptTheorems.
Import JsonModel.

#[local] Open Scope Z_scope.
#[local] Open Scope rust_scope.

#[local] Ltac by_value := match goal with |- _ = ?v => vm_cast_no_check (eq_refl v) end.

Module PromptW.

#[local] Instance serde : SerdeJson := codec [].

#[local] Instance fence_dec : EqDecision SessionFence.
Proof. solve_decision. Defined.
#[local] Instance envelope_dec : EqDecision Envelope.
Proof. solve_decision. Defined.
#[local] Instance link_dec : EqDecision CanonicalLink.
Proof. solve_decision. Defined.
#[local] Instance record_dec : EqDecision PromptRecord.
Proof. solve_decision. Defined.

(** The derived [Serialize]. *)
Definition opt (v : option string) : Json := match v with Some s => JStr s | None => JNull end.
Definition envelope_json (e : Envelope) : Json :=
  JObj [("schema_version", JInt (en_schema_version e)); ("host_id", JStr (en_host_id e));
        ("session", match en_session e with Some f => fence_json f | None => JNull end);
        ("agent", JStr (agent_wire (en_agent e))); ("conversation_id", JStr (en_conversation_id e));
        ("source_event_id", JStr (en_source_event_id e)); ("kind", JStr (kind_wire (en_kind e)));
        ("gap_reason", JNull); ("repository_key", opt (en_repository_key e)); ("workspace_id", opt (en_workspace_id e));
        ("task_id", opt (en_task_id e)); ("execution_id", opt (en_execution_id e));
        ("agent_turn_id", opt (en_agent_turn_id e))]%string.
Definition record_json (r : PromptRecord) : Json :=
  JObj [("id", JStr (uuid_to_string (pr_id r))); ("envelope", envelope_json (pr_envelope r));
        ("observed_at", JInt (pr_observed_at r)); ("body_sha256", opt (pr_body_sha256 r));
        ("body_bytes", JInt (pr_body_bytes r)); ("content_ref", opt (pr_content_ref r))]%string.

Definition sha256_hex (s : string) : string := "digest-" +:+ decimal (str_len s).

Definition fence (cwd : string) : SessionFence := mkFence "work" 1700000000 77 cwd.
Definition envelope (source cwd : string) : Envelope :=
  mkPromptEnvelope 1 "host-1" (Some (fence cwd)) Codex "conversation" source UserPromptAccepted None None None
    (Some "task"%string) None None.
Definition effects : Effects := mkEffects (Ok tt) Created Created uuid0 1700000100.

Definition cwd : string := "/home/ada/work".
Definition long_cwd : string := "/" +:+ string_of_list_ascii (repeat "d"%char 3900).
Definition key_of (e : Envelope) : string := sha256_hex (default EmptyString (identity e)).
Definition record_of (e : Envelope) : PromptRecord := new_record sha256_hex effects (key_of e) e (Some "hello"%string).
Definition record : PromptRecord := record_of (envelope "event-1" cwd).
Definition long_record : PromptRecord := record_of (envelope "event-22" long_cwd).
Definition text : string := str_of (print (record_json record)).
Definition long_text : string := str_of (print (record_json long_record)).

(** Writes and reads the two records. *)
#[local] Instance prompt_codec : PromptCodec := {|
  record_to_vec r := if bool_decide (r = record) then Some text
                     else if bool_decide (r = long_record) then Some long_text else None;
  record_from_slice b := if String.eqb b text then Some record
                         else if String.eqb b long_text then Some long_record else None;
  link_to_vec _ := None;
  link_from_slice _ := None;
  request_from_slice _ := None;
|}.

Lemma texts_differ : String.eqb long_text text = false.
Proof. by_value. Qed.

Definition reads_no_prefix (s : string) : bool :=
  forallb (fun n => is_none (record_from_slice (substring 0 n s))) (seq 0 (String.length s)).
Lemma text_torn : reads_no_prefix text = true.
Proof. by_value. Qed.
Lemma long_text_torn : reads_no_prefix long_text = true.
Proof. by_value. Qed.

Lemma reads_no_prefix_spec s n :
  reads_no_prefix s = true -> (n < String.length s)%nat -> record_from_slice (substring 0 n s) = None.
Proof.
  unfold reads_no_prefix. rewrite forallb_forall. intros H Hn. specialize (H n). rewrite in_seq in H.
  destruct (record_from_slice _); [|reflexivity]. discriminate H. lia.
Qed.

#[local] Instance prompt_laws : PromptLaws.
Proof.
  split; intros r bytes.
  - cbn [record_to_vec record_from_slice prompt_codec]. case_bool_decide as H1; [|case_bool_decide as H2; [|done]].
    + intros [= <-] _. by rewrite String.eqb_refl, H1.
    + intros [= <-] _. by rewrite texts_differ, String.eqb_refl, H2.
  - intros n. cbn [record_to_vec prompt_codec]. case_bool_decide; [|case_bool_decide; [|done]]; intros [= <-] Hn.
    + exact (reads_no_prefix_spec _ _ text_torn Hn).
    + exact (reads_no_prefix_spec _ _ long_text_torn Hn).
Qed.

Definition read_dir (d : gmap string string) : list (string * string) := map_to_list d.
#[local] Instance read_dir_law : ReadDir read_dir.
Proof. intros d. reflexivity. Qed.

Definition session (cwd : string) : Session := mkSession "work" cwd [cwd] 1700000000 77 Ask no_grants.

Definition first : PromptStore * result string Append :=
  append sha256_hex effects (envelope "event-1" cwd) (Some "hello"%string) empty_store.
Definition st1 : PromptStore := first.1.
Lemma first_value : first = (st1, Ok (Accepted uuid0)).
Proof. by_value. Qed.

(** In between the prompt of the long directory is observed. *)
Definition load (id : string) : result string Session := Ok (session long_cwd).
Definition labels : list PromptLabel :=
  [PObserve effects 501 501 "host-1" load (envelope "event-22" long_cwd) (Some "hello"%string)].
Definition second : PromptStore * result string Append :=
  append sha256_hex effects (envelope "event-1" cwd) (Some "hello"%string) (prompt_run sha256_hex read_dir st1 labels).
Definition st2 : PromptStore := second.1.
Lemma second_value : second = (st2, Ok (Duplicate uuid0)).
Proof. by_value. Qed.

Lemma accepted_once_witness :
  ps_records st2 = ps_records (prompt_run sha256_hex read_dir st1 labels)
  /\ ps_records st2 <> ps_records st1.
Proof.
  split; [|intros H; apply (f_equal size) in H; vm_compute in H; discriminate H].
  destruct (accepted_once sha256_hex read_dir effects (envelope "event-1" cwd) (Some "hello"%string) empty_store st1
    (Accepted uuid0) labels effects (envelope "event-1" cwd) (Some "hello"%string) st2 (Duplicate uuid0)
    first_value second_value eq_refl eq_refl eq_refl eq_refl) as (id & _ & Hid & Hst & _).
  exact Hst.
Defined.

Definition seen : list PromptRecord :=
  match for_session read_dir "host-1" (session cwd) st1 with Ok rs => rs | Err _ => [] end.
Lemma seen_value : for_session read_dir "host-1" (session cwd) st1 = Ok seen.
Proof. by_value. Qed.
Lemma seen_one : length seen = 1%nat.
Proof. by_value. Qed.
Lemma st1_size : (Z.of_nat (size (ps_records st1)) <=? MAX_FILES) = true.
Proof. by_value. Qed.

Lemma session_sees_its_own_witness :
  length seen = 1%nat /\ Forall (visible "host-1" (session cwd) st1) seen.
Proof.
  destruct (session_sees_its_own read_dir "host-1" (session cwd) st1 seen (proj1 (Z.leb_le _ _) st1_size) seen_value)
    as (Hv & _).
  split; [exact seen_one|exact Hv].
Defined.

Definition long_first : PromptStore * result string Append :=
  append sha256_hex effects (envelope "event-22" long_cwd) (Some "hello"%string) empty_store.
Definition long_st : PromptStore := long_first.1.
Lemma long_value : long_first = (long_st, Ok (Accepted uuid0)).
Proof. by_value. Qed.
Lemma long_text_value :
  record_to_vec (new_record sha256_hex effects (key_of (envelope "event-22" long_cwd)) (envelope "event-22" long_cwd)
                   (Some "hello"%string)) = Some long_text.
Proof. by_value. Qed.
Lemma long_text_large : (MAX_RECORD <? str_len long_text) = true.
Proof. by_value. Qed.
Lemma empty_intact : intact sha256_hex empty_store.
Proof. exact (prompt_store_starts sha256_hex). Qed.

Lemma oversized_record_hides_prompts_witness :
  exists e, for_session read_dir "host-1" (session cwd) (prompt_run sha256_hex read_dir long_st
    [PObserve effects 501 501 "host-1" load (envelope "event-1" cwd) (Some "hello"%string)]) = Err e.
Proof.
  destruct (for_session _ _ _ _) as [out|e] eqn:Hout; [exfalso|by exists e].
  apply (oversized_record_hides_prompts sha256_hex read_dir effects (envelope "event-22" long_cwd) (Some "hello"%string)
    empty_store long_st uuid0 (key_of (envelope "event-22" long_cwd)) long_text) in Hout; [exact Hout|..].
  - exact empty_intact.
  - intros s. discriminate.
  - exact long_value.
  - eexists. split; reflexivity.
  - exact long_text_value.
  - exact (proj1 (Z.ltb_lt _ _) long_text_large).
Defined.
End PromptW.
