(* ===== verification/Lifecycle.v ===== *)
(** * The lifecycle fence of session instances

    The first part of opencode_server.rs (and, with other words in its
    messages, of codex_app_server.rs and devin_acp.rs): a registry that counts
    the operations in flight for every session instance, closes an instance to
    new operations when its session ends, lets the shutdown wait until the last
    operation is done, and refuses to replace a session that still drains; the
    table of task runtimes the fence guards; and the two monitors that decide
    that a session has ended.

    [System] puts them under concurrency: every section that runs under the
    registry's lock is one step, and a task between two sections is a value of
    [Task].  The metadata of a session and its activity probe are answers of the
    environment; so are the moments at which tasks run. *)

From S2P Require Import Prelude.

(** * Session instances *)

(** The fields of [config::Session] that the modelled code reads. *)
Record Session := mkSession {
  se_id : string;
  se_started_at : Z;
  se_process_id : Z;
  se_cwd : string;
}.

Record SessionInstance := mkInstance {
  si_id : string;
  si_started_at : Z;
  si_process_id : Z;
}.

#[global] Instance session_instance_eq : EqDecision SessionInstance.
Proof. solve_decision. Defined.
#[global] Instance session_instance_countable : Countable SessionInstance.
Proof.
  refine (inj_countable' (fun i => (si_id i, si_started_at i, si_process_id i))
            (fun '(a, b, c) => mkInstance a b c) _). by intros [].
Defined.

Definition from_session (session : Session) : SessionInstance :=
  mkInstance (se_id session) (se_started_at session) (se_process_id session).

Definition matches (owner : SessionInstance) (session : Session) : bool :=
  String.eqb (si_id owner) (se_id session)
  && (si_started_at owner =? se_started_at session)
  && (si_process_id owner =? se_process_id session).

(** * The registry

    The watch channel of an entry is the last value sent on it, and its
    [Notify] a number: two entries never share one. *)

Record LifecycleEntry := mkEntry {
  closing : bool;
  cleanup_complete : bool;
  in_flight : Z;
  cancellation : bool;
  drain_notify : Z;
}.

Definition LifecycleEntry_new (notify : Z) : LifecycleEntry := mkEntry false false 0 false notify.

Record LifecycleRegistry := mkRegistry {
  entries : gmap SessionInstance LifecycleEntry;
  next_notify : Z;
}.

Definition registry_default : LifecycleRegistry := mkRegistry ∅ 0.

Definition set_entry (r : LifecycleRegistry) (owner : SessionInstance) (e : LifecycleEntry) :
    LifecycleRegistry :=
  mkRegistry (<[owner := e]> (entries r)) (next_notify r).

Definition remove_entry (r : LifecycleRegistry) (owner : SessionInstance) : LifecycleRegistry :=
  mkRegistry (delete owner (entries r)) (next_notify r).

(** [entries.entry(owner).or_insert_with(LifecycleEntry::new)]. *)
Definition entry_or_new (r : LifecycleRegistry) (owner : SessionInstance) :
    LifecycleRegistry * LifecycleEntry :=
  match entries r !! owner with
  | Some e => (r, e)
  | None =>
      let e := LifecycleEntry_new (next_notify r) in
      (mkRegistry (<[owner := e]> (entries r)) (next_notify r + 1), e)
  end.

Definition begin_session_instance_shutdown (r : LifecycleRegistry) (owner : SessionInstance) :
    LifecycleRegistry :=
  let '(r, e) := entry_or_new r owner in
  if negb (closing e) then
    set_entry r owner (mkEntry true (cleanup_complete e) (in_flight e) true (drain_notify e))
  else r.

Definition begin_session_shutdown (r : LifecycleRegistry) (session : Session) :
    LifecycleRegistry :=
  begin_session_instance_shutdown r (from_session session).

Definition finish_session_shutdown (r : LifecycleRegistry) (owner : SessionInstance) :
    LifecycleRegistry * result string unit :=
  match entries r !! owner with
  | None => (r, Ok tt)
  | Some e =>
      if negb (closing e) then (r, Err "session instance is not closing"%string)
      else if negb (in_flight e =? 0) then
        (r, Err "session shutdown finished with in-flight operation(s)"%string)
      else
        (remove_entry (set_entry r owner
           (mkEntry (closing e) true (in_flight e) (cancellation e) (drain_notify e))) owner,
         Ok tt)
  end.

Definition session_instance_is_closing (r : LifecycleRegistry) (owner : SessionInstance) : bool :=
  is_some_and closing (entries r !! owner).

(** [Drop for LifecyclePermit]: the first locked section, which says whom to
    notify and whether to remove the entry, and the second. *)
Definition permit_release (r : LifecycleRegistry) (owner : SessionInstance) :
    LifecycleRegistry * (option Z * bool) :=
  match entries r !! owner with
  | None => (r, (None, false))
  | Some e =>
      let left := saturating_sub (in_flight e) 1 in
      (set_entry r owner
         (mkEntry (closing e) (cleanup_complete e) left (cancellation e) (drain_notify e)),
       (if left =? 0 then Some (drain_notify e) else None, cleanup_complete e && (left =? 0)))
  end.

Definition permit_remove (r : LifecycleRegistry) (owner : SessionInstance) : LifecycleRegistry :=
  if is_some_and (fun e => cleanup_complete e && (in_flight e =? 0)) (entries r !! owner)
  then remove_entry r owner else r.

(** One look of [wait_for_session_inflight_drain]: [Ok None] when there is
    nothing to wait for, [Ok (Some n)] to wait for the notification [n]. *)
Definition drain_look (r : LifecycleRegistry) (owner : SessionInstance) :
    result string (option Z) :=
  match entries r !! owner with
  | None => Ok None
  | Some e =>
      ensure (closing e)
        "cannot drain operations for a session instance that is not closing"%string ;!
      if in_flight e =? 0 then Ok None else Ok (Some (drain_notify e))
  end.

Definition ensure_session_replacement_allowed (r : LifecycleRegistry) (session_id : string) :
    result string unit :=
  ensure (negb (existsb (fun kv => String.eqb (si_id kv.1) session_id)
                  (map_to_list (entries r))))
    "session is still draining its previous instance"%string.

(** [ensure_current_active_instance], up to its first lock and the answers it
    awaits, and the section under the lock that follows. *)
Definition verify_instance (r : LifecycleRegistry) (owner : SessionInstance) (session : Session)
    (current : result string Session) (active : result string bool) : result string unit :=
  ensure (matches owner session)
    "operation session snapshot does not match its owner instance"%string ;!
  ensure (negb (session_instance_is_closing r owner)) "session instance is closing"%string ;!
  let! current := map_err (fun _ => "cannot verify current session instance"%string) current in
  ensure (matches owner current) "session instance is no longer current"%string ;!
  let! active := active in
  ensure active "session instance is not active"%string.

Definition permit_acquire (r : LifecycleRegistry) (owner : SessionInstance) :
    LifecycleRegistry * result string unit :=
  let '(r, e) := entry_or_new r owner in
  if closing e then
    (r, Err "session instance began closing while it was being verified"%string)
  else
    (set_entry r owner (mkEntry (closing e) (cleanup_complete e) (in_flight e + 1)
                          (cancellation e) (drain_notify e)),
     Ok tt).

(** The whole function, when nothing else runs in between. *)
Definition ensure_current_active_instance (r : LifecycleRegistry) (owner : SessionInstance)
    (session : Session) (current : result string Session) (active : result string bool) :
    LifecycleRegistry * result string unit :=
  match verify_instance r owner session current active with
  | Err e => (r, Err e)
  | Ok _ => permit_acquire r owner
  end.

(** * Task runtimes *)

Record RuntimeHandle := mkRuntime {
  rt_owner : SessionInstance;
  rt_scope : string;
  rt_instance_id : Z;
}.

(** [insert_runtime], the section under the locks. *)
Definition insert_runtime (r : LifecycleRegistry) (runtimes : gmap Z RuntimeHandle)
    (task_id : Z) (runtime : RuntimeHandle) : gmap Z RuntimeHandle * result string unit :=
  match
    ensure (is_none_or (fun e => negb (closing e)) (entries r !! rt_owner runtime))
      "session instance is closing"%string ;!
    ensure (is_none (runtimes !! task_id)) "task runtime is already registered"%string
  with
  | Err e => (runtimes, Err e)
  | Ok _ => (<[task_id := runtime]> runtimes, Ok tt)
  end.

Definition remove_runtime_instance (runtimes : gmap Z RuntimeHandle) (task_id instance_id : Z) :
    gmap Z RuntimeHandle :=
  if is_some_and (fun rt => rt_instance_id rt =? instance_id) (runtimes !! task_id)
  then delete task_id runtimes else runtimes.

(** [shutdown_session_runtimes]: the clients to stop, and the table after. *)
Definition session_runtimes (runtimes : gmap Z RuntimeHandle) (owner : SessionInstance) :
    list (Z * RuntimeHandle) :=
  List.filter (fun kv => bool_decide (rt_owner kv.2 = owner)) (map_to_list runtimes).

Definition shutdown_session_runtimes (runtimes : gmap Z RuntimeHandle) (owner : SessionInstance) :
    gmap Z RuntimeHandle :=
  filter (fun kv => rt_owner kv.2 <> owner) runtimes.

(** * Monitors *)

Inductive SessionStopObservation := SsActive | SsInactive | SsReplaced | SsUnknown.

#[global] Instance session_stop_observation_eq : EqDecision SessionStopObservation.
Proof. solve_decision. Defined.

Definition classify_session_observation (same_instance active : result unit bool) :
    SessionStopObservation :=
  match same_instance with
  | Ok false => SsReplaced
  | Ok true =>
      match active with
      | Ok true => SsActive
      | Ok false => SsInactive
      | Err _ => SsUnknown
      end
  | Err _ => SsUnknown
  end.

(** One poll: what reading the metadata and probing the socket answer. *)
Record Poll := mkPoll {
  po_metadata : result string Session;
  po_active : result string bool;
}.

Definition ignore_err {A : Type} (r : result string A) : result unit A := map_err (fun _ => tt) r.

Definition same_instance (owner : SessionInstance) (metadata : result string Session) :
    result unit bool :=
  match metadata with
  | Ok session => Ok (matches owner session)
  | Err _ => Err tt
  end.

(** opencode_server.rs, devin_acp.rs. *)
Definition observe_session_instance (owner : SessionInstance) (p : Poll) :
    SessionStopObservation :=
  let same := same_instance owner (po_metadata p) in
  let active := if bool_decide (same = Ok true) then ignore_err (po_active p) else Err tt in
  classify_session_observation same active.

(** The polls [wait_for_session_stop] makes before it begins the shutdown;
    [None] while it goes on. *)
Fixpoint wait_for_session_stop (owner : SessionInstance) (polls : list Poll) : option nat :=
  match polls with
  | [] => None
  | p :: rest =>
      match observe_session_instance owner p with
      | SsInactive | SsReplaced => Some O
      | SsActive | SsUnknown => S <$> wait_for_session_stop owner rest
      end
  end.

(** codex_app_server.rs. *)
Inductive SessionMonitorUnknownKind := MetadataRead | ActivityProbe.
Inductive SessionMonitorObservation :=
| MoActive | MoInactive | MoOwnerChanged | MoUnknown (kind : SessionMonitorUnknownKind).
Inductive SessionMonitorStopReason := StopInactive | StopOwnerChanged.
Inductive SessionMonitorAction := MaContinue | MaStop (reason : SessionMonitorStopReason).

Record SessionStopMonitor := mkMonitor { consecutive_unknown : Z }.

Definition U8_MAX : Z := 255.

Definition monitor_observe (m : SessionStopMonitor) (o : SessionMonitorObservation) :
    SessionStopMonitor * SessionMonitorAction :=
  match o with
  | MoActive => (mkMonitor 0, MaContinue)
  | MoInactive => (m, MaStop StopInactive)
  | MoOwnerChanged => (m, MaStop StopOwnerChanged)
  | MoUnknown _ => (mkMonitor (Z.min (consecutive_unknown m + 1) U8_MAX), MaContinue)
  end.

Definition codex_observe_session_instance (owner : SessionInstance) (p : Poll) :
    SessionMonitorObservation :=
  match po_metadata p with
  | Ok session =>
      if negb (matches owner session) then MoOwnerChanged
      else match po_active p with
           | Ok true => MoActive
           | Ok false => MoInactive
           | Err _ => MoUnknown ActivityProbe
           end
  | Err _ => MoUnknown MetadataRead
  end.

(** With the polls at which it prints that the observation is unknown. *)
Fixpoint codex_wait_for_session_stop (owner : SessionInstance) (m : SessionStopMonitor)
    (polls : list Poll) : option nat * list bool :=
  match polls with
  | [] => (None, [])
  | p :: rest =>
      let o := codex_observe_session_instance owner p in
      match monitor_observe m o with
      | (m, MaStop _) => (Some O, [false])
      | (m, MaContinue) =>
          let printed := match o with
                         | MoUnknown _ => consecutive_unknown m =? 1
                         | _ => false
                         end in
          let '(n, log) := codex_wait_for_session_stop owner m rest in
          (S <$> n, printed :: log)
      end
  end.

(** * The fence under concurrency *)

Inductive Task :=
| TVerified (owner : SessionInstance)        (* the checks passed, the lock not yet taken *)
| THolding (owner : SessionInstance)         (* a permit *)
| TDropping (owner : SessionInstance) (notify : option Z) (remove : bool)
| TDraining (owner : SessionInstance)        (* a shutdown about to look *)
| TSleeping (owner : SessionInstance) (notify : Z)
| TReturned (r : result string unit).

Record System := mkSystem {
  sy_registry : LifecycleRegistry;
  sy_runtimes : gmap Z RuntimeHandle;
  sy_tasks : list Task;
}.

Definition system_start : System := mkSystem registry_default ∅ [].

(** [Notify::notify_waiters]: a waiter is woken if it registered before, also
    when it was not polled yet. *)
Definition wake (n : Z) (t : Task) : Task :=
  match t with
  | TSleeping owner m => if m =? n then TDraining owner else t
  | _ => t
  end.

Inductive Label :=
| LVerify (owner : SessionInstance) (session : Session) (current : result string Session)
    (active : result string bool)
| LAcquire (i : nat)
| LDrop (i : nat)
| LNotify (i : nat)
| LRemove (i : nat)
| LBegin (owner : SessionInstance)
| LDrain (owner : SessionInstance)
| LLook (i : nat)
| LTimeout (i : nat)
| LFinish (owner : SessionInstance) (ok : bool)
| LInsert (task_id : Z) (runtime : RuntimeHandle)
| LTake (task_id instance_id : Z)
| LShutdown (owner : SessionInstance).

Definition spawn (s : System) (t : Task) : System :=
  mkSystem (sy_registry s) (sy_runtimes s) (sy_tasks s ++ [t]).
Definition set_task (s : System) (i : nat) (t : Task) : System :=
  mkSystem (sy_registry s) (sy_runtimes s) (<[i := t]> (sy_tasks s)).
Definition set_registry (s : System) (r : LifecycleRegistry) : System :=
  mkSystem r (sy_runtimes s) (sy_tasks s).
Definition set_runtimes (s : System) (m : gmap Z RuntimeHandle) : System :=
  mkSystem (sy_registry s) m (sy_tasks s).

(** One step; [None] when the task of the label is not there to take it. *)
Definition system_step (s : System) (l : Label) : option System :=
  let r := sy_registry s in
  match l with
  | LVerify owner session current active =>
      Some (spawn s (match verify_instance r owner session current active with
                     | Ok _ => TVerified owner
                     | Err e => TReturned (Err e)
                     end))
  | LAcquire i =>
      match sy_tasks s !! i with
      | Some (TVerified owner) =>
          let '(r, res) := permit_acquire r owner in
          Some (set_task (set_registry s r) i
                  (if is_ok res then THolding owner else TReturned res))
      | _ => None
      end
  | LDrop i =>
      match sy_tasks s !! i with
      | Some (THolding owner) =>
          let '(r, (notify, remove)) := permit_release r owner in
          Some (set_task (set_registry s r) i (TDropping owner notify remove))
      | _ => None
      end
  | LNotify i =>
      match sy_tasks s !! i with
      | Some (TDropping owner (Some n) remove) =>
          let s := mkSystem r (sy_runtimes s) (map (wake n) (sy_tasks s)) in
          Some (set_task s i (TDropping owner None remove))
      | _ => None
      end
  | LRemove i =>
      match sy_tasks s !! i with
      | Some (TDropping owner None remove) =>
          let r := if remove then permit_remove r owner else r in
          Some (set_task (set_registry s r) i (TReturned (Ok tt)))
      | _ => None
      end
  | LBegin owner => Some (set_registry s (begin_session_instance_shutdown r owner))
  | LDrain owner => Some (spawn s (TDraining owner))
  | LLook i =>
      match sy_tasks s !! i with
      | Some (TDraining owner) =>
          Some (set_task s i (match drain_look r owner with
                              | Err e => TReturned (Err e)
                              | Ok None => TReturned (Ok tt)
                              | Ok (Some n) => TSleeping owner n
                              end))
      | _ => None
      end
  | LTimeout i =>
      match sy_tasks s !! i with
      | Some (TSleeping _ _ | TDraining _) =>
          Some (set_task s i (TReturned (Err
            "session shutdown timed out waiting for in-flight operations to drain"%string)))
      | _ => None
      end
  | LFinish owner ok =>
      let '(r, res) := finish_session_shutdown r owner in
      if Bool.eqb (is_ok res) ok then Some (set_registry s r) else None
  | LInsert task_id runtime =>
      Some (set_runtimes s (insert_runtime r (sy_runtimes s) task_id runtime).1)
  | LTake task_id instance_id =>
      Some (set_runtimes s (remove_runtime_instance (sy_runtimes s) task_id instance_id))
  | LShutdown owner =>
      Some (set_runtimes s (shutdown_session_runtimes (sy_runtimes s) owner))
  end.

Inductive run : System -> list Label -> System -> Prop :=
| run_nil (s : System) : run s [] s
| run_cons (s s1 s2 : System) (l : Label) (tr : list Label) :
    system_step s l = Some s1 -> run s1 tr s2 -> run s (l :: tr) s2.

(** Running a given list of labels. *)
Fixpoint run_list (s : System) (tr : list Label) : option System :=
  match tr with
  | [] => Some s
  | l :: rest => s ← system_step s l; run_list s rest
  end.
