(* ===== verification/LifecycleTheorems.v ===== *)
(** * The lifecycle fence: theorems

    Over every interleaving of operations, shutdowns and their waits: permits
    are counted exactly, a closing instance gives no permit and gains no
    runtime, no waiting shutdown misses its last notification, and every
    schedule of the tasks in flight lets it return.  A run shows what the fence
    does not keep: an operation verified before a shutdown can take a permit
    after it. *)

From S2P Require Import Prelude Lifecycle.

(** * Counting permits *)

Definition holds (owner : SessionInstance) (t : Task) : bool :=
  match t with
  | THolding o => bool_decide (o = owner)
  | _ => false
  end.

Definition permits (owner : SessionInstance) (tasks : list Task) : Z :=
  sum_z (map (fun t => Z.b2z (holds owner t)) tasks).

Definition in_flight_of (r : LifecycleRegistry) (owner : SessionInstance) : Z :=
  from_option in_flight 0 (entries r !! owner).

(** Weights of tasks in a list updated at one place. *)
Lemma weight_insert (f : Task -> Z) (tasks : list Task) (i : nat) (t0 t : Task) :
  tasks !! i = Some t0 ->
  sum_z (map f (<[i := t]> tasks)) = sum_z (map f tasks) - f t0 + f t.
Proof.
  revert i. induction tasks as [|x tasks IH]; intros [|i] Hi; simplify_eq/=; [lia|].
  rewrite (IH i Hi). lia.
Qed.

Lemma weight_snoc (f : Task -> Z) (tasks : list Task) (t : Task) :
  sum_z (map f (tasks ++ [t])) = sum_z (map f tasks) + f t.
Proof. rewrite map_app, sum_z_app. simpl. lia. Qed.

Lemma weight_bounds (f : Task -> Z) (k : Z) (tasks : list Task) :
  (forall t, 0 <= f t <= k) -> 0 <= sum_z (map f tasks) <= k * zlen tasks.
Proof.
  intros Hf. split; [apply sum_z_nonneg, List.Forall_map|apply sum_z_map_le];
    apply Forall_true; intros x; destruct (Hf x); done.
Qed.

Lemma weight_in (f : Task -> Z) (tasks : list Task) (i : nat) (t : Task) :
  (forall t, 0 <= f t) -> tasks !! i = Some t -> f t <= sum_z (map f tasks).
Proof.
  intros Hf. revert i. induction tasks as [|x tasks IH]; intros [|i] Hi; simplify_eq/=.
  - assert (0 <= sum_z (map f tasks)); [|lia].
    apply sum_z_nonneg, List.Forall_map, Forall_true. intros y. apply Hf.
  - pose proof (Hf x). specialize (IH i Hi). lia.
Qed.

Lemma weight_zero (f : Task -> Z) (tasks : list Task) :
  (forall t, 0 <= f t) -> (forall i t, tasks !! i = Some t -> f t = 0) ->
  sum_z (map f tasks) = 0.
Proof.
  intros Hf. induction tasks as [|x tasks IH]; intros H; simpl; [done|].
  rewrite IH; [|intros i t Hi; apply (H (S i) t Hi)]. rewrite (H O x eq_refl). done.
Qed.

Lemma weight_pos (f : Task -> Z) (tasks : list Task) :
  0 < sum_z (map f tasks) -> exists i t, tasks !! i = Some t /\ 0 < f t.
Proof.
  induction tasks as [|x tasks IH]; simpl; [lia|]. intros H.
  destruct (Z.ltb_spec 0 (f x)); [by exists O, x|].
  destruct IH as (i & t & ? & ?); [lia|]. by exists (S i), t.
Qed.

Lemma holds_nonneg (owner : SessionInstance) (t : Task) : 0 <= Z.b2z (holds owner t).
Proof. destruct (holds owner t); simpl; lia. Qed.

Lemma permits_nonneg (owner : SessionInstance) (tasks : list Task) : 0 <= permits owner tasks.
Proof. apply sum_z_nonneg, List.Forall_map, Forall_true. intros t. apply holds_nonneg. Qed.

Lemma permits_insert (owner : SessionInstance) (tasks : list Task) (i : nat) (t0 t : Task) :
  tasks !! i = Some t0 ->
  permits owner (<[i := t]> tasks)
  = permits owner tasks - Z.b2z (holds owner t0) + Z.b2z (holds owner t).
Proof. apply (weight_insert (fun t => Z.b2z (holds owner t))). Qed.

Lemma permits_snoc (owner : SessionInstance) (tasks : list Task) (t : Task) :
  holds owner t = false -> permits owner (tasks ++ [t]) = permits owner tasks.
Proof. intros H. unfold permits. rewrite weight_snoc, H. simpl. lia. Qed.

Lemma holds_wake (owner : SessionInstance) (n : Z) (t : Task) :
  holds owner (wake n t) = holds owner t.
Proof. destruct t; try done. simpl. by destruct (_ =? _). Qed.

Lemma permits_wake (owner : SessionInstance) (n : Z) (tasks : list Task) :
  permits owner (map (wake n) tasks) = permits owner tasks.
Proof.
  unfold permits. rewrite map_map. f_equal. apply map_ext. intros t. by rewrite holds_wake.
Qed.

(** * The registry's operations *)

Lemma entry_or_new_spec (r r1 : LifecycleRegistry) (owner : SessionInstance) (e : LifecycleEntry) :
  entry_or_new r owner = (r1, e) ->
  entries r1 = <[owner := e]> (entries r)
  /\ (entries r !! owner = Some e \/ entries r !! owner = None /\ e = LifecycleEntry_new (next_notify r)).
Proof.
  unfold entry_or_new. destruct (entries r !! owner) as [e0|] eqn:He; intros [= <- <-]; simpl.
  - split; [by rewrite insert_id|by left].
  - split; [done|by right].
Qed.

Lemma begin_spec (r : LifecycleRegistry) (owner : SessionInstance) :
  exists e, entries (begin_session_instance_shutdown r owner) = <[owner := e]> (entries r)
    /\ closing e = true
    /\ match entries r !! owner with
       | Some e0 => in_flight e = in_flight e0 /\ drain_notify e = drain_notify e0
                    /\ cleanup_complete e = cleanup_complete e0
                    /\ (cancellation e0 = closing e0 -> cancellation e = true)
       | None => in_flight e = 0 /\ cleanup_complete e = false /\ cancellation e = true
       end.
Proof.
  unfold begin_session_instance_shutdown.
  destruct (entry_or_new r owner) as [r1 e1] eqn:E.
  apply entry_or_new_spec in E as [Hr1 Hcase].
  destruct (closing e1) eqn:Hc; simpl.
  - exists e1. split_and!; [done..|]. destruct Hcase as [->|[-> ->]]; [|done].
    split_and!; [done..|]. by rewrite Hc.
  - eexists. split_and!; [by rewrite Hr1, insert_insert_eq|done|].
    by destruct Hcase as [->|[-> ->]].
Qed.

Lemma acquire_spec (r r1 : LifecycleRegistry) (owner : SessionInstance) (res : result string unit) :
  permit_acquire r owner = (r1, res) ->
  match entries r !! owner with
  | Some e =>
      if closing e then is_ok res = false /\ entries r1 = entries r
      else is_ok res = true
           /\ entries r1 = <[owner := mkEntry false (cleanup_complete e) (in_flight e + 1)
                                       (cancellation e) (drain_notify e)]> (entries r)
  | None => is_ok res = true
            /\ entries r1 = <[owner := mkEntry false false 1 false (next_notify r)]> (entries r)
  end.
Proof.
  unfold permit_acquire. destruct (entry_or_new r owner) as [r0 e] eqn:E.
  apply entry_or_new_spec in E as [Hr0 Hcase].
  destruct Hcase as [Hl|[Hl ->]]; rewrite Hl; simpl.
  - destruct (closing e); intros [= <- <-]; simpl; rewrite Hr0.
    + by rewrite insert_id.
    + by rewrite insert_insert_eq.
  - intros [= <- <-]. simpl. by rewrite Hr0, insert_insert_eq.
Qed.

Lemma finish_spec (r r1 : LifecycleRegistry) (owner : SessionInstance) (res : result string unit) :
  finish_session_shutdown r owner = (r1, res) ->
  (is_ok res = true /\ entries r1 = delete owner (entries r)
   /\ match entries r !! owner with
      | Some e => closing e = true /\ in_flight e = 0
      | None => True
      end)
  \/ (is_ok res = false /\ r1 = r /\ exists e, entries r !! owner = Some e
      /\ (closing e = false \/ in_flight e <> 0)).
Proof.
  unfold finish_session_shutdown.
  destruct (entries r !! owner) as [e|] eqn:He.
  - destruct (closing e) eqn:Hc; simpl; [destruct (Z.eqb_spec (in_flight e) 0) as [Hz|Hz]; simpl|];
      intros [= <- <-].
    + left. simpl. by rewrite delete_insert_eq.
    + right. split_and!; [done..|]. exists e. eauto.
    + right. split_and!; [done..|]. exists e. eauto.
  - intros [= <- <-]. left. split_and!; [done| |done]. by rewrite delete_id.
Qed.

(** * The invariant of the fence *)

(** A sleeping shutdown can count on being woken: its entry still has an
    operation in flight, or the notification is on its way. *)
Definition will_wake (r : LifecycleRegistry) (tasks : list Task) (owner : SessionInstance)
    (n : Z) : Prop :=
  (exists e, entries r !! owner = Some e /\ drain_notify e = n /\ closing e = true
             /\ 0 < in_flight e)
  \/ exists j o rm, tasks !! j = Some (TDropping o (Some n) rm).

Record fence_inv (r : LifecycleRegistry) (tasks : list Task) : Prop := {
  fi_count : forall owner, in_flight_of r owner = permits owner tasks;
  fi_entry : forall owner e, entries r !! owner = Some e ->
    cleanup_complete e = false /\ cancellation e = closing e;
  fi_drop : forall i o n rm, tasks !! i = Some (TDropping o n rm) -> rm = false;
  fi_sleep : forall i owner n, tasks !! i = Some (TSleeping owner n) ->
    will_wake r tasks owner n;
}.

Definition is_sleep (t : Task) : bool := match t with TSleeping _ _ => true | _ => false end.
Definition is_drop (t : Task) : bool := match t with TDropping _ _ _ => true | _ => false end.

(** A task that is neither asleep nor announcing anything may come and go. *)
Lemma will_wake_mono (r : LifecycleRegistry) (tasks tasks' : list Task) (owner : SessionInstance)
    (n : Z) :
  (forall j o rm, tasks !! j = Some (TDropping o (Some n) rm) ->
     exists j', tasks' !! j' = Some (TDropping o (Some n) rm)) ->
  will_wake r tasks owner n -> will_wake r tasks' owner n.
Proof.
  intros H [He|(j & o & rm & Hj)]; [by left|right].
  destruct (H j o rm Hj) as [j' ?]. eauto.
Qed.

Lemma drop_insert (tasks : list Task) (i : nat) (t0 t : Task) (n : Z) :
  tasks !! i = Some t0 -> (forall o rm, t0 <> TDropping o (Some n) rm) ->
  forall j o rm, tasks !! j = Some (TDropping o (Some n) rm) ->
    exists j', <[i := t]> tasks !! j' = Some (TDropping o (Some n) rm).
Proof.
  intros Hi H0 j o rm Hj. exists j. rewrite list_lookup_insert_ne; [done|].
  intros ->. simplify_eq. by apply (H0 o rm).
Qed.

Lemma drop_snoc (tasks : list Task) (t : Task) (n : Z) :
  forall j o rm, tasks !! j = Some (TDropping o (Some n) rm) ->
    exists j', (tasks ++ [t]) !! j' = Some (TDropping o (Some n) rm).
Proof. intros j o rm Hj. exists j. by apply lookup_app_l_Some. Qed.

(** Changing one task to one that holds as much and waits for nothing new. *)
Lemma inv_set_task (r : LifecycleRegistry) (tasks : list Task) (i : nat) (t0 t : Task) :
  fence_inv r tasks -> tasks !! i = Some t0 -> is_drop t0 = false ->
  (forall owner, holds owner t = holds owner t0) -> is_drop t = false ->
  (forall owner n, t = TSleeping owner n -> will_wake r tasks owner n) ->
  fence_inv r (<[i := t]> tasks).
Proof.
  intros I Hi Hd0 Hh Hd Hs.
  assert (Hkeep : forall n j o rm, tasks !! j = Some (TDropping o (Some n) rm) ->
            exists j', <[i := t]> tasks !! j' = Some (TDropping o (Some n) rm)).
  { intros n. apply (drop_insert tasks i t0 t n Hi). intros o rm ->. done. }
  split.
  - intros owner. rewrite (permits_insert owner tasks i t0 t Hi), Hh, (fi_count _ _ I). lia.
  - apply (fi_entry _ _ I).
  - intros j o n rm [[-> [-> _]]|[Hne Hj]]%list_lookup_insert_Some; [done|].
    by eapply (fi_drop _ _ I).
  - intros j owner n [[-> [-> _]]|[Hne Hj]]%list_lookup_insert_Some;
      (apply (will_wake_mono r tasks); [apply Hkeep|]).
    + by apply Hs.
    + by eapply (fi_sleep _ _ I).
Qed.

Lemma inv_spawn (r : LifecycleRegistry) (tasks : list Task) (t : Task) :
  fence_inv r tasks -> (forall owner, holds owner t = false) -> is_drop t = false ->
  is_sleep t = false -> fence_inv r (tasks ++ [t]).
Proof.
  intros I Hh Hd Hs. split.
  - intros owner. by rewrite permits_snoc, (fi_count _ _ I).
  - apply (fi_entry _ _ I).
  - intros j o n rm [Hj|[Hj Hl]]%lookup_app_Some; [by eapply (fi_drop _ _ I)|].
    apply list_lookup_singleton_Some in Hl as [_ ->]. done.
  - intros j owner n [Hj|[Hj Hl]]%lookup_app_Some.
    + apply (will_wake_mono r tasks); [apply drop_snoc|]. by eapply (fi_sleep _ _ I).
    + apply list_lookup_singleton_Some in Hl as [_ ->]. done.
Qed.

(** Replacing the entry of [owner] by one with the same count. *)
Lemma inv_set_entry (r r' : LifecycleRegistry) (tasks : list Task) (owner : SessionInstance)
    (e : LifecycleEntry) :
  fence_inv r tasks -> entries r' = <[owner := e]> (entries r) ->
  in_flight e = in_flight_of r owner -> cleanup_complete e = false ->
  cancellation e = closing e ->
  (forall e0, entries r !! owner = Some e0 ->
     drain_notify e = drain_notify e0 /\ (closing e0 = true -> closing e = true)) ->
  fence_inv r' tasks.
Proof.
  intros I Hr' Hf Hcc Hcan Hsame. split.
  - intros o. rewrite <- (fi_count _ _ I). unfold in_flight_of. rewrite Hr'.
    destruct (decide (owner = o)) as [<-|]; [by rewrite lookup_insert_eq|by rewrite lookup_insert_ne].
  - intros o e0. rewrite Hr', lookup_insert_Some. intros [[<- <-]|[_ H]]; [done|].
    by apply (fi_entry _ _ I o).
  - apply (fi_drop _ _ I).
  - intros i o n Hi. destruct (fi_sleep _ _ I i o n Hi) as [(e0 & He0 & Hn & Hc & Hp)|?]; [|by right].
    left. rewrite Hr'. destruct (decide (owner = o)) as [<-|Hne].
    + exists e. rewrite lookup_insert_eq. destruct (Hsame e0 He0) as [Hd Hcl].
      split_and!; [done|congruence|by auto|]. rewrite Hf. unfold in_flight_of. by rewrite He0.
    + exists e0. by rewrite lookup_insert_ne.
Qed.

Lemma holds_self (owner : SessionInstance) : holds owner (THolding owner) = true.
Proof. simpl. by rewrite bool_decide_true. Qed.

Lemma holds_other (owner o : SessionInstance) : owner <> o -> holds o (THolding owner) = false.
Proof. intros. simpl. by rewrite bool_decide_false. Qed.

(** One permit more, or one less, on [owner]. *)
Lemma inv_take (r r1 : LifecycleRegistry) (tasks : list Task) (i : nat) (owner : SessionInstance)
    (e : LifecycleEntry) :
  fence_inv r tasks -> tasks !! i = Some (TVerified owner) ->
  entries r1 = <[owner := e]> (entries r) ->
  in_flight e = in_flight_of r owner + 1 ->
  closing e = false -> cleanup_complete e = false -> cancellation e = false ->
  (forall e0, entries r !! owner = Some e0 -> closing e0 = false) ->
  fence_inv r1 (<[i := THolding owner]> tasks).
Proof.
  intros I Hi Hr1 Hf Hcl Hcc Hcan Hwas. split.
  - intros o. rewrite (permits_insert o tasks i _ _ Hi). unfold in_flight_of. rewrite Hr1.
    destruct (decide (owner = o)) as [<-|Hne].
    + rewrite lookup_insert_eq, holds_self. simpl. rewrite Hf, (fi_count _ _ I). lia.
    + rewrite lookup_insert_ne by done. rewrite (holds_other owner o) by done. simpl.
      rewrite <- (fi_count _ _ I). unfold in_flight_of. lia.
  - intros o e0. rewrite Hr1, lookup_insert_Some. intros [[<- <-]|[_ H]]; [by rewrite Hcan, Hcl|].
    by apply (fi_entry _ _ I o).
  - intros j o n rm [[_ [? _]]|[_ Hj]]%list_lookup_insert_Some; [done|]. by eapply (fi_drop _ _ I).
  - intros j o n [[_ [? _]]|[_ Hj]]%list_lookup_insert_Some; [done|].
    destruct (fi_sleep _ _ I j o n Hj) as [(e0 & He0 & Hn & Hc & Hp)|Hd].
    + left. exists e0. rewrite Hr1. destruct (decide (owner = o)) as [<-|Hne].
      * rewrite (Hwas e0 He0) in Hc. done.
      * by rewrite lookup_insert_ne.
    + right. destruct Hd as (j' & o' & rm & Hj').
      destruct (drop_insert tasks i _ (THolding owner) n Hi ltac:(done) j' o' rm Hj') as [k Hk].
      by exists k, o', rm.
Qed.

Lemma inv_acquire (r r1 : LifecycleRegistry) (tasks : list Task) (i : nat)
    (owner : SessionInstance) (res : result string unit) :
  fence_inv r tasks -> tasks !! i = Some (TVerified owner) ->
  permit_acquire r owner = (r1, res) ->
  fence_inv r1 (<[i := if is_ok res then THolding owner else TReturned res]> tasks).
Proof.
  intros I Hi H%acquire_spec. destruct (entries r !! owner) as [e|] eqn:He.
  - destruct (fi_entry _ _ I owner e He) as [Hcc Hcan].
    destruct (closing e) eqn:Hc; destruct H as [-> H].
    + assert (fence_inv r1 tasks) as I1.
      { apply (inv_set_entry r r1 tasks owner e I); try done.
        - by rewrite H, insert_id.
        - unfold in_flight_of. by rewrite He.
        - by rewrite Hcan, Hc.
        - intros e0 He0. simplify_eq. done. }
      by apply (inv_set_task r1 tasks i _ _ I1 Hi).
    + apply (inv_take r r1 tasks i owner _ I Hi H); simpl; try done.
      * unfold in_flight_of. by rewrite He.
      * intros e0 He0. simplify_eq. done.
  - destruct H as [-> H].
    apply (inv_take r r1 tasks i owner _ I Hi H); simpl; try done.
    + unfold in_flight_of. by rewrite He.
    + by rewrite He.
Qed.

Lemma inv_release (r r1 : LifecycleRegistry) (tasks : list Task) (i : nat)
    (owner : SessionInstance) (n : option Z) (rm : bool) :
  fence_inv r tasks -> tasks !! i = Some (THolding owner) ->
  permit_release r owner = (r1, (n, rm)) ->
  fence_inv r1 (<[i := TDropping owner n rm]> tasks).
Proof.
  intros I Hi. unfold permit_release.
  assert (1 <= in_flight_of r owner) as Hpos.
  { rewrite (fi_count _ _ I). unfold permits.
    apply Z.le_trans with (Z.b2z (holds owner (THolding owner))); [by rewrite holds_self|].
    apply (weight_in (fun t => Z.b2z (holds owner t)) tasks i); [apply holds_nonneg|done]. }
  unfold in_flight_of in Hpos. destruct (entries r !! owner) as [e|] eqn:He; simpl in Hpos; [|lia].
  destruct (fi_entry _ _ I owner e He) as [Hcc Hcan].
  intros [= <- Hn Hrm]. rewrite Hcc in Hrm. simpl in Hrm. subst rm.
  assert (saturating_sub (in_flight e) 1 = in_flight e - 1) as Hs.
  { unfold saturating_sub. lia. }
  rewrite Hs in *. split.
  - intros o. rewrite (permits_insert o tasks i _ _ Hi). unfold in_flight_of, set_entry. simpl.
    destruct (decide (owner = o)) as [<-|Hne].
    + rewrite lookup_insert_eq, bool_decide_true by done. simpl.
      rewrite <- (fi_count _ _ I). unfold in_flight_of. rewrite He. simpl. lia.
    + rewrite lookup_insert_ne, bool_decide_false by done. simpl.
      rewrite <- (fi_count _ _ I). unfold in_flight_of. lia.
  - intros o e0. simpl. rewrite lookup_insert_Some. intros [[<- <-]|[_ H]]; [done|].
    by apply (fi_entry _ _ I o).
  - intros j o m rm [[_ [? _]]|[_ Hj]]%list_lookup_insert_Some; [congruence|].
    by eapply (fi_drop _ _ I).
  - intros j o m [[_ [? _]]|[Hne Hj]]%list_lookup_insert_Some; [done|].
    destruct (fi_sleep _ _ I j o m Hj) as [(e0 & He0 & Hm & Hc & Hp)|Hd].
    + destruct (decide (owner = o)) as [<-|Hno].
      * assert (e0 = e) as -> by congruence.
        destruct (Z.eqb_spec (in_flight e - 1) 0) as [Hz|Hz]; subst n m.
        -- right. exists i, owner, false. apply list_lookup_insert_eq. by eapply lookup_lt_Some.
        -- left. eexists. simpl. rewrite lookup_insert_eq. split_and!; [done..|]. simpl. lia.
      * left. exists e0. simpl. by rewrite lookup_insert_ne.
    + right. destruct Hd as (j' & o' & rm & Hj').
      destruct (drop_insert tasks i _ (TDropping owner n false) m Hi ltac:(done) j' o' rm Hj')
        as [k Hk]. by exists k, o', rm.
Qed.

Lemma inv_notify (r : LifecycleRegistry) (tasks : list Task) (i : nat) (owner : SessionInstance)
    (n : Z) (rm : bool) :
  fence_inv r tasks -> tasks !! i = Some (TDropping owner (Some n) rm) ->
  fence_inv r (<[i := TDropping owner None rm]> (map (wake n) tasks)).
Proof.
  intros I Hi.
  assert (map (wake n) tasks !! i = Some (TDropping owner (Some n) rm)) as Hi'.
  { change (map (wake n) tasks) with (wake n <$> tasks). by rewrite list_lookup_fmap, Hi. }
  pose proof (fi_drop _ _ I i _ _ _ Hi) as ->.
  assert (forall j t, map (wake n) tasks !! j = Some t ->
            exists t0, tasks !! j = Some t0 /\ t = wake n t0) as Hmap.
  { intros j t. change (map (wake n) tasks) with (wake n <$> tasks).
    rewrite list_lookup_fmap, fmap_Some. naive_solver. }
  split.
  - intros o. rewrite (permits_insert o _ i _ _ Hi'), permits_wake. simpl.
    rewrite (fi_count _ _ I). lia.
  - apply (fi_entry _ _ I).
  - intros j o m rm [[_ [? _]]|[_ Hj]]%list_lookup_insert_Some; [congruence|].
    apply Hmap in Hj as ([] & Hj & Ht); simpl in Ht; try done;
      [|by destruct (_ =? _)]. simplify_eq. by eapply (fi_drop _ _ I).
  - intros j o m [[_ [? _]]|[Hne Hj]]%list_lookup_insert_Some; [done|].
    apply Hmap in Hj as (t0 & Hj & Ht). destruct t0; simpl in Ht; try done.
    destruct (Z.eqb_spec notify n) as [|Hnm]; [done|]. simplify_eq.
    destruct (fi_sleep _ _ I j _ _ Hj) as [?|(k & o' & rm & Hk)]; [by left|right].
    exists k, o', rm. rewrite list_lookup_insert_ne by (intros ->; simplify_eq).
    change (map (wake n) tasks) with (wake n <$> tasks). by rewrite list_lookup_fmap, Hk.
Qed.

Lemma inv_finish (r r1 : LifecycleRegistry) (tasks : list Task) (owner : SessionInstance)
    (res : result string unit) :
  fence_inv r tasks -> finish_session_shutdown r owner = (r1, res) -> fence_inv r1 tasks.
Proof.
  intros I [(_ & Hr1 & Hgone)|(_ & -> & _)]%finish_spec; [|done].
  assert (in_flight_of r owner = 0) as Hz.
  { unfold in_flight_of. destruct (entries r !! owner); simpl; naive_solver. }
  split.
  - intros o. rewrite <- (fi_count _ _ I). unfold in_flight_of in *. rewrite Hr1.
    destruct (decide (owner = o)) as [<-|]; [by rewrite lookup_delete_eq, Hz|by rewrite lookup_delete_ne].
  - intros o e. rewrite Hr1, lookup_delete_Some. intros [_ H]. by apply (fi_entry _ _ I o).
  - apply (fi_drop _ _ I).
  - intros i o n Hi. destruct (fi_sleep _ _ I i o n Hi) as [(e & He & Hn & Hc & Hp)|?]; [|by right].
    left. exists e. rewrite Hr1. rewrite lookup_delete_ne; [done|]. intros ->.
    unfold in_flight_of in Hz. rewrite He in Hz. simpl in Hz. lia.
Qed.

Definition system_inv (s : System) : Prop := fence_inv (sy_registry s) (sy_tasks s).

Lemma inv_begin (r : LifecycleRegistry) (tasks : list Task) (owner : SessionInstance) :
  fence_inv r tasks -> fence_inv (begin_session_instance_shutdown r owner) tasks.
Proof.
  intros I. destruct (begin_spec r owner) as (e & Hr & Hc & Hcase).
  destruct (entries r !! owner) as [e0|] eqn:He.
  - destruct (fi_entry _ _ I owner e0 He) as [Hcc Hcan].
    destruct Hcase as (Hf & Hn & Hcl & Hca).
    apply (inv_set_entry r _ tasks owner e I Hr).
    + unfold in_flight_of. by rewrite He.
    + congruence.
    + by rewrite Hca, Hc.
    + intros e1 He1. by simplify_eq.
  - destruct Hcase as (Hf & Hcl & Hca).
    apply (inv_set_entry r _ tasks owner e I Hr).
    + unfold in_flight_of. by rewrite He.
    + done.
    + congruence.
    + by rewrite He.
Qed.

Lemma inv_look (r : LifecycleRegistry) (tasks : list Task) (i : nat) (owner : SessionInstance) :
  fence_inv r tasks -> tasks !! i = Some (TDraining owner) ->
  fence_inv r (<[i := match drain_look r owner with
                      | Err e => TReturned (Err e)
                      | Ok None => TReturned (Ok tt)
                      | Ok (Some n) => TSleeping owner n
                      end]> tasks).
Proof.
  intros I Hi. apply (inv_set_task r tasks i _ _ I Hi); [done|..].
  - intros o. destruct (drain_look r owner) as [[n|]|e]; done.
  - destruct (drain_look r owner) as [[n|]|e]; done.
  - unfold drain_look. intros o n. destruct (entries r !! owner) as [e|] eqn:He; [|done].
    destruct (closing e) eqn:Hc; simpl; [|done].
    destruct (Z.eqb_spec (in_flight e) 0) as [Hz|Hz]; simpl; [done|]. intros [= <- <-].
    left. exists e. split_and!; [done..|].
    assert (0 <= in_flight e); [|lia].
    pose proof (permits_nonneg owner tasks) as Hp. rewrite <- (fi_count _ _ I) in Hp.
    unfold in_flight_of in Hp. by rewrite He in Hp.
Qed.

Lemma step_inv (s s' : System) (l : Label) :
  system_inv s -> system_step s l = Some s' -> system_inv s'.
Proof.
  unfold system_inv. destruct s as [r m tasks]. simpl. intros I.
  destruct l as [owner session cur act|i|i|i|i|owner|owner|i|i|owner ok|tid rt|tid iid|owner]; simpl.
  - intros [= <-]. simpl.
    apply inv_spawn; [done|..]; by destruct (verify_instance _ _ _ _ _).
  - destruct (tasks !! i) as [t|] eqn:Hi; [|done]. destruct t; try done.
    destruct (permit_acquire r owner) as [r1 res] eqn:E. intros [= <-]. simpl.
    by apply (inv_acquire r r1 tasks i owner res).
  - destruct (tasks !! i) as [t|] eqn:Hi; [|done]. destruct t; try done.
    destruct (permit_release r owner) as [r1 [n rm]] eqn:E. intros [= <-]. simpl.
    by apply (inv_release r r1 tasks i owner n rm).
  - destruct (tasks !! i) as [t|] eqn:Hi; [|done].
    destruct t as [| |owner [n|] rm| | |]; try done. intros [= <-]. simpl. by apply inv_notify.
  - destruct (tasks !! i) as [t|] eqn:Hi; [|done].
    destruct t as [| |owner [n|] rm| | |]; try done. intros [= <-]. simpl.
    pose proof (fi_drop _ _ I i _ _ _ Hi) as ->.
    split.
    + intros o. rewrite (permits_insert o tasks i _ _ Hi). simpl. rewrite (fi_count _ _ I o). lia.
    + apply (fi_entry _ _ I).
    + intros j o n rm [[_ [? _]]|[_ Hj]]%list_lookup_insert_Some; [done|].
      by eapply (fi_drop _ _ I).
    + intros j o n [[_ [? _]]|[_ Hj]]%list_lookup_insert_Some; [done|].
      apply (will_wake_mono r tasks).
      * by apply (drop_insert tasks i _ _ n Hi).
      * by eapply (fi_sleep _ _ I).
  - intros [= <-]. simpl. by apply inv_begin.
  - intros [= <-]. simpl. by apply inv_spawn.
  - destruct (tasks !! i) as [t|] eqn:Hi; [|done]. destruct t; try done.
    intros [= <-]. simpl. by apply inv_look.
  - destruct (tasks !! i) as [t|] eqn:Hi; [|done]. destruct t; try done; intros [= <-]; simpl;
      by apply (inv_set_task r tasks i _ _ I Hi).
  - destruct (finish_session_shutdown r owner) as [r1 res] eqn:E.
    destruct (Bool.eqb _ _); [|done]. intros [= <-]. simpl. by eapply inv_finish.
  - intros [= <-]. done.
  - intros [= <-]. done.
  - intros [= <-]. done.
Qed.

Lemma start_inv : system_inv system_start.
Proof.
  split.
  - intros owner. unfold in_flight_of. simpl. by rewrite lookup_empty.
  - intros owner e. simpl. by rewrite lookup_empty.
  - intros i o n rm. simpl. by rewrite lookup_nil.
  - intros i o n. simpl. by rewrite lookup_nil.
Qed.

Lemma run_inv (s s' : System) (tr : list Label) : system_inv s -> run s tr s' -> system_inv s'.
Proof. intros I Hr. induction Hr as [|s s1 s2 l tr Hs Hr IH]; [done|]. eauto using step_inv. Qed.

Lemma run_app (s s' s'' : System) (tr tr' : list Label) :
  run s tr s' -> run s' tr' s'' -> run s (tr ++ tr') s''.
Proof. induction 1; simpl; [done|]. intros. econstructor; eauto. Qed.

Lemma run_list_sound (s s' : System) (tr : list Label) : run_list s tr = Some s' -> run s tr s'.
Proof.
  revert s. induction tr as [|l tr IH]; simpl; intros s H; [simplify_eq; constructor|].
  destruct (system_step s l) as [s1|] eqn:Hs; [|done]. simpl in H. econstructor; eauto.
Qed.

(** Permits are counted exactly: in every interleaving the number in flight of an
    instance is the number of its permits, an entry is cancelled exactly when
    it is closing, and no dropped permit ever has to remove the entry. *)
Theorem permits_counted (tr : list Label) (s : System) :
  run system_start tr s ->
  (forall owner, in_flight_of (sy_registry s) owner = permits owner (sy_tasks s))
  /\ (forall owner e, entries (sy_registry s) !! owner = Some e -> cancellation e = closing e)
  /\ (forall i owner n remove, sy_tasks s !! i = Some (TDropping owner n remove) ->
        remove = false).
Proof.
  intros Hr. pose proof (run_inv _ _ _ start_inv Hr) as I. split_and!.
  - apply (fi_count _ _ I).
  - intros owner e He. apply (fi_entry _ _ I owner e He).
  - apply (fi_drop _ _ I).
Qed.

(** * What closing means *)

Definition is_closing (s : System) (owner : SessionInstance) : Prop :=
  session_instance_is_closing (sy_registry s) owner = true.

Lemma is_closing_iff (s : System) (owner : SessionInstance) :
  is_closing s owner <-> exists e, entries (sy_registry s) !! owner = Some e /\ closing e = true.
Proof.
  unfold is_closing, session_instance_is_closing.
  destruct (entries (sy_registry s) !! owner); simpl; naive_solver.
Qed.

(** What a step does to the entry of one instance. *)
Inductive entry_change (owner : SessionInstance) (l : Label) :
    option LifecycleEntry -> option LifecycleEntry -> Prop :=
| ec_same (o : option LifecycleEntry) : entry_change owner l o o
| ec_count (e e' : LifecycleEntry) : closing e' = closing e ->
    entry_change owner l (Some e) (Some e')
| ec_new (i : nat) (e : LifecycleEntry) : l = LAcquire i -> closing e = false ->
    entry_change owner l None (Some e)
| ec_begin (o : option LifecycleEntry) (e : LifecycleEntry) : l = LBegin owner ->
    closing e = true -> entry_change owner l o (Some e)
| ec_finish (e : LifecycleEntry) : l = LFinish owner true -> closing e = true ->
    entry_change owner l (Some e) None.

Lemma step_entry (s s' : System) (l : Label) (owner : SessionInstance) :
  system_inv s -> system_step s l = Some s' ->
  entry_change owner l (entries (sy_registry s) !! owner) (entries (sy_registry s') !! owner).
Proof.
  unfold system_inv. destruct s as [r m tasks]. simpl. intros I.
  destruct l as [o session cur act|i|i|i|i|o|o|i|i|o ok|tid rt|tid iid|o]; simpl;
    try (intros [= <-]; apply ec_same).
  - destruct (tasks !! i) as [t|] eqn:Hi; [|done]. destruct t as [o| | | | |]; try done.
    destruct (permit_acquire r o) as [r1 res] eqn:E. intros [= <-]. simpl.
    apply acquire_spec in E. destruct (decide (o = owner)) as [->|Hne].
    + destruct (entries r !! owner) as [e|] eqn:He.
      * destruct (closing e) eqn:Hc; destruct E as [_ ->]; [rewrite He; apply ec_same|].
        rewrite lookup_insert_eq. by apply ec_count.
      * destruct E as [_ ->]. rewrite lookup_insert_eq. by apply (ec_new _ _ i).
    + destruct (entries r !! o) as [e|] eqn:He; [destruct (closing e)|]; destruct E as [_ ->];
        try rewrite lookup_insert_ne by done; apply ec_same.
  - destruct (tasks !! i) as [t|] eqn:Hi; [|done]. destruct t as [|o| | | |]; try done.
    unfold permit_release. destruct (entries r !! o) as [e|] eqn:He; intros [= <-]; simpl;
      [|apply ec_same].
    destruct (decide (o = owner)) as [->|Hne].
    + rewrite lookup_insert_eq, He. by apply ec_count.
    + rewrite lookup_insert_ne by done. apply ec_same.
  - destruct (tasks !! i) as [t|] eqn:Hi; [|done].
    destruct t as [| |o [n|] rm| | |]; try done. intros [= <-]. apply ec_same.
  - destruct (tasks !! i) as [t|] eqn:Hi; [|done].
    destruct t as [| |o [n|] rm| | |]; try done. intros [= <-].
    pose proof (fi_drop _ _ I i _ _ _ Hi) as ->. apply ec_same.
  - intros [= <-]. simpl. destruct (begin_spec r o) as (e & -> & Hc & Hcase).
    destruct (decide (o = owner)) as [->|Hne].
    + rewrite lookup_insert_eq. by apply ec_begin.
    + rewrite lookup_insert_ne by done. apply ec_same.
  - destruct (tasks !! i) as [t|] eqn:Hi; [|done]. destruct t; try done.
    intros [= <-]. apply ec_same.
  - destruct (tasks !! i) as [t|] eqn:Hi; [|done]. destruct t; try done; intros [= <-]; apply ec_same.
  - destruct (finish_session_shutdown r o) as [r1 res] eqn:E.
    destruct (Bool.eqb _ _) eqn:Hb; [|done]. intros [= <-]. simpl. apply eqb_prop in Hb.
    apply finish_spec in E as [(Hok & -> & Hcase)|(_ & -> & _)]; [|apply ec_same].
    destruct (decide (o = owner)) as [->|Hne]; [|rewrite lookup_delete_ne by done; apply ec_same].
    rewrite lookup_delete_eq. destruct (entries r !! owner) as [e|]; [|apply ec_same].
    apply ec_finish; [congruence|tauto].
Qed.

Lemma step_closing (s s' : System) (l : Label) (owner : SessionInstance) :
  system_inv s -> system_step s l = Some s' -> l <> LFinish owner true ->
  is_closing s owner -> is_closing s' owner.
Proof.
  intros I Hs Hl. rewrite !is_closing_iff. intros (e & He & Hc).
  pose proof (step_entry _ _ _ owner I Hs) as H. rewrite He in H.
  inversion H as [|? e'| |? e'|]; subst; [by eauto|exists e'; split; [done|congruence]|by eauto|done].
Qed.

(** A step gives a new permit only to an instance that is not closing. *)
Lemma step_holding (s s' : System) (l : Label) (owner : SessionInstance) (i : nat) :
  system_step s l = Some s' -> is_closing s owner ->
  sy_tasks s' !! i = Some (THolding owner) -> sy_tasks s !! i = Some (THolding owner).
Proof.
  rewrite is_closing_iff. destruct s as [r m tasks]. simpl. intros Hs (e & He & Hc).
  destruct l as [o session cur act|j|j|j|j|o|o|j|j|o ok|tid rt|tid iid|o]; simpl in Hs;
    try (destruct (tasks !! j) as [t|] eqn:Hj; [|done]; destruct t; try done);
    try (injection Hs as <-; done).
  - injection Hs as <-. simpl. intros [H|[_ H]]%lookup_app_Some; [done|].
    apply list_lookup_singleton_Some in H as [_ H]. by destruct (verify_instance _ _ _ _ _).
  - destruct (permit_acquire r owner0) as [r1 res] eqn:E. injection Hs as <-. simpl.
    intros [[-> [H _]]|[_ H]]%list_lookup_insert_Some; [|done].
    destruct (is_ok res) eqn:Hok; simplify_eq. apply acquire_spec in E.
    rewrite He, Hc in E. destruct E as [E _]. congruence.
  - destruct (permit_release r owner0) as [r1 [n rm]]. injection Hs as <-. simpl.
    by intros [[_ [H _]]|[_ H]]%list_lookup_insert_Some.
  - destruct notify as [n|]; [|done]. injection Hs as <-. simpl.
    intros [[_ [H _]]|[_ H]]%list_lookup_insert_Some; [done|].
    change (map (wake n) tasks) with (wake n <$> tasks) in H.
    rewrite list_lookup_fmap, fmap_Some in H. destruct H as (t & Ht & H).
    destruct t; simpl in H; try done; [congruence|]. by destruct (_ =? _).
  - destruct notify; [done|]. injection Hs as <-. simpl.
    by intros [[_ [H _]]|[_ H]]%list_lookup_insert_Some.
  - injection Hs as <-. simpl. intros [H|[_ H]]%lookup_app_Some; [done|].
    by apply list_lookup_singleton_Some in H as [_ H].
  - injection Hs as <-. simpl. intros [[_ [H _]]|[_ H]]%list_lookup_insert_Some; [|done].
    by destruct (drain_look r owner0) as [[n|]|].
  - injection Hs as <-. simpl. by intros [[_ [H _]]|[_ H]]%list_lookup_insert_Some.
  - injection Hs as <-. simpl. by intros [[_ [H _]]|[_ H]]%list_lookup_insert_Some.
  - destruct (finish_session_shutdown r o) as [r1 res]. destruct (Bool.eqb _ _); [|done].
    injection Hs as <-. done.
Qed.

Lemma step_runtimes (s s' : System) (l : Label) (owner : SessionInstance) (t : Z)
    (rt : RuntimeHandle) :
  system_step s l = Some s' -> is_closing s owner ->
  sy_runtimes s' !! t = Some rt -> rt_owner rt = owner -> sy_runtimes s !! t = Some rt.
Proof.
  rewrite is_closing_iff. destruct s as [r m tasks]. simpl. intros Hs (e & He & Hc) Ht Ho.
  destruct l as [o session cur act|j|j|j|j|o|o|j|j|o ok|tid rt0|tid iid|o]; simpl in Hs;
    try (destruct (tasks !! j) as [t0|] eqn:Hj; [|done]; destruct t0; try done);
    try (injection Hs as <-; exact Ht).
  - destruct (permit_acquire r owner0). by injection Hs as <-.
  - destruct (permit_release r owner0) as [? [? ?]]. by injection Hs as <-.
  - destruct notify; [|done]. by injection Hs as <-.
  - destruct notify; [done|]. by injection Hs as <-.
  - destruct (finish_session_shutdown r o). destruct (Bool.eqb _ _); [|done]. by injection Hs as <-.
  - injection Hs as <-. simpl in Ht. unfold insert_runtime in Ht.
    destruct (entries r !! rt_owner rt0) as [e1|] eqn:He1; simpl in Ht.
    + destruct (closing e1) eqn:Hc1; simpl in Ht; [done|].
      destruct (is_none (m !! tid)) eqn:Hn; simpl in Ht; [|done].
      apply lookup_insert_Some in Ht as [[_ ->]|[_ Ht]]; [|done]. subst owner. congruence.
    + destruct (is_none (m !! tid)) eqn:Hn; simpl in Ht; [|done].
      apply lookup_insert_Some in Ht as [[_ ->]|[_ Ht]]; [|done]. subst owner. congruence.
  - injection Hs as <-. simpl in Ht. unfold remove_runtime_instance in Ht.
    destruct (is_some_and _ _); [|done]. by apply lookup_delete_Some in Ht as [_ Ht].
  - injection Hs as <-. simpl in Ht. unfold shutdown_session_runtimes in Ht.
    by apply map_lookup_filter_Some in Ht as [Ht _].
Qed.

(** C23: closing is a fence: from the moment an instance is closing until its shutdown
    finishes, whatever else runs, it stays closing, every permit and every
    runtime it has it had before; and the shutdown finishes only when no
    operation holds a permit. *)
Theorem closing_fence (tr0 tr : list Label) (s s' : System) (owner : SessionInstance) :
  run system_start tr0 s -> is_closing s owner -> run s tr s' -> LFinish owner true ∉ tr ->
  is_closing s' owner
  /\ (forall i, sy_tasks s' !! i = Some (THolding owner) -> sy_tasks s !! i = Some (THolding owner))
  /\ (forall t rt, sy_runtimes s' !! t = Some rt -> rt_owner rt = owner ->
        sy_runtimes s !! t = Some rt)
  /\ (is_Some (system_step s' (LFinish owner true)) ->
        forall i, sy_tasks s' !! i <> Some (THolding owner)).
Proof.
  intros Hr0 Hc Hr Hno. pose proof (run_inv _ _ _ start_inv Hr0) as I.
  assert (system_inv s') as I' by eauto using run_inv.
  assert (is_closing s' owner
    /\ (forall i, sy_tasks s' !! i = Some (THolding owner) -> sy_tasks s !! i = Some (THolding owner))
    /\ (forall t rt, sy_runtimes s' !! t = Some rt -> rt_owner rt = owner ->
          sy_runtimes s !! t = Some rt)) as (H1 & H2 & H3).
  { clear Hr0 tr0 I'. induction Hr as [|s s1 s2 l tr Hs Hr IH]; [eauto|].
    apply not_elem_of_cons in Hno as [Hl Hno].
    destruct IH as (H1 & H2 & H3).
    - eapply step_closing; eauto.
    - done.
    - eapply step_inv; eauto.
    - split_and!; [done|eauto using step_holding|eauto using step_runtimes]. }
  split_and!; [done..|]. intros [s2 Hs] i Hi. simpl in Hs.
  destruct (finish_session_shutdown (sy_registry s') owner) as [r1 res] eqn:E.
  destruct (Bool.eqb _ _) eqn:Hb; [|done]. apply eqb_prop in Hb.
  apply finish_spec in E as [(_ & _ & Hcase)|(Hf & _)]; [|congruence].
  pose proof (fi_count _ _ I' owner) as Hcount.
  apply is_closing_iff in H1 as (e & He & _). rewrite He in Hcase.
  unfold in_flight_of in Hcount. rewrite He in Hcount. simpl in Hcount.
  pose proof (weight_in (fun t => Z.b2z (holds owner t)) _ i _ (holds_nonneg owner) Hi) as Hw.
  simpl in Hw. rewrite bool_decide_true in Hw by done. simpl in Hw.
  unfold permits in Hcount. lia.
Qed.

(** * Draining ends *)

(** The steps a shutdown waits for: the tasks in flight finish, announce it,
    and the waiting shutdowns look again. *)
Definition progress (l : Label) : bool :=
  match l with
  | LDrop _ | LNotify _ | LRemove _ | LLook _ => true
  | _ => false
  end.

Definition flight_weight (t : Task) : Z :=
  match t with
  | THolding _ => 3
  | TDropping _ (Some _) _ => 2
  | TDropping _ None _ => 1
  | _ => 0
  end.

Definition drain_weight (t : Task) : Z :=
  match t with
  | TDraining _ => 2
  | TSleeping _ _ => 1
  | _ => 0
  end.

Definition work (tasks : list Task) : Z :=
  sum_z (map flight_weight tasks) * (zlen tasks + 1) + sum_z (map drain_weight tasks).

Lemma flight_weight_bounds (t : Task) : 0 <= flight_weight t <= 3.
Proof. destruct t as [| |? [] ?| | |]; simpl; lia. Qed.

Lemma drain_weight_bounds (t : Task) : 0 <= drain_weight t <= 2.
Proof. destruct t; simpl; lia. Qed.

Lemma work_nonneg (tasks : list Task) : 0 <= work tasks.
Proof.
  pose proof (weight_bounds flight_weight 3 tasks flight_weight_bounds).
  pose proof (weight_bounds drain_weight 2 tasks drain_weight_bounds).
  pose proof (zlen_nonneg tasks). unfold work. nia.
Qed.

Lemma work_set (tasks : list Task) (i : nat) (t0 t : Task) :
  tasks !! i = Some t0 ->
  flight_weight t < flight_weight t0 /\ drain_weight t <= drain_weight t0
  \/ flight_weight t = flight_weight t0 /\ drain_weight t < drain_weight t0 ->
  work (<[i := t]> tasks) < work tasks.
Proof.
  intros Hi H. unfold work.
  rewrite (weight_insert flight_weight tasks i t0 t Hi),
    (weight_insert drain_weight tasks i t0 t Hi).
  replace (zlen (<[i := t]> tasks)) with (zlen tasks) by (unfold zlen; by rewrite length_insert).
  pose proof (zlen_nonneg tasks). nia.
Qed.

Lemma wake_flight (n : Z) (t : Task) : flight_weight (wake n t) = flight_weight t.
Proof. destruct t; try done. simpl. by destruct (_ =? _). Qed.

Lemma wake_drain (n : Z) (t : Task) :
  drain_weight t <= drain_weight (wake n t) <= drain_weight t + 1.
Proof. destruct t; simpl; try lia. destruct (_ =? _); simpl; lia. Qed.

Lemma work_notify (tasks : list Task) (i : nat) (owner : SessionInstance) (n : Z) (rm : bool) :
  tasks !! i = Some (TDropping owner (Some n) rm) ->
  work (<[i := TDropping owner None rm]> (map (wake n) tasks)) < work tasks.
Proof.
  intros Hi.
  assert (map (wake n) tasks !! i = Some (TDropping owner (Some n) rm)) as Hi'.
  { change (map (wake n) tasks) with (wake n <$> tasks). by rewrite list_lookup_fmap, Hi. }
  unfold work. rewrite (weight_insert flight_weight _ i _ _ Hi'),
    (weight_insert drain_weight _ i _ _ Hi').
  replace (zlen (<[i := TDropping owner None rm]> (map (wake n) tasks))) with (zlen tasks)
    by (unfold zlen; by rewrite length_insert, length_map).
  assert (map flight_weight (map (wake n) tasks) = map flight_weight tasks) as ->.
  { rewrite map_map. apply map_ext. intros t. apply wake_flight. }
  assert (sum_z (map drain_weight (map (wake n) tasks))
          <= sum_z (map drain_weight tasks) + zlen tasks) as Hd.
  { clear Hi Hi'. induction tasks as [|t tasks IH]; simpl; [done|].
    pose proof (wake_drain n t). rewrite zlen_cons. lia. }
  cbn [flight_weight drain_weight]. pose proof (zlen_nonneg tasks). nia.
Qed.

Lemma step_work (s s' : System) (l : Label) :
  system_step s l = Some s' -> progress l = true -> work (sy_tasks s') < work (sy_tasks s).
Proof.
  destruct s as [r m tasks]. intros Hs Hl.
  destruct l as [o session cur act|i|i|i|i|o|o|i|i|o ok|tid rt|tid iid|o]; try done; simpl in Hs;
    destruct (tasks !! i) as [t|] eqn:Hi; try done; destruct t as [|o|o [n|] rm|o| |]; try done.
  - destruct (permit_release r o) as [r1 [n rm]]. injection Hs as <-. simpl.
    apply (work_set tasks i _ _ Hi). left. destruct n; simpl; lia.
  - injection Hs as <-. simpl. by apply work_notify.
  - injection Hs as <-. simpl. apply (work_set tasks i _ _ Hi). left. simpl. lia.
  - injection Hs as <-. simpl. apply (work_set tasks i _ _ Hi). right.
    destruct (drain_look r o) as [[n|]|e]; simpl; lia.
Qed.

Lemma run_work (s s' : System) (tr : list Label) :
  run s tr s' -> Forall (fun l => progress l = true) tr ->
  zlen tr <= work (sy_tasks s) - work (sy_tasks s').
Proof.
  induction 1 as [s|s s1 s2 l tr Hs Hr IH]; intros Hp.
  - pose proof (zlen_nonneg (@nil Label)). unfold zlen. simpl. lia.
  - inversion Hp; subst. rewrite zlen_cons. pose proof (step_work _ _ _ Hs H1).
    specialize (IH H2). lia.
Qed.

(** No operation can take a permit of [owner] for an entry that is there. *)
Definition not_open (s : System) (owner : SessionInstance) : Prop :=
  forall e, entries (sy_registry s) !! owner = Some e -> closing e = true.

Lemma progress_not_open (s s' : System) (l : Label) (owner : SessionInstance) :
  system_inv s -> system_step s l = Some s' -> progress l = true ->
  not_open s owner -> not_open s' owner.
Proof.
  intros I Hs Hp Hn e' He'. pose proof (step_entry _ _ _ owner I Hs) as H. rewrite He' in H.
  inversion H as [|e ? Hce|i ? Hl|? ? Hl|]; subst; try done.
  - by apply Hn.
  - rewrite Hce. apply Hn. congruence.
Qed.

(** A shutdown of [owner] that waits, or has returned. *)
Definition drains (owner : SessionInstance) (t : Task) : Prop :=
  t = TDraining owner \/ (exists n, t = TSleeping owner n) \/ t = TReturned (Ok tt).

Lemma drains_wake (owner : SessionInstance) (n : Z) (t : Task) :
  drains owner t -> drains owner (wake n t).
Proof.
  intros [->|[[m ->]| ->]]; [by left| |right; by right].
  simpl. destruct (_ =? _); [by left|right; left; eauto].
Qed.

Lemma look_drains (s : System) (owner : SessionInstance) :
  not_open s owner ->
  drains owner (match drain_look (sy_registry s) owner with
                | Err e => TReturned (Err e)
                | Ok None => TReturned (Ok tt)
                | Ok (Some n) => TSleeping owner n
                end).
Proof.
  unfold drain_look. intros Hn. destruct (entries (sy_registry s) !! owner) as [e|] eqn:He.
  - rewrite (Hn e He). simpl. destruct (in_flight e =? 0); [right; by right|right; left; eauto].
  - right. by right.
Qed.

Lemma progress_drains (s s' : System) (l : Label) (owner : SessionInstance) (i : nat) (t : Task) :
  system_step s l = Some s' -> progress l = true -> not_open s owner ->
  sy_tasks s !! i = Some t -> drains owner t ->
  exists t', sy_tasks s' !! i = Some t' /\ drains owner t'.
Proof.
  intros Hs Hp Hn Hi Ht. pose proof (look_drains s owner Hn) as Hlook.
  destruct s as [r m tasks]. simpl in Hi, Hlook.
  assert (forall j t1, j <> i -> <[j := t1]> tasks !! i = Some t) as Hne.
  { intros j t1 Hj. by rewrite list_lookup_insert_ne. }
  destruct l as [o session cur act|j|j|j|j|o|o|j|j|o ok|tid rt|tid iid|o]; try done; simpl in Hs;
    destruct (tasks !! j) as [t0|] eqn:Hj; try done; destruct t0 as [|o|o [n|] rm|o| |]; try done.
  - destruct (permit_release r o) as [r1 [n rm]]. injection Hs as <-. simpl. exists t.
    split; [|done]. apply Hne. intros ->. simplify_eq. by destruct Ht as [?|[[? ?]|?]].
  - injection Hs as <-. simpl. exists (wake n t). split; [|by apply drains_wake].
    rewrite list_lookup_insert_ne.
    + change (map (wake n) tasks) with (wake n <$> tasks). by rewrite list_lookup_fmap, Hi.
    + intros ->. simplify_eq. by destruct Ht as [?|[[? ?]|?]].
  - injection Hs as <-. simpl. exists t. split; [|done]. apply Hne. intros ->. simplify_eq.
    by destruct Ht as [?|[[? ?]|?]].
  - injection Hs as <-. simpl. destruct (decide (j = i)) as [->|Hji]; [|eauto].
    simplify_eq. rewrite list_lookup_insert_eq by (by eapply lookup_lt_Some).
    destruct Ht as [[= ->]|[[n Hd]|Hd]]; [by eauto|discriminate Hd..].
Qed.

(** A waiting shutdown always has a step to wait for. *)
Lemma stuck_returned (s : System) (owner : SessionInstance) (i : nat) (t : Task) :
  system_inv s -> (forall l, progress l = true -> system_step s l = None) ->
  sy_tasks s !! i = Some t -> drains owner t -> t = TReturned (Ok tt).
Proof.
  intros I Hstuck Hi [->|[[n ->]| ->]]; [exfalso|exfalso|done].
  - specialize (Hstuck (LLook i) eq_refl). simpl in Hstuck. by rewrite Hi in Hstuck.
  - destruct (fi_sleep _ _ I i owner n Hi) as [(e & He & _ & _ & Hpos)|(j & o & rm & Hj)].
    + pose proof (fi_count _ _ I owner) as Hc. unfold in_flight_of in Hc. rewrite He in Hc.
      simpl in Hc. rewrite Hc in Hpos. apply weight_pos in Hpos as (j & t & Hj & Ht).
      destruct t as [|o| | | |]; simpl in Ht; try lia.
      specialize (Hstuck (LDrop j) eq_refl). simpl in Hstuck. rewrite Hj in Hstuck.
      by destruct (permit_release _ o) as [? [? ?]].
    + specialize (Hstuck (LNotify j) eq_refl). simpl in Hstuck. by rewrite Hj in Hstuck.
Qed.

(** C24: shutdowns drain: once an instance takes no new operation, every schedule in
    which the operations in flight finish is at most [work] steps long, and when
    none of its steps is left the waiting shutdown has returned, without an
    error: no notification is lost, however finishing operations, other
    shutdowns and the looks of the waiting one interleave. *)
Theorem drain_returns (tr0 tr : list Label) (s s' : System) (owner : SessionInstance) (i : nat) :
  run system_start tr0 s -> not_open s owner -> sy_tasks s !! i = Some (TDraining owner) ->
  run s tr s' -> Forall (fun l => progress l = true) tr ->
  zlen tr <= work (sy_tasks s)
  /\ ((forall l, progress l = true -> system_step s' l = None) ->
        sy_tasks s' !! i = Some (TReturned (Ok tt))).
Proof.
  intros Hr0 Hn Hi Hr Hp. pose proof (run_inv _ _ _ start_inv Hr0) as I. split.
  - pose proof (run_work _ _ _ Hr Hp). pose proof (work_nonneg (sy_tasks s')). lia.
  - intros Hstuck.
    assert (exists t, sy_tasks s !! i = Some t /\ drains owner t) as H.
    { exists (TDraining owner). split; [done|by left]. }
    clear Hr0 Hi tr0. induction Hr as [s|s s1 s2 l tr Hs Hr IH].
    + destruct H as (t & Hi & Ht). by rewrite <- (stuck_returned s owner i t I Hstuck Hi Ht).
    + inversion Hp; subst. destruct H as (t & Hi & Ht). apply IH.
      * by eapply progress_not_open.
      * done.
      * eapply step_inv; eauto.
      * done.
      * eapply progress_drains; eauto.
Qed.

(** * What the fence does not keep *)

(** An entry that is open, for whatever reason, stays until a shutdown of the
    same instance begins. *)
Definition is_open (s : System) (owner : SessionInstance) : Prop :=
  exists e, entries (sy_registry s) !! owner = Some e /\ closing e = false.

Lemma open_stays (s s' : System) (tr : list Label) (owner : SessionInstance) :
  system_inv s -> is_open s owner -> run s tr s' -> LBegin owner ∉ tr -> is_open s' owner.
Proof.
  intros I Ho Hr Hno. induction Hr as [s|s s1 s2 l tr Hs Hr IH]; [done|].
  apply not_elem_of_cons in Hno as [Hl Hno]. apply IH; [by eapply step_inv| |done].
  destruct Ho as (e & He & Hc). pose proof (step_entry _ _ _ owner I Hs) as H. rewrite He in H.
  inversion H as [|? e' Hce| |? e' Hb|]; subst.
  - by exists e.
  - exists e'. split; [done|congruence].
  - congruence.
  - congruence.
Qed.

Lemma open_blocks (s : System) (owner : SessionInstance) :
  is_open s owner ->
  is_ok (ensure_session_replacement_allowed (sy_registry s) (si_id owner)) = false
  /\ is_ok (drain_look (sy_registry s) owner) = false
  /\ is_ok (finish_session_shutdown (sy_registry s) owner).2 = false.
Proof.
  intros (e & He & Hc). split_and!.
  - unfold ensure_session_replacement_allowed.
    assert (existsb (fun kv => String.eqb (si_id kv.1) (si_id owner))
              (map_to_list (entries (sy_registry s))) = true) as ->; [|done].
    apply existsb_exists. exists (owner, e). split; [|apply String.eqb_refl].
    apply list_elem_of_In. by apply elem_of_map_to_list.
  - unfold drain_look. by rewrite He, Hc.
  - unfold finish_session_shutdown. by rewrite He, Hc.
Qed.

Module LifecycleWitness.

Definition session : Session := mkSession "s" 1 7 "/work".
Definition owner : SessionInstance := from_session session.
Definition runtime : RuntimeHandle := mkRuntime owner "/work" 1.

(** An operation is verified, the session stops and its shutdown runs to its
    end; then the operation takes its permit. *)
Definition late_trace : list Label :=
  [LVerify owner session (Ok session) (Ok true); LBegin owner; LShutdown owner; LDrain owner;
   LLook 1; LFinish owner true; LAcquire 0; LInsert 5 runtime; LDrop 0; LNotify 0; LRemove 0].

Definition late_state : System := default system_start (run_list system_start late_trace).

Lemma late_run : run system_start late_trace late_state.
Proof. apply run_list_sound. vm_compute. reflexivity. Qed.

Lemma late_open : is_open late_state owner.
Proof. eexists. split; [vm_compute; reflexivity|reflexivity]. Qed.

Lemma late_runtime : sy_runtimes late_state !! 5 = Some runtime.
Proof. vm_compute. reflexivity. Qed.

Lemma late_idle : permits owner (sy_tasks late_state) = 0.
Proof. vm_compute. reflexivity. Qed.

End LifecycleWitness.

(** The fence can be passed from behind: an operation verified before the
    shutdown of its instance began, whose lock section runs after the shutdown
    finished (the entry is gone, so none is closing), takes a permit of the
    ended instance and registers a runtime; when it is done the entry it made
    stays, and until another shutdown of the same instance begins, its session id
    can not be used again, and draining or finishing it fails. *)
Theorem late_permit_blocks_replacement :
  exists tr s owner task runtime,
    run system_start tr s
    /\ (exists a b c session, tr = a ++ LVerify owner session (Ok session) (Ok true)
          :: LBegin owner :: b ++ LFinish owner true :: LAcquire 0 :: c)
    /\ sy_runtimes s !! task = Some runtime /\ rt_owner runtime = owner
    /\ permits owner (sy_tasks s) = 0
    /\ forall tr' s', run s tr' s' -> LBegin owner ∉ tr' ->
         is_ok (ensure_session_replacement_allowed (sy_registry s') (si_id owner)) = false
         /\ is_ok (drain_look (sy_registry s') owner) = false
         /\ is_ok (finish_session_shutdown (sy_registry s') owner).2 = false.
Proof.
  exists LifecycleWitness.late_trace, LifecycleWitness.late_state, LifecycleWitness.owner, 5,
    LifecycleWitness.runtime.
  split_and!.
  - exact LifecycleWitness.late_run.
  - by exists [], [LShutdown LifecycleWitness.owner; LDrain LifecycleWitness.owner; LLook 1],
      [LInsert 5 LifecycleWitness.runtime; LDrop 0; LNotify 0; LRemove 0], LifecycleWitness.session.
  - exact LifecycleWitness.late_runtime.
  - done.
  - exact LifecycleWitness.late_idle.
  - intros tr' s' Hr Hno. apply open_blocks. eapply open_stays; [|exact LifecycleWitness.late_open|done..].
    exact (run_inv _ _ _ start_inv LifecycleWitness.late_run).
Qed.

(** * The gate without interference, and the monitors *)

(** An operation is let in exactly when its session snapshot, the stored metadata
    and the instance agree, the probe says the session runs and no shutdown has
    begun; then one operation more is in flight, and otherwise nothing changes. *)
Theorem gate_spec (r : LifecycleRegistry) (owner : SessionInstance) (session : Session)
    (current : result string Session) (active : result string bool) :
  let '(r1, res) := ensure_current_active_instance r owner session current active in
  (is_ok res = true <->
     matches owner session = true /\ session_instance_is_closing r owner = false
     /\ (exists c, current = Ok c /\ matches owner c = true) /\ active = Ok true)
  /\ (is_ok res = true -> forall o, in_flight_of r1 o
        = in_flight_of r o + (if bool_decide (o = owner) then 1 else 0))
  /\ (is_ok res = false -> r1 = r).
Proof.
  unfold ensure_current_active_instance, verify_instance.
  destruct (matches owner session) eqn:Hm; simpl; [|split_and!; naive_solver].
  destruct (session_instance_is_closing r owner) eqn:Hcl; simpl; [split_and!; naive_solver|].
  destruct current as [c|]; simpl; [|split_and!; naive_solver].
  destruct (matches owner c) eqn:Hmc; simpl; [|split_and!; naive_solver].
  destruct active as [[]|]; simpl; [|split_and!; naive_solver..].
  destruct (permit_acquire r owner) as [r1 res] eqn:E. apply acquire_spec in E.
  unfold session_instance_is_closing in Hcl. unfold in_flight_of.
  destruct (entries r !! owner) as [e|] eqn:He; simpl in Hcl; [rewrite Hcl in E|];
    destruct E as [Hok Hr1]; rewrite Hok;
    (split_and!; [naive_solver| |done]); intros _ o; rewrite Hr1;
    (case_bool_decide as Ho; [subst o; by rewrite lookup_insert_eq, He|
     rewrite lookup_insert_ne by done; lia]).
Qed.

(** What a poll shows beyond doubt. *)
Definition decisive (owner : SessionInstance) (p : Poll) : bool :=
  match po_metadata p with
  | Ok session =>
      negb (matches owner session)
      || match po_active p with Ok active => negb active | Err _ => false end
  | Err _ => false
  end.

Fixpoint first_index {A : Type} (f : A -> bool) (l : list A) : option nat :=
  match l with
  | [] => None
  | x :: rest => if f x then Some O else S <$> first_index f rest
  end.

Lemma opencode_decisive (owner : SessionInstance) (polls : list Poll) :
  wait_for_session_stop owner polls = first_index (decisive owner) polls.
Proof.
  induction polls as [|p polls IH]; [done|]. simpl.
  unfold observe_session_instance, decisive, same_instance, ignore_err.
  destruct (po_metadata p) as [c|]; simpl; [|by rewrite IH].
  destruct (matches owner c); simpl; [|done].
  destruct (po_active p) as [[]|]; simpl; by rewrite ?IH.
Qed.

Lemma codex_decisive (owner : SessionInstance) (m : SessionStopMonitor) (polls : list Poll) :
  (codex_wait_for_session_stop owner m polls).1 = first_index (decisive owner) polls.
Proof.
  revert m. induction polls as [|p polls IH]; intros m; [done|]. simpl.
  unfold codex_observe_session_instance, decisive.
  destruct (po_metadata p) as [c|]; simpl.
  - destruct (matches owner c); simpl; [|done].
    destruct (po_active p) as [[]|]; simpl; [|done|];
      specialize (IH (mkMonitor 0)) as IH0;
      [destruct (codex_wait_for_session_stop owner (mkMonitor 0) polls) as [n log]; simpl in *; by rewrite IH0|].
    specialize (IH (mkMonitor (Z.min (consecutive_unknown m + 1) U8_MAX))).
    destruct (codex_wait_for_session_stop _ _ polls) as [n log]. simpl in *. by rewrite IH.
  - specialize (IH (mkMonitor (Z.min (consecutive_unknown m + 1) U8_MAX))).
    destruct (codex_wait_for_session_stop _ _ polls) as [n log]. simpl in *. by rewrite IH.
Qed.

(** The two monitors, one a pure classification and one a state machine with a
    saturating counter, end a session at the same poll: the first that shows
    beyond doubt that the instance was replaced or is not running.  A poll that
    could not be read, however many of them in a row, never ends one. *)
Theorem monitors_agree (owner : SessionInstance) (polls : list Poll) :
  wait_for_session_stop owner polls
  = (codex_wait_for_session_stop owner (mkMonitor 0) polls).1
  /\ wait_for_session_stop owner polls = first_index (decisive owner) polls.
Proof. by rewrite opencode_decisive, codex_decisive. Qed.

(** * Witnesses *)

Module LifecycleRuns.
Import LifecycleWitness.

Definition busy_trace : list Label :=
  [LVerify owner session (Ok session) (Ok true); LAcquire 0; LInsert 5 runtime;
   LBegin owner; LDrain owner].
Definition busy : System := default system_start (run_list system_start busy_trace).
Definition drain_trace : list Label := [LLook 1; LDrop 0; LNotify 0; LLook 1; LRemove 0].
Definition drained : System := default busy (run_list busy drain_trace).

Lemma busy_run : run system_start busy_trace busy.
Proof. apply run_list_sound. vm_compute. reflexivity. Qed.

Lemma drained_run : run busy drain_trace drained.
Proof. apply run_list_sound. vm_compute. reflexivity. Qed.

Lemma busy_closing : is_closing busy owner.
Proof. vm_compute. reflexivity. Qed.

Lemma busy_not_open : not_open busy owner.
Proof.
  intros e He.
  replace (entries (sy_registry busy) !! owner) with (Some (mkEntry true false 1 true 0)) in He
    by (vm_compute; reflexivity).
  by simplify_eq.
Qed.

Lemma drained_stuck (l : Label) : progress l = true -> system_step drained l = None.
Proof. destruct l as [| | [|[|i]] | [|[|i]] | [|[|i]] | | | [|[|i]] | | | | |]; done. Qed.

Lemma permits_counted_witness :
  in_flight_of (sy_registry busy) owner = permits owner (sy_tasks busy).
Proof. exact (proj1 (permits_counted busy_trace busy busy_run) owner). Defined.

Lemma closing_fence_witness : is_closing drained owner.
Proof.
  refine (proj1 (closing_fence busy_trace drain_trace busy drained owner busy_run busy_closing
                   drained_run _)).
  vm_compute. set_solver.
Defined.

Lemma drain_returns_witness : sy_tasks drained !! 1%nat = Some (TReturned (Ok tt)).
Proof.
  refine (proj2 (drain_returns busy_trace drain_trace busy drained owner 1%nat busy_run
                   busy_not_open _ drained_run _) drained_stuck).
  - vm_compute. reflexivity.
  - repeat constructor.
Defined.

End LifecycleRuns.
