(* ===== verification/ReportContract.v ===== *)
(** * The delegation report contract: src/src/report_contract.rs

    Which reports of a worker are accepted: the strict profile of a delegation,
    the lenient profile of a task, and the two native profiles (the wire
    schema of the cloud and the six-field schema of Codex).  A report is a
    parsed document; its size is that of its compact form. *)

From S2P Require Import Prelude Strings Json Value.

Definition REPORT_FIELDS : list string :=
  ["status"; "summary"; "base_commit"; "changed_files"; "checks"; "unresolved";
   "requested_model"; "requested_effort"; "observed_model"; "observed_effort"].

Definition MAX_REPORT_SUMMARY_CHARS : Z := 1200.
Definition MAX_REPORT_COMMIT_CHARS : Z := 200.
Definition MAX_REPORT_ARGUMENT_CHARS : Z := 256.
Definition MAX_DELEGATION_ARRAY_ITEMS : Z := 128.
Definition MAX_REPORT_ARRAY_ITEM_CHARS : Z := 512.
Definition MAX_TASK_REPORT_ARRAY_ITEMS : Z := 64.
Definition MAX_TASK_REPORT_BYTES : Z := 8 * 1024.

Inductive ReportProfile := Delegation | TaskReport.

Definition bounded_string (value : option Json) (max_chars : Z) : bool :=
  is_some_and (fun text => zlen (chars text) <=? max_chars) (value ≫= as_str).

Definition bounded_array (value : option Json) (max_items : Z) (max_chars : option Z) : bool :=
  is_some_and (fun items =>
      (zlen items <=? max_items)
      && forallb (fun item => match max_chars with
                              | None => is_string item
                              | Some limit => bounded_string (Some item) limit
                              end) items)
    (value ≫= as_array).

Definition status_known (status : option string) : bool :=
  match status with
  | Some s => existsb (String.eqb s) ["completed"; "failed"; "blocked"; "needs_decision"]
  | None => false
  end.

Definition array_fields : list string := ["changed_files"; "checks"; "unresolved"].

Definition report_validate (report : Json) (profile : ReportProfile) : bool :=
  match as_object report with
  | None => false
  | Some object =>
      if negb (status_known (assoc "status" object ≫= as_str)) then false
      else match profile with
      | Delegation =>
          (zlen object =? zlen REPORT_FIELDS)
          && forallb (fun field => is_some (assoc field object)) REPORT_FIELDS
          && bounded_string (assoc "summary" object) MAX_REPORT_SUMMARY_CHARS
          && bounded_string (assoc "base_commit" object) MAX_REPORT_COMMIT_CHARS
          && forallb (fun field => bounded_array (assoc field object) MAX_DELEGATION_ARRAY_ITEMS
                                     (Some MAX_REPORT_ARRAY_ITEM_CHARS)) array_fields
          && forallb (fun field => bounded_string (assoc field object) MAX_REPORT_ARGUMENT_CHARS)
               ["requested_model"; "requested_effort"]%string
          && forallb (fun field => is_some_and (fun value =>
                        is_null value || bounded_string (Some value) MAX_REPORT_ARGUMENT_CHARS)
                        (assoc field object))
               ["observed_model"; "observed_effort"]%string
      | TaskReport =>
          bounded_string (assoc "summary" object) MAX_REPORT_SUMMARY_CHARS
          && forallb (fun field => is_none_or (fun value =>
                        bounded_array (Some value) MAX_TASK_REPORT_ARRAY_ITEMS None)
                        (assoc field object)) array_fields
          && (json_size report <=? MAX_TASK_REPORT_BYTES)
      end
  end.

Definition NATIVE_FIELDS : list string :=
  ["status"; "summary"; "base_commit"; "changed_files"; "checks"; "unresolved"].

Definition validate_native_wire (report : Json) : bool :=
  match as_object report with
  | None => false
  | Some object =>
      forallb (fun kv => existsb (String.eqb kv.1) NATIVE_FIELDS) object
      && is_none_or is_string (assoc "base_commit" object)
      && report_validate report TaskReport
  end.

Definition validate_codex_native (report : Json) : bool :=
  match as_object report with
  | None => false
  | Some object =>
      (zlen object =? 6)
      && forallb (fun field => is_some (assoc field object)) NATIVE_FIELDS
      && report_validate report TaskReport
      && bounded_string (assoc "base_commit" object) MAX_REPORT_COMMIT_CHARS
      && forallb (fun field => bounded_array (assoc field object) MAX_TASK_REPORT_ARRAY_ITEMS
                                 (Some MAX_REPORT_ARRAY_ITEM_CHARS)) array_fields
  end.

(** * How the profiles relate *)

Lemma report_size (report : Json) :
  report_validate report TaskReport = true -> json_size report <= MAX_TASK_REPORT_BYTES.
Proof.
  unfold report_validate. destruct (as_object report) as [object|]; [|done].
  destruct (negb _); [done|]. rust_norm. lia.
Qed.

(** The keys of an object are distinct: it is the entries of a map. *)
Definition object_keys_distinct (v : Json) : Prop :=
  forall entries, as_object v = Some entries -> NoDup (map fst entries).

Lemma assoc_In {A : Type} (k : string) (l : list (string * A)) :
  is_some (assoc k l) = true -> k ∈ map fst l.
Proof.
  induction l as [|[k' a] l IH]; simpl; [done|].
  destruct (String.eqb_spec k k') as [->|]; [left|right; auto].
Qed.

(** A report of Codex's native profile has only the fields of the wire schema,
    so the wire profile accepts it too, and the task profile both. *)
Theorem native_profiles_nest (report : Json) :
  object_keys_distinct report -> validate_codex_native report = true ->
  validate_native_wire report = true /\ report_validate report TaskReport = true
  /\ json_size report <= MAX_TASK_REPORT_BYTES.
Proof.
  unfold validate_codex_native, validate_native_wire, object_keys_distinct.
  destruct (as_object report) as [object|] eqn:Ho; [|done]. intros Hd H.
  specialize (Hd object eq_refl). rewrite !andb_true_iff in H.
  destruct H as ((((Hlen%Z.eqb_eq & Hall) & Htask) & Hcommit) & _).
  assert (forall x, x ∈ map fst object -> x ∈ NATIVE_FIELDS) as Hsub.
  { assert (NATIVE_FIELDS ⊆+ map fst object) as Hs.
    { apply NoDup_submseteq; [by apply (bool_decide_unpack _); vm_compute|].
      intros x Hx. apply assoc_In. rewrite forallb_forall in Hall.
      apply Hall. by apply list_elem_of_In. }
    apply submseteq_length_Permutation in Hs.
    - intros x Hx. by rewrite Hs.
    - rewrite length_map. unfold zlen in Hlen. simpl. lia. }
  rewrite Htask. split_and!; [|done|by apply report_size].
  rewrite !andb_true_iff. split_and!; [| |done].
  - apply forallb_forall. intros [k v] Hin. apply existsb_exists. exists k. split; [|apply String.eqb_refl]. apply list_elem_of_In, Hsub.
    apply (elem_of_map fst (k, v)). by apply list_elem_of_In.
  - unfold bounded_string in Hcommit. destruct (assoc "base_commit" object) as [c|]; [|done].
    simpl in *. unfold is_string. by destruct (as_str c).
Qed.
