(* ===== verification/ReportSchema.v ===== *)
(** * The report schemas: src/src/report_contract.rs

    The three JSON Schemas a worker is given for its report, a validator for the
    keywords they use, and that the code's own validators accept exactly the
    documents that meet them (up to the size limit of a task's report).

    A schema is a document; its validator is the reading of JSON Schema
    (draft 2020-12) of these keywords: a keyword says nothing about a value of a
    type it does not constrain. *)

From Stdlib Require Import Btauto.
From S2P Require Import Prelude Strings Json Value ReportContract.

#[local] Open Scope Z_scope.
#[local] Open Scope rust_scope.

(** * The schemas *)

Definition string_enum (values : list string) : Json :=
  JObj [("enum", JArr (map JStr values)); ("type", JStr "string")].

Definition bounded_string_schema (max_length : Z) : Json :=
  JObj [("maxLength", JInt max_length); ("type", JStr "string")].

Definition plain_string_schema : Json := JObj [("type", JStr "string")].

Definition array_schema (items : Json) (max_items : Z) : Json :=
  JObj [("items", items); ("maxItems", JInt max_items); ("type", JStr "array")].

Definition STATUSES : list string := ["completed"; "failed"; "blocked"; "needs_decision"].

Definition report_json_schema : Json :=
  JObj [("additionalProperties", JBool false);
        ("properties", JObj
          [("base_commit", plain_string_schema);
           ("changed_files", array_schema plain_string_schema MAX_TASK_REPORT_ARRAY_ITEMS);
           ("checks", array_schema plain_string_schema MAX_TASK_REPORT_ARRAY_ITEMS);
           ("status", string_enum STATUSES);
           ("summary", bounded_string_schema MAX_REPORT_SUMMARY_CHARS);
           ("unresolved", array_schema plain_string_schema MAX_TASK_REPORT_ARRAY_ITEMS)]);
        ("required", JArr [JStr "status"; JStr "summary"]);
        ("type", JStr "object")].

(** [BTreeMap::insert]. *)
Fixpoint insert_entry (k : string) (v : Json) (l : list (string * Json)) : list (string * Json) :=
  match l with
  | [] => [(k, v)]
  | (k', v') :: rest =>
      if String.eqb k k' then (k, v) :: rest
      else if String.leb k k' then (k, v) :: l
      else (k', v') :: insert_entry k v rest
  end.

(** [value[k1][k2]... = v], on objects (an absent key is [Null], which becomes an
    object). *)
Fixpoint assign_at (path : list string) (v : Json) (value : Json) : Json :=
  match path with
  | [] => v
  | k :: path =>
      let entries := match value with
                     | JObj entries => entries
                     | _ => []
                     end in
      let inner := match assoc k entries with
                   | Some inner => inner
                   | None => JNull
                   end in
      JObj (insert_entry k (assign_at path v inner) entries)
  end.

Definition codex_report_json_schema : Json :=
  let schema := report_json_schema in
  let schema := assign_at ["required"] (JArr (map JStr NATIVE_FIELDS)) schema in
  let schema := assign_at ["properties"; "base_commit"; "maxLength"]
                  (JInt MAX_REPORT_COMMIT_CHARS) schema in
  fold_left (fun schema field =>
      assign_at ["properties"; field; "items"; "maxLength"] (JInt MAX_REPORT_ARRAY_ITEM_CHARS) schema)
    array_fields schema.

Definition nullable_string_schema (max_length : Z) : Json :=
  JObj [("type", JArr [JStr "string"; JStr "null"]); ("maxLength", JInt max_length)].

(** The document of [DELEGATION_OUTPUT_SCHEMA]. *)
Definition DELEGATION_OUTPUT_SCHEMA : Json :=
  JObj [("$schema", JStr "https://json-schema.org/draft/2020-12/schema");
        ("type", JStr "object");
        ("additionalProperties", JBool false);
        ("required", JArr (map JStr REPORT_FIELDS));
        ("properties", JObj
          [("status", string_enum STATUSES);
           ("summary", bounded_string_schema 1200);
           ("base_commit", bounded_string_schema 200);
           ("changed_files", array_schema (bounded_string_schema 512) 128);
           ("checks", array_schema (bounded_string_schema 512) 128);
           ("unresolved", array_schema (bounded_string_schema 512) 128);
           ("requested_model", bounded_string_schema 256);
           ("requested_effort", bounded_string_schema 256);
           ("observed_model", nullable_string_schema 256);
           ("observed_effort", nullable_string_schema 256)])].

(** * What meets a schema *)

Definition has_type (value : Json) (type : string) : bool :=
  match value with
  | JObj _ => String.eqb type "object"
  | JArr _ => String.eqb type "array"
  | JStr _ => String.eqb type "string"
  | JNull => String.eqb type "null"
  | JBool _ => String.eqb type "boolean"
  | JInt _ => String.eqb type "integer" || String.eqb type "number"
  | JFloat _ => String.eqb type "number"
  end.

Definition type_holds (type value : Json) : bool :=
  match type with
  | JStr t => has_type value t
  | JArr types => existsb (fun t => is_some_and (has_type value) (as_str t)) types
  | _ => false
  end.

Definition at_most (limit : Json) (n : Z) : bool :=
  match limit with
  | JInt max => n <=? max
  | _ => false
  end.

(** [siblings] are the keywords of the schema that a keyword belongs to. *)
Definition plain_keyword (siblings : list (string * Json)) (keyword : string) (argument value : Json) :
    bool :=
  if String.eqb keyword "type" then type_holds argument value
  else if String.eqb keyword "enum" then
    is_some_and (existsb (fun v => bool_decide (v = value))) (as_array argument)
  else if String.eqb keyword "maxLength" then
    is_none_or (fun text => at_most argument (zlen (chars text))) (as_str value)
  else if String.eqb keyword "maxItems" then
    is_none_or (fun items => at_most argument (zlen items)) (as_array value)
  else if String.eqb keyword "required" then
    is_none_or (fun object => is_some_and (forallb (fun field =>
        is_some_and (fun k => is_some (assoc k object)) (as_str field))) (as_array argument))
      (as_object value)
  else if String.eqb keyword "additionalProperties" then
    let known := match assoc "properties" siblings with
                 | Some (JObj properties) => map fst properties
                 | _ => []
                 end in
    is_none_or (forallb (fun kv => existsb (String.eqb kv.1) known)) (as_object value)
  else String.eqb keyword "$schema".

Fixpoint accepts (schema value : Json) : bool :=
  match schema with
  | JObj keywords =>
      forallb (fun ka =>
        if String.eqb ka.1 "items" then
          match value with
          | JArr items => forallb (accepts ka.2) items
          | _ => true
          end
        else if String.eqb ka.1 "properties" then
          match value, ka.2 with
          | JObj object, JObj properties =>
              forallb (fun ps => match assoc ps.1 object with
                                 | Some v => accepts ps.2 v
                                 | None => true
                                 end) properties
          | _, _ => true
          end
        else plain_keyword keywords ka.1 ka.2 value) keywords
  | _ => false
  end.

(** * The validators are the schemas *)

Lemma accepts_plain_string (value : Json) : accepts plain_string_schema value = is_string value.
Proof. by destruct value. Qed.

Lemma accepts_bounded_string (max : Z) (value : Json) :
  accepts (bounded_string_schema max) value = bounded_string (Some value) max.
Proof. destruct value; try done. simpl. by rewrite !andb_true_r. Qed.

Lemma accepts_nullable_string (max : Z) (value : Json) :
  accepts (nullable_string_schema max) value = is_null value || bounded_string (Some value) max.
Proof. destruct value; try done. simpl. by rewrite !andb_true_r. Qed.

Lemma accepts_status (value : Json) :
  accepts (string_enum STATUSES) value = status_known (as_str value).
Proof.
  destruct value; try done. cbn. rewrite !andb_true_r, !orb_false_r.
  assert (forall x, bool_decide (JStr x = JStr s) = String.eqb s x) as Heq.
  { intros x. apply eq_true_iff_eq. rewrite bool_decide_eq_true, String.eqb_eq.
    split; [by intros [= ->]|by intros ->]. }
  by rewrite !Heq.
Qed.

Lemma forallb_ext {A : Type} (f g : A -> bool) (l : list A) :
  (forall a, f a = g a) -> forallb f l = forallb g l.
Proof. intros H. induction l as [|a l IH]; simpl; [done|]. by rewrite H, IH. Qed.

Lemma accepts_array (items value : Json) (max : Z) :
  accepts (array_schema items max) value
  = is_some_and (fun l => (zlen l <=? max) && forallb (accepts items) l) (as_array value).
Proof.
  destruct value; try done; cbn -[accepts]; unfold array_schema; cbn [accepts forallb]; cbn -[accepts];
    rewrite ?andb_false_r, ?andb_true_r; [|done..].
  apply andb_comm.
Qed.

Lemma accepts_plain_array (max : Z) (value : Json) :
  accepts (array_schema plain_string_schema max) value = bounded_array (Some value) max None.
Proof.
  rewrite accepts_array. unfold bounded_array. simpl. destruct (as_array value); [|done]. simpl.
  f_equal. apply forallb_ext, accepts_plain_string.
Qed.

Lemma accepts_bounded_array (max limit : Z) (value : Json) :
  accepts (array_schema (bounded_string_schema limit) max) value
  = bounded_array (Some value) max (Some limit).
Proof.
  rewrite accepts_array. unfold bounded_array. simpl. destruct (as_array value); [|done]. simpl.
  f_equal. apply forallb_ext, accepts_bounded_string.
Qed.

(** An object schema: its keys, what it requires and what each property meets. *)
Definition object_schema (properties : list (string * Json)) (required : list string) : Json :=
  JObj [("additionalProperties", JBool false); ("properties", JObj properties);
        ("required", JArr (map JStr required)); ("type", JStr "object")].

Definition property_holds (object : list (string * Json)) (property : string * Json) : bool :=
  is_none_or (accepts property.2) (assoc property.1 object).

Lemma accepts_object (properties : list (string * Json)) (required : list string) (value : Json) :
  accepts (object_schema properties required) value
  = is_some_and (fun object =>
      forallb (fun kv => existsb (String.eqb kv.1) (map fst properties)) object
      && forallb (property_holds object) properties
      && forallb (fun k => is_some (assoc k object)) required) (as_object value).
Proof.
  destruct value; try (cbn; by rewrite ?andb_false_r). unfold object_schema.
  cbn -[accepts]. cbn [accepts forallb]. cbn -[accepts]. rewrite !andb_true_r, !andb_assoc.
  apply f_equal2; [apply f_equal2; [done|]|].
  - apply forallb_ext. intros [k sub]. unfold property_holds. simpl. by destruct (assoc k entries).
  - induction required as [|k required IH]; simpl; [done|]. by rewrite IH.
Qed.

Lemma existsb_eqb_elem (k : string) (l : list string) : existsb (String.eqb k) l = true <-> k ∈ l.
Proof.
  rewrite existsb_exists. split.
  - intros (x & Hx & ->%String.eqb_eq). by apply list_elem_of_In.
  - intros Hk%list_elem_of_In. exists k. split; [done|apply String.eqb_refl].
Qed.

(** An object that has all of some distinct fields has no others exactly when it
    has as many entries. *)
Lemma closed_object (object : list (string * Json)) (fields : list string) :
  NoDup (map fst object) -> NoDup fields ->
  forallb (fun k => is_some (assoc k object)) fields = true ->
  (zlen object =? zlen fields) = forallb (fun kv => existsb (String.eqb kv.1) fields) object.
Proof.
  intros Ho Hf Hall. rewrite forallb_forall in Hall.
  assert (fields ⊆+ map fst object) as Hsub.
  { apply NoDup_submseteq; [done|]. intros k Hk. apply assoc_In, Hall. by apply list_elem_of_In. }
  apply eq_true_iff_eq. rewrite Z.eqb_eq. unfold zlen. split.
  - intros Hlen. apply submseteq_length_Permutation in Hsub; [|rewrite length_map; lia].
    apply forallb_forall. intros [k v] Hin. apply existsb_eqb_elem. simpl. rewrite Hsub.
    apply (elem_of_map fst (k, v)). by apply list_elem_of_In.
  - intros Hkeys. rewrite forallb_forall in Hkeys.
    assert (map fst object ⊆+ fields) as Hsup.
    { apply NoDup_submseteq; [done|]. intros k ([k' v] & Hin & ->)%elem_of_map_inv. simpl.
      apply existsb_eqb_elem, (Hkeys (k', v)). by apply list_elem_of_In. }
    apply submseteq_length in Hsub, Hsup. rewrite length_map in Hsub, Hsup. lia.
Qed.

(** The order of the keywords and the dialect say nothing about a value. *)
Lemma accepts_reordered (dialect : Json) (properties : list (string * Json)) (required : list string)
    (value : Json) :
  accepts (JObj [("$schema", dialect); ("type", JStr "object"); ("additionalProperties", JBool false);
                 ("required", JArr (map JStr required)); ("properties", JObj properties)]) value
  = accepts (object_schema properties required) value.
Proof.
  unfold object_schema. cbn -[accepts]. cbn [accepts forallb]. cbn -[accepts].
  destruct value; cbn -[accepts]; btauto.
Qed.

(** * A field of the code is a property of the schema

    [meets schema o]: what is there meets the schema. *)

Definition meets (schema : Json) (o : option Json) : bool := is_none_or (accepts schema) o.

Lemma status_meets (o : option Json) :
  status_known (o ≫= as_str) = meets (string_enum STATUSES) o && is_some o.
Proof. destruct o as [v|]; [|done]. cbn -[accepts]. by rewrite accepts_status, andb_true_r. Qed.

Lemma string_meets (max : Z) (o : option Json) :
  bounded_string o max = meets (bounded_string_schema max) o && is_some o.
Proof.
  destruct o as [v|]; [|done]. cbn -[accepts bounded_string].
  by rewrite accepts_bounded_string, andb_true_r.
Qed.

Lemma optional_string_meets (o : option Json) :
  is_none_or is_string o = meets plain_string_schema o.
Proof. destruct o as [v|]; [|done]. cbn -[accepts]. by rewrite accepts_plain_string. Qed.

Lemma nullable_meets (max : Z) (o : option Json) :
  is_some_and (fun v => is_null v || bounded_string (Some v) max) o
  = meets (nullable_string_schema max) o && is_some o.
Proof.
  destruct o as [v|]; [|done]. cbn -[accepts bounded_string].
  by rewrite accepts_nullable_string, andb_true_r.
Qed.

Lemma optional_array_meets (max : Z) (o : option Json) :
  is_none_or (fun v => bounded_array (Some v) max None) o
  = meets (array_schema plain_string_schema max) o.
Proof.
  destruct o as [v|]; [|done]. cbn -[accepts bounded_array]. by rewrite accepts_plain_array.
Qed.

Lemma array_meets (max limit : Z) (o : option Json) :
  bounded_array o max (Some limit)
  = meets (array_schema (bounded_string_schema limit) max) o && is_some o.
Proof.
  destruct o as [v|]; [|done]. cbn -[accepts bounded_array].
  by rewrite accepts_bounded_array, andb_true_r.
Qed.

(** Bounded items are strings. *)
Lemma bounded_items_strings (max limit : Z) (o : option Json) :
  meets (array_schema (bounded_string_schema limit) max) o
  = meets (array_schema (bounded_string_schema limit) max) o
    && meets (array_schema plain_string_schema max) o.
Proof.
  destruct o as [v|]; [|done]. cbn -[accepts]. rewrite !accepts_array.
  destruct (as_array v) as [l|]; [|done]. cbn -[accepts].
  destruct (zlen l <=? max); [|done]. cbn -[accepts].
  induction l as [|a l IH]; [done|]. cbn [forallb].
  rewrite accepts_bounded_string, accepts_plain_string. rewrite IH at 1.
  destruct a; cbn -[accepts forallb Z.leb]; btauto.
Qed.

Lemma same_keys (fields fields' : list string) (object : list (string * Json)) :
  fields ≡ₚ fields' ->
  forallb (fun kv => existsb (String.eqb kv.1) fields) object
  = forallb (fun kv => existsb (String.eqb kv.1) fields') object.
Proof.
  intros Hp. apply forallb_ext. intros [k v]. apply eq_true_iff_eq.
  rewrite !existsb_eqb_elem. by rewrite Hp.
Qed.

Lemma if_negb (a b : bool) : (if negb a then false else b) = a && b.
Proof. by destruct a. Qed.

(** Names the field of an object, and what is known of its keys and its size. *)
Ltac fields_known :=
  cbn [is_some_and forallb array_fields];
  repeat match goal with |- context [property_holds ?object (?k, ?s)] =>
    change (property_holds object (k, s)) with (meets s (assoc k object)) end;
  rewrite ?string_meets, ?array_meets, ?optional_array_meets, ?optional_string_meets,
    ?nullable_meets, ?status_meets.

Lemma wire_is_schema (report : Json) :
  validate_native_wire report
  = accepts report_json_schema report && (json_size report <=? MAX_TASK_REPORT_BYTES).
Proof.
  change report_json_schema with (object_schema
    [("base_commit", plain_string_schema);
     ("changed_files", array_schema plain_string_schema MAX_TASK_REPORT_ARRAY_ITEMS);
     ("checks", array_schema plain_string_schema MAX_TASK_REPORT_ARRAY_ITEMS);
     ("status", string_enum STATUSES);
     ("summary", bounded_string_schema MAX_REPORT_SUMMARY_CHARS);
     ("unresolved", array_schema plain_string_schema MAX_TASK_REPORT_ARRAY_ITEMS)]
    ["status"; "summary"]%string).
  rewrite accepts_object. unfold validate_native_wire, report_validate.
  destruct (as_object report) as [object|]; [|done]. cbn [is_some_and].
  rewrite (same_keys (map fst _) NATIVE_FIELDS) by (by apply (bool_decide_unpack _); vm_compute).
  unfold array_fields. fields_known. btauto.
Qed.

Lemma codex_is_schema (report : Json) :
  object_keys_distinct report ->
  validate_codex_native report
  = accepts codex_report_json_schema report && (json_size report <=? MAX_TASK_REPORT_BYTES).
Proof.
  intros Hd. change codex_report_json_schema with (object_schema
    [("base_commit", bounded_string_schema MAX_REPORT_COMMIT_CHARS);
     ("changed_files", array_schema (bounded_string_schema MAX_REPORT_ARRAY_ITEM_CHARS)
        MAX_TASK_REPORT_ARRAY_ITEMS);
     ("checks", array_schema (bounded_string_schema MAX_REPORT_ARRAY_ITEM_CHARS)
        MAX_TASK_REPORT_ARRAY_ITEMS);
     ("status", string_enum STATUSES);
     ("summary", bounded_string_schema MAX_REPORT_SUMMARY_CHARS);
     ("unresolved", array_schema (bounded_string_schema MAX_REPORT_ARRAY_ITEM_CHARS)
        MAX_TASK_REPORT_ARRAY_ITEMS)] NATIVE_FIELDS).
  rewrite accepts_object. unfold validate_codex_native, report_validate.
  unfold object_keys_distinct in Hd. destruct (as_object report) as [object|]; [|done].
  specialize (Hd object eq_refl). cbn [is_some_and].
  rewrite (same_keys (map fst _) NATIVE_FIELDS) by (by apply (bool_decide_unpack _); vm_compute).
  assert (NoDup NATIVE_FIELDS) as Hn by (by apply (bool_decide_unpack _); vm_compute).
  pose proof (closed_object object NATIVE_FIELDS Hd Hn) as Hclosed.
  destruct (forallb (fun field => is_some (assoc field object)) NATIVE_FIELDS) eqn:Hall;
    [|by rewrite !andb_false_r].
  change 6 with (zlen NATIVE_FIELDS). rewrite Hclosed by done. unfold array_fields. fields_known.
  rewrite (bounded_items_strings _ _ (assoc "changed_files" object)),
    (bounded_items_strings _ _ (assoc "checks" object)),
    (bounded_items_strings _ _ (assoc "unresolved" object)).
  cbn [forallb NATIVE_FIELDS] in Hall. rewrite !andb_true_iff in Hall.
  rewrite if_negb. apply eq_true_iff_eq. rewrite !andb_true_iff. tauto.
Qed.

Lemma delegation_is_schema (report : Json) :
  object_keys_distinct report ->
  report_validate report Delegation = accepts DELEGATION_OUTPUT_SCHEMA report.
Proof.
  intros Hd. unfold DELEGATION_OUTPUT_SCHEMA. rewrite accepts_reordered, accepts_object.
  unfold report_validate, object_keys_distinct in *.
  destruct (as_object report) as [object|]; [|done]. specialize (Hd object eq_refl).
  cbn [is_some_and].
  rewrite (same_keys (map fst _) REPORT_FIELDS) by (by apply (bool_decide_unpack _); vm_compute).
  assert (NoDup REPORT_FIELDS) as Hn by (by apply (bool_decide_unpack _); vm_compute).
  pose proof (closed_object object REPORT_FIELDS Hd Hn) as Hclosed. rewrite if_negb.
  destruct (forallb (fun field => is_some (assoc field object)) REPORT_FIELDS) eqn:Hall;
    [|by rewrite ?andb_false_r].
  rewrite Hclosed by done. unfold array_fields. fields_known.
  cbn [forallb REPORT_FIELDS] in Hall. rewrite !andb_true_iff in Hall.
  apply eq_true_iff_eq. rewrite !andb_true_iff.
  unfold MAX_REPORT_SUMMARY_CHARS, MAX_REPORT_COMMIT_CHARS, MAX_REPORT_ARGUMENT_CHARS,
    MAX_DELEGATION_ARRAY_ITEMS, MAX_REPORT_ARRAY_ITEM_CHARS. tauto.
Qed.


Module SchemaWitness.

Definition report : Json :=
  JObj [("status", JStr "completed"); ("summary", JStr "done"); ("base_commit", JStr "a1");
        ("changed_files", JArr [JStr "src/lib.rs"]); ("checks", JArr []); ("unresolved", JArr [])].


End SchemaWitness.

