(* ===== verification/TaskRecord.v ===== *)
(** * Task records of the OpenCode backend

    opencode_server.rs: the durable record of a task with its operation
    receipts, what makes one valid, the views that leave the process, the
    replay of an operation, and the texts it bounds.  A uuid is [Json.UuidLib]'s; the
    hash of [Uuid::new_v5] and the canonical form of a directory are parameters. *)

From S2P Require Import Prelude Strings Json Value Outcome PendingInteraction Lifecycle.
From S2P Require Import ReportContract.
From S2P Require Upgrade.

Definition TASK_SCHEMA_VERSION : Z := 1.
Definition TASK_RETENTION_SECONDS : Z := 24 * 60 * 60.
Definition MAX_TASK_RECORD_BYTES : Z := 64 * 1024.
Definition MAX_OPERATION_HISTORY : Z := 32.
Definition MAX_ARGUMENT_BYTES : Z := 256.
Definition MAX_ERROR_BYTES : Z := 1024.
Definition MAX_REPORT_BYTES : Z := MAX_TASK_REPORT_BYTES.
Definition MAX_RAW_RESULT_BYTES : Z := 16 * 1024.

(** An [anyhow::Error]: whether an [io::Error] of kind [NotFound] is in its chain,
    and its message. *)
Inductive TaskError :=
| NotFound (message : string)
| Other (message : string).

Definition is_not_found (e : TaskError) : bool :=
  match e with
  | NotFound _ => true
  | Other _ => false
  end.

Inductive TaskStatus :=
| TsAccepted | TsRunning | TsWaitingApproval | TsRetryableFailed | TsCompleted | TsInterrupted
| TsFailed | TsReconciliationRequired | TsUnknown.

#[local] Open Scope Z_scope.
#[local] Open Scope rust_scope.

#[global] Instance task_status_eq : EqDecision TaskStatus.
Proof. solve_decision. Defined.

Definition task_status_as_str (s : TaskStatus) : string :=
  match s with
  | TsAccepted => "accepted"
  | TsRunning => "running"
  | TsWaitingApproval => "waiting_approval"
  | TsRetryableFailed => "retryable_failed"
  | TsCompleted => "completed"
  | TsInterrupted => "interrupted"
  | TsFailed => "failed"
  | TsReconciliationRequired => "reconciliation_required"
  | TsUnknown => "unknown"
  end.

Definition is_terminal (s : TaskStatus) : bool :=
  match s with
  | TsCompleted | TsInterrupted | TsFailed => true
  | _ => false
  end.

Inductive ReportStatus := RsValid | RsMissingReport | RsInvalidJson | RsInvalidReportSchema.

#[global] Instance report_status_eq : EqDecision ReportStatus.
Proof. solve_decision. Defined.

Definition report_status_as_str (s : ReportStatus) : string :=
  match s with
  | RsValid => "valid"
  | RsMissingReport => "missing_report"
  | RsInvalidJson => "invalid_json"
  | RsInvalidReportSchema => "invalid_report_schema"
  end.

Inductive OperationPhase := PhAccepted | PhApplied | PhRetryableFailed.

#[global] Instance operation_phase_eq : EqDecision OperationPhase.
Proof. solve_decision. Defined.

Record OperationOutcome := mkOutcome {
  oo_status : TaskStatus;
  oo_revision : Z;
  oo_generation : Z;
  oo_opencode_session_id : option string;
}.

(** * Bounded texts *)

Definition ELLIPSIS : string := "…".

(** [&value[..end]], [end] the last character boundary at or before [max]. *)
Definition cut_at_boundary (value : string) (max : Z) : string :=
  String.substring 0 (boundary_before value (Z.to_nat max)) value.

Definition bound_text (value : string) (max : Z) : string :=
  if str_len value <=? max then value else cut_at_boundary value max +:+ ELLIPSIS.

Definition truncate_text (value : string) (max : Z) : string * bool :=
  if str_len value <=? max then (value, false)
  else (cut_at_boundary value (saturating_sub max (str_len ELLIPSIS)) +:+ ELLIPSIS, true).

Section TaskRecord.
Context `{UuidLib, SerdeJson}.

Record InteractionOperationResult := mkInteraction {
  ir_interaction_id : Uuid;
  ir_result : string;
  ir_applied : bool;
  ir_error : option string;
}.

Record OperationReceipt := mkReceipt {
  or_operation_id : Uuid;
  or_request_fingerprint : Uuid;
  or_action : string;
  or_phase : OperationPhase;
  or_outcome : OperationOutcome;
  or_interaction_result : option InteractionOperationResult;
}.

Record OperationTombstone := mkTombstone {
  ot_operation_id : Uuid;
  ot_request_fingerprint : Uuid;
}.

Record PrivateCheckReceipt := mkCheck {
  pc_operation_id : Uuid;
  pc_action : string;
  pc_codex_task_id : Uuid;
  pc_workspace_id : Uuid;
  pc_producer_epoch : Z;
}.

Record TaskRecord := mkTask {
  t_schema_version : Z;
  t_task_id : Uuid;
  t_owner : SessionInstance;
  t_scope_cwd : string;
  t_managed_workspace_id : option Uuid;
  t_private_codex_model : option string;
  t_private_codex_effort : option string;
  t_private_check_receipts : list PrivateCheckReceipt;
  t_model : option string;
  t_agent : option string;
  t_variant : option string;
  t_status : TaskStatus;
  t_revision : Z;
  t_generation : Z;
  t_opencode_session_id : option string;
  t_usage : option (list (string * Z));
  t_observed_model : option string;
  t_report : option Json;
  t_native_report_requested : bool;
  t_blocker : option Json;
  t_last_error : option string;
  t_report_status : option ReportStatus;
  t_raw_result : option string;
  t_raw_result_truncated : bool;
  t_pending_interaction_summary : option Summary;
  t_created_at : Z;
  t_updated_at : Z;
  t_verification : option VerificationRecord;
  t_delivery : option DeliveryRecord;
  t_operations : list OperationReceipt;
  t_operation_tombstones : list OperationTombstone;
}.

(** Assignments to the fields of a record. *)
Definition set_private_check_receipts (r : TaskRecord) (v : list PrivateCheckReceipt) : TaskRecord :=
  mkTask (t_schema_version r) (t_task_id r) (t_owner r) (t_scope_cwd r)
    (t_managed_workspace_id r) (t_private_codex_model r) (t_private_codex_effort r) v (t_model
    r) (t_agent r) (t_variant r) (t_status r) (t_revision r) (t_generation r)
    (t_opencode_session_id r) (t_usage r) (t_observed_model r) (t_report r)
    (t_native_report_requested r) (t_blocker r) (t_last_error r) (t_report_status r)
    (t_raw_result r) (t_raw_result_truncated r) (t_pending_interaction_summary r)
    (t_created_at r) (t_updated_at r) (t_verification r) (t_delivery r) (t_operations r)
    (t_operation_tombstones r).

Definition set_status (r : TaskRecord) (v : TaskStatus) : TaskRecord :=
  mkTask (t_schema_version r) (t_task_id r) (t_owner r) (t_scope_cwd r)
    (t_managed_workspace_id r) (t_private_codex_model r) (t_private_codex_effort r)
    (t_private_check_receipts r) (t_model r) (t_agent r) (t_variant r) v (t_revision r)
    (t_generation r) (t_opencode_session_id r) (t_usage r) (t_observed_model r) (t_report r)
    (t_native_report_requested r) (t_blocker r) (t_last_error r) (t_report_status r)
    (t_raw_result r) (t_raw_result_truncated r) (t_pending_interaction_summary r)
    (t_created_at r) (t_updated_at r) (t_verification r) (t_delivery r) (t_operations r)
    (t_operation_tombstones r).

Definition set_revision (r : TaskRecord) (v : Z) : TaskRecord :=
  mkTask (t_schema_version r) (t_task_id r) (t_owner r) (t_scope_cwd r)
    (t_managed_workspace_id r) (t_private_codex_model r) (t_private_codex_effort r)
    (t_private_check_receipts r) (t_model r) (t_agent r) (t_variant r) (t_status r) v
    (t_generation r) (t_opencode_session_id r) (t_usage r) (t_observed_model r) (t_report r)
    (t_native_report_requested r) (t_blocker r) (t_last_error r) (t_report_status r)
    (t_raw_result r) (t_raw_result_truncated r) (t_pending_interaction_summary r)
    (t_created_at r) (t_updated_at r) (t_verification r) (t_delivery r) (t_operations r)
    (t_operation_tombstones r).

Definition set_generation (r : TaskRecord) (v : Z) : TaskRecord :=
  mkTask (t_schema_version r) (t_task_id r) (t_owner r) (t_scope_cwd r)
    (t_managed_workspace_id r) (t_private_codex_model r) (t_private_codex_effort r)
    (t_private_check_receipts r) (t_model r) (t_agent r) (t_variant r) (t_status r)
    (t_revision r) v (t_opencode_session_id r) (t_usage r) (t_observed_model r) (t_report r)
    (t_native_report_requested r) (t_blocker r) (t_last_error r) (t_report_status r)
    (t_raw_result r) (t_raw_result_truncated r) (t_pending_interaction_summary r)
    (t_created_at r) (t_updated_at r) (t_verification r) (t_delivery r) (t_operations r)
    (t_operation_tombstones r).

Definition set_opencode_session_id (r : TaskRecord) (v : option string) : TaskRecord :=
  mkTask (t_schema_version r) (t_task_id r) (t_owner r) (t_scope_cwd r)
    (t_managed_workspace_id r) (t_private_codex_model r) (t_private_codex_effort r)
    (t_private_check_receipts r) (t_model r) (t_agent r) (t_variant r) (t_status r)
    (t_revision r) (t_generation r) v (t_usage r) (t_observed_model r) (t_report r)
    (t_native_report_requested r) (t_blocker r) (t_last_error r) (t_report_status r)
    (t_raw_result r) (t_raw_result_truncated r) (t_pending_interaction_summary r)
    (t_created_at r) (t_updated_at r) (t_verification r) (t_delivery r) (t_operations r)
    (t_operation_tombstones r).

Definition set_usage (r : TaskRecord) (v : option (list (string * Z))) : TaskRecord :=
  mkTask (t_schema_version r) (t_task_id r) (t_owner r) (t_scope_cwd r)
    (t_managed_workspace_id r) (t_private_codex_model r) (t_private_codex_effort r)
    (t_private_check_receipts r) (t_model r) (t_agent r) (t_variant r) (t_status r)
    (t_revision r) (t_generation r) (t_opencode_session_id r) v (t_observed_model r) (t_report
    r) (t_native_report_requested r) (t_blocker r) (t_last_error r) (t_report_status r)
    (t_raw_result r) (t_raw_result_truncated r) (t_pending_interaction_summary r)
    (t_created_at r) (t_updated_at r) (t_verification r) (t_delivery r) (t_operations r)
    (t_operation_tombstones r).

Definition set_observed_model (r : TaskRecord) (v : option string) : TaskRecord :=
  mkTask (t_schema_version r) (t_task_id r) (t_owner r) (t_scope_cwd r)
    (t_managed_workspace_id r) (t_private_codex_model r) (t_private_codex_effort r)
    (t_private_check_receipts r) (t_model r) (t_agent r) (t_variant r) (t_status r)
    (t_revision r) (t_generation r) (t_opencode_session_id r) (t_usage r) v (t_report r)
    (t_native_report_requested r) (t_blocker r) (t_last_error r) (t_report_status r)
    (t_raw_result r) (t_raw_result_truncated r) (t_pending_interaction_summary r)
    (t_created_at r) (t_updated_at r) (t_verification r) (t_delivery r) (t_operations r)
    (t_operation_tombstones r).

Definition set_report (r : TaskRecord) (v : option Json) : TaskRecord :=
  mkTask (t_schema_version r) (t_task_id r) (t_owner r) (t_scope_cwd r)
    (t_managed_workspace_id r) (t_private_codex_model r) (t_private_codex_effort r)
    (t_private_check_receipts r) (t_model r) (t_agent r) (t_variant r) (t_status r)
    (t_revision r) (t_generation r) (t_opencode_session_id r) (t_usage r) (t_observed_model r)
    v (t_native_report_requested r) (t_blocker r) (t_last_error r) (t_report_status r)
    (t_raw_result r) (t_raw_result_truncated r) (t_pending_interaction_summary r)
    (t_created_at r) (t_updated_at r) (t_verification r) (t_delivery r) (t_operations r)
    (t_operation_tombstones r).

Definition set_native_report_requested (r : TaskRecord) (v : bool) : TaskRecord :=
  mkTask (t_schema_version r) (t_task_id r) (t_owner r) (t_scope_cwd r)
    (t_managed_workspace_id r) (t_private_codex_model r) (t_private_codex_effort r)
    (t_private_check_receipts r) (t_model r) (t_agent r) (t_variant r) (t_status r)
    (t_revision r) (t_generation r) (t_opencode_session_id r) (t_usage r) (t_observed_model r)
    (t_report r) v (t_blocker r) (t_last_error r) (t_report_status r) (t_raw_result r)
    (t_raw_result_truncated r) (t_pending_interaction_summary r) (t_created_at r)
    (t_updated_at r) (t_verification r) (t_delivery r) (t_operations r)
    (t_operation_tombstones r).

Definition set_last_error (r : TaskRecord) (v : option string) : TaskRecord :=
  mkTask (t_schema_version r) (t_task_id r) (t_owner r) (t_scope_cwd r)
    (t_managed_workspace_id r) (t_private_codex_model r) (t_private_codex_effort r)
    (t_private_check_receipts r) (t_model r) (t_agent r) (t_variant r) (t_status r)
    (t_revision r) (t_generation r) (t_opencode_session_id r) (t_usage r) (t_observed_model r)
    (t_report r) (t_native_report_requested r) (t_blocker r) v (t_report_status r)
    (t_raw_result r) (t_raw_result_truncated r) (t_pending_interaction_summary r)
    (t_created_at r) (t_updated_at r) (t_verification r) (t_delivery r) (t_operations r)
    (t_operation_tombstones r).

Definition set_report_status (r : TaskRecord) (v : option ReportStatus) : TaskRecord :=
  mkTask (t_schema_version r) (t_task_id r) (t_owner r) (t_scope_cwd r)
    (t_managed_workspace_id r) (t_private_codex_model r) (t_private_codex_effort r)
    (t_private_check_receipts r) (t_model r) (t_agent r) (t_variant r) (t_status r)
    (t_revision r) (t_generation r) (t_opencode_session_id r) (t_usage r) (t_observed_model r)
    (t_report r) (t_native_report_requested r) (t_blocker r) (t_last_error r) v (t_raw_result
    r) (t_raw_result_truncated r) (t_pending_interaction_summary r) (t_created_at r)
    (t_updated_at r) (t_verification r) (t_delivery r) (t_operations r)
    (t_operation_tombstones r).

Definition set_raw_result (r : TaskRecord) (v : option string) : TaskRecord :=
  mkTask (t_schema_version r) (t_task_id r) (t_owner r) (t_scope_cwd r)
    (t_managed_workspace_id r) (t_private_codex_model r) (t_private_codex_effort r)
    (t_private_check_receipts r) (t_model r) (t_agent r) (t_variant r) (t_status r)
    (t_revision r) (t_generation r) (t_opencode_session_id r) (t_usage r) (t_observed_model r)
    (t_report r) (t_native_report_requested r) (t_blocker r) (t_last_error r) (t_report_status
    r) v (t_raw_result_truncated r) (t_pending_interaction_summary r) (t_created_at r)
    (t_updated_at r) (t_verification r) (t_delivery r) (t_operations r)
    (t_operation_tombstones r).

Definition set_raw_result_truncated (r : TaskRecord) (v : bool) : TaskRecord :=
  mkTask (t_schema_version r) (t_task_id r) (t_owner r) (t_scope_cwd r)
    (t_managed_workspace_id r) (t_private_codex_model r) (t_private_codex_effort r)
    (t_private_check_receipts r) (t_model r) (t_agent r) (t_variant r) (t_status r)
    (t_revision r) (t_generation r) (t_opencode_session_id r) (t_usage r) (t_observed_model r)
    (t_report r) (t_native_report_requested r) (t_blocker r) (t_last_error r) (t_report_status
    r) (t_raw_result r) v (t_pending_interaction_summary r) (t_created_at r) (t_updated_at r)
    (t_verification r) (t_delivery r) (t_operations r) (t_operation_tombstones r).

Definition set_pending_interaction_summary (r : TaskRecord) (v : option Summary) : TaskRecord :=
  mkTask (t_schema_version r) (t_task_id r) (t_owner r) (t_scope_cwd r)
    (t_managed_workspace_id r) (t_private_codex_model r) (t_private_codex_effort r)
    (t_private_check_receipts r) (t_model r) (t_agent r) (t_variant r) (t_status r)
    (t_revision r) (t_generation r) (t_opencode_session_id r) (t_usage r) (t_observed_model r)
    (t_report r) (t_native_report_requested r) (t_blocker r) (t_last_error r) (t_report_status
    r) (t_raw_result r) (t_raw_result_truncated r) v (t_created_at r) (t_updated_at r)
    (t_verification r) (t_delivery r) (t_operations r) (t_operation_tombstones r).

Definition set_updated_at (r : TaskRecord) (v : Z) : TaskRecord :=
  mkTask (t_schema_version r) (t_task_id r) (t_owner r) (t_scope_cwd r)
    (t_managed_workspace_id r) (t_private_codex_model r) (t_private_codex_effort r)
    (t_private_check_receipts r) (t_model r) (t_agent r) (t_variant r) (t_status r)
    (t_revision r) (t_generation r) (t_opencode_session_id r) (t_usage r) (t_observed_model r)
    (t_report r) (t_native_report_requested r) (t_blocker r) (t_last_error r) (t_report_status
    r) (t_raw_result r) (t_raw_result_truncated r) (t_pending_interaction_summary r)
    (t_created_at r) v (t_verification r) (t_delivery r) (t_operations r)
    (t_operation_tombstones r).

Definition set_operations (r : TaskRecord) (v : list OperationReceipt) : TaskRecord :=
  mkTask (t_schema_version r) (t_task_id r) (t_owner r) (t_scope_cwd r)
    (t_managed_workspace_id r) (t_private_codex_model r) (t_private_codex_effort r)
    (t_private_check_receipts r) (t_model r) (t_agent r) (t_variant r) (t_status r)
    (t_revision r) (t_generation r) (t_opencode_session_id r) (t_usage r) (t_observed_model r)
    (t_report r) (t_native_report_requested r) (t_blocker r) (t_last_error r) (t_report_status
    r) (t_raw_result r) (t_raw_result_truncated r) (t_pending_interaction_summary r)
    (t_created_at r) (t_updated_at r) (t_verification r) (t_delivery r) v
    (t_operation_tombstones r).

Definition set_operation_tombstones (r : TaskRecord) (v : list OperationTombstone) : TaskRecord :=
  mkTask (t_schema_version r) (t_task_id r) (t_owner r) (t_scope_cwd r)
    (t_managed_workspace_id r) (t_private_codex_model r) (t_private_codex_effort r)
    (t_private_check_receipts r) (t_model r) (t_agent r) (t_variant r) (t_status r)
    (t_revision r) (t_generation r) (t_opencode_session_id r) (t_usage r) (t_observed_model r)
    (t_report r) (t_native_report_requested r) (t_blocker r) (t_last_error r) (t_report_status
    r) (t_raw_result r) (t_raw_result_truncated r) (t_pending_interaction_summary r)
    (t_created_at r) (t_updated_at r) (t_verification r) (t_delivery r) (t_operations r) v.


Definition outcome (r : TaskRecord) : OperationOutcome :=
  mkOutcome (t_status r) (t_revision r) (t_generation r) (t_opencode_session_id r).

(** [record.revision = record.revision.saturating_add(1)]. *)
Definition bump (r : TaskRecord) : TaskRecord :=
  set_revision r (saturating_add (t_revision r) 1).

(** [iter_mut().find(p)] and an assignment to what it finds. *)
Fixpoint update_first {A : Type} (p : A -> bool) (f : A -> A) (l : list A) : list A :=
  match l with
  | [] => []
  | a :: rest => if p a then f a :: rest else a :: update_first p f rest
  end.

Definition has_operation (operation_id : Uuid) (receipt : OperationReceipt) : bool :=
  bool_decide (or_operation_id receipt = operation_id).

Definition find_receipt (r : TaskRecord) (operation_id : Uuid) : option OperationReceipt :=
  List.find (has_operation operation_id) (t_operations r).

Definition find_tombstone (r : TaskRecord) (operation_id : Uuid) : option OperationTombstone :=
  List.find (fun t => bool_decide (ot_operation_id t = operation_id)) (t_operation_tombstones r).

Definition set_phase (phase : OperationPhase) (o : OperationOutcome) (receipt : OperationReceipt) :
    OperationReceipt :=
  mkReceipt (or_operation_id receipt) (or_request_fingerprint receipt) (or_action receipt)
    phase o (or_interaction_result receipt).

Definition update_operation_receipt (r : TaskRecord) (operation_id : Uuid)
    (phase : OperationPhase) : TaskRecord :=
  set_operations r
    (update_first (has_operation operation_id) (set_phase phase (outcome r)) (t_operations r)).

(** * Validity *)

Definition validate_argument (value label : string) : result TaskError unit :=
  ensure (negb (str_is_empty value) && (str_len value <=? MAX_ARGUMENT_BYTES)
          && negb (str_contains 0 value))
    (Other (label +:+ " must contain 1..=256 NUL-free UTF-8 bytes")).

Definition validate_opt {A : Type} (o : option A) (f : A -> result TaskError unit) :
    result TaskError unit :=
  match o with
  | Some a => f a
  | None => Ok tt
  end.

(** The tombstones after the set of the receipts' ids ([BTreeSet::insert]). *)
Fixpoint tombstones_distinct (seen : list Uuid) (l : list OperationTombstone) : bool :=
  match l with
  | [] => true
  | t :: rest =>
      negb (bool_decide (ot_operation_id t ∈ seen))
      && tombstones_distinct (ot_operation_id t :: seen) rest
  end.

Context (canonical_directory : string -> result TaskError string).

Definition validate_record (r : TaskRecord) : result TaskError unit :=
  ensure (t_schema_version r =? TASK_SCHEMA_VERSION)
    (Other "unsupported OpenCode task schema version") ;!
  map_err Other (Upgrade.validate_session_id (si_id (t_owner r))) ;!
  let! canonical := canonical_directory (t_scope_cwd r) in
  ensure (String.eqb canonical (t_scope_cwd r)) (Other "OpenCode task scope is not canonical") ;!
  validate_opt (t_model r) (fun model => validate_argument model "model") ;!
  validate_opt (t_agent r) (fun agent => validate_argument agent "agent") ;!
  validate_opt (t_variant r) (fun variant => validate_argument variant "variant") ;!
  validate_opt (t_last_error r) (fun error =>
    ensure (str_len error <=? MAX_ERROR_BYTES)
      (Other "OpenCode task error field exceeds 1024 bytes")) ;!
  validate_opt (t_report r) (fun report =>
    ensure (json_size report <=? MAX_REPORT_BYTES)
      (Other "OpenCode task report exceeds 8192 bytes")) ;!
  validate_opt (t_raw_result r) (fun raw_result =>
    ensure (str_len raw_result <=? MAX_RAW_RESULT_BYTES)
      (Other "OpenCode task raw result exceeds 16384 bytes")) ;!
  validate_opt (t_pending_interaction_summary r) (fun summary =>
    map_err Other (PendingInteraction.validate summary)) ;!
  validate_opt (t_verification r) (fun v => map_err Other (verification_validate v)) ;!
  validate_opt (t_delivery r) (fun d => map_err Other (delivery_validate d)) ;!
  ensure (0 <? t_revision r) (Other "OpenCode task revision must be positive") ;!
  ensure (zlen (t_operations r) <=? MAX_OPERATION_HISTORY)
    (Other "OpenCode task operation history exceeds limit") ;!
  ensure (tombstones_distinct (map or_operation_id (t_operations r)) (t_operation_tombstones r))
    (Other "OpenCode task operation history contains a duplicate operation_id") ;!
  validate_opt (t_usage r) (fun usage =>
    ensure ((zlen usage <=? 16) && forallb (fun kv => kv.2 <=? U64_MAX / 2) usage)
      (Other "OpenCode task usage has unsupported fields")).

Definition ensure_task_owner (r : TaskRecord) (session : Session) : result TaskError unit :=
  let! scope := canonical_directory (se_cwd session) in
  ensure (matches (t_owner r) session && String.eqb (t_scope_cwd r) scope)
    (Other "OPENCODE_TASK_NOT_FOUND: task was not found").

(** * Views *)

Definition uuid_json (u : Uuid) : Json := JStr (uuid_to_string u).

Definition interaction_result_json (i : InteractionOperationResult) : Json :=
  JObj ([("interaction_id", uuid_json (ir_interaction_id i)); ("result", JStr (ir_result i));
         ("applied", JBool (ir_applied i))]
        ++ match ir_error i with
           | Some e => [("error", JStr e)]
           | None => []
           end).

Definition is_reconciliation_required (s : TaskStatus) : bool :=
  bool_decide (s = TsReconciliationRequired).

Definition operation_fields (task_id : Uuid) (o : OperationOutcome) : list (string * Json) :=
  [("task_id", uuid_json task_id);
   ("status", JStr (task_status_as_str (oo_status o)));
   ("revision", JInt (oo_revision o));
   ("generation", JInt (oo_generation o));
   ("opencode_session_id", ser_option JStr (oo_opencode_session_id o));
   ("reconciliation_required", JBool (is_reconciliation_required (oo_status o)))].

Definition operation_view (task_id : Uuid) (o : OperationOutcome) : Json :=
  JObj (operation_fields task_id o).

Definition operation_receipt_view (task_id : Uuid) (receipt : OperationReceipt) : Json :=
  JObj (operation_fields task_id (or_outcome receipt)
        ++ match or_interaction_result receipt with
           | Some i => [("interaction"%string, interaction_result_json i)]
           | None => []
           end).

Definition usage_json (usage : list (string * Z)) : Json :=
  JObj (map (fun kv => (kv.1, JInt kv.2)) usage).

Context (as_bytes : Uuid -> list Z) (from_bytes : list Z -> Uuid)
  (new_v5 : Uuid -> list Z -> Uuid).

Definition report_source (r : TaskRecord) (_ : ReportStatus) : Json :=
  JStr (if t_native_report_requested r then "native_structured_output"
        else "final_message_compat").

Definition task_view_fields (r : TaskRecord) (evidence_ref : option Json) :
    list (string * Json) :=
  [("task_id", uuid_json (t_task_id r));
   ("status", JStr (task_status_as_str (t_status r)));
   ("revision", JInt (t_revision r));
   ("generation", JInt (t_generation r));
   ("execution", execution_view as_bytes from_bytes new_v5 (t_task_id r) (t_generation r)
                   (task_status_as_str (t_status r)));
   ("verification", verification_view (t_verification r) (t_revision r));
   ("delivery", delivery_view (t_delivery r));
   ("model", ser_option JStr (t_model r));
   ("agent", ser_option JStr (t_agent r));
   ("variant", ser_option JStr (t_variant r));
   ("opencode_session_id", ser_option JStr (t_opencode_session_id r));
   ("usage", ser_option usage_json (t_usage r));
   ("observed_model", ser_option JStr (t_observed_model r));
   ("report", ser_option id (t_report r));
   ("blocker", ser_option id (t_blocker r));
   ("report_status", ser_option (fun s => JStr (report_status_as_str s)) (t_report_status r));
   ("report_source", ser_option (report_source r) (t_report_status r));
   ("report_capability", JStr (if t_native_report_requested r then "v2_native_format"
                               else "v1_final_message_compat"));
   ("raw_result_bytes", ser_option (fun s => JInt (str_len s)) (t_raw_result r));
   ("raw_result_truncated", JBool (t_raw_result_truncated r));
   ("last_error", ser_option JStr (t_last_error r));
   ("reconciliation_required", JBool (is_reconciliation_required (t_status r)));
   ("evidence", ser_option id evidence_ref);
   ("retention_seconds", JInt TASK_RETENTION_SECONDS)].

Definition task_view (r : TaskRecord) (evidence_ref : option Json) : Json :=
  JObj (task_view_fields r evidence_ref).

Definition is_at_revision (r : TaskRecord) (after_revision : option Z) : bool :=
  is_some_and (fun revision => revision =? t_revision r) after_revision.

Definition task_view_at_revision (r : TaskRecord) (after_revision : option Z) : Json :=
  if is_at_revision r after_revision then
    JObj [("task_id", uuid_json (t_task_id r)); ("status", JStr "not_modified");
          ("revision", JInt (t_revision r)); ("last_updated_at", JInt (t_updated_at r));
          ("reconciliation_deferred", JBool true)]
  else
    JObj (task_view_fields r None
          ++ [("last_updated_at", JInt (t_updated_at r));
              ("reconciliation_deferred", JBool true)]).

(** * Replay *)

Definition operation_conflict : TaskError :=
  Other "OPERATION_CONFLICT: operation_id was already accepted with a different request".
Definition operation_compacted : TaskError :=
  Other "OPERATION_REPLAY_COMPACTED: operation_id was accepted during task retention, but its detailed receipt was compacted; refusing to reapply the mutation".

(** The answer to an operation that is already in the record: its outcome, and
    that it must be reconciled while it is not known to have been applied. *)
Definition replay_receipt (task_id : Uuid) (receipt : OperationReceipt) : Json :=
  if bool_decide (or_phase receipt = PhAccepted) then
    let o := or_outcome receipt in
    operation_view task_id
      (mkOutcome TsReconciliationRequired (oo_revision o) (oo_generation o)
         (oo_opencode_session_id o))
  else operation_receipt_view task_id receipt.

Definition replay_operation (r : TaskRecord) (operation_id fingerprint : Uuid) :
    result TaskError Json :=
  match find_receipt r operation_id with
  | None =>
      match find_tombstone r operation_id with
      | Some tombstone =>
          ensure (bool_decide (ot_request_fingerprint tombstone = fingerprint)) operation_conflict ;!
          Err operation_compacted
      | None =>
          Err (Other "OPERATION_CONFLICT: task exists without the requested operation receipt")
      end
  | Some receipt =>
      ensure (bool_decide (or_request_fingerprint receipt = fingerprint)) operation_conflict ;!
      Ok (replay_receipt (t_task_id r) receipt)
  end.

End TaskRecord.


(** * The durable form

    serde_json over the derived [Serialize] and [Deserialize]: the compact form,
    which only decides whether a record changed, and the pretty form, which is
    the content of the task's file. *)
Class TaskCodec `{UuidLib} := {
  task_to_vec : TaskRecord -> string;
  task_to_vec_pretty : TaskRecord -> string;
  task_from_slice : string -> option TaskRecord;
}.

(** What was written reads back as the same record. *)
Class TaskCodecLaws `{TaskCodec} := {
  task_round_trip : forall r, task_from_slice (task_to_vec_pretty r) = Some r;
  task_to_vec_inj : forall r r', task_to_vec r = task_to_vec r' -> r = r';
}.
