(* ===== verification/Derive.v ===== *)
(** * From the answers of an OpenCode server to the state of a task

    The reconciliation part of opencode_server.rs: what the lists of a server
    say about a task ([derive_serve_state]), the report in the text of a reply
    ([extract_report]), and the change they make to a record
    ([apply_derived_edit]) with the loop that fits the raw reply into the record.
    The characters the text scanner looks for are ASCII, so it reads bytes. *)

From S2P Require Import Prelude Strings Json Value Outcome Lifecycle ReportContract TaskRecord.

#[local] Open Scope Z_scope.
#[local] Open Scope rust_scope.

Definition PROMPT_ADMISSION_GRACE_SECONDS : Z := 30.

Definition interaction_session_id (v : Json) : option string :=
  get_any v ["sessionID"; "session_id"; "sessionId"] ≫= as_str.

Definition interaction_request_id (v : Json) : option string :=
  get_any v ["id"; "requestID"; "request_id"] ≫= as_str.

Definition value_session_id (v : Json) : option string :=
  get_any v ["id"; "sessionID"; "session_id"; "sessionId"] ≫= as_str.

Definition session_parent_id (v : Json) : option string :=
  get_any v ["parentID"; "parent_id"; "parentId"] ≫= as_str.

(** * Messages *)

(** [message.get("info").unwrap_or(message)]. *)
Definition message_info (message : Json) : Json := default message (get message "info").

Definition message_is_assistant (message : Json) : bool :=
  bool_decide (get_any (message_info message) ["role"; "type"] ≫= as_str = Some "assistant"%string)
  || bool_decide (get_any message ["role"; "type"] ≫= as_str = Some "assistant"%string).

Definition message_completed (message : Json) : bool :=
  is_some_and (fun v => is_number v && (0 <? default 0 (as_u64 v)))
    (time ← get (message_info message) "time"; get time "completed").

Definition extract_usage (info : Json) : option (list (string * Z)) :=
  tokens ← get_any info ["tokens"; "usage"];
  object ← as_object tokens;
  let usage := take 16 (omap (fun kv => value ← as_u64 kv.2; Some (kv.1, value)) object) in
  if bool_decide (usage = []) then None else Some usage.

Definition text_part (part : Json) : option string :=
  if bool_decide (get part "type" ≫= as_str = Some "text"%string)
     && negb (bool_decide (get part "synthetic" ≫= as_bool = Some true))
  then get part "text" ≫= as_str else None.

Fixpoint message_text_from (text : string) (parts : list Json) : string :=
  match parts with
  | [] => text
  | part :: rest =>
      message_text_from
        (match text_part part with
         | Some chunk => if str_len text <? MAX_REPORT_BYTES * 4 then text +:+ chunk else text
         | None => text
         end) rest
  end.

Definition message_text (message : Json) : string :=
  message_text_from "" (default [] (get_any message ["parts"; "content"] ≫= as_array)).

Definition observed_model_from (message : Json) : option string :=
  let info := message_info message in
  let model_ref := get info "model" in
  let provider := or_else (get_any info ["providerID"; "provider_id"])
                    (m ← model_ref; get m "providerID") ≫= as_str in
  let model := or_else (or_else (get_any info ["modelID"; "model_id"])
                          (m ← model_ref; get m "id")) model_ref ≫= as_str in
  match provider, model with
  | Some provider, Some model => Some (provider +:+ "/" +:+ model)
  | None, Some model => Some model
  | _, _ => None
  end.

Section Derive.
Context `{SerdeJson}.

(** [Value]'s [Display] is the compact form. *)
Definition json_display (v : Json) : string := default ""%string (to_vec v).

Definition message_error (message : Json) : option string :=
  error ← get (message_info message) "error";
  let rendered :=
    match error with
    | JStr text => text
    | JObj _ => default (json_display error) (get_any error ["message"; "name"] ≫= as_str)
    | _ => json_display error
    end in
  Some (bound_text rendered MAX_ERROR_BYTES).

(** * The report in a text *)

Definition backslash : ascii := "092".
Definition quote : ascii := "034".
Definition open_brace : ascii := "123".
Definition close_brace : ascii := "125".

(** The number of bytes up to the brace that closes the first one. *)
Fixpoint balanced_length (s : string) (depth : Z) (in_string escaped : bool) : option nat :=
  match s with
  | EmptyString => None
  | String c rest =>
      if in_string then
        if escaped then S <$> balanced_length rest depth true false
        else if Ascii.eqb c backslash then S <$> balanced_length rest depth true true
        else if Ascii.eqb c quote then S <$> balanced_length rest depth false false
        else S <$> balanced_length rest depth true false
      else if Ascii.eqb c quote then S <$> balanced_length rest depth true escaped
      else if Ascii.eqb c open_brace then S <$> balanced_length rest (depth + 1) false escaped
      else if Ascii.eqb c close_brace then
        let depth := saturating_sub depth 1 in
        if depth =? 0 then Some 1%nat else S <$> balanced_length rest depth false escaped
      else S <$> balanced_length rest depth false escaped
  end.

Definition parse_balanced_json (text : string) : option Json :=
  n ← balanced_length text 0 false false;
  from_slice (String.substring 0 n text).

Definition report_shape_valid (report : Json) : bool := report_validate report TaskReport.

(** The loop over [match_indices('{')]. *)
Fixpoint scan_reports (text : string) (best : option Json) (parsed_object : bool) :
    option Json * bool :=
  match text with
  | EmptyString => (best, parsed_object)
  | String c rest =>
      if Ascii.eqb c open_brace then
        match parse_balanced_json text with
        | Some value =>
            scan_reports rest (if report_shape_valid value then Some value else best) true
        | None => scan_reports rest best parsed_object
        end
      else scan_reports rest best parsed_object
  end.

Definition extract_report (text : string) : option Json * ReportStatus * option string :=
  let '(best, parsed_object) := scan_reports text None false in
  match best with
  | Some report => (Some report, RsValid, None)
  | None =>
      if trim_is_empty text then
        (None, RsMissingReport, Some "assistant reply was empty"%string)
      else if parsed_object then
        (None, RsInvalidReportSchema,
         Some "assistant reply contained a JSON object that did not satisfy the report schema"%string)
      else
        (None, RsInvalidJson,
         Some "assistant reply did not contain a valid report JSON object"%string)
  end.

Definition native_report (assistant : Json) : option Json * ReportStatus * option string :=
  let info := message_info assistant in
  let nested := result ← get info "result"; get_any result ["structured_output"; "structured"] in
  match or_else (get_any info ["structured_output"; "structured"]) nested with
  | None => (None, RsMissingReport, Some "native structured report is missing"%string)
  | Some value =>
      if validate_native_wire value then (Some value, RsValid, None)
      else (None, RsInvalidReportSchema, Some "native structured report failed validation"%string)
  end.

(** * The state the server shows *)

Record DerivedServeState := mkDerived {
  ds_status : TaskStatus;
  ds_usage : option (list (string * Z));
  ds_observed_model : option string;
  ds_report : option Json;
  ds_report_status : option ReportStatus;
  ds_raw_result : option string;
  ds_raw_result_truncated : bool;
  ds_last_error : option string;
}.

Definition session_pending (session_ids : gset string) (items : list Json) : bool :=
  existsb (fun item => is_some_and (fun id => bool_decide (id ∈ session_ids))
                         (interaction_session_id item)) items.

Definition session_busy (status : Json) (session_id : string) : bool :=
  is_some_and (fun kind => String.eqb kind "busy" || String.eqb kind "retry")
    (entry ← get status session_id; kind ← get entry "type"; as_str kind).

(** A state without a result. *)
Definition derived_plain (status : TaskStatus) (usage : option (list (string * Z)))
    (observed_model : option string) (last_error : option string) : DerivedServeState :=
  mkDerived status usage observed_model None None None false last_error.

Context `{UuidLib}.

Definition derive_serve_state (record : TaskRecord) (session_id : string)
    (session_ids : gset string) (status : Json) (messages permissions questions : list Json)
    (now : Z) : DerivedServeState :=
  if session_pending session_ids permissions || session_pending session_ids questions then
    derived_plain TsWaitingApproval None None
      (Some "opencode permission/question request is pending"%string)
  else
    let assistant := List.find message_is_assistant (rev messages) in
    let usage := message ← assistant; extract_usage (message_info message) in
    let observed_model := message ← assistant; observed_model_from message in
    if session_busy status session_id then derived_plain TsRunning usage observed_model None
    else match assistant with
    | None =>
        if saturating_sub now (t_updated_at record) <? PROMPT_ADMISSION_GRACE_SECONDS
        then derived_plain TsRunning usage observed_model None
        else derived_plain TsRetryableFailed usage observed_model
               (Some "opencode turn ended without an assistant reply"%string)
    | Some assistant =>
        match message_error assistant with
        | Some error => derived_plain TsRetryableFailed usage observed_model (Some error)
        | None =>
            if negb (message_completed assistant) then
              derived_plain TsRetryableFailed usage observed_model
                (Some "opencode turn ended without completion"%string)
            else
              let text := message_text assistant in
              let '(raw_result, truncated) := truncate_text text MAX_RAW_RESULT_BYTES in
              let '(report, report_status, report_error) :=
                if t_native_report_requested record then native_report assistant
                else extract_report text in
              mkDerived TsCompleted usage observed_model report (Some report_status)
                (Some raw_result) truncated report_error
        end
    end.

(** * Writing it to the record *)

Context `{!TaskCodec}.

(** [fit_raw_result_to_record_limit]; [None] when [fuel] rounds do not end it. *)
Fixpoint fit_raw_result_to_record_limit (fuel : nat) (r : TaskRecord) :
    option (result TaskError TaskRecord) :=
  match t_raw_result r with
  | None => Some (Ok r)
  | Some raw =>
      let size := str_len (task_to_vec_pretty r) in
      if size <=? MAX_TASK_RECORD_BYTES then Some (Ok r)
      else if str_is_empty raw then
        Some (Err (Other "terminal task metadata exceeds 65536 bytes even without raw result"))
      else match fuel with
      | O => None
      | S fuel =>
          let remaining := saturating_sub (str_len raw) (size - MAX_TASK_RECORD_BYTES) in
          let '(bounded, _) := truncate_text raw (Z.min remaining (str_len raw - 1)) in
          fit_raw_result_to_record_limit fuel
            (set_raw_result_truncated (set_raw_result r (Some bounded)) true)
      end
  end.

Definition assign_some {A : Type} (new old : option A) : option A :=
  match new with
  | Some _ => new
  | None => old
  end.

Definition apply_derived_fields (r : TaskRecord) (d : DerivedServeState) : TaskRecord :=
  let r := set_status r (ds_status d) in
  let r := set_usage r (assign_some (ds_usage d) (t_usage r)) in
  let r := set_observed_model r (assign_some (ds_observed_model d) (t_observed_model r)) in
  let r := set_report r (assign_some (ds_report d) (t_report r)) in
  let r := set_report_status r (assign_some (ds_report_status d) (t_report_status r)) in
  let r := if is_some (ds_raw_result d)
           then set_raw_result_truncated (set_raw_result r (ds_raw_result d))
                  (ds_raw_result_truncated d)
           else r in
  set_last_error r (assign_some (ds_last_error d) (t_last_error r)).

Definition derived_changed (r previous : TaskRecord) : bool :=
  negb (bool_decide (t_status r = t_status previous)
        && bool_decide (t_usage r = t_usage previous)
        && bool_decide (t_observed_model r = t_observed_model previous)
        && bool_decide (t_report r = t_report previous)
        && bool_decide (t_report_status r = t_report_status previous)
        && bool_decide (t_raw_result r = t_raw_result previous)
        && Bool.eqb (t_raw_result_truncated r) (t_raw_result_truncated previous)
        && bool_decide (t_last_error r = t_last_error previous)).

Definition is_start_accepted (receipt : OperationReceipt) : bool :=
  String.eqb (or_action receipt) "start" && bool_decide (or_phase receipt = PhAccepted).

(** The closure of [apply_derived]. *)
Definition apply_derived_edit (fuel : nat) (d : DerivedServeState) (r : TaskRecord) :
    option (result TaskError TaskRecord) :=
  if is_terminal (t_status r) then Some (Ok r)
  else
    let previous := r in
    let r := apply_derived_fields r d in
    let r := if derived_changed r previous then bump r else r in
    let r := if is_terminal (ds_status d)
             then set_operations r (update_first is_start_accepted
                                      (set_phase PhApplied (outcome r)) (t_operations r))
             else r in
    fit_raw_result_to_record_limit fuel r.

End Derive.
