(* ===== verification/Tasks.v ===== *)
(** * The OpenCode task store

    [TaskStore] of opencode_server.rs and the operations that run on it.  A store
    is the directory: its files by name with their bytes, and the runtime
    leases ([flock]s on the lock files beside it) that some process holds.
    Every operation holds the store's lock from its first read to its last
    write, so an operation is one step.

    The environment decides the clock (read for the record's time and again for
    the retention of others: [now], [now']), the order in which a directory is
    listed, which directories exist and what they resolve to, and whether a lock
    file, a write or a removal fails; a failed write changes nothing (the file
    is renamed into place).  The registry of session instances and the table of
    runtimes are those of [Lifecycle]. *)

From S2P Require Import Prelude Strings Json Value Outcome PendingInteraction Lifecycle.
From S2P Require Import ReportContract TaskRecord Derive.

#[local] Open Scope Z_scope.
#[local] Open Scope rust_scope.

Definition MAX_TASK_DIRECTORY_ENTRIES : Z := 4096.
Definition MAX_TASKS_PER_SCOPE : Z := 128.

Record Store := mkStore {
  s_files : gmap string string;
  s_leases : gset string;
}.

Definition set_files (s : Store) (files : gmap string string) : Store := mkStore files (s_leases s).
Definition set_leases (s : Store) (leases : gset string) : Store := mkStore (s_files s) leases.

(** What removing an expired task does: everything, nothing, or the record but
    not its lock or its state. *)
Inductive RemoveOutcome := RemoveDone | RemoveFailed | RemoveHalf.

Section Store.
Context `{UuidLib, SerdeJson, !TaskCodec}.
Context (canonical_directory : string -> result TaskError string)
  (read_dir : gmap string string -> list string)
  (lock_error write_error : Uuid -> option string)
  (remove_outcome : string -> RemoveOutcome).

Implicit Types (s : Store) (r : TaskRecord) (id : Uuid).

Definition path id : string := uuid_to_string id +:+ ".json".

(** The id of a file of a task: its name is a uuid and [.json]. *)
Definition task_file (name : string) : option Uuid :=
  stem ← str_strip_suffix ".json" name; uuid_parse_str stem.

(** * Reading *)

Definition read_record s id : result TaskError TaskRecord :=
  let! bytes := ok_or (s_files s !! path id) (NotFound "No such file or directory") in
  ensure (str_len bytes <=? MAX_TASK_RECORD_BYTES)
    (Other "OpenCode task record exceeds 65536 bytes") ;!
  let! r := ok_or (task_from_slice bytes) (Other "invalid OpenCode task record") in
  validate_record canonical_directory r ;!
  ensure (bool_decide (t_task_id r = id)) (Other "OpenCode task record ID mismatch") ;!
  Ok r.

Definition load_locked s (session : Session) id : result TaskError TaskRecord :=
  let! r := map_err (fun e => if is_not_found e
                              then Other "OPENCODE_TASK_NOT_FOUND: task was not found"
                              else e) (read_record s id) in
  ensure_task_owner canonical_directory r session ;!
  Ok r.

(** * Leases *)

Definition try_acquire_runtime_lease_locked s id : Store * result TaskError bool :=
  match lock_error id with
  | Some e => (s, Err (Other e))
  | None =>
      if bool_decide (uuid_to_string id ∈ s_leases s) then (s, Ok false)
      else (set_leases s ({[uuid_to_string id]} ∪ s_leases s), Ok true)
  end.

Definition runtime_lease_held_locked s id : result TaskError bool :=
  match lock_error id with
  | Some e => Err (Other e)
  | None => Ok (bool_decide (uuid_to_string id ∈ s_leases s))
  end.

(** Dropping a [TaskRuntimeLease]. *)
Definition release_lease s id : Store := set_leases s (s_leases s ∖ {[uuid_to_string id]}).

(** The lease, or the error when it can not be taken. *)
Definition acquire_lease s id : Store * result TaskError unit :=
  match try_acquire_runtime_lease_locked s id with
  | (s, Err e) => (s, Err e)
  | (s, Ok true) => (s, Ok tt)
  | (s, Ok false) =>
      (s, Err (Other "OPENCODE_TASK_RUNTIME_OWNED: task runtime belongs to another Temote process"))
  end.

(** * Runtimes of this process *)

Section Runtimes.
Context (runtimes : Uuid -> option RuntimeHandle).

Definition runtime_matches_record r : bool :=
  is_some_and (fun rt => bool_decide (rt_owner rt = t_owner r)
                         && String.eqb (rt_scope rt) (t_scope_cwd r))
    (runtimes (t_task_id r)).

(** [young] says that the runtime's child is within its lifetime. *)
Definition runtime_registration_matches (registry : LifecycleRegistry) (young : bool)
    (session : Session) id (runtime_instance_id : Z) : bool :=
  let owner := from_session session in
  negb (session_instance_is_closing registry owner)
  && match canonical_directory (se_cwd session) with
     | Err _ => false
     | Ok scope =>
         is_some_and (fun rt => (rt_instance_id rt =? runtime_instance_id)
                                && bool_decide (rt_owner rt = owner)
                                && String.eqb (rt_scope rt) scope && young)
           (runtimes id)
     end.

(** * Writing *)

Definition write_record_locked s r : Store * result TaskError unit :=
  let bytes := task_to_vec_pretty r in
  if negb (str_len bytes <=? MAX_TASK_RECORD_BYTES)
  then (s, Err (Other "OpenCode task record exceeds 65536 bytes"))
  else match write_error (t_task_id r) with
  | Some e => (s, Err (Other e))
  | None => (set_files s (<[path (t_task_id r) := bytes]> (s_files s)), Ok tt)
  end.

Definition expired (now : Z) r : bool :=
  TASK_RETENTION_SECONDS <=? saturating_sub now (t_updated_at r).

Definition same_scope (current r : TaskRecord) : bool :=
  bool_decide (t_owner r = t_owner current) && String.eqb (t_scope_cwd r) (t_scope_cwd current).

(** [prune_locked], one file of the listing: the store after it, and the task if
    it counts towards the scope of the record about to be written. *)
Definition prune_entry s (current : TaskRecord) (now : Z) (name : string) :
    Store * result TaskError (option Uuid) :=
  match task_file name with
  | None => (s, Ok None)
  | Some id =>
      match read_record s id with
      | Err _ => (s, Ok None)
      | Ok r =>
          match (if runtime_matches_record r then Ok true
                 else runtime_lease_held_locked s (t_task_id r)) with
          | Err e => (s, Err e)
          | Ok runtime_backed =>
              if expired now r && is_terminal (t_status r) && negb runtime_backed
                 && negb (bool_decide (id = t_task_id current))
              then match remove_outcome name with
                   | RemoveDone => (set_files s (delete name (s_files s)), Ok None)
                   | RemoveFailed => (s, Err (Other "cannot prune expired OpenCode task"))
                   | RemoveHalf => (set_files s (delete name (s_files s)),
                                    Err (Other "cannot prune OpenCode runtime lock"))
                   end
              else (s, Ok (if same_scope current r then Some id else None))
          end
      end
  end.

Fixpoint prune_entries s (current : TaskRecord) (now count : Z) (scoped : list Uuid)
    (names : list string) : Store * result TaskError (list Uuid) :=
  match names with
  | [] => (s, Ok scoped)
  | name :: rest =>
      let count := count + 1 in
      if MAX_TASK_DIRECTORY_ENTRIES <? count then
        (s, Err (Other "OpenCode task store contains more than 4096 entries"))
      else match prune_entry s current now name with
      | (s, Err e) => (s, Err e)
      | (s, Ok None) => prune_entries s current now count scoped rest
      | (s, Ok (Some id)) => prune_entries s current now count (scoped ++ [id]) rest
      end
  end.

Definition prune_locked s (current : TaskRecord) (now : Z) : Store * result TaskError unit :=
  match prune_entries s current now 0 [] (read_dir (s_files s)) with
  | (s, Err e) => (s, Err e)
  | (s, Ok scoped) =>
      let projected :=
        zlen scoped + (if bool_decide (t_task_id current ∈ scoped) then 0 else 1) in
      if MAX_TASKS_PER_SCOPE <? projected then
        (s, Err (Other "OpenCode task scope has reached its retention limit; refusing to accept another task"))
      else (s, Ok tt)
  end.

Definition save_locked s r (now' : Z) : Store * result TaskError unit :=
  match validate_record canonical_directory r with
  | Err e => (s, Err e)
  | Ok _ =>
      match prune_locked s r now' with
      | (s, Err e) => (s, Err e)
      | (s, Ok _) => write_record_locked s r
      end
  end.

Definition save_metadata_locked s r : Store * result TaskError unit :=
  match validate_record canonical_directory r with
  | Err e => (s, Err e)
  | Ok _ => write_record_locked s r
  end.

Definition save_if_changed s (before r : TaskRecord) (now now' : Z) :
    Store * result TaskError TaskRecord :=
  if String.eqb (task_to_vec r) (task_to_vec before) then (s, Ok r)
  else
    let r := set_updated_at r now in
    match save_locked s r now' with
    | (s, Err e) => (s, Err e)
    | (s, Ok _) => (s, Ok r)
    end.

(** [update] with a closure that has already run: [edit] is what it returns. *)
Definition update s (session : Session) id (edit : TaskRecord -> result TaskError TaskRecord)
    (now now' : Z) : Store * result TaskError TaskRecord :=
  match load_locked s session id with
  | Err e => (s, Err e)
  | Ok before =>
      match edit before with
      | Err e => (s, Err e)
      | Ok r => save_if_changed s before r now now'
      end
  end.

(** The instance of the caller must be registered and open. *)
Definition ensure_instance_live (registry : LifecycleRegistry) (owner : SessionInstance) :
    result TaskError unit :=
  let! entry := ok_or (entries registry !! owner)
                  (Other "OpenCode session instance lifecycle state is unavailable") in
  ensure (negb (closing entry)) (Other "OpenCode session instance is closing").

Definition update_if_instance_live (registry : LifecycleRegistry) s (session : Session) id
    (owner : SessionInstance) (edit : TaskRecord -> result TaskError TaskRecord)
    (now now' : Z) : Store * result TaskError TaskRecord :=
  match ensure_instance_live registry owner with
  | Err e => (s, Err e)
  | Ok _ => update s session id edit now now'
  end.

(** * Accepting operations *)

Inductive StartAcceptance :=
| StartExisting (r : TaskRecord)
| StartAccepted (r : TaskRecord).       (* with the lease of its task *)

Definition start_retryable (existing : TaskRecord) (candidate : OperationReceipt) : bool :=
  is_some_and (fun receipt =>
      bool_decide (or_request_fingerprint receipt = or_request_fingerprint candidate)
      && String.eqb (or_action receipt) "start"
      && bool_decide (or_phase receipt = PhRetryableFailed)
      && bool_decide (t_status existing = TsRetryableFailed)
      && is_none (t_opencode_session_id existing))
    (find_receipt existing (or_operation_id candidate)).

Definition retry_start (existing : TaskRecord) (candidate : OperationReceipt) (now : Z) :
    TaskRecord :=
  let r := bump (set_status existing TsAccepted) in
  set_updated_at (update_operation_receipt r (or_operation_id candidate) PhAccepted) now.

(** A lease that is dropped when what follows fails. *)
Definition with_lease (id : Uuid) (res : Store * result TaskError unit) (r : TaskRecord) :
    Store * result TaskError StartAcceptance :=
  match res with
  | (s, Err e) => (release_lease s id, Err e)
  | (s, Ok _) => (s, Ok (StartAccepted r))
  end.

Definition accept_start_locked s (session : Session) r (now now' : Z) :
    Store * result TaskError StartAcceptance :=
  match head (t_operations r) with
  | None => (s, Err (Other "OpenCode start acceptance is missing its operation receipt"))
  | Some candidate =>
      match read_record s (t_task_id r) with
      | Ok existing =>
          match ensure_task_owner canonical_directory existing session with
          | Err e => (s, Err e)
          | Ok _ =>
              if start_retryable existing candidate then
                match acquire_lease s (t_task_id existing) with
                | (s, Err e) => (s, Err e)
                | (s, Ok _) =>
                    let existing := retry_start existing candidate now in
                    with_lease (t_task_id existing) (save_locked s existing now') existing
                end
              else (s, Ok (StartExisting existing))
          end
      | Err e =>
          if is_not_found e then
            match acquire_lease s (t_task_id r) with
            | (s, Err e) => (s, Err e)
            | (s, Ok _) => with_lease (t_task_id r) (save_locked s r now') r
            end
          else (s, Err e)
      end
  end.

Definition accept_start_if_instance_live (registry : LifecycleRegistry) s (session : Session) r
    (owner : SessionInstance) (now now' : Z) : Store * result TaskError StartAcceptance :=
  match ensure_instance_live registry owner with
  | Err e => (s, Err e)
  | Ok _ => accept_start_locked s session r now now'
  end.

Inductive ControlAcceptance :=
| ControlReplay (view : Json)
| ControlAccepted (r : TaskRecord) (leased : bool).

(** An operation the record already knows: its replay, or why there is none. *)
Definition known_operation r (operation_id fingerprint : Uuid) :
    option (result TaskError Json) :=
  match find_receipt r operation_id, find_tombstone r operation_id with
  | None, None => None
  | _, _ => Some (replay_operation r operation_id fingerprint)
  end.

Definition control_allowed r (action : string) : result TaskError unit :=
  (if String.eqb action "resume" then
     ensure (match t_status r with
             | TsUnknown | TsReconciliationRequired | TsRetryableFailed => true
             | _ => false
             end) (Other "OpenCode task does not require resume reconciliation")
   else
     ensure (match t_status r with
             | TsRunning | TsWaitingApproval => true
             | _ => false
             end) (Other "OpenCode task is not active and cannot be controlled")) ;!
  ensure (is_some (t_opencode_session_id r) || String.eqb action "resume")
    (Other "OpenCode task requires reconciliation before control").

(** The oldest receipt of a full history becomes a tombstone. *)
Definition make_room r : TaskRecord :=
  if MAX_OPERATION_HISTORY <=? zlen (t_operations r) then
    match t_operations r with
    | [] => r
    | receipt :: rest =>
        set_operation_tombstones (set_operations r rest)
          (t_operation_tombstones r
           ++ [mkTombstone (or_operation_id receipt) (or_request_fingerprint receipt)])
    end
  else r.

Definition accept_operation r (operation_id fingerprint : Uuid) (action : string) : TaskRecord :=
  let r := bump r in
  let accepted_outcome := outcome r in
  let r := make_room r in
  set_operations r (t_operations r
    ++ [mkReceipt operation_id fingerprint action PhAccepted accepted_outcome None]).

Definition accept_control_locked s (session : Session) id (operation_id fingerprint : Uuid)
    (action : string) (now' : Z) : Store * result TaskError ControlAcceptance :=
  match load_locked s session id with
  | Err e => (s, Err e)
  | Ok r =>
      match known_operation r operation_id fingerprint with
      | Some (Ok view) => (s, Ok (ControlReplay view))
      | Some (Err e) => (s, Err e)
      | None =>
          match control_allowed r action with
          | Err e => (s, Err e)
          | Ok _ =>
              let leased := negb (runtime_matches_record r) in
              match (if leased then acquire_lease s id else (s, Ok tt)) with
              | (s, Err e) => (s, Err e)
              | (s, Ok _) =>
                  let r := accept_operation r operation_id fingerprint action in
                  match save_locked s r now' with
                  | (s, Err e) => (if leased then release_lease s id else s, Err e)
                  | (s, Ok _) => (s, Ok (ControlAccepted r leased))
                  end
              end
          end
      end
  end.

Definition accept_control_if_instance_live (registry : LifecycleRegistry) s (session : Session)
    id (operation_id fingerprint : Uuid) (action : string) (now' : Z) :
    Store * result TaskError ControlAcceptance :=
  match ensure_instance_live registry (from_session session) with
  | Err e => (s, Err e)
  | Ok _ => accept_control_locked s session id operation_id fingerprint action now'
  end.

(** * Listing and ending *)

Inductive RuntimeAccess := RaLocal | RaAcquired | RaOwnedElsewhere.

Definition load_for_reconciliation s (session : Session) id :
    Store * result TaskError (TaskRecord * RuntimeAccess) :=
  match load_locked s session id with
  | Err e => (s, Err e)
  | Ok r =>
      if runtime_matches_record r then (s, Ok (r, RaLocal))
      else match try_acquire_runtime_lease_locked s id with
      | (s, Err e) => (s, Err e)
      | (s, Ok acquired) => (s, Ok (r, if acquired then RaAcquired else RaOwnedElsewhere))
      end
  end.

Definition finalize_record r (now : Z) : TaskRecord :=
  let r := set_updated_at (bump (set_status r TsInterrupted)) now in
  let o := outcome r in
  set_operations r
    (map (fun receipt => set_phase (if bool_decide (or_phase receipt = PhAccepted) then PhApplied
                                    else or_phase receipt) o receipt) (t_operations r)).

Record FinalizeOwnerOutcome := mkFinalize {
  fo_finalized : Z;
  fo_deferred : bool;
}.

Fixpoint finalize_entries s (owner : SessionInstance) (now now' count : Z)
    (o : FinalizeOwnerOutcome) (names : list string) :
    Store * result TaskError FinalizeOwnerOutcome :=
  match names with
  | [] => (s, Ok o)
  | name :: rest =>
      let count := count + 1 in
      if MAX_TASK_DIRECTORY_ENTRIES <? count then
        (s, Err (Other "OpenCode task store contains more than 4096 entries"))
      else match task_file name with
      | None => finalize_entries s owner now now' count o rest
      | Some id =>
          match read_record s id with
          | Err e =>
              if is_not_found e then finalize_entries s owner now now' count o rest
              else (s, Err e)
          | Ok r =>
              if negb (bool_decide (t_owner r = owner)) then
                finalize_entries s owner now now' count o rest
              else match runtime_lease_held_locked s (t_task_id r) with
              | Err e => (s, Err e)
              | Ok true =>
                  finalize_entries s owner now now' count (mkFinalize (fo_finalized o) true) rest
              | Ok false =>
                  if is_terminal (t_status r) then finalize_entries s owner now now' count o rest
                  else match save_locked s (finalize_record r now) now' with
                  | (s, Err e) => (s, Err e)
                  | (s, Ok _) =>
                      finalize_entries s owner now now' count
                        (mkFinalize (fo_finalized o + 1) (fo_deferred o)) rest
                  end
              end
          end
      end
  end.

Definition finalize_owner s (owner : SessionInstance) (now now' : Z) :
    Store * result TaskError FinalizeOwnerOutcome :=
  finalize_entries s owner now now' 0 (mkFinalize 0 false) (read_dir (s_files s)).

Fixpoint list_entries s (session : Session) (scope : string) (count : Z)
    (records : list TaskRecord) (skipped : Z) (names : list string) :
    result TaskError (list TaskRecord * Z) :=
  match names with
  | [] => Ok (records, skipped)
  | name :: rest =>
      let count := count + 1 in
      if MAX_TASK_DIRECTORY_ENTRIES <? count then
        Err (Other "OpenCode task store contains more than 4096 entries")
      else match task_file name with
      | None => list_entries s session scope count records skipped rest
      | Some id =>
          match read_record s id with
          | Ok r =>
              list_entries s session scope count
                (if matches (t_owner r) session && String.eqb (t_scope_cwd r) scope
                 then records ++ [r] else records) skipped rest
          | Err e =>
              list_entries s session scope count records
                (if is_not_found e then skipped else skipped + 1) rest
          end
      end
  end.

Definition list_owned s (session : Session) : result TaskError (list TaskRecord * Z) :=
  let! scope := canonical_directory (se_cwd session) in
  list_entries s session scope 0 [] 0 (read_dir (s_files s)).

(** * Pending interactions *)

Definition pending_interaction_observation_context (registry : LifecycleRegistry) (young : bool)
    s (session : Session) id (runtime_instance_id now : Z) :
    result TaskError (option (string * Z)) :=
  if negb (runtime_registration_matches registry young session id runtime_instance_id)
  then Ok None
  else
    let! r := load_locked s session id in
    if is_terminal (t_status r) || expired now r then Ok None
    else Ok (match t_opencode_session_id r with
             | None => None
             | Some opencode_session_id => Some (opencode_session_id, t_generation r)
             end).

Record PendingInteractionObservation := mkPendingObservation {
  po_state : SummaryState;
  po_count : option Z;
  po_types : list InteractionType;
  po_truncated : bool;
  po_preserve_observed_at : bool;
}.

Definition observed_summary r (observation : PendingInteractionObservation)
    (producer_epoch now : Z) : result TaskError Summary :=
  map_err Other
    (if po_preserve_observed_at observation
     then unavailable (t_pending_interaction_summary r) RuntimeOwner producer_epoch
     else observe (t_pending_interaction_summary r) (po_state observation)
            (po_count observation) (po_types observation) (po_truncated observation)
            RuntimeOwner producer_epoch now).

Definition update_pending_interaction_summary (registry : LifecycleRegistry) (young : bool)
    s (session : Session) id (runtime_instance_id : Z) (opencode_session_id : string)
    (producer_epoch : Z) (observation : PendingInteractionObservation) (now now' : Z) :
    Store * result TaskError bool :=
  if negb (runtime_registration_matches registry young session id runtime_instance_id)
  then (s, Ok false)
  else match load_locked s session id with
  | Err e => (s, Err e)
  | Ok r =>
      if is_terminal (t_status r) || expired now r || negb (t_generation r =? producer_epoch)
         || negb (bool_decide (t_opencode_session_id r = Some opencode_session_id))
      then (s, Ok false)
      else match observed_summary r observation producer_epoch now' with
      | Err e => (s, Err e)
      | Ok summary =>
          match save_metadata_locked s (set_pending_interaction_summary r (Some summary)) with
          | (s, Err e) => (s, Err e)
          | (s, Ok _) => (s, Ok true)
          end
      end
  end.

End Runtimes.

(** * The changes the entry points make to a record

    The closures that task_start, task_get, task_control and the answers to
    interactions pass to [update] and [update_if_instance_live]. *)

(** What a private workspace may do for its parent task. *)
Record Authority := mkAuthority {
  au_parent_task_id : Uuid;
  au_session : Session;
  au_workspace_id : Uuid;
  au_model : string;
  au_effort : string;
  au_producer_epoch : Z;
}.

Definition private_record_matches r (authority : Authority) (scope : string) : bool :=
  bool_decide (t_task_id r = au_parent_task_id authority)
  && matches (t_owner r) (au_session authority)
  && String.eqb (t_scope_cwd r) scope
  && bool_decide (t_managed_workspace_id r = Some (au_workspace_id authority))
  && bool_decide (t_private_codex_model r = Some (au_model authority))
  && bool_decide (t_private_codex_effort r = Some (au_effort authority))
  && (t_generation r =? au_producer_epoch authority)
  && match t_status r with
     | TsRunning | TsWaitingApproval => true
     | _ => false
     end.

Definition retain_private_check_receipt r (authority : Authority) (operation_id : Uuid)
    (action : string) (expected : Uuid) (create : bool) : result TaskError TaskRecord :=
  ensure (private_record_matches r authority (se_cwd (au_session authority)))
    (Other "private workspace parent changed") ;!
  match List.find (fun item => bool_decide (pc_operation_id item = operation_id))
          (t_private_check_receipts r) with
  | Some receipt =>
      ensure (String.eqb (pc_action receipt) action
              && bool_decide (pc_workspace_id receipt = au_workspace_id authority)
              && (pc_producer_epoch receipt =? au_producer_epoch authority)
              && bool_decide (pc_codex_task_id receipt = expected))
        (Other "private check receipt mismatch") ;!
      Ok r
  | None =>
      ensure create (Other "private check receipt absent") ;!
      ensure (zlen (t_private_check_receipts r) <? 64)
        (Other "private check receipt limit reached") ;!
      Ok (bump (set_private_check_receipts r (t_private_check_receipts r
            ++ [mkCheck operation_id action expected (au_workspace_id authority)
                  (au_producer_epoch authority)])))
  end.

Inductive Edit :=
| EditSpawnFailed (operation_id : Uuid) (error : string) (shutting_down : bool)
| EditBind (opencode_session_id : string) (native_report : bool)
| EditRunning
| EditStarted (operation_id : Uuid)
| EditStartFailed (operation_id : Uuid) (error : string) (shutting_down : bool)
| EditRuntimeUnavailable
| EditReconcileFailed (error : string)
| EditUnbound
| EditNotAdmitted (start_operation_id : Uuid)
| EditDerived (fuel : nat) (d : DerivedServeState)
| EditControlled (operation_id : Uuid) (interrupt : bool)
| EditControlFailed (operation_id : Uuid) (shutting_down : bool)
| EditNeedsReconciliation
| EditInteraction (operation_id : Uuid) (pending_count : Z) (i : InteractionOperationResult)
| EditUncertain (error : string)
| EditPrivateCheck (authority : Authority) (operation_id : Uuid) (action : string)
    (expected : Uuid) (create : bool).

Definition set_error r (error : string) : TaskRecord :=
  set_last_error r (Some (bound_text error MAX_ERROR_BYTES)).

(** [if !record.status.is_terminal() { ... }]. *)
Definition unless_terminal (f : TaskRecord -> TaskRecord) r : TaskRecord :=
  if is_terminal (t_status r) then r else f r.

Definition fail_operation (status closing_status : TaskStatus)
    (phase : OperationPhase) (operation_id : Uuid) (error : option string)
    (shutting_down : bool) r : TaskRecord :=
  let r := set_status r (if shutting_down then closing_status else status) in
  let r := match error with
           | Some error => set_error r error
           | None => r
           end in
  update_operation_receipt (bump r) operation_id (if shutting_down then PhApplied else phase).

Definition require_reconciliation r : TaskRecord :=
  if bool_decide (t_status r = TsReconciliationRequired) then r
  else bump (set_status r TsReconciliationRequired).

Definition is_start (receipt : OperationReceipt) : bool := String.eqb (or_action receipt) "start".

Definition interaction_pending_error : string :=
  "opencode permission/question request is pending".

Definition finish_interaction (operation_id : Uuid) (pending_count : Z)
    (i : InteractionOperationResult) r : TaskRecord :=
  let r := set_status r (if pending_count =? 0 then TsRunning else TsWaitingApproval) in
  let r := set_last_error r (if 0 <? pending_count then Some interaction_pending_error
                             else None) in
  let r := update_operation_receipt (bump r) operation_id PhApplied in
  set_operations r (update_first (has_operation operation_id)
    (fun receipt => mkReceipt (or_operation_id receipt) (or_request_fingerprint receipt)
                      (or_action receipt) (or_phase receipt) (or_outcome receipt) (Some i))
    (t_operations r)).

(** The state that begins the first turn. *)
Definition start_running r : TaskRecord :=
  let r := match t_status r with
           | TsAccepted | TsUnknown | TsReconciliationRequired => set_status r TsRunning
           | _ => r
           end in
  bump (set_generation r 1).

Definition reconcile_failed (error : string) r : TaskRecord :=
  let last_error := bound_text error MAX_ERROR_BYTES in
  if negb (bool_decide (t_status r = TsUnknown))
     || negb (bool_decide (t_last_error r = Some last_error))
  then bump (set_last_error (set_status r TsUnknown) (Some last_error))
  else r.

Definition controlled (operation_id : Uuid) (interrupt : bool) r : TaskRecord :=
  let r := set_generation r (saturating_add (t_generation r) 1) in
  let r := bump (set_status r (if interrupt then TsInterrupted else TsRunning)) in
  update_operation_receipt r operation_id PhApplied.

(** [None] when [apply_derived] does not come to an end within its fuel. *)
Definition apply_edit (e : Edit) r : option (result TaskError TaskRecord) :=
  match e with
  | EditDerived fuel d => apply_derived_edit fuel d r
  | EditBind opencode_session_id native_report => Some (
      if is_terminal (t_status r) then Ok r
      else
        ensure (is_none_or (String.eqb opencode_session_id) (t_opencode_session_id r))
          (Other "opencode task session was already bound") ;!
        Ok (bump (set_native_report_requested
                    (set_opencode_session_id r (Some opencode_session_id)) native_report)))
  | EditSpawnFailed operation_id error shutting_down => Some (Ok (unless_terminal
      (fail_operation TsRetryableFailed TsInterrupted PhRetryableFailed operation_id (Some error)
         shutting_down) r))
  | EditStartFailed operation_id error shutting_down => Some (Ok (unless_terminal
      (fail_operation TsReconciliationRequired TsInterrupted PhAccepted operation_id (Some error)
         shutting_down) r))
  | EditControlFailed operation_id shutting_down => Some (Ok (unless_terminal
      (fail_operation TsUnknown TsInterrupted PhRetryableFailed operation_id None shutting_down) r))
  | EditRunning => Some (Ok (unless_terminal start_running r))
  | EditStarted operation_id => Some (Ok (unless_terminal
      (fun r => update_operation_receipt (bump r) operation_id PhApplied) r))
  | EditRuntimeUnavailable => Some (Ok (unless_terminal
      (fun r => if bool_decide (t_status r = TsUnknown) then r
                else bump (set_status r TsUnknown)) r))
  | EditReconcileFailed error => Some (Ok (unless_terminal (reconcile_failed error) r))
  | EditUnbound => Some (Ok (unless_terminal
      (fun r => let r := require_reconciliation r in
                set_operations r (update_first is_start (set_phase PhAccepted (outcome r))
                                    (t_operations r))) r))
  | EditNotAdmitted start_operation_id => Some (Ok (unless_terminal
      (fun r => update_operation_receipt (require_reconciliation r) start_operation_id PhAccepted)
      r))
  | EditControlled operation_id interrupt => Some (Ok (unless_terminal
      (controlled operation_id interrupt) r))
  | EditNeedsReconciliation => Some (Ok (unless_terminal
      (fun r => bump (set_status r TsReconciliationRequired)) r))
  | EditInteraction operation_id pending_count i => Some (Ok (unless_terminal
      (finish_interaction operation_id pending_count i) r))
  | EditUncertain error => Some (Ok (unless_terminal
      (fun r => bump (set_error (set_status r TsReconciliationRequired) error)) r))
  | EditPrivateCheck authority operation_id action expected create =>
      Some (retain_private_check_receipt r authority operation_id action expected create)
  end.

(** * Starting a task *)

Record StartRequest := mkStart {
  sr_task_id : Uuid;
  sr_operation_id : Uuid;
  sr_fingerprint : Uuid;
  sr_model : option string;
  sr_agent : option string;
  sr_variant : option string;
  sr_managed : option (Uuid * string * string);
  sr_blocker : option Json;
}.

(** The record [task_start] offers to the store. *)
Definition start_record (session : Session) (scope_cwd : string) (q : StartRequest) (now : Z) :
    TaskRecord :=
  mkTask TASK_SCHEMA_VERSION (sr_task_id q) (from_session session) scope_cwd
    ((fun m => m.1.1) <$> sr_managed q) ((fun m => m.1.2) <$> sr_managed q)
    (snd <$> sr_managed q) [] (sr_model q) (sr_agent q) (sr_variant q) TsAccepted 1 0 None None
    None None false (sr_blocker q) None None None false None now now None None
    [mkReceipt (sr_operation_id q) (sr_fingerprint q) "start" PhAccepted
       (mkOutcome TsAccepted 1 0 None) None] [].

(** What [task_start] does before it prepares anything: a task whose file exists
    is answered from its record. *)
Definition task_start_replay s (session : Session) (q : StartRequest) :
    option (result TaskError Json) :=
  if is_some (s_files s !! path (sr_task_id q)) then
    Some (let! existing := read_record s (sr_task_id q) in
          ensure_task_owner canonical_directory existing session ;!
          replay_operation existing (sr_operation_id q) (sr_fingerprint q))
  else None.

End Store.

(** * Interleavings

    The world of one step: what its environment answers (a directory is listed
    completely, in some order), and the step. *)

Section Steps.
Context `{UuidLib, SerdeJson, !TaskCodec}.

Record Environment := mkEnvironment {
  env_canonical_directory : string -> result TaskError string;
  env_read_dir : gmap string string -> list string;
  env_read_dir_lists : forall files, env_read_dir files ≡ₚ map fst (map_to_list files);
  env_lock_error : Uuid -> option string;
  env_write_error : Uuid -> option string;
  env_remove_outcome : string -> RemoveOutcome;
  env_runtimes : Uuid -> option RuntimeHandle;
}.

Inductive TaskLabel :=
| TlStart (session : Session) (scope : string) (q : StartRequest) (accepted : bool)
| TlControl (session : Session) (id operation_id fingerprint : Uuid) (action : string)
    (accepted : bool)
| TlEdit (session : Session) (id : Uuid) (e : Edit)
| TlSummary (session : Session) (id : Uuid)
| TlReconcile (session : Session) (id : Uuid)
| TlFinalize (owner : SessionInstance)
| TlRelease (id : Uuid).

Definition start_accepted (res : result TaskError StartAcceptance) : bool :=
  match res with
  | Ok (StartAccepted _) => true
  | _ => false
  end.

Definition control_accepted (res : result TaskError ControlAcceptance) : bool :=
  match res with
  | Ok (ControlAccepted _ _) => true
  | _ => false
  end.

(** The operations of [TaskStore] in any order, by any process, each in its own
    environment; the lifecycle registry of the process only refuses some of
    them.  A change that does not end never comes to its write. *)
Inductive task_step (s : Store) : TaskLabel -> Store -> Prop :=
| step_start (env : Environment) (session : Session) (scope : string) (q : StartRequest)
    (now now1 now2 : Z) (s' : Store) (res : result TaskError StartAcceptance) :
    accept_start_locked (env_canonical_directory env) (env_read_dir env) (env_lock_error env)
      (env_write_error env) (env_remove_outcome env) (env_runtimes env) s session
      (start_record session scope q now) now1 now2 = (s', res) ->
    task_step s (TlStart session scope q (start_accepted res)) s'
| step_control (env : Environment) (session : Session) (id operation_id fingerprint : Uuid)
    (action : string) (now2 : Z) (s' : Store) (res : result TaskError ControlAcceptance) :
    accept_control_locked (env_canonical_directory env) (env_read_dir env) (env_lock_error env)
      (env_write_error env) (env_remove_outcome env) (env_runtimes env) s session id
      operation_id fingerprint action now2 = (s', res) ->
    task_step s (TlControl session id operation_id fingerprint action (control_accepted res)) s'
| step_edit (env : Environment) (session : Session) (id : Uuid) (e : Edit)
    (edit : TaskRecord -> result TaskError TaskRecord) (now1 now2 : Z) (s' : Store)
    (res : result TaskError TaskRecord) :
    (forall r, load_locked (env_canonical_directory env) s session id = Ok r ->
       apply_edit e r = Some (edit r)) ->
    update (env_canonical_directory env) (env_read_dir env) (env_lock_error env)
      (env_write_error env) (env_remove_outcome env) (env_runtimes env) s session id edit
      now1 now2 = (s', res) ->
    task_step s (TlEdit session id e) s'
| step_summary (env : Environment) (registry : LifecycleRegistry) (young : bool)
    (session : Session) (id : Uuid) (runtime_instance_id : Z) (opencode_session_id : string)
    (producer_epoch : Z) (observation : PendingInteractionObservation) (now1 now2 : Z)
    (s' : Store) (res : result TaskError bool) :
    update_pending_interaction_summary (env_canonical_directory env) (env_write_error env)
      (env_runtimes env) registry young s session id runtime_instance_id opencode_session_id
      producer_epoch observation now1 now2 = (s', res) ->
    task_step s (TlSummary session id) s'
| step_reconcile (env : Environment) (session : Session) (id : Uuid) (s' : Store)
    (res : result TaskError (TaskRecord * RuntimeAccess)) :
    load_for_reconciliation (env_canonical_directory env) (env_lock_error env) (env_runtimes env)
      s session id = (s', res) ->
    task_step s (TlReconcile session id) s'
| step_finalize (env : Environment) (owner : SessionInstance) (now1 now2 : Z) (s' : Store)
    (res : result TaskError FinalizeOwnerOutcome) :
    finalize_owner (env_canonical_directory env) (env_read_dir env) (env_lock_error env)
      (env_write_error env) (env_remove_outcome env) (env_runtimes env) s owner now1 now2
      = (s', res) ->
    task_step s (TlFinalize owner) s'
| step_release (id : Uuid) : task_step s (TlRelease id) (release_lease s id).

(** Runs in which the file of [id] is never missing. *)
Inductive kept_run (id : Uuid) : Store -> list TaskLabel -> Store -> Prop :=
| kept_nil (s : Store) : is_Some (s_files s !! path id) -> kept_run id s [] s
| kept_cons (s s1 s2 : Store) (l : TaskLabel) (tr : list TaskLabel) :
    is_Some (s_files s !! path id) -> task_step s l s1 -> kept_run id s1 tr s2 ->
    kept_run id s (l :: tr) s2.

Inductive task_run : Store -> list TaskLabel -> Store -> Prop :=
| task_run_nil (s : Store) : task_run s [] s
| task_run_cons (s s1 s2 : Store) (l : TaskLabel) (tr : list TaskLabel) :
    task_step s l s1 -> task_run s1 tr s2 -> task_run s (l :: tr) s2.

End Steps.
