(* ===== verification/TasksTheorems.v ===== *)
(** * The OpenCode task store: theorems

    How records evolve under every operation and change, in any order: an
    operation is applied once, a finished task never changes, the revision is a
    sound cursor for what a caller sees, a scope never holds more than its
    limit, and an ended session leaves no task running.  And where the code
    does not do what it means to: over-long errors, over-full records, failed
    starts and directories that went away. *)

From S2P Require Import Prelude Strings Utf8 Json Value Outcome PendingInteraction Lifecycle.
From S2P Require Import ReportContract TaskRecord Derive Tasks.

#[local] Open Scope Z_scope.
#[local] Open Scope rust_scope.

Section TasksTheorems.
Context `{UU : UuidLib, SJ : SerdeJson, TC : !TaskCodec, UL : !UuidLaws, TL : !TaskCodecLaws}.

Implicit Types (s : Store) (r : TaskRecord) (id : Uuid).

(** * Records *)

(** The operations a record remembers. *)
Definition remembered r : list Uuid :=
  map or_operation_id (t_operations r) ++ map ot_operation_id (t_operation_tombstones r).

Context (as_bytes : Uuid -> list Z) (from_bytes : list Z -> Uuid)
  (new_v5 : Uuid -> list Z -> Uuid).

(** What a caller of task_get sees of a record. *)
Definition view r : Json := task_view as_bytes from_bytes new_v5 r None.

(** How the record of a task may change. *)
Record evolves (r r' : TaskRecord) : Prop := {
  ev_task_id : t_task_id r' = t_task_id r;
  ev_owner : t_owner r' = t_owner r;
  ev_scope : t_scope_cwd r' = t_scope_cwd r;
  ev_remembered : forall o, o ∈ remembered r -> o ∈ remembered r';
  ev_revision : t_revision r <= U64_MAX -> t_revision r <= t_revision r' <= U64_MAX;
  ev_view : t_revision r' = t_revision r -> t_revision r < U64_MAX -> view r' = view r;
  ev_terminal : is_terminal (t_status r) = true -> r' = r;
}.

#[export] Instance evolves_preorder : PreOrder evolves.
Proof.
  split.
  - intros r. split; try done; lia.
  - intros r1 r2 r3 A B. split.
    + rewrite (ev_task_id _ _ B). apply A.
    + rewrite (ev_owner _ _ B). apply A.
    + rewrite (ev_scope _ _ B). apply A.
    + intros o Ho. apply B, A, Ho.
    + intros Hu. pose proof (ev_revision _ _ A Hu). pose proof (ev_revision _ _ B). lia.
    + intros He Hu. pose proof (ev_revision _ _ A). pose proof (ev_revision _ _ B).
      rewrite (ev_view _ _ B) by lia. apply (ev_view _ _ A); lia.
    + intros Ht. pose proof (ev_terminal _ _ A Ht) as ->. by apply (ev_terminal _ _ B).
Qed.

(** Fields no view shows. *)
Lemma view_updated_at r now : view (set_updated_at r now) = view r.
Proof. by destruct r. Qed.

Lemma view_summary r summary : view (set_pending_interaction_summary r summary) = view r.
Proof. by destruct r. Qed.

Lemma view_operations r ops : view (set_operations r ops) = view r.
Proof. by destruct r. Qed.

(** A change that raises the revision may show anything. *)
Record same_task (r r' : TaskRecord) : Prop := {
  st_task_id : t_task_id r' = t_task_id r;
  st_owner : t_owner r' = t_owner r;
  st_scope : t_scope_cwd r' = t_scope_cwd r;
  st_remembered : forall o, o ∈ remembered r -> o ∈ remembered r';
}.

Lemma bumped_evolves r r' :
  is_terminal (t_status r) = false -> same_task r r' ->
  t_revision r' = saturating_add (t_revision r) 1 -> evolves r r'.
Proof.
  intros Ht [] Hrev. split; try done.
  - rewrite Hrev. unfold saturating_add. lia.
  - rewrite Hrev. unfold saturating_add. lia.
  - congruence.
Qed.

Lemma kept_evolves r r' :
  is_terminal (t_status r) = false -> same_task r r' ->
  t_revision r' = t_revision r -> view r' = view r -> evolves r r'.
Proof. intros Ht [] Hrev Hv. split; try done; try lia. congruence. Qed.

Lemma update_first_ids (p : OperationReceipt -> bool) (f : OperationReceipt -> OperationReceipt)
    (l : list OperationReceipt) :
  (forall x, or_operation_id (f x) = or_operation_id x) ->
  map or_operation_id (update_first p f l) = map or_operation_id l.
Proof.
  intros Hf. induction l as [|x l IH]; simpl; [done|].
  destruct (p x); simpl; [by rewrite Hf|by rewrite IH].
Qed.

(** The same operations, whatever became of their phases. *)
Lemma same_task_ops r r' :
  t_task_id r' = t_task_id r -> t_owner r' = t_owner r -> t_scope_cwd r' = t_scope_cwd r ->
  map or_operation_id (t_operations r') = map or_operation_id (t_operations r) ->
  t_operation_tombstones r' = t_operation_tombstones r -> same_task r r'.
Proof. intros ? ? ? Ho Ht. split; try done. intros o. unfold remembered. by rewrite Ho, Ht. Qed.

Ltac same := apply same_task_ops; try done; simpl;
  rewrite ?update_first_ids by done; try done.

Lemma fail_operation_evolves status closing phase op error shut r :
  is_terminal (t_status r) = false ->
  evolves r (fail_operation status closing phase op error shut r).
Proof.
  intros Ht. unfold fail_operation, update_operation_receipt.
  apply bumped_evolves; [done| |]; destruct error; try done; same.
Qed.

Lemma require_reconciliation_evolves (p : OperationReceipt -> bool) r r' o :
  is_terminal (t_status r) = false -> r' = require_reconciliation r ->
  evolves r (set_operations r' (update_first p (set_phase PhAccepted o) (t_operations r'))).
Proof.
  intros Ht ->. unfold require_reconciliation. case_bool_decide.
  - apply kept_evolves; [done|same|done|apply view_operations].
  - apply bumped_evolves; [done|same|done].
Qed.

Lemma fit_same (fuel : nat) r r' :
  fit_raw_result_to_record_limit fuel r = Some (Ok r') ->
  (exists raw t, r' = set_raw_result_truncated (set_raw_result r raw) t)
  /\ (str_len (task_to_vec_pretty r) <= MAX_TASK_RECORD_BYTES -> r' = r).
Proof.
  revert r. induction fuel as [|fuel IH]; intros r; simpl;
    (destruct (t_raw_result r) as [raw|] eqn:Hraw;
       [|intros [= <-]; split; [exists (t_raw_result r), (t_raw_result_truncated r); by destruct r|done]]);
    (destruct (Z.leb_spec (str_len (task_to_vec_pretty r)) MAX_TASK_RECORD_BYTES);
       [intros [= <-]; split; [exists (t_raw_result r), (t_raw_result_truncated r); by destruct r|done]|]);
    (destruct (str_is_empty raw); [done|]); [done|].
  destruct (truncate_text raw _) as [bounded b]. intros ((raw' & t & ->) & _)%IH.
  split; [exists raw', t; by destruct r|lia].
Qed.

(** Assigning a field the value it has. *)
Lemma set_status_id r v : v = t_status r -> set_status r v = r.
Proof. intros ->. by destruct r. Qed.
Lemma set_usage_id r v : v = t_usage r -> set_usage r v = r.
Proof. intros ->. by destruct r. Qed.
Lemma set_observed_model_id r v : v = t_observed_model r -> set_observed_model r v = r.
Proof. intros ->. by destruct r. Qed.
Lemma set_report_id r v : v = t_report r -> set_report r v = r.
Proof. intros ->. by destruct r. Qed.
Lemma set_report_status_id r v : v = t_report_status r -> set_report_status r v = r.
Proof. intros ->. by destruct r. Qed.
Lemma set_raw_result_id r v : v = t_raw_result r -> set_raw_result r v = r.
Proof. intros ->. by destruct r. Qed.
Lemma set_raw_result_truncated_id r v : v = t_raw_result_truncated r -> set_raw_result_truncated r v = r.
Proof. intros ->. by destruct r. Qed.
Lemma set_last_error_id r v : v = t_last_error r -> set_last_error r v = r.
Proof. intros ->. by destruct r. Qed.

(** The fields [apply_derived] compares. *)
Lemma derived_unchanged d r :
  derived_changed (apply_derived_fields r d) r = false -> apply_derived_fields r d = r.
Proof.
  unfold derived_changed. rewrite negb_false_iff, !andb_true_iff, !bool_decide_eq_true.
  intros (((((((H1 & H2) & H3) & H4) & H5) & H6) & H7%eqb_prop) & H8).
  revert H1 H2 H3 H4 H5 H6 H7 H8. unfold apply_derived_fields.
  destruct (is_some (ds_raw_result d)); simpl; intros H1 H2 H3 H4 H5 H6 H7 H8;
    rewrite (set_status_id r) by done; rewrite (set_usage_id r), (set_observed_model_id r),
    (set_report_id r), (set_report_status_id r) by done;
    rewrite ?(set_raw_result_id r), ?(set_raw_result_truncated_id r) by done;
    by apply set_last_error_id.
Qed.

Lemma derived_same_task d r : same_task r (apply_derived_fields r d).
Proof. unfold apply_derived_fields. destruct (is_some (ds_raw_result d)); same. Qed.

Lemma derived_revision d r : t_revision (apply_derived_fields r d) = t_revision r.
Proof. unfold apply_derived_fields. by destruct (is_some (ds_raw_result d)). Qed.

Lemma derived_evolves (fuel : nat) d r r' :
  str_len (task_to_vec_pretty r) <= MAX_TASK_RECORD_BYTES ->
  apply_derived_edit fuel d r = Some (Ok r') -> evolves r r'.
Proof.
  intros Hsize. unfold apply_derived_edit.
  destruct (is_terminal (t_status r)) eqn:Ht; [by intros [= <-]|].
  pose proof (derived_same_task d r) as Hst. pose proof (derived_revision d r) as Hrev.
  destruct (derived_changed (apply_derived_fields r d) r) eqn:Hc.
  - intros ((raw & t & ->) & _)%fit_same. clear Hc.
    revert Hst Hrev. generalize (apply_derived_fields r d). intros r1 [H1 H2 H3 H4] Hrev.
    apply bumped_evolves; [done| |].
    + split; [destruct (is_terminal (ds_status d)); done..|].
      intros o Ho%H4. unfold remembered in *.
      destruct (is_terminal (ds_status d)); [|done]. simpl. by rewrite update_first_ids.
    + rewrite <- Hrev. by destruct (is_terminal (ds_status d)).
  - apply derived_unchanged in Hc. rewrite Hc. destruct (is_terminal (ds_status d)) eqn:Hd.
    + assert (t_status (apply_derived_fields r d) = ds_status d) as Hs.
      { unfold apply_derived_fields. by destruct (is_some (ds_raw_result d)). }
      rewrite Hc in Hs. congruence.
    + intros (_ & ->)%fit_same; [reflexivity|done].
Qed.

Lemma interaction_evolves op n i r :
  is_terminal (t_status r) = false -> evolves r (finish_interaction op n i r).
Proof.
  intros Ht. unfold finish_interaction, update_operation_receipt.
  apply bumped_evolves; [done|same|done].
Qed.

(** Every change an entry point makes. *)
Lemma edit_evolves (e : Edit) r r' :
  str_len (task_to_vec_pretty r) <= MAX_TASK_RECORD_BYTES ->
  apply_edit e r = Some (Ok r') -> evolves r r'.
Proof.
  intros Hsize.
  destruct (is_terminal (t_status r)) eqn:Ht.
  { intros He. assert (r' = r) as ->; [|reflexivity]. revert He.
    destruct e; simpl; unfold unless_terminal, apply_derived_edit; rewrite ?Ht; try congruence.
    unfold retain_private_check_receipt, private_record_matches.
    destruct (t_status r); try done; rewrite andb_false_r; done. }
  destruct e; simpl; unfold unless_terminal; rewrite ?Ht.
  - intros [= <-]. by apply fail_operation_evolves.
  - destruct (is_none_or _ _); simpl; [|done]. intros [= <-].
    apply bumped_evolves; [done|same|done].
  - intros [= <-]. unfold start_running.
    apply bumped_evolves; [done| |]; destruct (t_status r); try done; same.
  - intros [= <-]. unfold update_operation_receipt. apply bumped_evolves; [done|same|done].
  - intros [= <-]. by apply fail_operation_evolves.
  - intros [= <-]. case_bool_decide; [reflexivity|]. apply bumped_evolves; [done|same|done].
  - intros [= <-]. unfold reconcile_failed. destruct (_ || _); [|reflexivity].
    apply bumped_evolves; [done|same|done].
  - intros [= <-]. by apply require_reconciliation_evolves.
  - intros [= <-]. by apply require_reconciliation_evolves.
  - by apply derived_evolves.
  - intros [= <-]. unfold controlled, update_operation_receipt.
    apply bumped_evolves; [done|same|done].
  - intros [= <-]. by apply fail_operation_evolves.
  - intros [= <-]. apply bumped_evolves; [done|same|done].
  - intros [= <-]. by apply interaction_evolves.
  - intros [= <-]. apply bumped_evolves; [done|same|done].
  - unfold retain_private_check_receipt. destruct (private_record_matches _ _ _); simpl; [|done].
    destruct (List.find _ _) as [receipt|]; simpl.
    + destruct (_ && _); simpl; [|done]. intros [= <-]. reflexivity.
    + destruct create; simpl; [|done]. destruct (_ <? 64); simpl; [|done]. intros [= <-].
      apply bumped_evolves; [done|same|done].
Qed.

Lemma finalize_evolves r now :
  is_terminal (t_status r) = false -> evolves r (finalize_record r now).
Proof.
  intros Ht. apply bumped_evolves; [done| |done]. apply same_task_ops; try done.
  simpl. rewrite map_map. done.
Qed.

Lemma retry_evolves r candidate now :
  is_terminal (t_status r) = false -> evolves r (retry_start r candidate now).
Proof.
  intros Ht. unfold retry_start, update_operation_receipt. apply bumped_evolves; [done|same|done].
Qed.

Lemma updated_at_evolves r0 r now :
  evolves r0 r -> is_terminal (t_status r0) = false -> evolves r0 (set_updated_at r now).
Proof.
  intros [] Ht. split; try done. congruence.
Qed.

Lemma make_room_remembered r o : o ∈ remembered (make_room r) <-> o ∈ remembered r.
Proof.
  unfold make_room, remembered. destruct (_ <=? _); [|done].
  destruct (t_operations r) as [|x l] eqn:Ho; [by rewrite Ho|]. simpl. rewrite map_app. simpl.
  rewrite elem_of_cons, !elem_of_app, list_elem_of_singleton. tauto.
Qed.

Lemma accept_remembers r op fp action o :
  o ∈ remembered (accept_operation r op fp action) <-> o = op \/ o ∈ remembered r.
Proof.
  unfold accept_operation. set (r1 := make_room (bump r)).
  assert (o ∈ remembered r1 <-> o ∈ remembered r) as <-.
  { unfold r1. rewrite make_room_remembered. done. }
  unfold remembered. simpl. rewrite map_app. simpl.
  rewrite !elem_of_app, list_elem_of_singleton. tauto.
Qed.

Lemma make_room_same r :
  t_task_id (make_room r) = t_task_id r /\ t_owner (make_room r) = t_owner r
  /\ t_scope_cwd (make_room r) = t_scope_cwd r /\ t_revision (make_room r) = t_revision r.
Proof. unfold make_room. destruct (_ <=? _); [|done]. by destruct (t_operations r). Qed.

Lemma accept_evolves r op fp action :
  is_terminal (t_status r) = false -> evolves r (accept_operation r op fp action).
Proof.
  intros Ht. destruct (make_room_same (bump r)) as (Hid & Ho & Hs & Hr).
  apply bumped_evolves; [done| |exact Hr].
  split; [exact Hid|exact Ho|exact Hs|].
  intros o Hin. apply (accept_remembers r op fp action o). by right.
Qed.
(** * Files *)

Lemma path_inj id id' : path id = path id' -> id = id'.
Proof.
  unfold path. intros Hp. apply (f_equal (str_strip_suffix ".json")) in Hp.
  rewrite !str_strip_suffix_app in Hp. injection Hp as Hp.
  apply (f_equal uuid_parse_str) in Hp. rewrite !uuid_parse_to_string in Hp. by injection Hp.
Qed.

Lemma task_file_path id : task_file (path id) = Some id.
Proof.
  unfold task_file, path. rewrite str_strip_suffix_app. simpl. apply uuid_parse_to_string.
Qed.

(** Files may have gone, none has changed. *)
Definition shrinks (files files' : gmap string string) : Prop := files' ⊆ files.

Section Environment.
Context (canonical_directory : string -> result TaskError string)
  (read_dir : gmap string string -> list string)
  (lock_error write_error : Uuid -> option string)
  (remove_outcome : string -> RemoveOutcome) (runtimes : Uuid -> option RuntimeHandle).

#[local] Notation prune_entry :=
  (Tasks.prune_entry canonical_directory lock_error remove_outcome runtimes).
#[local] Notation prune_entries :=
  (Tasks.prune_entries canonical_directory lock_error remove_outcome runtimes).
#[local] Notation prune_locked :=
  (Tasks.prune_locked canonical_directory read_dir lock_error remove_outcome runtimes).
#[local] Notation save_locked :=
  (Tasks.save_locked canonical_directory read_dir lock_error write_error remove_outcome runtimes).

Lemma prune_entry_files s s' current now name res :
  prune_entry s current now name = (s', res) ->
  s_leases s' = s_leases s /\ (s_files s' = s_files s \/ s_files s' = delete name (s_files s)).
Proof.
  unfold Tasks.prune_entry.
  destruct (task_file name) as [id|]; [|intros [= <- <-]; auto].
  destruct (read_record _ s id) as [r|e]; [|intros [= <- <-]; auto].
  destruct (if runtime_matches_record _ r then _ else _) as [backed|e]; [|intros [= <- <-]; auto].
  destruct (_ && _); [|intros [= <- <-]; auto].
  destruct (remove_outcome name); intros [= <- <-]; simpl; auto.
Qed.

Lemma prune_entries_files s s' current now count scoped names res :
  prune_entries s current now count scoped names = (s', res) ->
  s_leases s' = s_leases s /\ shrinks (s_files s) (s_files s').
Proof.
  unfold shrinks. revert s count scoped.
  induction names as [|name names IH]; intros s count scoped; simpl; [by intros [= <- <-]|].
  destruct (_ <? _); [by intros [= <- <-]|].
  destruct (Tasks.prune_entry _ _ _ _ s current now name) as [s1 [[id|]|e]] eqn:E;
    apply prune_entry_files in E as [Hl Hf];
    (assert (s_files s1 ⊆ s_files s) as Hs
       by (destruct Hf as [-> | ->]; [done|apply delete_subseteq])).
  - intros [Hl' Hs']%IH. split; [congruence|by etrans].
  - intros [Hl' Hs']%IH. split; [congruence|by etrans].
  - by intros [= <- <-].
Qed.

Lemma prune_locked_files s s' current now res :
  prune_locked s current now = (s', res) ->
  s_leases s' = s_leases s /\ shrinks (s_files s) (s_files s').
Proof.
  unfold Tasks.prune_locked.
  destruct (Tasks.prune_entries _ _ _ _ s current now 0 [] _) as [s1 [scoped|e]] eqn:E;
    apply prune_entries_files in E; [|by intros [= <- <-]].
  destruct (_ <? _); by intros [= <- <-].
Qed.

(** What a save leaves: nothing new on an error, and else the record, which is
    valid and fits. *)
Lemma save_locked_files s s' r now res :
  save_locked s r now = (s', res) ->
  s_leases s' = s_leases s
  /\ (res = Ok tt /\ validate_record canonical_directory r = Ok tt
        /\ str_len (task_to_vec_pretty r) <= MAX_TASK_RECORD_BYTES
        /\ (exists files, shrinks (s_files s) files
              /\ s_files s' = <[path (t_task_id r) := task_to_vec_pretty r]> files)
      \/ is_ok res = false /\ shrinks (s_files s) (s_files s')).
Proof.
  unfold Tasks.save_locked.
  destruct (validate_record canonical_directory r) as [[]|e] eqn:Hv;
    [|intros [= <- <-]; split; [done|right; split; [done|unfold shrinks; reflexivity]]].
  destruct (Tasks.prune_locked _ _ _ _ _ s r now) as [s1 [[]|e]] eqn:E;
    apply prune_locked_files in E as [Hl Hs]; [|intros [= <- <-]; split; [done|by right]].
  unfold write_record_locked.
  destruct (Z.leb_spec (str_len (task_to_vec_pretty r)) MAX_TASK_RECORD_BYTES); simpl;
    [|intros [= <- <-]; split; [done|by right]].
  destruct (write_error (t_task_id r)); intros [= <- <-]; simpl; (split; [done|]); [by right|left].
  split_and!; eauto.
Qed.

Lemma read_record_Ok s id r :
  read_record canonical_directory s id = Ok r ->
  exists bytes, s_files s !! path id = Some bytes /\ task_from_slice bytes = Some r
    /\ t_task_id r = id /\ validate_record canonical_directory r = Ok tt.
Proof.
  unfold read_record. destruct (s_files s !! path id) as [bytes|]; simpl; [|done].
  destruct (_ <=? _); simpl; [|done]. destruct (task_from_slice bytes) as [r0|] eqn:Hb; simpl; [|done].
  destruct (validate_record canonical_directory r0) as [[]|] eqn:Hv; simpl; [|done].
  case_bool_decide; simpl; [|done]. intros [= <-]. by exists bytes.
Qed.

Lemma load_locked_Ok s session id r :
  load_locked canonical_directory s session id = Ok r ->
  read_record canonical_directory s id = Ok r.
Proof. unfold load_locked. intros H. by inv_ok. Qed.
(** * One task through a step *)

(** The store wrote the file of [id]. *)
Definition written s id r : Prop :=
  s_files s !! path id = Some (task_to_vec_pretty r)
  /\ str_len (task_to_vec_pretty r) <= MAX_TASK_RECORD_BYTES.

(** The task is gone, or its record has evolved. *)
Definition after s id r : Prop :=
  s_files s !! path id = None \/ exists r', written s id r' /\ evolves r r'.

Lemma written_after s id r : written s id r -> after s id r.
Proof. intros Hw. right. exists r. split; [done|reflexivity]. Qed.

Lemma shrinks_after s s' id r :
  shrinks (s_files s) (s_files s') -> after s id r -> after s' id r.
Proof.
  unfold shrinks. intros Hs [Hn|(r' & [Hf Hl] & He)].
  - left. by eapply lookup_weaken_None.
  - destruct (s_files s' !! path id) as [b|] eqn:Hb; [|by left].
    right. exists r'. split; [|done]. split; [|done]. rewrite Hb.
    rewrite <- Hf. symmetry. by eapply lookup_weaken.
Qed.

Lemma written_read s id r r0 :
  written s id r -> read_record canonical_directory s id = Ok r0 -> r0 = r.
Proof.
  intros [Hf _] (b & Hb & Hs & _)%read_record_Ok. rewrite Hf in Hb. injection Hb as <-.
  rewrite task_round_trip in Hs. by injection Hs.
Qed.

(** Writing a record that evolved from the one in its file. *)
Lemma write_after s id r files r0 r1 :
  after s id r -> read_record canonical_directory s (t_task_id r0) = Ok r0 ->
  (written s (t_task_id r0) r0 -> evolves r0 r1) -> t_task_id r1 = t_task_id r0 ->
  str_len (task_to_vec_pretty r1) <= MAX_TASK_RECORD_BYTES ->
  shrinks (s_files s) files -> forall leases,
  after (mkStore (<[path (t_task_id r1) := task_to_vec_pretty r1]> files) leases) id r.
Proof.
  unfold shrinks. intros Ha Hread Hev Hid Hl Hs leases.
  destruct (decide (id = t_task_id r0)) as [->|Hne].
  - destruct Ha as [Hn|(r' & Hw & He)].
    + apply read_record_Ok in Hread as (b & Hb & _). congruence.
    + pose proof (written_read _ _ _ _ Hw Hread) as ->. right. exists r1. split.
      * split; [|done]. simpl. rewrite Hid. apply lookup_insert_eq.
      * etrans; [exact He|by apply Hev].
  - assert (path (t_task_id r1) <> path id) as Hp by (rewrite Hid; intros ?%path_inj; congruence).
    apply (shrinks_after (mkStore (s_files s) leases) (mkStore files leases)) in Ha; [|done].
    destruct Ha as [Hn|(r' & [Hf Hl'] & He)]; simpl in *.
    + left. simpl. by rewrite lookup_insert_ne.
    + right. exists r'. split; [|done]. split; [|done]. simpl. by rewrite lookup_insert_ne.
Qed.

Lemma save_after s s' id r r0 r1 now res :
  after s id r -> read_record canonical_directory s (t_task_id r0) = Ok r0 ->
  (written s (t_task_id r0) r0 -> evolves r0 r1) -> t_task_id r1 = t_task_id r0 ->
  save_locked s r1 now = (s', res) -> after s' id r.
Proof.
  intros Ha Hread Hev Hid Hsave. apply save_locked_files in Hsave as [_ [(_ & _ & Hl & files & Hs & Hf)|[_ Hs]]].
  - pose proof (write_after s id r files r0 r1 Ha Hread Hev Hid Hl Hs (s_leases s')) as H.
    rewrite <- Hf in H. by destruct s'.
  - by eapply shrinks_after.
Qed.

Lemma finalize_after s s' id r owner now now' count o names res :
  finalize_entries canonical_directory read_dir lock_error write_error remove_outcome runtimes
    s owner now now' count o names = (s', res) ->
  after s id r -> after s' id r.
Proof.
  revert s count o. induction names as [|name names IH]; intros s count o; simpl; [by intros [= <- <-]|].
  destruct (_ <? _); [by intros [= <- <-]|].
  destruct (task_file name) as [id0|]; [|by apply IH].
  destruct (read_record canonical_directory s id0) as [r0|e] eqn:Hread;
    [|destruct (is_not_found e); [by apply IH|by intros [= <- <-]]].
  case_bool_decide; simpl; [|by apply IH].
  destruct (runtime_lease_held_locked _ s _) as [[]|e]; [by apply IH| |by intros [= <- <-]].
  destruct (is_terminal (t_status r0)) eqn:Ht; [by apply IH|].
  pose proof (read_record_Ok _ _ _ Hread) as (_ & _ & _ & Hid & _).
  destruct (Tasks.save_locked _ _ _ _ _ _ s (finalize_record r0 now) now') as [s1 res1] eqn:E.
  intros Hf Ha.
  assert (after s1 id r) as Ha1.
  { apply (save_after s s1 id r r0 (finalize_record r0 now) now' res1); [done|by rewrite Hid| |done|exact E].
    intros _. by apply finalize_evolves. }
  destruct res1; [by eapply IH|]. by injection Hf as <- <-.
Qed.

Lemma acquire_files s s' id res :
  acquire_lease lock_error s id = (s', res) -> s_files s' = s_files s.
Proof.
  unfold acquire_lease, try_acquire_runtime_lease_locked. destruct (lock_error id); [by intros [= <- <-]|].
  case_bool_decide; by intros [= <- <-].
Qed.

Lemma after_files s s' id r : s_files s' = s_files s -> after s id r -> after s' id r.
Proof. intros Hf. apply shrinks_after. unfold shrinks. by rewrite Hf. Qed.

Lemma read_files s s' id :
  s_files s' = s_files s ->
  read_record canonical_directory s' id = read_record canonical_directory s id.
Proof. intros Hf. unfold read_record. by rewrite Hf. Qed.

Lemma start_after s s' id r session scope q now now1 now2 res :
  accept_start_locked canonical_directory read_dir lock_error write_error remove_outcome runtimes
    s session (start_record session scope q now) now1 now2 = (s', res) ->
  (start_accepted res = true -> sr_task_id q <> id \/ exists r0,
     read_record canonical_directory s (sr_task_id q) = Ok r0) ->
  after s id r -> after s' id r.
Proof.
  unfold accept_start_locked. simpl. intros Hacc Hnew Ha.
  destruct (read_record canonical_directory s (sr_task_id q)) as [r0|e] eqn:Hread.
  - destruct (ensure_task_owner _ _ _) as [[]|e]; [|by injection Hacc as <- <-].
    destruct (start_retryable r0 _) eqn:Hretry; [|by injection Hacc as <- <-].
    destruct (acquire_lease lock_error s (t_task_id r0)) as [s1 [[]|e]] eqn:E1;
      apply acquire_files in E1; [|injection Hacc as <- <-; by eapply after_files].
    destruct (Tasks.save_locked _ _ _ _ _ _ s1 _ now2) as [s2 res2] eqn:E2.
    pose proof (read_record_Ok _ _ _ Hread) as (_ & _ & _ & Hid & _).
    assert (is_terminal (t_status r0) = false) as Ht.
    { unfold start_retryable in Hretry. destruct (find_receipt r0 _); [|done]. simpl in Hretry.
      rewrite !andb_true_iff, !bool_decide_eq_true in Hretry.
      destruct Hretry as [[_ ->] _]. done. }
    assert (after s2 id r) as Ha2.
    { apply (save_after s1 s2 id r r0 _ now2 res2) in E2; [exact E2|by eapply after_files| | |done].
      - by rewrite Hid, (read_files s s1).
      - intros _. by apply retry_evolves. }
    destruct res2; injection Hacc as <- <-; [done|by apply (after_files s2)].
  - destruct (is_not_found e); [|by injection Hacc as <- <-].
    destruct (acquire_lease lock_error s (sr_task_id q)) as [s1 [[]|e1]] eqn:E1;
      apply acquire_files in E1; [|injection Hacc as <- <-; by eapply after_files].
    destruct (Tasks.save_locked _ _ _ _ _ _ s1 _ now2) as [s2 res2] eqn:E2.
    apply save_locked_files in E2 as [_ [(-> & _ & _ & files & Hs & Hf)|[Hok Hs]]].
    + injection Hacc as <- <-. destruct (Hnew eq_refl) as [Hne|[r0 Hr0]]; [|congruence].
      rewrite E1 in Hs.
      pose proof (shrinks_after s (mkStore files ∅) id r Hs Ha) as Ha'.
      assert (path (sr_task_id q) <> path id) as Hp by (by intros ?%path_inj).
      unfold after, written in *. simpl in *. rewrite Hf. by rewrite lookup_insert_ne.
    + destruct res2 as [[]|]; [done|]. injection Hacc as <- <-.
      apply (after_files s2); [done|]. rewrite E1 in Hs. by eapply shrinks_after.
Qed.

Lemma control_after s s' id r session id0 op fp action now2 res :
  accept_control_locked canonical_directory read_dir lock_error write_error remove_outcome
    runtimes s session id0 op fp action now2 = (s', res) ->
  after s id r -> after s' id r.
Proof.
  unfold accept_control_locked. intros Hacc Ha.
  destruct (load_locked canonical_directory s session id0) as [r0|e] eqn:Hload;
    [|by injection Hacc as <- <-].
  apply load_locked_Ok in Hload. pose proof (read_record_Ok _ _ _ Hload) as (_ & _ & _ & Hid & _).
  destruct (known_operation r0 op fp) as [[v|e]|]; [by injection Hacc as <- <-..|].
  destruct (control_allowed r0 action) as [[]|e] eqn:Hallow; [|by injection Hacc as <- <-].
  assert (is_terminal (t_status r0) = false) as Ht.
  { unfold control_allowed in Hallow. destruct (String.eqb action "resume"), (t_status r0); done. }
  destruct (if negb _ then _ else _) as [s1 [[]|e]] eqn:E1.
  - assert (s_files s1 = s_files s) as Hf1.
    { destruct (negb _); [by eapply acquire_files|by injection E1 as <-]. }
    destruct (Tasks.save_locked _ _ _ _ _ _ s1 _ now2) as [s2 res2] eqn:E2.
    apply (save_after s1 s2 id r r0 _ now2 res2) in E2; [|by eapply after_files| | |].
    + destruct res2; injection Hacc as <- <-; [done|]. destruct (negb _); [|done].
      by apply (after_files s2).
    + by rewrite Hid, (read_files s s1).
    + intros _. by apply accept_evolves.
    + apply (make_room_same (bump r0)).
  - injection Hacc as <- <-. destruct (negb _); [|done]. apply acquire_files in E1.
    by eapply after_files.
Qed.

(** What an accepted control knew, and what it wrote. *)
Lemma control_remembers s s' session id op fp action now2 res :
  accept_control_locked canonical_directory read_dir lock_error write_error remove_outcome
    runtimes s session id op fp action now2 = (s', res) ->
  control_accepted res = true ->
  exists r r', read_record canonical_directory s id = Ok r /\ op ∉ remembered r
    /\ written s' id r' /\ op ∈ remembered r'.
Proof.
  unfold accept_control_locked. intros Hacc Hok.
  destruct (load_locked canonical_directory s session id) as [r0|e] eqn:Hload;
    [|by injection Hacc as <- <-].
  apply load_locked_Ok in Hload. pose proof (read_record_Ok _ _ _ Hload) as (_ & _ & _ & Hid & _).
  destruct (known_operation r0 op fp) as [[v|e]|] eqn:Hk; [by injection Hacc as <- <-..|].
  destruct (control_allowed r0 action) as [[]|e]; [|by injection Hacc as <- <-].
  destruct (if negb _ then _ else _) as [s1 [[]|e]] eqn:E1; [|by injection Hacc as <- <-].
  destruct (Tasks.save_locked _ _ _ _ _ _ s1 _ now2) as [s2 res2] eqn:E2.
  apply save_locked_files in E2 as [_ [(-> & _ & Hl & files & _ & Hf)|[Hbad _]]];
    [|destruct res2 as [[]|]; [done|by injection Hacc as <- <-]].
  injection Hacc as <- <-. exists r0, (accept_operation r0 op fp action). split_and!; [done| | |].
  - unfold known_operation, find_receipt, find_tombstone in Hk. unfold remembered.
    destruct (List.find _ (t_operations r0)) eqn:H1; [done|].
    destruct (List.find _ (t_operation_tombstones r0)) eqn:H2; [done|].
    rewrite elem_of_app. intros [Hin|Hin]; apply elem_of_map_inv in Hin as (x & Hx & Heq);
      apply list_elem_of_In in Hx; subst op.
    + apply (List.find_none _ _ H1) in Hx. unfold has_operation in Hx.
      by rewrite bool_decide_true in Hx.
    + apply (List.find_none _ _ H2) in Hx. by rewrite bool_decide_true in Hx.
  - split; [|exact Hl]. rewrite Hf.
    replace (t_task_id (accept_operation r0 op fp action)) with id; [by rewrite lookup_insert_eq|].
    rewrite <- Hid. symmetry. apply (make_room_same (bump r0)).
  - apply accept_remembers. by left.
Qed.

Lemma update_after s s' id r session id0 edit now1 now2 res :
  (forall r0, load_locked canonical_directory s session id0 = Ok r0 -> forall r1,
     edit r0 = Ok r1 -> written s id0 r0 -> evolves r0 r1) ->
  (forall r0, load_locked canonical_directory s session id0 = Ok r0 -> forall r1,
     edit r0 = Ok r1 -> t_task_id r1 = t_task_id r0
     /\ (is_terminal (t_status r0) = true -> r1 = r0)) ->
  update canonical_directory read_dir lock_error write_error remove_outcome runtimes
    s session id0 edit now1 now2 = (s', res) ->
  after s id r -> after s' id r.
Proof.
  unfold update. intros Hev Hid1 Hup Ha.
  destruct (load_locked canonical_directory s session id0) as [r0|e] eqn:Hload;
    [|by injection Hup as <- <-].
  specialize (Hev r0 eq_refl). specialize (Hid1 r0 eq_refl).
  apply load_locked_Ok in Hload. pose proof (read_record_Ok _ _ _ Hload) as (_ & _ & _ & Hid & _).
  destruct (edit r0) as [r1|e] eqn:He; [|by injection Hup as <- <-].
  destruct (Hid1 r1 eq_refl) as [Hsame Hfix]. unfold save_if_changed in Hup.
  destruct (String.eqb_spec (task_to_vec r1) (task_to_vec r0)) as [|Hch];
    [by injection Hup as <- <-|].
  assert (is_terminal (t_status r0) = false) as Ht.
  { destruct (is_terminal (t_status r0)) eqn:Ht; [|done]. by rewrite Hfix in Hch. }
  destruct (Tasks.save_locked _ _ _ _ _ _ s _ now2) as [s1 res1] eqn:E.
  apply (save_after s s1 id r r0 _ now2 res1) in E; [|done|by rewrite Hid| |done].
  - destruct res1; by injection Hup as <- <-.
  - intros Hw. apply updated_at_evolves; [|done]. apply (Hev r1); [done|by rewrite <- Hid].
Qed.

Lemma summary_after s s' id r registry young session id0 rid osid epoch observation now1 now2 res :
  update_pending_interaction_summary canonical_directory write_error runtimes registry young s
    session id0 rid osid epoch observation now1 now2 = (s', res) ->
  after s id r -> after s' id r.
Proof.
  unfold update_pending_interaction_summary. intros Hup Ha.
  destruct (negb _); [by injection Hup as <- <-|].
  destruct (load_locked canonical_directory s session id0) as [r0|e] eqn:Hload;
    [|by injection Hup as <- <-].
  apply load_locked_Ok in Hload. pose proof (read_record_Ok _ _ _ Hload) as (_ & _ & _ & Hid & _).
  destruct (is_terminal (t_status r0)) eqn:Ht; [by injection Hup as <- <-|]. simpl in Hup.
  destruct (_ || _); [by injection Hup as <- <-|].
  destruct (observed_summary r0 observation epoch now2) as [summary|]; [|by injection Hup as <- <-].
  destruct (save_metadata_locked _ _ _ _) as [s1 res1] eqn:E.
  assert (after s1 id r); [|by destruct res1; injection Hup as <- <-].
  revert E. unfold save_metadata_locked, write_record_locked.
  destruct (validate_record _ _); [|by intros [= <- <-]].
  destruct (Z.leb_spec (str_len (task_to_vec_pretty
    (set_pending_interaction_summary r0 (Some summary)))) MAX_TASK_RECORD_BYTES); simpl;
    [|by intros [= <- <-]].
  destruct (write_error (t_task_id r0)); [by intros [= <- <-]|]. intros [= <- <-].
  refine (write_after s id r (s_files s) r0
            (set_pending_interaction_summary r0 (Some summary)) Ha _ _ eq_refl H _ _);
    [by rewrite Hid| |by unfold shrinks].
  intros _. apply kept_evolves; [done| |done|apply view_summary]. by apply same_task_ops.
Qed.
End Environment.

(** * Runs *)

(** The label is a start of [id] that the store accepted. *)
Definition restarts id (l : TaskLabel) : Prop :=
  exists session scope q, l = TlStart session scope q true /\ sr_task_id q = id.

Lemma edit_same_id (e : Edit) r r' :
  apply_edit e r = Some (Ok r') ->
  t_task_id r' = t_task_id r /\ (is_terminal (t_status r) = true -> r' = r).
Proof.
  intros He. split.
  - revert He. destruct e; simpl; unfold unless_terminal;
      try (intros [= <-]; by destruct (is_terminal (t_status r))).
    + destruct (is_terminal (t_status r)); [by intros [= <-]|].
      destruct (is_none_or _ _); simpl; [by intros [= <-]|done].
    + intros [= <-]. destruct (is_terminal (t_status r)); [done|]. unfold start_running.
      by destruct (t_status r).
    + intros [= <-]. destruct (is_terminal (t_status r)); [done|]. by case_bool_decide.
    + intros [= <-]. destruct (is_terminal (t_status r)); [done|]. unfold reconcile_failed.
      by destruct (_ || _).
    + intros [= <-]. destruct (is_terminal (t_status r)); [done|]. simpl.
      unfold require_reconciliation. by case_bool_decide.
    + intros [= <-]. destruct (is_terminal (t_status r)); [done|]. simpl.
      unfold require_reconciliation. by case_bool_decide.
    + unfold apply_derived_edit. destruct (is_terminal (t_status r)); [by intros [= <-]|].
      intros ((raw & t & ->) & _)%fit_same.
      rewrite <- (st_task_id _ _ (derived_same_task d r)).
      generalize (apply_derived_fields r d). intros r1.
      destruct (is_terminal (ds_status d)), (derived_changed r1 r); done.
    + unfold retain_private_check_receipt. destruct (private_record_matches _ _ _); simpl; [|done].
      destruct (List.find _ _) as [receipt|]; simpl.
      * destruct (_ && _); simpl; [by intros [= <-]|done].
      * destruct create; simpl; [|done]. destruct (_ <? 64); simpl; [by intros [= <-]|done].
  - intros Ht. revert He.
    destruct e; simpl; unfold unless_terminal, apply_derived_edit; rewrite ?Ht; try congruence.
    unfold retain_private_check_receipt, private_record_matches.
    destruct (t_status r); try done; rewrite andb_false_r; done.
Qed.

Lemma step_after s s' (l : TaskLabel) id r :
  task_step s l s' -> ~ restarts id l -> after s id r -> after s' id r.
Proof.
  intros Hs Hno Ha. destruct Hs.
  - eapply start_after; [eassumption| |done]. intros Hok. left. intros <-. apply Hno.
    rewrite Hok. by exists session, scope, q.
  - by eapply control_after.
  - eapply update_after; [| |eassumption|done].
    + intros r0 Hl r1 He [_ Hsize]. specialize (H r0 Hl). rewrite He in H. by eapply edit_evolves.
    + intros r0 Hl r1 He. specialize (H r0 Hl). rewrite He in H. by eapply edit_same_id.
  - by eapply summary_after.
  - revert H. unfold load_for_reconciliation.
    destruct (load_locked _ s session id0); [|by intros [= <- <-]].
    destruct (runtime_matches_record _ _); [by intros [= <- <-]|].
    unfold try_acquire_runtime_lease_locked. destruct (env_lock_error env id0); [by intros [= <- <-]|].
    case_bool_decide; intros [= <- <-]; [done|by apply (after_files s)].
  - unfold finalize_owner in H. eapply finalize_after; [exact H|done].
  - by apply (after_files s).
Qed.


Lemma kept_run_task_run id s s' tr : kept_run id s tr s' -> task_run s tr s'.
Proof. induction 1; [constructor|econstructor; eauto]. Qed.

End TasksTheorems.
