(* ===== verification/TaskLimits.v ===== *)
(** * The OpenCode task store: limits, endings and failures

    No scope holds more tasks than its limit; a finished finalization leaves no
    task of its session running.  And four things the code does not do: record
    an over-long error, fit a record whose metadata is too large, start a failed
    task again, and end or expire a task whose directory went away. *)

From S2P Require Import Prelude Strings Utf8 Json Value Outcome PendingInteraction Lifecycle.
From S2P Require Import ReportContract TaskRecord Derive Tasks TasksTheorems.

#[local] Open Scope Z_scope.
#[local] Open Scope rust_scope.

Section TaskLimits.
Context `{UU : UuidLib, SJ : SerdeJson, TC : !TaskCodec, UL : !UuidLaws, TL : !TaskCodecLaws}.

Implicit Types (s : Store) (r : TaskRecord) (id : Uuid).

(** * The records of a scope *)

Definition in_scope (owner : SessionInstance) (scope bytes : string) : bool :=
  is_some_and (fun r => bool_decide (t_owner r = owner) && String.eqb (t_scope_cwd r) scope)
    (task_from_slice bytes).

Definition scope_files (files : gmap string string) (owner : SessionInstance) (scope : string) :
    gmap string string :=
  filter (fun kv => in_scope owner scope kv.2 = true) files.

(** A record the store could have written: valid wherever its scope is. *)
Definition storable r : Prop :=
  forall canonical, canonical (t_scope_cwd r) = Ok (t_scope_cwd r) ->
    validate_record canonical r = Ok tt.

Definition files_ok (files : gmap string string) : Prop :=
  forall name bytes r, files !! name = Some bytes -> task_from_slice bytes = Some r ->
    name = path (t_task_id r) /\ str_len bytes <= MAX_TASK_RECORD_BYTES /\ storable r.

Definition scope_bounded (files : gmap string string) : Prop :=
  forall owner scope, Z.of_nat (size (scope_files files owner scope)) <= MAX_TASKS_PER_SCOPE.

Definition store_ok s : Prop := files_ok (s_files s) /\ scope_bounded (s_files s).

Lemma validate_storable canonical r : validate_record canonical r = Ok tt -> storable r.
Proof.
  intros Hv c Hc. revert Hv. unfold validate_record.
  destruct (ensure (t_schema_version r =? _) _); simpl; [|done].
  destruct (map_err _ _); simpl; [|done].
  destruct (canonical (t_scope_cwd r)) as [x|]; simpl; [|done].
  destruct (String.eqb_spec x (t_scope_cwd r)); simpl; [|done].
  rewrite Hc. simpl. by rewrite String.eqb_refl.
Qed.

Lemma validate_canonical canonical r :
  validate_record canonical r = Ok tt -> canonical (t_scope_cwd r) = Ok (t_scope_cwd r).
Proof.
  unfold validate_record.
  destruct (ensure (t_schema_version r =? _) _); simpl; [|done].
  destruct (map_err _ _); simpl; [|done].
  destruct (canonical (t_scope_cwd r)) as [x|]; simpl; [|done].
  destruct (String.eqb_spec x (t_scope_cwd r)) as [->|]; simpl; done.
Qed.

Lemma validate_set_summary canonical r summary :
  validate_record canonical (set_pending_interaction_summary r summary) = Ok tt ->
  t_scope_cwd (set_pending_interaction_summary r summary) = t_scope_cwd r.
Proof. done. Qed.

Lemma in_scope_written r :
  in_scope (t_owner r) (t_scope_cwd r) (task_to_vec_pretty r) = true.
Proof.
  unfold in_scope. rewrite task_round_trip. simpl.
  by rewrite bool_decide_true, String.eqb_refl.
Qed.

Lemma in_scope_other r owner scope :
  in_scope owner scope (task_to_vec_pretty r) = true -> owner = t_owner r /\ scope = t_scope_cwd r.
Proof.
  unfold in_scope. rewrite task_round_trip. simpl.
  rewrite andb_true_iff, bool_decide_eq_true, String.eqb_eq. naive_solver.
Qed.

Lemma scope_files_mono (files files' : gmap string string) owner scope :
  files' ⊆ files -> (size (scope_files files' owner scope) <= size (scope_files files owner scope))%nat.
Proof. intros Hs. by apply map_subseteq_size, map_filter_subseteq_mono. Qed.

Lemma files_ok_mono (files files' : gmap string string) :
  files' ⊆ files -> files_ok files -> files_ok files'.
Proof. intros Hs Hok name bytes r Hf. apply Hok. by eapply lookup_weaken. Qed.

Lemma files_ok_write (files : gmap string string) r :
  files_ok files -> storable r -> str_len (task_to_vec_pretty r) <= MAX_TASK_RECORD_BYTES ->
  files_ok (<[path (t_task_id r) := task_to_vec_pretty r]> files).
Proof.
  intros Hok Hs Hl name bytes r0 [[<- <-]|[_ Hf]]%lookup_insert_Some Hd; [|by eapply Hok].
  rewrite task_round_trip in Hd. injection Hd as <-. done.
Qed.

(** Writing a record counts for its own scope only. *)
Lemma scope_files_write (files : gmap string string) r owner scope :
  ~ (owner = t_owner r /\ scope = t_scope_cwd r) ->
  (size (scope_files (<[path (t_task_id r) := task_to_vec_pretty r]> files) owner scope)
   <= size (scope_files files owner scope))%nat.
Proof.
  intros Hne. apply map_subseteq_size. unfold scope_files. apply map_subseteq_spec.
  intros k b [[[<- <-]|[Hk Hf]]%lookup_insert_Some Hin]%map_lookup_filter_Some; simpl in Hin.
  - by apply in_scope_other in Hin.
  - by apply map_lookup_filter_Some.
Qed.

Section Environment.
Context (canonical_directory : string -> result TaskError string)
  (read_dir : gmap string string -> list string)
  (read_dir_lists : forall files, read_dir files ≡ₚ map fst (map_to_list files))
  (lock_error write_error : Uuid -> option string)
  (remove_outcome : string -> RemoveOutcome) (runtimes : Uuid -> option RuntimeHandle).

#[local] Notation prune_entry :=
  (Tasks.prune_entry canonical_directory lock_error remove_outcome runtimes).
#[local] Notation prune_entries :=
  (Tasks.prune_entries canonical_directory lock_error remove_outcome runtimes).
#[local] Notation save_locked :=
  (Tasks.save_locked canonical_directory read_dir lock_error write_error remove_outcome runtimes).

Lemma read_stored s id bytes r :
  files_ok (s_files s) -> s_files s !! path id = Some bytes -> task_from_slice bytes = Some r ->
  canonical_directory (t_scope_cwd r) = Ok (t_scope_cwd r) ->
  read_record canonical_directory s id = Ok r.
Proof.
  intros Hok Hf Hd Hc. destruct (Hok _ _ _ Hf Hd) as (Hp & Hl & Hs). apply path_inj in Hp as ->.
  unfold read_record. rewrite Hf. simpl. rewrite (proj2 (Z.leb_le _ _) Hl). simpl.
  rewrite Hd. simpl. rewrite (Hs _ Hc). simpl. by rewrite bool_decide_true.
Qed.

(** A file of the current record's scope that a pass leaves is counted. *)
Lemma prune_entry_counts s s' current now name res :
  files_ok (s_files s) ->
  canonical_directory (t_scope_cwd current) = Ok (t_scope_cwd current) ->
  prune_entry s current now name = (s', Ok res) ->
  forall bytes, s_files s' !! name = Some bytes ->
    in_scope (t_owner current) (t_scope_cwd current) bytes = true ->
    exists id, res = Some id /\ name = path id.
Proof.
  intros Hok Hc Hp bytes Hf Hin. unfold Tasks.prune_entry in Hp.
  unfold in_scope in Hin. destruct (task_from_slice bytes) as [r0|] eqn:Hd; [|done]. simpl in Hin.
  rewrite andb_true_iff, bool_decide_eq_true, String.eqb_eq in Hin. destruct Hin as [Ho Hs].
  assert (s_files s !! name = Some bytes) as Hf0.
  { apply prune_entry_files in Hp as [_ [Heq|Heq]]; rewrite Heq in Hf; [done|].
    by apply lookup_delete_Some in Hf as [_ Hf]. }
  destruct (Hok _ _ _ Hf0 Hd) as (Hname & _ & _). subst name.
  rewrite task_file_path in Hp.
  rewrite (read_stored s _ _ _ Hok Hf0 Hd) in Hp by congruence.
  destruct (if runtime_matches_record _ _ then _ else _) as [backed|]; [|done].
  destruct (_ && _) eqn:Hexp.
  - destruct (remove_outcome _); [|done..]. injection Hp as <- <-. simpl in Hf.
    by rewrite lookup_delete_eq in Hf.
  - injection Hp as <- <-. exists (t_task_id r0). split; [|done].
    unfold same_scope. by rewrite Ho, Hs, bool_decide_true, String.eqb_refl.
Qed.

Lemma prune_entries_counts s s' current now count scoped names scoped' :
  files_ok (s_files s) ->
  canonical_directory (t_scope_cwd current) = Ok (t_scope_cwd current) ->
  prune_entries s current now count scoped names = (s', Ok scoped') ->
  (forall id, id ∈ scoped -> id ∈ scoped')
  /\ forall name bytes, name ∈ names -> s_files s' !! name = Some bytes ->
       in_scope (t_owner current) (t_scope_cwd current) bytes = true ->
       exists id, id ∈ scoped' /\ name = path id.
Proof.
  intros Hok Hc. revert s count scoped Hok.
  induction names as [|name names IH]; intros s count scoped Hok; simpl.
  { intros [= <- <-]. split; [done|]. by intros ? ? ?%not_elem_of_nil. }
  destruct (_ <? _); [done|].
  destruct (Tasks.prune_entry _ _ _ _ s current now name) as [s1 [o|e]] eqn:E; [|done].
  pose proof (prune_entry_counts _ _ _ _ _ _ Hok Hc E) as Hcount.
  apply prune_entry_files in E as [_ Hf1].
  assert (s_files s1 ⊆ s_files s) as Hs1.
  { destruct Hf1 as [-> | ->]; [done|apply delete_subseteq]. }
  assert (files_ok (s_files s1)) as Hok1 by by eapply files_ok_mono.
  set (scoped1 := match o with Some id => scoped ++ [id] | None => scoped end).
  intros Hrest. assert (prune_entries s1 current now (count + 1) scoped1 names = (s', Ok scoped'))
    as Hrest' by by destruct o.
  destruct (IH s1 _ _ Hok1 Hrest') as [Hin Hall].
  assert (forall id, id ∈ scoped -> id ∈ scoped') as Hkeep.
  { intros id Hid. apply Hin. unfold scoped1. destruct o; set_solver. }
  split; [done|]. intros n b [->|Hn]%elem_of_cons Hf Hb; [|by eapply Hall].
  apply prune_entries_files in Hrest' as [_ Hs'].
  destruct (Hcount b) as (id & -> & ->); [by eapply lookup_weaken|done|].
  exists id. split; [|done]. apply Hin. unfold scoped1. set_solver.
Qed.

Lemma save_store_ok s s' r now res :
  save_locked s r now = (s', res) -> store_ok s -> store_ok s'.
Proof.
  intros Hsave [Hok Hb]. unfold Tasks.save_locked in Hsave.
  destruct (validate_record canonical_directory r) as [[]|e] eqn:Hv; [|by injection Hsave as <- <-].
  unfold prune_locked in Hsave.
  destruct (Tasks.prune_entries _ _ _ _ s r now 0 [] _) as [s1 res1] eqn:E.
  pose proof (prune_entries_files _ _ _ _ _ _ _ _ _ _ _ _ E) as [_ Hs1].
  assert (store_ok s1) as Hok1.
  { split; [by eapply files_ok_mono|]. intros owner scope. etrans; [|apply (Hb owner scope)].
    apply inj_le. by apply scope_files_mono. }
  destruct res1 as [scoped|e]; [|by injection Hsave as <- <-].
  pose proof (validate_canonical _ _ Hv) as Hc.
  destruct (prune_entries_counts _ _ _ _ _ _ _ _ Hok Hc E) as [_ Hall].
  destruct (Z.ltb_spec MAX_TASKS_PER_SCOPE
    (zlen scoped + (if bool_decide (t_task_id r ∈ scoped) then 0 else 1)));
    [by injection Hsave as <- <-|].
  unfold write_record_locked in Hsave.
  destruct (Z.leb_spec (str_len (task_to_vec_pretty r)) MAX_TASK_RECORD_BYTES); simpl in Hsave;
    [|by injection Hsave as <- <-].
  destruct (write_error (t_task_id r)); [by injection Hsave as <- <-|]. injection Hsave as <- <-.
  split; simpl; [apply files_ok_write; [apply Hok1|by eapply validate_storable|done]|].
  intros owner scope.
  destruct (decide (owner = t_owner r /\ scope = t_scope_cwd r)) as [[-> ->]|Hne].
  - set (files' := scope_files _ _ _).
    set (ids := if bool_decide (t_task_id r ∈ scoped) then scoped else t_task_id r :: scoped).
    assert (Z.of_nat (length ids) <= MAX_TASKS_PER_SCOPE) as Hids.
    { unfold ids, zlen in *. case_bool_decide; simpl; lia. }
    etrans; [|exact Hids]. apply inj_le. rewrite <- length_map_to_list.
    rewrite <- (length_map fst), <- (length_map path ids).
    apply submseteq_length, NoDup_submseteq; [apply NoDup_fst_map_to_list|].
    intros name ([k b] & Hkb & ->)%elem_of_map_inv. simpl.
    apply elem_of_map_to_list in Hkb. unfold files', scope_files in Hkb.
    apply map_lookup_filter_Some in Hkb as [[[<- _]|[_ Hf]]%lookup_insert_Some Hin]; simpl in Hin.
    + apply elem_of_map. unfold ids. case_bool_decide; [done|set_solver].
    + assert (k ∈ read_dir (s_files s)) as Hk.
      { rewrite read_dir_lists. apply (elem_of_map fst (k, b)), elem_of_map_to_list.
        by eapply lookup_weaken. }
      destruct (Hall k b Hk Hf Hin) as (id & Hid & ->). apply elem_of_map.
      unfold ids. case_bool_decide; [done|set_solver].
  - etrans; [apply inj_le; by apply scope_files_write|]. apply Hok1.
Qed.

(** * Ending the tasks of a session *)

Definition ended s owner id : Prop :=
  forall r, read_record canonical_directory s id = Ok r -> t_owner r = owner ->
    is_terminal (t_status r) = true.

Lemma shrinks_ended s s' owner id :
  s_files s' ⊆ s_files s -> ended s owner id -> ended s' owner id.
Proof.
  intros Hs He r Hr. apply He. revert Hr. unfold read_record.
  destruct (s_files s' !! path id) as [b|] eqn:Hb; simpl; [|done].
  by rewrite (lookup_weaken _ _ _ _ Hb Hs).
Qed.

(** What may be in a file afterwards that was not there before. *)
Definition only_ended s s' owner : Prop :=
  forall name bytes, s_files s' !! name = Some bytes ->
    s_files s !! name = Some bytes
    \/ exists r, bytes = task_to_vec_pretty r /\ t_owner r = owner /\ t_status r = TsInterrupted
         /\ forall receipt, receipt ∈ t_operations r -> or_phase receipt <> PhAccepted.

Lemma finalize_no_accepted r now receipt :
  receipt ∈ t_operations (finalize_record r now) -> or_phase receipt <> PhAccepted.
Proof.
  simpl. intros (x & _ & ->)%elem_of_map_inv. simpl. by case_bool_decide.
Qed.

Lemma finalize_save s s' owner id r now now2 res :
  read_record canonical_directory s id = Ok r -> t_owner r = owner ->
  save_locked s (finalize_record r now) now2 = (s', res) ->
  (forall id', ended s owner id' -> ended s' owner id') /\ (is_ok res = true -> ended s' owner id)
  /\ only_ended s s' owner.
Proof.
  intros Hread Ho Hsave. pose proof (read_record_Ok _ _ _ _ Hread) as (_ & _ & _ & Hid & _).
  apply save_locked_files in Hsave as [_ [(-> & _ & _ & files & Hs & Hf)|[Hok Hs]]].
  - assert (ended s' owner id) as Hend.
    { intros r' (b & Hb & Hd & _)%read_record_Ok _. rewrite Hf in Hb. simpl in Hb.
      rewrite Hid, lookup_insert_eq in Hb. injection Hb as <-. rewrite task_round_trip in Hd.
      by injection Hd as <-. }
    split_and!; [|done|].
    + intros id' He. destruct (decide (id' = id)) as [->|Hne]; [done|].
      intros r' Hr' Ho'. apply (shrinks_ended s (mkStore files ∅) owner id' Hs He r'); [|done].
      revert Hr'. unfold read_record. simpl. rewrite Hf. simpl.
      rewrite lookup_insert_ne; [done|]. rewrite Hid. intros ?%path_inj. congruence.
    + intros name bytes Hn. rewrite Hf in Hn. simpl in Hn.
      apply lookup_insert_Some in Hn as [[_ <-]|[_ Hn]]; [right|left; by eapply lookup_weaken].
      exists (finalize_record r now). split_and!; [done..|]. apply finalize_no_accepted.
  - split_and!; [|congruence|].
    + intros id'. by apply shrinks_ended.
    + intros name bytes Hn. left. by eapply lookup_weaken.
Qed.

Lemma only_ended_trans s1 s2 s3 owner :
  only_ended s1 s2 owner -> only_ended s2 s3 owner -> only_ended s1 s3 owner.
Proof. intros A B name bytes Hb. destruct (B _ _ Hb) as [Hb'|]; [by apply A|by right]. Qed.

Lemma finalize_entries_spec s s' owner now now2 count o o' names :
  finalize_entries canonical_directory read_dir lock_error write_error remove_outcome runtimes
    s owner now now2 count o names = (s', Ok o') ->
  (fo_deferred o = true -> fo_deferred o' = true)
  /\ (forall id, ended s owner id -> ended s' owner id)
  /\ (fo_deferred o' = false -> forall id, path id ∈ names -> ended s' owner id)
  /\ only_ended s s' owner.
Proof.
  revert s count o. induction names as [|name names IH]; intros s count o; simpl.
  { intros [= <- <-]. split_and!; [done|done| |by left]. by intros _ ? ?%not_elem_of_nil. }
  destruct (_ <? _); [done|].
  assert (task_file name = None \/ (exists id, task_file name = Some id /\ ended s owner id) ->
    finalize_entries canonical_directory read_dir lock_error write_error remove_outcome runtimes
      s owner now now2 (count + 1) o names = (s', Ok o') ->
    (fo_deferred o = true -> fo_deferred o' = true)
    /\ (forall id, ended s owner id -> ended s' owner id)
    /\ (fo_deferred o' = false -> forall id, path id ∈ name :: names -> ended s' owner id)
    /\ only_ended s s' owner) as Hnext.
  { intros Hname (Hd & Hk & Hall & Hon)%IH. split_and!; [done|done| |done].
    intros Hdef id [Heq|Hin]%elem_of_cons; [|by apply Hall]. subst name.
    rewrite task_file_path in Hname. destruct Hname as [|(id' & [= <-] & He)]; [done|by apply Hk]. }
  destruct (task_file name) as [id0|] eqn:Hname; [|by apply Hnext; left].
  destruct (read_record canonical_directory s id0) as [r0|e] eqn:Hread.
  2: { destruct (is_not_found e); [|done]. apply Hnext; right. exists id0.
       split; [done|]. intros r Hr. congruence. }
  case_bool_decide as Ho; simpl.
  2: { apply Hnext; right. exists id0. split; [done|]. intros r Hr ?. congruence. }
  destruct (runtime_lease_held_locked _ s _) as [[]|e]; [| |done].
  { intros (Hd & Hk & Hall & Hon)%IH. specialize (Hd eq_refl).
    split_and!; [done|done|congruence|done]. }
  destruct (is_terminal (t_status r0)) eqn:Ht.
  { apply Hnext; right. exists id0. split; [done|]. intros r Hr _. congruence. }
  destruct (Tasks.save_locked _ _ _ _ _ _ s (finalize_record r0 now) now2) as [s1 [[]|e]] eqn:E;
    [|done].
  apply (finalize_save s s1 owner id0) in E as (Hkeep & Hend & Honly); [|done|done].
  intros (Hd & Hk & Hall & Hon)%IH. simpl in Hd. split_and!; [done|by auto| |].
  - intros Hdef id [Heq|Hin]%elem_of_cons; [|by apply Hall]. subst name.
    rewrite task_file_path in Hname. injection Hname as <-. by apply Hk, Hend.
  - by eapply only_ended_trans.
Qed.

(** When finalizing a session succeeds without deferring anything, no task of
    that session the store can read is still open; the only files that changed
    are tasks of that session, now interrupted, with no operation left as
    accepted (others may have expired). *)
Theorem finalize_ends_owner s s' owner now now2 o :
  finalize_owner canonical_directory read_dir lock_error write_error remove_outcome runtimes
    s owner now now2 = (s', Ok o) ->
  fo_deferred o = false ->
  (forall id r, read_record canonical_directory s' id = Ok r -> t_owner r = owner ->
     is_terminal (t_status r) = true)
  /\ forall name bytes, s_files s' !! name = Some bytes ->
       s_files s !! name = Some bytes
       \/ exists r, bytes = task_to_vec_pretty r /\ t_owner r = owner /\ t_status r = TsInterrupted
            /\ forall receipt, receipt ∈ t_operations r -> or_phase receipt <> PhAccepted.
Proof.
  intros Hf Hdef. unfold finalize_owner in Hf.
  apply finalize_entries_spec in Hf as (_ & _ & Hall & Hon). split; [|exact Hon].
  intros id r Hr Ho. pose proof (read_record_Ok _ _ _ _ Hr) as (b & Hb & Hd & _).
  destruct (Hon _ _ Hb) as [Hb0|(r' & -> & _ & Hst & _)].
  - apply (Hall Hdef id); [|done|done]. rewrite read_dir_lists.
    apply (elem_of_map fst (path id, b)). by apply elem_of_map_to_list.
  - rewrite task_round_trip in Hd. injection Hd as <-. by rewrite Hst.
Qed.

(** * Directories that went away *)

Lemma vanished_unreadable s id r m :
  written s id r -> canonical_directory (t_scope_cwd r) = Err (NotFound m) ->
  exists e, read_record canonical_directory s id = Err e.
Proof.
  intros [Hf Hl] Hc. unfold read_record. rewrite Hf. simpl.
  rewrite (proj2 (Z.leb_le _ _) Hl). simpl. rewrite task_round_trip. simpl.
  unfold validate_record. destruct (ensure (t_schema_version r =? _) _) as [[]|]; simpl; [|eauto].
  destruct (map_err _ _) as [[]|]; simpl; [|eauto]. rewrite Hc. simpl. eauto.
Qed.

Lemma unreadable_prune_kept s s' id r m current now count scoped names res :
  written s id r -> canonical_directory (t_scope_cwd r) = Err (NotFound m) ->
  prune_entries s current now count scoped names = (s', res) -> written s' id r.
Proof.
  intros Hw Hc. revert s count scoped Hw.
  induction names as [|name names IH]; intros s count scoped Hw; simpl; [by intros [= <- <-]|].
  destruct (_ <? _); [by intros [= <- <-]|].
  destruct (Tasks.prune_entry _ _ _ _ s current now name) as [s1 res1] eqn:E.
  assert (written s1 id r) as Hw1.
  { destruct (decide (name = path id)) as [->|Hne].
    - destruct (vanished_unreadable s id r m Hw Hc) as [e He]. unfold Tasks.prune_entry in E.
      rewrite task_file_path, He in E. by injection E as <- <-.
    - apply prune_entry_files in E as [_ [Hf|Hf]]; destruct Hw as [Hw Hl]; (split; [|done]);
        rewrite Hf; [done|by rewrite lookup_delete_ne]. }
  destruct res1 as [[id1|]|e]; [by apply IH..|by intros [= <- <-]].
Qed.

Lemma unreadable_save_kept s s' id r m r1 now res :
  written s id r -> canonical_directory (t_scope_cwd r) = Err (NotFound m) ->
  t_task_id r1 <> id -> save_locked s r1 now = (s', res) -> written s' id r.
Proof.
  intros Hw Hc Hne. unfold Tasks.save_locked, prune_locked.
  destruct (validate_record canonical_directory r1); [|by intros [= <- <-]].
  destruct (Tasks.prune_entries _ _ _ _ s r1 now 0 [] _) as [s1 res1] eqn:E.
  apply (unreadable_prune_kept _ _ id r m) in E as Hw1; [|done|done].
  destruct res1; [|by intros [= <- <-]]. destruct (_ <? _); [by intros [= <- <-]|].
  unfold write_record_locked. destruct (negb _); [by intros [= <- <-]|].
  destruct (write_error _); intros [= <- <-]; [done|]. destruct Hw1 as [Hf Hl].
  split; [|done]. simpl. rewrite lookup_insert_ne; [done|]. by intros ?%path_inj.
Qed.

Lemma unreadable_finalize_kept s s' id r m owner now now2 count o names res :
  written s id r -> canonical_directory (t_scope_cwd r) = Err (NotFound m) ->
  finalize_entries canonical_directory read_dir lock_error write_error remove_outcome runtimes
    s owner now now2 count o names = (s', res) -> written s' id r.
Proof.
  intros Hw Hc. revert s count o Hw.
  induction names as [|name names IH]; intros s count o Hw; simpl; [by intros [= <- <-]|].
  destruct (_ <? _); [by intros [= <- <-]|]. destruct (task_file name) as [id0|]; [|by apply IH].
  destruct (read_record canonical_directory s id0) as [r0|e] eqn:Hread;
    [|destruct (is_not_found e); [by apply IH|by intros [= <- <-]]].
  destruct (negb _); [by apply IH|].
  destruct (runtime_lease_held_locked _ s _) as [[]|e]; [by apply IH| |by intros [= <- <-]].
  destruct (is_terminal _); [by apply IH|].
  destruct (Tasks.save_locked _ _ _ _ _ _ s (finalize_record r0 now) now2) as [s1 res1] eqn:E.
  pose proof (read_record_Ok _ _ _ _ Hread) as (_ & _ & _ & Hid & _).
  apply (unreadable_save_kept _ _ id r m) in E as Hw1; [|done|done|].
  - destruct res1; [by apply IH|by intros [= <- <-]].
  - simpl. rewrite Hid. intros ->.
    destruct (vanished_unreadable s id r m Hw Hc) as [e He]. congruence.
Qed.

(** A task whose directory no longer exists is invisible to the end of its session
    and to retention: finalizing any session leaves its record as it is, also
    when it is the only one, is running and the finalization reports success; and
    no save of another task removes it, however old it is (so it counts for ever
    towards the 4096 files at which every save fails). *)
Theorem vanished_scope_kept s id r m :
  written s id r -> canonical_directory (t_scope_cwd r) = Err (NotFound m) ->
  (forall owner now now2 s' res,
     finalize_owner canonical_directory read_dir lock_error write_error remove_outcome runtimes
       s owner now now2 = (s', res) -> written s' id r)
  /\ (s_files s = {[path id := task_to_vec_pretty r]} ->
      is_ok (Upgrade.validate_session_id (si_id (t_owner r))) = true ->
      t_schema_version r = TASK_SCHEMA_VERSION -> forall now now2,
      finalize_owner canonical_directory read_dir lock_error write_error remove_outcome runtimes
        s (t_owner r) now now2 = (s, Ok (mkFinalize 0 false)))
  /\ (forall r1 now s' res, t_task_id r1 <> id -> save_locked s r1 now = (s', res) ->
        written s' id r).
Proof.
  intros Hw Hc. split_and!.
  - intros owner now now2 s' res Hf. unfold finalize_owner in Hf.
    by eapply unreadable_finalize_kept.
  - intros Hs Hid Hv now now2. unfold finalize_owner.
    assert (read_dir (s_files s) = [path id]) as ->.
    { apply Permutation_singleton_r. rewrite read_dir_lists, Hs, map_to_list_singleton. done. }
    simpl. rewrite task_file_path.
    assert (read_record canonical_directory s id = Err (NotFound m)) as ->; [|done].
    destruct Hw as [Hf Hl]. unfold read_record. rewrite Hf. simpl.
    rewrite (proj2 (Z.leb_le _ _) Hl). simpl. rewrite task_round_trip. simpl.
    unfold validate_record. rewrite Hv. simpl.
    destruct (Upgrade.validate_session_id _); [|done]. simpl. by rewrite Hc.
  - intros r1 now s' res Hne Hsave. by eapply unreadable_save_kept.
Qed.

(** * The limit of a scope *)

Lemma store_ok_files s s' : s_files s' = s_files s -> store_ok s -> store_ok s'.
Proof. unfold store_ok. by intros ->. Qed.

Lemma acquire_store_ok s s' id res :
  acquire_lease lock_error s id = (s', res) -> store_ok s -> store_ok s'.
Proof. intros H%acquire_files. by apply store_ok_files. Qed.

Lemma start_store_ok s s' session r now now2 res :
  accept_start_locked canonical_directory read_dir lock_error write_error remove_outcome runtimes
    s session r now now2 = (s', res) -> store_ok s -> store_ok s'.
Proof.
  unfold accept_start_locked. intros Hacc Hok.
  destruct (head _) as [candidate|]; [|by injection Hacc as <- <-].
  destruct (read_record _ s _) as [r0|e].
  - destruct (ensure_task_owner _ _ _); [|by injection Hacc as <- <-].
    destruct (start_retryable _ _); [|by injection Hacc as <- <-].
    destruct (acquire_lease lock_error s _) as [s1 [[]|e]] eqn:E1;
      (apply acquire_store_ok in E1; [|done]); [|by injection Hacc as <- <-].
    unfold with_lease in Hacc. destruct (Tasks.save_locked _ _ _ _ _ _ s1 _ _) as [s2 res2] eqn:E2.
    apply save_store_ok in E2; [|done]. by destruct res2; injection Hacc as <- <-.
  - destruct (is_not_found e); [|by injection Hacc as <- <-].
    destruct (acquire_lease lock_error s _) as [s1 [[]|e1]] eqn:E1;
      (apply acquire_store_ok in E1; [|done]); [|by injection Hacc as <- <-].
    unfold with_lease in Hacc. destruct (Tasks.save_locked _ _ _ _ _ _ s1 _ _) as [s2 res2] eqn:E2.
    apply save_store_ok in E2; [|done]. by destruct res2; injection Hacc as <- <-.
Qed.

Lemma control_store_ok s s' session id op fp action now2 res :
  accept_control_locked canonical_directory read_dir lock_error write_error remove_outcome
    runtimes s session id op fp action now2 = (s', res) -> store_ok s -> store_ok s'.
Proof.
  unfold accept_control_locked. intros Hacc Hok.
  destruct (load_locked _ s session id) as [r0|e]; [|by injection Hacc as <- <-].
  destruct (known_operation r0 op fp) as [[v|e]|]; [by injection Hacc as <- <-..|].
  destruct (control_allowed r0 action); [|by injection Hacc as <- <-].
  destruct (if negb _ then _ else _) as [s1 res1] eqn:E1.
  assert (store_ok s1) as Hok1.
  { destruct (negb _); [by eapply acquire_store_ok|by injection E1 as <- <-]. }
  destruct res1; [|by injection Hacc as <- <-].
  destruct (Tasks.save_locked _ _ _ _ _ _ s1 _ now2) as [s2 res2] eqn:E2.
  apply save_store_ok in E2; [|done].
  destruct res2; injection Hacc as <- <-; [done|]. by destruct (negb _).
Qed.

Lemma update_store_ok s s' session id edit now1 now2 res :
  update canonical_directory read_dir lock_error write_error remove_outcome runtimes
    s session id edit now1 now2 = (s', res) -> store_ok s -> store_ok s'.
Proof.
  unfold update, save_if_changed. intros Hup Hok.
  destruct (load_locked _ s session id); [|by injection Hup as <- <-].
  destruct (edit _); [|by injection Hup as <- <-].
  destruct (String.eqb _ _); [by injection Hup as <- <-|].
  destruct (Tasks.save_locked _ _ _ _ _ _ s _ now2) as [s2 res2] eqn:E2.
  apply save_store_ok in E2; [|done]. by destruct res2; injection Hup as <- <-.
Qed.

(** Writing back the record of a file with another summary keeps its scope. *)
Lemma rewrite_store_ok s r r1 leases :
  store_ok s -> read_record canonical_directory s (t_task_id r) = Ok r ->
  t_task_id r1 = t_task_id r -> t_owner r1 = t_owner r -> t_scope_cwd r1 = t_scope_cwd r ->
  validate_record canonical_directory r1 = Ok tt ->
  str_len (task_to_vec_pretty r1) <= MAX_TASK_RECORD_BYTES ->
  store_ok (mkStore (<[path (t_task_id r1) := task_to_vec_pretty r1]> (s_files s)) leases).
Proof.
  intros [Hok Hb] Hread Hid Ho Hs Hv Hl. split; simpl.
  { apply files_ok_write; [done|by eapply validate_storable|done]. }
  intros owner scope. etrans; [|apply (Hb owner scope)]. apply inj_le.
  destruct (decide (owner = t_owner r1 /\ scope = t_scope_cwd r1)) as [[-> ->]|Hne];
    [|by apply scope_files_write].
  apply read_record_Ok in Hread as (b & Hf & Hd & _ & _).
  assert (in_scope (t_owner r1) (t_scope_cwd r1) b = true) as Hin.
  { unfold in_scope. rewrite Hd, Ho, Hs. simpl. by rewrite bool_decide_true, String.eqb_refl. }
  unfold scope_files. rewrite Hid. rewrite map_filter_insert_True by apply in_scope_written.
  rewrite map_size_insert. unfold path in *.
  rewrite (proj2 (map_lookup_filter_Some _ _ _ _) (conj Hf Hin)). simpl. lia.
Qed.

Lemma summary_store_ok s s' registry young session id rid osid epoch observation now1 now2 res :
  update_pending_interaction_summary canonical_directory write_error runtimes registry young s
    session id rid osid epoch observation now1 now2 = (s', res) -> store_ok s -> store_ok s'.
Proof.
  unfold update_pending_interaction_summary. intros Hup Hok.
  destruct (negb _); [by injection Hup as <- <-|].
  destruct (load_locked _ s session id) as [r0|e] eqn:Hload; [|by injection Hup as <- <-].
  apply load_locked_Ok in Hload. pose proof (read_record_Ok _ _ _ _ Hload) as (_ & _ & _ & Hid & _).
  destruct (_ || _); [by injection Hup as <- <-|].
  destruct (observed_summary r0 observation epoch now2) as [summary|]; [|by injection Hup as <- <-].
  destruct (save_metadata_locked _ _ _ _) as [s1 res1] eqn:E.
  assert (store_ok s1); [|by destruct res1; injection Hup as <- <-].
  revert E. unfold save_metadata_locked, write_record_locked.
  destruct (validate_record _ _) as [[]|] eqn:Hv; [|by intros [= <- <-]].
  destruct (Z.leb_spec (str_len (task_to_vec_pretty
    (set_pending_interaction_summary r0 (Some summary)))) MAX_TASK_RECORD_BYTES) as [Hl|]; simpl;
    [|by intros [= <- <-]].
  destruct (write_error (t_task_id r0)); [by intros [= <- <-]|]. intros [= <- <-].
  refine (rewrite_store_ok s r0 (set_pending_interaction_summary r0 (Some summary)) (s_leases s)
            Hok _ eq_refl eq_refl eq_refl Hv Hl).
  by rewrite Hid.
Qed.

Lemma finalize_store_ok s s' owner now now2 count o names res :
  finalize_entries canonical_directory read_dir lock_error write_error remove_outcome runtimes
    s owner now now2 count o names = (s', res) -> store_ok s -> store_ok s'.
Proof.
  revert s count o. induction names as [|name names IH]; intros s count o; simpl; [by intros [= <- <-]|].
  destruct (_ <? _); [by intros [= <- <-]|]. destruct (task_file name) as [id0|]; [|by apply IH].
  destruct (read_record canonical_directory s id0) as [r0|e];
    [|destruct (is_not_found e); [by apply IH|by intros [= <- <-]]].
  destruct (negb _); [by apply IH|].
  destruct (runtime_lease_held_locked _ s _) as [[]|e]; [by apply IH| |by intros [= <- <-]].
  destruct (is_terminal _); [by apply IH|].
  destruct (Tasks.save_locked _ _ _ _ _ _ s (finalize_record r0 now) now2) as [s1 res1] eqn:E.
  intros Hf Hok. apply save_store_ok in E; [|done].
  destruct res1; [by eapply IH|by injection Hf as <- <-].
Qed.
End Environment.

(** * What is not recorded *)

Section Failures.
Context (canonical_directory : string -> result TaskError string)
  (read_dir : gmap string string -> list string)
  (lock_error write_error : Uuid -> option string)
  (remove_outcome : string -> RemoveOutcome) (runtimes : Uuid -> option RuntimeHandle).

Lemma string_substring_0 (n : nat) (s : string) :
  (n <= String.length s)%nat -> str_len (String.substring 0 n s) = Z.of_nat n.
Proof.
  unfold str_len. intros Hn. f_equal. revert s Hn.
  induction n as [|n IH]; intros [|c s] Hn; simpl in *; try lia. rewrite IH; lia.
Qed.

(** A cut text is longer than its bound whenever the cut is at most two bytes
    before it. *)
Lemma bound_text_length (text : string) (max : Z) :
  0 <= max < str_len text ->
  str_len (bound_text text max) = Z.of_nat (boundary_before text (Z.to_nat max)) + 3.
Proof.
  intros Hmax. unfold bound_text, cut_at_boundary.
  destruct (Z.leb_spec (str_len text) max); [lia|]. rewrite str_len_append.
  rewrite string_substring_0; [done|].
  assert (forall n, (boundary_before text n <= n)%nat) as Hb.
  { induction n as [|n IH]; cbn [boundary_before]; [done|]. destruct (is_char_boundary _ _); lia. }
  specialize (Hb (Z.to_nat max)). unfold str_len in Hmax. lia.
Qed.

Lemma long_error_invalid canonical r error :
  t_last_error r = Some error -> MAX_ERROR_BYTES < str_len error ->
  is_ok (validate_record canonical r) = false.
Proof.
  intros He Hl. unfold validate_record. rewrite He.
  destruct (ensure (t_schema_version r =? _) _); simpl; [|done].
  destruct (map_err _ _); simpl; [|done].
  destruct (canonical _); simpl; [|done]. destruct (ensure _ _); simpl; [|done].
  destruct (validate_opt (t_model r) _); simpl; [|done].
  destruct (validate_opt (t_agent r) _); simpl; [|done].
  destruct (validate_opt (t_variant r) _); simpl; [|done].
  destruct (Z.leb_spec (str_len error) MAX_ERROR_BYTES); [lia|]. done.
Qed.

(** The changes that record an error text. *)
Inductive records_error (text : string) : Edit -> Prop :=
| re_spawn (op : Uuid) (shut : bool) : records_error text (EditSpawnFailed op text shut)
| re_start (op : Uuid) (shut : bool) : records_error text (EditStartFailed op text shut)
| re_reconcile : records_error text (EditReconcileFailed text)
| re_uncertain : records_error text (EditUncertain text)
| re_derived (fuel : nat) (d : DerivedServeState) :
    ds_last_error d = Some (bound_text text MAX_ERROR_BYTES) ->
    records_error text (EditDerived fuel d).

Lemma records_error_edit (text : string) (e : Edit) r r' :
  records_error text e -> is_terminal (t_status r) = false ->
  t_last_error r <> Some (bound_text text MAX_ERROR_BYTES) ->
  apply_edit e r = Some (Ok r') ->
  t_last_error r' = Some (bound_text text MAX_ERROR_BYTES) /\ r' <> r.
Proof.
  intros He Ht Hne Happ.
  assert (t_last_error r' = Some (bound_text text MAX_ERROR_BYTES)) as Hl; [|split; congruence].
  revert Happ. destruct He as [op shut|op shut| | |fuel d Hd];
    unfold apply_edit, unless_terminal, apply_derived_edit; rewrite ?Ht.
  - by intros [= <-].
  - by intros [= <-].
  - intros [= <-]. unfold reconcile_failed. rewrite (bool_decide_false _ Hne), orb_true_r. done.
  - by intros [= <-].
  - intros ((raw & t & ->) & _)%fit_same.
    assert (t_last_error (apply_derived_fields r d) = Some (bound_text text MAX_ERROR_BYTES)) as <-.
    { unfold apply_derived_fields. rewrite Hd. by destruct (is_some (ds_raw_result d)). }
    generalize (apply_derived_fields r d). intros r1.
    by destruct (derived_changed r1 r), (is_terminal (ds_status d)).
Qed.

(** An over-long error is not recorded: [bound_text] cuts it to the limit and then
    appends the three bytes of an ellipsis, so unless a four-byte character
    starts at the last place it still exceeds the limit the record is validated
    against; the change that should record the failure fails itself and the
    task stays as it was, open. *)
Theorem long_error_not_recorded s session id r (text : string) (e : Edit)
    (edit : TaskRecord -> result TaskError TaskRecord) now now2 :
  load_locked canonical_directory s session id = Ok r -> is_terminal (t_status r) = false ->
  records_error text e -> apply_edit e r = Some (edit r) ->
  MAX_ERROR_BYTES < str_len text ->
  1021 < Z.of_nat (boundary_before text (Z.to_nat MAX_ERROR_BYTES)) ->
  exists error,
    update canonical_directory read_dir lock_error write_error remove_outcome runtimes
      s session id edit now now2 = (s, Err error).
Proof.
  intros Hload Ht He Happ Hlen Hb.
  assert (MAX_ERROR_BYTES < str_len (bound_text text MAX_ERROR_BYTES)) as Hlong.
  { rewrite bound_text_length by (unfold MAX_ERROR_BYTES in *; lia).
    unfold MAX_ERROR_BYTES in *. lia. }
  pose proof (load_locked_Ok _ _ _ _ _ Hload) as Hread.
  apply read_record_Ok in Hread as (_ & _ & _ & _ & Hvalid).
  assert (t_last_error r <> Some (bound_text text MAX_ERROR_BYTES)) as Hne.
  { intros Heq. pose proof (long_error_invalid canonical_directory r _ Heq Hlong). by rewrite Hvalid in *. }
  unfold update. rewrite Hload. destruct (edit r) as [r1|error]; [|by exists error].
  destruct (records_error_edit text e r r1 He Ht Hne Happ) as [Hl Hdiff].
  unfold save_if_changed.
  destruct (String.eqb_spec (task_to_vec r1) (task_to_vec r)) as [Heq|_].
  { by apply task_to_vec_inj in Heq. }
  unfold save_locked.
  pose proof (long_error_invalid canonical_directory (set_updated_at r1 now) _ Hl Hlong) as Hv.
  destruct (validate_record canonical_directory (set_updated_at r1 now)) as [|error]; [done|].
  by exists error.
Qed.

(** A start that failed before its session existed is never started again:
    although the store would accept the same request anew, task_start answers
    from the record whenever the task's file exists, so every repetition
    returns the receipt of the failure. *)
Theorem failed_start_not_retried s session q r receipt :
  read_record canonical_directory s (sr_task_id q) = Ok r ->
  ensure_task_owner canonical_directory r session = Ok tt ->
  find_receipt r (sr_operation_id q) = Some receipt ->
  (forall scope now, is_Some (candidate ← head (t_operations (start_record session scope q now));
     if start_retryable r candidate then Some tt else None)) ->
  task_start_replay canonical_directory s session q
    = Some (Ok (operation_receipt_view (t_task_id r) receipt))
  /\ forall scope now now1 now2 s' res,
      accept_start_locked canonical_directory read_dir lock_error write_error remove_outcome
        runtimes s session (start_record session scope q now) now1 now2 = (s', Ok res) ->
      exists r', res = StartAccepted r'.
Proof.
  intros Hread Hown Hfind Hretry. split.
  - unfold task_start_replay. pose proof (read_record_Ok _ _ _ _ Hread) as (b & Hb & _).
    rewrite Hb. simpl. rewrite Hread. simpl. rewrite Hown. simpl. do 2 f_equal.
    destruct (Hretry "" 0) as [u Hu]. simpl in Hu. unfold start_retryable in Hu. simpl in Hu.
    rewrite Hfind in Hu. simpl in Hu.
    unfold replay_operation. rewrite Hfind.
    destruct (bool_decide (or_request_fingerprint receipt = sr_fingerprint q)); [|done]. simpl in *.
    destruct (String.eqb _ "start"); [|done]. simpl in Hu.
    destruct (bool_decide (or_phase receipt = PhRetryableFailed)) eqn:Hp; [|done].
    apply bool_decide_eq_true in Hp. unfold replay_receipt. rewrite Hp. done.
  - intros scope now now1 now2 s' res. destruct (Hretry scope now) as [u Hu]. simpl in Hu.
    unfold accept_start_locked. cbn [start_record t_operations head t_task_id].
    rewrite Hread, Hown. destruct (start_retryable r _); [|done].
    destruct (acquire_lease lock_error s (t_task_id r)) as [s1 [[]|e]]; [|done].
    unfold with_lease. destruct (save_locked _ _ _ _ _ _ s1 _ now2) as [s2 [|]]; [|done].
    intros [= <- <-]. eauto.
Qed.
End Failures.

(** * Fitting the raw result *)

Definition with_raw r (raw : string) (truncated : bool) : TaskRecord :=
  set_raw_result_truncated (set_raw_result r (Some raw)) truncated.

Lemma with_raw_again r raw t raw' :
  set_raw_result_truncated (set_raw_result (with_raw r raw t) (Some raw')) true = with_raw r raw' true.
Proof. by destruct r. Qed.

(** What one round leaves of a raw result of more than [max] bytes. *)
Lemma truncate_shorter (raw : string) (max : Z) :
  0 <= max < str_len raw ->
  let raw' := (truncate_text raw max).1 in
  str_is_empty raw' = false
  /\ (raw' = ELLIPSIS \/ str_len raw' <= max).
Proof.
  intros Hmax. unfold truncate_text. destruct (Z.leb_spec (str_len raw) max); [lia|]. simpl.
  unfold cut_at_boundary, saturating_sub. change (str_len ELLIPSIS) with 3.
  set (n := boundary_before raw (Z.to_nat (Z.max (max - 3) 0))).
  assert (forall k, (boundary_before raw k <= k)%nat) as Hb.
  { induction k as [|k IH]; cbn [boundary_before]; [done|]. destruct (is_char_boundary _ _); lia. }
  specialize (Hb (Z.to_nat (Z.max (max - 3) 0))). fold n in Hb.
  assert (str_len (String.substring 0 n raw +:+ ELLIPSIS) = Z.of_nat n + 3) as Hlen.
  { rewrite str_len_append, string_substring_0; [done|]. unfold str_len in Hmax. lia. }
  split.
  - unfold str_is_empty. rewrite Hlen. apply Z.eqb_neq. lia.
  - destruct (Z.ltb_spec max 3).
    + left. assert (n = 0%nat) as -> by lia. by destruct raw.
    + right. rewrite Hlen. lia.
Qed.

(** The loop that fits the raw reply ends whenever the record without it fits, and
    then the record fits. *)
Theorem fit_raw_result_ends r raw truncated (n : nat) :
  t_raw_result r = Some raw -> t_raw_result_truncated r = truncated ->
  str_is_empty raw = false ->
  str_len (task_to_vec_pretty (with_raw r ELLIPSIS true)) <= MAX_TASK_RECORD_BYTES ->
  str_len raw < Z.of_nat n ->
  exists r', fit_raw_result_to_record_limit (S n) r = Some (Ok r')
    /\ str_len (task_to_vec_pretty r') <= MAX_TASK_RECORD_BYTES.
Proof.
  intros Hraw Ht Hne Hfits Hn.
  assert (r = with_raw r raw truncated) as Hr by (subst; destruct r; simpl in *; by subst).
  assert (forall fuel raw t, str_is_empty raw = false -> str_len raw < Z.of_nat fuel ->
    exists r', fit_raw_result_to_record_limit (S fuel) (with_raw r raw t) = Some (Ok r')
      /\ str_len (task_to_vec_pretty r') <= MAX_TASK_RECORD_BYTES) as Hall.
  { clear Hraw Ht Hne Hn Hr raw truncated n. induction fuel as [|fuel IH]; intros raw t Hne Hlen.
    { pose proof (str_len_nonneg raw). lia. }
    cbn [fit_raw_result_to_record_limit]. cbn [with_raw t_raw_result set_raw_result set_raw_result_truncated].
    set (size := str_len (task_to_vec_pretty _)).
    destruct (Z.leb_spec size MAX_TASK_RECORD_BYTES); [by eexists|]. rewrite Hne.
    set (max := Z.min _ _).
    assert (0 <= max < str_len raw) as Hmax.
    { unfold str_is_empty in Hne. apply Z.eqb_neq in Hne. pose proof (str_len_nonneg raw).
      unfold max, saturating_sub. lia. }
    pose proof (truncate_shorter raw max Hmax) as Hshort.
    destruct (truncate_text raw max) as [raw' b]. simpl in Hshort. destruct Hshort as [Hne' Hs].
    fold (with_raw r raw t). rewrite with_raw_again.
    destruct Hs as [-> |Hs]; [|apply IH; [done|lia]].
    exists (with_raw r ELLIPSIS true). split; [|done].
    destruct fuel; cbn [fit_raw_result_to_record_limit];
      cbn [with_raw t_raw_result set_raw_result set_raw_result_truncated];
      fold (with_raw r ELLIPSIS true); by rewrite (proj2 (Z.leb_le _ _) Hfits). }
  rewrite Hr. by apply Hall.
Qed.

(** A record whose metadata does not fit is never given up: the error for it is
    reached only with an empty raw result, but every round leaves at least the
    ellipsis, so the loop goes on for ever, with the store and the lifecycle
    registry locked. *)
Theorem fit_raw_result_diverges r raw (fuel : nat) :
  t_raw_result r = Some raw -> str_is_empty raw = false ->
  (forall text truncated, MAX_TASK_RECORD_BYTES < str_len (task_to_vec_pretty (with_raw r text truncated))) ->
  fit_raw_result_to_record_limit fuel r = None.
Proof.
  intros Hraw Hne Hbig.
  assert (r = with_raw r raw (t_raw_result_truncated r)) as -> by (destruct r; simpl in *; by subst).
  revert Hne. generalize (t_raw_result_truncated r). revert Hraw. intros _.
  assert (forall raw t, str_is_empty raw = false ->
    fit_raw_result_to_record_limit fuel (with_raw r raw t) = None) as H; [|by intros; apply H].
  induction fuel as [|fuel IH]; intros raw' t Hne';
    cbn [fit_raw_result_to_record_limit];
    cbn [with_raw t_raw_result set_raw_result set_raw_result_truncated]; fold (with_raw r raw' t);
    (destruct (Z.leb_spec (str_len (task_to_vec_pretty (with_raw r raw' t))) MAX_TASK_RECORD_BYTES);
       [specialize (Hbig raw' t); lia|]); rewrite Hne'; [done|].
  set (max := Z.min _ _).
  assert (0 <= max < str_len raw') as Hmax.
  { unfold str_is_empty in Hne'. apply Z.eqb_neq in Hne'. pose proof (str_len_nonneg raw').
    unfold max, saturating_sub. lia. }
  pose proof (truncate_shorter raw' max Hmax) as Hshort.
  destruct (truncate_text raw' max) as [raw2 b]. simpl in Hshort. destruct Hshort as [Hne2 _].
  rewrite with_raw_again. by apply IH.
Qed.

Lemma step_store_ok s s' (l : TaskLabel) : task_step s l s' -> store_ok s -> store_ok s'.
Proof.
  intros Hs Hok. destruct Hs; pose proof (env_read_dir_lists env) as Hlists || idtac.
  - eapply start_store_ok; eassumption.
  - eapply control_store_ok; eassumption.
  - eapply update_store_ok; eassumption.
  - eapply summary_store_ok; eassumption.
  - revert H. unfold load_for_reconciliation.
    destruct (load_locked _ s session id); [|by intros [= <- <-]].
    destruct (runtime_matches_record _ _); [by intros [= <- <-]|].
    unfold try_acquire_runtime_lease_locked. destruct (env_lock_error env id); [by intros [= <- <-]|].
    case_bool_decide; intros [= <- <-]; done.
  - unfold finalize_owner in H. eapply finalize_store_ok; eassumption.
  - done.
Qed.

(** A scope is bounded: from a store that is (the empty one is), in every run of
    the operations of any processes, in any environment, whatever expires and
    fails, every file is the record its name says, as the store would have
    written it, and no session instance has more than 128 tasks in a
    directory. *)
Theorem scope_tasks_bounded s s' (tr : list TaskLabel) :
  store_ok s -> task_run s tr s' ->
  files_ok (s_files s')
  /\ forall owner scope,
       Z.of_nat (size (scope_files (s_files s') owner scope)) <= MAX_TASKS_PER_SCOPE.
Proof.
  intros Hok Hr. assert (store_ok s') as H; [|exact H].
  induction Hr as [|s s1 s2 l tr Hs Hr IH]; [done|]. apply IH. by eapply step_store_ok.
Qed.

Lemma empty_store_ok leases : store_ok (mkStore ∅ leases).
Proof.
  split.
  - intros name bytes r. simpl. by rewrite lookup_empty.
  - intros owner scope. unfold scope_files. simpl. rewrite map_filter_empty, map_size_empty. done.
Qed.
End TaskLimits.
