(* ===== verification/TaskWitness.v ===== *)
(** * Concrete task stores

    A codec for task records that meets its laws (known records have short
    texts, the others the bits of their encoding), an environment, and the
    runs on which the theorems about the task store hold. *)

From stdpp Require Import countable.
From S2P Require Import Prelude Strings Utf8 Json Value Outcome PendingInteraction Lifecycle.
From S2P Require Import ReportContract TaskRecord Derive Tasks TasksTheorems TaskLimits.
Import JsonModel.

#[local] Open Scope Z_scope.
#[local] Open Scope rust_scope.

(** * Countable data *)

Definition enum_encode {A : Type} `{EqDecision A} (all : list A) (a : A) : nat :=
  match list_find (fun b => b = a) all with
  | Some (i, _) => i
  | None => 0%nat
  end.

Lemma enum_round_trip {A : Type} `{EqDecision A} (all : list A) :
  (forall a, a ∈ all) -> forall a, all !! enum_encode all a = Some a.
Proof.
  intros Hall a. unfold enum_encode.
  destruct (list_find (fun b => b = a) all) as [[i b]|] eqn:E.
  - by apply list_find_Some in E as (Hi & -> & _).
  - destruct (list_find_elem_of (fun b => b = a) all a (Hall a) eq_refl). congruence.
Qed.

(** An equation between values: the right side, checked by evaluating the left. *)
Ltac by_value :=
  match goal with |- _ = ?v => vm_cast_no_check (eq_refl v) end.

(** An enumeration that lists all its values. *)
Ltac enum_countable all :=
  refine (inj_countable (enum_encode all) (fun i => all !! i) (enum_round_trip all _));
  intros []; by repeat constructor.

Module Countables.

Definition json_tree_of : Json -> gen_tree (unit + bool + Z + (bool * string)) :=
  fix go j :=
    match j with
    | JNull => GenLeaf (inl (inl (inl tt)))
    | JBool b => GenLeaf (inl (inl (inr b)))
    | JInt n => GenLeaf (inl (inr n))
    | JFloat t => GenLeaf (inr (false, t))
    | JStr s => GenLeaf (inr (true, s))
    | JArr items => GenNode 0 (map go items)
    | JObj entries => GenNode 1 (map (fun kv => GenNode 2 [GenLeaf (inr (true, kv.1)); go kv.2]) entries)
    end.

Definition json_of_tree : gen_tree (unit + bool + Z + (bool * string)) -> Json :=
  fix go t :=
    match t with
    | GenLeaf (inl (inl (inl _))) => JNull
    | GenLeaf (inl (inl (inr b))) => JBool b
    | GenLeaf (inl (inr n)) => JInt n
    | GenLeaf (inr (false, t)) => JFloat t
    | GenLeaf (inr (true, s)) => JStr s
    | GenNode 0 items => JArr (map go items)
    | GenNode _ entries =>
        JObj (map (fun e => match e with
                            | GenNode _ [GenLeaf (inr (_, k)); v] => (k, go v)
                            | _ => (""%string, JNull)
                            end) entries)
    end.

Lemma json_tree_round_trip : forall j, json_of_tree (json_tree_of j) = j.
Proof.
  fix IH 1. intros [| b | n | t | s | items | entries]; try reflexivity; simpl; f_equal.
  - induction items as [|j items IHl]; [reflexivity|]. simpl. by rewrite IH, IHl.
  - induction entries as [|[k v] entries IHl]; [reflexivity|]. simpl. by rewrite IH, IHl.
Qed.

#[export] Instance json_countable : Countable Json.
Proof. exact (inj_countable' json_tree_of json_of_tree json_tree_round_trip). Defined.

#[export] Instance canonical_uuid_countable : Countable CanonicalUuid.
Proof.
  refine (inj_countable canonical_string parse_canonical _). intros [s Hs]. simpl.
  unfold parse_canonical. destruct (bool_dec (canonical s) true) as [H|H]; [|done].
  f_equal. by apply canonical_string_inj.
Defined.

#[export] Instance task_status_countable : Countable TaskStatus.
Proof.
  enum_countable [TsAccepted; TsRunning; TsWaitingApproval; TsRetryableFailed; TsCompleted;
    TsInterrupted; TsFailed; TsReconciliationRequired; TsUnknown].
Defined.
#[export] Instance report_status_countable : Countable ReportStatus.
Proof. enum_countable [RsValid; RsMissingReport; RsInvalidJson; RsInvalidReportSchema]. Defined.
#[export] Instance operation_phase_countable : Countable OperationPhase.
Proof. enum_countable [PhAccepted; PhApplied; PhRetryableFailed]. Defined.
#[export] Instance summary_state_countable : Countable SummaryState.
Proof. enum_countable [SS_None; SS_Pending; SS_Unknown; SS_Unsupported; SS_Unavailable]. Defined.
#[export] Instance producer_kind_countable : Countable ProducerKind.
Proof. enum_countable [RuntimeOwner; HostRemoteObserver]. Defined.
#[export] Instance interaction_type_countable : Countable InteractionType.
Proof. enum_countable [Permission; Question; Approval]. Defined.
#[export] Instance verification_status_eq : EqDecision VerificationStatus.
Proof. solve_decision. Defined.
#[export] Instance verification_status_countable : Countable VerificationStatus.
Proof. enum_countable [VPassed; VFailed]. Defined.
#[export] Instance delivery_status_eq : EqDecision DeliveryStatus.
Proof. solve_decision. Defined.
#[export] Instance delivery_status_countable : Countable DeliveryStatus.
Proof. enum_countable [DPending; DSubmitted; DMerged; DClosed; DFailed]. Defined.

#[export] Instance summary_eq : EqDecision Summary.
Proof. solve_decision. Defined.
#[export] Instance summary_countable : Countable Summary.
Proof.
  refine (inj_countable'
    (fun s => (sum_state s, sum_count s, sum_types s, sum_summary_revision s, sum_observed_at s,
               sum_producer_kind s, sum_producer_epoch s, sum_expires_at s, sum_truncated s))
    (fun '(a, b, c, d, e, f, g, h, i) => mkSummary a b c d e f g h i) _).
  by intros [].
Defined.

#[export] Instance target_eq : EqDecision VerificationTarget.
Proof. solve_decision. Defined.
#[export] Instance target_countable : Countable VerificationTarget.
Proof.
  refine (inj_countable'
    (fun t => match t with
              | TCommit c => inl (inl c)
              | TSnapshot s => inl (inr s)
              | TUnidentified c d => inr (c, d)
              end)
    (fun x => match x with
              | inl (inl c) => TCommit c
              | inl (inr s) => TSnapshot s
              | inr (c, d) => TUnidentified c d
              end) _).
  by intros [].
Defined.

#[export] Instance verification_eq : EqDecision VerificationRecord.
Proof. solve_decision. Defined.
#[export] Instance verification_countable : Countable VerificationRecord.
Proof.
  refine (inj_countable'
    (fun v => (ver_status v, ver_target v, ver_record_revision v, ver_checked_at v))
    (fun '(a, b, c, d) => mkVerification a b c d) _).
  by intros [].
Defined.

#[export] Instance delivery_eq : EqDecision DeliveryRecord.
Proof. solve_decision. Defined.
#[export] Instance delivery_countable : Countable DeliveryRecord.
Proof.
  refine (inj_countable'
    (fun v => (del_status v, del_branch v, del_pull_request v, del_updated_at v))
    (fun '(a, b, c, d) => mkDelivery a b c d) _).
  by intros [].
Defined.

#[export] Instance outcome_eq : EqDecision OperationOutcome.
Proof. solve_decision. Defined.
#[export] Instance outcome_countable : Countable OperationOutcome.
Proof.
  refine (inj_countable'
    (fun v => (oo_status v, oo_revision v, oo_generation v, oo_opencode_session_id v))
    (fun '(a, b, c, d) => mkOutcome a b c d) _).
  by intros [].
Defined.

#[export] Instance interaction_eq : EqDecision InteractionOperationResult.
Proof. solve_decision. Defined.
#[export] Instance interaction_countable : Countable (@InteractionOperationResult string_uuid).
Proof.
  refine (inj_countable'
    (fun v : @InteractionOperationResult string_uuid =>
       (ir_interaction_id v : CanonicalUuid, ir_result v, ir_applied v, ir_error v))
    (fun '(a, b, c, d) => @mkInteraction string_uuid a b c d) _).
  by intros [].
Defined.

#[export] Instance receipt_eq : EqDecision (@OperationReceipt string_uuid).
Proof. solve_decision. Defined.
#[export] Instance receipt_countable : Countable (@OperationReceipt string_uuid).
Proof.
  refine (inj_countable'
    (fun v : @OperationReceipt string_uuid =>
       (or_operation_id v : CanonicalUuid, or_request_fingerprint v : CanonicalUuid, or_action v,
        or_phase v, or_outcome v, or_interaction_result v))
    (fun '(a, b, c, d, e, f) => @mkReceipt string_uuid a b c d e f) _).
  by intros [].
Defined.

#[export] Instance tombstone_eq : EqDecision (@OperationTombstone string_uuid).
Proof. solve_decision. Defined.
#[export] Instance tombstone_countable : Countable (@OperationTombstone string_uuid).
Proof.
  refine (inj_countable'
    (fun v : @OperationTombstone string_uuid =>
       (ot_operation_id v : CanonicalUuid, ot_request_fingerprint v : CanonicalUuid))
    (fun '(a, b) => @mkTombstone string_uuid a b) _).
  by intros [].
Defined.

#[export] Instance check_eq : EqDecision (@PrivateCheckReceipt string_uuid).
Proof. solve_decision. Defined.
#[export] Instance check_countable : Countable (@PrivateCheckReceipt string_uuid).
Proof.
  refine (inj_countable'
    (fun v : @PrivateCheckReceipt string_uuid =>
       (pc_operation_id v : CanonicalUuid, pc_action v, pc_codex_task_id v : CanonicalUuid,
        pc_workspace_id v : CanonicalUuid, pc_producer_epoch v))
    (fun '(a, b, c, d, e) => @mkCheck string_uuid a b c d e) _).
  by intros [].
Defined.

#[export] Instance task_eq : EqDecision (@TaskRecord string_uuid).
Proof. solve_decision. Defined.

(** The fields of a record, in groups. *)
#[export] Instance task_countable : Countable (@TaskRecord string_uuid).
Proof.
  refine (inj_countable'
    (fun r : @TaskRecord string_uuid =>
      ((t_schema_version r, t_task_id r : CanonicalUuid, t_owner r, t_scope_cwd r,
        (t_managed_workspace_id r : option CanonicalUuid), t_private_codex_model r,
        t_private_codex_effort r, t_private_check_receipts r),
       (t_model r, t_agent r, t_variant r, t_status r, t_revision r, t_generation r,
        t_opencode_session_id r, t_usage r),
       (t_observed_model r, t_report r, t_native_report_requested r, t_blocker r,
        t_last_error r, t_report_status r, t_raw_result r, t_raw_result_truncated r),
       (t_pending_interaction_summary r, t_created_at r, t_updated_at r, t_verification r,
        t_delivery r, t_operations r, t_operation_tombstones r)))
    (fun '((a, b, c, d, e, f, g, h), (i, j, k, l, m, n, o, p), (q, r, s, t, u, v, w, x),
           (y, z, a1, b1, c1, d1, e1)) =>
       @mkTask string_uuid a b c d e f g h i j k l m n o p q r s t u v w x y z a1 b1 c1 d1 e1) _).
  by intros [].
Defined.
End Countables.

(** * A codec for records *)

Module TableCodec.
Import Countables.

#[local] Notation Task := (@TaskRecord string_uuid).

Fixpoint repeat_char (n : nat) (c : ascii) (s : string) : string :=
  match n with
  | O => s
  | S n => String c (repeat_char n c s)
  end.

Fixpoint bits (p : positive) : string :=
  match p with
  | xH => ""
  | xO p => String "0" (bits p)
  | xI p => String "1" (bits p)
  end.

Fixpoint of_bits (s : string) : positive :=
  match s with
  | EmptyString => xH
  | String c rest => if Ascii.eqb c "1" then xI (of_bits rest) else xO (of_bits rest)
  end.

Lemma of_bits_bits p : of_bits (bits p) = p.
Proof. induction p as [p IH|p IH|]; simpl; by rewrite ?IH. Qed.

(** A known record is its place in the table; of another, [padding] bytes and its bits. *)
Definition table_write (padding : nat) (known : list Task) (r : Task) : string :=
  match list_find (fun k => k = r) known with
  | Some (i, _) => String "k" (repeat_char i "i" "")
  | None => repeat_char padding "x" (String "u" (bits (encode r)))
  end.

Fixpoint table_read (known : list Task) (s : string) : option Task :=
  match s with
  | EmptyString => None
  | String c rest =>
      if Ascii.eqb c "k" then known !! String.length rest
      else if Ascii.eqb c "u" then decode (of_bits rest)
      else table_read known rest
  end.

Lemma length_repeat_char n c s : String.length (repeat_char n c s) = (n + String.length s)%nat.
Proof. induction n as [|n IH]; simpl; congruence. Qed.

Lemma table_round_trip padding known r : table_read known (table_write padding known r) = Some r.
Proof.
  unfold table_write. destruct (list_find (fun k => k = r) known) as [[i k]|] eqn:E.
  - apply list_find_Some in E as (Hi & -> & _). simpl.
    by rewrite length_repeat_char, Nat.add_0_r.
  - induction padding as [|n IH]; simpl; [|done]. by rewrite of_bits_bits, decode_encode.
Qed.

Definition table_codec (padding : nat) (known : list Task) : @TaskCodec string_uuid := {|
  task_to_vec := table_write padding known;
  task_to_vec_pretty := table_write padding known;
  task_from_slice := table_read known;
|}.

#[export] Instance table_codec_laws padding known :
  @TaskCodecLaws string_uuid (table_codec padding known).
Proof.
  split; simpl; [apply table_round_trip|].
  intros r r' Heq. apply (inj Some). by rewrite <- !(table_round_trip padding known), Heq.
Qed.

(** Without known records every text is longer than the padding. *)
Lemma padded_length padding r : Z.of_nat padding < str_len (table_write padding [] r).
Proof. unfold table_write, str_len. simpl. rewrite length_repeat_char. simpl. lia. Qed.
End TableCodec.

(** * A task from its start to its end *)

Module TaskScenario.
Import TableCodec.

#[export] Instance no_documents : SerdeJson := codec [].

Definition session : Session := mkSession "s" 1 7 "/w".
Definition owner : SessionInstance := from_session session.
Definition task : Uuid := uuid0.
Definition steer : Uuid := uuid1.

Definition request : StartRequest := mkStart task uuid0 uuid0 None None None None None.

(** The records of the task: accepted, bound to its session, running, with an
    accepted interrupt, interrupted, or ended with its session, or failed before
    it had a session. *)
Definition r_accepted : TaskRecord := start_record session "/w" request 100.
Definition e_bound : TaskRecord :=
  bump (set_native_report_requested (set_opencode_session_id r_accepted (Some "ses_1")) false).
Definition r_bound : TaskRecord := set_updated_at e_bound 101.
Definition e_running : TaskRecord := start_running r_bound.
Definition r_running : TaskRecord := set_updated_at e_running 102.
Definition r_interrupt : TaskRecord := accept_operation r_running steer uuid1 "interrupt".
Definition e_interrupted : TaskRecord := controlled steer true r_interrupt.
Definition r_interrupted : TaskRecord := set_updated_at e_interrupted 104.
Definition r_finalized : TaskRecord := finalize_record r_running 110.
Definition r_failed : TaskRecord :=
  set_updated_at (fail_operation TsRetryableFailed TsInterrupted PhRetryableFailed uuid0
    (Some "no server") false r_accepted) 105.

#[export] Instance task_codec : TaskCodec :=
  table_codec 0 [r_accepted; r_bound; r_running; r_interrupt; r_interrupted; r_finalized; r_failed].

Definition canonical_directory (d : string) : result TaskError string :=
  if String.eqb d "/w" then Ok d else Err (NotFound "No such file or directory").
Definition read_dir (files : gmap string string) : list string := map fst (map_to_list files).
Definition no_error : Uuid -> option string := fun _ => None.
Definition removed : string -> RemoveOutcome := fun _ => RemoveDone.
Definition no_runtimes : Uuid -> option RuntimeHandle := fun _ => None.

Lemma read_dir_lists (files : gmap string string) :
  read_dir files ≡ₚ map fst (map_to_list files).
Proof. done. Qed.

Definition env : Environment :=
  mkEnvironment canonical_directory read_dir read_dir_lists no_error no_error removed no_runtimes.

Definition store0 : Store := mkStore ∅ ∅.

Definition start_at (s : Store) : Store * result TaskError StartAcceptance :=
  accept_start_locked canonical_directory read_dir no_error no_error removed no_runtimes s session
    r_accepted 100 100.
Definition edit_to (s : Store) (r : TaskRecord) (now : Z) : Store * result TaskError TaskRecord :=
  update canonical_directory read_dir no_error no_error removed no_runtimes s session task
    (fun _ => Ok r) now now.
Definition interrupt_at (s : Store) (now : Z) : Store * result TaskError ControlAcceptance :=
  accept_control_locked canonical_directory read_dir no_error no_error removed no_runtimes s
    session task steer uuid1 "interrupt" now.

Definition store1 : Store := (start_at store0).1.
Definition store2 : Store := (edit_to store1 e_bound 101).1.
Definition store3 : Store := (edit_to store2 e_running 102).1.
Definition store3' : Store := release_lease store3 task.
Definition store4 : Store := (interrupt_at store3' 103).1.
Definition store5 : Store := (edit_to store4 e_interrupted 104).1.
Definition store6 : Store := (interrupt_at store5 106).1.

Lemma edit_step (s : Store) (e : Edit) (r r' : TaskRecord) (now : Z) :
  load_locked canonical_directory s session task = Ok r ->
  apply_edit e r = Some (Ok r') ->
  task_step s (TlEdit session task e) (edit_to s r' now).1.
Proof.
  intros Hr He. destruct (edit_to s r' now) as [s' res] eqn:E. simpl.
  eapply (step_edit s env session task e (fun _ => Ok r') now now); [|exact E].
  simpl. intros r1. rewrite Hr. by intros [= <-].
Qed.

Lemma start_run : task_run store0 [TlStart session "/w" request true] store1.
Proof.
  econstructor; [|constructor].
  apply (step_start store0 env session "/w" request 100 100 100 store1 (start_at store0).2).
  by apply injective_projections.
Qed.

Lemma interrupt_step (s : Store) (now : Z) :
  task_step s (TlControl session task steer uuid1 "interrupt"
                 (control_accepted (interrupt_at s now).2)) (interrupt_at s now).1.
Proof.
  apply (step_control s env session task steer uuid1 "interrupt" now _ (interrupt_at s now).2).
  by apply injective_projections.
Qed.

Lemma release_step (s : Store) : task_step s (TlRelease task) (release_lease s task).
Proof. constructor. Qed.

(** What happens after the start, and what of it after the interrupt. *)
Definition late_labels : list TaskLabel :=
  [TlEdit session task (EditControlled steer true);
   TlControl session task steer uuid1 "interrupt" false].
Definition labels : list TaskLabel :=
  [TlEdit session task (EditBind "ses_1" false); TlEdit session task EditRunning; TlRelease task;
   TlControl session task steer uuid1 "interrupt" true] ++ late_labels.

Lemma interrupted_step :
  task_step store4 (TlEdit session task (EditControlled steer true)) store5.
Proof. apply (edit_step store4 _ r_interrupt e_interrupted 104); by_value. Qed.

Lemma bound_step : task_step store1 (TlEdit session task (EditBind "ses_1" false)) store2.
Proof. apply (edit_step store1 _ r_accepted e_bound 101); by_value. Qed.

Lemma running_step : task_step store2 (TlEdit session task EditRunning) store3.
Proof. apply (edit_step store2 _ r_bound e_running 102); by_value. Qed.

Lemma accepted_step :
  task_step store3' (TlControl session task steer uuid1 "interrupt" true) store4.
Proof. exact (interrupt_step store3' 103). Qed.

Lemma replayed_step :
  task_step store5 (TlControl session task steer uuid1 "interrupt" false) store6.
Proof. exact (interrupt_step store5 106). Qed.

Lemma control_run : kept_run task store4 late_labels store6.
Proof.
  econstructor; [by eexists; vm_compute|exact interrupted_step|].
  econstructor; [by eexists; vm_compute|exact replayed_step|].
  constructor. by eexists; vm_compute.
Qed.

Lemma labels_run : task_run store1 labels store6.
Proof.
  econstructor; [exact bound_step|]. econstructor; [exact running_step|].
  econstructor; [apply release_step|]. econstructor; [exact accepted_step|].
  exact (kept_run_task_run _ _ _ _ control_run).
Qed.

Lemma labels_no_start : Forall (fun l => ~ restarts task l) labels.
Proof.
  unfold labels, late_labels.
  repeat constructor; intros (? & ? & ? & [=] & _).
Qed.

Lemma accepted_written : written store1 task r_accepted.
Proof. split; [vm_compute; reflexivity|by vm_compute]. Qed.

End TaskScenario.

Module TaskW.
Import TableCodec TaskScenario.



Definition ended_store : Store * result TaskError FinalizeOwnerOutcome :=
  finalize_owner canonical_directory read_dir no_error no_error removed no_runtimes
    store3' owner 110 110.

Lemma finalize_ends_owner_witness :
  ended_store.2 = Ok (mkFinalize 1 false)
  /\ forall id r, read_record canonical_directory ended_store.1 id = Ok r -> t_owner r = owner ->
       is_terminal (t_status r) = true.
Proof.
  split; [vm_compute; reflexivity|].
  refine (proj1 (finalize_ends_owner canonical_directory read_dir read_dir_lists no_error no_error removed
            no_runtimes store3' ended_store.1 owner 110 110 (mkFinalize 1 false) _ eq_refl)).
  apply injective_projections; vm_compute; reflexivity.
Defined.

(** The directory of the task is removed while it runs. *)
Definition gone (_ : string) : result TaskError string :=
  Err (NotFound "No such file or directory").

Lemma running_written : written store3' task r_running.
Proof. split; [vm_compute; reflexivity|by vm_compute]. Qed.

Lemma vanished_scope_kept_witness :
  finalize_owner gone read_dir no_error no_error removed no_runtimes
    (mkStore {[path task := task_to_vec_pretty r_running]} ∅) owner 200 200
  = (mkStore {[path task := task_to_vec_pretty r_running]} ∅, Ok (mkFinalize 0 false)).
Proof.
  refine (proj1 (proj2 (vanished_scope_kept gone read_dir read_dir_lists no_error no_error removed no_runtimes
    (mkStore {[path task := task_to_vec_pretty r_running]} ∅) task r_running
    "No such file or directory" _ eq_refl)) eq_refl eq_refl eq_refl 200 200).
  split; [vm_compute; reflexivity|by vm_compute].
Defined.

Definition long_text : string := repeat_char 2000 "a" "".

Lemma long_error_not_recorded_witness :
  exists error,
    update canonical_directory read_dir no_error no_error removed no_runtimes store3' session task
      (fun r => Ok (unless_terminal (reconcile_failed long_text) r)) 120 120 = (store3', Err error).
Proof.
  refine (long_error_not_recorded canonical_directory read_dir no_error no_error removed
    no_runtimes store3' session task r_running long_text (EditReconcileFailed long_text) _ 120 120
    _ eq_refl (re_reconcile _) eq_refl _ _); vm_compute; reflexivity.
Defined.

Definition failed_store : Store := mkStore {[path task := task_to_vec_pretty r_failed]} ∅.

Lemma failed_start_not_retried_witness :
  task_start_replay canonical_directory failed_store session request
  = Some (Ok (operation_receipt_view task
      (mkReceipt uuid0 uuid0 "start" PhRetryableFailed (outcome r_failed) None))).
Proof.
  refine (proj1 (failed_start_not_retried canonical_directory read_dir no_error no_error removed
    no_runtimes failed_store session request r_failed
    (mkReceipt uuid0 uuid0 "start" PhRetryableFailed (outcome r_failed) None) _ _ _ _));
    [vm_compute; reflexivity..|].
  intros scope now. eexists. vm_compute. reflexivity.
Defined.

Lemma scope_tasks_bounded_witness :
  files_ok (s_files store1)
  /\ forall owner scope,
       Z.of_nat (size (scope_files (s_files store1) owner scope)) <= MAX_TASKS_PER_SCOPE.
Proof. exact (scope_tasks_bounded store0 store1 _ (empty_store_ok ∅) start_run). Defined.

Lemma fit_raw_result_ends_witness :
  exists r', @fit_raw_result_to_record_limit string_uuid
      (table_codec 0 [with_raw r_running ELLIPSIS true]) 5 (with_raw r_running "abc" false)
    = Some (Ok r')
    /\ str_len (table_write 0 [with_raw r_running ELLIPSIS true] r') <= MAX_TASK_RECORD_BYTES.
Proof.
  refine (@fit_raw_result_ends string_uuid (table_codec 0 [with_raw r_running ELLIPSIS true])
    (with_raw r_running "abc" false) "abc" false 4 eq_refl eq_refl eq_refl _ _);
    [by vm_compute|reflexivity].
Defined.

Lemma fit_raw_result_diverges_witness :
  @fit_raw_result_to_record_limit string_uuid (table_codec (Z.to_nat 65536) []) 1000
    (with_raw r_running "abc" false) = None.
Proof.
  refine (@fit_raw_result_diverges string_uuid (table_codec (Z.to_nat 65536) [])
    (with_raw r_running "abc" false) "abc" 1000 eq_refl eq_refl _).
  intros text truncated. exact (padded_length (Z.to_nat 65536) _).
Defined.

Definition native_document : Json :=
  JObj [("status", JStr "completed"); ("summary", JStr "done"); ("base_commit", JStr "a1");
        ("changed_files", JArr [JStr "src/lib.rs"]); ("checks", JArr []); ("unresolved", JArr [])].

Lemma native_profiles_nest_witness :
  validate_native_wire native_document = true /\ report_validate native_document TaskReport = true
  /\ json_size native_document <= MAX_TASK_REPORT_BYTES.
Proof.
  refine (native_profiles_nest native_document _ eq_refl).
  intros object [= <-]. apply (bool_decide_unpack _). by vm_compute.
Defined.
End TaskW.
